(* ===== verification/_CoqProject ===== *)
-Q . S2P
Prelude.v
Text.v
ContentIds.v
Codec.v
Json.v
SnapshotStore.v
SnapshotDag.v
TopoOrder.v
AncestorClosure.v
StoreClosure.v
MergeBases.v
ChunkLayout.v
PackCodec.v
DeltaEncoder.v
PackMembers.v
PackIndex.v
PackContainer.v
PackRead.v
TreePack.v
TreeArchive.v
SnapshotRebase.v
SnapshotMerge.v
FileStore.v
BinaryDb.v
BinaryLocks.v
RecordTable.v
BinaryIndex.v
ReadTxn.v
WriteTxn.v
PayloadFile.v
QuietTxn.v
ContentCodec.v
ContentStore.v
SnapshotLog.v
SnapshotAppend.v
SnapshotKind.v
SnapshotGraph.v
LineStore.v
LineLog.v
LineSpec.v
LineCommands.v
TreeStore.v
BlobStore.v
TreeReads.v
TreeCache.v
TreeEntries.v
TreeManifest.v
StillReads.v
BlobReads.v
BlobContents.v
PackPrune.v
PrunePlan.v
PruneKeeps.v
PruneFiles.v
ObjectDiff.v
TreeDiff.v
RenameHints.v
SnapshotDiff.v
