(* ===== verification/Prelude.v ===== *)
(** * ait-core, verified

    This library is a model of the core of [ait], a version control system for
    snapshots of source trees, with the theorems that make the model correct.
    Everything is about the crate under
    [src/ait-core/rust/crates/ait-core/src]; file names below are relative to
    it.

    ** The program

    A repository is a graph of snapshots. [snapshot_store.rs] is the interface
    through which the rest of the program asks for the parents of snapshots,
    and [snapshot_dag.rs] computes with it: ancestors, distances, orders, merge
    bases. [snapshot_merge.rs] merges the texts of two snapshots over a base,
    and [snapshot_rebase.rs] replays a history on another target. The contents
    of snapshots are objects in packs: [pack_substrate] selects deltas, writes
    the members of a pack in compressed chunks, and reads them back. What is
    known about snapshots, packs, trees and blobs is in the content database:
    typed records ([content_binary_db]) in record, payload and index files
    ([binary_db]); the lines of development, which point at snapshots, are in
    files of the same kind ([line_binary_db]). All of them are changed in write transactions under locks, over the
    file calls of [file_io/mod.rs].

    ** The files of the library

    The library has three towers over this prelude. [Text] has the trimming of
    texts that they share.

    Snapshots.
    - [SnapshotStore] is [snapshot_store.rs]: links and parent sets, and the
      trait as the class [SnapshotStore] with its default methods. The class
      [LawfulSnapshotStore] is what clients may assume of a store.
    - [SnapshotDag] holds the definitions of [snapshot_dag.rs]; [TopoOrder],
      [AncestorClosure], [StoreClosure] and [MergeBases] prove what Kahn's
      algorithm, the closures over a map, the batched closures over a store, and
      the merge bases compute.
    - [SnapshotRebase] is [snapshot_rebase.rs], [SnapshotMerge] is
      [snapshot_merge.rs].
    - [ObjectDiff] is [object_diff] over [object_diff_ports.rs]: the walk over
      two trees, the comparison of two manifests, and the texts of a change.
      [TreeDiff] proves what the walk reports, [RenameHints] what the
      suggestions of renamed files and moved directories mean, and
      [SnapshotDiff] that both ways of comparing agree.

    Packs.
    - [Codec] is the contract of a binary field: a writer and a reader that
      consumes a prefix of its input.
    - [ChunkLayout], [PackCodec], [DeltaEncoder], [PackMembers], [PackIndex],
      [PackContainer] and [PackRead] are [pack_substrate/chunk_layout.rs],
      the delta format in [util.rs] and [object.rs], [delta_encoder.rs], the
      member selection of [object.rs], the index format of
      [zstd/frame_index.rs], the container of [zstd/compression_helpers.rs] with
      [zstd/validation.rs], and the writer and the recursive reader of whole
      packs ([object.rs], [zstd/object_pack.rs]).
    - [Json] has the values of [serde_json] that the code builds and inspects,
      with the field readers of [util.rs]; [TreePack] is the stored form of
      trees and [TreeArchive] whole packs of trees ([tree_pack.rs],
      [zstd/tree_pack.rs]).

    Databases.
    - [FileStore] is [file_io/mod.rs]: computations that keep their state when
      they fail, over a directory tree.
    - [BinaryDb] is the filesystem adapter of [binary_db/filesystem_db.rs] on
      record and payload files, with the identities, scopes and errors it uses;
      [BinaryIndex] its index files and the cache of a read transaction;
      [RecordTable] the refinement of record files to lists of rows; [ReadTxn]
      is [binary_db/read_txn.rs].
    - [WriteTxn] is [binary_db/write_txn.rs]; [BinaryLocks] is
      [binary_db/locks.rs] with the lock tables of [identities.rs].
      [PayloadFile] and [QuietTxn] are the rules with which the stores state
      what a transaction does in which no call fails: it works on a part of the
      files, it answers from them, and it concludes.
    - [ContentCodec] holds the record and payload codecs of
      [content_binary_db/schema], [ContentIds] the names and keys of
      [content_binary_db/mod.rs].
    - [ContentStore] holds the operations of
      [content_binary_db/read/surface/snapshot_surface.rs]. [SnapshotLog] states
      which log of snapshots the three files of the store hold, and what the
      reads of a transaction return of it; [SnapshotAppend] and [SnapshotKind]
      prove how a write transaction extends and changes it; [SnapshotGraph]
      makes the store an instance of [LawfulSnapshotStore], so that the theorems
      of the first tower hold of files.
    - [TreeStore] holds the operations of
      [content_binary_db/read/surface/tree_surface.rs] and of
      [pack_surface.rs] on packs of trees, with the cache of a reader of trees.
      [TreeReads] proves what they return whatever the cache remembers,
      [TreeCache] how much it remembers, [TreeEntries] that the trees of a pack
      are listed as they were written, and [TreeManifest] which files the
      manifest of a tree has.
    - [LineStore] holds the operations of [line_binary_db/mod.rs]. [LineLog]
      states which list of lines its three files hold and what the reads return
      of it, over a class [TrueAccess] that both kinds of transaction are
      instances of; [LineSpec] is the specification of the methods that change
      lines, and [LineCommands] proves that they refine it.
    - [BlobStore] holds the operations of
      [content_binary_db/read/surface/blob_surface.rs] and of [pack_surface.rs]
      on packs of objects, with the session that blobs are read in. [StillReads]
      proves that reads leave the files alone and that views come from stored
      records; [BlobReads] what holds of every read, whatever the files hold;
      [BlobContents] states which map from ids to bytes the files represent, and
      that the reads return it.
    - [PackPrune] is [local_content_gc/binary_db_prune.rs]: the plan of a prune over
      any catalogue (the class [Catalog]), its application in a write transaction,
      and the two commands. [PrunePlan] proves what each step of a plan over lists of
      records has checked, [PruneKeeps] what the pruned catalogue keeps, and
      [PruneFiles] that the commands do this to the files.

    ** Conventions of the model

    A function that returns [Result] is a function to [result E A], with one
    constructor of [E] for every error the code can return; texts of messages
    are left out, and a panic is a constructor too. A method that changes
    [&mut self] or files is a function [S -> result E A * S] ([stateful]): the
    state of a failed call is kept, because files are not put back when a call
    fails. Bytes are [list Byte.byte], strings are [string] with their bytes,
    the [BTreeMap]s and [HashMap]s are [gmap], and machine integers are [N] with
    the checks and the wrap-around that the code has. A place where an iteration
    order is visible in the result is modelled with that order.

    Loops over data are structural recursions. The others carry fuel, and a
    theorem shows that the fuel suffices: the manifest of a tree takes one call
    per tree below it ([manifest_rows_spec]), a blob one call per base up to the
    limit of its chain ([blob_bytes_authentic]), an eviction loop of a cache removes a
    key in every round, the closures run at most once per
    known snapshot ([store_closure_total]), Kahn's algorithm once per node
    ([topological_order_exists_iff]), the entry reader as deep as the depth limit,
    the delta search once per byte of the target ([delta_roundtrip] has no
    fuel hypothesis). The walks of [ObjectDiff] recurse as deep as the stack
    has room for; where the manifests of two trees can be collected, the walk
    over them ends as well ([tree_diff_agrees]).

    File calls ([FileStore]) have an outcome that the environment chooses: a
    call works, is refused without effect, or - for an append - is torn, so that
    a part of the bytes is written before the error. Theorems quantify over all
    outcomes unless their statement asks for a part of a run without faults.
    [commit_durable] compares the contents of the visible files with those that
    are known to survive a crash, which only a flush of the file itself updates.
    The flush of a directory is a call that may fail and has no other effect:
    whether the name of a file survives is not modelled.

    Programs that take locks ([BinaryLocks]) are clients whose single calls
    interleave freely; a call may fail at any time, and a lock is granted when
    no other client holds it in a mode that excludes it.

    Code outside the repository is a parameter: zstd and SHA-256
    ([PackPrimitives], with the laws [LawfulPrimitives]: decompression inverts
    compression, digests have 32 bytes), and the differ of the [similar] crate
    ([SnapshotMerge], with the law [diff_ok]: its operations tile both texts and
    equal ranges are equal; [TextDiffer], which prints a unified diff, is
    arbitrary). The text of JSON is [JsonText] with the law that a
    value that was written is read back ([LawfulJsonText]). How much memory a
    value takes is [Allocation], and when a file was changed [FileTimes]; both
    are arbitrary. The calendar of [chrono] is [Chrono], arbitrary too. The opening of a pack file works whenever the file is there.
    Each law has an instance in the witnesses.

    ** What is proved

    - Snapshots: a closure over a map returns exactly the ancestors with their
      shortest distances, within its limits; the batched closure over any
      lawful store computes the same and terminates; a topological order exists
      exactly for acyclic graphs, is the unique greedy one, and a graph with a
      cycle gives the error for cycles and no other; the merge bases are exactly the maximal
      common ancestors, nearest first, and over a store of a well-formed
      history the computation always succeeds. Parent sets are accepted exactly
      when every rule holds.
    - Rebase and merge: the rebased tree is characterised path by path; a
      history replay has the net effect of its steps, reuses a snapshot only
      when nothing changed, and fails only with the reported conflict; a text
      merge applies the edits of both sides, is symmetric, and does not repeat
      an edit that is already there.
    - Differences: the walk over two trees reports what the comparison of the
      manifests of all their files reports; a rename is suggested exactly when
      it is the only candidate, and a directory is reported as moved exactly
      when its renames agree.
    - Packs: a pack that is written is read back entry by entry, through chains
      of deltas; deltas, containers and indexes round-trip, indexes are
      canonical; the reader is safe on arbitrary files and its cache is not
      observable; the delta search respects its budget; the trees of a pack are
      read back in the three ways that a reader asks for them.
    - Databases: when no call fails, a record file answers as a table does, with
      the errors of wrong arguments; whatever calls fail, an abort that succeeds
      restores every file, and always succeeds when records were only appended;
      a commit that reports success is durable; an index candidate that was
      appended is found again, and the reads of a transaction agree with the
      direct ones, whatever the transaction remembers;
      locks isolate writers from readers and never deadlock; every record codec
      is exact: it decodes what it encodes and nothing else; names and hashes of
      snapshots correspond.
    - The snapshot store: a transaction that appends a history of snapshots
      leaves files that hold the log of that history; changing the kind of a
      snapshot changes its record and nothing else; existence, parent links,
      pages and chains that the store reads are those of the graph of the log,
      which is well formed; so the merge bases that the program computes over
      the files are the maximal common ancestors in that graph.
    - The tree store: what a reader of trees remembers is not observable and
      stays within its budget, whatever fails; the table of packs finds what
      the scan of the packs finds; the trees of a pack on the disk are listed
      with the entries they were built from; the manifest of a tree has a row
      for every file below it, fails exactly when there is no such manifest,
      and always ends.
    - The blob store: the reads of blobs, one by one or in a batch, return the
      map from ids to bytes that the files represent, through chains of deltas
      over several packs; on arbitrary files, and whatever a session remembers, they
      never return bytes that do not have the hash and the size of a record that
      is stored; a session keeps its open packs within its budget.
    - The prune of object packs: a plan that is found for a catalogue, whatever it
      holds, loses no content when it is applied; where every live blob had its
      place, all live blobs, packs and bases have theirs afterwards, and a second
      plan is empty; on files that hold the catalogue, when no call fails, the command
      applies exactly this plan, removes the archives of the pruned packs and nothing
      else, and changes nothing when there is no plan or a fallback cannot be read.
    - The line store: every sequence of its methods answers and leaves what a
      list of lines does, errors included, and touches no other file, when no call
      fails, there is room, and the times that it is given can be shown; the reads
      return that list; of two callers that move a head from the same place
      only one succeeds.

    The hypothesis of [typed_pack_roundtrip] that the given bases are not
    members of the pack is what the callers of the writer establish.

    ** What modelling showed

    The manifest lists the places where the code does not do what it means to.
    They are proved as examples beside the definitions:
    [WriteTxn.torn_append_blocks_abort],
    [WriteTxn.refused_overwrite_blocks_abort], [ContentIds.sliced_character],
    [PackIndex.checksum_accepts_uppercase], [LineCommands.unshowable_time] and
    [SnapshotDiff.manifest_ignored].

    ** Not modelled

    Command line, agents, servers, runner, benchmarks and language bindings are
    I/O around this crate. Inside it, JSON projections, trace output, paths of
    the environment, and the directory durability of the Windows build are left
    out; the delays between the attempts of a reader to take a lock are not
    visible in its result. Of the content database the views of snapshots are
    not modelled. The plan and workflow databases and the Git tables repeat the
    scheme of the stores above over other records. Of the garbage collection the
    statistics and the view of a validation are left out, and which blobs the objects
    of a Git bundle pin is an argument of the prune. Plan items are a large
    program of their own that is left out. *)

From Stdlib Require Import NArith Lia.
From Stdlib Require Strings.Byte Strings.String.
From stdpp Require Import base numbers sorting fin_maps gmap strings list.


(** ** Results and loops with early return *)

(** Rust's [Result<A, E>]. *)
Inductive result (E A : Type) : Type :=
| Ok (a : A)
| Err (e : E).
Arguments Ok {E A} a.
Arguments Err {E A} e.

#[export] Instance result_ret {E} : MRet (result E) := fun A a => Ok a.
#[export] Instance result_bind {E} : MBind (result E) := fun A B k m =>
  match m with Ok a => k a | Err e => Err e end.
#[export] Instance result_fmap {E} : FMap (result E) := fun A B f m =>
  match m with Ok a => Ok (f a) | Err e => Err e end.

(** [Result::map_err]. *)
Definition map_err {E F A} (f : E -> F) (m : result E A) : result F A :=
  match m with Ok a => Ok a | Err e => Err (f e) end.

(** [Option::ok_or]. *)
Definition ok_or {E A} (o : option A) (e : E) : result E A :=
  match o with Some a => Ok a | None => Err e end.

(** [if cond { return Err(e) }]. *)
Definition fail_if {E} (b : bool) (e : E) : result E unit := if b then Err e else Ok tt.

Definition is_some {A} (o : option A) : bool := match o with Some _ => true | None => false end.
Definition is_ok {E A} (m : result E A) : bool := match m with Ok _ => true | Err _ => false end.

(** A [for] loop whose body may return early with an error. *)
Fixpoint foldM {E S A} (f : S -> A -> result E S) (s : S) (l : list A) : result E S :=
  match l with
  | [] => Ok s
  | x :: l => s ← f s x; foldM f s l
  end.

(** [iter().map(f).collect::<Result<Vec<_>, _>>()]. *)
Fixpoint mapM_result {E A B} (f : A -> result E B) (l : list A) : result E (list B) :=
  match l with
  | [] => Ok []
  | x :: l => y ← f x; ys ← mapM_result f l; Ok (y :: ys)
  end.

(** A [while] loop: [step] returns [inl] to go round again and [inr] to leave.
    At most [p] rounds are made; the fuel is a binary number, so that a bound
    such as [2 ^ 64] costs nothing when the loop ends early. *)
Fixpoint loop {S R} (step : S -> S + R) (p : positive) (s : S) : S + R :=
  match p with
  | xH => step s
  | xO p => match loop step p s with inl s' => loop step p s' | inr r => inr r end
  | xI p =>
      match step s with
      | inr r => inr r
      | inl s0 => match loop step p s0 with inl s' => loop step p s' | inr r => inr r end
      end
  end.

(** The same loop with a unary bound, for reasoning. *)
Fixpoint steps {S R} (step : S -> S + R) (n : nat) (s : S) : S + R :=
  match n with
  | O => inl s
  | S n => match step s with inl s' => steps step n s' | inr r => inr r end
  end.

(** ** Machine integers *)

(** [2 ^ 64]: Rust's [usize] and [u64] on the supported targets. *)
Definition u64_modulus : N := 18446744073709551616%N.
Definition usize_max : N := 18446744073709551615%N.
Definition wrapping_add (a b : N) : N := ((a + b) mod u64_modulus)%N.
Definition wrapping_mul (a b : N) : N := ((a * b) mod u64_modulus)%N.
Definition wrapping_sub (a b : N) : N := ((a + (u64_modulus - b mod u64_modulus)) mod u64_modulus)%N.
Definition saturating_add (a b : N) : N := N.min (a + b) usize_max.

(** A byte buffer, [Vec<u8>] or [&[u8]]. *)
Notation bytes := (list Byte.byte).

(** [value as u8]. *)
Definition byte_of_N (n : N) : Byte.byte :=
  match Byte.of_N (n mod 256)%N with Some b => b | None => Byte.x00 end.

(** [to_le_bytes] of an integer of [w] bytes, and its inverse. *)
Fixpoint to_le_bytes (w : nat) (n : N) : list Byte.byte :=
  match w with
  | O => []
  | S w => byte_of_N n :: to_le_bytes w (n / 256)%N
  end.
Fixpoint from_le_bytes (l : list Byte.byte) : N :=
  match l with
  | [] => 0%N
  | b :: l => (Byte.to_N b + 256 * from_le_bytes l)%N
  end.

(** ** Text *)

(** [str::as_bytes], and the string with the given bytes. *)
Definition bytes_of_string (s : string) : bytes := Stdlib.Strings.String.list_byte_of_string s.
Definition string_of_bytes (l : bytes) : string := Stdlib.Strings.String.string_of_list_byte l.

(** UTF-8 as [String::from_utf8] checks it: the ranges that the bytes after a
    lead byte must lie in. *)
Definition utf8_lead (b : N) : option (list (N * N)) :=
  (if b <=? 127 then Some []
   else if (194 <=? b) && (b <=? 223) then Some [(128, 191)]
   else if b =? 224 then Some [(160, 191); (128, 191)]
   else if b =? 237 then Some [(128, 159); (128, 191)]
   else if (225 <=? b) && (b <=? 239) then Some [(128, 191); (128, 191)]
   else if b =? 240 then Some [(144, 191); (128, 191); (128, 191)]
   else if (241 <=? b) && (b <=? 243) then Some [(128, 191); (128, 191); (128, 191)]
   else if b =? 244 then Some [(128, 143); (128, 191); (128, 191)]
   else None)%N.

Fixpoint utf8_run (l : bytes) (expect : list (N * N)) : bool :=
  match l with
  | [] => bool_decide (expect = [])
  | b :: l =>
      match expect with
      | (lo, hi) :: expect => (lo <=? Byte.to_N b)%N && (Byte.to_N b <=? hi)%N && utf8_run l expect
      | [] => match utf8_lead (Byte.to_N b) with Some expect => utf8_run l expect | None => false end
      end
  end.
Definition valid_utf8 (l : bytes) : bool := utf8_run l [].

(** What a Rust [String] is. *)
Definition utf8_string (s : string) : Prop := valid_utf8 (bytes_of_string s) = true.

(** A Rust [String] is the sequence of its UTF-8 bytes; [String.le] is the
    byte order [Ord] gives it. *)
Definition str_ltb (a b : string) : bool := bool_decide (String.le a b) && negb (bool_decide (a = b)).

Definition ascii_lower (c : Ascii.ascii) : Ascii.ascii :=
  let n := Ascii.N_of_ascii c in
  if (65 <=? n)%N && (n <=? 90)%N then Ascii.ascii_of_N (n + 32) else c.

(** [str::to_ascii_lowercase]. *)
Fixpoint to_ascii_lowercase (s : string) : string :=
  match s with
  | EmptyString => EmptyString
  | String c s => String (ascii_lower c) (to_ascii_lowercase s)
  end.

(** [str::eq_ignore_ascii_case]. *)
Definition eq_ignore_ascii_case (a b : string) : bool :=
  bool_decide (to_ascii_lowercase a = to_ascii_lowercase b).

(** The UTF-8 encodings of the characters with the [White_Space] property. *)
Definition white_space_codes : list (list N) :=
  [[9]; [10]; [11]; [12]; [13]; [32];
   [194; 133]; [194; 160]; [225; 154; 128];
   [226; 128; 128]; [226; 128; 129]; [226; 128; 130]; [226; 128; 131];
   [226; 128; 132]; [226; 128; 133]; [226; 128; 134]; [226; 128; 135];
   [226; 128; 136]; [226; 128; 137]; [226; 128; 138];
   [226; 128; 168]; [226; 128; 169]; [226; 128; 175]; [226; 129; 159];
   [227; 128; 128]]%N.

Fixpoint strip_code (code l : list N) : option (list N) :=
  match code, l with
  | [], _ => Some l
  | c :: code, x :: l => if N.eqb c x then strip_code code l else None
  | _ :: _, [] => None
  end.

Fixpoint strip_any (codes : list (list N)) (l : list N) : option (list N) :=
  match codes with
  | [] => None
  | c :: codes => match strip_code c l with Some l' => Some l' | None => strip_any codes l end
  end.

Fixpoint trim_start_codes (codes : list (list N)) (fuel : nat) (l : list N) : list N :=
  match fuel with
  | O => l
  | S fuel => match strip_any codes l with Some l' => trim_start_codes codes fuel l' | None => l end
  end.

Definition codes_of_string (s : string) : list N := map Ascii.N_of_ascii (String.list_ascii_of_string s).
Definition string_of_codes (l : list N) : string := String.string_of_list_ascii (map Ascii.ascii_of_N l).

(** [str::trim]. *)
Definition trim (s : string) : string :=
  let l := codes_of_string s in
  let front := trim_start_codes white_space_codes (length l) l in
  let back := trim_start_codes (map (@rev N) white_space_codes) (length front) (rev front) in
  string_of_codes (rev back).

(** Negation of the guard [v.trim().is_empty() || v.trim() != v]. *)
Definition canonical_text (v : string) : bool :=
  negb (bool_decide (trim v = EmptyString) || negb (bool_decide (trim v = v))).

(** ** Ordered containers *)

(** A [BTreeSet<String>] is a [gset string] and a [BTreeMap<String, V>] a
    [gmap string V]; iteration visits the keys in increasing byte order. *)
Definition sorted_elements (X : gset string) : list string := merge_sort String.le (elements X).
Definition sorted_keys {V} (m : gmap string V) : list string := sorted_elements (dom m).
Definition sorted_entries {V} (m : gmap string V) : list (string * V) :=
  omap (fun k => (fun v => (k, v)) <$> m !! k) (sorted_keys m).

(** [sort_by_key], which keeps the order of elements with the same key. *)
Fixpoint insert_by {A} (key : A -> string) (x : A) (l : list A) : list A :=
  match l with
  | [] => [x]
  | y :: l => if bool_decide (String.le (key x) (key y)) then x :: y :: l else y :: insert_by key x l
  end.
Definition sort_by_key {A} (key : A -> string) (l : list A) : list A := foldr (insert_by key) [] l.

(** [sort_by] with an order that is given as a test. *)
Fixpoint insert_le {A} (le : A -> A -> bool) (x : A) (l : list A) : list A :=
  match l with [] => [x] | y :: l => if le x y then x :: y :: l else y :: insert_le le x l end.
Definition sort_le {A} (le : A -> A -> bool) (l : list A) : list A := foldr (insert_le le) [] l.

(** ** Lemmas on results *)

Create HintDb ait discriminated.

Lemma bind_Ok {E A B} (m : result E A) (k : A -> result E B) b :
  (m ≫= k) = Ok b <-> exists a, m = Ok a /\ k a = Ok b.
Proof. destruct m as [a|e]; simpl; split; [eauto|by intros (?&[= ->]&?)|done|by intros (?&[=]&?)]. Qed.

Lemma bind_Err {E A B} (m : result E A) (k : A -> result E B) e :
  (m ≫= k) = Err e <-> m = Err e \/ exists a, m = Ok a /\ k a = Err e.
Proof.
  unfold mbind, result_bind; destruct m as [a|e']; split; intros H.
  - right; eauto.
  - destruct H as [H|(x & H1 & H2)]; congruence.
  - left; congruence.
  - destruct H as [H|(x & H1 & H2)]; simplify_eq/=; done.
Qed.

Lemma fail_if_Ok {E} b (e : E) u : fail_if b e = Ok u <-> b = false.
Proof. by destruct b, u. Qed.

Lemma ok_or_Ok {E A} (o : option A) (e : E) a : ok_or o e = Ok a <-> o = Some a.
Proof. by destruct o; simpl; split; intros [=]; subst. Qed.

Lemma map_err_Ok {E F A} (f : E -> F) (m : result E A) a : map_err f m = Ok a <-> m = Ok a.
Proof. by destruct m; simpl; split; intros [=]; subst. Qed.

(** Decompose the equations that say that a computation returned [Ok]. *)
Ltac inv_ok :=
  repeat match goal with
  | H : (_ ≫= _) = Ok _ |- _ =>
      let a := fresh "a" in let H1 := fresh "Hok" in
      apply bind_Ok in H; destruct H as (a & H1 & H)
  | H : fail_if _ _ = Ok _ |- _ => apply fail_if_Ok in H
  | H : ok_or _ _ = Ok _ |- _ => apply ok_or_Ok in H
  | H : map_err _ _ = Ok _ |- _ => apply map_err_Ok in H
  | H : Ok _ = Ok _ |- _ => injection H as H
  | H : Err _ = Ok _ |- _ => discriminate H
  | H : Ok _ = Err _ |- _ => discriminate H
  end; simplify_eq/=.

(** Drop the first computation of a bind that returned [Ok]. *)
Ltac skip_bind H := let a := fresh "a" in apply bind_Ok in H as (a & _ & H).

Lemma foldM_app {E S A} (f : S -> A -> result E S) s l1 l2 :
  foldM f s (l1 ++ l2) = (foldM f s l1 ≫= fun s' => foldM f s' l2).
Proof.
  revert s; induction l1 as [|x l1 IH]; intros s; [done|].
  simpl. destruct (f s x); simpl; auto.
Qed.

(** Invariant rule: [P done s] holds when the elements [done] were visited. *)
Lemma foldM_ind {E S A} (f : S -> A -> result E S) (P : list A -> S -> Prop) l s s' :
  P [] s ->
  (forall done x rest s1 s2, l = done ++ x :: rest -> P done s1 -> f s1 x = Ok s2 -> P (done ++ [x]) s2) ->
  foldM f s l = Ok s' -> P l s'.
Proof.
  intros H0 Hstep.
  enough (forall rest done s0, l = done ++ rest -> P done s0 -> foldM f s0 rest = Ok s' -> P l s') as Hen.
  { intros. eapply (Hen l []); eauto. }
  induction rest as [|x rest IH]; intros done s0 Hl HP Hf; simpl in Hf.
  - rewrite app_nil_r in Hl. by simplify_eq.
  - inv_ok. eapply (IH (done ++ [x])); [by rewrite <- app_assoc|by eapply Hstep|done].
Qed.

(** The same rule, showing also that no iteration fails. *)
Lemma foldM_total {E S A} (f : S -> A -> result E S) (P : list A -> S -> Prop) l s :
  P [] s ->
  (forall done x rest s1, l = done ++ x :: rest -> P done s1 -> exists s2, f s1 x = Ok s2 /\ P (done ++ [x]) s2) ->
  exists s', foldM f s l = Ok s' /\ P l s'.
Proof.
  intros H0 Hstep.
  enough (forall rest done s0, l = done ++ rest -> P done s0 -> exists s', foldM f s0 rest = Ok s' /\ P l s') as Hen.
  { intros. eapply (Hen l []); eauto. }
  induction rest as [|x rest IH]; intros done s0 Hl HP; simpl.
  - rewrite app_nil_r in Hl. simplify_eq. eauto.
  - destruct (Hstep done x rest s0) as (s2 & -> & HP2); [done..|].
    apply (IH (done ++ [x])); [by rewrite <- app_assoc|done].
Qed.

Lemma foldM_ext_in {E S A} (f g : S -> A -> result E S) s l :
  (forall s' x, x ∈ l -> f s' x = g s' x) -> foldM f s l = foldM g s l.
Proof.
  revert s; induction l as [|x l IH]; intros s H; simpl; [done|].
  rewrite H by set_solver. destruct (g s x); simpl; [|done]. apply IH. set_solver.
Qed.

Lemma mapM_result_Ok {E A B} (f : A -> result E B) l l' :
  mapM_result f l = Ok l' <-> Forall2 (fun x y => f x = Ok y) l l'.
Proof.
  revert l'; induction l as [|x l IH]; intros l'; simpl; split.
  - intros; inv_ok. constructor.
  - by inversion 1.
  - intros. inv_ok. constructor; [done|by apply IH].
  - inversion 1; subst. rewrite H2; simpl. apply IH in H4. by rewrite H4.
Qed.

(** ** Lemmas on bounded loops *)

Lemma steps_add {S R} (step : S -> S + R) n m s :
  steps step (n + m) s = match steps step n s with inl s' => steps step m s' | inr r => inr r end.
Proof. revert s; induction n as [|n IH]; intros s; simpl; [done|]. destruct (step s); auto. Qed.

Lemma loop_steps {S R} (step : S -> S + R) p s : loop step p s = steps step (Pos.to_nat p) s.
Proof.
  revert s; induction p as [p IH|p IH|]; intros s; cbn [loop].
  - rewrite Pos2Nat.inj_xI. cbn [steps]. destruct (step s) as [s0|r]; [|done].
    replace (2 * Pos.to_nat p) with (Pos.to_nat p + Pos.to_nat p) by lia.
    rewrite steps_add, IH. by destruct (steps step (Pos.to_nat p) s0).
  - rewrite Pos2Nat.inj_xO. replace (2 * Pos.to_nat p) with (Pos.to_nat p + Pos.to_nat p) by lia.
    rewrite steps_add, IH. by destruct (steps step (Pos.to_nat p) s).
  - rewrite Pos2Nat.inj_1. cbn [steps]. by destruct (step s).
Qed.

Lemma steps_ind {S R} (step : S -> S + R) (I : S -> Prop) (Q : R -> Prop) n s r :
  I s ->
  (forall s, I s -> match step s with inl s' => I s' | inr r => Q r end) ->
  steps step n s = inr r -> Q r.
Proof.
  intros HI Hstep. revert s HI; induction n as [|n IH]; intros s HI Hs; simpl in Hs; [done|].
  specialize (Hstep s HI) as Hst. destruct (step s); [by eapply IH|by simplify_eq].
Qed.

(** A loop whose first round leaves. *)
Lemma loop_stop {S R} (step : S -> S + R) p s r : step s = inr r -> loop step p s = inr r.
Proof. intros H. rewrite loop_steps. destruct (Pos2Nat.is_succ p) as [n ->]. cbn. by rewrite H. Qed.

(** Partial correctness of a loop. *)
Lemma loop_ind {S R} (step : S -> S + R) (I : S -> Prop) (Q : R -> Prop) p s r :
  I s ->
  (forall s, I s -> match step s with inl s' => I s' | inr r => Q r end) ->
  loop step p s = inr r -> Q r.
Proof. rewrite loop_steps. apply steps_ind. Qed.

(** Total correctness: a measure smaller than the fuel decreases at each round. *)
Lemma loop_total {S R} (step : S -> S + R) (I : S -> Prop) (m : S -> nat) (Q : R -> Prop) p s :
  I s -> m s < Pos.to_nat p ->
  (forall s, I s -> match step s with inl s' => I s' /\ m s' < m s | inr r => Q r end) ->
  exists r, loop step p s = inr r /\ Q r.
Proof.
  rewrite loop_steps. intros HI Hm Hstep. remember (Pos.to_nat p) as n eqn:Heq; clear Heq p.
  revert s HI Hm; induction n as [|n IH]; intros s HI Hm; [lia|]. simpl.
  specialize (Hstep s HI) as Hst. destruct (step s) as [s'|r]; [|by eauto].
  destruct Hst as [HI' Hm']. apply IH; [done|lia].
Qed.

(** A loop that left within some fuel leaves in the same way with more. *)
Lemma steps_mono {S R} (step : S -> S + R) n m s r :
  steps step n s = inr r -> n <= m -> steps step m s = inr r.
Proof.
  intros H Hle. replace m with (n + (m - n)) by lia. by rewrite steps_add, H.
Qed.

(** ** Lemmas on machine integers *)

(** Case analysis on the comparisons of naturals in the goal. *)
Ltac case_N_order :=
  repeat match goal with
  | |- context [(?a <=? ?b)%N] => destruct (N.leb_spec a b)
  | |- context [(?a <? ?b)%N] => destruct (N.ltb_spec a b)
  end.

Lemma byte_of_N_to_N n : Byte.to_N (byte_of_N n) = (n mod 256)%N.
Proof.
  unfold byte_of_N. destruct (Byte.of_N (n mod 256)%N) as [b|] eqn:Hb.
  - by apply Byte.to_of_N.
  - apply Byte.of_N_None_iff in Hb. pose proof (N.mod_upper_bound n 256). lia.
Qed.

Lemma byte_of_to_N b : byte_of_N (Byte.to_N b) = b.
Proof.
  unfold byte_of_N. pose proof (Byte.to_N_bounded b).
  rewrite N.mod_small by lia. by rewrite Byte.of_to_N.
Qed.

Lemma to_N_inj a b : Byte.to_N a = Byte.to_N b -> a = b.
Proof. intros H. by rewrite <- (byte_of_to_N a), H, byte_of_to_N. Qed.

Lemma to_N_lt b : (Byte.to_N b < 256)%N.
Proof. pose proof (Byte.to_N_bounded b). lia. Qed.

#[export] Instance byte_eq_dec : EqDecision Byte.byte := Byte.byte_eq_dec.
#[export] Instance byte_countable : Countable Byte.byte.
Proof. refine (inj_countable' Byte.to_N byte_of_N _). exact byte_of_to_N. Defined.

Lemma length_to_le_bytes w n : length (to_le_bytes w n) = w.
Proof. revert n; induction w; intros n; simpl; auto. Qed.

Lemma from_to_le_bytes w n : (n < 256 ^ N.of_nat w)%N -> from_le_bytes (to_le_bytes w n) = n.
Proof.
  revert n; induction w as [|w IH]; intros n Hn.
  - change (256 ^ N.of_nat 0)%N with 1%N in Hn. simpl. lia.
  - cbn [to_le_bytes from_le_bytes]. rewrite byte_of_N_to_N, IH.
    + rewrite (N.div_mod n 256) at 3 by lia. lia.
    + apply N.Div0.div_lt_upper_bound. rewrite Nat2N.inj_succ, N.pow_succ_r' in Hn. lia.
Qed.

Lemma to_le_bytes_inj w a b :
  (a < 256 ^ N.of_nat w)%N -> (b < 256 ^ N.of_nat w)%N -> to_le_bytes w a = to_le_bytes w b -> a = b.
Proof. intros Ha Hb H. by rewrite <- (from_to_le_bytes w a), H, from_to_le_bytes. Qed.

Lemma to_from_le_bytes l : to_le_bytes (length l) (from_le_bytes l) = l.
Proof.
  induction l as [|b l IH]; cbn [length to_le_bytes from_le_bytes]; [done|].
  pose proof (to_N_lt b). f_equal.
  - apply to_N_inj. rewrite byte_of_N_to_N.
    rewrite (N.mul_comm 256), N.Div0.mod_add. by apply N.mod_small.
  - rewrite (N.mul_comm 256), N.div_add, N.div_small by lia. done.
Qed.

Lemma from_le_bytes_lt l : (from_le_bytes l < 256 ^ N.of_nat (length l))%N.
Proof.
  induction l as [|b l IH]; cbn [length from_le_bytes]; [done|].
  pose proof (to_N_lt b). rewrite Nat2N.inj_succ, N.pow_succ_r'. lia.
Qed.

(** A number is its low [k] bits and the rest. *)
Lemma split_low_bits x k : N.lor (N.land x (N.ones k)) (N.shiftl (N.shiftr x k) k) = x.
Proof.
  apply N.bits_inj. intros n. rewrite N.lor_spec, N.land_spec. destruct (N.ltb_spec n k).
  - rewrite N.ones_spec_low, N.shiftl_spec_low by done. by rewrite andb_true_r, orb_false_r.
  - rewrite N.ones_spec_high, N.shiftl_spec_high', N.shiftr_spec' by done.
    rewrite andb_false_r. cbn. f_equal. lia.
Qed.

Lemma byte_of_N_small n : (n < 256)%N -> Byte.to_N (byte_of_N n) = n.
Proof. intros H. by rewrite byte_of_N_to_N, N.mod_small. Qed.

Lemma land_255 n : (n mod 256)%N = N.land n 255.
Proof. change 255%N with (N.ones 8). by rewrite N.land_ones. Qed.

Lemma testbit_high n w k : (n < 2 ^ w)%N -> (w <= k)%N -> N.testbit n k = false.
Proof.
  intros Hn Hk. destruct (decide (n = 0%N)) as [->|Hz]; [apply N.bits_0|].
  apply N.bits_above_log2. apply N.log2_lt_pow2 in Hn; lia.
Qed.

Lemma string_of_bytes_of_string s : string_of_bytes (bytes_of_string s) = s.
Proof. apply Stdlib.Strings.String.string_of_list_byte_of_string. Qed.

Lemma bytes_of_string_of_bytes l : bytes_of_string (string_of_bytes l) = l.
Proof. apply Stdlib.Strings.String.list_byte_of_string_of_list_byte. Qed.

Lemma codes_of_string_of_bytes l : codes_of_string (string_of_bytes l) = map Byte.to_N l.
Proof.
  unfold codes_of_string, string_of_bytes, Stdlib.Strings.String.string_of_list_byte.
  rewrite Stdlib.Strings.String.list_ascii_of_string_of_list_ascii, List.map_map. apply List.map_ext. intros b.
  rewrite Stdlib.Strings.Ascii.ascii_of_byte_via_N. apply Stdlib.Strings.Ascii.N_ascii_embedding. apply to_N_lt.
Qed.

(** ** Lemmas on ordered containers *)

Lemma elem_of_sorted_elements x X : x ∈ sorted_elements X <-> x ∈ X.
Proof.
  unfold sorted_elements. rewrite (merge_sort_Permutation String.le (elements X)).
  apply elem_of_elements.
Qed.

Lemma NoDup_sorted_elements X : NoDup (sorted_elements X).
Proof.
  unfold sorted_elements. rewrite (merge_sort_Permutation String.le (elements X)).
  apply NoDup_elements.
Qed.

Lemma sorted_elements_sorted X : StronglySorted String.le (sorted_elements X).
Proof. unfold sorted_elements. apply StronglySorted_merge_sort; apply _. Qed.

Lemma length_sorted_elements X : length (sorted_elements X) = size X.
Proof. unfold sorted_elements. by rewrite (merge_sort_Permutation String.le (elements X)). Qed.

Lemma elem_of_sorted_keys {V} x (m : gmap string V) : x ∈ sorted_keys m <-> is_Some (m !! x).
Proof. unfold sorted_keys. by rewrite elem_of_sorted_elements, elem_of_dom. Qed.

Lemma NoDup_sorted_keys {V} (m : gmap string V) : NoDup (sorted_keys m).
Proof. apply NoDup_sorted_elements. Qed.

Lemma elem_of_sorted_entries {V} k v (m : gmap string V) :
  (k, v) ∈ sorted_entries m <-> m !! k = Some v.
Proof.
  unfold sorted_entries. rewrite list_elem_of_omap. split.
  - intros (k' & Hk & He). destruct (m !! k') eqn:Hm; naive_solver.
  - intros Hm. exists k. rewrite elem_of_sorted_keys, Hm. split; [by eexists|done].
Qed.

Lemma sorted_entries_keys {V} (m : gmap string V) : map fst (sorted_entries m) = sorted_keys m.
Proof.
  unfold sorted_entries.
  assert (forall l, (forall k, k ∈ l -> is_Some (m !! k)) ->
    map fst (omap (fun k => (fun v => (k, v)) <$> m !! k) l) = l) as Hgen.
  { induction l as [|k l IH]; intros Hl; [done|].
    destruct (Hl k) as [v Hv]; [set_solver|]. cbn. rewrite Hv. cbn. f_equal.
    apply IH. set_solver. }
  apply Hgen. intros k. by rewrite elem_of_sorted_keys.
Qed.

#[export] Hint Resolve NoDup_sorted_elements NoDup_sorted_keys sorted_elements_sorted to_N_lt : ait.

(** ** More lemmas on lists *)

Lemma StronglySorted_weaken {A} (R R' : relation A) (l : list A) :
  (forall x y, R x y -> R' x y) -> StronglySorted R l -> StronglySorted R' l.
Proof.
  intros HR. induction 1 as [|x l _ IH Hall]; constructor; [done|]. eapply Forall_impl; [exact Hall|apply HR].
Qed.

Lemma foldM_Ok_each {E S A} (f : S -> A -> result E S) s l s' x :
  foldM f s l = Ok s' -> x ∈ l -> exists s1 s2, f s1 x = Ok s2.
Proof.
  revert s; induction l as [|y l IH]; intros s Hf Hx; [set_solver|].
  cbn in Hf. inv_ok. apply elem_of_cons in Hx as [->|Hx]; eauto.
Qed.

Lemma elem_of_snoc {A} (x : A) l y : x ∈ l ++ [y] <-> x ∈ l \/ x = y.
Proof. by rewrite elem_of_app, list_elem_of_singleton. Qed.

Lemma NoDup_length_le_size (l : list string) (X : gset string) :
  NoDup l -> (forall x, x ∈ l -> x ∈ X) -> length l <= size X.
Proof.
  intros Hnd Hin. replace (length l) with (size (list_to_set l : gset string)).
  - apply subseteq_size. set_solver.
  - by rewrite size_list_to_set.
Qed.

Lemma NoDup_length_size_all (l : list string) (X : gset string) :
  NoDup l -> (forall x, x ∈ l -> x ∈ X) -> length l = size X -> forall x, x ∈ X -> x ∈ l.
Proof.
  intros Hnd Hin Hlen x Hx.
  assert ((list_to_set l : gset string) = X) as Heq; [|set_solver].
  apply set_subseteq_size_eq; [set_solver|]. rewrite size_list_to_set by done. lia.
Qed.

Lemma filter_all_nil {A} (P : A -> Prop) `{!forall x, Decision (P x)} (l : list A) :
  length (filter P l) = 0 <-> forall x, x ∈ l -> ~ P x.
Proof.
  rewrite length_zero_iff_nil. split.
  - intros Hnil x Hx HP. assert (x ∈ filter P l) as Hin by (by apply list_elem_of_filter).
    rewrite Hnil in Hin. by apply elem_of_nil in Hin.
  - intros Hall. destruct (filter P l) as [|x l'] eqn:Hf; [done|].
    assert (x ∈ filter P l) as [HP Hx]%list_elem_of_filter by (rewrite Hf; set_solver).
    by destruct (Hall x).
Qed.

Lemma list_filter_id {A} (P : A -> Prop) `{!forall x, Decision (P x)} (l : list A) :
  (forall x, x ∈ l -> P x) -> filter P l = l.
Proof.
  induction l as [|x l IH]; intros Hall; [done|]. rewrite filter_cons, decide_True by (apply Hall; set_solver).
  f_equal. apply IH. set_solver.
Qed.

Lemma list_filter_ext_in {A} (P Q : A -> Prop) `{!forall x, Decision (P x), !forall x, Decision (Q x)} (l : list A) :
  (forall x, x ∈ l -> P x <-> Q x) -> filter P l = filter Q l.
Proof.
  induction l as [|x l IH]; intros Hext; [done|]. rewrite !filter_cons.
  assert (P x <-> Q x) as Hx by (apply Hext; set_solver).
  rewrite IH by (intros; apply Hext; set_solver).
  destruct (decide (P x)), (decide (Q x)); tauto || done.
Qed.

(** Taking one more element out of a duplicate-free list. *)
Lemma length_filter_not_snoc (l ordered : list string) (id : string) :
  NoDup l -> id ∈ l -> id ∉ ordered ->
  length (filter (fun p => p ∉ ordered ++ [id]) l) + 1 = length (filter (fun p => p ∉ ordered) l).
Proof.
  intros Hnd Hid Hno. induction l as [|x l IH]; [set_solver|].
  apply NoDup_cons in Hnd as [Hx Hnd]. rewrite !filter_cons.
  destruct (decide (x = id)) as [->|Hne].
  - rewrite decide_False by set_solver. rewrite decide_True by done. cbn.
    enough (filter (fun p => p ∉ ordered ++ [id]) l = filter (fun p => p ∉ ordered) l) as -> by lia.
    apply list_filter_ext_in. intros y Hy. set_solver.
  - assert (id ∈ l) as Hin by set_solver. specialize (IH Hnd Hin).
    destruct (decide (x ∉ ordered)) as [Ho|Ho].
    + rewrite decide_True by set_solver. cbn. lia.
    + rewrite decide_False by set_solver. lia.
Qed.

Lemma filter_not_snoc_id (l ordered : list string) (id : string) :
  id ∉ l -> filter (fun p => p ∉ ordered ++ [id]) l = filter (fun p => p ∉ ordered) l.
Proof. intros Hid. apply list_filter_ext_in. intros y Hy. set_solver. Qed.

(** A fold over a larger state projects to a fold over a part of it. *)
Lemma foldM_project {E S T A} (pi : S -> T) (f : S -> A -> result E S) (h : T -> A -> result E T) s l :
  (forall s x, x ∈ l -> pi <$> f s x = h (pi s) x) -> pi <$> foldM f s l = foldM h (pi s) l.
Proof.
  revert s; induction l as [|x l IH]; intros s Hfh; [done|]. cbn [foldM].
  rewrite <- Hfh by set_solver. destruct (f s x); [|done]. apply IH. set_solver.
Qed.

Lemma fmap_Ok {E A B} (f : A -> B) (m : result E A) b : (f <$> m) = Ok b <-> exists a, m = Ok a /\ b = f a.
Proof.
  destruct m as [a|e]; split; cbn.
  - intros [= <-]. by exists a.
  - intros (a' & [= ->] & ->). done.
  - done.
  - by intros (? & [=] & _).
Qed.

Lemma fail_if_Err {E} b (e e' : E) : fail_if b e = Err e' -> e' = e /\ b = true.
Proof. destruct b; [by intros [= ->]|done]. Qed.

(** The iteration at which a loop returned early. *)
Lemma foldM_Err {E S A} (f : S -> A -> result E S) s l e : foldM f s l = Err e ->
  exists done x rest s1, l = done ++ x :: rest /\ foldM f s done = Ok s1 /\ f s1 x = Err e.
Proof.
  revert s; induction l as [|x l IH]; intros s H; [done|]. cbn in H. apply bind_Err in H as [H|(s1 & Hs & H)].
  - by exists [], x, l, s.
  - destruct (IH s1 H) as (done & y & rest & s2 & -> & Hd & Hy). exists (x :: done), y, rest, s2. split; [done|].
    split; [|done]. cbn. by rewrite Hs.
Qed.

(** A loop without early return, by induction on the prefix done. *)
Lemma foldl_ind {S A} (f : S -> A -> S) (P : list A -> S -> Prop) l s :
  P [] s -> (forall done x rest s', l = done ++ x :: rest -> P done s' -> P (done ++ [x]) (f s' x)) -> P l (foldl f s l).
Proof.
  induction l as [|x l IH] using rev_ind; intros H0 Hstep; [done|]. rewrite foldl_snoc. apply (Hstep l x []); [done|].
  apply IH; [done|]. intros done y rest s' -> Hd. apply (Hstep done y (rest ++ [x])); [|done]. by rewrite <- app_assoc.
Qed.

Lemma filter_snoc {A} (P : A -> Prop) `{!forall x, Decision (P x)} (l : list A) x :
  filter P (l ++ [x]) = filter P l ++ if decide (P x) then [x] else [].
Proof. by rewrite filter_app, filter_cons, filter_nil. Qed.

Lemma StronglySorted_filter {A} (R : relation A) (P : A -> Prop) `{!forall x, Decision (P x)} (l : list A) :
  StronglySorted R l -> StronglySorted R (filter P l).
Proof.
  induction 1 as [|x l Hl IH Hx]; [constructor|]. rewrite filter_cons. destruct (decide (P x)); [|done].
  constructor; [done|]. apply Forall_forall. intros y [_ Hy]%list_elem_of_filter. by eapply Forall_forall in Hx.
Qed.

(** ** Stable sorting *)

Lemma insert_by_perm {A} (key : A -> string) x l : insert_by key x l ≡ₚ x :: l.
Proof.
  induction l as [|y l IH]; cbn; [done|]. destruct (bool_decide _); [done|]. rewrite IH. by apply Permutation_swap.
Qed.

Lemma sort_by_key_perm {A} (key : A -> string) l : sort_by_key key l ≡ₚ l.
Proof. unfold sort_by_key. induction l as [|x l IH]; cbn; [done|]. by rewrite insert_by_perm, IH. Qed.

Lemma insert_by_map {A B} (f : A -> B) (key : B -> string) x l : insert_by key (f x) (map f l) = map f (insert_by (fun a => key (f a)) x l).
Proof. induction l as [|y l IH]; cbn; [done|]. destruct (bool_decide _); cbn; [done|by rewrite IH]. Qed.

Lemma sort_by_key_map {A B} (f : A -> B) (key : B -> string) l : sort_by_key key (map f l) = map f (sort_by_key (fun a => key (f a)) l).
Proof. unfold sort_by_key. induction l as [|x l IH]; cbn; [done|]. by rewrite IH, insert_by_map. Qed.

Lemma insert_by_ext {A} (key key' : A -> string) x l : (forall a, a ∈ x :: l -> key a = key' a) -> insert_by key x l = insert_by key' x l.
Proof.
  induction l as [|y l IH]; cbn; intros H; [done|]. rewrite (H x), (H y) by set_solver. destruct (bool_decide _); [done|].
  rewrite IH; [done|]. intros; apply H; set_solver.
Qed.

Lemma sort_by_key_ext {A} (key key' : A -> string) l : (forall a, a ∈ l -> key a = key' a) -> sort_by_key key l = sort_by_key key' l.
Proof.
  induction l as [|x l IH]; intros H; [done|]. change (insert_by key x (sort_by_key key l) = insert_by key' x (sort_by_key key' l)).
  rewrite IH by (intros; apply H; set_solver). apply insert_by_ext. intros a Ha. apply H.
  apply elem_of_cons in Ha as [->|Ha]; [set_solver|]. rewrite sort_by_key_perm in Ha. set_solver.
Qed.

Lemma insert_by_sorted {A} (key : A -> string) x l : StronglySorted (fun a b => String.le (key a) (key b)) l ->
  StronglySorted (fun a b => String.le (key a) (key b)) (insert_by key x l).
Proof.
  induction 1 as [|y l Hl IH Hall]; cbn; [by repeat constructor|]. destruct (bool_decide_reflect (String.le (key x) (key y))) as [Hle|Hgt].
  - constructor; [by constructor|]. constructor; [done|]. eapply Forall_impl; [exact Hall|]. intros z Hz. by etrans.
  - constructor; [done|]. apply Forall_forall. intros z Hz. rewrite insert_by_perm in Hz. apply elem_of_cons in Hz as [->|Hz].
    + by destruct (total String.le (key x) (key y)).
    + rewrite Forall_forall in Hall. by apply Hall.
Qed.

Lemma sort_by_key_sorted {A} (key : A -> string) l : StronglySorted (fun a b => String.le (key a) (key b)) (sort_by_key key l).
Proof. induction l as [|x l IH]; cbn; [constructor|by apply insert_by_sorted]. Qed.

(** ** Concatenated texts *)

Lemma bytes_of_string_app a b : bytes_of_string (a +:+ b) = bytes_of_string a ++ bytes_of_string b.
Proof.
  unfold bytes_of_string, Stdlib.Strings.String.list_byte_of_string. induction a as [|c a IH]; [done|]. cbn. by rewrite <- IH.
Qed.

Lemma utf8_run_app l1 l2 expect : utf8_run l1 expect = true -> utf8_run (l1 ++ l2) expect = valid_utf8 l2.
Proof.
  revert expect. induction l1 as [|b l1 IH]; intros expect H; cbn in *; [by apply bool_decide_eq_true in H as ->|].
  destruct expect as [|[lo hi] expect].
  - destruct (utf8_lead _); [by apply IH|done].
  - apply andb_true_iff in H as [-> H]. by apply IH.
Qed.

Lemma utf8_string_app a b : utf8_string a -> utf8_string b -> utf8_string (a +:+ b).
Proof. unfold utf8_string. intros Ha Hb. rewrite bytes_of_string_app. unfold valid_utf8 at 1. by rewrite utf8_run_app. Qed.

Lemma insert_le_perm {A} (le : A -> A -> bool) x l : insert_le le x l ≡ₚ x :: l.
Proof. induction l as [|y l IH]; cbn; [done|]. destruct (le x y); [done|]. rewrite IH. apply Permutation_swap. Qed.
Lemma sort_le_perm {A} (le : A -> A -> bool) l : sort_le le l ≡ₚ l.
Proof. induction l as [|x l IH]; cbn; [done|]. by rewrite insert_le_perm, IH. Qed.

Lemma sort_le_sorted {A} (le : A -> A -> bool) l : (forall a b, le a b = true \/ le b a = true) -> (forall a b c, le a b = true -> le b c = true -> le a c = true) ->
  StronglySorted (fun a b => le a b = true) (sort_le le l).
Proof.
  intros Htotal Htrans. induction l as [|x l IH]; [constructor|]. change (sort_le le (x :: l)) with (insert_le le x (sort_le le l)).
  induction IH as [|y l' Hl' IH' Hy]; cbn [insert_le]; [repeat constructor|].
  destruct (le x y) eqn:Hxy.
  - constructor; [by constructor|]. constructor; [done|]. eapply Forall_impl; [exact Hy|]. intros z Hz. by apply (Htrans x y z).
  - constructor; [done|]. rewrite insert_le_perm. constructor; [|done]. destruct (Htotal x y) as [H|H]; [congruence|done].
Qed.
