(* ===== verification/Text.v ===== *)
(** * Trimmed text

    What [str::trim] leaves of a text: white space is taken off both ends, what
    is left has none at its ends and is valid UTF-8. *)

From Stdlib Require Import NArith Lia.
From Stdlib Require Strings.Byte Strings.String.
From stdpp Require Import base numbers strings list.
From S2P Require Import Prelude.

Lemma string_of_codes_of_bytes l : string_of_codes (map Byte.to_N l) = string_of_bytes l.
Proof.
  unfold string_of_codes, string_of_bytes, Stdlib.Strings.String.string_of_list_byte. f_equal.
  rewrite List.map_map. apply List.map_ext. intros b. symmetry. apply Stdlib.Strings.Ascii.ascii_of_byte_via_N.
Qed.

(** ** Taking codes off the front *)

Lemma strip_code_Some code l l' : strip_code code l = Some l' <-> l = code ++ l'.
Proof.
  revert l. induction code as [|c code IH]; intros l; cbn; [split; [by intros [= ->]|by intros ->]|]. destruct l as [|x l]; [done|].
  destruct (N.eqb_spec c x) as [->|Hne]; [rewrite IH; split; [by intros ->|by intros [= ->]]|]. split; [done|]. by intros [= <- _].
Qed.

Lemma strip_any_Some codes l l' : strip_any codes l = Some l' -> exists c, c ∈ codes /\ l = c ++ l'.
Proof.
  induction codes as [|c codes IH]; cbn; [done|]. destruct (strip_code c l) as [l2|] eqn:Hc; [|intros (c' & ? & ?)%IH; exists c'; split; [by right|done]].
  intros [= ->]. exists c. split; [left|by apply strip_code_Some].
Qed.

(** No code is a prefix of [l]. *)
Lemma strip_any_None codes l : strip_any codes l = None <-> forall c l', c ∈ codes -> l <> c ++ l'.
Proof.
  induction codes as [|c codes IH]; cbn; [split; [by intros _ c l' ?%elem_of_nil|done]|]. destruct (strip_code c l) as [l2|] eqn:Hc.
  - split; [done|]. intros H. destruct (H c l2); [left|by apply strip_code_Some].
  - rewrite IH. split; [|intros H c' l' Hin; apply H; by right]. intros H c' l' [->|Hin]%elem_of_cons; [|by apply H].
    intros Heq%strip_code_Some. congruence.
Qed.

Lemma strip_any_prefix codes p q : strip_any codes (p ++ q) = None -> strip_any codes p = None.
Proof. rewrite !strip_any_None. intros H c l' Hc ->. apply (H c (l' ++ q) Hc). by rewrite app_assoc. Qed.

Lemma trim_start_none codes fuel l : strip_any codes l = None -> trim_start_codes codes fuel l = l.
Proof. intros H. destruct fuel; [done|]. cbn. by rewrite H. Qed.

Lemma trim_start_spec codes fuel l : Forall (fun c => c <> []) codes -> length l <= fuel ->
  exists cs rest, Forall (fun c => c ∈ codes) cs /\ l = concat cs ++ rest /\ trim_start_codes codes fuel l = rest /\ strip_any codes rest = None.
Proof.
  intros Hne. revert l. induction fuel as [|fuel IH]; intros l Hlen; cbn.
  - exists [], l. destruct l; [|cbn in Hlen; lia]. split; [done|]. split; [done|]. split; [done|]. apply strip_any_None. intros c l' Hc Heq.
    symmetry in Heq. apply app_eq_nil in Heq as [-> _]. rewrite Forall_forall in Hne. by apply (Hne [] Hc).
  - destruct (strip_any codes l) as [l'|] eqn:Hs; [|by exists [], l]. apply strip_any_Some in Hs as (c & Hc & ->).
    destruct (IH l') as (cs & rest & Hcs & -> & Htrim & Hrest).
    { rewrite Forall_forall in Hne. specialize (Hne c Hc). rewrite length_app in Hlen. destruct c; [done|]. cbn in Hlen. lia. }
    exists (c :: cs), rest. split; [by constructor|]. split; [cbn; by rewrite app_assoc|]. done.
Qed.

(** ** White space *)

Definition no_space_at_ends (l : list N) : Prop :=
  strip_any white_space_codes l = None /\ strip_any (map (@rev N) white_space_codes) (rev l) = None.

Lemma white_space_solid : Forall (fun c => c <> []) white_space_codes /\ Forall (fun c => c <> []) (map (@rev N) white_space_codes).
Proof. split; by repeat constructor. Qed.

(** The reversed codes, in the order of the text. *)
Lemma rev_concat_codes cs : Forall (fun c => c ∈ map (@rev N) white_space_codes) cs ->
  exists cs', Forall (fun c => c ∈ white_space_codes) cs' /\ rev (concat cs) = concat cs'.
Proof.
  induction 1 as [|c cs Hc Hcs (cs' & Hcs' & Heq)]; [by exists []|]. apply list_elem_of_fmap in Hc as (c' & -> & Hc').
  exists (cs' ++ [c']). split; [by apply Forall_app; split; [|apply Forall_singleton]|].
  cbn [concat]. rewrite rev_app_distr, rev_involutive, Heq, concat_app. cbn. by rewrite app_nil_r.
Qed.

Lemma trim_codes l : exists front mid back, Forall (fun c => c ∈ white_space_codes) front /\ Forall (fun c => c ∈ white_space_codes) back /\
  l = concat front ++ mid ++ concat back /\ no_space_at_ends mid /\
  rev (trim_start_codes (map (@rev N) white_space_codes) (length (trim_start_codes white_space_codes (length l) l))
    (rev (trim_start_codes white_space_codes (length l) l))) = mid.
Proof.
  destruct white_space_solid as [Hs1 Hs2]. destruct (trim_start_spec _ (length l) l Hs1 (le_n _)) as (front & rest & Hfront & Hl & -> & Hrest).
  destruct (trim_start_spec _ (length rest) (rev rest) Hs2) as (cs & mid & Hcs & Hrev & -> & Hmid); [by rewrite length_rev|].
  destruct (rev_concat_codes cs Hcs) as (back & Hback & Heq). apply (f_equal (@rev N)) in Hrev. rewrite rev_involutive, rev_app_distr, Heq in Hrev.
  exists front, (rev mid), back. split_and!; [done|done|by rewrite Hl, Hrev| |done]. split; [|by rewrite rev_involutive].
  rewrite Hrev in Hrest. by apply strip_any_prefix in Hrest.
Qed.

(** The bytes that encode white space. *)
Definition white_space_bytes : list bytes := map (map byte_of_N) white_space_codes.

Lemma white_space_coded c : c ∈ white_space_codes -> map Byte.to_N (map byte_of_N c) = c.
Proof.
  assert (Forall (fun c => map Byte.to_N (map byte_of_N c) = c) white_space_codes) as H by (by repeat constructor).
  rewrite Forall_forall in H. apply H.
Qed.

Lemma codes_are_bytes cs l : Forall (fun c => c ∈ white_space_codes) cs -> concat cs = map Byte.to_N l -> exists bs, Forall (fun b => b ∈ white_space_bytes) bs /\ l = concat bs.
Proof.
  intros Hcs Heq. exists (map (map byte_of_N) cs). split.
  - apply Forall_forall. intros b (c & -> & Hc)%list_elem_of_fmap. rewrite Forall_forall in Hcs. apply list_elem_of_fmap. exists c. split; [done|]. by apply Hcs.
  - assert (map byte_of_N (concat cs) = l) as <-.
    { rewrite Heq, map_map. rewrite <- (map_id l) at 2. apply map_ext. intros b. apply byte_of_to_N. }
    apply concat_map.
Qed.

(** The text between the white space. *)
Lemma trim_bytes s : exists front mid back, Forall (fun b => b ∈ white_space_bytes) front /\ Forall (fun b => b ∈ white_space_bytes) back /\
  bytes_of_string s = concat front ++ mid ++ concat back /\ trim s = string_of_bytes mid /\ no_space_at_ends (map Byte.to_N mid).
Proof.
  assert (trim s = trim (string_of_bytes (bytes_of_string s))) as -> by (by rewrite string_of_bytes_of_string).
  set (l := bytes_of_string s). unfold trim. rewrite codes_of_string_of_bytes.
  destruct (trim_codes (map Byte.to_N l)) as (front & mid & back & Hf & Hb & Hl & Hends & ->).
  apply map_eq_app in Hl as (lf & l2 & Hlf & Hfront & Hl2). apply map_eq_app in Hl2 as (lm & lb & -> & Hmid & Hback).
  symmetry in Hfront, Hback. destruct (codes_are_bytes _ _ Hf Hfront) as (bf & Hbf & ->). destruct (codes_are_bytes _ _ Hb Hback) as (bb & Hbb & ->).
  exists bf, lm, bb. split_and!; [done|done|done| |by rewrite Hmid]. by rewrite <- Hmid, string_of_codes_of_bytes.
Qed.

Lemma trim_settled s : no_space_at_ends (codes_of_string s) -> trim s = s.
Proof.
  intros [H1 H2]. unfold trim. rewrite (trim_start_none _ _ _ H1), (trim_start_none _ _ _ H2), rev_involutive.
  rewrite <- (string_of_bytes_of_string s), codes_of_string_of_bytes. apply string_of_codes_of_bytes.
Qed.

Lemma trim_trim s : trim (trim s) = trim s.
Proof. destruct (trim_bytes s) as (_ & mid & _ & _ & _ & _ & -> & H). apply trim_settled. by rewrite codes_of_string_of_bytes. Qed.

Lemma trim_length s : length (bytes_of_string (trim s)) <= length (bytes_of_string s).
Proof. destruct (trim_bytes s) as (front & mid & back & _ & _ & -> & -> & _). rewrite bytes_of_string_of_bytes, !length_app. lia. Qed.

(** ** UTF-8 *)

(** A byte that continues a character. *)
Definition continues (b : Byte.byte) : bool := (128 <=? Byte.to_N b)%N && (Byte.to_N b <=? 191)%N.

Lemma utf8_lead_continues b expect : utf8_lead b = Some expect -> Forall (fun r => 128 <= fst r /\ snd r <= 191)%N expect.
Proof. unfold utf8_lead. intros H. repeat case_match; try discriminate; injection H as <-; repeat constructor; cbn; lia. Qed.

(** Before a byte that continues nothing, a character is complete. *)
Lemma utf8_run_cut l b rest expect : continues b = false -> Forall (fun r => 128 <= fst r /\ snd r <= 191)%N expect ->
  utf8_run (l ++ b :: rest) expect = true -> utf8_run l expect = true.
Proof.
  intros Hb. revert expect. induction l as [|x l IH]; intros expect He H; cbn in *.
  - destruct expect as [|[lo hi] expect]; [done|]. apply Forall_cons in He as [[Hlo Hhi] _]. cbn in *.
    apply andb_true_iff in H as [[H1%N.leb_le H2%N.leb_le]%andb_true_iff _]. unfold continues in Hb.
    rewrite !(proj2 (N.leb_le _ _)) in Hb by lia. done.
  - destruct expect as [|[lo hi] expect].
    + destruct (utf8_lead (Byte.to_N x)) as [e|] eqn:Hx; [|done]. apply IH; [by eapply utf8_lead_continues|done].
    + apply Forall_cons in He as [_ He]. apply andb_true_iff in H as [-> H]. by apply IH.
Qed.

Lemma white_space_utf8 : Forall (fun b => valid_utf8 b = true /\ match b with x :: _ => continues x = false | [] => False end) white_space_bytes.
Proof. by repeat constructor. Qed.

Lemma trim_utf8 s : utf8_string s -> utf8_string (trim s).
Proof.
  unfold utf8_string. destruct (trim_bytes s) as (front & mid & back & Hf & Hb & -> & -> & _). rewrite bytes_of_string_of_bytes.
  pose proof white_space_utf8 as Hws. rewrite Forall_forall in Hws.
  assert (valid_utf8 (concat front) = true) as Hfront.
  { clear -Hf Hws. induction Hf as [|b front Hb Hf IH]; [done|]. cbn. unfold valid_utf8. rewrite utf8_run_app; [done|]. by apply Hws. }
  unfold valid_utf8 at 1. rewrite (utf8_run_app _ _ _ Hfront). intros H. destruct Hb as [|b back Hb _]; [by rewrite app_nil_r in H|].
  destruct (Hws b Hb) as [_ Hx]. destruct b as [|x b]; [done|]. cbn in H. by eapply utf8_run_cut in H; [|exact Hx|constructor].
Qed.
