(* ===== verification/ContentIds.v ===== *)
(** * Identifiers of the content database

    [ait-core/src/content_binary_db/mod.rs]: the names of snapshots, packs,
    trees and blobs, and the hashes and index keys behind them. *)

From Stdlib Require Import NArith Lia.
From Stdlib Require Strings.Byte.
From stdpp Require Import base numbers strings list.
From S2P Require Import Prelude.

(** ** Hexadecimal *)

Definition hex_digit (upper : bool) (n : N) : Byte.byte :=
  byte_of_N (if n <? 10 then 48 + n else if upper then 55 + n else 87 + n)%N.

(** [k] digits, the most significant first. *)
Fixpoint hex_digits (upper : bool) (k : nat) (n : N) : bytes :=
  match k with
  | O => []
  | S k => hex_digit upper (n / 16 ^ N.of_nat k mod 16)%N :: hex_digits upper k n
  end.

Definition digit_count (n : N) : nat := if (n =? 0)%N then 1 else N.to_nat (N.log2 n / 4 + 1).

(** The format [{n:012X}]: at least twelve digits. *)
Definition hex_padded (width : nat) (n : N) : bytes := hex_digits true (Nat.max width (digit_count n)) n.

Definition hex_of_bytes (upper : bool) (data : bytes) : string :=
  string_of_bytes (data ≫= fun b => hex_digits upper 2 (Byte.to_N b)).
Definition hex_lower (data : bytes) : string := hex_of_bytes false data.
Definition hex_upper (data : bytes) : string := hex_of_bytes true data.

Definition hex_nibble (byte : Byte.byte) : option N :=
  let n := Byte.to_N byte in
  (if (48 <=? n) && (n <=? 57) then Some (n - 48)
   else if (97 <=? n) && (n <=? 102) then Some (n - 97 + 10)
   else if (65 <=? n) && (n <=? 70) then Some (n - 65 + 10)
   else None)%N.

(** ** Names from hashes *)

Definition blob_id_from_sha256 (sha256 : bytes) : string := ("BLB-" ++ hex_lower (take 10 sha256))%string.
Definition tree_id_from_hash80 (hash80 : bytes) : string := ("TRE-" ++ hex_upper hash80)%string.
Definition object_pack_id_from_hash48 (hash48 : N) : string := ("PCK-" ++ string_of_bytes (hex_padded 12 hash48))%string.
Definition tree_pack_id_from_hash48 (hash48 : N) : string := ("TPK-" ++ string_of_bytes (hex_padded 12 hash48))%string.
Definition snapshot_id_from_hash48 (hash48 : N) : string := ("SNP-" ++ string_of_bytes (hex_padded 12 hash48))%string.

(** ** Hashes from names *)

(** [SlicedCharacter] is a panic: the prefix is cut off at a byte offset that
    may lie inside a character. *)
Inductive id_error : Type := WrongPrefix | SlicedCharacter | WrongHexLength (len expected : nat) | InvalidHex.

Definition is_char_boundary (data : bytes) (offset : nat) : bool :=
  match data !! offset with
  | Some b => negb ((128 <=? Byte.to_N b) && (Byte.to_N b <=? 191))%N
  | None => Nat.eqb offset (length data)
  end.

Fixpoint hex_pairs (hex : bytes) : result id_error bytes :=
  match hex with
  | hi :: lo :: hex =>
      hi ← ok_or (hex_nibble hi) InvalidHex;
      lo ← ok_or (hex_nibble lo) InvalidHex;
      out ← hex_pairs hex;
      Ok (byte_of_N (N.lor (N.shiftl hi 4) lo) :: out)
  | _ => Ok []
  end.

Definition prefixed_hex_key (n : nat) (value prefix : string) : result id_error bytes :=
  let data := bytes_of_string (trim value) in
  let prefix_len := length (bytes_of_string prefix) in
  _ ← fail_if (Nat.ltb (length data) prefix_len) WrongPrefix;
  _ ← fail_if (negb (is_char_boundary data prefix_len)) SlicedCharacter;
  _ ← fail_if (negb (eq_ignore_ascii_case (string_of_bytes (take prefix_len data)) prefix)) WrongPrefix;
  let hex := drop prefix_len data in
  _ ← fail_if (negb (Nat.eqb (length hex) (n * 2))) (WrongHexLength (length hex) (n * 2));
  hex_pairs hex.

Definition prefixed_hash48_from_id (value prefix : string) : result id_error N :=
  key ← prefixed_hex_key 6 value prefix;
  Ok (foldl (fun acc byte => N.lor (N.shiftl acc 8) (Byte.to_N byte)) 0%N key).

Definition object_pack_hash48_from_id (pack_id : string) : result id_error N := prefixed_hash48_from_id pack_id "PCK-".
Definition tree_pack_hash48_from_id (pack_id : string) : result id_error N := prefixed_hash48_from_id pack_id "TPK-".
Definition snapshot_hash48_from_id (snapshot_id : string) : result id_error N := prefixed_hash48_from_id snapshot_id "SNP-".
Definition blob_id_index_key (blob_id : string) : result id_error bytes := prefixed_hex_key 10 blob_id "BLB-".
Definition tree_id_index_key (tree_id : string) : result id_error bytes := prefixed_hex_key 10 tree_id "TRE-".
Definition object_pack_id_index_key (pack_id : string) : result id_error bytes := to_le_bytes 8 <$> object_pack_hash48_from_id pack_id.
Definition tree_pack_id_index_key (pack_id : string) : result id_error bytes := to_le_bytes 8 <$> tree_pack_hash48_from_id pack_id.
Definition snapshot_id_index_key (snapshot_id : string) : result id_error bytes := to_le_bytes 8 <$> snapshot_hash48_from_id snapshot_id.

(** ** Lemmas *)

Lemma hex_nibble_digit upper n : (n < 16)%N -> hex_nibble (hex_digit upper n) = Some n.
Proof.
  intros Hn. assert (n ∈ (N.of_nat <$> seq 0 16)) as H.
  { apply list_elem_of_fmap. exists (N.to_nat n). split; [lia|]. apply elem_of_seq. lia. }
  clear Hn. revert n H. apply Forall_forall. destruct upper; apply (bool_decide_unpack _); vm_compute; exact I.
Qed.

(** The nibble of a byte decides the digit up to its case. *)
Lemma hex_nibble_inv b n : hex_nibble b = Some n -> (n < 16)%N /\ exists upper, b = hex_digit upper n.
Proof.
  unfold hex_nibble. intros H. pose proof (to_N_lt b) as Hb.
  destruct ((48 <=? Byte.to_N b) && (Byte.to_N b <=? 57))%N eqn:H1; [|destruct ((97 <=? Byte.to_N b) && (Byte.to_N b <=? 102))%N eqn:H2;
    [|destruct ((65 <=? Byte.to_N b) && (Byte.to_N b <=? 70))%N eqn:H3; [|discriminate]]]; injection H as <-.
  - apply andb_true_iff in H1 as [?%N.leb_le ?%N.leb_le]. split; [lia|]. exists true. unfold hex_digit.
    rewrite (proj2 (N.ltb_lt _ _)) by lia. rewrite <- (byte_of_to_N b) at 1. f_equal. lia.
  - apply andb_true_iff in H2 as [?%N.leb_le ?%N.leb_le]. split; [lia|]. exists false. unfold hex_digit.
    rewrite (proj2 (N.ltb_ge _ _)) by lia. rewrite <- (byte_of_to_N b) at 1. f_equal. lia.
  - apply andb_true_iff in H3 as [?%N.leb_le ?%N.leb_le]. split; [lia|]. exists true. unfold hex_digit.
    rewrite (proj2 (N.ltb_ge _ _)) by lia. rewrite <- (byte_of_to_N b) at 1. f_equal. lia.
Qed.

Lemma length_hex_digits upper k n : length (hex_digits upper k n) = k.
Proof. induction k; cbn; congruence. Qed.

(** Two digits hold a byte. *)
Lemma byte_of_nibbles n : (n < 256)%N -> N.lor (N.shiftl (n / 16) 4) (n mod 16) = n.
Proof.
  intros Hn. rewrite <- (split_low_bits n 4) at 3. rewrite N.lor_comm. f_equal.
  - rewrite N.land_ones. done.
  - by rewrite N.shiftr_div_pow2.
Qed.

Lemma hex_two upper n : (n < 256)%N -> hex_digits upper 2 n = [hex_digit upper (n / 16); hex_digit upper (n mod 16)].
Proof.
  intros Hn. unfold hex_digits. change (16 ^ N.of_nat 1)%N with 16%N. change (16 ^ N.of_nat 0)%N with 1%N.
  rewrite N.div_1_r, (N.mod_small (n / 16)); [done|]. apply N.Div0.div_lt_upper_bound. lia.
Qed.

Lemma hex_pairs_two upper n rest : (n < 256)%N -> hex_pairs (hex_digits upper 2 n ++ rest) = (out ← hex_pairs rest; Ok (byte_of_N n :: out)).
Proof.
  intros Hn. rewrite hex_two by done. cbn [app hex_pairs].
  rewrite !hex_nibble_digit by (first [apply N.mod_lt; lia | apply N.Div0.div_lt_upper_bound; lia]). cbn [ok_or mbind result_bind].
  by rewrite byte_of_nibbles.
Qed.

Lemma hex_pairs_of_bytes upper data : hex_pairs (data ≫= fun b => hex_digits upper 2 (Byte.to_N b)) = Ok data.
Proof.
  induction data as [|b data IH]; [done|]. rewrite bind_cons, hex_pairs_two by apply to_N_lt. rewrite IH. cbn [mbind result_bind].
  by rewrite byte_of_to_N.
Qed.

(** The bytes of a number, the most significant first. *)
Fixpoint be_bytes (k : nat) (n : N) : bytes :=
  match k with O => [] | S k => byte_of_N (n / 256 ^ N.of_nat k mod 256) :: be_bytes k n end.

Lemma length_be_bytes k n : length (be_bytes k n) = k.
Proof. induction k; cbn; congruence. Qed.

Lemma hex_digits_be_bytes upper k n : hex_digits upper (k * 2) n = be_bytes k n ≫= fun b => hex_digits upper 2 (Byte.to_N b).
Proof.
  induction k as [|k IH]; [done|]. cbn [be_bytes]. rewrite bind_cons, <- IH.
  assert (n / 256 ^ N.of_nat k mod 256 < 256)%N as Hlt by (apply N.mod_lt; lia).
  rewrite byte_of_N_small by done. rewrite hex_two by done. cbn [Nat.mul Nat.add hex_digits app].
  assert (16 ^ N.of_nat (k * 2) = 256 ^ N.of_nat k)%N as Hpow by (rewrite Nat2N.inj_mul, N.mul_comm, N.pow_mul_r; done).
  rewrite Nat2N.inj_succ, N.pow_succ_r', Hpow, (N.mul_comm 16), <- N.Div0.div_div. set (m := (n / 256 ^ N.of_nat k)%N).
  f_equal; [|f_equal]; f_equal; (change 256%N with (16 * 16)%N; rewrite N.Div0.mod_mul_r).
  - rewrite (N.mul_comm 16), N.div_add by lia. rewrite (N.div_small (m mod 16)) by (apply N.mod_lt; lia). done.
  - rewrite (N.mul_comm 16), N.Div0.mod_add. symmetry. by rewrite N.Div0.mod_mod.
Qed.

Definition be_number (data : bytes) (acc : N) : N := foldl (fun acc byte => N.lor (N.shiftl acc 8) (Byte.to_N byte)) acc data.

Lemma be_number_step acc b : N.lor (N.shiftl acc 8) (Byte.to_N b) = (acc * 256 + Byte.to_N b)%N.
Proof.
  pose proof (to_N_lt b) as Hb. assert (N.land (N.shiftl acc 8) (Byte.to_N b) = 0%N) as Hland.
  { apply N.bits_inj. intros i. rewrite N.land_spec, N.bits_0. destruct (N.lt_ge_cases i 8) as [Hi|Hi].
    - by rewrite N.shiftl_spec_low.
    - rewrite (testbit_high (Byte.to_N b) 8 i) by done. apply andb_false_r. }
  rewrite <- N.lxor_lor, <- N.add_nocarry_lxor by done. by rewrite N.shiftl_mul_pow2.
Qed.

Lemma be_number_be_bytes k n acc : be_number (be_bytes k n) acc = (acc * 256 ^ N.of_nat k + n mod 256 ^ N.of_nat k)%N.
Proof.
  revert acc. induction k as [|k IH]; intros acc.
  - change (256 ^ N.of_nat 0)%N with 1%N. rewrite N.mod_1_r. cbn. lia.
  - unfold be_number in *. cbn [be_bytes foldl]. rewrite IH, be_number_step, byte_of_N_small by (apply N.mod_lt; lia).
    rewrite Nat2N.inj_succ, N.pow_succ_r', (N.mul_comm 256), N.Div0.mod_mul_r. lia.
Qed.

Lemma be_number_lt data acc : be_number data acc = (acc * 256 ^ N.of_nat (length data) + be_number data 0)%N /\ (be_number data 0 < 256 ^ N.of_nat (length data))%N.
Proof.
  revert acc. induction data as [|b data IH]; intros acc; [cbn; lia|]. unfold be_number in *. cbn [foldl length].
  rewrite !be_number_step. destruct (IH (acc * 256 + Byte.to_N b)%N) as [-> _]. destruct (IH (0 * 256 + Byte.to_N b)%N) as [-> Hlt].
  rewrite Nat2N.inj_succ, N.pow_succ_r'. pose proof (to_N_lt b). nia.
Qed.

Lemma be_bytes_number data : be_bytes (length data) (be_number data 0) = data.
Proof.
  assert (forall m, be_bytes (length data) (m * 256 ^ N.of_nat (length data) + be_number data 0) = data) as H; [|exact (H 0%N)].
  induction data as [|b data IH]; intros m; [done|]. cbn [length be_bytes].
  unfold be_number. cbn [foldl]. rewrite be_number_step. fold (be_number data (0 * 256 + Byte.to_N b)%N).
  destruct (be_number_lt data (0 * 256 + Byte.to_N b)%N) as [-> Hlt]. rewrite Nat2N.inj_succ, N.pow_succ_r'.
  set (p := (256 ^ N.of_nat (length data))%N) in *. assert (p <> 0)%N as Hp by (apply N.pow_nonzero; lia).
  replace (m * (256 * p) + ((0 * 256 + Byte.to_N b) * p + be_number data 0))%N with ((m * 256 + Byte.to_N b) * p + be_number data 0)%N by lia.
  f_equal.
  - rewrite N.div_add_l, (N.div_small (be_number data 0)), N.add_0_r by done. rewrite N.add_comm, N.Div0.mod_add.
    rewrite N.mod_small by apply to_N_lt. apply byte_of_to_N.
  - exact (IH (m * 256 + Byte.to_N b)%N).
Qed.

(** *** Case *)

Definition lower_byte (b : Byte.byte) : Byte.byte := Ascii.byte_of_ascii (ascii_lower (Ascii.ascii_of_byte b)).

Lemma lower_string_of_bytes data : to_ascii_lowercase (string_of_bytes data) = string_of_bytes (map lower_byte data).
Proof.
  induction data as [|b data IH]; [done|]. change (String (ascii_lower (Ascii.ascii_of_byte b)) (to_ascii_lowercase (string_of_bytes data)) =
    String (Ascii.ascii_of_byte (lower_byte b)) (string_of_bytes (map lower_byte data))). rewrite IH. unfold lower_byte. by rewrite Ascii.ascii_of_byte_of_ascii.
Qed.

Lemma string_of_bytes_inj a b : string_of_bytes a = string_of_bytes b -> a = b.
Proof. intros H. rewrite <- (bytes_of_string_of_bytes a), H. apply bytes_of_string_of_bytes. Qed.

Lemma eq_ignore_case_bytes a b : eq_ignore_ascii_case (string_of_bytes a) (string_of_bytes b) = true <-> map lower_byte a = map lower_byte b.
Proof.
  unfold eq_ignore_ascii_case. rewrite bool_decide_eq_true, !lower_string_of_bytes. split; [apply string_of_bytes_inj|congruence].
Qed.

Lemma hex_nibble_lower b : hex_nibble (lower_byte b) = hex_nibble b.
Proof. by destruct b. Qed.

Lemma lower_hex_digit upper n : (n < 16)%N -> lower_byte (hex_digit upper n) = hex_digit false n.
Proof.
  intros Hn. assert (n ∈ (N.of_nat <$> seq 0 16)) as H.
  { apply list_elem_of_fmap. exists (N.to_nat n). split; [lia|]. apply elem_of_seq. lia. }
  clear Hn. revert n H. apply Forall_forall. destruct upper; apply (bool_decide_unpack _); vm_compute; exact I.
Qed.

Lemma map_lower_hex_digits upper k n : map lower_byte (hex_digits upper k n) = hex_digits false k n.
Proof. induction k as [|k IH]; [done|]. cbn -[hex_digit]. rewrite IH, lower_hex_digit; [done|]. apply N.mod_lt. lia. Qed.

Lemma hex_pairs_lower hex : hex_pairs (map lower_byte hex) = hex_pairs hex.
Proof.
  assert (forall n hex, length hex < n -> hex_pairs (map lower_byte hex) = hex_pairs hex) as H; [|by apply (H (S (length hex))); lia].
  induction n as [|n IH]; [lia|]. intros [|a [|b l]] Hl; [done|done|]. cbn -[hex_nibble] in *. rewrite !hex_nibble_lower, IH by lia. done.
Qed.

(** What the digits spell decides them up to case. *)
Lemma hex_pairs_inv n hex data : length hex = n * 2 -> hex_pairs hex = Ok data ->
  length data = n /\ map lower_byte hex = data ≫= fun b => hex_digits false 2 (Byte.to_N b).
Proof.
  revert hex data. induction n as [|n IH]; intros hex data Hlen H.
  - apply length_zero_iff_nil in Hlen as ->. by injection H as <-.
  - destruct hex as [|hi [|lo hex]]; [done|done|]. cbn in Hlen. cbn [hex_pairs] in H.
    apply bind_Ok in H as (h & Hh%ok_or_Ok & H). apply bind_Ok in H as (l & Hl%ok_or_Ok & H). apply bind_Ok in H as (out & Hout & [= <-]).
    destruct (IH hex out ltac:(lia) Hout) as [Hn Hmap]. split; [cbn; lia|]. rewrite bind_cons. cbn [map]. rewrite Hmap.
    apply hex_nibble_inv in Hh as (Hh & uh & ->). apply hex_nibble_inv in Hl as (Hl & ul & ->). rewrite !lower_hex_digit by done.
    assert (N.lor (N.shiftl h 4) l = h * 16 + l)%N as ->.
    { rewrite <- (byte_of_nibbles (h * 16 + l)) by lia. rewrite N.div_add_l, (N.div_small l), N.add_0_r by lia.
      by rewrite N.add_comm, N.Div0.mod_add, N.mod_small. }
    rewrite byte_of_N_small by lia. rewrite hex_two by lia. cbn [app]. f_equal; [|f_equal].
    + by rewrite N.div_add_l, (N.div_small l), N.add_0_r by lia.
    + by rewrite N.add_comm, N.Div0.mod_add, N.mod_small.
Qed.

(** *** Names as bytes *)

Lemma string_of_bytes_app a b : string_of_bytes (a ++ b) = (string_of_bytes a ++ string_of_bytes b)%string.
Proof.
  induction a as [|x a IH]; [done|]. change (String (Ascii.ascii_of_byte x) (string_of_bytes (a ++ b)) = String (Ascii.ascii_of_byte x) (string_of_bytes a ++ string_of_bytes b)%string).
  by rewrite IH.
Qed.

Lemma name_bytes prefix data : (prefix ++ string_of_bytes data)%string = string_of_bytes (bytes_of_string prefix ++ data).
Proof. by rewrite string_of_bytes_app, string_of_bytes_of_string. Qed.

Lemma map_lower_hex upper data : map lower_byte (data ≫= fun b => hex_digits upper 2 (Byte.to_N b)) = data ≫= fun b => hex_digits false 2 (Byte.to_N b).
Proof. induction data as [|b data IH]; [done|]. by rewrite !bind_cons, map_app, map_lower_hex_digits, IH. Qed.

Lemma length_hex_data upper (data : bytes) : length (data ≫= fun b => hex_digits upper 2 (Byte.to_N b)) = length data * 2.
Proof. induction data as [|b data IH]; [done|]. rewrite bind_cons, length_app, length_hex_digits, IH. cbn. lia. Qed.

Lemma lower_byte_ascii b : (Byte.to_N (lower_byte b) < 128)%N -> (Byte.to_N b < 128)%N.
Proof. by destruct b. Qed.

Lemma hex_digit_ascii upper n : (n < 16)%N -> (Byte.to_N (hex_digit upper n) < 128)%N.
Proof.
  intros Hn. unfold hex_digit. destruct (N.ltb_spec n 10), upper; rewrite byte_of_N_small; lia.
Qed.

Lemma hex_data_ascii (data : bytes) b : head (data ≫= fun b => hex_digits false 2 (Byte.to_N b)) = Some b -> (Byte.to_N b < 128)%N.
Proof.
  destruct data as [|a data]; [done|]. rewrite bind_cons, hex_two by apply to_N_lt. intros [= <-]. apply hex_digit_ascii.
  apply N.Div0.div_lt_upper_bound. apply to_N_lt.
Qed.

(** A name is read as a key exactly when it is the name of the key, up to the
    case of its letters and white space around it. *)
Lemma prefixed_hex_key_spec upper n value prefix key : prefixed_hex_key n value prefix = Ok key <->
  length key = n /\ eq_ignore_ascii_case (trim value) (prefix ++ hex_of_bytes upper key) = true.
Proof.
  set (data := bytes_of_string (trim value)). set (p := bytes_of_string prefix).
  assert (eq_ignore_ascii_case (trim value) (prefix ++ hex_of_bytes upper key) = true <->
    map lower_byte data = map lower_byte p ++ (key ≫= fun b => hex_digits false 2 (Byte.to_N b))) as ->.
  { unfold hex_of_bytes. rewrite name_bytes, <- (string_of_bytes_of_string (trim value)), eq_ignore_case_bytes, map_app, map_lower_hex. done. }
  assert (string_of_bytes p = prefix) as Hprefix by apply string_of_bytes_of_string.
  unfold prefixed_hex_key. fold data. fold p. rewrite <- Hprefix. split.
  - intros H. apply bind_Ok in H as (u1 & Hlen%fail_if_Ok%Nat.ltb_ge & H). apply bind_Ok in H as (u2 & _ & H).
    apply bind_Ok in H as (u3 & Hp%fail_if_Ok%negb_false_iff & H). apply bind_Ok in H as (u4 & Hhex%fail_if_Ok%negb_false_iff%Nat.eqb_eq & H).
    apply eq_ignore_case_bytes in Hp. destruct (hex_pairs_inv n _ key Hhex H) as [Hk Hlow]. split; [done|].
    rewrite <- (take_drop (length p) data), map_app. by rewrite Hp, Hlow.
  - intros [Hk Hlow]. assert (length data = length p + n * 2) as Hlen.
    { rewrite <- (length_map lower_byte data), Hlow, length_app, length_map, length_hex_data. by rewrite Hk. }
    assert (map lower_byte (take (length p) data) = map lower_byte p) as Htake.
    { rewrite <- firstn_map, Hlow. apply take_app_length'. by rewrite length_map. }
    assert (map lower_byte (drop (length p) data) = key ≫= fun b => hex_digits false 2 (Byte.to_N b)) as Hdrop.
    { rewrite <- skipn_map, Hlow. apply drop_app_length'. by rewrite length_map. }
    rewrite (proj2 (Nat.ltb_ge _ _)) by lia. cbn [fail_if mbind result_bind].
    assert (is_char_boundary data (length p) = true) as ->.
    { unfold is_char_boundary. destruct (data !! length p) as [b|] eqn:Hb.
      - assert (Byte.to_N b < 128)%N as Hascii; [|by rewrite (proj2 (N.leb_gt _ _) Hascii)].
        apply lower_byte_ascii. apply (hex_data_ascii key). rewrite <- Hdrop, head_lookup. unfold lookup.
        change (map lower_byte (drop (length p) data) !! 0 = Some (lower_byte b)). rewrite list_lookup_fmap, lookup_drop, Nat.add_0_r, Hb. done.
      - apply lookup_ge_None in Hb. apply Nat.eqb_eq. lia. }
    cbn [negb fail_if mbind result_bind]. rewrite (proj2 (eq_ignore_case_bytes _ _) Htake). cbn [negb fail_if mbind result_bind].
    rewrite length_drop, Hlen, (proj2 (Nat.eqb_eq _ _)) by lia. cbn [negb fail_if mbind result_bind].
    rewrite <- hex_pairs_lower, Hdrop. apply hex_pairs_of_bytes.
Qed.

Lemma hex_padded_small h : (h < 2 ^ 48)%N -> hex_padded 12 h = be_bytes 6 h ≫= fun b => hex_digits true 2 (Byte.to_N b).
Proof.
  intros Hh. rewrite <- (hex_digits_be_bytes true 6). unfold hex_padded. f_equal. unfold digit_count.
  destruct (N.eqb_spec h 0) as [|H0]; [done|]. pose proof (proj1 (N.log2_lt_pow2 h 48 ltac:(lia)) Hh) as Hlog.
  assert (N.log2 h / 4 < 12)%N by (apply N.Div0.div_lt_upper_bound; lia). lia.
Qed.

Lemma prefixed_hash48_spec value prefix h : prefixed_hash48_from_id value prefix = Ok h <->
  (h < 2 ^ 48)%N /\ eq_ignore_ascii_case (trim value) (prefix ++ string_of_bytes (hex_padded 12 h)) = true.
Proof.
  unfold prefixed_hash48_from_id. rewrite bind_Ok. setoid_rewrite (prefixed_hex_key_spec true). split.
  - intros (key & [Hlen Heq] & [= <-]). fold (be_number key 0). destruct (be_number_lt key 0) as [_ Hlt]. rewrite Hlen in Hlt.
    split; [exact Hlt|]. rewrite hex_padded_small by exact Hlt. rewrite <- Hlen at 1. rewrite be_bytes_number. exact Heq.
  - intros [Hh Heq]. exists (be_bytes 6 h). rewrite hex_padded_small in Heq by done. split; [by split|].
    fold (be_number (be_bytes 6 h) 0). rewrite be_number_be_bytes. f_equal. change (256 ^ N.of_nat 6)%N with (2 ^ 48)%N.
    rewrite N.mod_small by done. lia.
Qed.

Lemma snapshot_hash48_spec v h : snapshot_hash48_from_id v = Ok h <->
  (h < 2 ^ 48)%N /\ eq_ignore_ascii_case (trim v) (snapshot_id_from_hash48 h) = true.
Proof. exact (prefixed_hash48_spec v "SNP-" h). Qed.

(** C35. Names and hashes: the name of a snapshot or pack is read back as its
    hash, and the name of a blob or tree as its key; every other spelling that
    is accepted differs from that name only in the case of its letters and in
    white space around it, so that different hashes have different names even
    when case is ignored. *)
Theorem content_ids_exact :
  (forall v h, snapshot_hash48_from_id v = Ok h <-> (h < 2 ^ 48)%N /\ eq_ignore_ascii_case (trim v) (snapshot_id_from_hash48 h) = true) /\
  (forall v h, object_pack_hash48_from_id v = Ok h <-> (h < 2 ^ 48)%N /\ eq_ignore_ascii_case (trim v) (object_pack_id_from_hash48 h) = true) /\
  (forall v h, tree_pack_hash48_from_id v = Ok h <-> (h < 2 ^ 48)%N /\ eq_ignore_ascii_case (trim v) (tree_pack_id_from_hash48 h) = true) /\
  (forall v key, blob_id_index_key v = Ok key <-> length key = 10 /\ eq_ignore_ascii_case (trim v) (blob_id_from_sha256 key) = true) /\
  (forall v key, tree_id_index_key v = Ok key <-> length key = 10 /\ eq_ignore_ascii_case (trim v) (tree_id_from_hash80 key) = true).
Proof.
  split_and!; [exact snapshot_hash48_spec|exact (fun v => prefixed_hash48_spec v "PCK-")|exact (fun v => prefixed_hash48_spec v "TPK-")| |].
  - intros v key. unfold blob_id_index_key. rewrite (prefixed_hex_key_spec false). unfold blob_id_from_sha256, hex_lower.
    split; intros [Hlen H]; (split; [done|]); [rewrite take_ge by lia|rewrite take_ge in H by lia]; exact H.
  - exact (fun v => prefixed_hex_key_spec true 10 v "TRE-").
Qed.

(** An id that is cut inside a character is not refused but panics. *)
Example sliced_character : snapshot_hash48_from_id (string_of_bytes [Byte.x53; Byte.x4e; Byte.x50; Byte.xc3; Byte.xa9]) = Err SlicedCharacter.
Proof. vm_compute. done. Qed.

(** *** Names of snapshots *)

(** Printable characters are not white space. *)
Definition printable (c : N) : bool := (33 <=? c)%N && (c <=? 126)%N.

Lemma strip_any_printable codes c l : forallb (fun code => match code with x :: _ => negb (printable x) | [] => false end) codes = true ->
  printable c = true -> strip_any codes (c :: l) = None.
Proof.
  intros H Hc. induction codes as [|code codes IH]; [done|]. cbn in H. apply andb_true_iff in H as [Hx H]. destruct code as [|x code]; [done|].
  cbn. destruct (N.eqb_spec x c) as [->|]; [by rewrite Hc in Hx|by apply IH].
Qed.

Lemma trim_printable codes fuel l : forallb (fun code => match code with x :: _ => negb (printable x) | [] => false end) codes = true ->
  forallb printable l = true -> trim_start_codes codes fuel l = l.
Proof.
  intros H Hl. destruct fuel as [|fuel]; [done|]. cbn. destruct l as [|c l]; cbn in Hl.
  - assert (strip_any codes [] = None) as ->; [|done]. clear Hl. induction codes as [|[|x code] codes IH]; [done|done|].
    cbn in *. apply andb_true_iff in H as [_ H]. by apply IH.
  - apply andb_true_iff in Hl as [Hc _]. by rewrite strip_any_printable.
Qed.

Lemma trim_id s : forallb printable (codes_of_string s) = true -> trim s = s.
Proof.
  intros H. unfold trim. rewrite (trim_printable white_space_codes) by (reflexivity || done). rewrite trim_printable; [|reflexivity|].
  - rewrite rev_involutive. unfold string_of_codes, codes_of_string. rewrite map_map.
    erewrite map_ext; [|intros; apply Ascii.ascii_N_embedding]. rewrite map_id. apply String.string_of_list_ascii_of_string.
  - apply forallb_forall. intros c Hc. rewrite forallb_forall in H. by apply H, in_rev.
Qed.

Lemma hex_digit_printable upper n : (n < 16)%N -> printable (Byte.to_N (hex_digit upper n)) = true.
Proof.
  intros Hn. unfold hex_digit, printable. destruct (N.ltb_spec n 10), upper; rewrite byte_of_N_small by lia;
    by rewrite !(proj2 (N.leb_le _ _)) by lia.
Qed.

Lemma hex_digits_printable upper k n : forallb printable (map Byte.to_N (hex_digits upper k n)) = true.
Proof.
  induction k as [|k IH]; [done|]. cbn -[hex_digit]. rewrite IH, hex_digit_printable; [done|]. apply N.mod_lt. lia.
Qed.

(** Names of snapshots as the stores use them: canonical text, read back, and
    different for different hashes, even when case is ignored. *)
Lemma snapshot_id_trim h : trim (snapshot_id_from_hash48 h) = snapshot_id_from_hash48 h.
Proof.
  apply trim_id. unfold snapshot_id_from_hash48. rewrite name_bytes, codes_of_string_of_bytes, map_app, forallb_app. apply andb_true_iff. split; [done|].
  apply hex_digits_printable.
Qed.

Lemma snapshot_id_canonical h : canonical_text (snapshot_id_from_hash48 h) = true.
Proof.
  unfold canonical_text. rewrite snapshot_id_trim. rewrite bool_decide_eq_false_2 by done. by rewrite bool_decide_eq_true_2.
Qed.

Lemma snapshot_id_roundtrip h : (h < 2 ^ 48)%N -> snapshot_hash48_from_id (snapshot_id_from_hash48 h) = Ok h.
Proof.
  intros Hh. apply snapshot_hash48_spec. split; [done|]. rewrite snapshot_id_trim. by apply bool_decide_eq_true_2.
Qed.

Lemma snapshot_id_eq_ignore_case h h' : (h < 2 ^ 48)%N -> eq_ignore_ascii_case (snapshot_id_from_hash48 h) (snapshot_id_from_hash48 h') = true ->
  (h' < 2 ^ 48)%N -> h = h'.
Proof.
  intros Hh Heq Hh'. assert (snapshot_hash48_from_id (snapshot_id_from_hash48 h) = Ok h') as H.
  { apply snapshot_hash48_spec. split; [done|]. by rewrite snapshot_id_trim. }
  rewrite snapshot_id_roundtrip in H by done. congruence.
Qed.
