(* ===== verification/Codec.v ===== *)
(** * Binary codecs

    What the binary formats share: readers that consume a prefix of their
    input, and the contract that relates the writer and the reader of a field.
    The pack index ([PackIndex]) and the record files ([ContentCodec]) are
    built from these. *)

From Stdlib Require Import NArith Lia.
From Stdlib Require Strings.Byte.
From stdpp Require Import base numbers strings list.
From S2P Require Import Prelude.

(** A reader takes the bytes from the cursor on and returns those left. *)
Definition reader (E A : Type) : Type := bytes -> result E (A * bytes).
#[export] Instance reader_ret {E} : MRet (reader E) := fun A a rest => Ok (a, rest).
#[export] Instance reader_bind {E} : MBind (reader E) := fun A B k m rest =>
  match m rest with Ok (a, rest) => k a rest | Err e => Err e end.
Definition reader_fail_if {E} (b : bool) (e : E) : reader E unit := fun rest => if b then Err e else Ok (tt, rest).

(** [len] bytes, or the error [truncated]. *)
Definition read_exact {E} (truncated : E) (len : nat) : reader E bytes := fun rest =>
  if Nat.ltb (length rest) len then Err truncated else Ok (take len rest, drop len rest).

(** A little-endian integer of [w] bytes. *)
Definition read_uint {E} (truncated : E) (w : nat) : reader E N := l ← read_exact truncated w; mret (from_le_bytes l).

(** [for _ in 0..count { v.push(..) }] *)
Fixpoint read_many {E A} (count : nat) (r : reader E A) : reader E (list A) :=
  match count with
  | O => mret []
  | S count => a ← r; l ← read_many count r; mret (a :: l)
  end.

(** ** Lemmas on readers *)

Lemma reader_bind_Ok {E A B} (m : reader E A) (k : A -> reader E B) data b rest :
  (m ≫= k) data = Ok (b, rest) <-> exists a rest', m data = Ok (a, rest') /\ k a rest' = Ok (b, rest).
Proof.
  unfold mbind, reader_bind. destruct (m data) as [[a rest']|e]; split; [by eauto| |done|by intros (? & ? & [=] & _)].
  intros (a' & r' & [= -> ->] & H). done.
Qed.

Lemma reader_ret_Ok {E A} (a b : A) data rest : (mret a : reader E A) data = Ok (b, rest) <-> a = b /\ data = rest.
Proof. unfold mret, reader_ret. split; [by intros [= -> ->]|by intros [-> ->]]. Qed.

Lemma reader_fail_if_Ok {E} c (e : E) data u rest : reader_fail_if c e data = Ok (u, rest) <-> c = false /\ data = rest.
Proof. unfold reader_fail_if. destruct c, u; split; [done|by intros [? _]|by intros [= ->]|by intros [_ ->]]. Qed.

Lemma reader_bind_eq {E A B} (m : reader E A) (k : A -> reader E B) data a rest :
  m data = Ok (a, rest) -> (m ≫= k) data = k a rest.
Proof. intros H. unfold mbind, reader_bind. by rewrite H. Qed.

Lemma read_exact_app {E} (e : E) b rest len : len = length b -> read_exact e len (b ++ rest) = Ok (b, rest).
Proof.
  intros ->. unfold read_exact. rewrite (proj2 (Nat.ltb_ge _ _)) by (rewrite length_app; lia).
  by rewrite take_app_length, drop_app_length.
Qed.

Lemma read_exact_Ok {E} (e : E) len data b rest :
  read_exact e len data = Ok (b, rest) -> data = b ++ rest /\ length b = len.
Proof.
  unfold read_exact. destruct (Nat.ltb_spec (length data) len) as [|Hle]; [done|]. intros [= <- <-].
  split; [by rewrite take_drop|]. rewrite length_take. lia.
Qed.

Lemma read_uint_to_le {E} (e : E) w n rest : (n < 256 ^ N.of_nat w)%N -> read_uint e w (to_le_bytes w n ++ rest) = Ok (n, rest).
Proof.
  intros Hn. unfold read_uint. erewrite reader_bind_eq by (apply read_exact_app; by rewrite length_to_le_bytes).
  unfold mret, reader_ret. by rewrite from_to_le_bytes.
Qed.

Lemma read_uint_Ok {E} (e : E) w data n rest :
  read_uint e w data = Ok (n, rest) -> data = to_le_bytes w n ++ rest /\ (n < 256 ^ N.of_nat w)%N.
Proof.
  unfold read_uint. intros (b & rest' & Hb & Hr)%reader_bind_Ok. apply read_exact_Ok in Hb as [-> <-].
  apply reader_ret_Ok in Hr as [<- ->]. split; [by rewrite to_from_le_bytes|apply from_le_bytes_lt].
Qed.

(** ** Codecs: a writer and a reader of one field *)

(** [push] appends what [r] reads back, and [r] accepts nothing else. *)
Record codec {E A} (ok : A -> Prop) (push : bytes -> A -> result E bytes) (r : reader E A) : Prop := {
  codec_write : forall out a out', ok a -> push out a = Ok out' ->
    exists b, out' = out ++ b /\ forall rest, r (b ++ rest) = Ok (a, rest);
  codec_read : forall data a rest, r data = Ok (a, rest) ->
    ok a /\ exists b, data = b ++ rest /\ forall out, push out a = Ok (out ++ b)
}.

Lemma codec_many {E A} (ok : A -> Prop) push (r : reader E A) n : codec ok push r ->
  codec (fun l => length l = n /\ Forall ok l) (fun out l => foldM push out l) (read_many n r).
Proof.
  intros Hc. split.
  - intros out l. revert n out. induction l as [|a l IH]; intros n out out' [<- Hok] H; cbn [foldM] in H.
    + injection H as <-. exists []. split; [by rewrite app_nil_r|done].
    + apply bind_Ok in H as (o & Ho & H). apply Forall_cons in Hok as [Ha Hok].
      destruct (codec_write _ _ _ Hc _ _ _ Ha Ho) as (b & -> & Hb).
      destruct (IH (length l) _ _ (conj eq_refl Hok) H) as (b' & -> & Hb'). exists (b ++ b').
      split; [by rewrite app_assoc|]. intros rest. cbn [length read_many].
      rewrite <- app_assoc, (reader_bind_eq _ _ _ _ _ (Hb _)), (reader_bind_eq _ _ _ _ _ (Hb' _)). done.
  - induction n as [|n IH]; intros data l rest H; cbn [read_many] in H.
    + apply reader_ret_Ok in H as [<- ->]. split; [done|]. exists []. split; [done|]. intros out. cbn. by rewrite app_nil_r.
    + apply reader_bind_Ok in H as (a & r1 & Ha & H). apply reader_bind_Ok in H as (l' & r2 & Hl & H).
      apply reader_ret_Ok in H as [<- ->]. destruct (codec_read _ _ _ Hc _ _ _ Ha) as (Hok & b & -> & Hb).
      destruct (IH _ _ _ Hl) as ([Hlen Hall] & b' & -> & Hb'). split; [split; [cbn; lia|by constructor]|].
      exists (b ++ b'). split; [by rewrite app_assoc|]. intros out. cbn [foldM]. rewrite Hb. cbn [mbind result_bind].
      rewrite Hb'. by rewrite app_assoc.
Qed.

(** Sequencing: one more field at the front. *)
Lemma write_step {E A B} {ok : A -> Prop} {push} {r : reader E A} (Hc : codec ok push r) k (K : A -> reader E B) out a out' x :
  ok a -> (o ← push out a; k o) = Ok out' ->
  (forall b1, k (out ++ b1) = Ok out' -> exists b, out' = (out ++ b1) ++ b /\ forall rest, K a (b ++ rest) = Ok (x, rest)) ->
  exists b, out' = out ++ b /\ forall rest, (r ≫= K) (b ++ rest) = Ok (x, rest).
Proof.
  intros Ha (o & Ho & H)%bind_Ok Hk. destruct (codec_write _ _ _ Hc _ _ _ Ha Ho) as (b1 & -> & Hb1).
  destruct (Hk b1 H) as (b & -> & Hb). exists (b1 ++ b). split; [by rewrite app_assoc|]. intros rest.
  by rewrite <- app_assoc, (reader_bind_eq _ _ _ _ _ (Hb1 _)).
Qed.

(** The same for the last field. *)
Lemma write_last {E A B} {ok : A -> Prop} {push} {r : reader E A} (Hc : codec ok push r) (f : A -> B) out a out' :
  ok a -> push out a = Ok out' ->
  exists b, out' = out ++ b /\ forall rest, (v ← r; mret (f v) : reader E B) (b ++ rest) = Ok (f a, rest).
Proof.
  intros Ha Ho. destruct (codec_write _ _ _ Hc _ _ _ Ha Ho) as (b & -> & Hb). exists b. split; [done|]. intros rest.
  by rewrite (reader_bind_eq _ _ _ _ _ (Hb _)).
Qed.

Lemma read_step {E A B} {ok : A -> Prop} {push} {r : reader E A} (Hc : codec ok push r) (K : A -> reader E B) data x rest :
  (r ≫= K) data = Ok (x, rest) ->
  exists a b data', data = b ++ data' /\ ok a /\ (forall out, push out a = Ok (out ++ b)) /\ K a data' = Ok (x, rest).
Proof.
  intros (a & r1 & Ha & H)%reader_bind_Ok. destruct (codec_read _ _ _ Hc _ _ _ Ha) as (Hok & b & -> & Hb).
  by exists a, b, r1.
Qed.

(** ** Fixed-size records *)

(** What a record file promises to its users: a record type with the layout
    numbers it supports, its size on disk, and the values it can hold. *)
Class RecordCodec (E R : Type) : Type := {
  supported_layout : N -> bool;
  codec_size : N -> nat;
  record_ok : N -> R -> Prop;
  encode_record : N -> R -> result E bytes;
  decode_record : N -> bytes -> result E R
}.

(** Under a layout it supports, a codec writes every record the layout can hold
    with the size of the layout, reads back what it wrote, and reads nothing
    that it would not have written; it does nothing under other layouts. *)
Class LawfulRecordCodec (E R : Type) {C : RecordCodec E R} : Prop := {
  encode_decode : forall layout r, supported_layout layout = true -> record_ok layout r ->
    exists raw, encode_record layout r = Ok raw /\ length raw = codec_size layout /\ decode_record layout raw = Ok r;
  decode_encode : forall layout raw r, decode_record layout raw = Ok r ->
    record_ok layout r /\ length raw = codec_size layout /\ encode_record layout r = Ok raw;
  foreign_layout : forall layout, supported_layout layout = false ->
    (forall r, is_ok (encode_record layout r) = false) /\ forall raw, is_ok (decode_record layout raw) = false
}.

(** The codec is exact under a layout: it reads the encodings of the records that
    the layout can hold, all of them of one size, and nothing else. *)
Definition exact_codec {E R} (C : RecordCodec E R) (layout : N) (size : nat) : Prop :=
  (forall r, record_ok layout r -> exists raw, encode_record layout r = Ok raw) /\
  (forall raw r, decode_record layout raw = Ok r <-> record_ok layout r /\ encode_record layout r = Ok raw) /\
  (forall raw r, decode_record layout raw = Ok r -> length raw = size).

Lemma lawful_codec_exact {E R} (C : RecordCodec E R) `{!LawfulRecordCodec E R} layout :
  supported_layout layout = true -> exact_codec C layout (codec_size layout).
Proof.
  intros Hl. split_and!.
  - intros r Hr. destruct (encode_decode layout r Hl Hr) as (raw & Hraw & _). by exists raw.
  - intros raw r. split; [intros H; by apply decode_encode in H as (? & _ & ?)|]. intros [Hr Hraw].
    destruct (encode_decode layout r Hl Hr) as (raw' & Hraw' & _ & Hd). congruence.
  - intros raw r H. by apply decode_encode in H as (_ & ? & _).
Qed.

Lemma read_uint_step {E B} (e : E) w n (K : N -> reader E B) rest x :
  (n < 256 ^ N.of_nat w)%N -> K n rest = Ok x -> (read_uint e w ≫= K) (to_le_bytes w n ++ rest) = Ok x.
Proof. intros Hn HK. by rewrite (reader_bind_eq _ _ _ _ _ (read_uint_to_le e w n rest Hn)). Qed.

Lemma read_exact_step {E B} (e : E) w b (K : bytes -> reader E B) rest x :
  length b = w -> K b rest = Ok x -> (read_exact e w ≫= K) (b ++ rest) = Ok x.
Proof. intros Hb HK. rewrite (reader_bind_eq _ _ _ b rest); [done|by apply read_exact_app]. Qed.

(** Reading the fields of a record that were pushed one after the other. *)
Ltac put_fields := repeat first [apply read_uint_step; [assumption|] | apply read_exact_step; [assumption|]].

(** Taking the fields of a record that was read. *)
Ltac take_fields H :=
  repeat (let v := fresh "v" in let r := fresh "r" in let Hv := fresh "Hv" in
          apply reader_bind_Ok in H as (v & r & Hv & H);
          first [apply read_uint_Ok in Hv as [-> Hv] | apply read_exact_Ok in Hv as [-> Hv]]).
