(* ===== verification/Json.v ===== *)
(** * JSON values

    The values of the serde_json crate and what [ait-core/src/json_support/fields.rs] and
    [pack_substrate/util.rs] read from them. Parsing and printing are the crate's:
    the class [JsonText] and what the code relies on. *)

From Stdlib Require Import NArith ZArith Lia.
From Stdlib Require Strings.Byte.
From stdpp Require Import base numbers strings list sorting fin_sets.
From S2P Require Import Prelude Codec.

(** [serde_json::Number]: a [u64], a negative [i64], or an [f64] with its bits. *)
Inductive Number : Type := PosInt (n : N) | NegInt (z : Z) | Float (bits : N).

(** [serde_json::Value]. A [Map] is a [BTreeMap]: its entries in key order. *)
Inductive JsonValue : Type :=
| JNull
| JBool (b : bool)
| JNumber (n : Number)
| JString (s : string)
| JArray (values : list JsonValue)
| JObject (entries : list (string * JsonValue)).

Abbreviation Map := (list (string * JsonValue)).

(** Induction with the hypothesis for every value of an array or an object. *)
Section Induction.
Context (P : JsonValue -> Prop) (Hnull : P JNull) (Hbool : forall b, P (JBool b)) (Hnumber : forall n, P (JNumber n)).
Context (Hstring : forall s, P (JString s)) (Harray : forall l, Forall P l -> P (JArray l)).
Context (Hobject : forall m, Forall (fun kv => P (snd kv)) m -> P (JObject m)).

Fixpoint json_value_ind (v : JsonValue) : P v :=
  match v with
  | JNull => Hnull
  | JBool b => Hbool b
  | JNumber n => Hnumber n
  | JString s => Hstring s
  | JArray l => Harray l ((fix go l : Forall P l :=
      match l with [] => Forall_nil_2 P | v :: l => Forall_cons_2 P v l (json_value_ind v) (go l) end) l)
  | JObject m => Hobject m ((fix go m : Forall (fun kv => P (snd kv)) m :=
      match m with [] => Forall_nil_2 _ | kv :: m => Forall_cons_2 _ kv m (json_value_ind (snd kv)) (go m) end) m)
  end.
End Induction.

(** ** Maps *)

Fixpoint map_get (key : string) (m : Map) : option JsonValue :=
  match m with
  | [] => None
  | (k, v) :: m => if decide (k = key) then Some v else map_get key m
  end.

Fixpoint map_insert (key : string) (value : JsonValue) (m : Map) : Map :=
  match m with
  | [] => [(key, value)]
  | (k, v) :: m => if decide (k = key) then (key, value) :: m else if str_ltb key k then (key, value) :: (k, v) :: m else (k, v) :: map_insert key value m
  end.

Definition map_remove (key : string) (m : Map) : Map := filter (fun kv => kv.1 <> key) m.

(** [json!({ "key": value, .. })] *)
Definition json_object (entries : list (string * JsonValue)) : JsonValue :=
  JObject (foldl (fun m kv => map_insert (fst kv) (snd kv) m) [] entries).

Definition map_keys (m : Map) : list string := map fst m.

(** ** Accessors of the crate *)

Definition as_u64 (v : JsonValue) : option N := match v with JNumber (PosInt n) => Some n | _ => None end.
Definition as_i64 (v : JsonValue) : option Z :=
  match v with
  | JNumber (PosInt n) => if (n <? 9223372036854775808)%N then Some (Z.of_N n) else None
  | JNumber (NegInt z) => Some z
  | _ => None
  end.
Definition as_str (v : JsonValue) : option string := match v with JString s => Some s | _ => None end.

(** [str::parse::<u64>]: decimal digits after at most one plus sign. *)
Definition parse_digit (acc : option N) (code : N) : option N :=
  value ← acc;
  if (48 <=? code)%N && (code <=? 57)%N then
    let value := (value * 10 + (code - 48))%N in if (value <? u64_modulus)%N then Some value else None
  else None.
Definition parse_u64 (text : string) : option N :=
  match codes_of_string text with
  | [] => None
  | 43%N :: (_ :: _) as digits => foldl parse_digit (Some 0%N) digits
  | digits => foldl parse_digit (Some 0%N) digits
  end.

(** ** Fields *)

(** One constructor for each message. *)
Inductive json_error : Type :=
| MustBeList (field_name : string)
| MustBeObject (field_name : string)
| MissingField (field_name : string)
| MissingIntegerField (field_name : string)
| MissingBytesField (field_name : string)
| MustBeNonNegative (field_name : string)
| MustBeInteger (field_name : string)
| ByteArrayIntegers (field_name : string)
| ByteArrayRange (field_name : string)
| MustBeBytes (field_name : string)
| JsonCodecError (message : string).

Definition as_array (value : JsonValue) (field_name : string) : result json_error (list JsonValue) :=
  match value with JArray l => Ok l | _ => Err (MustBeList field_name) end.
Definition as_object (value : JsonValue) (field_name : string) : result json_error Map :=
  match value with JObject m => Ok m | _ => Err (MustBeObject field_name) end.

Definition optional_text_field (obj : Map) (field_name : string) : option string :=
  match map_get field_name obj with
  | Some (JString text) => let text := trim text in if bool_decide (text = EmptyString) then None else Some text
  | _ => None
  end.
Definition required_text_field (obj : Map) (field_name : string) : result json_error string :=
  ok_or (optional_text_field obj field_name) (MissingField field_name).

Definition optional_usize_field (obj : Map) (field_name : string) : result json_error (option N) :=
  match map_get field_name obj with
  | None | Some JNull => Ok None
  | Some value =>
      match as_u64 value, as_i64 value, as_str value with
      | Some number, _, _ => Ok (Some number)
      | None, Some number, _ => if (number <? 0)%Z then Err (MustBeNonNegative field_name) else Ok (Some (Z.to_N number))
      | None, None, Some text =>
          let trimmed := trim text in
          if bool_decide (trimmed = EmptyString) then Ok None
          else number ← ok_or (parse_u64 trimmed) (MustBeInteger field_name); Ok (Some number)
      | None, None, None => Err (MustBeInteger field_name)
      end
  end.
Definition required_usize_field (obj : Map) (field_name : string) : result json_error N :=
  value ← optional_usize_field obj field_name; ok_or value (MissingIntegerField field_name).

Definition byte_of_json (field_name : string) (entry : JsonValue) : result json_error Byte.byte :=
  byte ← ok_or (as_u64 entry) (ByteArrayIntegers field_name);
  _ ← fail_if (255 <? byte)%N (ByteArrayRange field_name);
  Ok (byte_of_N byte).
Definition optional_bytes_field (obj : Map) (field_name : string) : result json_error (option bytes) :=
  match map_get field_name obj with
  | None | Some JNull => Ok None
  | Some (JString text) => Ok (Some (bytes_of_string text))
  | Some (JArray values) => data ← mapM_result (byte_of_json field_name) values; Ok (Some data)
  | Some _ => Err (MustBeBytes field_name)
  end.
Definition required_bytes_field (obj : Map) (field_name : string) : result json_error bytes :=
  value ← optional_bytes_field obj field_name; ok_or value (MissingBytesField field_name).

(** [json!(data)] of bytes. *)
Definition json_of_bytes (data : bytes) : JsonValue := JArray (map (fun b => JNumber (PosInt (Byte.to_N b))) data).

(** ** Text *)

Class JsonText : Type := {
  json_to_vec : JsonValue -> result string bytes;
  json_from_slice : bytes -> result string JsonValue
}.

(** [sorted_json_value]: the keys of every object in increasing order. *)
Fixpoint sorted_json_value (value : JsonValue) : JsonValue :=
  match value with
  | JArray values => JArray (map sorted_json_value values)
  | JObject entries =>
      let sorted := map (fun kv => (fst kv, sorted_json_value (snd kv))) entries in
      JObject (foldl (fun out key => match map_get key sorted with Some entry => map_insert key entry out | None => out end) []
        (merge_sort String.le (map_keys entries)))
  | value => value
  end.

Definition json_bytes_compact_sorted {J : JsonText} (value : JsonValue) : result json_error bytes :=
  map_err JsonCodecError (json_to_vec (sorted_json_value value)).

(** A value as Rust has it, without floats: numbers in their ranges, strings
    in UTF-8, keys in increasing order. *)
Definition number_ok (n : Number) : Prop :=
  match n with
  | PosInt n => (n < u64_modulus)%N
  | NegInt z => (-9223372036854775808 <= z < 0)%Z
  | Float _ => False
  end.
Definition map_sorted (m : Map) : Prop := StronglySorted (fun a b => str_ltb a b = true) (map_keys m).
Fixpoint json_ok (v : JsonValue) : Prop :=
  match v with
  | JNull | JBool _ => True
  | JNumber n => number_ok n
  | JString s => utf8_string s
  | JArray l => foldr (fun v P => json_ok v /\ P) True l
  | JObject m => map_sorted m /\ foldr (fun kv P => utf8_string (fst kv) /\ json_ok (snd kv) /\ P) True m
  end.
Fixpoint json_depth (v : JsonValue) : nat :=
  match v with
  | JArray l => S (foldr (fun v n => max (json_depth v) n) 0 l)
  | JObject m => S (foldr (fun kv n => max (json_depth (snd kv)) n) 0 m)
  | _ => 0
  end.

(** What is printed parses to the same value; the parser stops at the
    recursion limit of the crate. *)
Class LawfulJsonText `{JsonText} : Prop := {
  json_roundtrip : forall v data, json_ok v -> json_depth v < 128 -> json_to_vec v = Ok data -> json_from_slice data = Ok v
}.

(** ** Lemmas *)

Lemma str_ltb_le a b : str_ltb a b = true <-> String.le a b /\ a <> b.
Proof. unfold str_ltb. rewrite andb_true_iff, negb_true_iff, bool_decide_eq_true, bool_decide_eq_false. done. Qed.

Lemma str_ltb_trans a b c : str_ltb a b = true -> str_ltb b c = true -> str_ltb a c = true.
Proof.
  rewrite !str_ltb_le. intros [H1 N1] [H2 N2]. split; [by etrans|]. intros ->. apply N1. by apply (anti_symm String.le).
Qed.

(** The order of concrete keys is computed. *)
Fixpoint keys_in_order (keys : list string) : bool :=
  match keys with
  | a :: (b :: _) as keys => str_ltb a b && keys_in_order keys
  | _ => true
  end.

Lemma keys_in_order_sorted m : keys_in_order (map_keys m) = true -> map_sorted m.
Proof.
  unfold map_sorted. intros H. apply Sorted_StronglySorted; [intros a b c; apply str_ltb_trans|].
  induction (map_keys m) as [|a [|b keys] IH]; [constructor|by repeat constructor|]. cbn in H. apply andb_true_iff in H as [Hab H].
  constructor; [by apply IH|by constructor].
Qed.

Lemma optional_text_get obj field_name text : map_get field_name obj = Some (JString text) -> canonical_text text = true ->
  optional_text_field obj field_name = Some text.
Proof.
  intros Hget Hc. unfold optional_text_field. rewrite Hget. unfold canonical_text in Hc.
  apply negb_true_iff, orb_false_iff in Hc as [Hne Heq]. apply negb_false_iff, bool_decide_eq_true in Heq. rewrite Heq in *. by rewrite Hne.
Qed.

Lemma required_text_get obj field_name text : map_get field_name obj = Some (JString text) -> canonical_text text = true ->
  required_text_field obj field_name = Ok text.
Proof. intros Hget Hc. unfold required_text_field. by rewrite (optional_text_get _ _ text). Qed.

Lemma required_usize_get obj field_name n : map_get field_name obj = Some (JNumber (PosInt n)) -> required_usize_field obj field_name = Ok n.
Proof. intros Hget. unfold required_usize_field, optional_usize_field. by rewrite Hget. Qed.

Lemma mapM_result_map {E A B C} (f : B -> result E C) (g : A -> B) (h : A -> C) l :
  (forall a, a ∈ l -> f (g a) = Ok (h a)) -> mapM_result f (map g l) = Ok (map h l).
Proof.
  induction l as [|a l IH]; intros H; [done|]. cbn. rewrite (H a) by set_solver. cbn. rewrite IH; [done|]. intros; apply H; set_solver.
Qed.

Lemma required_bytes_get obj field_name data : map_get field_name obj = Some (json_of_bytes data) -> required_bytes_field obj field_name = Ok data.
Proof.
  intros Hget. unfold required_bytes_field, optional_bytes_field. rewrite Hget. unfold json_of_bytes.
  rewrite (mapM_result_map _ _ id); [cbn; by rewrite map_id|]. intros b _. unfold byte_of_json. cbn.
  pose proof (to_N_lt b). rewrite (proj2 (N.ltb_ge _ _)) by lia. cbn. by rewrite byte_of_to_N.
Qed.

(** Inserting in key order appends. *)
Lemma map_insert_last m key v : Forall (fun k => str_ltb k key = true) (map_keys m) -> map_insert key v m = m ++ [(key, v)].
Proof.
  induction m as [|[k w] m IH]; intros H; [done|]. apply Forall_cons in H as [Hk H]. cbn in Hk. apply str_ltb_le in Hk as [Hle Hne]. cbn.
  rewrite decide_False by done. destruct (str_ltb key k) eqn:Hlt; [|by rewrite IH]. apply str_ltb_le in Hlt as [Hle' _].
  destruct Hne. by apply (anti_symm String.le).
Qed.

Lemma map_get_elem m key v : map_sorted m -> (key, v) ∈ m -> map_get key m = Some v.
Proof.
  induction m as [|[k w] m IH]; intros Hs Hin; [by apply elem_of_nil in Hin|]. cbn. inversion Hs as [|? ? Hs' Hall]; subst.
  apply elem_of_cons in Hin as [[= -> ->]|Hin]; [by rewrite decide_True|]. rewrite decide_False; [by apply IH|]. intros ->.
  rewrite Forall_forall in Hall. assert (key ∈ map_keys m) as Hkey by (unfold map_keys; apply list_elem_of_fmap; by exists (key, v)).
  apply Hall, str_ltb_le in Hkey as [_ Hne]. done.
Qed.

Lemma sorted_keys_merge_sort m : map_sorted m -> merge_sort String.le (map_keys m) = map_keys m.
Proof.
  intros Hs. apply (StronglySorted_unique String.le); [apply StronglySorted_merge_sort; apply _| |apply merge_sort_Permutation].
  eapply StronglySorted_weaken; [|exact Hs]. intros a b H. by apply str_ltb_le in H as [? _].
Qed.

(** An object whose keys are in order is copied entry by entry. *)
Lemma copy_entries (all rest done : Map) : map_sorted all -> all = done ++ rest ->
  foldl (fun out key => match map_get key all with Some entry => map_insert key entry out | None => out end) done (map_keys rest) = all.
Proof.
  intros Hs. revert done. induction rest as [|[k v] rest IH]; intros done Hall; cbn; [by rewrite app_nil_r in Hall|].
  rewrite (map_get_elem _ k v) by (done || (rewrite Hall; set_solver)). rewrite map_insert_last.
  - apply IH. by rewrite <- app_assoc.
  - unfold map_sorted, map_keys in *. rewrite Hall, map_app in Hs. cbn in Hs. apply Forall_forall. intros k' Hk'.
    apply StronglySorted_app in Hs as (H & _). apply H; [done|set_solver].
Qed.

Lemma json_ok_array l : json_ok (JArray l) <-> Forall json_ok l.
Proof. cbn. induction l as [|v l IH]; cbn; [done|]. by rewrite Forall_cons, IH. Qed.

Lemma json_ok_object m : json_ok (JObject m) <-> map_sorted m /\ Forall (fun kv => utf8_string (fst kv) /\ json_ok (snd kv)) m.
Proof.
  cbn. apply and_iff_compat_l. induction m as [|kv m IH]; cbn; [done|]. rewrite Forall_cons, <- IH. tauto.
Qed.

Lemma sorted_json_value_ok v : json_ok v -> sorted_json_value v = v.
Proof.
  induction v as [| | | |l IH|m IH] using json_value_ind; intros Hok; try done.
  - apply json_ok_array in Hok. cbn. f_equal. rewrite <- (map_id l) at 2. apply map_ext_in. intros v Hv. apply list_elem_of_In in Hv.
    rewrite Forall_forall in IH, Hok. by apply IH, Hok.
  - apply json_ok_object in Hok as [Hs Hok]. cbn.
    assert (map (fun kv => (fst kv, sorted_json_value (snd kv))) m = m) as ->.
    { rewrite <- (map_id m) at 2. apply map_ext_in. intros [k v] Hv. apply list_elem_of_In in Hv. rewrite Forall_forall in IH, Hok. cbn. f_equal.
      apply (IH _ Hv), (Hok _ Hv). }
    f_equal. rewrite sorted_keys_merge_sort by done. by apply copy_entries.
Qed.

(** ** A text format that can be computed *)

(** Every value is a tag and its parts; a list marks each of its elements. *)
Definition toy_string (s : string) : bytes := concat (map (fun b => [Byte.x01; b]) (bytes_of_string s)) ++ [Byte.x00].
Fixpoint toy_encode (v : JsonValue) : bytes :=
  match v with
  | JNull => [Byte.x00]
  | JBool b => [Byte.x01; if b then Byte.x01 else Byte.x00]
  | JNumber (PosInt n) => Byte.x02 :: to_le_bytes 8 n
  | JNumber (NegInt z) => Byte.x03 :: to_le_bytes 8 (Z.to_N (- z))
  | JNumber (Float bits) => [Byte.xff]
  | JString s => Byte.x04 :: toy_string s
  | JArray l => Byte.x05 :: concat (map (fun v => Byte.x01 :: toy_encode v) l) ++ [Byte.x00]
  | JObject m => Byte.x06 :: concat (map (fun kv => Byte.x01 :: toy_string (fst kv) ++ toy_encode (snd kv)) m) ++ [Byte.x00]
  end.

Definition toy_fail {A} : reader string A := fun _ => Err "malformed"%string.
Definition toy_byte : reader string Byte.byte := fun data => match data with b :: rest => Ok (b, rest) | [] => Err "truncated"%string end.
Fixpoint toy_list {A} (fuel : nat) (element : reader string A) : reader string (list A) :=
  match fuel with
  | O => toy_fail
  | S fuel => b ← toy_byte; if (Byte.to_N b =? 0)%N then mret [] else a ← element; l ← toy_list fuel element; mret (a :: l)
  end.
Fixpoint toy_decode (fuel : nat) : reader string JsonValue :=
  match fuel with
  | O => toy_fail
  | S fuel =>
      tag ← toy_byte;
      match Byte.to_N tag with
      | 0%N => mret JNull
      | 1%N => b ← toy_byte; mret (JBool (Byte.to_N b =? 1)%N)
      | 2%N => n ← read_uint "truncated"%string 8; mret (JNumber (PosInt n))
      | 3%N => n ← read_uint "truncated"%string 8; mret (JNumber (NegInt (- Z.of_N n)))
      | 4%N => l ← toy_list fuel toy_byte; mret (JString (string_of_bytes l))
      | 5%N => l ← toy_list fuel (toy_decode fuel); mret (JArray l)
      | 6%N => m ← toy_list fuel (k ← toy_list fuel toy_byte; v ← toy_decode fuel; mret (string_of_bytes k, v)); mret (JObject m)
      | _ => toy_fail
      end
  end.

Lemma toy_list_spec {A B} (f : B -> bytes) (g : B -> A) element l fuel rest : length l < fuel ->
  (forall b rest, b ∈ l -> element (f b ++ rest) = Ok (g b, rest)) ->
  toy_list fuel element (concat (map (fun b => Byte.x01 :: f b) l) ++ [Byte.x00] ++ rest) = Ok (map g l, rest).
Proof.
  revert fuel; induction l as [|b l IH]; intros [|fuel] Hfuel Hel; cbn in *; try lia.
  - erewrite reader_bind_eq by done. done.
  - erewrite reader_bind_eq by done. cbn. rewrite <- app_assoc, (reader_bind_eq _ _ _ (g b) _ (Hel b _ ltac:(set_solver))).
    erewrite reader_bind_eq by (apply IH; [lia|intros; apply Hel; set_solver]). done.
Qed.

Lemma toy_string_spec s fuel rest : length (toy_string s) <= fuel ->
  toy_list fuel toy_byte (toy_string s ++ rest) = Ok (bytes_of_string s, rest).
Proof.
  intros Hf. unfold toy_string in *. rewrite <- app_assoc, (toy_list_spec (fun b => [b]) id); [by rewrite map_id| |by intros b r _].
  rewrite length_app in Hf. cbn in Hf. assert (length (concat (map (fun b => [Byte.x01; b]) (bytes_of_string s))) = 2 * length (bytes_of_string s)) as Hl; [|lia].
  clear Hf. induction (bytes_of_string s) as [|b l IH]; cbn in *; lia.
Qed.

Lemma length_concat_elem {A B} (f : A -> list B) l a : a ∈ l -> length (f a) <= length (concat (map f l)).
Proof. induction 1; cbn; rewrite length_app; lia. Qed.

Lemma length_concat_ge {A B} (f : A -> list B) l : (forall a, 0 < length (f a)) -> length l <= length (concat (map f l)).
Proof. intros Hf. induction l as [|a l IH]; cbn; [done|]. rewrite length_app. specialize (Hf a). lia. Qed.

Lemma toy_decode_spec v : json_ok v -> forall fuel rest, length (toy_encode v) <= fuel -> toy_decode fuel (toy_encode v ++ rest) = Ok (v, rest).
Proof.
  induction v as [|b|[n|z|bits]|s|l IH|m IH] using json_value_ind; intros Hok [|fuel] rest Hfuel; cbn [toy_encode length] in Hfuel; try lia; cbn [toy_decode toy_encode].
  - done.
  - by destruct b.
  - erewrite reader_bind_eq by done. cbv beta iota delta [Byte.to_N]. erewrite reader_bind_eq by (by apply read_uint_to_le). done.
  - erewrite reader_bind_eq by done. cbn in Hok. cbv beta iota delta [Byte.to_N]. erewrite reader_bind_eq by (apply read_uint_to_le; cbn; lia). unfold mret, reader_ret. repeat f_equal. lia.
  - done.
  - erewrite reader_bind_eq by done. cbn. erewrite reader_bind_eq by (apply toy_string_spec; lia). unfold mret, reader_ret. by rewrite string_of_bytes_of_string.
  - apply json_ok_array in Hok. rewrite length_app in Hfuel. cbn [length] in Hfuel. erewrite reader_bind_eq by done. cbv beta iota delta [Byte.to_N]. fold (@app Byte.byte). rewrite <- app_assoc.
    erewrite reader_bind_eq.
    2:{ apply (toy_list_spec toy_encode id). { pose proof (length_concat_ge (fun v => Byte.x01 :: toy_encode v) l ltac:(cbn; lia)). lia. }
        intros v r Hv. unfold id. rewrite Forall_forall in IH, Hok. apply IH; [done|by apply Hok|].
        pose proof (length_concat_elem (fun v => Byte.x01 :: toy_encode v) l v Hv) as Hl. cbn in Hl. lia. }
    by rewrite map_id.
  - apply json_ok_object in Hok as [_ Hok]. rewrite length_app in Hfuel. cbn [length] in Hfuel. erewrite reader_bind_eq by done. cbv beta iota delta [Byte.to_N]. fold (@app Byte.byte). rewrite <- app_assoc.
    erewrite reader_bind_eq.
    2:{ apply (toy_list_spec (fun kv => toy_string (fst kv) ++ toy_encode (snd kv)) id).
        { pose proof (length_concat_ge (fun kv => Byte.x01 :: toy_string (fst kv) ++ toy_encode (snd kv)) m ltac:(cbn; lia)). lia. }
        intros [k v] r Hv. unfold id. rewrite Forall_forall in IH, Hok. destruct (Hok _ Hv) as [_ Hv'].
        pose proof (length_concat_elem (fun kv => Byte.x01 :: toy_string (fst kv) ++ toy_encode (snd kv)) m _ Hv) as Hl. cbn [length fst snd] in Hl. rewrite length_app in Hl.
        cbn [fst snd]. rewrite <- app_assoc. erewrite reader_bind_eq by (apply toy_string_spec; lia).
        erewrite reader_bind_eq by (apply (IH _ Hv Hv'); cbn; lia). unfold mret, reader_ret. by rewrite string_of_bytes_of_string. }
    by rewrite map_id.
Qed.

Definition toy_json : JsonText := {|
  json_to_vec v := Ok (toy_encode v);
  json_from_slice data :=
    match toy_decode (length data) data with
    | Ok (v, []) => Ok v
    | Ok _ => Err "trailing characters"%string
    | Err e => Err e
    end
|}.
Lemma toy_json_lawful : LawfulJsonText (H := toy_json).
Proof.
  constructor. intros v data Hok _ [= <-]. cbn. pose proof (toy_decode_spec v Hok (length (toy_encode v)) [] ltac:(lia)) as H.
  rewrite app_nil_r in H. by rewrite H.
Qed.
