(* ===== verification/SnapshotStore.v ===== *)
(** * Snapshot parent links and the snapshot store interface

    Models [ait-core/src/snapshot_store.rs]: the parent links a store serves,
    the validation and normalization of an ordered parent set, and the part of
    the [SnapshotStore] trait that the snapshot DAG uses, as a type class with
    the trait's default methods. [LawfulSnapshotStore] states what a client may
    assume of a store: it serves one fixed parent map. *)

From Stdlib Require Import NArith Lia.
From stdpp Require Import base gmap strings list.
From S2P Require Import Prelude.

Definition MAX_SNAPSHOT_PARENT_COUNT : N := 1024%N.

(** One constructor per message the file builds; [StoreFailure] is any message
    a store's own implementation returns. *)
Inductive snapshot_error : Type :=
| ParentCountExceeds (count : nat)
| PrimaryProjectionMismatch (primary expected : option string)
| CompatibilityProjectionMismatch (parent expected : option string)
| ParentNotCanonical (ordinal : nat)
| SelfParent (snapshot_id : string) (ordinal : nat)
| DuplicateParent (parent_id : string) (ordinal : nat)
| PagingUnavailable
| StoreFailure (message : string).

Record SnapshotParentLink : Type := mkLink {
  link_snapshot_id : string;
  link_parent_snapshot_ids : list string;
  link_primary_parent_snapshot_id : option string;
  link_parent_snapshot_id : option string
}.

Record SnapshotParentLinkPage : Type := mkPage {
  page_links : list SnapshotParentLink;
  page_next_cursor : option N
}.

(** ** Validation of a parent set *)

(** One iteration of the loop over [parent_snapshot_ids.iter().enumerate()];
    the state is the next ordinal and the set [seen]. *)
Definition check_parent (snapshot_id : option string) (st : nat * gset string) (parent_id : string)
  : result snapshot_error (nat * gset string) :=
  let '(ordinal, seen) := st in
  _ ← fail_if (negb (canonical_text parent_id)) (ParentNotCanonical ordinal);
  _ ← fail_if (match snapshot_id with Some child => eq_ignore_ascii_case child parent_id | None => false end)
        (SelfParent (default EmptyString snapshot_id) ordinal);
  _ ← fail_if (bool_decide (to_ascii_lowercase parent_id ∈ seen)) (DuplicateParent parent_id ordinal);
  Ok (S ordinal, {[to_ascii_lowercase parent_id]} ∪ seen).

Definition validate_snapshot_parent_set (snapshot_id : option string) (parent_snapshot_ids : list string)
    (primary_parent_snapshot_id parent_snapshot_id : option string) : result snapshot_error unit :=
  _ ← fail_if (MAX_SNAPSHOT_PARENT_COUNT <? N.of_nat (length parent_snapshot_ids))%N
        (ParentCountExceeds (length parent_snapshot_ids));
  let expected_primary := head parent_snapshot_ids in
  _ ← fail_if (negb (bool_decide (primary_parent_snapshot_id = expected_primary)))
        (PrimaryProjectionMismatch primary_parent_snapshot_id expected_primary);
  _ ← fail_if (negb (bool_decide (parent_snapshot_id = expected_primary)))
        (CompatibilityProjectionMismatch parent_snapshot_id expected_primary);
  _ ← foldM (check_parent snapshot_id) (O, ∅) parent_snapshot_ids;
  Ok tt.

Definition compatibility_parent_projections (parent_snapshot_ids : list string)
  : option string * option string :=
  let primary := head parent_snapshot_ids in (primary, primary).

(** [Option<Vec<String>>] of a caller that may only know the projections. *)
Definition normalize_snapshot_parent_set (snapshot_id : option string)
    (parent_snapshot_ids : option (list string))
    (primary_parent_snapshot_id parent_snapshot_id : option string)
  : result snapshot_error (list string * option string * option string) :=
  let parents :=
    match parent_snapshot_ids with
    | Some parents => parents
    | None =>
        option_list (match primary_parent_snapshot_id with Some p => Some p | None => parent_snapshot_id end)
    end in
  let '(expected_primary, expected_compatibility) := compatibility_parent_projections parents in
  _ ← fail_if (match primary_parent_snapshot_id with
               | Some v => negb (bool_decide (Some v = expected_primary)) | None => false end)
        (PrimaryProjectionMismatch primary_parent_snapshot_id expected_primary);
  _ ← fail_if (match parent_snapshot_id with
               | Some v => negb (bool_decide (Some v = expected_compatibility)) | None => false end)
        (CompatibilityProjectionMismatch parent_snapshot_id expected_compatibility);
  _ ← validate_snapshot_parent_set snapshot_id parents expected_primary expected_compatibility;
  Ok (parents, expected_primary, expected_compatibility).

(** ** The store trait *)

Class SnapshotStore (S : Type) : Type := {
  snapshot_parent_link : S -> string -> result snapshot_error (option SnapshotParentLink);
  snapshot_parent_links : S -> list string -> result snapshot_error (list (option SnapshotParentLink));
  snapshot_parent_link_page : S -> N -> N -> result snapshot_error SnapshotParentLinkPage
}.

(** The trait's default bodies. *)
Definition default_snapshot_parent_links (link : string -> result snapshot_error (option SnapshotParentLink))
    (snapshot_ids : list string) : result snapshot_error (list (option SnapshotParentLink)) :=
  mapM_result link snapshot_ids.
Definition default_snapshot_parent_link_page (cursor limit : N) : result snapshot_error SnapshotParentLinkPage :=
  Err PagingUnavailable.

(** The link of a snapshot whose ordered parents are [parents]. *)
Definition link_of (id : string) (parents : list string) : SnapshotParentLink :=
  mkLink id parents (head parents) (head parents).

(** What the DAG relies on: the single and the batched read serve the snapshots
    of one parent map [g] with their links. What a store says of other names is
    its own affair: some refuse names that are not canonical. *)
Class LawfulSnapshotStore (S : Type) `{SnapshotStore S} (store : S) (g : gmap string (list string)) : Prop := {
  parent_link_law : forall id, is_Some (g !! id) -> snapshot_parent_link store id = Ok (link_of id <$> g !! id);
  parent_links_law : forall ids, (forall id, id ∈ ids -> is_Some (g !! id)) ->
    snapshot_parent_links store ids = Ok (map (fun id => link_of id <$> g !! id) ids)
}.

(** ** Specification of a parent set *)

(** Distinct canonical names, compared without case, none of them the child. *)
Definition valid_parent_set (snapshot_id : option string) (parents : list string) : Prop :=
  (N.of_nat (length parents) <= MAX_SNAPSHOT_PARENT_COUNT)%N /\
  Forall (fun p => canonical_text p = true) parents /\
  (forall child, snapshot_id = Some child ->
     Forall (fun p => to_ascii_lowercase child <> to_ascii_lowercase p) parents) /\
  NoDup (map to_ascii_lowercase parents).

(** Every entry of a parent map is a valid parent set of its key. *)
Definition valid_parent_map (g : gmap string (list string)) : Prop :=
  map_Forall (fun id ps => valid_parent_set (Some id) ps) g.

(** ** Theorems *)

Lemma check_parent_Ok snapshot_id ordinal seen p st :
  check_parent snapshot_id (ordinal, seen) p = Ok st <->
  canonical_text p = true /\
  (forall child, snapshot_id = Some child -> to_ascii_lowercase child <> to_ascii_lowercase p) /\
  (to_ascii_lowercase p ∉ seen) /\
  st = (S ordinal, {[to_ascii_lowercase p]} ∪ seen).
Proof.
  unfold check_parent. split.
  - intros H. inv_ok. apply negb_false_iff in Hok. apply bool_decide_eq_false in Hok1.
    repeat split; [done| |done]. intros child ->. unfold eq_ignore_ascii_case in Hok0.
    by apply bool_decide_eq_false in Hok0.
  - intros (Hc & Hs & Hn & ->). rewrite Hc; cbn.
    destruct snapshot_id as [child|]; cbn; unfold eq_ignore_ascii_case;
      rewrite ?bool_decide_eq_false_2 by auto; cbn; rewrite ?bool_decide_eq_false_2 by auto; done.
Qed.

Lemma check_parents_Ok snapshot_id parents ordinal seen :
  (exists st, foldM (check_parent snapshot_id) (ordinal, seen) parents = Ok st) <->
  Forall (fun p => canonical_text p = true) parents /\
  (forall child, snapshot_id = Some child ->
     Forall (fun p => to_ascii_lowercase child <> to_ascii_lowercase p) parents) /\
  NoDup (map to_ascii_lowercase parents) /\
  Forall (fun p => to_ascii_lowercase p ∉ seen) parents.
Proof.
  revert ordinal seen; induction parents as [|p parents IH]; intros ordinal seen; cbn [foldM map].
  { split; [|eauto]. intros _. repeat split; auto using NoDup_nil_2. }
  setoid_rewrite bind_Ok. setoid_rewrite check_parent_Ok. rewrite !Forall_cons, NoDup_cons. split.
  - intros (st & ? & (Hc & Hs & Hn & ->) & Hf).
    edestruct (IH (S ordinal) ({[to_ascii_lowercase p]} ∪ seen)) as [[HF (Hs' & HN & Hd)] _]; [by eauto|].
    rewrite Forall_forall in Hd.
    repeat split; [done|done| | |done|done|].
    + intros child ->. constructor; [by apply Hs|by apply Hs'].
    + rewrite list_elem_of_fmap. intros (q & Heq & Hq). apply (Hd q Hq). set_solver.
    + apply Forall_forall. intros q Hq. specialize (Hd q Hq). set_solver.
  - intros ((Hc & HF) & Hs & (Hnin & HN) & Hn & Hd).
    edestruct (IH (S ordinal) ({[to_ascii_lowercase p]} ∪ seen)) as [_ [st Hst]].
    { repeat split; [done| |done|].
      - intros child Hch. by destruct (Forall_cons_1 _ _ _ (Hs child Hch)).
      - rewrite Forall_forall in Hd |- *. intros q Hq.
        rewrite not_elem_of_union, not_elem_of_singleton. split; [|by apply Hd].
        intros Heq. apply Hnin. rewrite <- Heq. by apply list_elem_of_fmap_2. }
    exists st, (S ordinal, {[to_ascii_lowercase p]} ∪ seen). split; [|done].
    repeat split; [done| |done]. intros child Hch. by destruct (Forall_cons_1 _ _ _ (Hs child Hch)).
Qed.

Lemma validate_snapshot_parent_set_Ok snapshot_id parents primary parent :
  validate_snapshot_parent_set snapshot_id parents primary parent = Ok tt <->
  valid_parent_set snapshot_id parents /\ primary = head parents /\ parent = head parents.
Proof.
  unfold validate_snapshot_parent_set, valid_parent_set. split.
  - intros H. inv_ok. apply N.ltb_ge in Hok.
    apply negb_false_iff, bool_decide_eq_true in Hok0, Hok1.
    edestruct (check_parents_Ok snapshot_id parents 0 ∅) as [[HF (Hs & HN & _)] _]; [by eauto|]. done.
  - intros ((Hlen & HF & Hs & HN) & -> & ->).
    apply N.ltb_ge in Hlen. rewrite Hlen, !bool_decide_eq_true_2 by done. cbn.
    edestruct (check_parents_Ok snapshot_id parents 0 ∅) as [_ [st ->]]; [|done].
    repeat split; [done..|]. apply Forall_forall. set_solver.
Qed.

(** [validate_snapshot_parent_set] accepts exactly the parent lists that
    have at most 1024 distinct canonical names other than the child's own, up
    to ASCII case, and whose two projections both equal the parent at ordinal
    0. *)
Theorem validate_snapshot_parent_set_spec snapshot_id parents primary parent :
  validate_snapshot_parent_set snapshot_id parents primary parent = Ok tt <->
  valid_parent_set snapshot_id parents /\ primary = head parents /\ parent = head parents.
Proof. apply validate_snapshot_parent_set_Ok. Qed.

Lemma validate_link snapshot_id parents :
  valid_parent_set snapshot_id parents ->
  validate_snapshot_parent_set snapshot_id parents (head parents) (head parents) = Ok tt.
Proof. intros H. by apply validate_snapshot_parent_set_Ok. Qed.

Lemma valid_parent_set_sublist snapshot_id parents parents' :
  valid_parent_set snapshot_id parents -> parents' `sublist_of` parents -> valid_parent_set snapshot_id parents'.
Proof.
  intros (Hlen & Hc & Hs & Hnd) Hsub. pose proof (sublist_length _ _ Hsub).
  assert (forall P : string -> Prop, Forall P parents -> Forall P parents') as Hall.
  { intros P. rewrite !Forall_forall. intros HP x Hx. apply HP. by eapply sublist_subseteq. }
  split_and!; [lia|by apply Hall| |].
  - intros child Hch. by apply Hall, Hs.
  - eapply sublist_NoDup; [exact Hnd|]. change (map to_ascii_lowercase) with (fmap (M:=list) to_ascii_lowercase).
    by apply fmap_sublist.
Qed.

(** Normalization: what it returns is a valid parent set whose projections
    are its ordinal-0 parent, and normalizing the result again, from the list
    or (for at most one parent) from the projections alone, returns it
    unchanged. *)
Theorem normalize_snapshot_parent_set_stable snapshot_id ps primary parent parents primary' parent' :
  normalize_snapshot_parent_set snapshot_id ps primary parent = Ok (parents, primary', parent') ->
  valid_parent_set snapshot_id parents /\ primary' = head parents /\ parent' = head parents /\
  normalize_snapshot_parent_set snapshot_id (Some parents) primary' parent' = Ok (parents, primary', parent') /\
  (length parents <= 1 ->
   normalize_snapshot_parent_set snapshot_id None primary' parent' = Ok (parents, primary', parent')).
Proof.
  intros H. unfold normalize_snapshot_parent_set, compatibility_parent_projections in H.
  apply bind_Ok in H as (? & _ & H). apply bind_Ok in H as (? & _ & H). apply bind_Ok in H as ([] & Hv & H).
  injection H as <- <- <-.
  set (parents := match ps with Some _ => _ | None => _ end) in *.
  apply validate_snapshot_parent_set_Ok in Hv as (Hv & _).
  pose proof (validate_link _ _ Hv) as Hval.
  split_and!; [done..| |intros Hlen]; clearbody parents;
    unfold normalize_snapshot_parent_set, compatibility_parent_projections;
    destruct parents as [|p [|q rest]]; cbn in *; try lia;
    rewrite ?bool_decide_eq_true_2 by done; cbn; by rewrite Hval.
Qed.

Lemma normalize_snapshot_parent_set_stable_witness :
  normalize_snapshot_parent_set (Some "C"%string) None None (Some "A"%string) = Ok (["A"%string], Some "A"%string, Some "A"%string) /\
  valid_parent_set (Some "C"%string) ["A"%string].
Proof.
  split; [vm_compute; reflexivity|].
  refine (proj1 (normalize_snapshot_parent_set_stable (Some "C"%string) None None (Some "A"%string)
    ["A"%string] (Some "A"%string) (Some "A"%string) _)).
  vm_compute. reflexivity.
Defined.

#[export] Hint Resolve validate_link : ait.
