(* ===== verification/SnapshotDag.v ===== *)
(** * The snapshot DAG: data, traversals and merge bases

    Models [ait-core/src/snapshot_dag.rs]. Definitions only; the theorems are
    in [TopoOrder], [AncestorClosure] and [MergeBases]. Depths, ranks and
    counts are [usize] values that count snapshots held in memory, so they are
    unbounded [N] here, except [usize::MAX], which the sort keys use. *)

From Stdlib Require Import NArith Lia.
From stdpp Require Import base sorting gmap strings list.
From S2P Require Import Prelude SnapshotStore.

Inductive SnapshotParentMode : Type := AllParents | FirstParent.
Inductive SnapshotDagLimitMode : Type := LimitError | LimitTruncate.

#[export] Instance limit_mode_eq_dec : EqDecision SnapshotDagLimitMode.
Proof. solve_decision. Defined.

Definition DEFAULT_SNAPSHOT_DAG_MAX_DEPTH : N := 1000000%N.
Definition DEFAULT_SNAPSHOT_DAG_MAX_RESULTS : N := 1000000%N.
Definition DEFAULT_SNAPSHOT_DAG_BATCH_SIZE : N := 256%N.

Record SnapshotDagLimits : Type := mkLimits {
  max_depth : N;
  max_results : N;
  batch_size : N;
  limit_mode : SnapshotDagLimitMode
}.

Definition default_limits : SnapshotDagLimits :=
  mkLimits DEFAULT_SNAPSHOT_DAG_MAX_DEPTH DEFAULT_SNAPSHOT_DAG_MAX_RESULTS
    DEFAULT_SNAPSHOT_DAG_BATCH_SIZE LimitError.

(** One constructor per message of the file. [PanicMissingDepth] is the panic
    of an absent map index, and [OutOfFuel] is no outcome of the code: it is
    what a bounded loop of the model gives when its bound is hit. *)
Inductive dag_error : Type :=
| DagStore (e : snapshot_error)
| MaxResultsZero
| BatchSizeZero
| NotCanonicalId (role : string) (ordinal : nat)
| MaxResultsAtHead (head : string)
| MaxResultsAtRoot (root : string)
| MaxResultsAtParent (parent child : string)
| MaxResultsAtDescendant (descendant : string)
| MaxDepthAt (snapshot_id : string)
| MaxDepthAtDescendant (descendant : string)
| BatchRowCount (rows requested : nat)
| RootRowCount (rows requested : nat)
| PageRowCount (rows : nat) (limit : N)
| CursorStuck (cursor next_cursor : N)
| LostDepth (snapshot_id : string)
| LostIndegree (child : string)
| LostCommonNode (snapshot_id : string)
| LostCachedLink (snapshot_id : string)
| ParentMissing (parent child : string)
| UnknownSnapshot (snapshot_id : string)
| SnapshotMissing (snapshot_id : string)
| WrongRow (returned requested : string)
| CycleAt (snapshot_id : string)
| NotAParent (target selected : string) (available : list string)
| PanicMissingDepth (snapshot_id : string)
| OutOfFuel.

Definition validate_limits (limits : SnapshotDagLimits) : result dag_error SnapshotDagLimits :=
  _ ← fail_if (max_results limits =? 0)%N MaxResultsZero;
  _ ← fail_if (batch_size limits =? 0)%N BatchSizeZero;
  Ok limits.

Record SnapshotDagTraversal : Type := mkTraversal {
  topological_snapshot_ids : list string;
  parent_snapshot_ids : gmap string (list string);
  depth_by_snapshot_id : gmap string N;
  truncated : bool
}.

Definition traversal_contains (t : SnapshotDagTraversal) (snapshot_id : string) : bool :=
  bool_decide (is_Some (parent_snapshot_ids t !! snapshot_id)).
Definition distance_from_head (t : SnapshotDagTraversal) (snapshot_id : string) : option N :=
  depth_by_snapshot_id t !! snapshot_id.

(** [Ok(true)] of the code is [Ok tt]; the caller then sets [truncated]. *)
Definition truncate_or_error (limits : SnapshotDagLimits) (message : dag_error) : result dag_error unit :=
  match limit_mode limits with LimitError => Err message | LimitTruncate => Ok tt end.

(** State: ordinal, [seen] and [out]. *)
Definition canonical_step (role : string) (st : nat * gset string * list string) (value : string)
  : result dag_error (nat * gset string * list string) :=
  let '(ordinal, seen, out) := st in
  _ ← fail_if (negb (canonical_text value)) (NotCanonicalId role ordinal);
  Ok (if bool_decide (value ∈ seen) then (S ordinal, seen, out)
      else (S ordinal, {[value]} ∪ seen, out ++ [value])).
Definition canonical_snapshot_ids (values : list string) (role : string) : result dag_error (list string) :=
  st ← foldM (canonical_step role) (O, ∅, []) values; Ok (snd st).

Definition require_parent_link (snapshot_id : string) (link : option SnapshotParentLink)
    (requested_by : option (option string)) : result dag_error SnapshotParentLink :=
  match link with
  | None =>
      match mjoin requested_by with
      | Some child => Err (ParentMissing snapshot_id child)
      | None => Err (UnknownSnapshot snapshot_id)
      end
  | Some link =>
      _ ← fail_if (negb (bool_decide (link_snapshot_id link = snapshot_id)))
            (WrongRow (link_snapshot_id link) snapshot_id);
      _ ← map_err DagStore (validate_snapshot_parent_set (Some snapshot_id) (link_parent_snapshot_ids link)
            (link_primary_parent_snapshot_id link) (link_parent_snapshot_id link));
      Ok link
  end.

Definition selected_parents (link : SnapshotParentLink) (parent_mode : SnapshotParentMode)
  : result dag_error (list string) :=
  _ ← map_err DagStore (validate_snapshot_parent_set (Some (link_snapshot_id link))
        (link_parent_snapshot_ids link) (link_primary_parent_snapshot_id link) (link_parent_snapshot_id link));
  Ok (match parent_mode with
      | AllParents => link_parent_snapshot_ids link
      | FirstParent => option_list (link_primary_parent_snapshot_id link)
      end).

(** ** Topological order *)

(** [BTreeSet<(usize, String)>]: ordered by rank, then by name. *)
Definition key_le (a b : N * string) : Prop := (fst a < fst b)%N \/ (fst a = fst b /\ String.le (snd a) (snd b)).
#[export] Instance key_le_dec : RelDecision key_le.
Proof. intros a b. unfold key_le. apply _. Defined.

Definition sorted_key_list (X : gset (N * string)) : list (N * string) := merge_sort key_le (elements X).
Definition pop_first (X : gset (N * string)) : option ((N * string) * gset (N * string)) :=
  match sorted_key_list X with [] => None | k :: _ => Some (k, X ∖ {[k]}) end.

Definition stable_node_key (snapshot_id : string) (discovery_rank : option (gmap string N)) : N * string :=
  (default usize_max (discovery_rank ≫= fun ranks => ranks !! snapshot_id), snapshot_id).

Definition or_insert_zero (indegree : gmap string N) (id : string) : gmap string N :=
  match indegree !! id with Some _ => indegree | None => <[id := 0%N]> indegree end.

(** The loop body over the parents of [snapshot_id]. *)
Definition count_parent (pm : gmap string (list string)) (external : gset string) (snapshot_id : string)
    (st : gmap string N * gmap string (list string)) (parent : string)
  : result dag_error (gmap string N * gmap string (list string)) :=
  let '(indegree, children) := st in
  if bool_decide (parent ∈ external) then Ok st else
  _ ← fail_if (negb (bool_decide (is_Some (pm !! parent)))) (ParentMissing parent snapshot_id);
  Ok (<[snapshot_id := (default 0 (indegree !! snapshot_id) + 1)%N]> indegree,
      <[parent := default [] (children !! parent) ++ [snapshot_id]]> children).

Definition count_node (pm : gmap string (list string)) (external : gset string)
    (st : gmap string N * gmap string (list string)) (entry : string * list string)
  : result dag_error (gmap string N * gmap string (list string)) :=
  let '(indegree, children) := st in
  let '(snapshot_id, parents) := entry in
  _ ← map_err DagStore (validate_snapshot_parent_set (Some snapshot_id) parents (head parents) (head parents));
  foldM (count_parent pm external snapshot_id) (or_insert_zero indegree snapshot_id, children) parents.

Definition node_key_le (rank : option (gmap string N)) (a b : string) : Prop :=
  key_le (stable_node_key a rank) (stable_node_key b rank).
#[export] Instance node_key_le_dec rank : RelDecision (node_key_le rank).
Proof. intros a b. unfold node_key_le. apply _. Defined.

(** The loop body over the children of an emitted node. *)
Definition release_child (rank : option (gmap string N)) (st : gmap string N * gset (N * string)) (child : string)
  : result dag_error (gmap string N * gset (N * string)) :=
  let '(indegree, ready) := st in
  count ← ok_or (indegree !! child) (LostIndegree child);
  let count := (count - 1)%N in
  Ok (<[child := count]> indegree,
      if (count =? 0)%N then {[stable_node_key child rank]} ∪ ready else ready).

Record kahn_state : Type := mkKahn {
  kahn_ready : gset (N * string);
  kahn_indegree : gmap string N;
  kahn_ordered : list string
}.

Definition kahn_step (rank : option (gmap string N)) (children : gmap string (list string)) (st : kahn_state)
  : kahn_state + result dag_error kahn_state :=
  match pop_first (kahn_ready st) with
  | None => inr (Ok st)
  | Some ((_, snapshot_id), ready) =>
      match foldM (release_child rank) (kahn_indegree st, ready) (default [] (children !! snapshot_id)) with
      | Err e => inr (Err e)
      | Ok (indegree, ready) => inl (mkKahn ready indegree (kahn_ordered st ++ [snapshot_id]))
      end
  end.

(** Nodes whose count is zero, or whose count is still positive. *)
Definition zero_nodes (indegree : gmap string N) : list string :=
  filter (fun id => default 1%N (indegree !! id) = 0%N) (sorted_keys indegree).
Definition positive_nodes (indegree : gmap string N) : list string :=
  filter (fun id => (0 < default 0 (indegree !! id))%N) (sorted_keys indegree).

Definition topological_order_with_rank (pm : gmap string (list string)) (external : gset string)
    (rank : option (gmap string N)) : result dag_error (list string) :=
  counts ← foldM (count_node pm external) (∅, ∅) (sorted_entries pm);
  let '(indegree, children) := counts in
  let children := merge_sort (node_key_le rank) <$> children in
  let ready := list_to_set ((fun id => stable_node_key id rank) <$> zero_nodes indegree) in
  match loop (kahn_step rank children) (Pos.of_succ_nat (size pm)) (mkKahn ready indegree []) with
  | inl _ => Err OutOfFuel
  | inr (Err e) => Err e
  | inr (Ok st) =>
      if negb (bool_decide (length (kahn_ordered st) = size pm)) then
        Err (CycleAt (match sorted_key_list (list_to_set ((fun id => stable_node_key id rank)
                              <$> positive_nodes (kahn_indegree st))) with
                      | (_, id) :: _ => id | [] => "unknown"%string end))
      else Ok (kahn_ordered st)
  end.

Definition topological_snapshot_order (pm : gmap string (list string)) (external : gset string)
  : result dag_error (list string) := topological_order_with_rank pm external None.

(** ** Ancestor closure *)

(** The local variables of a traversal. *)
Record bfs_state : Type := mkBfs {
  bfs_pending : list string;
  bfs_discovered : gset string;
  bfs_depth : gmap string N;
  bfs_rank : gmap string N;
  bfs_next_rank : N;
  bfs_truncated : bool;
  bfs_parents : gmap string (list string)
}.

Definition initial_bfs : bfs_state := mkBfs [] ∅ ∅ ∅ 0 false ∅.

(** The insertions made when a snapshot is first met. *)
Definition discover (st : bfs_state) (id : string) (depth : N) : bfs_state :=
  mkBfs (bfs_pending st ++ [id]) ({[id]} ∪ bfs_discovered st) (<[id := depth]> (bfs_depth st))
    (<[id := bfs_next_rank st]> (bfs_rank st)) (bfs_next_rank st + 1) (bfs_truncated st) (bfs_parents st).
Definition set_truncated (st : bfs_state) : bfs_state :=
  mkBfs (bfs_pending st) (bfs_discovered st) (bfs_depth st) (bfs_rank st) (bfs_next_rank st) true (bfs_parents st).
Definition set_pending (pending : list string) (st : bfs_state) : bfs_state :=
  mkBfs pending (bfs_discovered st) (bfs_depth st) (bfs_rank st) (bfs_next_rank st) (bfs_truncated st) (bfs_parents st).
Definition record_parents (id : string) (parents : list string) (st : bfs_state) : bfs_state :=
  mkBfs (bfs_pending st) (bfs_discovered st) (bfs_depth st) (bfs_rank st) (bfs_next_rank st) (bfs_truncated st)
    (<[id := parents]> (bfs_parents st)).

Definition results_full (limits : SnapshotDagLimits) (discovered : gset string) : bool :=
  (max_results limits <=? N.of_nat (size discovered))%N.

(** The loop that queues the heads. *)
Definition queue_head (limits : SnapshotDagLimits) (stop : gset string) (st : bfs_state) (head : string)
  : result dag_error bfs_state :=
  if bool_decide (head ∈ stop) || bool_decide (head ∈ bfs_discovered st) then Ok st
  else if results_full limits (bfs_discovered st) then
    _ ← truncate_or_error limits (MaxResultsAtHead head); Ok (set_truncated st)
  else Ok (discover st head 0).

(** [parents.retain(..)] and the [max_depth] test; the flag says that the
    parents were cleared. *)
Definition retained_parents (limits : SnapshotDagLimits) (stop : gset string) (snapshot_id : string)
    (depth : N) (parents : list string) : result dag_error (list string * bool) :=
  let parents := filter (fun p => p ∉ stop) parents in
  if negb (bool_decide (parents = [])) && (max_depth limits <=? depth)%N then
    _ ← truncate_or_error limits (MaxDepthAt snapshot_id); Ok ([], true)
  else Ok (parents, false).

Definition mark_truncated (b : bool) (st : bfs_state) : bfs_state := if b then set_truncated st else st.

(** *** Reading parents from a store, in batches *)

(** The traversal state, [requested_by], and [included_parents]. *)
Definition read_parent (limits : SnapshotDagLimits) (snapshot_id : string) (depth : N)
    (acc : bfs_state * gmap string (option string) * list string) (parent : string)
  : result dag_error (bfs_state * gmap string (option string) * list string) :=
  let '(st, requested_by, included) := acc in
  if bool_decide (parent ∈ bfs_discovered st) then Ok (st, requested_by, included ++ [parent])
  else if results_full limits (bfs_discovered st) then
    _ ← truncate_or_error limits (MaxResultsAtParent parent snapshot_id);
    Ok (set_truncated st, requested_by, included)
  else Ok (discover st parent (depth + 1), <[parent := Some snapshot_id]> requested_by, included ++ [parent]).

Definition visit_link (limits : SnapshotDagLimits) (stop : gset string) (parent_mode : SnapshotParentMode)
    (acc : bfs_state * gmap string (option string)) (row : string * option SnapshotParentLink)
  : result dag_error (bfs_state * gmap string (option string)) :=
  let '(st, requested_by) := acc in
  let '(snapshot_id, link) := row in
  link ← require_parent_link snapshot_id link (requested_by !! snapshot_id);
  parents ← selected_parents link parent_mode;
  depth ← ok_or (bfs_depth st !! snapshot_id) (LostDepth snapshot_id);
  retained ← retained_parents limits stop snapshot_id depth parents;
  let '(parents, cleared) := retained in
  acc ← foldM (read_parent limits snapshot_id depth) (mark_truncated cleared st, requested_by, []) parents;
  let '(st, requested_by, included) := acc in
  Ok (record_parents snapshot_id included st, requested_by).

Definition fetch_batch {S} `{SnapshotStore S} (store : S) (batch : list string)
  : result dag_error (list (option SnapshotParentLink)) :=
  links ← map_err DagStore (snapshot_parent_links store batch);
  _ ← fail_if (negb (bool_decide (length links = length batch))) (BatchRowCount (length links) (length batch));
  Ok links.

Definition closure_round {S} `{SnapshotStore S} (store : S) (limits : SnapshotDagLimits) (stop : gset string)
    (parent_mode : SnapshotParentMode) (acc : bfs_state * gmap string (option string))
  : (bfs_state * gmap string (option string)) + result dag_error bfs_state :=
  let '(st, requested_by) := acc in
  match bfs_pending st with
  | [] => inr (Ok st)
  | pending =>
      let n := N.to_nat (N.min (batch_size limits) (N.of_nat (length pending))) in
      let batch := take n pending in
      let st := set_pending (drop n pending) st in
      match (links ← fetch_batch store batch;
             foldM (visit_link limits stop parent_mode) (st, requested_by) (zip batch links)) with
      | Err e => inr (Err e)
      | Ok acc => inl acc
      end
  end.

(** Each round takes at least one snapshot off the queue, and a snapshot is
    queued only while fewer than [max_results] are discovered. *)
Definition closure_fuel (limits : SnapshotDagLimits) : positive := N.succ_pos (max_results limits).

Definition finish_traversal (st : bfs_state) : result dag_error SnapshotDagTraversal :=
  order ← topological_order_with_rank (bfs_parents st) ∅ (Some (bfs_rank st));
  Ok (mkTraversal order (bfs_parents st) (bfs_depth st) (bfs_truncated st)).

Definition requested_heads (st : bfs_state) : gmap string (option string) :=
  foldr (fun id m => <[id := None]> m) ∅ (bfs_pending st).

Definition run_loop {St A} (step : St -> St + result dag_error A) (fuel : positive) (st : St) : result dag_error A :=
  match loop step fuel st with inl _ => Err OutOfFuel | inr r => r end.

Definition snapshot_ancestor_closure {S} `{SnapshotStore S} (store : S) (head_snapshot_ids : list string)
    (stop_at : gset string) (parent_mode : SnapshotParentMode) (limits : SnapshotDagLimits)
  : result dag_error SnapshotDagTraversal :=
  limits ← validate_limits limits;
  heads ← canonical_snapshot_ids head_snapshot_ids "head";
  match heads with
  | [] => Ok (mkTraversal [] ∅ ∅ false)
  | _ :: _ =>
      st ← foldM (queue_head limits stop_at) initial_bfs heads;
      st ← run_loop (closure_round store limits stop_at parent_mode) (closure_fuel limits) (st, requested_heads st);
      finish_traversal st
  end.

(** *** The same closure from a parent map *)

Definition include_parent (pm : gmap string (list string)) (limits : SnapshotDagLimits) (snapshot_id : string)
    (depth : N) (acc : bfs_state * list string) (parent : string) : result dag_error (bfs_state * list string) :=
  let '(st, included) := acc in
  if bool_decide (parent ∈ bfs_discovered st) then Ok (st, included ++ [parent])
  else if results_full limits (bfs_discovered st) then
    _ ← truncate_or_error limits (MaxResultsAtParent parent snapshot_id); Ok (set_truncated st, included)
  else
    _ ← fail_if (negb (bool_decide (is_Some (pm !! parent)))) (ParentMissing parent snapshot_id);
    Ok (discover st parent (depth + 1), included ++ [parent]).

Definition visit_snapshot (pm : gmap string (list string)) (limits : SnapshotDagLimits) (stop : gset string)
    (parent_mode : SnapshotParentMode) (st : bfs_state) (snapshot_id : string) : result dag_error bfs_state :=
  parents ← ok_or (pm !! snapshot_id) (SnapshotMissing snapshot_id);
  _ ← map_err DagStore (validate_snapshot_parent_set (Some snapshot_id) parents (head parents) (head parents));
  let selected := match parent_mode with AllParents => parents | FirstParent => option_list (head parents) end in
  depth ← ok_or (bfs_depth st !! snapshot_id) (PanicMissingDepth snapshot_id);
  retained ← retained_parents limits stop snapshot_id depth selected;
  let '(parents, cleared) := retained in
  acc ← foldM (include_parent pm limits snapshot_id depth) (mark_truncated cleared st, []) parents;
  let '(st, included) := acc in
  Ok (record_parents snapshot_id included st).

Definition map_round (pm : gmap string (list string)) (limits : SnapshotDagLimits) (stop : gset string)
    (parent_mode : SnapshotParentMode) (st : bfs_state) : bfs_state + result dag_error bfs_state :=
  match bfs_pending st with
  | [] => inr (Ok st)
  | snapshot_id :: pending =>
      match visit_snapshot pm limits stop parent_mode (set_pending pending st) snapshot_id with
      | Err e => inr (Err e)
      | Ok st => inl st
      end
  end.

Definition snapshot_ancestor_closure_from_parent_map (pm : gmap string (list string))
    (head_snapshot_ids : list string) (stop_at : gset string) (parent_mode : SnapshotParentMode)
    (limits : SnapshotDagLimits) : result dag_error SnapshotDagTraversal :=
  limits ← validate_limits limits;
  heads ← canonical_snapshot_ids head_snapshot_ids "head";
  st ← foldM (queue_head limits stop_at) initial_bfs heads;
  st ← run_loop (map_round pm limits stop_at parent_mode) (closure_fuel limits) st;
  finish_traversal st.

(** ** Ancestor distance, with a cache of parent links *)

(** [SnapshotAncestorDistanceCache::parent_links]. The cache outlives the call,
    so it is returned next to the result. *)
Definition cached_links (cache : gmap string (option SnapshotParentLink)) (snapshot_ids : list string)
  : result dag_error (list (option SnapshotParentLink)) :=
  mapM_result (fun id => ok_or (cache !! id) (LostCachedLink id)) snapshot_ids.

Definition cache_parent_links {S} `{SnapshotStore S} (store : S)
    (cache : gmap string (option SnapshotParentLink)) (snapshot_ids : list string)
  : gmap string (option SnapshotParentLink) * result dag_error (list (option SnapshotParentLink)) :=
  let missing := filter (fun id => cache !! id = None) snapshot_ids in
  match missing with
  | [] => (cache, cached_links cache snapshot_ids)
  | _ :: _ =>
      match fetch_batch store missing with
      | Err e => (cache, Err e)
      | Ok links =>
          let cache := foldl (fun c row => <[fst row := snd row]> c) cache (zip missing links) in
          (cache, cached_links cache snapshot_ids)
      end
  end.

Record distance_state : Type := mkDist {
  dist_pending : list string;
  dist_discovered : gset string;
  dist_depth : gmap string N;
  dist_requested_by : gmap string (option string);
  dist_truncated : bool
}.

Definition distance_parent (limits : SnapshotDagLimits) (snapshot_id : string) (depth : N)
    (st : distance_state) (parent : string) : result dag_error distance_state :=
  if bool_decide (parent ∈ dist_discovered st) then Ok st
  else if results_full limits (dist_discovered st) then
    _ ← truncate_or_error limits (MaxResultsAtParent parent snapshot_id);
    Ok (mkDist (dist_pending st) (dist_discovered st) (dist_depth st) (dist_requested_by st) true)
  else
    Ok (mkDist (dist_pending st ++ [parent]) ({[parent]} ∪ dist_discovered st)
          (<[parent := (depth + 1)%N]> (dist_depth st)) (<[parent := Some snapshot_id]> (dist_requested_by st))
          (dist_truncated st)).

(** The loop over a batch stops with [inr (Some depth)] at the ancestor. *)
Fixpoint distance_rows (limits : SnapshotDagLimits) (ancestor : string) (st : distance_state)
    (rows : list (string * option SnapshotParentLink)) : result dag_error (distance_state + N) :=
  match rows with
  | [] => Ok (inl st)
  | (snapshot_id, link) :: rows =>
      link ← require_parent_link snapshot_id link (dist_requested_by st !! snapshot_id);
      parents ← selected_parents link AllParents;
      depth ← ok_or (dist_depth st !! snapshot_id) (LostDepth snapshot_id);
      if bool_decide (snapshot_id = ancestor) then Ok (inr depth)
      else
        retained ← retained_parents limits ∅ snapshot_id depth parents;
        let '(parents, cleared) := retained in
        st ← foldM (distance_parent limits snapshot_id depth)
               (mkDist (dist_pending st) (dist_discovered st) (dist_depth st) (dist_requested_by st)
                  (cleared || dist_truncated st)) parents;
        distance_rows limits ancestor st rows
  end.

Definition distance_round {S} `{SnapshotStore S} (store : S) (limits : SnapshotDagLimits) (ancestor : string)
    (acc : gmap string (option SnapshotParentLink) * distance_state)
  : (gmap string (option SnapshotParentLink) * distance_state)
    + (gmap string (option SnapshotParentLink) * result dag_error (option N)) :=
  let '(cache, st) := acc in
  match dist_pending st with
  | [] => inr (cache, Ok None)
  | pending =>
      let n := N.to_nat (N.min (batch_size limits) (N.of_nat (length pending))) in
      let batch := take n pending in
      let st := mkDist (drop n pending) (dist_discovered st) (dist_depth st) (dist_requested_by st)
                  (dist_truncated st) in
      let '(cache, links) := cache_parent_links store cache batch in
      match (links ← links; distance_rows limits ancestor st (zip batch links)) with
      | Err e => inr (cache, Err e)
      | Ok (inr depth) => inr (cache, Ok (Some depth))
      | Ok (inl st) => inl (cache, st)
      end
  end.

Definition snapshot_ancestor_distance_with_cache {S} `{SnapshotStore S} (store : S)
    (ancestor descendant : string) (limits : SnapshotDagLimits)
    (cache : gmap string (option SnapshotParentLink))
  : gmap string (option SnapshotParentLink) * result dag_error (option N) :=
  match (limits ← validate_limits limits;
         _ ← canonical_snapshot_ids [descendant] "descendant"; Ok limits) with
  | Err e => (cache, Err e)
  | Ok limits =>
      let st := mkDist [descendant] {[descendant]} {[descendant := 0%N]} {[descendant := None]} false in
      match loop (distance_round store limits ancestor) (closure_fuel limits) (cache, st) with
      | inl (cache, _) => (cache, Err OutOfFuel)
      | inr r => r
      end
  end.

Definition snapshot_ancestor_distance {S} `{SnapshotStore S} (store : S) (ancestor descendant : string)
    (limits : SnapshotDagLimits) : result dag_error (option N) :=
  snd (snapshot_ancestor_distance_with_cache store ancestor descendant limits ∅).
Definition snapshot_is_ancestor {S} `{SnapshotStore S} (store : S) (ancestor descendant : string)
    (limits : SnapshotDagLimits) : result dag_error (option N) :=
  snapshot_ancestor_distance store ancestor descendant limits.

(** ** Merge bases *)

Definition merge_base_sort_key (left right : SnapshotDagTraversal) (snapshot_id : string) : N * N * string :=
  let left_distance := default usize_max (distance_from_head left snapshot_id) in
  let right_distance := default usize_max (distance_from_head right snapshot_id) in
  (N.max left_distance right_distance, saturating_add left_distance right_distance, snapshot_id).

Definition base_key_le (a b : N * N * string) : Prop :=
  let '(a1, a2, a3) := a in
  let '(b1, b2, b3) := b in
  (a1 < b1)%N \/ (a1 = b1 /\ key_le (a2, a3) (b2, b3)).
#[export] Instance base_key_le_dec : RelDecision base_key_le.
Proof. intros [[??]?] [[??]?]. unfold base_key_le. apply _. Defined.

(** The sort is by a total key, so [sort_by] and [merge_sort] agree. *)
Definition base_le (left right : SnapshotDagTraversal) (a b : string) : Prop :=
  base_key_le (merge_base_sort_key left right a) (merge_base_sort_key left right b).
#[export] Instance base_le_dec left right : RelDecision (base_le left right).
Proof. intros a b. unfold base_le. apply _. Defined.

Definition common_snapshots (left right : SnapshotDagTraversal) : gset string :=
  dom (parent_snapshot_ids left) ∩ dom (parent_snapshot_ids right).

Definition mark_common_child (left right : SnapshotDagTraversal) (common : gset string) (marked : gset string)
    (snapshot_id : string) : result dag_error (gset string) :=
  parents ← ok_or (match parent_snapshot_ids left !! snapshot_id with
                   | Some parents => Some parents
                   | None => parent_snapshot_ids right !! snapshot_id end) (LostCommonNode snapshot_id);
  Ok (list_to_set (filter (fun p => p ∈ common) parents) ∪ marked).

Definition merge_bases_from_traversals (left right : SnapshotDagTraversal) : result dag_error (list string) :=
  let common := common_snapshots left right in
  if bool_decide (common = ∅) then Ok [] else
  has_common_child ← foldM (mark_common_child left right common) ∅ (sorted_elements common);
  Ok (merge_sort (base_le left right) (filter (fun id => id ∉ has_common_child) (sorted_elements common))).

Definition snapshot_merge_bases {S} `{SnapshotStore S} (store : S) (left_id right_id : string)
    (limits : SnapshotDagLimits) : result dag_error (list string) :=
  left ← snapshot_ancestor_closure store [left_id] ∅ AllParents limits;
  right ← snapshot_ancestor_closure store [right_id] ∅ AllParents limits;
  merge_bases_from_traversals left right.

Definition snapshot_merge_bases_from_parent_map (pm : gmap string (list string)) (left_id right_id : string)
    (limits : SnapshotDagLimits) : result dag_error (list string) :=
  left ← snapshot_ancestor_closure_from_parent_map pm [left_id] ∅ AllParents limits;
  right ← snapshot_ancestor_closure_from_parent_map pm [right_id] ∅ AllParents limits;
  merge_bases_from_traversals left right.

(** ** First-parent chain *)

Definition snapshot_first_parent_chain {S} `{SnapshotStore S} (store : S) (target : string)
    (selected : option string) (limits : SnapshotDagLimits) : result dag_error (list string) :=
  link ← map_err DagStore (snapshot_parent_link store target);
  match link with
  | None => Err (UnknownSnapshot target)
  | Some link =>
      match selected with
      | None =>
          t ← snapshot_ancestor_closure store [target] ∅ FirstParent limits;
          Ok (topological_snapshot_ids t)
      | Some parent =>
          _ ← fail_if (negb (bool_decide (parent ∈ link_parent_snapshot_ids link)))
                (NotAParent target parent (link_parent_snapshot_ids link));
          t ← snapshot_ancestor_closure store [parent] ∅ FirstParent limits;
          Ok (topological_snapshot_ids t ++ [target])
      end
  end.

(** ** Descendant closure *)

Record desc_state : Type := mkDesc {
  desc_discovered : gset string;
  desc_depth : gmap string N;
  desc_rank : gmap string N;
  desc_link : gmap string SnapshotParentLink;
  desc_frontier : gset string;
  desc_next_rank : N;
  desc_truncated : bool
}.

Definition desc_truncate (st : desc_state) : desc_state :=
  mkDesc (desc_discovered st) (desc_depth st) (desc_rank st) (desc_link st) (desc_frontier st)
    (desc_next_rank st) true.
Definition desc_discover (depth : N) (st : desc_state) (id : string) (link : SnapshotParentLink) : desc_state :=
  mkDesc ({[id]} ∪ desc_discovered st) (<[id := depth]> (desc_depth st))
    (<[id := desc_next_rank st]> (desc_rank st)) (<[id := link]> (desc_link st))
    ({[id]} ∪ desc_frontier st) (desc_next_rank st + 1) (desc_truncated st).

Definition queue_root (limits : SnapshotDagLimits) (st : desc_state) (row : string * option SnapshotParentLink)
  : result dag_error desc_state :=
  let '(root, link) := row in
  link ← require_parent_link root link None;
  if bool_decide (root ∈ desc_discovered st) then Ok st
  else if results_full limits (desc_discovered st) then
    _ ← truncate_or_error limits (MaxResultsAtRoot root); Ok (desc_truncate st)
  else Ok (desc_discover 0 st root link).

(** The body of [for link in page.links]; the state is [candidates] and
    [truncated]. *)
Definition scan_link (limits : SnapshotDagLimits) (parent_mode : SnapshotParentMode) (st : desc_state)
    (depth : N) (acc : gmap string SnapshotParentLink * bool) (link : SnapshotParentLink)
  : result dag_error (gmap string SnapshotParentLink * bool) :=
  let '(candidates, truncated) := acc in
  let child := link_snapshot_id link in
  let available := (max_results limits - N.of_nat (size (desc_discovered st)))%N in
  parents ← selected_parents link parent_mode;
  if negb (existsb (fun p => bool_decide (p ∈ desc_frontier st)) parents) then Ok (candidates, truncated) else
  match desc_depth st !! child with
  | Some child_depth => if (child_depth <=? depth)%N then Err (CycleAt child) else Ok (candidates, truncated)
  | None =>
      if (max_depth limits <=? depth)%N then
        _ ← truncate_or_error limits (MaxDepthAtDescendant child); Ok (candidates, true)
      else if bool_decide (is_Some (candidates !! child)) then Ok (candidates, truncated)
      else if (N.of_nat (size candidates) <? available)%N then Ok (<[child := link]> candidates, truncated)
      else match limit_mode limits with
           | LimitError => Err (MaxResultsAtDescendant child)
           | LimitTruncate =>
               match last (sorted_keys candidates) with
               | Some last_id =>
                   if str_ltb child last_id
                   then Ok (<[child := link]> (delete last_id candidates), true)
                   else Ok (candidates, true)
               | None => Ok (candidates, true)
               end
           end
  end.

(** One page of the inner [loop]; the state is the cursor and the candidates. *)
Definition page_round {S} `{SnapshotStore S} (store : S) (limits : SnapshotDagLimits)
    (parent_mode : SnapshotParentMode) (st : desc_state) (depth : N)
    (acc : N * (gmap string SnapshotParentLink * bool))
  : (N * (gmap string SnapshotParentLink * bool)) + result dag_error (gmap string SnapshotParentLink * bool) :=
  let '(cursor, found) := acc in
  match (page ← map_err DagStore (snapshot_parent_link_page store cursor (batch_size limits));
         _ ← fail_if (batch_size limits <? N.of_nat (length (page_links page)))%N
               (PageRowCount (length (page_links page)) (batch_size limits));
         found ← foldM (scan_link limits parent_mode st depth) found (page_links page);
         Ok (page_next_cursor page, found)) with
  | Err e => inr (Err e)
  | Ok (None, found) => inr (Ok found)
  | Ok (Some next_cursor, found) =>
      if (next_cursor <=? cursor)%N then inr (Err (CursorStuck cursor next_cursor))
      else inl (next_cursor, found)
  end.

(** One round of [while !frontier.is_empty()]. The cursor is a [usize] that
    increases, so [2 ^ 64] pages are enough. *)
Definition descend_round {S} `{SnapshotStore S} (store : S) (limits : SnapshotDagLimits)
    (parent_mode : SnapshotParentMode) (acc : desc_state * N) : (desc_state * N) + result dag_error desc_state :=
  let '(st, depth) := acc in
  if bool_decide (desc_frontier st = ∅) then inr (Ok st) else
  match run_loop (page_round store limits parent_mode st depth) 18446744073709551616
          (0%N, (∅, desc_truncated st)) with
  | Err e => inr (Err e)
  | Ok (candidates, truncated) =>
      let st := mkDesc (desc_discovered st) (desc_depth st) (desc_rank st) (desc_link st) (desc_frontier st)
                  (desc_next_rank st) truncated in
      if bool_decide (candidates = ∅) then inr (Ok st) else
      let depth := saturating_add depth 1 in
      let st := mkDesc (desc_discovered st) (desc_depth st) (desc_rank st) (desc_link st) ∅
                  (desc_next_rank st) truncated in
      inl (foldl (fun st row => desc_discover depth st (fst row) (snd row)) st (sorted_entries candidates), depth)
  end.

Definition descendant_parents (parent_mode : SnapshotParentMode) (st : desc_state)
    (acc : gmap string (list string)) (row : string * SnapshotParentLink)
  : result dag_error (gmap string (list string)) :=
  let '(snapshot_id, link) := row in
  depth ← ok_or (desc_depth st !! snapshot_id) (LostDepth snapshot_id);
  parents ← (if (depth =? 0)%N then Ok [] else selected_parents link parent_mode);
  Ok (<[snapshot_id := filter (fun p => p ∈ desc_discovered st) parents]> acc).

Definition snapshot_descendant_closure {S} `{SnapshotStore S} (store : S) (root_snapshot_ids : list string)
    (parent_mode : SnapshotParentMode) (limits : SnapshotDagLimits) : result dag_error SnapshotDagTraversal :=
  limits ← validate_limits limits;
  roots ← canonical_snapshot_ids root_snapshot_ids "root";
  match roots with
  | [] => Ok (mkTraversal [] ∅ ∅ false)
  | _ :: _ =>
      links ← map_err DagStore (snapshot_parent_links store roots);
      _ ← fail_if (negb (bool_decide (length links = length roots))) (RootRowCount (length links) (length roots));
      st ← foldM (queue_root limits) (mkDesc ∅ ∅ ∅ ∅ ∅ 0 false) (zip roots links);
      st ← run_loop (descend_round store limits parent_mode) (closure_fuel limits) (st, 0%N);
      pm ← foldM (descendant_parents parent_mode st) ∅ (sorted_entries (desc_link st));
      order ← topological_order_with_rank pm ∅ (Some (desc_rank st));
      Ok (mkTraversal order pm (desc_depth st) (desc_truncated st))
  end.

(** ** A store over a parent map *)

(** [MemorySnapshotStore] of the tests: one link per key, the trait's default
    batch read, and pages of the links in key order. *)
Record MemorySnapshotStore : Type := mkStore { stored_parents : gmap string (list string) }.

Definition memory_parent_link_page (store : MemorySnapshotStore) (cursor limit : N)
  : result snapshot_error SnapshotParentLinkPage :=
  let links := (fun e => link_of (fst e) (snd e)) <$> sorted_entries (stored_parents store) in
  let len := N.of_nat (length links) in
  _ ← fail_if (limit =? 0)%N (StoreFailure "limit must be positive");
  _ ← fail_if (len <? cursor)%N (StoreFailure "cursor is out of range");
  let next_cursor := N.min (saturating_add cursor limit) len in
  Ok (mkPage (take (N.to_nat (N.min limit len)) (drop (N.to_nat cursor) links))
        (if (next_cursor <? len)%N then Some next_cursor else None)).

#[export] Instance memory_snapshot_store : SnapshotStore MemorySnapshotStore := {
  snapshot_parent_link store id := Ok (link_of id <$> stored_parents store !! id);
  snapshot_parent_links store ids :=
    default_snapshot_parent_links (fun id => Ok (link_of id <$> stored_parents store !! id)) ids;
  snapshot_parent_link_page store cursor limit := memory_parent_link_page store cursor limit
}.

#[export] Instance memory_store_lawful g : LawfulSnapshotStore MemorySnapshotStore (mkStore g) g.
Proof.
  split; [done|]. intros ids _. cbn. unfold default_snapshot_parent_links. cbn.
  apply mapM_result_Ok. induction ids; constructor; auto.
Qed.

(** The history of the tests: a merge of two children of one root. *)
Definition diamond : gmap string (list string) :=
  list_to_map [("ROOT"%string, []); ("LEFT"%string, ["ROOT"%string]); ("RIGHT"%string, ["ROOT"%string]);
               ("MERGE"%string, ["LEFT"%string; "RIGHT"%string])].
