(* ===== verification/TopoOrder.v ===== *)
(** * The topological order

    Kahn's algorithm of [topological_order_with_rank] in
    [ait-core/src/snapshot_dag.rs] (defined in [SnapshotDag]): it returns a
    parent-first enumeration exactly when the graph is acyclic, and it emits,
    at each point, the least key among the snapshots that are ready. *)

From Stdlib Require Import NArith Lia.
From stdpp Require Import base sorting relations fin_sets gmap strings list.
From S2P Require Import Prelude SnapshotStore SnapshotDag.

(** ** Specification *)

(** The parents of [id] that the order is about. *)
Definition internal_parents (pm : gmap string (list string)) (external : gset string) (id : string) : list string :=
  filter (fun p => p ∉ external) (default [] (pm !! id)).

(** [parent] is an internal parent of [child]. *)
Definition parent_edge (pm : gmap string (list string)) (external : gset string) (parent child : string) : Prop :=
  parent ∈ internal_parents pm external child.

(** Every internal parent is a key. *)
Definition closed_map (pm : gmap string (list string)) (external : gset string) : Prop :=
  forall id p, parent_edge pm external p id -> is_Some (pm !! p).

Definition acyclic (pm : gmap string (list string)) (external : gset string) : Prop :=
  forall id, ~ tc (parent_edge pm external) id id.

(** [order] enumerates the keys once each, parents first. *)
Definition topological (pm : gmap string (list string)) (external : gset string) (order : list string) : Prop :=
  NoDup order /\ (forall id, id ∈ order <-> is_Some (pm !! id)) /\
  (forall before id after p, order = before ++ id :: after -> parent_edge pm external p id -> p ∈ before).

(** ** The key order *)

#[export] Instance key_le_trans : Transitive key_le.
Proof.
  intros [r1 s1] [r2 s2] [r3 s3]; unfold key_le; cbn. intros [?|[-> H1]] [?|[-> H2]]; [left; lia|left; lia|left; lia|].
  right; split; [done|]. by etrans.
Qed.
#[export] Instance key_le_total : Total key_le.
Proof.
  intros [r1 s1] [r2 s2]; unfold key_le; cbn. destruct (N.lt_total r1 r2) as [?|[->|?]]; [auto| |auto].
  destruct (total String.le s1 s2); auto.
Qed.
#[export] Instance key_le_antisym : AntiSymm (=) key_le.
Proof.
  intros [r1 s1] [r2 s2]; unfold key_le; cbn. intros [?|[-> ?]] [?|[? ?]]; try lia. f_equal. by apply (anti_symm String.le).
Qed.

Lemma elem_of_sorted_key_list k X : k ∈ sorted_key_list X <-> k ∈ X.
Proof. unfold sorted_key_list. rewrite (merge_sort_Permutation key_le (elements X)). apply elem_of_elements. Qed.

Lemma pop_first_None X : pop_first X = None <-> X = ∅.
Proof.
  unfold pop_first. split.
  - destruct (sorted_key_list X) eqn:Hs; [|done]. intros _. apply leibniz_equiv, elem_of_equiv_empty.
    intros k Hk. apply elem_of_sorted_key_list in Hk. rewrite Hs in Hk. set_solver.
  - intros ->. destruct (sorted_key_list ∅) as [|k l] eqn:Hs; [done|].
    assert (k ∈ (∅ : gset (N * string))) as []%not_elem_of_empty.
    apply elem_of_sorted_key_list. rewrite Hs. set_solver.
Qed.

Lemma pop_first_Some X k X' :
  pop_first X = Some (k, X') -> k ∈ X /\ X' = X ∖ {[k]} /\ (forall k', k' ∈ X -> key_le k k').
Proof.
  unfold pop_first. destruct (sorted_key_list X) as [|k0 l] eqn:Hs; [done|]. intros [= -> <-].
  assert (StronglySorted key_le (k :: l)) as Hss.
  { rewrite <- Hs. unfold sorted_key_list. apply StronglySorted_merge_sort; apply _. }
  split_and!; [|done|].
  - apply elem_of_sorted_key_list. rewrite Hs. set_solver.
  - intros k' Hk'. apply elem_of_sorted_key_list in Hk'. rewrite Hs, elem_of_cons in Hk'.
    destruct Hk' as [->|Hk']; [by destruct (total key_le k k)|].
    inversion Hss as [|? ? ? Hall]; subst. by rewrite Forall_forall in Hall; apply Hall.
Qed.

Lemma snd_stable_node_key id rank : snd (stable_node_key id rank) = id.
Proof. done. Qed.

(** ** Cycles in finite graphs *)

(** A nonempty finite set in which every element has a predecessor contains a
    cycle. *)
Lemma finite_cycle (R : relation string) (X : gset string) :
  X <> ∅ -> (forall x, x ∈ X -> exists y, y ∈ X /\ tc R y x) -> exists x, tc R x x.
Proof.
  remember (size X) as n eqn:Hn. revert X Hn.
  induction n as [|n IH]; intros X Hn Hne Hpred.
  { symmetry in Hn. by apply size_empty_inv, leibniz_equiv in Hn. }
  destruct (set_choose_L X) as [x Hx]; [done|].
  destruct (Hpred x Hx) as (z & Hz & Hzx).
  destruct (decide (z = x)) as [->|Hzne]; [by exists x|].
  apply (IH (X ∖ {[x]})).
  - rewrite size_difference by set_solver. rewrite size_singleton. lia.
  - set_solver.
  - intros y Hy. destruct (Hpred y) as (w & Hw & Hwy); [set_solver|].
    destruct (decide (w = x)) as [->|]; [|set_solver].
    exists z. split; [set_solver|]. by eapply tc_transitive.
Qed.

Lemma topological_acyclic pm external order :
  closed_map pm external -> topological pm external order -> acyclic pm external.
Proof.
  intros Hclosed (Hnd & Hkeys & Hfirst) id Hcycle.
  assert (forall p c, tc (parent_edge pm external) p c ->
    forall before after, order = before ++ c :: after -> p ∈ before) as Hbefore.
  { induction 1 as [p c Hpc|p q c Hpq Hqc IH]; intros before after Heq; [by eapply Hfirst|].
    specialize (IH _ _ Heq) as Hq. apply list_elem_of_split in Hq as (b1 & b2 & ->).
    assert (p ∈ b1); [|set_solver]. eapply Hfirst; [|done]. rewrite Heq, <- app_assoc. done. }
  assert (is_Some (pm !! id)) as Hid.
  { assert (forall p c, tc (parent_edge pm external) p c -> exists q, parent_edge pm external q c) as Hlast.
    { induction 1; eauto. }
    destruct (Hlast _ _ Hcycle) as [q Hq]. unfold parent_edge, internal_parents in Hq.
    destruct (pm !! id); [by eexists|]. cbn in Hq. by apply elem_of_nil in Hq. }
  apply Hkeys, list_elem_of_split in Hid as (b & a & Heq).
  specialize (Hbefore id id Hcycle b a Heq). rewrite Heq in Hnd.
  apply NoDup_app in Hnd as (_ & Hdis & _). apply (Hdis id Hbefore). set_solver.
Qed.

(** ** The counting loops *)

Lemma internal_parents_lookup pm external id ps :
  pm !! id = Some ps -> internal_parents pm external id = filter (fun p => p ∉ external) ps.
Proof. intros H. unfold internal_parents. by rewrite H. Qed.

Lemma valid_parent_set_NoDup id ps : valid_parent_set id ps -> NoDup ps.
Proof. intros (_ & _ & _ & H). by eapply NoDup_fmap_1. Qed.

(** The counts after the parents [ps] of [id], starting from [indegree] where
    [id] has count [n]. *)
Definition counted (external : gset string) (id : string) (n : N) (indegree : gmap string N)
    (children : gmap string (list string)) (ps : list string)
    (st : gmap string N * gmap string (list string)) : Prop :=
  fst st = <[id := (n + N.of_nat (length (filter (fun p => p ∉ external) ps)))%N]> indegree /\
  forall p, default [] (snd st !! p) =
    default [] (children !! p) ++ (if decide (p ∈ filter (fun p => p ∉ external) ps) then [id] else []).

Lemma count_parent_Ok pm external id n indegree children ps p st :
  p ∉ ps -> counted external id n indegree children ps st ->
  (p ∉ external -> is_Some (pm !! p)) ->
  exists st', count_parent pm external id st p = Ok st' /\
    counted external id n indegree children (ps ++ [p]) st'.
Proof.
  destruct st as [ind ch]. intros Hp [Hi Hc] Hk. cbn in Hi, Hc. unfold count_parent, counted.
  rewrite filter_app, filter_cons. cbn [filter list_filter].
  case_bool_decide as He.
  - exists (ind, ch). split; [done|]. rewrite decide_False by tauto. rewrite app_nil_r. done.
  - destruct (Hk He) as [v Hv]. rewrite bool_decide_eq_true_2 by (by eexists). cbn [negb fail_if].
    eexists; split; [done|]. rewrite decide_True by done. cbn [fst snd]. split.
    + subst ind. rewrite lookup_insert_eq, insert_insert_eq. f_equal. cbn. rewrite length_app. cbn. lia.
    + intros q. destruct (decide (q = p)) as [->|Hne].
      * rewrite lookup_insert_eq. cbn. rewrite Hc, (decide_False (P := p ∈ filter _ ps)), app_nil_r.
        -- rewrite decide_True by set_solver. done.
        -- rewrite list_elem_of_filter. tauto.
      * rewrite lookup_insert_ne by done. rewrite Hc. f_equal.
        destruct (decide (q ∈ filter _ ps)), (decide (q ∈ filter _ ps ++ [p])); try done; set_solver.
Qed.

Lemma count_parents_total pm external id n indegree children ps :
  NoDup ps -> indegree !! id = Some n ->
  (forall p, p ∈ ps -> p ∉ external -> is_Some (pm !! p)) ->
  exists st, foldM (count_parent pm external id) (indegree, children) ps = Ok st /\
    counted external id n indegree children ps st.
Proof.
  intros Hnd Hid Hk. apply foldM_total.
  - split; cbn.
    + rewrite N.add_0_r. by rewrite insert_id.
    + intros p. by rewrite app_nil_r.
  - intros done p rest st -> Hst. apply NoDup_app in Hnd as (_ & Hdis & Hnd).
    apply count_parent_Ok; [intros Hin; by apply (Hdis p Hin), list_elem_of_here|done|].
    intros Hext. apply Hk; [set_solver|done].
Qed.

(** The counts after the entries whose keys are [ids]. *)
Definition counts_of (pm : gmap string (list string)) (external : gset string) (ids : list string)
    (st : gmap string N * gmap string (list string)) : Prop :=
  (forall id, fst st !! id =
     if decide (id ∈ ids) then Some (N.of_nat (length (internal_parents pm external id))) else None) /\
  (forall p, NoDup (default [] (snd st !! p))) /\
  (forall p c, c ∈ default [] (snd st !! p) <-> c ∈ ids /\ parent_edge pm external p c).

Lemma count_node_total pm external ids id ps st :
  valid_parent_map pm -> closed_map pm external -> pm !! id = Some ps -> id ∉ ids ->
  counts_of pm external ids st ->
  exists st', count_node pm external st (id, ps) = Ok st' /\ counts_of pm external (ids ++ [id]) st'.
Proof.
  destruct st as [ind ch]. intros Hv Hcl Hps Hid (Hi & Hn & Hc). cbn [fst snd] in *.
  assert (valid_parent_set (Some id) ps) as Hvs by exact (Hv id ps Hps). unfold count_node.
  rewrite (validate_link _ _ Hvs). cbn [map_err mbind result_bind].
  assert (or_insert_zero ind id = <[id:=0%N]> ind) as Hor.
  { unfold or_insert_zero. by rewrite Hi, decide_False. }
  rewrite Hor. clear Hor.
  assert (internal_parents pm external id = filter (fun p => p ∉ external) ps) as Hip
    by (by apply internal_parents_lookup).
  destruct (count_parents_total pm external id 0 (<[id:=0%N]> ind) ch ps) as ([ind' ch'] & Hf & Hi' & Hc').
  { by eapply valid_parent_set_NoDup. }
  { by rewrite lookup_insert_eq. }
  { intros p Hp Hext. apply (Hcl id). unfold parent_edge. rewrite Hip. apply list_elem_of_filter. done. }
  exists (ind', ch'). split; [done|]. cbn [fst snd] in *. rewrite insert_insert_eq, N.add_0_l in Hi'.
  rewrite <- Hip in Hi', Hc'.
  split_and!; cbn [fst snd].
  - intros x. subst ind'. destruct (decide (x = id)) as [->|Hne].
    + rewrite lookup_insert_eq, decide_True by set_solver. done.
    + rewrite lookup_insert_ne, Hi by done. destruct (decide (x ∈ ids)), (decide (x ∈ ids ++ [id])); try done; set_solver.
  - intros p. rewrite Hc'. apply NoDup_app. split_and!; [done| |].
    + intros c Hcin. apply Hc in Hcin as [Hcin _]. case_decide; set_solver.
    + case_decide; [apply NoDup_singleton|apply NoDup_nil_2].
  - intros p c. rewrite Hc', !elem_of_app, Hc, list_elem_of_singleton. fold (parent_edge pm external p id).
    destruct (decide (parent_edge pm external p id)); set_solver.
Qed.

Lemma count_nodes_total pm external :
  valid_parent_map pm -> closed_map pm external ->
  exists st, foldM (count_node pm external) (∅, ∅) (sorted_entries pm) = Ok st /\
    counts_of pm external (sorted_keys pm) st.
Proof.
  intros Hv Hcl. rewrite <- sorted_entries_keys.
  apply (foldM_total _ (fun done st => counts_of pm external (map fst done) st)).
  - split_and!; cbn [fst snd map].
    + intros id. by rewrite lookup_empty.
    + intros p. rewrite lookup_empty. apply NoDup_nil_2.
    + intros p c. rewrite lookup_empty. set_solver.
  - intros done [id ps] rest st Heq Hst. rewrite map_app. cbn [map fst].
    assert (NoDup (map fst (sorted_entries pm))) as Hnd by (rewrite sorted_entries_keys; auto with ait).
    rewrite Heq, map_app in Hnd. apply NoDup_app in Hnd as (_ & Hdis & _).
    apply count_node_total; [done..| |intros Hin; apply (Hdis id Hin); cbn; set_solver|done].
    apply elem_of_sorted_entries. rewrite Heq. set_solver.
Qed.

(** [order] always emits a least key among the snapshots that are ready. *)
Definition greedy (pm : gmap string (list string)) (external : gset string) (rank : option (gmap string N))
    (order : list string) : Prop :=
  forall before id after x, order = before ++ id :: after -> is_Some (pm !! x) -> x ∉ before ->
    (forall p, parent_edge pm external p x -> p ∈ before) ->
    key_le (stable_node_key id rank) (stable_node_key x rank).

(** ** The main loop *)

Section kahn.
Context (pm : gmap string (list string)) (external : gset string) (rank : option (gmap string N)).
Context (children : gmap string (list string)).
Hypothesis (Hvalid : valid_parent_map pm) (Hclosed : closed_map pm external).
Hypothesis (Hch_nodup : forall p, NoDup (default [] (children !! p))).
Hypothesis (Hch_spec : forall p c, c ∈ default [] (children !! p) <-> is_Some (pm !! c) /\ parent_edge pm external p c).

Local Abbreviation internal := (internal_parents pm external).
Local Abbreviation edge := (parent_edge pm external).
Local Abbreviation key x := (stable_node_key x rank).

Lemma internal_NoDup x : NoDup (internal x).
Proof.
  unfold internal_parents. destruct (pm !! x) as [ps|] eqn:Hx; cbn; [|apply NoDup_nil_2].
  apply NoDup_filter. eapply valid_parent_set_NoDup. apply (Hvalid x ps Hx).
Qed.

Lemma edge_key p x : edge p x -> is_Some (pm !! x).
Proof.
  unfold parent_edge, internal_parents. destruct (pm !! x); [by eexists|]. cbn. by intros ?%elem_of_nil.
Qed.

(** Counts and ready keys when the nodes [seen x] count as emitted for [x]. *)
Definition counts_inv (seen : string -> list string) (emitted : list string)
    (indegree : gmap string N) (ready : gset (N * string)) : Prop :=
  (forall x, indegree !! x =
     if decide (is_Some (pm !! x)) then Some (N.of_nat (length (filter (fun p => p ∉ seen x) (internal x)))) else None) /\
  (forall k, k ∈ ready <-> exists x, k = key x /\ is_Some (pm !! x) /\ (x ∉ emitted) /\ forall p, edge p x -> p ∈ seen x).

Definition kahn_inv (st : kahn_state) : Prop :=
  let ordered := kahn_ordered st in
  NoDup ordered /\ (forall x, x ∈ ordered -> is_Some (pm !! x)) /\
  (forall before id after p, ordered = before ++ id :: after -> edge p id -> p ∈ before) /\
  greedy pm external rank ordered /\
  counts_inv (fun _ => ordered) ordered (kahn_indegree st) (kahn_ready st).

Lemma all_seen_iff (s : list string) x : (forall p, edge p x -> p ∈ s) <-> length (filter (fun p => p ∉ s) (internal x)) = 0.
Proof.
  rewrite filter_all_nil. unfold parent_edge.
  split; intros H p Hp; specialize (H p Hp); destruct (decide (p ∈ s)); tauto.
Qed.

Lemma counts_inv_ext seen seen' emitted indegree ready :
  (forall x, filter (fun p => p ∉ seen x) (internal x) = filter (fun p => p ∉ seen' x) (internal x)) ->
  counts_inv seen emitted indegree ready -> counts_inv seen' emitted indegree ready.
Proof.
  intros Heq [Hi Hr]. split.
  - intros x. by rewrite Hi, Heq.
  - intros k. rewrite Hr. setoid_rewrite all_seen_iff. by setoid_rewrite Heq.
Qed.

Lemma release_child_step ordered id done c indegree ready :
  id ∉ ordered -> c ∉ done -> c ∉ ordered ++ [id] -> is_Some (pm !! c) -> edge id c ->
  counts_inv (fun x => if decide (x ∈ done) then ordered ++ [id] else ordered) (ordered ++ [id]) indegree ready ->
  exists st, release_child rank (indegree, ready) c = Ok st /\
    counts_inv (fun x => if decide (x ∈ done ++ [c]) then ordered ++ [id] else ordered) (ordered ++ [id]) (fst st) (snd st).
Proof.
  intros Hid Hc Hco Hkey He [Hi Hr]. unfold release_child.
  rewrite Hi, (decide_True (P := is_Some _)), (decide_False (P := c ∈ done)) by done. cbn [ok_or mbind result_bind].
  pose proof (length_filter_not_snoc (internal c) ordered id (internal_NoDup c) He Hid) as Hlen.
  eexists; split; [done|]. cbn [fst snd]. split.
  - intros x. destruct (decide (x = c)) as [->|Hne].
    + rewrite lookup_insert_eq, (decide_True (P := is_Some _)), (decide_True (P := c ∈ _)) by set_solver.
      f_equal. lia.
    + rewrite lookup_insert_ne, Hi by done. case_decide; [|done].
      destruct (decide (x ∈ done)), (decide (x ∈ done ++ [c])); try done; set_solver.
  - intros k.
    assert (forall x, x <> c -> (if decide (x ∈ done) then ordered ++ [id] else ordered)
              = (if decide (x ∈ done ++ [c]) then ordered ++ [id] else ordered)) as Hsame.
    { intros x Hne. destruct (decide (x ∈ done)), (decide (x ∈ done ++ [c])); try done; set_solver. }
    set (zero := N.eqb _ 0).
    assert (zero = true <-> forall p, edge p c -> p ∈ ordered ++ [id]) as Hzero.
    { unfold zero. rewrite N.eqb_eq.
      trans (length (filter (fun p => p ∉ ordered ++ [id]) (internal c)) = 0); [lia|].
      by rewrite all_seen_iff. }
    trans ((zero = true /\ k = key c) \/ k ∈ ready); [destruct zero; set_solver|]. rewrite Hr. split.
    + intros [[Hz ->]|(x & -> & Hx & Hn & Hall)].
      * exists c. rewrite decide_True by set_solver. split_and!; try done. by apply Hzero.
      * exists x. split_and!; try done. destruct (decide (x = c)) as [->|Hne]; [|by rewrite <- Hsame].
        rewrite decide_False in Hall by done. by destruct Hid; apply Hall.
    + intros (x & -> & Hx & Hn & Hall). destruct (decide (x = c)) as [->|Hne].
      * left. rewrite decide_True in Hall by set_solver. split; [by apply Hzero|done].
      * right. exists x. rewrite Hsame by done. done.
Qed.

Lemma ready_not_child ordered id c indegree ready :
  (forall before x after p, ordered = before ++ x :: after -> edge p x -> p ∈ before) ->
  counts_inv (fun _ => ordered) ordered indegree ready -> key id ∈ ready -> edge id c ->
  c ∉ ordered ++ [id].
Proof.
  intros Hpre [_ Hr] Hk He Hin. apply Hr in Hk as (x & Hkx & Hx & Hn & Hall).
  assert (x = id) as -> by (by injection Hkx).
  apply elem_of_app in Hin as [Hin|Hin].
  - apply list_elem_of_split in Hin as (b & a & ->). apply Hn. specialize (Hpre b c a id eq_refl He). set_solver.
  - apply list_elem_of_singleton in Hin as ->. by apply Hn, Hall.
Qed.

Lemma kahn_step_inv st : kahn_inv st ->
  match kahn_step rank children st with
  | inl st' => kahn_inv st' /\ size pm - length (kahn_ordered st') < size pm - length (kahn_ordered st)
  | inr r => exists st', r = Ok st' /\ kahn_inv st' /\ kahn_ready st' = ∅
  end.
Proof.
  destruct st as [ready indegree ordered]. intros (Hnd & Hkeys & Hpre & Hg & Hinv). cbn [kahn_ordered kahn_indegree kahn_ready] in *.
  unfold kahn_step. cbn [kahn_ready kahn_indegree kahn_ordered].
  destruct (pop_first ready) as [[[rk id] ready']|] eqn:Hpop.
  2:{ apply pop_first_None in Hpop. eexists. split; [done|]. split; [|done]. split_and!; done. }
  apply pop_first_Some in Hpop as (Hin & -> & Hmin).
  pose proof Hinv as [Hi Hr]. apply Hr in Hin as Hin'. destruct Hin' as (x & Hkx & Hx & Hno & Hall).
  assert (x = id) as -> by (injection Hkx; done). rewrite Hkx in *. clear Hkx rk.
  assert (counts_inv (fun x => if decide (x ∈ []) then ordered ++ [id] else ordered) (ordered ++ [id]) indegree (ready ∖ {[key id]})) as Hinv0.
  { split.
    - intros y. rewrite Hi. destruct (decide (y ∈ [])) as [?%elem_of_nil|]; done.
    - intros k. rewrite elem_of_difference, elem_of_singleton, Hr. split.
      + intros [(y & -> & Hy & Hny & Hally) Hne]. exists y. rewrite decide_False by apply not_elem_of_nil.
        split_and!; try done. intros [?| ->]%elem_of_snoc; done.
      + intros (y & -> & Hy & Hny & Hally). rewrite decide_False in Hally by apply not_elem_of_nil. split.
        * exists y. split_and!; try done. set_solver.
        * intros Heq. apply Hny. apply (f_equal snd) in Heq. cbn in Heq. subst. set_solver. }
  destruct (foldM_total (release_child rank)
    (fun done st => counts_inv (fun x => if decide (x ∈ done) then ordered ++ [id] else ordered) (ordered ++ [id]) (fst st) (snd st))
    (default [] (children !! id)) (indegree, ready ∖ {[key id]})) as ([indegree' ready''] & Hf & Hinv').
  { done. }
  { intros done c rest [i1 r1] Heq Hst.
    assert (c ∈ default [] (children !! id)) as [Hkc Hec]%Hch_spec by (rewrite Heq; set_solver).
    pose proof (Hch_nodup id) as Hnd'. rewrite Heq in Hnd'. apply NoDup_app in Hnd' as (_ & Hdis & _).
    apply release_child_step; [done|intros Hd; apply (Hdis c Hd); set_solver| |done|done|done].
    by eapply ready_not_child. }
  rewrite Hf. cbn [fst snd] in Hinv'. unfold kahn_inv. cbn [kahn_ordered kahn_ready kahn_indegree].
  assert (NoDup (ordered ++ [id])) as Hnd2.
  { apply NoDup_app. split_and!; [done|set_solver|apply NoDup_singleton]. }
  assert (forall y, y ∈ ordered ++ [id] -> is_Some (pm !! y)) as Hkeys2.
  { intros y [?| ->]%elem_of_snoc; auto. }
  split_and!; [done|done| | | |].
  - intros before y after p Heq Hp.
    destruct after as [|z after _] using rev_ind.
    + apply app_inj_tail in Heq as [-> ->]. by apply Hall.
    + rewrite app_comm_cons, app_assoc in Heq. apply app_inj_tail in Heq as [-> _]. by eapply Hpre.
  - intros before y after z Heq Hz Hnz Hzp.
    destruct after as [|w after _] using rev_ind.
    + apply app_inj_tail in Heq as [<- <-]. apply Hmin, Hr. by exists z.
    + rewrite app_comm_cons, app_assoc in Heq. apply app_inj_tail in Heq as [-> _]. by eapply Hg.
  - eapply counts_inv_ext; [|done]. intros y. cbn. case_decide as Hy; [done|].
    symmetry. apply filter_not_snoc_id. intros Hid. apply Hy, Hch_spec. split; [by eapply edge_key|done].
  - pose proof (NoDup_length_le_size (ordered ++ [id]) (dom pm) Hnd2) as Hle.
    rewrite length_app in *. cbn [length] in *. rewrite size_dom in Hle.
    assert (length ordered + 1 <= size pm); [|lia]. apply Hle. intros y Hy. apply elem_of_dom. by apply Hkeys2.
Qed.

Lemma kahn_loop_total st : kahn_inv st ->
  exists st', loop (kahn_step rank children) (Pos.of_succ_nat (size pm)) st = inr (Ok st') /\ kahn_inv st' /\ kahn_ready st' = ∅.
Proof.
  intros Hst.
  destruct (loop_total (kahn_step rank children) kahn_inv (fun st => size pm - length (kahn_ordered st))
    (fun r => exists st', r = Ok st' /\ kahn_inv st' /\ kahn_ready st' = ∅) (Pos.of_succ_nat (size pm)) st)
    as (r & Hr & st' & -> & H); [done|lia|apply kahn_step_inv|]. eauto.
Qed.

(** A snapshot that was never ready belongs to a set in which every member has
    a parent of the set. *)
Lemma kahn_stuck_cycle st :
  kahn_inv st -> kahn_ready st = ∅ -> length (kahn_ordered st) <> size pm -> exists x, tc edge x x.
Proof using Hclosed.
  clear Hvalid Hch_nodup Hch_spec children. intros (Hnd & Hkeys & _ & _ & _ & Hr) He Hlen.
  assert (forall x, x ∈ kahn_ordered st -> x ∈ dom pm) as Hdom by (intros x Hx; apply elem_of_dom; auto).
  apply (finite_cycle _ (dom pm ∖ list_to_set (kahn_ordered st))).
  - intros Hemp. apply Hlen. rewrite <- size_dom.
    rewrite <- (size_list_to_set (C := gset string) (kahn_ordered st)) by done. f_equal. symmetry.
    apply set_eq. intros y. rewrite elem_of_list_to_set. split; [|apply Hdom].
    intros Hy. destruct (decide (y ∈ kahn_ordered st)); [done|]. exfalso.
    apply (not_elem_of_empty (C := gset string) y). rewrite <- Hemp, elem_of_difference, elem_of_list_to_set. done.
  - intros x [Hx Hnx]%elem_of_difference. apply elem_of_dom in Hx. rewrite elem_of_list_to_set in Hnx.
    destruct (decide (Exists (fun p => p ∉ kahn_ordered st) (internal x))) as [Hex|Hall].
    + apply Exists_exists in Hex as (p & Hp & Hnp). exists p. split; [|by apply tc_once].
      rewrite elem_of_difference, elem_of_dom, elem_of_list_to_set. split; [by eapply Hclosed|done].
    + exfalso. assert (key x ∈ kahn_ready st); [|set_solver]. apply Hr. exists x. split_and!; try done.
      intros p Hp. destruct (decide (p ∈ kahn_ordered st)); [done|]. destruct Hall. apply Exists_exists. eauto.
Qed.
End kahn.

(** ** Assembly *)

Lemma count_parent_inv pm external id st p st' :
  count_parent pm external id st p = Ok st' -> p ∉ external -> is_Some (pm !! p).
Proof.
  destruct st as [ind ch]. unfold count_parent. intros H He. rewrite bool_decide_eq_false_2 in H by done.
  inv_ok. by apply negb_false_iff, bool_decide_eq_true in Hok.
Qed.

Lemma count_nodes_inv pm external st :
  foldM (count_node pm external) (∅, ∅) (sorted_entries pm) = Ok st ->
  valid_parent_map pm /\ closed_map pm external.
Proof.
  intros H.
  assert (forall id ps, pm !! id = Some ps -> valid_parent_set (Some id) ps /\
            forall p, p ∈ ps -> p ∉ external -> is_Some (pm !! p)) as Hall.
  { intros id ps Hid. apply elem_of_sorted_entries in Hid.
    destruct (foldM_Ok_each _ _ _ _ _ H Hid) as ([ind ch] & st2 & Hc). unfold count_node in Hc. inv_ok.
    destruct a. apply validate_snapshot_parent_set_Ok in Hok as (Hv & _). split; [done|].
    intros p Hp. destruct (foldM_Ok_each _ _ _ _ _ Hc Hp) as (s1 & s2 & Hs). by eapply count_parent_inv. }
  split.
  - intros id ps Hid. by apply Hall.
  - intros id p Hp. unfold parent_edge, internal_parents in Hp. destruct (pm !! id) as [ps|] eqn:Hid.
    + apply list_elem_of_filter in Hp as [He Hp]. by eapply Hall.
    + cbn in Hp. by apply elem_of_nil in Hp.
Qed.

Lemma elem_of_zero_nodes pm external st id :
  counts_of pm external (sorted_keys pm) st ->
  id ∈ zero_nodes (fst st) <-> is_Some (pm !! id) /\ forall p, ~ parent_edge pm external p id.
Proof.
  intros (Hi & _ & _). unfold zero_nodes. rewrite list_elem_of_filter, elem_of_sorted_keys, Hi.
  destruct (decide (id ∈ sorted_keys pm)) as [Hk|Hk]; rewrite elem_of_sorted_keys in Hk; cbn.
  - unfold parent_edge. split.
    + intros [Hz _]. split; [done|]. intros p Hp. destruct (internal_parents pm external id); [by apply elem_of_nil in Hp|]. cbn in Hz. lia.
    + intros [_ Hno]. split; [|by eexists]. destruct (internal_parents pm external id) as [|p l]; [done|].
      destruct (Hno p). set_solver.
  - split; [by intros [[=] _]|by intros [? _]].
Qed.

(** What the order is once the counts are made. *)
Lemma topological_order_result pm external rank :
  valid_parent_map pm -> closed_map pm external ->
  (exists order, topological_order_with_rank pm external rank = Ok order /\
     topological pm external order /\ greedy pm external rank order) \/
  (exists id, topological_order_with_rank pm external rank = Err (CycleAt id) /\
     exists x, tc (parent_edge pm external) x x).
Proof.
  intros Hv Hcl. unfold topological_order_with_rank.
  destruct (count_nodes_total pm external Hv Hcl) as ([ind ch] & -> & Hc). cbn [mbind result_bind].
  pose proof Hc as (Hi & Hn & Hs). cbn [fst snd] in *.
  set (children := merge_sort (node_key_le rank) <$> ch).
  assert (forall p, default [] (children !! p) ≡ₚ default [] (ch !! p)) as Hperm.
  { intros p. unfold children. rewrite lookup_fmap. destruct (ch !! p); cbn; [|done]. apply merge_sort_Permutation. }
  destruct (kahn_loop_total pm external rank children Hv Hcl) with
    (st := mkKahn (list_to_set ((fun id => stable_node_key id rank) <$> zero_nodes ind)) ind [])
    as (st & Hloop & Hinv & Hempty).
  { intros p. by rewrite Hperm. }
  { intros p c. rewrite Hperm, Hs, elem_of_sorted_keys. done. }
  { unfold kahn_inv; cbn. split_and!; [apply NoDup_nil_2|set_solver|by intros []|by intros []|].
    split.
    - intros x. rewrite Hi.
      destruct (decide (x ∈ sorted_keys pm)) as [Hk|Hk], (decide (is_Some (pm !! x))); rewrite elem_of_sorted_keys in Hk; try done.
      rewrite (list_filter_id (fun p => p ∉ [])); [done|set_solver].
    - intros k. rewrite elem_of_list_to_set, list_elem_of_fmap.
      setoid_rewrite (elem_of_zero_nodes pm external (ind, ch) _ Hc).
      split; intros (x & -> & Hx); exists x; set_solver. }
  rewrite Hloop. case_bool_decide as Hlen; cbn [negb].
  - left. eexists. split; [done|]. destruct Hinv as (Hnd & Hkeys & Hpre & Hg & _). split; [|done].
    split_and!; [done| |done]. intros id. split; [apply Hkeys|]. intros Hid. apply elem_of_dom in Hid. revert id Hid.
    apply NoDup_length_size_all; [done| |by rewrite size_dom]. intros x Hx. by apply elem_of_dom, Hkeys.
  - right. eexists. split; [done|]. by eapply (kahn_stuck_cycle pm external rank).
Qed.

Lemma topological_order_Ok pm external rank order :
  topological_order_with_rank pm external rank = Ok order ->
  valid_parent_map pm /\ closed_map pm external /\
  topological pm external order /\ greedy pm external rank order.
Proof.
  intros Ho. pose proof Ho as Ho'. unfold topological_order_with_rank in Ho'.
  apply bind_Ok in Ho' as (counts & Hc & _). apply count_nodes_inv in Hc as [Hv Hcl].
  destruct (topological_order_result pm external rank Hv Hcl) as [(o & Ho2 & Ht)|(id & Ho2 & _)]; [|congruence].
  rewrite Ho in Ho2. by injection Ho2 as <-.
Qed.

Lemma topological_order_acyclic_Ok pm external rank :
  valid_parent_map pm -> closed_map pm external -> acyclic pm external ->
  exists order, topological_order_with_rank pm external rank = Ok order.
Proof.
  intros Hv Hcl Hac.
  destruct (topological_order_result pm external rank Hv Hcl) as [(o & Ho & _)|(id & _ & x & Hx)]; [by eexists|].
  by destruct (Hac x).
Qed.

Lemma topological_subset_all pm external (o1 o2 : list string) :
  topological pm external o1 -> topological pm external o2 -> forall x, x ∈ o1 <-> x ∈ o2.
Proof. intros (_ & H1 & _) (_ & H2 & _) x. by rewrite H1, H2. Qed.

Lemma greedy_common_prefix pm external rank o1 o2 n :
  topological pm external o1 -> greedy pm external rank o1 ->
  topological pm external o2 -> greedy pm external rank o2 -> take n o1 = take n o2.
Proof.
  intros Ht1 Hg1 Ht2 Hg2. induction n as [|n IH]; [done|].
  assert (forall oa ob, topological pm external oa -> topological pm external ob -> greedy pm external rank oa ->
    take n oa = take n ob -> forall x y, oa !! n = Some x -> ob !! n = Some y ->
    key_le (stable_node_key x rank) (stable_node_key y rank)) as Hle.
  { intros oa ob Hta Htb Hga Heq x y Hx Hy.
    pose proof (take_drop_middle oa n x Hx) as Ha. pose proof (take_drop_middle ob n y Hy) as Hb.
    eapply (Hga (take n oa) x (drop (S n) oa)); [done| | |].
    - apply Htb. by eapply list_elem_of_lookup_2.
    - rewrite Heq. intros Hin. destruct Htb as (Hnd & _ & _). rewrite <- Hb in Hnd.
      apply NoDup_app in Hnd as (_ & Hdis & _). apply (Hdis y Hin). set_solver.
    - intros p Hp. rewrite Heq. destruct Htb as (_ & _ & Hpre). by eapply (Hpre (take n ob) y (drop (S n) ob)). }
  destruct (o1 !! n) as [x|] eqn:Hx, (o2 !! n) as [y|] eqn:Hy.
  - rewrite (take_S_r o1 n x), (take_S_r o2 n y), IH by done. f_equal. f_equal.
    assert (stable_node_key x rank = stable_node_key y rank) as Hk; [|by injection Hk].
    apply (anti_symm key_le); [by eapply (Hle o1 o2)|by eapply (Hle o2 o1)].
  - exfalso. assert (x ∈ o2) as Hin by (apply (topological_subset_all pm external o1 o2); [done..|]; by eapply list_elem_of_lookup_2).
    apply lookup_ge_None in Hy. rewrite <- (take_ge o2 n), <- IH in Hin by done.
    destruct Ht1 as (Hnd & _). rewrite <- (take_drop_middle o1 n x Hx) in Hnd.
    apply NoDup_app in Hnd as (_ & Hdis & _). apply (Hdis x Hin). set_solver.
  - exfalso. assert (y ∈ o1) as Hin by (apply (topological_subset_all pm external o1 o2); [done..|]; by eapply list_elem_of_lookup_2).
    apply lookup_ge_None in Hx. rewrite <- (take_ge o1 n), IH in Hin by done.
    destruct Ht2 as (Hnd & _). rewrite <- (take_drop_middle o2 n y Hy) in Hnd.
    apply NoDup_app in Hnd as (_ & Hdis & _). apply (Hdis y Hin). set_solver.
  - apply lookup_ge_None in Hx, Hy. rewrite !take_ge in IH |- * by lia. done.
Qed.

(** C38. The order exists exactly for well-formed acyclic graphs:
    [topological_order_with_rank] succeeds if and only if every parent set is
    valid, every parent is either listed or known to be external, and no
    snapshot is its own ancestor. *)
Theorem topological_order_exists_iff pm external rank :
  (exists order, topological_order_with_rank pm external rank = Ok order) <->
  valid_parent_map pm /\ closed_map pm external /\ acyclic pm external.
Proof.
  split.
  - intros [order Ho]. apply topological_order_Ok in Ho as (Hv & Hcl & Ht & _).
    split_and!; [done..|]. by eapply topological_acyclic.
  - intros (Hv & Hcl & Hac). by apply topological_order_acyclic_Ok.
Qed.

(** C39. What the order is: each listed snapshot once, every internal parent
    before its children, and at each position the least (rank, name) key among
    the snapshots whose parents were already emitted. No other list has these
    properties, so the result does not depend on how the map was built. *)
Theorem topological_order_unique pm external rank order :
  topological_order_with_rank pm external rank = Ok order ->
  topological pm external order /\ greedy pm external rank order /\
  forall order', topological pm external order' -> greedy pm external rank order' -> order' = order.
Proof.
  intros Ho. apply topological_order_Ok in Ho as (_ & _ & Ht & Hg). split_and!; [done..|].
  intros order' Ht' Hg'.
  pose proof (greedy_common_prefix pm external rank _ _ (length order + length order') Ht' Hg' Ht Hg) as Heq.
  by rewrite !take_ge in Heq by lia.
Qed.

Lemma topological_order_unique_witness :
  topological_order_with_rank diamond ∅ None = Ok ["ROOT"; "LEFT"; "RIGHT"; "MERGE"]%string /\
  topological diamond ∅ ["ROOT"; "LEFT"; "RIGHT"; "MERGE"]%string.
Proof.
  assert (topological_order_with_rank diamond ∅ None = Ok ["ROOT"; "LEFT"; "RIGHT"; "MERGE"]%string) as H
    by (vm_compute; reflexivity).
  split; [exact H|]. exact (proj1 (topological_order_unique diamond ∅ None _ H)).
Defined.

(** C40. The error of a cyclic graph: when the parent sets are valid and
    complete and some snapshot is its own ancestor, the result is the cycle
    error, never another error, a partial order or an exhausted bound. *)
Theorem topological_order_cycle_error pm external rank x :
  valid_parent_map pm -> closed_map pm external -> tc (parent_edge pm external) x x ->
  exists id, topological_order_with_rank pm external rank = Err (CycleAt id).
Proof.
  intros Hv Hcl Hx.
  destruct (topological_order_result pm external rank Hv Hcl) as [(o & Ho & Ht & _)|(id & Ho & _)]; [|by eexists].
  by destruct (topological_acyclic pm external o Hcl Ht x).
Qed.

Definition two_cycle : gmap string (list string) :=
  list_to_map [("A"%string, ["B"%string]); ("B"%string, ["A"%string])].

Lemma topological_order_cycle_error_witness :
  exists id, topological_order_with_rank two_cycle ∅ None = Err (CycleAt id).
Proof.
  apply (topological_order_cycle_error two_cycle ∅ None "A"%string).
  - intros id ps H. apply validate_snapshot_parent_set_Ok with (primary := head ps) (parent := head ps). revert id ps H.
    apply map_Forall_to_list. vm_compute. repeat constructor.
  - intros id p. unfold parent_edge, internal_parents.
    destruct (two_cycle !! id) as [ps|] eqn:Hid; cbn; [|by intros ?%elem_of_nil].
    apply elem_of_map_to_list in Hid. vm_compute in Hid.
    apply list_elem_of_In in Hid. cbn in Hid. destruct Hid as [[= <- <-]|[[= <- <-]|[]]];
      intros [_ Hp]%list_elem_of_filter; apply list_elem_of_In in Hp; destruct Hp as [<-|[]]; vm_compute; by eexists.
  - apply (tc_l _ "A"%string "B"%string); [|apply tc_once]; apply list_elem_of_In; vm_compute; by left.
Defined.
