(* ===== verification/AncestorClosure.v ===== *)
(** * Ancestor closures

    The two closures of [ait-core/src/snapshot_dag.rs] (defined in
    [SnapshotDag]): the closure over a parent map is a breadth-first search
    that returns exactly the reachable ancestors with their shortest distances,
    and the batched closure over a store computes the same traversal, whatever
    the batch size. *)

From Stdlib Require Import NArith Lia.
From stdpp Require Import base sorting relations fin_sets gmap strings list.
From S2P Require Import Prelude SnapshotStore SnapshotDag TopoOrder.

(** ** Specification: the graph and its paths *)

Definition mode_parents (parent_mode : SnapshotParentMode) (parents : list string) : list string :=
  match parent_mode with AllParents => parents | FirstParent => option_list (head parents) end.

(** The parents of [id] that a traversal follows. *)
Definition kept_parents (g : gmap string (list string)) (parent_mode : SnapshotParentMode) (stop : gset string)
    (id : string) : list string :=
  filter (fun p => p ∉ stop) (mode_parents parent_mode (default [] (g !! id))).

(** [ancestor_at .. k x]: [x] is [k] parent steps away from a head. *)
Inductive ancestor_at (g : gmap string (list string)) (parent_mode : SnapshotParentMode) (stop : gset string)
    (heads : list string) : N -> string -> Prop :=
| at_head x : x ∈ heads -> x ∉ stop -> ancestor_at g parent_mode stop heads 0 x
| at_parent k x p : ancestor_at g parent_mode stop heads k x -> p ∈ kept_parents g parent_mode stop x ->
    ancestor_at g parent_mode stop heads (k + 1) p.

(** What a complete traversal is. *)
Record complete_traversal (g : gmap string (list string)) (parent_mode : SnapshotParentMode) (stop : gset string)
    (heads : list string) (t : SnapshotDagTraversal) : Prop := {
  ct_depth : forall x d, depth_by_snapshot_id t !! x = Some d <->
    ancestor_at g parent_mode stop heads d x /\ forall k, ancestor_at g parent_mode stop heads k x -> (d <= k)%N;
  ct_parents : forall x ps, parent_snapshot_ids t !! x = Some ps <->
    (exists k, ancestor_at g parent_mode stop heads k x) /\ ps = kept_parents g parent_mode stop x;
  ct_known : forall x k, ancestor_at g parent_mode stop heads k x -> is_Some (g !! x);
  ct_order : topological (parent_snapshot_ids t) ∅ (topological_snapshot_ids t)
}.

Section search.
Context (g : gmap string (list string)) (limits : SnapshotDagLimits) (stop : gset string)
  (parent_mode : SnapshotParentMode) (heads : list string).

Local Abbreviation path := (ancestor_at g parent_mode stop heads).
Local Abbreviation kept := (kept_parents g parent_mode stop).
Local Abbreviation dep st x := (bfs_depth st !! x).

(** ** The invariant of the search *)

Record bfs_inv (st : bfs_state) : Prop := {
  bi_nodup : NoDup (bfs_pending st);
  bi_fresh : forall x, x ∈ bfs_pending st -> bfs_parents st !! x = None;
  bi_disc : forall x, x ∈ bfs_discovered st <-> x ∈ bfs_pending st \/ is_Some (bfs_parents st !! x);
  bi_dom : forall x, x ∈ bfs_discovered st <-> is_Some (dep st x);
  bi_path : forall x d, dep st x = Some d -> path d x;
  bi_done : forall x ps, bfs_parents st !! x = Some ps ->
    exists dx, dep st x = Some dx /\ is_Some (g !! x) /\ ps ⊆ kept x /\
      (bfs_truncated st = false -> ps = kept x) /\
      forall p, p ∈ ps -> exists dp, dep st p = Some dp /\ (dp <= dx + 1)%N;
  bi_near : forall x y dx dy, x ∈ bfs_pending st -> y ∈ bfs_pending st ->
    dep st x = Some dx -> dep st y = Some dy -> (dy <= dx + 1)%N;
  bi_sorted : forall q1 x q2 y dx dy, bfs_pending st = q1 ++ x :: q2 -> y ∈ q2 ->
    dep st x = Some dx -> dep st y = Some dy -> (dx <= dy)%N;
  bi_before : forall x y dx dy, is_Some (bfs_parents st !! x) -> y ∈ bfs_pending st ->
    dep st x = Some dx -> dep st y = Some dy -> (dx <= dy)%N;
  bi_depth : forall x d, dep st x = Some d -> (d <= max_depth limits)%N;
  bi_mode : limit_mode limits = LimitError -> bfs_truncated st = false;
  bi_size : (N.of_nat (size (bfs_discovered st)) <= max_results limits)%N
}.

(** [st'] is [st] with the snapshots [new] discovered at depth [d]. *)
Record discovered_more (d : N) (new : list string) (st st' : bfs_state) : Prop := {
  dm_parents : bfs_parents st' = bfs_parents st;
  dm_pending : bfs_pending st' = bfs_pending st ++ new;
  dm_nodup : NoDup new;
  dm_fresh : forall x, x ∈ new -> x ∉ bfs_discovered st;
  dm_disc : forall x, x ∈ bfs_discovered st' <-> x ∈ bfs_discovered st \/ x ∈ new;
  dm_old : forall x, x ∈ bfs_discovered st -> dep st' x = dep st x;
  dm_new : forall x, x ∈ new -> dep st' x = Some d;
  dm_none : forall x, x ∉ bfs_discovered st' -> dep st' x = dep st x;
  dm_trunc : bfs_truncated st' = false -> bfs_truncated st = false;
  dm_mode : limit_mode limits = LimitError -> bfs_truncated st = false -> bfs_truncated st' = false;
  dm_size : (N.of_nat (size (bfs_discovered st)) <= max_results limits)%N ->
    (N.of_nat (size (bfs_discovered st')) <= max_results limits)%N
}.

Lemma discovered_more_refl d st : discovered_more d [] st st.
Proof. split; try done; [by rewrite app_nil_r|apply NoDup_nil_2|set_solver|set_solver|set_solver]. Qed.

Lemma discovered_more_truncated d new st st' :
  limit_mode limits = LimitTruncate ->
  discovered_more d new st st' -> discovered_more d new st (set_truncated st').
Proof. intros Hl []. split; try done. by rewrite Hl. Qed.

Lemma truncate_or_error_Ok e u : truncate_or_error limits e = Ok u -> limit_mode limits = LimitTruncate.
Proof. unfold truncate_or_error. by destruct (limit_mode limits). Qed.

Lemma results_full_false X :
  results_full limits X = false -> (N.of_nat (size X) < max_results limits)%N.
Proof. unfold results_full. by rewrite N.leb_gt. Qed.

Lemma discovered_more_snoc d new st st' x :
  discovered_more d new st st' -> x ∉ bfs_discovered st' -> results_full limits (bfs_discovered st') = false ->
  discovered_more d (new ++ [x]) st (discover st' x d).
Proof.
  intros Hm Hx Hfull. apply results_full_false in Hfull. destruct Hm.
  split; cbn [discover bfs_parents bfs_pending bfs_discovered bfs_depth bfs_truncated]; try done.
  - rewrite dm_pending0. by rewrite app_assoc.
  - apply NoDup_app. split_and!; [done|set_solver|apply NoDup_singleton].
  - set_solver.
  - set_solver.
  - intros y Hy. rewrite lookup_insert_ne; [auto|]. set_solver.
  - intros y Hy. destruct (decide (y = x)) as [->|]; [by rewrite lookup_insert_eq|].
    rewrite lookup_insert_ne by done. apply dm_new0. set_solver.
  - intros y Hy. rewrite lookup_insert_ne by set_solver. set_solver.
  - intros _. rewrite size_union by set_solver. rewrite size_singleton. lia.
Qed.

(** The loop over the parents of one snapshot. *)
Lemma include_parents_inv id d st ps st' included :
  foldM (include_parent g limits id d) (st, []) ps = Ok (st', included) ->
  exists new, discovered_more (d + 1) new st st' /\ new ⊆ ps /\ included ⊆ ps /\
    (forall p, p ∈ included -> p ∈ bfs_discovered st') /\
    (bfs_truncated st' = false -> included = ps).
Proof.
  apply (foldM_ind (include_parent g limits id d)
    (fun seen acc => exists new, discovered_more (d + 1) new st (fst acc) /\ new ⊆ seen /\ snd acc ⊆ seen /\
       (forall p, p ∈ snd acc -> p ∈ bfs_discovered (fst acc)) /\
       (bfs_truncated (fst acc) = false -> snd acc = seen))).
  { exists []. cbn. split_and!; try done. apply discovered_more_refl. set_solver. }
  intros seen p rest [s1 i1] s2 _ (new & Hm & Hn & Hi & Hd & Ht) Hstep. cbn [fst snd] in *.
  unfold include_parent in Hstep. case_bool_decide as Hp.
  - inv_ok. exists new. split_and!; [done|set_solver|set_solver|set_solver|]. intros. by rewrite Ht.
  - destruct (results_full limits (bfs_discovered s1)) eqn:Hf.
    + inv_ok. apply truncate_or_error_Ok in Hok. exists new.
      split_and!; [by apply discovered_more_truncated|set_solver|set_solver|done|done].
    + inv_ok. exists (new ++ [p]). split_and!; [by apply discovered_more_snoc|set_solver|set_solver| |].
      * cbn. set_solver.
      * cbn. intros. by rewrite Ht.
Qed.

Lemma retained_parents_Ok id d ps ps' cleared :
  retained_parents limits stop id d ps = Ok (ps', cleared) ->
  (cleared = true /\ ps' = [] /\ limit_mode limits = LimitTruncate) \/
  (cleared = false /\ ps' = filter (fun p => p ∉ stop) ps /\ (ps' = [] \/ (d < max_depth limits)%N)).
Proof.
  unfold retained_parents. intros H. destruct (negb _ && _) eqn:Hb; inv_ok.
  - left. by apply truncate_or_error_Ok in Hok.
  - right. split_and!; [done..|]. apply andb_false_iff in Hb as [Hb|Hb].
    + left. by apply negb_false_iff, bool_decide_eq_true in Hb.
    + right. by apply N.leb_gt in Hb.
Qed.

(** What one visit does, whatever store it reads: [id] leaves the queue, its
    parents [included] are recorded and the [new] ones are queued. *)
Definition visit_effect (id : string) (st st' : bfs_state) : Prop :=
  exists d new included s, dep st id = Some d /\ is_Some (g !! id) /\
    st' = record_parents id included s /\ discovered_more (d + 1) new st s /\
    new ⊆ kept id /\ included ⊆ kept id /\ (forall p, p ∈ included -> p ∈ bfs_discovered s) /\
    (bfs_truncated s = false -> included = kept id) /\ (new = [] \/ (d < max_depth limits)%N).

Lemma visit_snapshot_effect st id st' :
  visit_snapshot g limits stop parent_mode st id = Ok st' -> visit_effect id st st'.
Proof.
  unfold visit_snapshot. intros H. apply bind_Ok in H as (parents & Hps & H). apply bind_Ok in H as (? & _ & H).
  apply bind_Ok in H as (d & Hd & H). apply ok_or_Ok in Hps, Hd.
  apply bind_Ok in H as ([ps cleared] & Hr & H). apply bind_Ok in H as ([s included] & Hf & H). injection H as <-.
  assert (kept id = filter (fun p => p ∉ stop) (mode_parents parent_mode parents)) as Hk
    by (unfold kept_parents; by rewrite Hps).
  apply include_parents_inv in Hf as (new & Hm & Hn & Hi & Hin & Ht).
  apply retained_parents_Ok in Hr as [(-> & -> & Hl)|(-> & -> & Hmax)].
  - assert (new = []) as -> by (destruct new; set_solver).
    exists d, [], included, s. split_and!; [done|by eexists|done| |set_solver|set_solver|done| |by left].
    + destruct Hm; split; try done; [|by rewrite Hl]. intros Hs. by specialize (dm_trunc0 Hs).
    + intros Hs. destruct Hm. by specialize (dm_trunc0 Hs).
  - fold (mode_parents parent_mode parents) in *. rewrite <- Hk in *.
    exists d, new, included, s. split_and!; try done.
    destruct Hmax as [Hmax|]; [left|by right]. rewrite Hmax in Hn. destruct new; set_solver.
Qed.

Lemma discovered_more_depth d new st s x dx :
  (forall x, x ∈ bfs_discovered st <-> is_Some (dep st x)) -> discovered_more d new st s -> dep s x = Some dx ->
  dep st x = Some dx \/ (x ∈ new /\ x ∉ bfs_discovered st /\ dx = d).
Proof.
  intros Hdom Hm Hs. destruct Hm. destruct (decide (x ∈ bfs_discovered s)) as [Hx|Hx].
  - apply dm_disc0 in Hx as [Hx|Hx]; [left; by rewrite <- dm_old0|].
    right. split_and!; [done|auto|]. rewrite dm_new0 in Hs by done. congruence.
  - left. by rewrite <- dm_none0.
Qed.

(** A visit of the first queued snapshot preserves the invariant. *)
Lemma visit_effect_inv st id rest st' :
  bfs_inv st -> bfs_pending st = id :: rest -> visit_effect id (set_pending rest st) st' -> bfs_inv st'.
Proof.
  intros Hinv Hpend (d & new & included & s & Hd & Hid & -> & Hm & Hn & Hi & Hin & Ht & Hmax).
  cbn [set_pending bfs_depth] in Hd. destruct Hinv.
  assert (id ∈ bfs_discovered st) as Hidd by (apply bi_dom0; by eexists).
  assert (forall x dx, dep s x = Some dx -> dep st x = Some dx \/ (x ∈ new /\ x ∉ bfs_discovered st /\ dx = (d + 1)%N)) as Hdep.
  { intros x dx. by apply (discovered_more_depth (d + 1) new (set_pending rest st)). }
  destruct Hm. cbn [set_pending bfs_parents bfs_pending bfs_discovered bfs_depth bfs_truncated] in *.
  rewrite Hpend in *. apply NoDup_cons in bi_nodup0 as [Hidr Hndr].
  assert (forall x, x ∈ rest -> x ∈ bfs_discovered st) as Hrest by (intros; apply bi_disc0; set_solver).
  assert (forall x dx, x ∈ bfs_discovered st -> dep s x = Some dx -> dep st x = Some dx) as Hold
    by (intros x dx Hx; by rewrite dm_old0).
  split; cbn [record_parents bfs_parents bfs_pending bfs_discovered bfs_depth bfs_truncated].
  - rewrite dm_pending0. apply NoDup_app. split_and!; [done| |done]. intros x Hx Hnew. by eapply dm_fresh0, Hrest.
  - intros x Hx. rewrite dm_pending0, elem_of_app in Hx. rewrite lookup_insert_ne, dm_parents0.
    + destruct Hx as [Hx|Hx]; [apply bi_fresh0; set_solver|].
      destruct (bfs_parents st !! x) eqn:Hp; [|done]. exfalso. apply (dm_fresh0 x Hx), bi_disc0. right; by eexists.
    + intros <-. destruct Hx as [Hx|Hx]; [done|]. by apply (dm_fresh0 id Hx).
  - intros x. rewrite dm_disc0, bi_disc0, dm_pending0, dm_parents0, elem_of_cons, elem_of_app.
    destruct (decide (x = id)) as [->|Hne]; [rewrite lookup_insert_eq|rewrite lookup_insert_ne by done]; naive_solver.
  - intros x. rewrite dm_disc0. split.
    + intros [Hx|Hx]; [rewrite dm_old0 by done; by apply bi_dom0|rewrite dm_new0 by done; by eexists].
    + intros [dx Hx]. destruct (Hdep x dx Hx) as [Hx'|[Hx' _]]; [left; apply bi_dom0; by eexists|by right].
  - intros x dx Hx. destruct (Hdep x dx Hx) as [Hx'|(Hx' & _ & ->)]; [by apply bi_path0|].
    econstructor; [by apply bi_path0|]. by apply Hn.
  - intros x ps Hx. destruct (decide (x = id)) as [->|Hne].
    + rewrite lookup_insert_eq in Hx. injection Hx as <-. exists d. split_and!; [by rewrite dm_old0|done|done|done|].
      intros p Hp. apply Hin, dm_disc0 in Hp as [Hp|Hp].
      * apply bi_dom0 in Hp as Hp'. destruct Hp' as [dp Hdp]. exists dp. split; [by rewrite dm_old0|].
        apply bi_disc0 in Hp as [Hp|Hp]; [eapply (bi_near0 id p); set_solver|].
        trans d; [|lia]. eapply (bi_before0 p id); set_solver.
      * exists (d + 1)%N. split; [by apply dm_new0|lia].
    + rewrite lookup_insert_ne, dm_parents0 in Hx by done.
      destruct (bi_done0 x ps Hx) as (dx & Hdx & Hg & Hsub & Htr & Hps). exists dx.
      split_and!; [rewrite dm_old0; [done|apply bi_dom0; by eexists]|done|done|auto|].
      intros p Hp. destruct (Hps p Hp) as (dp & Hdp & Hle). exists dp. split; [|done].
      rewrite dm_old0; [done|apply bi_dom0; by eexists].
  - intros x y dx dy Hx Hy Hdx Hdy. rewrite dm_pending0, elem_of_app in Hx, Hy.
    destruct Hx as [Hx|Hx], Hy as [Hy|Hy].
    + eapply (bi_near0 x y); [set_solver|set_solver|auto|auto].
    + rewrite dm_new0 in Hdy by done. injection Hdy as <-.
      assert (d <= dx)%N; [|lia]. eapply (bi_sorted0 [] id rest x); [done|done|done|auto].
    + rewrite dm_new0 in Hdx by done. injection Hdx as <-.
      assert (dy <= d + 1)%N; [|lia]. eapply (bi_near0 id y); [set_solver|set_solver|done|auto].
    + rewrite dm_new0 in Hdx, Hdy by done. simplify_eq. lia.
  - intros q1 x q2 y dx dy Hq Hy Hdx Hdy. rewrite dm_pending0 in Hq.
    apply app_eq_app in Hq as (l & [[Hq1 Hq2]|[Hq1 Hq2]]).
    + destruct l as [|z l].
      * cbn in Hq2. subst new. rewrite dm_new0 in Hdx by set_solver. rewrite dm_new0 in Hdy by set_solver. simplify_eq; lia.
      * injection Hq2 as <- ->. apply elem_of_app in Hy as [Hy|Hy].
        -- eapply (bi_sorted0 (id :: q1) x l y); [by subst|done|apply Hold; [apply Hrest; set_solver|done]|apply Hold; [apply Hrest; set_solver|done]].
        -- rewrite dm_new0 in Hdy by done. injection Hdy as <-.
           eapply (bi_near0 id x); [set_solver|set_solver|done|apply Hold; [apply Hrest; set_solver|done]].
    + subst new. rewrite dm_new0 in Hdx by set_solver. rewrite dm_new0 in Hdy by set_solver. simplify_eq; lia.
  - intros x y dx dy Hx Hy Hdx Hdy. rewrite dm_pending0, elem_of_app in Hy.
    assert (x ∈ bfs_discovered st /\ forall dx, dep st x = Some dx -> (dx <= d)%N) as [Hxd Hxle].
    { destruct (decide (x = id)) as [->|Hne]; [split; [done|intros; simplify_eq; lia]|].
      rewrite lookup_insert_ne, dm_parents0 in Hx by done. split; [apply bi_disc0; by right|].
      intros dx' Hdx'. eapply (bi_before0 x id); set_solver. }
    destruct Hy as [Hy|Hy].
    + specialize (Hxle dx (Hold _ _ Hxd Hdx)). trans d; [done|].
      eapply (bi_sorted0 [] id rest y); [done|done|done|auto].
    + rewrite dm_new0 in Hdy by done. injection Hdy as <-. specialize (Hxle dx (Hold _ _ Hxd Hdx)). lia.
  - intros x dx Hx. destruct (Hdep x dx Hx) as [Hx'|(Hx' & _ & ->)]; [by eapply bi_depth0|].
    destruct Hmax as [->|Hmax]; [by apply elem_of_nil in Hx'|lia].
  - auto.
  - auto.
Qed.

(** ** Queuing the heads *)

(** Unless a limit was hit, every head outside [stop] is at depth 0. *)
Definition heads_queued (hs : list string) (st : bfs_state) : Prop :=
  bfs_truncated st = false -> forall h, h ∈ hs -> h ∉ stop -> dep st h = Some 0%N.

Lemma queue_heads_inv st :
  foldM (queue_head limits stop) initial_bfs heads = Ok st ->
  bfs_inv st /\ heads_queued heads st /\ bfs_parents st = ∅ /\
  (forall x, x ∈ bfs_pending st -> x ∈ heads) /\ size (bfs_discovered st) = length (bfs_pending st).
Proof.
  enough (foldM (queue_head limits stop) initial_bfs heads = Ok st ->
    bfs_inv st /\ heads_queued heads st /\ bfs_parents st = ∅ /\ (forall x d, dep st x = Some d -> d = 0%N) /\
    (forall x, x ∈ bfs_pending st -> x ∈ heads) /\ size (bfs_discovered st) = length (bfs_pending st)) as Hen.
  { intros H. specialize (Hen H). naive_solver. }
  apply (foldM_ind (queue_head limits stop) (fun hs st => 
    bfs_inv st /\ heads_queued hs st /\ bfs_parents st = ∅ /\ (forall x d, dep st x = Some d -> d = 0%N) /\
    (forall x, x ∈ bfs_pending st -> x ∈ heads) /\ size (bfs_discovered st) = length (bfs_pending st))).
  { split_and!; [|intros _; set_solver|done| |set_solver|done].
    - split; cbn; try done; try set_solver; try (by intros; rewrite ?lookup_empty in *).
      + apply NoDup_nil_2.
      + intros x. rewrite lookup_empty. split; [set_solver|]. intros [Hx|[? [=]]]. set_solver.
      + rewrite size_empty. lia.
    - intros x d. cbn. by rewrite lookup_empty. }
  intros seen h rest s1 s2 Hheads (Hinv & Hh & Hp & Hz & Hin & Hsz) Hstep.
  unfold queue_head in Hstep.
  destruct (bool_decide (h ∈ stop) || bool_decide (h ∈ bfs_discovered s1)) eqn:Hskip.
  { inv_ok. split_and!; try done. intros Ht x [Hx| ->]%elem_of_snoc Hs; [by apply Hh|].
    rewrite bool_decide_eq_false_2 in Hskip by done. cbn in Hskip. apply bool_decide_eq_true in Hskip.
    apply (bi_dom _ Hinv) in Hskip as [d Hd]. by rewrite Hd, (Hz h d). }
  apply orb_false_iff in Hskip as [Hs%bool_decide_eq_false Hd%bool_decide_eq_false].
  destruct (results_full limits (bfs_discovered s1)) eqn:Hf.
  { inv_ok. apply truncate_or_error_Ok in Hok. split_and!; try done. destruct Hinv. split; try done.
    - intros x ps. cbn. rewrite Hp. by rewrite lookup_empty.
    - by rewrite Hok. }
  inv_ok. assert (dep s1 h = None) as Hnone.
  { destruct (dep s1 h) eqn:He; [|done]. exfalso. apply Hd, (bi_dom _ Hinv). by eexists. }
  assert (forall x d, <[h:=0%N]> (bfs_depth s1) !! x = Some d -> d = 0%N) as Hz'.
  { intros x d [[<- <-]|[_ Hx]]%lookup_insert_Some; [done|by eapply Hz]. }
  split_and!; [|..]; cbn.
  - pose proof (discovered_more_snoc 0 [] s1 s1 h (discovered_more_refl _ _) Hd Hf) as Hm. destruct Hinv, Hm.
    split; cbn in *; rewrite ?Hp.
    + apply NoDup_app. split_and!; [done| |apply NoDup_singleton]. intros x Hx Hxh. apply list_elem_of_singleton in Hxh as ->. apply Hd, bi_disc0. by left.
    + intros x _. by rewrite lookup_empty.
    + intros x. rewrite elem_of_union, elem_of_singleton, bi_disc0, Hp, elem_of_snoc, lookup_empty. naive_solver.
    + intros x. rewrite elem_of_union, elem_of_singleton, bi_dom0.
      destruct (decide (x = h)) as [->|]; [rewrite lookup_insert_eq|rewrite lookup_insert_ne by done]; naive_solver.
    + intros x d Hx. pose proof (Hz' x d Hx) as ->. apply lookup_insert_Some in Hx as [[<- _]|[_ Hx]]; [|by apply bi_path0].
      constructor; [|done]. rewrite Hheads. set_solver.
    + intros x ps. by rewrite lookup_empty.
    + intros x y dx dy _ _ Hx Hy. rewrite (Hz' _ _ Hx), (Hz' _ _ Hy). lia.
    + intros q1 x q2 y dx dy _ _ Hx Hy. rewrite (Hz' _ _ Hx), (Hz' _ _ Hy). lia.
    + intros x y dx dy [? ?]. by rewrite lookup_empty in *.
    + intros x d Hx. rewrite (Hz' _ _ Hx). lia.
    + done.
    + auto.
  - intros Ht x [Hx| ->]%elem_of_snoc Hs'; cbn.
    + destruct (decide (x = h)) as [->|]; [by rewrite lookup_insert_eq|]. rewrite lookup_insert_ne by done. by apply Hh.
    + by rewrite lookup_insert_eq.
  - done.
  - done.
  - intros x [Hx| ->]%elem_of_snoc; [by apply Hin|]. rewrite Hheads. set_solver.
  - rewrite size_union by set_solver. rewrite size_singleton, length_app. cbn. lia.
Qed.

(** ** What a finished search found *)

Lemma search_depth_bound st :
  bfs_inv st -> heads_queued heads st -> bfs_pending st = [] -> bfs_truncated st = false ->
  forall k x, path k x -> exists d, dep st x = Some d /\ (d <= k)%N /\ bfs_parents st !! x = Some (kept x).
Proof.
  intros Hinv Hh Hp Ht.
  assert (forall x d, dep st x = Some d -> bfs_parents st !! x = Some (kept x)) as Hrec.
  { intros x d Hx. assert (x ∈ bfs_discovered st) as Hd by (apply (bi_dom _ Hinv); by eexists).
    apply (bi_disc _ Hinv) in Hd as [Hd|[ps Hps]]; [rewrite Hp in Hd; by apply elem_of_nil in Hd|].
    destruct (bi_done _ Hinv x ps Hps) as (_ & _ & _ & _ & Hk & _). by rewrite Hps, Hk. }
  induction 1 as [x Hx Hs|k x p Hpath IH Hpk].
  - exists 0%N. specialize (Hh Ht x Hx Hs). split_and!; [done|lia|by eapply Hrec].
  - destruct IH as (d & Hd & Hle & Hpar).
    destruct (bi_done _ Hinv x _ Hpar) as (dx & Hdx & _ & _ & _ & Hall). simplify_eq.
    destruct (Hall p Hpk) as (dp & Hdp & Hle'). exists dp. split_and!; [done|lia|by eapply Hrec].
Qed.

Lemma search_complete st :
  bfs_inv st -> heads_queued heads st -> bfs_pending st = [] -> bfs_truncated st = false ->
  (forall x d, dep st x = Some d <-> path d x /\ forall k, path k x -> (d <= k)%N) /\
  (forall x ps, bfs_parents st !! x = Some ps <-> (exists k, path k x) /\ ps = kept x) /\
  (forall x k, path k x -> is_Some (g !! x)).
Proof.
  intros Hinv Hh Hp Ht. pose proof (search_depth_bound st Hinv Hh Hp Ht) as Hb. split_and!.
  - intros x d. split.
    + intros Hd. split; [by apply (bi_path _ Hinv)|]. intros k Hk. destruct (Hb k x Hk) as (d' & Hd' & Hle & _).
      by simplify_eq.
    + intros [Hpath Hmin]. destruct (Hb d x Hpath) as (d' & Hd' & Hle & _).
      rewrite Hd'. f_equal. specialize (Hmin d' (bi_path _ Hinv _ _ Hd')). lia.
  - intros x ps. split.
    + intros Hx. destruct (bi_done _ Hinv x ps Hx) as (d & Hd & _ & _ & Hk & _).
      split; [exists d; by apply (bi_path _ Hinv)|auto].
    + intros [[k Hk] ->]. by destruct (Hb k x Hk) as (_ & _ & _ & ?).
  - intros x k Hk. destruct (Hb k x Hk) as (_ & _ & _ & Hx).
    by destruct (bi_done _ Hinv x _ Hx) as (_ & _ & ? & _).
Qed.

Lemma heads_queued_visit st id rest st' :
  bfs_inv st -> bfs_pending st = id :: rest -> heads_queued heads st ->
  visit_effect id (set_pending rest st) st' -> heads_queued heads st'.
Proof.
  intros Hinv Hp Hh (d & new & included & s & Hd & Hid & -> & [] & Hrest) Ht h Hin Hs. cbn in *.
  specialize (Hh (dm_trunc0 Ht) h Hin Hs). rewrite dm_old0; [done|]. apply (bi_dom _ Hinv). by eexists.
Qed.

(** The measure that decreases at each visit. *)
Definition visits_left (st : bfs_state) : nat :=
  length (bfs_pending st) + (N.to_nat (max_results limits) - size (bfs_discovered st)).

Lemma visits_left_decreases st id rest st' :
  bfs_inv st -> bfs_pending st = id :: rest -> visit_effect id (set_pending rest st) st' ->
  visits_left st' < visits_left st.
Proof.
  intros Hinv Hp He. pose proof (visit_effect_inv st id rest st' Hinv Hp He) as Hinv'.
  destruct He as (d & new & included & s & Hd & Hid & -> & [] & Hrest). unfold visits_left. cbn in *.
  rewrite dm_pending0, length_app, Hp. cbn.
  assert (size (bfs_discovered s) = size (bfs_discovered st) + length new) as Hsz.
  { assert (bfs_discovered s = bfs_discovered st ∪ list_to_set new) as ->.
    { apply set_eq. intros x. rewrite elem_of_union, elem_of_list_to_set. apply dm_disc0. }
    rewrite size_union, size_list_to_set by (try done; set_solver). done. }
  pose proof (bi_size _ Hinv') as Hb. cbn in Hb. lia.
Qed.
End search.

(** ** The heads *)

Lemma canonical_snapshot_ids_Ok ids role out :
  canonical_snapshot_ids ids role = Ok out ->
  Forall (fun x => canonical_text x = true) ids /\ NoDup out /\ forall x, x ∈ out <-> x ∈ ids.
Proof.
  unfold canonical_snapshot_ids. intros H. apply bind_Ok in H as ([[n seen] out'] & Hf & H). injection H as <-.
  enough (Forall (fun x => canonical_text x = true) ids /\ NoDup (snd (n, seen, out')) /\
    (forall x, x ∈ snd (n, seen, out') <-> x ∈ ids) /\ (forall x, x ∈ snd (fst (n, seen, out')) <-> x ∈ ids)) by naive_solver.
  revert Hf. apply (foldM_ind (canonical_step role) (fun ids st =>
    Forall (fun x => canonical_text x = true) ids /\ NoDup (snd st) /\ (forall x, x ∈ snd st <-> x ∈ ids) /\
    (forall x, x ∈ snd (fst st) <-> x ∈ ids))).
  { split_and!; [constructor|apply NoDup_nil_2|set_solver|set_solver]. }
  intros done v rest [[k s] o] st2 _ (Hc & Hn & Ho & Hs) Hstep. cbn in *.
  inv_ok. apply negb_false_iff in Hok. case_bool_decide as Hv; cbn.
  - split_and!; [by apply Forall_app; auto|done| |]; intros x; rewrite elem_of_snoc; set_solver.
  - split_and!; [by apply Forall_app; auto| | |].
    + apply NoDup_app. split_and!; [done|set_solver|apply NoDup_singleton].
    + intros x. rewrite !elem_of_snoc. set_solver.
    + intros x. rewrite elem_of_snoc. set_solver.
Qed.

Lemma ancestor_at_heads g parent_mode stop heads heads' k x :
  (forall x, x ∈ heads -> x ∈ heads') ->
  ancestor_at g parent_mode stop heads k x -> ancestor_at g parent_mode stop heads' k x.
Proof. intros Hsub. induction 1; [constructor; auto|by econstructor]. Qed.

Lemma validate_limits_Ok limits limits' :
  validate_limits limits = Ok limits' ->
  limits' = limits /\ (0 < max_results limits)%N /\ (0 < batch_size limits)%N.
Proof.
  unfold validate_limits. intros H. inv_ok. apply N.eqb_neq in Hok, Hok0. split_and!; [done|lia..].
Qed.

Lemma finish_traversal_Ok st t :
  finish_traversal st = Ok t ->
  parent_snapshot_ids t = bfs_parents st /\ depth_by_snapshot_id t = bfs_depth st /\ truncated t = bfs_truncated st /\
  topological (bfs_parents st) ∅ (topological_snapshot_ids t).
Proof.
  unfold finish_traversal. intros H. apply bind_Ok in H as (order & Ho & H). injection H as <-.
  by apply topological_order_Ok in Ho as (_ & _ & Ht & _).
Qed.

Lemma run_loop_Ok {St A} (step : St -> St + result dag_error A) fuel st a :
  run_loop step fuel st = Ok a -> loop step fuel st = inr (Ok a).
Proof. unfold run_loop. by destruct (loop step fuel st) as [?|[?|?]]; intros [=]; subst. Qed.

(** ** The search over a parent map *)

(** The invariant of the loop, with the heads. *)
Definition search_inv g limits stop parent_mode heads st : Prop :=
  bfs_inv g limits stop parent_mode heads st /\ heads_queued stop heads st.

Lemma map_round_inv g limits stop parent_mode heads st :
  search_inv g limits stop parent_mode heads st ->
  match map_round g limits stop parent_mode st with
  | inl st' => search_inv g limits stop parent_mode heads st' /\ visits_left limits st' < visits_left limits st
  | inr (Ok st') => st' = st /\ bfs_pending st = []
  | inr (Err _) => True
  end.
Proof.
  intros [Hinv Hh]. unfold map_round. destruct (bfs_pending st) as [|id rest] eqn:Hp; [done|].
  destruct (visit_snapshot g limits stop parent_mode (set_pending rest st) id) as [st'|e] eqn:Hv; [|done].
  apply visit_snapshot_effect in Hv. split; [split|].
  - by eapply visit_effect_inv.
  - by eapply heads_queued_visit.
  - by eapply visits_left_decreases.
Qed.

Lemma map_loop_result g limits stop parent_mode heads st :
  search_inv g limits stop parent_mode heads st -> visits_left limits st <= N.to_nat (max_results limits) ->
  exists r, loop (map_round g limits stop parent_mode) (closure_fuel limits) st = inr r /\
    forall st', r = Ok st' -> search_inv g limits stop parent_mode heads st' /\ bfs_pending st' = [].
Proof.
  intros Hinv Hm.
  apply (loop_total _ (search_inv g limits stop parent_mode heads) (visits_left limits)); [done| |].
  - unfold closure_fuel. destruct (max_results limits); cbn; lia.
  - intros s Hs. pose proof (map_round_inv _ _ _ _ _ _ Hs) as Hr.
    destruct (map_round g limits stop parent_mode s) as [s'|[s'|e]]; [done| |done].
    intros st' [= <-]. by destruct Hr as [-> ?].
Qed.

Lemma queued_search_inv g limits stop parent_mode heads st :
  foldM (queue_head limits stop) initial_bfs heads = Ok st ->
  search_inv g limits stop parent_mode heads st /\ visits_left limits st <= N.to_nat (max_results limits).
Proof.
  intros H. destruct (queue_heads_inv g limits stop parent_mode heads st H) as (Hinv & Hh & _ & _ & Hsz).
  split; [done|]. unfold visits_left. rewrite Hsz. pose proof (bi_size _ _ _ _ _ _ Hinv). lia.
Qed.

(** The shape of a successful closure over a parent map. *)
Lemma map_closure_Ok g ids stop parent_mode limits t :
  snapshot_ancestor_closure_from_parent_map g ids stop parent_mode limits = Ok t ->
  exists heads st, canonical_snapshot_ids ids "head" = Ok heads /\
    search_inv g limits stop parent_mode heads st /\ bfs_pending st = [] /\
    parent_snapshot_ids t = bfs_parents st /\ depth_by_snapshot_id t = bfs_depth st /\ truncated t = bfs_truncated st /\
    topological (bfs_parents st) ∅ (topological_snapshot_ids t).
Proof.
  unfold snapshot_ancestor_closure_from_parent_map. intros H.
  apply bind_Ok in H as (l & Hl & H). apply validate_limits_Ok in Hl as (-> & _ & _).
  apply bind_Ok in H as (heads & Hheads & H). apply bind_Ok in H as (st0 & Hq & H).
  apply bind_Ok in H as (st & Hr & H). apply run_loop_Ok in Hr. apply finish_traversal_Ok in H.
  destruct (queued_search_inv g limits stop parent_mode heads st0 Hq) as [Hinv Hm].
  destruct (map_loop_result _ _ _ _ _ _ Hinv Hm) as (r & Hr' & Hst). rewrite Hr in Hr'. injection Hr' as <-.
  destruct (Hst st eq_refl) as [Hinv' Hp]. exists heads, st. tauto.
Qed.

Lemma map_closure_full g ids stop parent_mode limits t :
  snapshot_ancestor_closure_from_parent_map g ids stop parent_mode limits = Ok t ->
  truncated t = false -> complete_traversal g parent_mode stop ids t.
Proof.
  intros H Ht. apply map_closure_Ok in H as (heads & st & Hh & [Hinv Hq] & Hp & Hpar & Hdep & Htr & Hord).
  apply canonical_snapshot_ids_Ok in Hh as (_ & _ & Hin).
  assert (forall k x, ancestor_at g parent_mode stop heads k x <-> ancestor_at g parent_mode stop ids k x) as Hanc
    by (intros k x; split; apply ancestor_at_heads; apply Hin).
  rewrite Htr in Ht. destruct (search_complete g limits stop parent_mode heads st Hinv Hq Hp Ht) as (Hd & Hps & Hk).
  split.
  - intros x d. rewrite Hdep, Hd, Hanc. by setoid_rewrite Hanc.
  - intros x ps. rewrite Hpar, Hps. by setoid_rewrite Hanc.
  - intros x k Hx. by eapply Hk, Hanc.
  - by rewrite Hpar.
Qed.

(** C36. Completeness of the search: when the closure over a parent map
    succeeds without truncation, it lists exactly the snapshots reachable from
    the heads by parent steps that avoid [stop_at], each with its retained
    parents and its least distance from a head, and in an order that puts
    parents first. *)
Theorem parent_map_closure_complete g ids stop parent_mode limits t :
  snapshot_ancestor_closure_from_parent_map g ids stop parent_mode limits = Ok t ->
  truncated t = false -> complete_traversal g parent_mode stop ids t.
Proof. apply map_closure_full. Qed.

Lemma parent_map_closure_complete_witness :
  exists t, snapshot_ancestor_closure_from_parent_map diamond ["MERGE"%string] ∅ AllParents default_limits = Ok t /\
    complete_traversal diamond AllParents ∅ ["MERGE"%string] t.
Proof.
  eexists. split; [vm_compute; reflexivity|].
  apply (parent_map_closure_complete diamond ["MERGE"%string] ∅ AllParents default_limits); vm_compute; reflexivity.
Defined.

Lemma map_closure_untruncated g ids stop parent_mode limits t :
  limit_mode limits = LimitError ->
  snapshot_ancestor_closure_from_parent_map g ids stop parent_mode limits = Ok t -> truncated t = false.
Proof.
  intros Hl H. apply map_closure_Ok in H as (heads & st & _ & [Hinv _] & _ & _ & _ & -> & _).
  by apply (bi_mode _ _ _ _ _ _ Hinv).
Qed.

(** C37. Limits: the closure never holds more than [max_results] snapshots nor
    goes deeper than [max_depth]; whatever it truncates, every listed snapshot
    is a true ancestor at the distance given and its listed parents are true
    parents; and in [Error] mode a result is never truncated. *)
Theorem parent_map_closure_limits g ids stop parent_mode limits t :
  snapshot_ancestor_closure_from_parent_map g ids stop parent_mode limits = Ok t ->
  (N.of_nat (size (parent_snapshot_ids t)) <= max_results limits)%N /\
  (forall x d, depth_by_snapshot_id t !! x = Some d ->
     (d <= max_depth limits)%N /\ ancestor_at g parent_mode stop ids d x) /\
  (forall x ps, parent_snapshot_ids t !! x = Some ps -> ps ⊆ kept_parents g parent_mode stop x) /\
  (limit_mode limits = LimitError -> truncated t = false).
Proof.
  intros H. apply map_closure_Ok in H as (heads & st & Hh & [Hinv Hq] & Hp & Hpar & Hdep & Htr & Hord).
  apply canonical_snapshot_ids_Ok in Hh as (_ & _ & Hin). rewrite Hpar, Hdep, Htr. split_and!.
  - pose proof (bi_size _ _ _ _ _ _ Hinv) as Hsz. rewrite <- size_dom.
    assert (size (dom (bfs_parents st)) <= size (bfs_discovered st)); [|lia]. apply subseteq_size.
    intros x Hx. apply elem_of_dom in Hx. apply (bi_disc _ _ _ _ _ _ Hinv). by right.
  - intros x d Hd. split; [by eapply bi_depth|]. eapply ancestor_at_heads; [apply Hin|]. by eapply bi_path.
  - intros x ps Hps. by destruct (bi_done _ _ _ _ _ _ Hinv x ps Hps) as (_ & _ & _ & ? & _).
  - by apply (bi_mode _ _ _ _ _ _ Hinv).
Qed.

Definition two_results : SnapshotDagLimits := mkLimits 10 2 1 LimitTruncate.

Lemma parent_map_closure_limits_witness :
  exists t, snapshot_ancestor_closure_from_parent_map diamond ["MERGE"%string] ∅ AllParents two_results = Ok t /\
    truncated t = true /\ (N.of_nat (size (parent_snapshot_ids t)) <= 2)%N.
Proof.
  eexists. split; [vm_compute; reflexivity|]. split; [reflexivity|].
  refine (proj1 (parent_map_closure_limits diamond ["MERGE"%string] ∅ AllParents two_results _ _)).
  vm_compute. reflexivity.
Defined.
