(* ===== verification/StoreClosure.v ===== *)
(** * Closures over a snapshot store

    The batched traversals of [ait-core/src/snapshot_dag.rs] against a store
    that satisfies [LawfulSnapshotStore]: reading parents in batches computes
    the same traversal as the search over the parent map the store serves, for
    every batch size, and on a well-formed acyclic history the search always
    succeeds. *)

From Stdlib Require Import NArith Lia.
From stdpp Require Import base sorting relations fin_sets gmap strings list.
From S2P Require Import Prelude SnapshotStore SnapshotDag TopoOrder AncestorClosure.

(** [st] with [batch] put back in front of the queue. *)
Definition prepend (batch : list string) (st : bfs_state) : bfs_state := set_pending (batch ++ bfs_pending st) st.

Section batch.
Context (g : gmap string (list string)) (limits : SnapshotDagLimits) (stop : gset string)
  (parent_mode : SnapshotParentMode) (heads : list string).
Hypothesis (Hclosed : closed_map g ∅).
Hypothesis (Hheads : forall x, x ∈ heads -> is_Some (g !! x)).

Local Abbreviation inv := (bfs_inv g limits stop parent_mode heads).

Lemma mode_parents_known x ps p : g !! x = Some ps -> p ∈ mode_parents parent_mode ps -> is_Some (g !! p).
Proof.
  intros Hx Hp. apply (Hclosed x). unfold parent_edge, internal_parents. rewrite Hx. apply list_elem_of_filter.
  split; [set_solver|]. destruct parent_mode; [done|]. destruct ps; cbn in *; set_solver.
Qed.

Lemma ancestor_known k x : ancestor_at g parent_mode stop heads k x -> is_Some (g !! x).
Proof.
  induction 1 as [x Hx _|k x p _ [ps Hps] Hp]; [auto|].
  unfold kept_parents in Hp. rewrite Hps in Hp. apply list_elem_of_filter in Hp as [_ Hp].
  by eapply mode_parents_known.
Qed.

Lemma pending_known st x : inv st -> x ∈ bfs_pending st -> exists ps d, g !! x = Some ps /\ bfs_depth st !! x = Some d.
Proof.
  intros Hinv Hx. assert (x ∈ bfs_discovered st) as Hd by (apply (bi_disc _ _ _ _ _ _ Hinv); auto).
  apply (bi_dom _ _ _ _ _ _ Hinv) in Hd as [d Hd].
  destruct (ancestor_known d x) as [ps Hps]; [by eapply bi_path|]. eauto.
Qed.

(** *** A visit only appends to the queue *)

Lemma include_parent_prepend batch id d st included p :
  include_parent g limits id d (prepend batch st, included) p =
  (fun r => (prepend batch (fst r), snd r)) <$> include_parent g limits id d (st, included) p.
Proof.
  unfold include_parent. cbn [prepend set_pending bfs_discovered]. case_bool_decide; [done|].
  destruct (results_full limits (bfs_discovered st)).
  - by destruct (truncate_or_error limits _).
  - destruct (fail_if _ _); [|done]. cbn. unfold prepend, discover, set_pending. cbn. by rewrite app_assoc.
Qed.

Lemma include_parents_prepend batch id d st included ps :
  foldM (include_parent g limits id d) (prepend batch st, included) ps =
  (fun r => (prepend batch (fst r), snd r)) <$> foldM (include_parent g limits id d) (st, included) ps.
Proof.
  symmetry.
  apply (foldM_project (fun r : bfs_state * list string => (prepend batch (fst r), snd r))
    (include_parent g limits id d) (include_parent g limits id d) (st, included) ps).
  intros [s i] p _. symmetry. apply include_parent_prepend.
Qed.

Lemma visit_snapshot_prepend batch st id :
  visit_snapshot g limits stop parent_mode (prepend batch st) id =
  prepend batch <$> visit_snapshot g limits stop parent_mode st id.
Proof.
  unfold visit_snapshot. destruct (ok_or (g !! id) _) as [ps|]; [|done]. cbn [mbind result_bind].
  destruct (map_err _ _); [|done]. cbn [mbind result_bind prepend set_pending bfs_depth].
  destruct (ok_or (bfs_depth st !! id) _) as [d|]; [|done]. cbn [mbind result_bind].
  destruct (retained_parents _ _ _ _ _) as [[parents cleared]|]; [|done]. cbn [mbind result_bind].
  change (mkBfs _ _ _ _ _ _ _) with (prepend batch st).
  replace (mark_truncated cleared (prepend batch st)) with (prepend batch (mark_truncated cleared st)) by (by destruct cleared).
  rewrite include_parents_prepend. by destruct (foldM _ _ parents) as [[s i]|].
Qed.

(** *** A row read from the store visits the same snapshot *)

Lemma read_parents_include id d st rb ps :
  (forall p, p ∈ ps -> is_Some (g !! p)) ->
  (fun r : bfs_state * gmap string (option string) * list string => (fst (fst r), snd r)) <$>
    foldM (read_parent limits id d) (st, rb, []) ps =
  foldM (include_parent g limits id d) (st, []) ps.
Proof.
  intros Hps.
  apply (foldM_project (fun r : bfs_state * gmap string (option string) * list string => (fst (fst r), snd r))
    (read_parent limits id d) (include_parent g limits id d) (st, rb, []) ps).
  intros [[s r] i] p Hp. cbn. case_bool_decide; [done|].
  destruct (results_full limits (bfs_discovered s)); [by destruct (truncate_or_error limits _)|].
  rewrite bool_decide_eq_true_2 by auto. done.
Qed.

Lemma visit_link_snapshot st rb id ps d :
  g !! id = Some ps -> bfs_depth st !! id = Some d ->
  fst <$> visit_link limits stop parent_mode (st, rb) (id, Some (link_of id ps)) =
  visit_snapshot g limits stop parent_mode st id.
Proof.
  intros Hid Hd. unfold visit_link, visit_snapshot. cbn [require_parent_link link_of link_snapshot_id
    link_parent_snapshot_ids link_primary_parent_snapshot_id link_parent_snapshot_id].
  rewrite bool_decide_eq_true_2, Hid by done. cbn [negb fail_if mbind result_bind ok_or].
  destruct (validate_snapshot_parent_set (Some id) ps (head ps) (head ps)) as [[]|e] eqn:Hval; [|done].
  cbn [map_err mbind result_bind]. unfold selected_parents. cbn [link_of link_snapshot_id
    link_parent_snapshot_ids link_primary_parent_snapshot_id link_parent_snapshot_id].
  rewrite Hval. cbn [map_err mbind result_bind]. rewrite Hd. cbn [ok_or mbind result_bind].
  fold (mode_parents parent_mode ps).
  destruct (retained_parents limits stop id d (mode_parents parent_mode ps)) as [[parents cleared]|] eqn:Hr; [|done].
  cbn [mbind result_bind].
  rewrite <- (read_parents_include id d _ rb parents).
  - by destruct (foldM _ _ parents) as [[[s r] i]|].
  - intros p Hp. apply retained_parents_Ok in Hr as [(_ & -> & _)|(_ & -> & _)]; [set_solver|].
    apply list_elem_of_filter in Hp as [_ Hp]. by eapply mode_parents_known.
Qed.

(** *** A batch is a sequence of visits *)

Lemma map_round_prepend id batch st :
  map_round g limits stop parent_mode (prepend (id :: batch) st) =
  match visit_snapshot g limits stop parent_mode (prepend batch st) id with
  | Err e => inr (Err e) | Ok st' => inl st' end.
Proof. done. Qed.

Lemma batch_steps batch st rb : inv (prepend batch st) ->
  match foldM (visit_link limits stop parent_mode) (st, rb) (zip batch (map (fun id => link_of id <$> g !! id) batch)) with
  | Ok (st', _) => steps (map_round g limits stop parent_mode) (length batch) (prepend batch st) = inl st' /\ inv st'
  | Err e => steps (map_round g limits stop parent_mode) (length batch) (prepend batch st) = inr (Err e)
  end.
Proof.
  revert st rb; induction batch as [|id batch IH]; intros st rb Hinv.
  { cbn. split; [|by destruct st]. by destruct st. }
  destruct (pending_known _ id Hinv) as (ps & d & Hps & Hd); [unfold prepend; cbn; set_solver|].
  cbn [map zip zip_with foldM length steps]. rewrite Hps. cbn [fmap option_fmap option_map].
  cbn [prepend set_pending bfs_depth] in Hd.
  pose proof (visit_link_snapshot st rb id ps d Hps Hd) as Hvl.
  rewrite map_round_prepend, visit_snapshot_prepend, <- Hvl.
  destruct (visit_link limits stop parent_mode (st, rb) (id, Some (link_of id ps))) as [[st1 rb1]|e] eqn:Hv; cbn; [|done].
  apply IH. eapply visit_effect_inv; [exact Hinv|done|].
  apply visit_snapshot_effect. refine (eq_trans (visit_snapshot_prepend batch st id) _). by rewrite <- Hvl.
Qed.

Lemma fetch_batch_lawful {St} `{SnapshotStore St} (store : St) `{!LawfulSnapshotStore St store g} batch :
  (forall id, id ∈ batch -> is_Some (g !! id)) -> fetch_batch store batch = Ok (map (fun id => link_of id <$> g !! id) batch).
Proof.
  intros Hknown. unfold fetch_batch. rewrite parent_links_law by done. cbn [map_err mbind result_bind].
  by rewrite bool_decide_eq_true_2 by by rewrite length_map.
Qed.

Lemma closure_rounds {St} `{SnapshotStore St} (store : St) `{!LawfulSnapshotStore St store g} n st rb r :
  (0 < batch_size limits)%N -> inv st -> steps (map_round g limits stop parent_mode) n st = inr r ->
  steps (closure_round store limits stop parent_mode) n (st, rb) = inr r.
Proof.
  intros Hb. revert st rb. induction (lt_wf n) as [n _ IH]. intros st rb Hinv Hn.
  destruct n as [|n]; [done|]. cbn [steps]. unfold closure_round at 1.
  destruct (bfs_pending st) as [|id pending] eqn:Hp.
  { cbn [steps] in Hn. unfold map_round in Hn at 1. rewrite Hp in Hn. cbn in Hn |- *. congruence. }
  rewrite <- Hp. set (k := N.to_nat _). rewrite (fetch_batch_lawful store).
  2:{ intros x Hx%list_elem_of_In. destruct (pending_known st x Hinv) as (ps & d & Hps & _); [|by rewrite Hps].
    rewrite <- (take_drop k (bfs_pending st)), elem_of_app. left. by apply list_elem_of_In. }
  cbn [mbind result_bind].
  assert (prepend (take k (bfs_pending st)) (set_pending (drop k (bfs_pending st)) st) = st) as Hpre.
  { unfold prepend. cbn. rewrite take_drop. by destruct st. }
  assert (0 < length (take k (bfs_pending st))) as Hk by (rewrite length_take, Hp; unfold k; rewrite Hp; cbn [length]; lia).
  pose proof (batch_steps (take k (bfs_pending st)) (set_pending (drop k (bfs_pending st)) st) rb) as Hbatch.
  rewrite Hpre in Hbatch. specialize (Hbatch Hinv).
  set (m := length (take k (bfs_pending st))) in *. clearbody m.
  destruct (foldM _ _ _) as [[st' rb']|e].
  - destruct Hbatch as [Hst Hinv']. assert (m < S n) as Hlt.
    { destruct (decide (m < S n)); [done|]. rewrite (steps_mono _ _ m _ _ Hn) in Hst by lia. done. }
    apply (steps_mono _ (S n - m)); [|lia]. apply IH; [lia|done|].
    replace (S n) with (m + (S n - m)) in Hn by lia. by rewrite steps_add, Hst in Hn.
  - destruct (decide (m <= S n)) as [Hle|Hle].
    + rewrite (steps_mono _ _ _ _ _ Hbatch Hle) in Hn. congruence.
    + rewrite (steps_mono _ _ m _ _ Hn) in Hbatch by lia. congruence.
Qed.
End batch.

(** *** Totality on well-formed histories *)

(** A parent path of length [k] cannot be longer than the history. *)
Lemma ancestor_at_bound g parent_mode stop heads order k x :
  topological g ∅ order -> (forall y, y ∈ heads -> is_Some (g !! y)) -> ancestor_at g parent_mode stop heads k x ->
  exists before after, order = before ++ x :: after /\ length before + N.to_nat k < length order.
Proof.
  intros (Hnd & Hin & Hbefore) Hheads. induction 1 as [x Hx _|k x p _ (b & a & -> & Hlen) Hp].
  - destruct (list_elem_of_split order x) as (b & a & ->); [by apply Hin, Hheads|].
    exists b, a. split; [done|]. rewrite length_app. cbn. lia.
  - assert (p ∈ b) as Hpb.
    { apply (Hbefore b x a p eq_refl). unfold parent_edge, internal_parents, kept_parents in *.
      apply list_elem_of_filter in Hp as [_ Hp]. apply list_elem_of_filter. split; [set_solver|].
      destruct parent_mode; [done|]. destruct (default [] (g !! x)); cbn in *; set_solver. }
    apply list_elem_of_split in Hpb as (b1 & b2 & ->). exists b1, (b2 ++ x :: a). split; [by rewrite <- app_assoc|].
    rewrite !length_app in *. cbn in *. lia.
Qed.

Lemma topological_length g order : topological g ∅ order -> length order <= size g.
Proof.
  intros (Hnd & Hin & _). rewrite <- size_dom. apply NoDup_length_le_size; [done|].
  intros x Hx. by apply elem_of_dom, Hin.
Qed.

(** Limits that no search of the history [g] can hit. *)
Definition ample_limits (g : gmap string (list string)) (limits : SnapshotDagLimits) : Prop :=
  (N.of_nat (size g) <= max_depth limits)%N /\ (N.of_nat (size g) <= max_results limits)%N /\
  (0 < max_results limits)%N /\ (0 < batch_size limits)%N.

(** A well-formed history: valid, closed and acyclic. *)
Definition well_formed (g : gmap string (list string)) : Prop :=
  valid_parent_map g /\ closed_map g ∅ /\ acyclic g ∅.

Section total.
Context (g : gmap string (list string)) (limits : SnapshotDagLimits) (stop : gset string)
  (parent_mode : SnapshotParentMode) (heads : list string).
Hypothesis (Hwf : well_formed g).
Hypothesis (Hheads : forall x, x ∈ heads -> is_Some (g !! x)).
Hypothesis (Hlimits : ample_limits g limits).

Local Abbreviation inv := (bfs_inv g limits stop parent_mode heads).

Lemma known_order : exists order, topological g ∅ order.
Proof.
  destruct Hwf as (Hv & Hcl & Hac). destruct (topological_order_acyclic_Ok g ∅ None Hv Hcl Hac) as [order Ho].
  apply topological_order_Ok in Ho as (_ & _ & Ht & _). by exists order.
Qed.

Lemma discovered_known st x : inv st -> x ∈ bfs_discovered st -> is_Some (g !! x).
Proof.
  intros Hinv Hx. apply (bi_dom _ _ _ _ _ _ Hinv) in Hx as [d Hd].
  eapply (ancestor_known g stop parent_mode heads (proj1 (proj2 Hwf)) Hheads), (bi_path _ _ _ _ _ _ Hinv), Hd.
Qed.

Lemma room_left (X : gset string) x :
  (forall y, y ∈ X -> is_Some (g !! y)) -> is_Some (g !! x) -> x ∉ X -> results_full limits X = false.
Proof.
  intros HX Hx Hn. apply N.leb_gt. destruct Hlimits as (_ & Hr & _).
  assert (size ({[x]} ∪ X) <= size g) as Hs.
  { rewrite <- size_dom. apply subseteq_size. intros y Hy. apply elem_of_dom.
    apply elem_of_union in Hy as [->%elem_of_singleton|Hy]; auto. }
  rewrite size_union, size_singleton in Hs by set_solver. lia.
Qed.

Lemma include_parents_total id d st ps :
  (forall y, y ∈ bfs_discovered st -> is_Some (g !! y)) -> (forall p, p ∈ ps -> is_Some (g !! p)) ->
  bfs_truncated st = false ->
  exists acc, foldM (include_parent g limits id d) (st, []) ps = Ok acc /\ bfs_truncated (fst acc) = false.
Proof.
  intros Hst Hps Ht.
  destruct (foldM_total (include_parent g limits id d)
    (fun _ acc => (forall y, y ∈ bfs_discovered (fst acc) -> is_Some (g !! y)) /\ bfs_truncated (fst acc) = false)
    ps (st, [])) as (acc & Hacc & _ & Htr); [done| |by eauto].
  intros done p rest [s i] -> [Hs Htr]. cbn in *. case_bool_decide as Hp; [by eexists|].
  rewrite (room_left _ p) by (auto; apply Hps; set_solver).
  rewrite bool_decide_eq_true_2 by (apply Hps; set_solver). eexists. split; [done|]. cbn. split; [|done].
  intros y [->%elem_of_singleton|Hy]%elem_of_union; [apply Hps; set_solver|auto].
Qed.

Lemma visit_snapshot_total st id rest :
  inv st -> bfs_pending st = id :: rest -> bfs_truncated st = false ->
  exists st', visit_snapshot g limits stop parent_mode (set_pending rest st) id = Ok st' /\ bfs_truncated st' = false.
Proof.
  intros Hinv Hp Ht.
  destruct (pending_known g limits stop parent_mode heads (proj1 (proj2 Hwf)) Hheads st id Hinv) as (ps & d & Hps & Hd);
    [rewrite Hp; set_solver|].
  unfold visit_snapshot. rewrite Hps. cbn [ok_or mbind result_bind].
  rewrite validate_link by (by apply (proj1 Hwf)). cbn [map_err mbind result_bind set_pending bfs_depth].
  rewrite Hd. cbn [ok_or mbind result_bind]. fold (mode_parents parent_mode ps).
  assert (forall p, p ∈ filter (fun p => p ∉ stop) (mode_parents parent_mode ps) -> is_Some (g !! p)) as Hknown.
  { intros p [_ Hpp]%list_elem_of_filter. by eapply (mode_parents_known g parent_mode heads (proj1 (proj2 Hwf)) Hheads). }
  assert ((d < max_depth limits)%N) as Hdepth.
  { destruct known_order as [order Ho]. apply (bi_path _ _ _ _ _ _ Hinv) in Hd.
    destruct (ancestor_at_bound _ _ _ _ _ _ _ Ho Hheads Hd) as (b & a & _ & Hlen).
    pose proof (topological_length _ _ Ho). destruct Hlimits as (Hmax & _). lia. }
  unfold retained_parents. apply N.leb_gt in Hdepth. rewrite Hdepth, andb_false_r. cbv iota zeta. cbn [mbind result_bind mark_truncated].
  destruct (include_parents_total id d (set_pending rest st) _ (fun y => discovered_known st y Hinv) Hknown Ht)
    as ([s i] & Hacc & Htr).
  eexists. split; [by rewrite Hacc|done].
Qed.

Lemma queue_heads_total :
  exists st, foldM (queue_head limits stop) initial_bfs heads = Ok st /\ bfs_truncated st = false.
Proof.
  destruct (foldM_total (queue_head limits stop)
    (fun _ st => (forall y, y ∈ bfs_discovered st -> is_Some (g !! y)) /\ bfs_truncated st = false)
    heads initial_bfs) as (st & Hst & _ & Ht); [split; [set_solver|done]| |by eauto].
  intros done h rest st Hl [Hs Ht]. assert (is_Some (g !! h)) as Hh by (apply Hheads; rewrite Hl; set_solver).
  unfold queue_head. destruct (bool_decide (h ∈ stop) || _) eqn:Hb; [by eexists|].
  apply orb_false_iff in Hb as [_ Hb%bool_decide_eq_false]. rewrite (room_left _ h) by auto.
  eexists. split; [done|]. cbn. split; [|done]. intros y [->%elem_of_singleton|Hy]%elem_of_union; auto.
Qed.

(** What the search found can be put in order. *)
Lemma finish_traversal_total st :
  search_inv g limits stop parent_mode heads st -> bfs_pending st = [] -> bfs_truncated st = false ->
  exists t, finish_traversal st = Ok t.
Proof.
  intros [Hinv Hh] Hp Ht. destruct Hwf as (Hv & Hcl & Hac).
  destruct (search_complete g limits stop parent_mode heads st Hinv Hh Hp Ht) as (_ & Hpar & _).
  assert (forall x p, parent_edge (bfs_parents st) ∅ p x -> p ∈ kept_parents g parent_mode stop x /\ parent_edge g ∅ p x) as Hedge.
  { intros x p. unfold parent_edge, internal_parents. destruct (bfs_parents st !! x) as [ps|] eqn:Hx; cbn [default];
      [intros [_ Hin]%list_elem_of_filter|by intros ?%elem_of_nil]. apply Hpar in Hx as [_ ->]. split; [done|].
    unfold kept_parents in Hin. apply list_elem_of_filter in Hin as [_ Hin].
    apply list_elem_of_filter. split; [set_solver|]. destruct parent_mode; [done|].
    destruct (default [] (g !! x)); cbn in *; set_solver. }
  unfold finish_traversal. edestruct topological_order_acyclic_Ok as [order ->]; [..|by eexists].
  - intros x ps Hx. apply Hpar in Hx as [[k Hk] ->].
    destruct (ancestor_known g stop parent_mode heads Hcl Hheads k x Hk) as [qs Hqs].
    pose proof (Hv x qs Hqs) as Hval. unfold kept_parents. rewrite Hqs. cbn.
    apply valid_parent_set_sublist with qs; [done|]. etrans; [apply sublist_filter|].
    destruct parent_mode; cbn; [done|]. destruct qs; cbn; [done|]. apply sublist_skip, sublist_nil_l.
  - intros x p Hxp. apply Hedge in Hxp as Hxp'. destruct Hxp' as [Hk _].
    assert (is_Some (bfs_parents st !! x)) as [ps Hx].
    { unfold parent_edge, internal_parents in Hxp. destruct (bfs_parents st !! x); [by eexists|].
      by apply elem_of_nil in Hxp. }
    apply Hpar in Hx as [[k Hx] _]. exists (kept_parents g parent_mode stop p). apply Hpar. split; [|done].
    exists (k + 1)%N. by econstructor.
  - intros x Hx. apply (Hac x). revert Hx. generalize x at 2 4. induction 1; [apply tc_once|eapply tc_l; [|done]]; by apply Hedge.
Qed.
Lemma map_loop_total st :
  search_inv g limits stop parent_mode heads st -> bfs_truncated st = false ->
  visits_left limits st <= N.to_nat (max_results limits) ->
  exists st', loop (map_round g limits stop parent_mode) (closure_fuel limits) st = inr (Ok st') /\
    search_inv g limits stop parent_mode heads st' /\ bfs_pending st' = [] /\ bfs_truncated st' = false.
Proof.
  intros Hinv Ht Hm.
  destruct (loop_total (map_round g limits stop parent_mode)
    (fun s => search_inv g limits stop parent_mode heads s /\ bfs_truncated s = false) (visits_left limits)
    (fun r => exists st', r = Ok st' /\ search_inv g limits stop parent_mode heads st' /\ bfs_pending st' = [] /\
       bfs_truncated st' = false) (closure_fuel limits) st) as (r & Hr & st' & -> & Hst'); [done| | |by eauto].
  - unfold closure_fuel. destruct (max_results limits); cbn in *; lia.
  - intros s [Hs Hst]. pose proof (map_round_inv _ _ _ _ _ _ Hs) as Hr.
    unfold map_round in *. destruct (bfs_pending s) as [|id rest] eqn:Hp; [by exists s|].
    destruct (visit_snapshot_total s id rest (proj1 Hs) Hp Hst) as (s' & Hv & Hs'). rewrite Hv in *. tauto.
Qed.
End total.

Lemma canonical_snapshot_ids_total ids role :
  (forall x, x ∈ ids -> canonical_text x = true) -> exists out, canonical_snapshot_ids ids role = Ok out.
Proof.
  intros Hc. unfold canonical_snapshot_ids.
  destruct (foldM_total (canonical_step role) (fun _ _ => True) ids (0, ∅, [])) as (st & -> & _); [done| |by eexists].
  intros done v rest [[k seen] out] -> _. cbn. rewrite Hc by set_solver. cbn. by eexists.
Qed.

Lemma map_closure_total g ids stop parent_mode limits :
  well_formed g -> ample_limits g limits -> (forall x, x ∈ ids -> canonical_text x = true /\ is_Some (g !! x)) ->
  exists t, snapshot_ancestor_closure_from_parent_map g ids stop parent_mode limits = Ok t /\ truncated t = false.
Proof.
  intros Hwf Hl Hids. destruct (canonical_snapshot_ids_total ids "head") as [heads Hh]; [by intros; apply Hids|].
  pose proof (canonical_snapshot_ids_Ok _ _ _ Hh) as (_ & _ & Hin).
  assert (forall x, x ∈ heads -> is_Some (g !! x)) as Hheads by (intros x Hx; by apply Hids, Hin).
  unfold snapshot_ancestor_closure_from_parent_map, validate_limits.
  assert ((max_results limits =? 0)%N = false /\ (batch_size limits =? 0)%N = false) as [-> ->].
  { destruct Hl as (_ & _ & ? & ?). split; apply N.eqb_neq; lia. }
  cbn [fail_if mbind result_bind]. rewrite Hh. cbn [mbind result_bind].
  destruct (queue_heads_total g limits stop heads Hwf Hheads Hl) as (st0 & Hq & Ht). rewrite Hq. cbn [mbind result_bind].
  destruct (queued_search_inv g limits stop parent_mode heads st0 Hq) as [Hinv Hm].
  destruct (map_loop_total g limits stop parent_mode heads Hwf Hheads Hl st0 Hinv Ht Hm) as (st & Hst & Hinv' & Hp & Ht').
  unfold run_loop. rewrite Hst. cbn [mbind result_bind].
  destruct (finish_traversal_total g limits stop parent_mode heads Hwf Hheads Hl st Hinv' Hp Ht') as [t Hf].
  exists t. split; [done|]. apply finish_traversal_Ok in Hf as (_ & _ & -> & _). done.
Qed.

Lemma map_closure_no_heads g stop parent_mode limits :
  run_loop (map_round g limits stop parent_mode) (closure_fuel limits) initial_bfs = Ok initial_bfs.
Proof. unfold run_loop. by rewrite (loop_stop _ _ _ (Ok initial_bfs)). Qed.

Lemma store_closure_map {St} `{SnapshotStore St} (store : St) g `{!LawfulSnapshotStore St store g} ids stop parent_mode limits :
  closed_map g ∅ -> (forall x, x ∈ ids -> is_Some (g !! x)) ->
  snapshot_ancestor_closure store ids stop parent_mode limits =
  snapshot_ancestor_closure_from_parent_map g ids stop parent_mode limits.
Proof.
  intros Hcl Hids. unfold snapshot_ancestor_closure, snapshot_ancestor_closure_from_parent_map.
  destruct (validate_limits limits) as [l|e] eqn:Hl; [|done]. apply validate_limits_Ok in Hl as (-> & _ & Hb).
  cbn [mbind result_bind]. destruct (canonical_snapshot_ids ids "head") as [heads|e] eqn:Hh; [|done].
  apply canonical_snapshot_ids_Ok in Hh as (_ & _ & Hin). cbn [mbind result_bind].
  destruct heads as [|h heads].
  { cbn [foldM mbind result_bind]. by rewrite map_closure_no_heads. }
  destruct (foldM (queue_head limits stop) initial_bfs (h :: heads)) as [st|e] eqn:Hq; [|done]. cbn [mbind result_bind].
  destruct (queued_search_inv g limits stop parent_mode _ st Hq) as [Hinv Hm].
  destruct (map_loop_result _ _ _ _ _ _ Hinv Hm) as (r & Hr & _).
  assert (forall x, x ∈ h :: heads -> is_Some (g !! x)) as Hheads by (intros x Hx; by apply Hids, Hin).
  unfold run_loop. rewrite Hr, loop_steps. rewrite loop_steps in Hr.
  by rewrite (closure_rounds g limits stop parent_mode (h :: heads) Hcl Hheads store _ st (requested_heads st) r Hb (proj1 Hinv) Hr).
Qed.

(** The batched closure is the search over the parent map: against any
    store that serves a closed parent map, reading the parents in batches
    returns the same traversal or the same error as the closure over the map
    itself; in particular the batch size changes nothing. *)
Theorem store_closure_refines_map {St} `{SnapshotStore St} (store : St) g
    `{!LawfulSnapshotStore St store g} ids stop parent_mode limits :
  closed_map g ∅ -> (forall x, x ∈ ids -> is_Some (g !! x)) ->
  snapshot_ancestor_closure store ids stop parent_mode limits =
  snapshot_ancestor_closure_from_parent_map g ids stop parent_mode limits.
Proof. apply store_closure_map; exact _. Qed.

(** Facts about one concrete history, by evaluation. *)
Lemma closed_map_decide g :
  forallb (fun e => forallb (fun p => bool_decide (is_Some (g !! p))) (snd e)) (map_to_list g) = true -> closed_map g ∅.
Proof.
  intros Hall id p Hp. unfold parent_edge, internal_parents in Hp. apply list_elem_of_filter in Hp as [_ Hp].
  destruct (g !! id) as [ps|] eqn:Hid; [|by apply elem_of_nil in Hp]. cbn in Hp.
  apply elem_of_map_to_list in Hid. rewrite forallb_forall in Hall.
  apply list_elem_of_In in Hid. apply Hall in Hid. cbn in Hid. rewrite forallb_forall in Hid.
  apply list_elem_of_In in Hp. by apply Hid, bool_decide_eq_true in Hp.
Qed.

Lemma well_formed_decide g order :
  topological_order_with_rank g ∅ None = Ok order -> well_formed g.
Proof.
  intros Ho. pose proof (topological_order_Ok _ _ _ _ Ho) as (Hv & Hcl & Ht & _).
  split_and!; [done..|]. by eapply topological_acyclic.
Qed.

Lemma known_decide (g : gmap string (list string)) ids :
  forallb (fun x => canonical_text x && bool_decide (is_Some (g !! x))) ids = true ->
  forall x, x ∈ ids -> canonical_text x = true /\ is_Some (g !! x).
Proof.
  rewrite forallb_forall. intros Hall x Hx%list_elem_of_In. apply Hall in Hx.
  apply andb_true_iff in Hx as [Hc Hx%bool_decide_eq_true]. done.
Qed.

Lemma store_closure_refines_map_witness :
  snapshot_ancestor_closure (mkStore diamond) ["MERGE"%string] ∅ AllParents (mkLimits 9 9 2 LimitError) =
  snapshot_ancestor_closure_from_parent_map diamond ["MERGE"%string] ∅ AllParents (mkLimits 9 9 2 LimitError).
Proof.
  apply (store_closure_refines_map (mkStore diamond) diamond).
  - apply closed_map_decide. vm_compute. reflexivity.
  - intros x Hx. refine (proj2 (known_decide diamond ["MERGE"%string] _ x Hx)). vm_compute. reflexivity.
Defined.

(** C5. Totality: on a valid, closed and acyclic history, with limits no
    smaller than the history, the batched closure of known snapshots always
    returns a traversal, it is not truncated, and it is the complete one. *)
Theorem store_closure_total {St} `{SnapshotStore St} (store : St) g
    `{!LawfulSnapshotStore St store g} ids stop parent_mode limits :
  well_formed g -> ample_limits g limits -> (forall x, x ∈ ids -> canonical_text x = true /\ is_Some (g !! x)) ->
  exists t, snapshot_ancestor_closure store ids stop parent_mode limits = Ok t /\ truncated t = false /\
    complete_traversal g parent_mode stop ids t.
Proof.
  intros Hwf Hl Hids. rewrite (store_closure_map store g) by (apply Hwf || (intros; by apply Hids)).
  destruct (map_closure_total g ids stop parent_mode limits Hwf Hl Hids) as (t & Ht & Htr).
  exists t. split_and!; [done..|]. by eapply map_closure_full.
Qed.

Lemma store_closure_total_witness :
  exists t, snapshot_ancestor_closure (mkStore diamond) ["MERGE"%string] {["LEFT"%string]} AllParents (mkLimits 4 4 3 LimitError) = Ok t /\
    truncated t = false /\ complete_traversal diamond AllParents {["LEFT"%string]} ["MERGE"%string] t.
Proof.
  apply (store_closure_total (mkStore diamond) diamond).
  - apply (well_formed_decide diamond ["ROOT"; "LEFT"; "RIGHT"; "MERGE"]%string). vm_compute. reflexivity.
  - repeat split; vm_compute; done.
  - apply known_decide. vm_compute. reflexivity.
Defined.
