(* ===== verification/MergeBases.v ===== *)
(** * Merge bases

    [snapshot_merge_bases] of [ait-core/src/snapshot_dag.rs]: the maximal
    common ancestors of two snapshots, nearest first, whether they are computed
    from a parent map or from a store. *)

From Stdlib Require Import NArith Lia.
From stdpp Require Import base sorting relations fin_sets gmap strings list.
From S2P Require Import Prelude SnapshotStore SnapshotDag TopoOrder AncestorClosure StoreClosure.

(** ** Specification *)

(** [x] is [y] or an ancestor of [y]. *)
Definition ancestor_or_self (g : gmap string (list string)) (x y : string) : Prop := rtc (parent_edge g ∅) x y.

Definition common_ancestor (g : gmap string (list string)) (l r x : string) : Prop :=
  ancestor_or_self g x l /\ ancestor_or_self g x r.

(** A common ancestor that is no proper ancestor of another one. *)
Definition best_common_ancestor (g : gmap string (list string)) (l r x : string) : Prop :=
  common_ancestor g l r x /\ forall y, common_ancestor g l r y -> ~ tc (parent_edge g ∅) x y.

(** [d] is the length of a shortest parent path from [h] to [x]. *)
Definition least_distance (g : gmap string (list string)) (h x : string) (d : N) : Prop :=
  ancestor_at g AllParents ∅ [h] d x /\ forall k, ancestor_at g AllParents ∅ [h] k x -> (d <= k)%N.

(** Nearest first: by the larger distance, the sum of both, and the name. *)
Definition nearer (g : gmap string (list string)) (l r x y : string) : Prop :=
  forall a b c d, least_distance g l x a -> least_distance g r x b -> least_distance g l y c -> least_distance g r y d ->
  base_key_le (N.max a b, saturating_add a b, x) (N.max c d, saturating_add c d, y).

Definition merge_bases_spec (g : gmap string (list string)) (l r : string) (bases : list string) : Prop :=
  NoDup bases /\ (forall x, x ∈ bases <-> best_common_ancestor g l r x) /\ StronglySorted (nearer g l r) bases.

(** ** Lemmas *)

#[export] Instance base_key_le_trans : Transitive base_key_le.
Proof.
  intros [[a1 a2] a3] [[b1 b2] b3] [[c1 c2] c3]; unfold base_key_le.
  intros [?|[-> H1]] [?|[-> H2]]; [left; lia|left; lia|left; lia|]. right; split; [done|]. by etrans.
Qed.
#[export] Instance base_key_le_total : Total base_key_le.
Proof.
  intros [[a1 a2] a3] [[b1 b2] b3]; unfold base_key_le. destruct (N.lt_total a1 b1) as [?|[->|?]]; [auto| |auto].
  destruct (total key_le (a2, a3) (b2, b3)); auto.
Qed.
#[export] Instance base_le_trans left right : Transitive (base_le left right).
Proof. intros a b c. unfold base_le. apply transitivity. Qed.
#[export] Instance base_le_total left right : Total (base_le left right).
Proof. intros a b. unfold base_le. apply total, _. Qed.

Lemma ancestor_at_iff g h x :
  (exists k, ancestor_at g AllParents ∅ [h] k x) <-> ancestor_or_self g x h.
Proof.
  split.
  - intros [k Hk]. induction Hk as [x Hx _|k x p _ IH Hp].
    + apply list_elem_of_singleton in Hx as ->. apply rtc_refl.
    + eapply rtc_l; [|exact IH]. exact Hp.
  - intros Hr. induction Hr as [|x y z Hxy _ [k Hk]].
    + exists 0%N. constructor; set_solver.
    + exists (k + 1)%N. by econstructor.
Qed.

Lemma tc_flip {A} (R : relation A) x y : tc (flip R) x y -> tc R y x.
Proof. induction 1; [by apply tc_once|by eapply tc_r]. Qed.

(** The children marked by the loop over the common snapshots. *)
Lemma mark_common_children_Ok left right common :
  common ⊆ dom (parent_snapshot_ids left) ->
  exists marked, foldM (mark_common_child left right common) ∅ (sorted_elements common) = Ok marked /\
    forall p, p ∈ marked <-> p ∈ common /\ exists x ps, x ∈ common /\ parent_snapshot_ids left !! x = Some ps /\ p ∈ ps.
Proof.
  intros Hsub.
  destruct (foldM_total (mark_common_child left right common) (fun seen marked => forall p, p ∈ marked <->
      p ∈ common /\ exists x ps, x ∈ seen /\ parent_snapshot_ids left !! x = Some ps /\ p ∈ ps)
    (sorted_elements common) ∅) as (marked & Hm & Hp); [set_solver| |].
  - intros done x rest marked Hl IH.
    assert (x ∈ common) as Hx by (apply elem_of_sorted_elements; rewrite Hl; set_solver).
    apply Hsub, elem_of_dom in Hx as [ps Hps]. unfold mark_common_child. rewrite Hps. cbn. eexists. split; [reflexivity|].
    intros p. rewrite elem_of_union, elem_of_list_to_set, list_elem_of_filter, IH. split.
    + intros [[Hc Hin]|(Hc & y & qs & Hy & Hqs & Hin)]; (split; [done|]); [exists x, ps|exists y, qs]; set_solver.
    + intros (Hc & y & qs & [Hy| ->]%elem_of_snoc & Hqs & Hin); [right; split; [done|]; by exists y, qs|left].
      split; [done|]. congruence.
  - exists marked. split; [done|]. intros p. rewrite Hp. by setoid_rewrite elem_of_sorted_elements.
Qed.

Section traversals.
Context (g : gmap string (list string)) (l r : string) (left right : SnapshotDagTraversal).
Hypothesis (Hleft : complete_traversal g AllParents ∅ [l] left).
Hypothesis (Hright : complete_traversal g AllParents ∅ [r] right).

Lemma elem_of_common x : x ∈ common_snapshots left right <-> common_ancestor g l r x.
Proof.
  unfold common_snapshots, common_ancestor. rewrite elem_of_intersection, !elem_of_dom, <- !ancestor_at_iff. split.
  - intros [[ps Hl] [qs Hr]]. apply (ct_parents _ _ _ _ _ Hleft) in Hl as [Hl _].
    by apply (ct_parents _ _ _ _ _ Hright) in Hr as [Hr _].
  - intros [Hl Hr]. split; exists (kept_parents g AllParents ∅ x);
      [by apply (ct_parents _ _ _ _ _ Hleft)|by apply (ct_parents _ _ _ _ _ Hright)].
Qed.

(** A common ancestor has a common child exactly when it is not maximal. *)
Lemma common_child_iff x :
  (exists y, common_ancestor g l r y /\ tc (parent_edge g ∅) x y) <->
  (exists y, common_ancestor g l r y /\ parent_edge g ∅ x y).
Proof.
  split.
  - intros (y & [Hl Hr] & Hxy).
    inversion Hxy as [? ? He|? z ? He Hz]; subst; [by exists y|].
    exists z. split; [|done]. apply tc_rtc in Hz. split; unfold ancestor_or_self in *; by etrans.
  - intros (y & Hy & He). exists y. split; [done|by apply tc_once].
Qed.

Lemma least_distance_depth h t x : complete_traversal g AllParents ∅ [h] t ->
  (forall d, depth_by_snapshot_id t !! x = Some d <-> least_distance g h x d).
Proof. intros Ht d. apply (ct_depth _ _ _ _ _ Ht). Qed.

Lemma base_le_nearer x y : base_le left right x y -> nearer g l r x y.
Proof.
  intros H a b c d Ha Hb Hc Hd.
  apply (least_distance_depth l left) in Ha, Hc; [|done..]. apply (least_distance_depth r right) in Hb, Hd; [|done..].
  unfold base_le, merge_base_sort_key, distance_from_head in H. by rewrite Ha, Hb, Hc, Hd in H.
Qed.

(** In an acyclic history the marking never covers all common snapshots. *)
Lemma unmarked_exists (common marked : gset string) :
  acyclic g ∅ -> common <> ∅ -> (forall p, p ∈ marked -> exists x, x ∈ common /\ parent_edge g ∅ p x) ->
  filter (fun id => id ∉ marked) (sorted_elements common) <> [].
Proof.
  intros Hac Hne Hm Hnil.
  destruct (finite_cycle (flip (parent_edge g ∅)) common) as [x Hx]; [done| |].
  - intros x Hx. destruct (decide (x ∈ marked)) as [Hxm|Hxm].
    + destruct (Hm x Hxm) as (y & Hy & He). exists y. split; [done|]. by apply tc_once.
    + assert (x ∈ filter (fun id => id ∉ marked) (sorted_elements common)) as Hin
        by (apply list_elem_of_filter; by rewrite elem_of_sorted_elements).
      rewrite Hnil in Hin. by apply elem_of_nil in Hin.
  - apply (Hac x). by apply tc_flip.
Qed.

Lemma merge_bases_from_traversals_total :
  exists bases, merge_bases_from_traversals left right = Ok bases /\ merge_bases_spec g l r bases /\
    (acyclic g ∅ -> bases = [] -> forall x, ~ common_ancestor g l r x).
Proof.
  unfold merge_bases_from_traversals. case_bool_decide as Hempty.
  { exists []. split; [done|]. assert (forall x, ~ common_ancestor g l r x) as Hno.
    { intros x Hx. apply elem_of_common in Hx. rewrite Hempty in Hx. set_solver. }
    split; [|done]. split_and!; [apply NoDup_nil_2| |constructor]. intros x. split; [by intros ?%elem_of_nil|].
    intros [Hx _]. by destruct (Hno x). }
  destruct (mark_common_children_Ok left right (common_snapshots left right)) as (marked & -> & Hm); [unfold common_snapshots; set_solver|].
  cbn [mbind result_bind]. eexists. split; [reflexivity|].
  set (bases := filter _ _). pose proof (merge_sort_Permutation (base_le left right) bases) as Hperm. split; [split_and!|].
  - rewrite Hperm. apply NoDup_filter, NoDup_sorted_elements.
  - intros x. rewrite Hperm. unfold bases. rewrite list_elem_of_filter, elem_of_sorted_elements, Hm, elem_of_common.
    unfold best_common_ancestor. split.
    + intros [Hn Hx]. split; [done|]. intros y Hy Hxy. apply Hn. split; [done|].
      destruct (proj1 (common_child_iff x)) as (z & Hz & Hxz); [by exists y|].
      exists z, (kept_parents g AllParents ∅ z). rewrite elem_of_common. split_and!; [done| |done].
      apply (ct_parents _ _ _ _ _ Hleft). split; [|done]. apply ancestor_at_iff, Hz.
    + intros [Hx Hmax]. split; [|done]. intros (_ & y & ps & Hy & Hps & Hin). apply elem_of_common in Hy.
      apply (Hmax y Hy), tc_once. by apply (ct_parents _ _ _ _ _ Hleft) in Hps as [_ ->].
  - pose proof (StronglySorted_merge_sort (base_le left right) bases) as Hs.
    eapply StronglySorted_weaken; [apply base_le_nearer|exact Hs].
  - intros Hac Hnil. exfalso. apply (unmarked_exists (common_snapshots left right) marked Hac Hempty).
    + intros p (_ & x & ps & Hx & Hps & Hin)%Hm. exists x. split; [done|].
      by apply (ct_parents _ _ _ _ _ Hleft) in Hps as [_ ->].
    + rewrite Hnil in Hperm. by apply Permutation_nil in Hperm.
Qed.
End traversals.

Section bases.
Context {St : Type} `{SnapshotStore St} (store : St) (g : gmap string (list string)) `{!LawfulSnapshotStore St store g}.

Lemma map_merge_bases_spec l r limits bases :
  limit_mode limits = LimitError -> snapshot_merge_bases_from_parent_map g l r limits = Ok bases ->
  merge_bases_spec g l r bases.
Proof.
  intros Hmode Hb. unfold snapshot_merge_bases_from_parent_map in Hb.
  apply bind_Ok in Hb as (left & Hl & Hb). apply bind_Ok in Hb as (right & Hr & Hb).
  destruct (merge_bases_from_traversals_total g l r left right) as (bs & Hbs & Hspec & _).
  - by eapply map_closure_full, map_closure_untruncated.
  - by eapply map_closure_full, map_closure_untruncated.
  - congruence.
Qed.

Lemma store_merge_bases_map l r limits :
  closed_map g ∅ -> is_Some (g !! l) -> is_Some (g !! r) ->
  snapshot_merge_bases store l r limits = snapshot_merge_bases_from_parent_map g l r limits.
Proof.
  intros Hcl Hl Hr. unfold snapshot_merge_bases, snapshot_merge_bases_from_parent_map.
  rewrite !(store_closure_map store g) by (try done; by intros x ->%list_elem_of_singleton). done.
Qed.
End bases.

(** C3. Merge bases are the maximal common ancestors: a successful call that
    does not truncate returns, each once, exactly the common ancestors of the
    two snapshots that are proper ancestors of no other common ancestor,
    ordered by the larger distance, then by the sum of the distances, then by
    name. *)
Theorem merge_bases_maximal g l r limits bases :
  limit_mode limits = LimitError -> snapshot_merge_bases_from_parent_map g l r limits = Ok bases ->
  merge_bases_spec g l r bases.
Proof. apply map_merge_bases_spec. Qed.

(** Two merge commits over the same two parents: a criss-cross. *)
Definition criss_cross : gmap string (list string) :=
  list_to_map [("ROOT"%string, []); ("A"%string, ["ROOT"%string]); ("B"%string, ["ROOT"%string]);
    ("L"%string, ["A"%string; "B"%string]); ("R"%string, ["B"%string; "A"%string])].

Lemma merge_bases_maximal_witness :
  snapshot_merge_bases_from_parent_map criss_cross "L" "R" default_limits = Ok ["A"; "B"]%string /\
  merge_bases_spec criss_cross "L" "R" ["A"; "B"]%string.
Proof.
  assert (snapshot_merge_bases_from_parent_map criss_cross "L" "R" default_limits = Ok ["A"; "B"]%string) as Hb
    by (vm_compute; reflexivity).
  split; [exact Hb|]. exact (merge_bases_maximal criss_cross "L" "R" default_limits _ eq_refl Hb).
Defined.

Lemma store_merge_bases {St} `{SnapshotStore St} (store : St) g `{!LawfulSnapshotStore St store g} l r limits :
  well_formed g -> ample_limits g limits -> (forall x, x ∈ [l; r] -> canonical_text x = true /\ is_Some (g !! x)) ->
  exists bases, snapshot_merge_bases store l r limits = Ok bases /\ merge_bases_spec g l r bases /\
    (bases = [] <-> ~ exists x, common_ancestor g l r x).
Proof.
  intros Hwf Hlim Hlr. destruct (Hlr l) as [Hcl Hl]; [set_solver|]. destruct (Hlr r) as [Hcr Hr]; [set_solver|].
  rewrite (store_merge_bases_map store g) by (try done; apply Hwf). unfold snapshot_merge_bases_from_parent_map.
  destruct (map_closure_total g [l] ∅ AllParents limits Hwf Hlim) as (tl & Htl & Htrl); [by intros x ->%list_elem_of_singleton|].
  destruct (map_closure_total g [r] ∅ AllParents limits Hwf Hlim) as (tr & Htr & Htrr); [by intros x ->%list_elem_of_singleton|].
  rewrite Htl, Htr. cbn [mbind result_bind].
  destruct (merge_bases_from_traversals_total g l r tl tr) as (bases & Hb & Hspec & Hnil); [by eapply map_closure_full..|].
  exists bases. split_and!; [done..|]. destruct Hspec as (_ & Hin & _). split.
  - intros -> [x Hx]. by apply (Hnil (proj2 (proj2 Hwf)) eq_refl x).
  - intros Hno. destruct bases as [|x bases]; [done|]. destruct Hno. exists x.
    destruct (proj1 (Hin x)) as [Hx _]; [set_solver|done].
Qed.

(** C4. Merge bases from a store: on a valid, closed and acyclic history, with
    limits no smaller than the history, the call against a store succeeds for
    any two known snapshots, its result is the ordered list of the maximal
    common ancestors, and it is empty only when there is no common ancestor at
    all. *)
Theorem store_merge_bases_total {St} `{SnapshotStore St} (store : St) g `{!LawfulSnapshotStore St store g} l r limits :
  well_formed g -> ample_limits g limits -> (forall x, x ∈ [l; r] -> canonical_text x = true /\ is_Some (g !! x)) ->
  exists bases, snapshot_merge_bases store l r limits = Ok bases /\ merge_bases_spec g l r bases /\
    (bases = [] <-> ~ exists x, common_ancestor g l r x).
Proof. exact (store_merge_bases store g l r limits). Qed.

Lemma store_merge_bases_total_witness :
  exists bases, snapshot_merge_bases (mkStore criss_cross) "L" "R" (mkLimits 5 5 2 LimitError) = Ok bases /\
    merge_bases_spec criss_cross "L" "R" bases /\ (bases = [] <-> ~ exists x, common_ancestor criss_cross "L" "R" x).
Proof.
  apply (store_merge_bases_total (mkStore criss_cross) criss_cross).
  - apply (well_formed_decide criss_cross ["ROOT"; "A"; "B"; "L"; "R"]%string). vm_compute. reflexivity.
  - repeat split; vm_compute; done.
  - apply known_decide. vm_compute. reflexivity.
Defined.
