(* ===== verification/ChunkLayout.v ===== *)
(** * Chunk layouts of an object pack

    Models [ait-core/src/pack_substrate/chunk_layout.rs]: how the members of a
    pack are grouped into compressed chunks. Member ordinals are [nat], byte
    counts are [usize] values. *)

From Stdlib Require Import NArith Lia.
From Stdlib Require Strings.Byte.
From stdpp Require Import base numbers sorting fin_sets gmap strings list.
From S2P Require Import Prelude.

Definition ZSTD_CHUNKED_DEFAULT_CHUNK_BYTES : N := 8388608%N.

Definition ObjectPackChunkLayout : Type := list (list nat).

Inductive layout_error : Type :=
| ClassificationMismatch
| EmptyGroup
| RepeatsOrExceeds (ordinal : nat)
| OmitsOrdinal.

(** ** Building a layout *)

(** [sort_by_key(|i| (!classes[*i], *i))]: priority members first. *)
Definition priority_le (classes : list bool) (i j : nat) : Prop :=
  match nth i classes false, nth j classes false with
  | true, false => True
  | false, true => False
  | _, _ => i <= j
  end.
#[export] Instance priority_le_dec classes : RelDecision (priority_le classes).
Proof. intros i j. unfold priority_le. destruct (nth i classes false), (nth j classes false); apply _. Defined.

Record layout_state : Type := mkLayout {
  chunks : ObjectPackChunkLayout;
  pending : list nat;
  pending_bytes : N;
  previous : option bool
}.

(** [chunks.push(std::mem::take(&mut pending)); bytes = 0] *)
Definition flush (st : layout_state) : layout_state :=
  mkLayout (chunks st ++ [pending st]) [] 0 (previous st).

Definition layout_step (sizes : list N) (priorities : option (list bool)) (target : N) (st : layout_state) (i : nat)
  : layout_state :=
  let size := nth i sizes 0%N in
  let class := (fun p => nth i p false) <$> priorities in
  let st :=
    if negb (bool_decide (pending st = [])) &&
       (negb (bool_decide (previous st = class)) || (target <? saturating_add (pending_bytes st) size)%N)
    then flush st else st in
  let st := mkLayout (chunks st) (pending st ++ [i]) (saturating_add (pending_bytes st) size) class in
  if (target <=? pending_bytes st)%N then flush st else st.

Definition layout_order (count : nat) (priorities : option (list bool)) : list nat :=
  match priorities with
  | None => seq 0 count
  | Some classes => merge_sort (priority_le classes) (seq 0 count)
  end.

(** [if !pending.is_empty() { chunks.push(pending) }] *)
Definition last_flush (st : layout_state) : ObjectPackChunkLayout :=
  if bool_decide (pending st = []) then chunks st else chunks st ++ [pending st].

Definition layout_new (sizes : list N) (priorities : option (list bool)) (target : N)
  : result layout_error ObjectPackChunkLayout :=
  _ ← fail_if (match priorities with Some p => negb (bool_decide (length p = length sizes)) | None => false end)
        ClassificationMismatch;
  let target := N.max target 1 in
  let st := foldl (layout_step sizes priorities target) (mkLayout [] [] 0 None)
              (layout_order (length sizes) priorities) in
  Ok (last_flush st).

(** ** Validation *)

(** The loop over the ordinals of a chunk; the state is the vector [seen]. *)
Definition mark_ordinal (seen : list bool) (i : nat) : result layout_error (list bool) :=
  match seen !! i with
  | Some false => Ok (<[i := true]> seen)
  | _ => Err (RepeatsOrExceeds i)
  end.

Definition validate_chunk (seen : list bool) (chunk : list nat) : result layout_error (list bool) :=
  _ ← fail_if (bool_decide (chunk = [])) EmptyGroup;
  foldM mark_ordinal seen chunk.

Definition layout_validate (layout : ObjectPackChunkLayout) (count : nat) : result layout_error unit :=
  seen ← foldM validate_chunk (repeat false count) layout;
  _ ← fail_if (existsb negb seen) OmitsOrdinal;
  Ok tt.

(** ** Identity of a layout *)

(** ["\nnative-object-pack/chunk-layout/v1\0"] *)
Definition layout_domain : bytes :=
  bytes_of_string (String (Ascii.ascii_of_nat 10) "native-object-pack/chunk-layout/v1") ++ [Byte.x00].

Definition encode_chunk (chunk : list nat) : bytes :=
  to_le_bytes 8 (N.of_nat (length chunk)) ++ concat (map (fun i => to_le_bytes 8 (N.of_nat i)) chunk).

(** [canonical] is [Self::for_members(members, None)]. *)
Definition extend_identity_seed (layout canonical : ObjectPackChunkLayout) (seed : bytes) : bytes :=
  if bool_decide (layout = canonical) then seed
  else seed ++ layout_domain ++ to_le_bytes 8 (N.of_nat (length layout)) ++ concat (map encode_chunk layout).

(** ** Specification *)

(** Every ordinal below [count] is in exactly one chunk, and no chunk is empty. *)
Definition layout_partitions (layout : ObjectPackChunkLayout) (count : nat) : Prop :=
  Forall (fun chunk => chunk <> []) layout /\ concat layout ≡ₚ seq 0 count.

Definition chunk_bytes (sizes : list N) (chunk : list nat) : N := foldr (fun i n => nth i sizes 0 + n)%N 0%N chunk.

(** ** Lemmas on validation *)

Lemma mark_ordinals_spec seen chunk :
  (exists seen', foldM mark_ordinal seen chunk = Ok seen') <->
  NoDup chunk /\ Forall (fun i => seen !! i = Some false) chunk.
Proof.
  revert seen; induction chunk as [|i chunk IH]; intros seen; cbn [foldM].
  { split; [|by eexists]. intros _. split; constructor. }
  unfold mark_ordinal at 2. rewrite NoDup_cons, Forall_cons. destruct (seen !! i) as [[|]|] eqn:Hi; cbn [mbind result_bind].
  - split; [by intros [? [=]]|naive_solver].
  - rewrite IH. setoid_rewrite Forall_forall. split.
    + intros [Hnd Hall]. assert (i ∉ chunk) as Hni.
      { intros Hin. specialize (Hall i Hin). rewrite list_lookup_insert_eq in Hall by (by eapply lookup_lt_Some). done. }
      split_and!; [done..|]. intros j Hj. specialize (Hall j Hj). by rewrite list_lookup_insert_ne in Hall by (intros ->; done).
    + intros [[Hni Hnd] [_ Hall]]. split; [done|]. intros j Hj. rewrite list_lookup_insert_ne by (intros ->; done). auto.
  - split; [by intros [? [=]]|naive_solver].
Qed.

Lemma mark_ordinals_Ok seen chunk seen' :
  foldM mark_ordinal seen chunk = Ok seen' ->
  length seen' = length seen /\ forall i, seen' !! i = (if bool_decide (i ∈ chunk) then Some true else seen !! i).
Proof.
  revert seen; induction chunk as [|j chunk IH]; intros seen; cbn [foldM].
  { intros [= <-]. split; [done|]. intros i. by rewrite bool_decide_eq_false_2 by set_solver. }
  unfold mark_ordinal at 2. destruct (seen !! j) as [[|]|] eqn:Hj; cbn [mbind result_bind]; try done.
  intros H. apply IH in H as [Hl Hs]. rewrite length_insert in Hl. split; [done|]. intros i. rewrite Hs.
  destruct (decide (i = j)) as [->|Hne].
  - rewrite list_lookup_insert_eq by (by eapply lookup_lt_Some). rewrite (bool_decide_eq_true_2 (j ∈ j :: chunk)) by set_solver.
    by case_bool_decide.
  - rewrite list_lookup_insert_ne by done. do 2 case_bool_decide; set_solver.
Qed.

(** Validating the chunks one by one is validating their concatenation. *)
Lemma validate_chunks_concat seen layout seen' :
  foldM validate_chunk seen layout = Ok seen' <->
  Forall (fun chunk => chunk <> []) layout /\ foldM mark_ordinal seen (concat layout) = Ok seen'.
Proof.
  revert seen; induction layout as [|chunk layout IH]; intros seen; cbn [foldM concat].
  { split; [done|]. by intros [_ ?]. }
  unfold validate_chunk at 2. rewrite Forall_cons, foldM_app. case_bool_decide as Hc; cbn [fail_if mbind result_bind].
  - split; [done|]. naive_solver.
  - rewrite !bind_Ok. setoid_rewrite IH. naive_solver.
Qed.

Lemma lookup_repeat_false n i b : repeat false n !! i = Some b <-> i < n /\ b = false.
Proof.
  revert i; induction n as [|n IH]; intros [|i]; cbn; [naive_solver lia..| |].
  - split; [intros [= <-]; split; [lia|done]|by intros [_ ->]].
  - rewrite IH. split; intros [? ?]; (split; [lia|done]).
Qed.

Lemma layout_validate_iff layout count : layout_validate layout count = Ok tt <-> layout_partitions layout count.
Proof.
  unfold layout_validate, layout_partitions. split.
  - intros H. inv_ok. apply validate_chunks_concat in Hok as [Hne Hm]. split; [done|].
    assert (exists s, foldM mark_ordinal (repeat false count) (concat layout) = Ok s) as Hex by eauto.
    apply mark_ordinals_spec in Hex as [Hnd Hall]. apply mark_ordinals_Ok in Hm as [Hl Hs].
    apply NoDup_Permutation; [done|apply NoDup_seq|]. intros i. rewrite elem_of_seq. rewrite Forall_forall in Hall. split.
    + intros Hi. apply Hall, lookup_repeat_false in Hi. lia.
    + intros Hi. destruct (decide (i ∈ concat layout)) as [|Hn]; [done|]. exfalso.
      assert (a !! i = Some false) as Hf by (rewrite Hs, bool_decide_eq_false_2 by done; apply lookup_repeat_false; lia).
      assert (existsb negb a = true) as Ht; [|congruence]. apply existsb_exists. exists false. split; [|done].
      apply list_elem_of_In. by eapply list_elem_of_lookup_2.
  - intros [Hne Hperm].
    assert (exists s, foldM mark_ordinal (repeat false count) (concat layout) = Ok s) as [s Hs].
    { apply mark_ordinals_spec. split; [rewrite Hperm; apply NoDup_seq|]. apply Forall_forall. intros i Hi.
      rewrite Hperm, elem_of_seq in Hi. apply lookup_repeat_false. split; [lia|done]. }
    rewrite (proj2 (validate_chunks_concat _ _ s) (conj Hne Hs)). cbn [mbind result_bind].
    apply mark_ordinals_Ok in Hs as [Hl Hs]. destruct (existsb negb s) eqn:He; [|done].
    apply existsb_exists in He as ([|] & Hin & Hb); [done|]. apply list_elem_of_In, list_elem_of_lookup in Hin as [i Hi].
    rewrite Hs in Hi. case_bool_decide as Hc; [done|]. apply lookup_repeat_false in Hi as [Hi _].
    destruct Hc. rewrite Hperm, elem_of_seq. lia.
Qed.

(** ** Lemmas on the construction *)

(** A chunk holds one member, or at most [target] bytes. *)
Definition chunk_fits (sizes : list N) (target : N) (chunk : list nat) : Prop :=
  length chunk = 1 \/ (chunk_bytes sizes chunk <= target)%N.

(** All members of a chunk have the same class. *)
Definition same_class (priorities : option (list bool)) (chunk : list nat) : Prop :=
  forall i j p, i ∈ chunk -> j ∈ chunk -> priorities = Some p -> nth i p false = nth j p false.

Lemma chunk_bytes_snoc sizes chunk i : chunk_bytes sizes (chunk ++ [i]) = (chunk_bytes sizes chunk + nth i sizes 0)%N.
Proof. unfold chunk_bytes. induction chunk as [|j chunk IH]; cbn; [lia|]. rewrite IH. lia. Qed.

Section construction.
Context (sizes : list N) (priorities : option (list bool)) (target : N).
Hypothesis (Htarget : (0 < target < usize_max)%N).

Local Abbreviation class i := ((fun p => nth i p false) <$> priorities).

Record layout_inv (done : list nat) (st : layout_state) : Prop := {
  li_done : concat (chunks st) ++ pending st = done;
  li_nonempty : Forall (fun chunk => chunk <> []) (chunks st);
  li_fits : Forall (chunk_fits sizes target) (chunks st);
  li_class : Forall (same_class priorities) (chunks st);
  li_bytes : pending_bytes st = N.min (chunk_bytes sizes (pending st)) usize_max;
  li_room : (pending_bytes st < target)%N;
  li_previous : forall i, i ∈ pending st -> previous st = class i
}.

Lemma pending_same_class st : (forall i, i ∈ pending st -> previous st = class i) -> same_class priorities (pending st).
Proof.
  intros Hp i j p Hi Hj Hpr. apply Hp in Hi, Hj. rewrite Hpr in Hi, Hj. cbn in Hi, Hj. congruence.
Qed.

Lemma flush_inv done st :
  concat (chunks st) ++ pending st = done -> Forall (fun chunk => chunk <> []) (chunks st) ->
  Forall (chunk_fits sizes target) (chunks st) -> Forall (same_class priorities) (chunks st) ->
  pending st <> [] -> chunk_fits sizes target (pending st) -> (forall i, i ∈ pending st -> previous st = class i) ->
  layout_inv done (flush st).
Proof.
  intros Hd Hn Hf Hc Hp Hpf Hpc. split; cbn.
  - by rewrite concat_app, <- Hd; cbn; rewrite !app_nil_r.
  - apply Forall_app; auto.
  - apply Forall_app; auto.
  - apply Forall_app; split; [done|]. constructor; [by apply pending_same_class|constructor].
  - done.
  - lia.
  - set_solver.
Qed.

Lemma layout_step_inv done st i :
  layout_inv done st -> layout_inv (done ++ [i]) (layout_step sizes priorities target st i).
Proof.
  intros Hinv. unfold layout_step. set (size := nth i sizes 0%N).
  set (st1 := if negb _ && _ then flush st else st).
  assert (layout_inv done st1 /\ (forall j, j ∈ pending st1 -> class j = class i) /\
    (pending st1 <> [] -> (chunk_bytes sizes (pending st1) + size <= target)%N)) as (Hinv1 & Hcl & Hroom).
  { unfold st1. destruct (bool_decide (pending st = [])) eqn:Hp; cbn [negb andb].
    { apply bool_decide_eq_true in Hp. rewrite Hp. split_and!; [done|set_solver|done]. }
    apply bool_decide_eq_false in Hp. destruct (negb _ || _) eqn:Hflush.
    - split_and!; cbn; [|set_solver|done]. destruct Hinv. apply flush_inv; try done. right. lia.
    - apply orb_false_iff in Hflush as [Hprev%negb_false_iff%bool_decide_eq_true Hle%N.ltb_ge].
      destruct Hinv. split_and!; [done| |].
      + intros j Hj. rewrite <- Hprev. symmetry. auto.
      + intros _. unfold saturating_add in Hle. lia. }
  clearbody st1. destruct Hinv1. set (st2 := mkLayout _ _ _ _).
  assert (pending_bytes st2 = N.min (chunk_bytes sizes (pending st2)) usize_max) as Hb
    by (cbn [st2 pending pending_bytes]; rewrite chunk_bytes_snoc; unfold saturating_add; fold size; lia).
  assert (forall j, j ∈ pending st2 -> previous st2 = class j) as Hpc.
  { cbn. intros j [Hj| ->]%elem_of_snoc; [|done]. symmetry. by apply Hcl. }
  destruct (N.leb_spec target (pending_bytes st2)) as [Hfull|Hfree].
  - apply flush_inv; try done.
    + cbn. by rewrite app_assoc, li_done0.
    + cbn. by destruct (pending st1).
    + change (pending st2) with (pending st1 ++ [i]). destruct (decide (pending st1 = [])) as [Hnil|Hne].
      * left. by rewrite Hnil.
      * right. rewrite chunk_bytes_snoc. by apply Hroom.
  - split; try done. cbn. by rewrite app_assoc, li_done0.
Qed.

Lemma layout_fold_inv order done st : layout_inv done st ->
  layout_inv (done ++ order) (foldl (layout_step sizes priorities target) st order).
Proof.
  revert done st; induction order as [|i order IH]; intros done st Hinv; cbn [foldl]; [by rewrite app_nil_r|].
  replace (done ++ i :: order) with ((done ++ [i]) ++ order) by (by rewrite <- app_assoc).
  apply IH. by apply layout_step_inv.
Qed.
End construction.

Lemma layout_order_permutation count priorities : layout_order count priorities ≡ₚ seq 0 count.
Proof. destruct priorities as [classes|]; cbn; [apply merge_sort_Permutation|done]. Qed.

Lemma layout_new_Ok sizes priorities target layout :
  (target < usize_max)%N -> layout_new sizes priorities target = Ok layout ->
  concat layout = layout_order (length sizes) priorities /\ layout_partitions layout (length sizes) /\
  Forall (chunk_fits sizes (N.max target 1)) layout /\ Forall (same_class priorities) layout.
Proof.
  intros Ht H. unfold layout_new in H. apply bind_Ok in H as (? & _ & H). injection H as <-.
  assert (0 < N.max target 1 < usize_max)%N as Ht' by (unfold usize_max in *; lia).
  set (order := layout_order (length sizes) priorities).
  assert (layout_inv sizes priorities (N.max target 1) [] (mkLayout [] [] 0 None)) as H0.
  { split; cbn; try done; try constructor; [lia|set_solver]. }
  apply (layout_fold_inv sizes priorities (N.max target 1) Ht' order) in H0. cbn [app] in H0.
  set (st := foldl _ _ _) in *. clearbody st.
  assert (concat (last_flush st) = order) as Hc.
  { unfold last_flush. destruct H0. case_bool_decide as Hp; [by rewrite Hp, app_nil_r in li_done0|].
    by rewrite concat_app; cbn; rewrite app_nil_r. }
  split_and!; [done| | |].
  - split; [|rewrite Hc; apply layout_order_permutation]. unfold last_flush. destruct H0. case_bool_decide; [done|].
    apply Forall_app; auto.
  - unfold last_flush. destruct H0. case_bool_decide; [done|]. apply Forall_app; split; [done|]. constructor; [|constructor]. right. lia.
  - unfold last_flush. destruct H0. case_bool_decide; [done|]. apply Forall_app; split; [done|]. constructor; [|constructor].
    by apply pending_same_class.
Qed.

(** ** Lemmas on the identity *)

(** Counts and ordinals fit a [u64]. *)
Definition u64_layout (layout : ObjectPackChunkLayout) : Prop :=
  (N.of_nat (length layout) < u64_modulus)%N /\
  Forall (fun chunk => (N.of_nat (length chunk) < u64_modulus)%N /\ Forall (fun i => (N.of_nat i < u64_modulus)%N) chunk) layout.

Lemma le8_inj a b r1 r2 : (a < u64_modulus)%N -> (b < u64_modulus)%N ->
  to_le_bytes 8 a ++ r1 = to_le_bytes 8 b ++ r2 -> a = b /\ r1 = r2.
Proof.
  intros Ha Hb H. apply app_inj_1 in H as [H ->]; [|by rewrite !length_to_le_bytes].
  split; [|done]. by apply (to_le_bytes_inj 8).
Qed.

Lemma ordinals_inj c1 c2 r1 r2 :
  length c1 = length c2 -> Forall (fun i => (N.of_nat i < u64_modulus)%N) c1 -> Forall (fun i => (N.of_nat i < u64_modulus)%N) c2 ->
  concat (map (fun i => to_le_bytes 8 (N.of_nat i)) c1) ++ r1 = concat (map (fun i => to_le_bytes 8 (N.of_nat i)) c2) ++ r2 ->
  c1 = c2 /\ r1 = r2.
Proof.
  intros Hl H1. revert c2 Hl; induction H1 as [|i c1 Hi _ IH]; intros [|j c2] Hl H2; try done.
  cbn [map concat]. rewrite <- !app_assoc. apply Forall_cons in H2 as [Hj H2]. intros H.
  apply le8_inj in H as [Hij H]; [|done..]. apply IH in H as [-> ->]; [|by injection Hl|done]. split; [|done]. f_equal. lia.
Qed.

Lemma chunks_inj l1 l2 r1 r2 : length l1 = length l2 ->
  Forall (fun chunk => (N.of_nat (length chunk) < u64_modulus)%N /\ Forall (fun i => (N.of_nat i < u64_modulus)%N) chunk) l1 ->
  Forall (fun chunk => (N.of_nat (length chunk) < u64_modulus)%N /\ Forall (fun i => (N.of_nat i < u64_modulus)%N) chunk) l2 ->
  concat (map encode_chunk l1) ++ r1 = concat (map encode_chunk l2) ++ r2 -> l1 = l2 /\ r1 = r2.
Proof.
  intros Hl H1. revert l2 Hl; induction H1 as [|c1 l1 [Hc1 Hi1] _ IH]; intros [|c2 l2] Hl H2; try done.
  cbn [map concat]. unfold encode_chunk at 1 3. rewrite <- !app_assoc. apply Forall_cons in H2 as [[Hc2 Hi2] H2]. intros H.
  apply le8_inj in H as [Hlen H]; [|done..]. apply Nat2N.inj in Hlen.
  apply ordinals_inj in H as [-> H]; [|done..]. apply IH in H as [-> ->]; [done|by injection Hl|done].
Qed.

(** ** Theorems *)

(** [validate] accepts exactly the partitions: a layout is valid for
    [count] members if and only if no group is empty and the groups together
    list every ordinal below [count] once. *)
Theorem layout_validate_spec layout count : layout_validate layout count = Ok tt <-> layout_partitions layout count.
Proof. apply layout_validate_iff. Qed.

(** What [new] builds: a layout that validates, that lists the members in
    logical order (priority members first when classes are given), whose groups
    have one class each, and in which a group larger than the target holds a
    single member. *)
Theorem layout_new_spec sizes priorities target layout :
  (target < usize_max)%N -> layout_new sizes priorities target = Ok layout ->
  layout_validate layout (length sizes) = Ok tt /\
  concat layout = layout_order (length sizes) priorities /\
  Forall (chunk_fits sizes (N.max target 1)) layout /\ Forall (same_class priorities) layout.
Proof.
  intros Ht H. apply layout_new_Ok in H as (Hc & Hp & Hf & Hs); [|done].
  split_and!; [by apply layout_validate_iff|done..].
Qed.

Lemma layout_new_spec_witness :
  layout_new [5; 9; 2; 3]%N (Some [false; true; false; true]) 8 = Ok [[1]; [3]; [0; 2]] /\
  layout_validate [[1]; [3]; [0; 2]] 4 = Ok tt.
Proof.
  split; [vm_compute; reflexivity|].
  refine (proj1 (layout_new_spec [5; 9; 2; 3]%N (Some [false; true; false; true]) 8 [[1]; [3]; [0; 2]] _ _));
    vm_compute; reflexivity.
Defined.

(** The layout is part of the pack identity: for a fixed seed and
    canonical layout, two layouts extend the identity seed to the same bytes
    only if they are equal, and the canonical layout leaves the seed as it
    was. *)
Theorem extend_identity_seed_inj l1 l2 canonical seed :
  u64_layout l1 -> u64_layout l2 ->
  (extend_identity_seed l1 canonical seed = extend_identity_seed l2 canonical seed <-> l1 = l2) /\
  extend_identity_seed canonical canonical seed = seed.
Proof.
  intros [Hl1 H1] [Hl2 H2]. split; [|unfold extend_identity_seed; by rewrite bool_decide_eq_true_2].
  split; [|by intros ->]. unfold extend_identity_seed. case_bool_decide as Hc1; case_bool_decide as Hc2.
  - congruence.
  - intros H. apply (f_equal length) in H. rewrite length_app in H. cbn in H. lia.
  - intros H. apply (f_equal length) in H. rewrite length_app in H. cbn in H. lia.
  - intros H. apply app_inv_head, app_inv_head in H. apply le8_inj in H as [Hlen H]; [|done..].
    apply Nat2N.inj in Hlen. rewrite <- (app_nil_r (concat (map encode_chunk l1))), <- (app_nil_r (concat (map encode_chunk l2))) in H.
    by apply chunks_inj in H as [-> _].
Qed.

Lemma extend_identity_seed_inj_witness :
  extend_identity_seed [[1]; [0]] [[0; 1]] [Byte.x2a] <> extend_identity_seed [[0; 1]] [[0; 1]] [Byte.x2a].
Proof.
  intros H. assert (@eq (list (list nat)) [[1]; [0]] [[0; 1]]) as Heq; [|discriminate Heq].
  refine (proj1 (proj1 (extend_identity_seed_inj [[1]; [0]] [[0; 1]] [[0; 1]] [Byte.x2a] _ _)) H);
    (split; [vm_compute; reflexivity|repeat constructor; vm_compute; reflexivity]).
Defined.
