(* ===== verification/PackCodec.v ===== *)
(** * The Git copy/insert delta codec

    The varint and instruction encoders of
    [ait-core/src/pack_substrate/util.rs] and the decoder
    [apply_git_binary_delta] of [pack_substrate/object.rs]. Byte buffers are
    lists; a cursor into a buffer is the suffix that starts there, and [usize]
    values that are data of the format are [N] below [2 ^ 64]. *)

From Stdlib Require Import NArith Lia.
From Stdlib Require Strings.Byte.
From stdpp Require Import base numbers sets strings list.
From S2P Require Import Prelude.

Definition PACK_DELTA_GIT_BINARY_V1 : string := "git-binary-v1".
Definition DEFAULT_MAX_DELTA_CHAIN_DEPTH : N := 4%N.
Definition MAX_DELTA_CHAIN_READ_DEPTH : N := (DEFAULT_MAX_DELTA_CHAIN_DEPTH * 16)%N.
Definition MIN_DELTA_BLOB_BYTES : N := 32%N.
Definition MAX_DELTA_BLOB_BYTES : N := 131072%N.
Definition MIN_DELTA_SAVINGS_BYTES : N := 16%N.

Inductive delta_error : Type :=
| TruncatedSizeHeader
| SizeHeaderTooLarge
| BaseSizeMismatch
| CopyOffsetTruncated
| CopySizeTruncated
| CopyOutOfBounds
| ZeroInstruction
| InsertTruncated
| TargetSizeMismatch
| UnsupportedAlgorithm (algorithm : string)
| DeltaOutOfFuel.

(** ** Size varints *)

(** The [loop] that pushes groups of seven bits; ten groups hold a [u64]. *)
Fixpoint varint_groups (fuel : nat) (value : N) : bytes :=
  match fuel with
  | O => []
  | S fuel =>
      let byte := N.land value 127 in
      let value := N.shiftr value 7 in
      if (0 <? value)%N then byte_of_N (N.lor byte 128) :: varint_groups fuel value else [byte_of_N byte]
  end.
Definition encode_size_varint (value : N) : bytes := varint_groups 10 value.

(** The [loop] of the decoder over [data[offset..]]; it returns the value and
    the bytes after the header. *)
Fixpoint read_groups (rest : bytes) (value shift : N) : result delta_error (N * bytes) :=
  match rest with
  | [] => Err TruncatedSizeHeader
  | b :: rest =>
      let byte := Byte.to_N b in
      let value := N.lor value ((N.shiftl (N.land byte 127) shift) mod u64_modulus) in
      if (N.land byte 128 =? 0)%N then Ok (value, rest)
      else if (63 <? shift + 7)%N then Err SizeHeaderTooLarge
      else read_groups rest value (shift + 7)
  end.
Definition decode_size_varint (data : bytes) : result delta_error (N * bytes) := read_groups data 0 0.

(** ** Copy and insert instructions *)

(** One field of a copy command: a nonzero byte sets its bit and is pushed. *)
Definition push_field (number : N) (acc : N * bytes) (field : N * N) : N * bytes :=
  let '(command, payload) := acc in
  let '(bit, shift) := field in
  let byte := N.land (N.shiftr number shift) 255 in
  if (byte =? 0)%N then (command, payload)
  else (N.lor command (N.shiftl 1 bit), payload ++ [byte_of_N byte]).
Definition offset_fields : list (N * N) := [(0, 0); (1, 8); (2, 16); (3, 24)]%N.
Definition size_fields : list (N * N) := [(4, 0); (5, 8); (6, 16)]%N.
Definition encode_copy_instruction (offset size : N) : bytes :=
  let acc := foldl (push_field offset) (128%N, []) offset_fields in
  let '(command, payload) := foldl (push_field size) acc size_fields in
  byte_of_N command :: payload.

(** The [while remaining > 0] loop; a round copies at least one byte. *)
Fixpoint copy_chunks (fuel : nat) (offset remaining : nat) : bytes :=
  match fuel with
  | O => []
  | S fuel =>
      match remaining with
      | O => []
      | S _ =>
          let chunk := Nat.min remaining (N.to_nat 65535) in
          encode_copy_instruction (N.of_nat offset) (N.of_nat chunk) ++
            copy_chunks fuel (offset + chunk) (remaining - chunk)
      end
  end.
Definition append_copy_instructions (out : bytes) (offset size : nat) : bytes := out ++ copy_chunks size offset size.

Fixpoint insert_chunks (fuel : nat) (data : bytes) : bytes :=
  match fuel with
  | O => []
  | S fuel =>
      match data with
      | [] => []
      | _ :: _ =>
          let chunk := take 127 data in
          byte_of_N (N.of_nat (length chunk)) :: chunk ++ insert_chunks fuel (drop 127 data)
      end
  end.
Definition append_insert_instructions (out data : bytes) : bytes := out ++ insert_chunks (length data) data.

(** ** Applying a delta *)

(** [if command & mask != 0 { ensure_available(..)?; value |= data[cursor] << shift; cursor += 1 }] *)
Definition read_field (e : delta_error) (command : N) (acc : N * bytes) (field : N * N)
  : result delta_error (N * bytes) :=
  let '(value, rest) := acc in
  let '(bit, shift) := field in
  if (N.land command (N.shiftl 1 bit) =? 0)%N then Ok (value, rest)
  else match rest with
       | [] => Err e
       | b :: rest => Ok (N.lor value (N.shiftl (Byte.to_N b) shift), rest)
       end.

(** One round of [while cursor < delta_data.len()]. *)
Definition apply_instruction (base : bytes) (st : bytes * bytes)
  : (bytes * bytes) + result delta_error bytes :=
  let '(rest, out) := st in
  match rest with
  | [] => inr (Ok out)
  | b :: rest =>
      let command := Byte.to_N b in
      if negb (N.land command 128 =? 0)%N then
        match (offset ← foldM (read_field CopyOffsetTruncated command) (0%N, rest) offset_fields;
               let '(offset, rest) := offset in
               size ← foldM (read_field CopySizeTruncated command) (0%N, rest) size_fields;
               let '(size, rest) := size in
               let size := if (size =? 0)%N then 65536%N else size in
               _ ← fail_if (N.of_nat (length base) <? offset + size)%N CopyOutOfBounds;
               Ok (rest, out ++ take (N.to_nat size) (drop (N.to_nat offset) base))) with
        | Ok st => inl st
        | Err e => inr (Err e)
        end
      else if (command =? 0)%N then inr (Err ZeroInstruction)
      else if (N.of_nat (length rest) <? command)%N then inr (Err InsertTruncated)
      else inl (drop (N.to_nat command) rest, out ++ take (N.to_nat command) rest)
  end.

(** Every round consumes at least the command byte. *)
Definition apply_instructions (base code : bytes) : result delta_error bytes :=
  match loop (apply_instruction base) (Pos.of_succ_nat (length code)) (code, []) with
  | inl _ => Err DeltaOutOfFuel
  | inr r => r
  end.

Definition apply_git_binary_delta (base_data delta_data : bytes) : result delta_error bytes :=
  header ← decode_size_varint delta_data;
  let '(expected_base_size, rest) := header in
  _ ← fail_if (negb (expected_base_size =? N.of_nat (length base_data))%N) BaseSizeMismatch;
  header ← decode_size_varint rest;
  let '(expected_target_size, rest) := header in
  out ← apply_instructions base_data rest;
  _ ← fail_if (negb (N.of_nat (length out) =? expected_target_size)%N) TargetSizeMismatch;
  Ok out.

Definition apply_pack_delta (base_data delta_data : bytes) (algorithm : string) : result delta_error bytes :=
  if bool_decide (algorithm = PACK_DELTA_GIT_BINARY_V1) then apply_git_binary_delta base_data delta_data
  else Err (UnsupportedAlgorithm algorithm).

(** ** Lemmas on varints *)

Lemma group_byte m : Byte.to_N (byte_of_N (N.land m 127)) = N.land m 127 /\
  Byte.to_N (byte_of_N (N.lor (N.land m 127) 128)) = N.lor (N.land m 127) 128.
Proof.
  rewrite !byte_of_N_to_N, !land_255, N.land_lor_distr_l, <- !N.land_assoc. done.
Qed.

Lemma group_low m : N.land (N.lor (N.land m 127) 128) 127 = N.land m 127.
Proof. rewrite N.land_lor_distr_l, <- N.land_assoc. cbn. by rewrite N.lor_0_r. Qed.

Lemma group_more m : (N.land (N.lor (N.land m 127) 128) 128 =? 0)%N = false.
Proof. rewrite N.land_lor_distr_l, <- N.land_assoc. by rewrite N.land_0_r. Qed.

Lemma group_last m : (N.land (N.land m 127) 128 =? 0)%N = true.
Proof. rewrite <- N.land_assoc. cbn. by rewrite N.land_0_r. Qed.

Lemma shiftr_7 m : N.shiftr m 7 = (m / 128)%N.
Proof. by rewrite N.shiftr_div_pow2. Qed.

Lemma varint_groups_S fuel value : varint_groups (S fuel) value =
  if (0 <? N.shiftr value 7)%N then byte_of_N (N.lor (N.land value 127) 128) :: varint_groups fuel (N.shiftr value 7)
  else [byte_of_N (N.land value 127)].
Proof. done. Qed.

Lemma read_varint_groups fuel m v s rest :
  (m < 128 ^ N.of_nat (S fuel))%N -> (m * 2 ^ s < u64_modulus)%N ->
  read_groups (varint_groups (S fuel) m ++ rest) v s = Ok (N.lor v (N.shiftl m s), rest).
Proof.
  revert m v s; induction fuel as [|fuel IH]; intros m v s Hm Hs; rewrite varint_groups_S.
  all: assert (N.shiftl (N.land m 127) s mod u64_modulus = N.shiftl (N.land m 127) s)%N as Hmod
    by (apply N.mod_small; rewrite N.shiftl_mul_pow2; change 127%N with (N.ones 7); rewrite N.land_ones;
        pose proof (N.Div0.mod_le m (2 ^ 7)); nia).
  all: pose proof (split_low_bits m 7) as Hsplit; change (N.ones 7) with 127%N in Hsplit.
  - rewrite shiftr_7. cbn in Hm. rewrite N.div_small by lia. cbn [N.ltb N.compare app read_groups].
    rewrite (proj1 (group_byte m)), group_last, <- (N.land_assoc m).
    change (N.land 127 127) with 127%N. rewrite Hmod.
    rewrite shiftr_7, N.div_small, N.shiftl_0_l, N.lor_0_r in Hsplit by lia. by rewrite Hsplit.
  - destruct (0 <? N.shiftr m 7)%N eqn:Hmore; cbn [app read_groups].
    + apply N.ltb_lt in Hmore. rewrite (proj2 (group_byte m)), group_more, group_low, Hmod.
      assert (128 <= m)%N as Hbig.
      { destruct (N.lt_ge_cases m 128) as [Hlt|]; [|done]. rewrite shiftr_7, N.div_small in Hmore by done. lia. }
      assert (s + 7 <= 63)%N as Hshift.
      { apply N.nlt_ge. intros Hlt. assert (2 ^ 57 <= 2 ^ s)%N by (apply N.pow_le_mono_r; lia).
        unfold u64_modulus in Hs. change (2 ^ 57)%N with 144115188075855872%N in *. nia. }
      rewrite (proj2 (N.ltb_ge _ _) Hshift). rewrite IH.
      * f_equal. f_equal. rewrite <- N.lor_assoc. f_equal.
        rewrite <- (N.shiftl_shiftl _ 7 s) || rewrite (N.add_comm s 7), <- N.shiftl_shiftl.
        by rewrite <- N.shiftl_lor, Hsplit.
      * rewrite shiftr_7. apply N.Div0.div_lt_upper_bound. rewrite (Nat2N.inj_succ (S fuel)), N.pow_succ_r' in Hm. done.
      * rewrite N.pow_add_r, shiftr_7. change (2 ^ 7)%N with 128%N. pose proof (N.Div0.mul_div_le m 128). nia.
    + apply N.ltb_ge in Hmore. assert (N.shiftr m 7 = 0)%N as Hz by lia.
      rewrite (proj1 (group_byte m)), group_last, <- (N.land_assoc m).
    change (N.land 127 127) with 127%N. rewrite Hmod.
      rewrite Hz, N.shiftl_0_l, N.lor_0_r in Hsplit. by rewrite Hsplit.
Qed.

Lemma decode_encode_varint n rest : (n < u64_modulus)%N -> decode_size_varint (encode_size_varint n ++ rest) = Ok (n, rest).
Proof.
  intros Hn. unfold decode_size_varint, encode_size_varint. rewrite read_varint_groups.
  - by rewrite N.lor_0_l, N.shiftl_0_r.
  - etrans; [exact Hn|]. by vm_compute.
  - cbn. lia.
Qed.

(** ** Lemmas on copy commands *)

Definition field_byte (n shift : N) : N := N.land (N.shiftr n shift) 255.
Definition field_bytes (n shift : N) : bytes :=
  if (field_byte n shift =? 0)%N then [] else [byte_of_N (field_byte n shift)].
Definition field_bit (n bit shift : N) : N := if (field_byte n shift =? 0)%N then 0%N else N.shiftl 1 bit.

Lemma push_field_eq n c p bit shift :
  push_field n (c, p) (bit, shift) = (N.lor c (field_bit n bit shift), p ++ field_bytes n shift).
Proof.
  unfold push_field, field_bit, field_bytes. fold (field_byte n shift). destruct (field_byte n shift =? 0)%N; [|done].
  by rewrite N.lor_0_r, app_nil_r.
Qed.

(** The command of a copy of [size] bytes at [offset]. *)
Definition copy_command (offset size : N) : N :=
  foldl (fun c f => N.lor c (field_bit size (fst f) (snd f)))
    (foldl (fun c f => N.lor c (field_bit offset (fst f) (snd f))) 128%N offset_fields) size_fields.

Lemma push_fields_eq n fields c p :
  foldl (push_field n) (c, p) fields =
  (foldl (fun c f => N.lor c (field_bit n (fst f) (snd f))) c fields,
   p ++ concat (map (fun f => field_bytes n (snd f)) fields)).
Proof.
  revert c p; induction fields as [|[bit shift] fields IH]; intros c p; [by cbn; rewrite app_nil_r|].
  cbn [foldl map concat fst snd]. by rewrite push_field_eq, IH, <- app_assoc.
Qed.

Lemma encode_copy_instruction_eq offset size :
  encode_copy_instruction offset size = byte_of_N (copy_command offset size) ::
    concat (map (fun f => field_bytes offset (snd f)) offset_fields) ++
    concat (map (fun f => field_bytes size (snd f)) size_fields).
Proof.
  unfold encode_copy_instruction. rewrite push_fields_eq, push_fields_eq. done.
Qed.

(** The seven flags of a command. *)
Lemma copy_command_flags offset size :
  (copy_command offset size < 256)%N /\ N.land (copy_command offset size) 128 = 128%N /\
  (forall f, f ∈ offset_fields -> (N.land (copy_command offset size) (N.shiftl 1 (fst f)) =? 0)%N = (field_byte offset (snd f) =? 0)%N) /\
  (forall f, f ∈ size_fields -> (N.land (copy_command offset size) (N.shiftl 1 (fst f)) =? 0)%N = (field_byte size (snd f) =? 0)%N).
Proof.
  unfold copy_command, offset_fields, size_fields. cbn [foldl fst snd]. unfold field_bit.
  destruct (field_byte offset 0 =? 0)%N eqn:H0, (field_byte offset 8 =? 0)%N eqn:H1,
    (field_byte offset 16 =? 0)%N eqn:H2, (field_byte offset 24 =? 0)%N eqn:H3,
    (field_byte size 0 =? 0)%N eqn:H4, (field_byte size 8 =? 0)%N eqn:H5, (field_byte size 16 =? 0)%N eqn:H6;
  (split_and!; [reflexivity|reflexivity|..]; apply Forall_forall; repeat constructor; cbn [fst snd]; by rewrite ?H0, ?H1, ?H2, ?H3, ?H4, ?H5, ?H6).
Qed.

Lemma read_field_eq e c n bit shift v rest :
  (N.land c (N.shiftl 1 bit) =? 0)%N = (field_byte n shift =? 0)%N ->
  read_field e c (v, field_bytes n shift ++ rest) (bit, shift) = Ok (N.lor v (N.shiftl (field_byte n shift) shift), rest).
Proof.
  intros Hb. unfold read_field, field_bytes. rewrite Hb. destruct (field_byte n shift =? 0)%N eqn:Hz.
  - apply N.eqb_eq in Hz. by rewrite Hz, N.shiftl_0_l, N.lor_0_r.
  - cbn [app]. rewrite byte_of_N_small; [done|]. unfold field_byte. rewrite <- land_255. by apply N.mod_upper_bound.
Qed.

Lemma read_fields_eq e c n fields v rest :
  (forall f, f ∈ fields -> (N.land c (N.shiftl 1 (fst f)) =? 0)%N = (field_byte n (snd f) =? 0)%N) ->
  foldM (read_field e c) (v, concat (map (fun f => field_bytes n (snd f)) fields) ++ rest) fields =
  Ok (foldl (fun v f => N.lor v (N.shiftl (field_byte n (snd f)) (snd f))) v fields, rest).
Proof.
  revert v; induction fields as [|[bit shift] fields IH]; intros v Hf; [done|].
  cbn [map concat foldM foldl snd]. rewrite <- app_assoc, read_field_eq by (apply (Hf (bit, shift)); set_solver).
  apply IH. set_solver.
Qed.

Lemma field_testbit n s k :
  N.testbit (N.shiftl (field_byte n s) s) k = ((s <=? k) && (k <? s + 8))%N && N.testbit n k.
Proof.
  unfold field_byte. destruct (N.leb_spec s k) as [Hle|Hgt]; [|by rewrite N.shiftl_spec_low].
  rewrite N.shiftl_spec_high', N.land_spec, N.shiftr_spec' by done. change 255%N with (N.ones 8).
  replace (k - s + s)%N with k by lia. rewrite andb_comm. f_equal. destruct (N.ltb_spec k (s + 8)) as [Hlt|Hge]; cbn [andb].
  - apply N.ones_spec_low. lia.
  - apply N.ones_spec_high. lia.
Qed.

Lemma offset_fields_value n : (n < 2 ^ 32)%N ->
  foldl (fun v f => N.lor v (N.shiftl (field_byte n (snd f)) (snd f))) 0%N offset_fields = n.
Proof.
  intros Hn. apply N.bits_inj. intros k. unfold offset_fields. cbn [foldl snd].
  rewrite !N.lor_spec, N.bits_0, !field_testbit. destruct (N.testbit n k) eqn:Hk; rewrite ?andb_false_r, ?andb_true_r; [|done].
  assert (k < 32)%N; [|case_N_order; cbn; done || lia]. apply N.nle_gt. intros Hle. by rewrite (testbit_high n 32 k) in Hk.
Qed.

Lemma size_fields_value n : (n < 2 ^ 24)%N ->
  foldl (fun v f => N.lor v (N.shiftl (field_byte n (snd f)) (snd f))) 0%N size_fields = n.
Proof.
  intros Hn. apply N.bits_inj. intros k. unfold size_fields. cbn [foldl snd].
  rewrite !N.lor_spec, N.bits_0, !field_testbit. destruct (N.testbit n k) eqn:Hk; rewrite ?andb_false_r, ?andb_true_r; [|done].
  assert (k < 24)%N; [|case_N_order; cbn; done || lia]. apply N.nle_gt. intros Hle. by rewrite (testbit_high n 24 k) in Hk.
Qed.

(** ** What the encoded instructions do *)

(** [code], met by the decoder, appends [result] to its output. *)
Definition decodes (base code result : bytes) : Prop :=
  forall rest out, exists n, n <= length code /\
    steps (apply_instruction base) n (code ++ rest, out) = inl (rest, out ++ result).

Lemma decodes_nil base : decodes base [] [].
Proof. intros rest out. exists 0. cbn. by rewrite app_nil_r. Qed.

Lemma decodes_app base c1 r1 c2 r2 : decodes base c1 r1 -> decodes base c2 r2 -> decodes base (c1 ++ c2) (r1 ++ r2).
Proof.
  intros H1 H2 rest out. destruct (H1 (c2 ++ rest) out) as (n1 & Hn1 & Hs1).
  destruct (H2 rest (out ++ r1)) as (n2 & Hn2 & Hs2). exists (n1 + n2). split.
  - rewrite length_app. lia.
  - by rewrite <- (app_assoc c1), steps_add, Hs1, (app_assoc out).
Qed.

Lemma decodes_one base code result :
  code <> [] -> (forall rest out, apply_instruction base (code ++ rest, out) = inl (rest, out ++ result)) ->
  decodes base code result.
Proof.
  intros Hne H rest out. exists 1. split; [destruct code; cbn; [done|lia]|]. cbn [steps]. by rewrite H.
Qed.

Lemma copy_instruction_decodes base offset size :
  (offset < 2 ^ 32)%N -> (0 < size < 2 ^ 24)%N -> (offset + size <= N.of_nat (length base))%N ->
  decodes base (encode_copy_instruction offset size) (take (N.to_nat size) (drop (N.to_nat offset) base)).
Proof.
  intros Ho Hs Hle. apply decodes_one; [by rewrite encode_copy_instruction_eq|]. intros rest out.
  destruct (copy_command_flags offset size) as (Hc & Hcopy & Hof & Hsf).
  rewrite encode_copy_instruction_eq. cbn [app apply_instruction].
  rewrite byte_of_N_small, Hcopy by done. cbn [N.eqb negb]. rewrite <- app_assoc.
  rewrite read_fields_eq by done. cbn [mbind result_bind]. rewrite read_fields_eq by done. cbn [mbind result_bind].
  rewrite offset_fields_value, size_fields_value by lia.
  rewrite (proj2 (N.eqb_neq size 0)) by lia. rewrite (proj2 (N.ltb_ge _ _)) by done. done.
Qed.

Lemma insert_chunk_decodes base chunk :
  0 < length chunk -> length chunk <= 127 -> decodes base (byte_of_N (N.of_nat (length chunk)) :: chunk) chunk.
Proof.
  intros H0 H127. apply decodes_one; [done|]. intros rest out. cbn [app apply_instruction].
  rewrite byte_of_N_small by lia.
  assert (N.land (N.of_nat (length chunk)) 128 = 0)%N as ->.
  { apply N.bits_inj. intros k. rewrite N.land_spec, N.bits_0. destruct (decide (k = 7)%N) as [->|Hk].
    - by rewrite (testbit_high _ 7) by (cbn; lia).
    - change 128%N with (2 ^ 7)%N. by rewrite N.pow2_bits_false, andb_false_r by congruence. }
  cbn [N.eqb negb]. rewrite (proj2 (N.eqb_neq _ 0)) by lia.
  rewrite (proj2 (N.ltb_ge _ _)) by (rewrite length_app; lia).
  by rewrite Nat2N.id, drop_app_length, take_app_length.
Qed.

Lemma insert_chunks_decodes base fuel data : length data <= fuel -> decodes base (insert_chunks fuel data) data.
Proof.
  revert data; induction fuel as [|fuel IH]; intros data Hf; cbn [insert_chunks].
  { destruct data; [apply decodes_nil|cbn in Hf; lia]. }
  destruct data as [|b data]; [apply decodes_nil|]. set (d := b :: data) in *.
  rewrite <- (take_drop 127 d) at 4. rewrite app_comm_cons. apply decodes_app.
  - apply insert_chunk_decodes; rewrite length_take; unfold d in *; cbn [length] in *; lia.
  - apply IH. rewrite length_drop. unfold d in *. cbn [length] in *. lia.
Qed.

Lemma copy_chunks_decodes base fuel offset remaining :
  remaining <= fuel -> offset + remaining <= length base -> (N.of_nat (length base) <= 2 ^ 32)%N ->
  decodes base (copy_chunks fuel offset remaining) (take remaining (drop offset base)).
Proof.
  revert offset remaining; induction fuel as [|fuel IH]; intros offset remaining Hf Hlen Hbase; cbn [copy_chunks].
  { replace remaining with 0 by lia. apply decodes_nil. }
  destruct remaining as [|r]; [apply decodes_nil|]. set (m := S r) in *.
  set (chunk := m `min` N.to_nat 65535). assert (0 < chunk <= m /\ chunk <= N.to_nat 65535) as [Hc Hc'] by (unfold chunk, m; lia).
  replace (take m (drop offset base)) with (take chunk (drop offset base) ++ take (m - chunk) (drop (offset + chunk) base)).
  - apply decodes_app; [|apply IH; lia].
    pose proof (copy_instruction_decodes base (N.of_nat offset) (N.of_nat chunk)) as Hi. rewrite !Nat2N.id in Hi.
    apply Hi; [lia| |lia]. change (2 ^ 24)%N with 16777216%N. lia.
  - rewrite <- (take_drop chunk (take m (drop offset base))). f_equal.
    + rewrite take_take. f_equal. lia.
    + rewrite skipn_firstn_comm, drop_drop. done.
Qed.

(** A program whose instructions decode to [result] is accepted. *)
Lemma apply_instructions_decodes base code result : decodes base code result -> apply_instructions base code = Ok result.
Proof.
  intros H. destruct (H [] []) as (n & Hn & Hs). rewrite app_nil_r in Hs. unfold apply_instructions.
  rewrite loop_steps. rewrite (steps_mono _ (n + 1) _ _ (Ok result)); [done| |lia].
  by rewrite steps_add, Hs.
Qed.

Definition delta_header (base target : bytes) : bytes :=
  encode_size_varint (N.of_nat (length base)) ++ encode_size_varint (N.of_nat (length target)).

Lemma apply_delta_decodes base target code :
  (N.of_nat (length base) < u64_modulus)%N -> (N.of_nat (length target) < u64_modulus)%N -> decodes base code target ->
  apply_git_binary_delta base (delta_header base target ++ code) = Ok target.
Proof.
  intros Hb Ht Hc. unfold apply_git_binary_delta, delta_header. rewrite <- app_assoc.
  rewrite decode_encode_varint by done. cbn [mbind result_bind]. rewrite N.eqb_refl. cbn [negb fail_if mbind result_bind].
  rewrite decode_encode_varint by done. cbn [mbind result_bind]. rewrite (apply_instructions_decodes _ _ _ Hc).
  cbn [mbind result_bind]. by rewrite N.eqb_refl.
Qed.

(** ** Bounds of the decoder *)

Lemma lor_lt a b w : (a < 2 ^ w)%N -> (b < 2 ^ w)%N -> (N.lor a b < 2 ^ w)%N.
Proof.
  intros Ha Hb. destruct (decide (N.lor a b = 0)%N) as [->|Hz]; [lia|].
  apply N.log2_lt_pow2; [lia|]. rewrite N.log2_lor.
  destruct (decide (a = 0)%N) as [->|Ha0], (decide (b = 0)%N) as [->|Hb0];
    rewrite ?(N.log2_lt_pow2 a), ?(N.log2_lt_pow2 b) in * by lia.
  - done.
  - cbn. by rewrite N.max_0_l.
  - cbn. by rewrite N.max_0_r.
  - by apply N.max_lub_lt.
Qed.

Lemma read_groups_bounds data v s value rest :
  read_groups data v s = Ok (value, rest) -> (v < 2 ^ 64)%N ->
  (value < 2 ^ 64)%N /\ exists used, data = used ++ rest /\ 1 <= length used /\ (s + 7 * N.of_nat (length used) <= N.max s 63 + 7)%N.
Proof.
  revert v s; induction data as [|b data IH]; intros v s; cbn [read_groups]; [done|]. intros H Hv.
  assert (N.lor v (N.shiftl (N.land (Byte.to_N b) 127) s mod u64_modulus) < 2 ^ 64)%N as Hl
    by (apply lor_lt; [done|apply N.mod_upper_bound; done]).
  destruct (N.land (Byte.to_N b) 128 =? 0)%N.
  - injection H as <- <-. split; [done|]. exists [b]. split_and!; [done|cbn; lia|cbn [length]; lia].
  - destruct (N.ltb_spec 63 (s + 7)) as [|Hs]; [done|].
    destruct (IH _ _ H Hl) as (Hval & used & -> & Hu & Hlen). split; [done|]. exists (b :: used).
    split_and!; [done|cbn; lia|]. cbn [length]. lia.
Qed.

Lemma read_field_length e c acc f acc' :
  read_field e c acc f = Ok acc' -> length (snd acc') <= length (snd acc).
Proof.
  destruct acc as [v rest], f as [bit shift]. unfold read_field. destruct (_ =? 0)%N; [by intros [= <-]|].
  destruct rest; [done|]. intros [= <-]. cbn. lia.
Qed.

Lemma read_fields_length e c acc fields acc' :
  foldM (read_field e c) acc fields = Ok acc' -> length (snd acc') <= length (snd acc).
Proof.
  apply (foldM_ind (read_field e c) (fun _ a => length (snd a) <= length (snd acc))); [done|].
  intros done f rest a1 a2 _ Hle Hf. apply read_field_length in Hf. lia.
Qed.

Lemma read_fields_no_fuel e c acc fields :
  e <> DeltaOutOfFuel -> foldM (read_field e c) acc fields <> Err DeltaOutOfFuel.
Proof.
  intros He. revert acc; induction fields as [|[bit shift] fields IH]; intros [v rest]; cbn [foldM]; [done|].
  destruct (read_field e c (v, rest) (bit, shift)) as [acc|e'] eqn:Hr; cbn [mbind result_bind]; [apply IH|].
  unfold read_field in Hr. destruct (_ =? 0)%N; [done|]. destruct rest; congruence.
Qed.

Lemma apply_instruction_shrinks base rest out :
  match apply_instruction base (rest, out) with
  | inl (rest', _) => length rest' < length rest
  | inr r => r <> Err DeltaOutOfFuel
  end.
Proof.
  unfold apply_instruction. destruct rest as [|b rest]; [done|]. destruct (negb _).
  - destruct (foldM _ _ offset_fields) as [[offset rest1]|e] eqn:H1; cbn [mbind result_bind].
    + destruct (foldM _ _ size_fields) as [[size rest2]|e] eqn:H2; cbn [mbind result_bind].
      * destruct (fail_if _ _) eqn:Hb; cbn [mbind result_bind].
        -- apply read_fields_length in H1, H2. cbn in *. lia.
        -- unfold fail_if in Hb. destruct (_ <? _)%N in Hb; [by injection Hb as <-|done].
      * intros [= ->]. revert H2. apply read_fields_no_fuel. done.
    + intros [= ->]. revert H1. apply read_fields_no_fuel. done.
  - destruct (_ =? 0)%N; [done|]. destruct (_ <? _)%N; [done|]. rewrite length_drop. cbn. lia.
Qed.

Lemma apply_instructions_no_fuel base code : apply_instructions base code <> Err DeltaOutOfFuel.
Proof.
  unfold apply_instructions.
  destruct (loop_total (apply_instruction base) (fun _ => True) (fun st => length (fst st)) (fun r => r <> Err DeltaOutOfFuel)
    (Pos.of_succ_nat (length code)) (code, [])) as (r & -> & Hr); [done|cbn; lia| |done].
  intros [rest out] _. pose proof (apply_instruction_shrinks base rest out) as Hs.
  destruct (apply_instruction base (rest, out)) as [[rest' out']|r]; done.
Qed.

(** ** Theorems *)

(** Varint round trip: for every [u64] value, decoding the encoded value
    followed by anything gives back the value and what follows, and the
    encoding takes between one and ten bytes. *)
Theorem size_varint_roundtrip n rest :
  (n < u64_modulus)%N ->
  decode_size_varint (encode_size_varint n ++ rest) = Ok (n, rest) /\
  1 <= length (encode_size_varint n) <= 10.
Proof.
  intros Hn. split; [by apply decode_encode_varint|]. unfold encode_size_varint. clear. split.
  - rewrite varint_groups_S. destruct (_ <? _)%N; cbn; lia.
  - generalize 10. intros fuel. revert n. induction fuel as [|fuel IH]; intros n; [cbn; lia|].
    rewrite varint_groups_S. destruct (_ <? _)%N; cbn; [specialize (IH (N.shiftr n 7)); lia|lia].
Qed.

Lemma size_varint_roundtrip_witness :
  encode_size_varint 300 = [Byte.xac; Byte.x02] /\
  decode_size_varint (encode_size_varint usize_max ++ [Byte.x07]) = Ok (usize_max, [Byte.x07]).
Proof. split; [reflexivity|]. refine (proj1 (size_varint_roundtrip usize_max [Byte.x07] _)). vm_compute. reflexivity. Defined.

(** Bounds of the varint decoder: whatever the bytes, a decoded size fits
    a [u64], at least one and at most ten bytes are read, and they are a prefix
    of the data. *)
Theorem decode_size_varint_bounds data value rest :
  decode_size_varint data = Ok (value, rest) ->
  (value < u64_modulus)%N /\ exists used, data = used ++ rest /\ 1 <= length used <= 10.
Proof.
  intros H. apply read_groups_bounds in H as (Hv & used & Hd & Hl & Hu); [|done].
  split; [exact Hv|]. exists used. split; [done|]. lia.
Qed.

Lemma decode_size_varint_bounds_witness :
  exists value rest, decode_size_varint [Byte.xff; Byte.x01; Byte.x09] = Ok (value, rest) /\ (value < u64_modulus)%N.
Proof.
  exists 255%N, [Byte.x09]. split; [vm_compute; reflexivity|].
  refine (proj1 (decode_size_varint_bounds [Byte.xff; Byte.x01; Byte.x09] 255 [Byte.x09] _)). vm_compute. reflexivity.
Defined.

(** Applying a delta: the decoder always terminates with a result or one
    of the code's errors, and what it accepts has exactly the two sizes of the
    header: that of the base and that of the output. *)
Theorem apply_git_binary_delta_sizes base delta :
  apply_git_binary_delta base delta <> Err DeltaOutOfFuel /\
  forall out, apply_git_binary_delta base delta = Ok out ->
    exists rest rest', decode_size_varint delta = Ok (N.of_nat (length base), rest) /\
      decode_size_varint rest = Ok (N.of_nat (length out), rest').
Proof.
  unfold apply_git_binary_delta.
  assert (forall data, decode_size_varint data <> Err DeltaOutOfFuel) as Hd.
  { unfold decode_size_varint. generalize 0%N at 1. generalize 0%N. intros s v data. revert s v.
    induction data as [|b data IH]; intros s v; cbn [read_groups]; [done|].
    destruct (_ =? 0)%N; [done|]. destruct (_ <? _)%N; [done|apply IH]. }
  destruct (decode_size_varint delta) as [[bs rest]|e] eqn:H1; cbn [mbind result_bind]; [|split; [intros [= ->]; by apply (Hd delta)|done]].
  destruct (N.eqb_spec bs (N.of_nat (length base))) as [->|]; cbn [negb fail_if mbind result_bind]; [|done].
  destruct (decode_size_varint rest) as [[ts rest']|e] eqn:H2; cbn [mbind result_bind]; [|split; [intros [= ->]; by apply (Hd rest)|done]].
  destruct (apply_instructions base rest') as [out|e] eqn:H3; cbn [mbind result_bind].
  - destruct (N.eqb_spec (N.of_nat (length out)) ts) as [<-|]; cbn [negb fail_if mbind result_bind]; [|done].
    split; [done|]. intros out' [= <-]. by exists rest, rest'.
  - split; [|done]. rewrite <- H3. apply apply_instructions_no_fuel.
Qed.

#[export] Hint Resolve decodes_nil decodes_app : ait.
