(* ===== verification/DeltaEncoder.v ===== *)
(** * The delta encoder

    Models [ait-core/src/pack_substrate/delta_encoder.rs]: the search for
    shifted matches under a comparison budget. Positions in the buffers are
    [nat]; hashes are [u64] values and the work counters are [N]. *)

From Stdlib Require Import NArith Lia.
From Stdlib Require Strings.Byte.
From stdpp Require Import base numbers gmap sets strings list.
From S2P Require Import Prelude PackCodec.

Definition CANDIDATES_PER_HASH : nat := 8.
Definition COMPARISON_BUDGET : N := 2097152%N.

Record Work : Type := mkWork {
  comparisons : N;
  candidates : N;
  anchors : N;
  exhausted : bool
}.
Definition default_work : Work := mkWork 0 0 0 false.
Definition set_comparisons (c : N) (exhausted : bool) (w : Work) : Work :=
  mkWork c (candidates w) (anchors w) exhausted.

Definition hash_step (h : N) (b : Byte.byte) : N := wrapping_add (wrapping_mul h 257) (Byte.to_N b + 1).
Definition seed_hash (l : bytes) : N := foldl hash_step 0%N l.

(** ** The index of the base *)

(** [(0..=base.len() - seed).step_by(seed)] *)
Definition anchor_offsets (base_len seed : nat) : list nat :=
  map (fun k => k * seed) (seq 0 (S ((base_len - seed) / seed))).

Definition slice (l : bytes) (from len : nat) : bytes := take len (drop from l).

Definition add_anchor (base : bytes) (seed : nat) (acc : gmap N (list nat) * N) (offset : nat) : gmap N (list nat) * N :=
  let '(index, anchors) := acc in
  let key := seed_hash (slice base offset seed) in
  let offsets := default [] (index !! key) in
  if Nat.ltb (length offsets) CANDIDATES_PER_HASH then (<[key := offsets ++ [offset]]> index, (anchors + 1)%N)
  else (<[key := offsets]> index, anchors).

Definition build_index (base : bytes) (seed : nat) : gmap N (list nat) * N :=
  foldl (add_anchor base seed) (∅, 0%N) (anchor_offsets (length base) seed).

(** ** The search *)

(** The inner comparison loops: [b] and [t] are the bytes still to compare,
    [n] counts the equal ones. The flag says that the budget ran out. *)
Fixpoint matching_run (budget : N) (b t : bytes) (n : nat) (compared : N) : nat * N * bool :=
  match b, t with
  | x :: b, y :: t =>
      if (compared =? budget)%N then (n, compared, true)
      else if bool_decide (x = y) then matching_run budget b t (S n) (compared + 1)
      else (n, (compared + 1)%N, false)
  | _, _ => (n, compared, false)
  end.

Record search_state : Type := mkSearch {
  at_ : nat;
  literal : nat;
  search_hash : N;
  search_out : bytes;
  work : Work
}.

(** One candidate offset of the bucket; [Err] is [break 'search]. *)
Definition try_candidate (base target : bytes) (budget : N) (seed at_ literal : nat)
    (acc : option (nat * nat * nat) * Work) (offset : nat) : result Work (option (nat * nat * nat) * Work) :=
  let '(best, w) := acc in
  let w := mkWork (comparisons w) (candidates w + 1) (anchors w) (exhausted w) in
  let '(len, compared, stop) := matching_run budget (drop offset base) (drop at_ target) 0 (comparisons w) in
  if stop then Err (set_comparisons compared true w)
  else
    let w := set_comparisons compared (exhausted w) w in
    if Nat.ltb len seed then Ok (best, w)
    else
      let '(left', compared, stop) :=
        matching_run budget (reverse (take offset base)) (reverse (drop literal (take at_ target))) 0 (comparisons w) in
      if stop then Err (set_comparisons compared true w)
      else
        let w := set_comparisons compared (exhausted w) w in
        let candidate := (offset - left', at_ - left', len + left') in
        let longer := match best with None => true | Some (_, _, l) => Nat.ltb l (len + left') end in
        Ok (if longer then Some candidate else best, w).

(** The hash of the window one position further; the guard keeps both indices
    in range. *)
Definition roll (target : bytes) (seed at_ : nat) (power hash : N) : N :=
  if Nat.ltb (at_ + seed) (length target) then
    let leaving := Byte.to_N (nth at_ target Byte.x00) in
    let entering := Byte.to_N (nth (at_ + seed) target Byte.x00) in
    wrapping_add (wrapping_mul (wrapping_sub hash (wrapping_mul (leaving + 1) power)) 257) (entering + 1)
  else hash.

Definition search_round (base target : bytes) (budget : N) (seed : nat) (index : gmap N (list nat)) (power : N)
    (st : search_state) : search_state + search_state :=
  if Nat.leb (at_ st + seed) (length target) then
    match foldM (try_candidate base target budget seed (at_ st) (literal st)) (None, work st)
            (default [] (index !! search_hash st)) with
    | Err w => inr (mkSearch (at_ st) (literal st) (search_hash st) (search_out st) w)
    | Ok (Some (offset, start, len), w) =>
        let out := append_insert_instructions (search_out st) (slice target (literal st) (start - literal st)) in
        let out := append_copy_instructions out offset len in
        let at' := start + len in
        let hash := if Nat.leb (at' + seed) (length target) then seed_hash (slice target at' seed) else search_hash st in
        inl (mkSearch at' at' hash out w)
    | Ok (None, w) =>
        inl (mkSearch (at_ st + 1) (literal st) (roll target seed (at_ st) power (search_hash st)) (search_out st) w)
    end
  else inr st.

Definition seed_power (seed : nat) : N := foldl (fun p _ => wrapping_mul p 257) 1%N (seq 0 (seed - 1)).

(** Every round moves [at_] forward. *)
Definition search_fuel (target : bytes) : positive := Pos.of_succ_nat (length target).

Definition seed_length (base target : bytes) : nat :=
  if (N.max (N.of_nat (length base)) (N.of_nat (length target)) <? 8192)%N then 8 else 16.

Definition initial_search (base target : bytes) (seed : nat) (out : bytes) : search_state :=
  mkSearch 0 0 (seed_hash (slice target 0 seed)) out
    (mkWork 0 0 (snd (build_index base seed)) false).

Definition run_search (base target : bytes) (budget : N) (seed : nat) (out : bytes) : search_state + search_state :=
  loop (search_round base target budget seed (fst (build_index base seed)) (seed_power seed)) (search_fuel target)
    (initial_search base target seed out).

Definition build_with_budget (base target : bytes) (budget : N) : bytes * Work :=
  let out := encode_size_varint (N.of_nat (length base)) ++ encode_size_varint (N.of_nat (length target)) in
  let seed := seed_length base target in
  if Nat.ltb (Nat.min (length base) (length target)) seed
     || (MAX_DELTA_BLOB_BYTES <? N.max (N.of_nat (length base)) (N.of_nat (length target)))%N
  then (append_insert_instructions out target, default_work)
  else
    match run_search base target budget seed out with
    | inl st | inr st => (append_insert_instructions (search_out st) (drop (literal st) target), work st)
    end.

Definition build (base target : bytes) : bytes := fst (build_with_budget base target COMPARISON_BUDGET).
Definition build_git_binary_delta (base_data target_data : bytes) : bytes := build base_data target_data.

(** ** Lemmas on one comparison run *)

Lemma matching_run_spec budget b t n c m c' stop :
  matching_run budget b t n c = (m, c', stop) ->
  n <= m /\ m - n <= length b /\ m - n <= length t /\ (forall k, k < m - n -> b !! k = t !! k) /\
  (c <= c')%N /\ ((c <= budget)%N -> (c' <= budget)%N) /\ (stop = true -> c' = budget).
Proof.
  revert t n c; induction b as [|x b IH]; intros t n c; cbn [matching_run].
  { intros [= <- <- <-]. split_and!; cbn; try lia; done. }
  destruct t as [|y t].
  { intros [= <- <- <-]. split_and!; cbn; try lia; done. }
  destruct (N.eqb_spec c budget) as [->|Hc].
  { intros [= <- <- <-]. split_and!; cbn; try lia; done. }
  case_bool_decide as Hxy.
  - subst y. intros H. apply IH in H as (Hn & Hb & Ht & Hk & Hcc & Hbu & Hst). cbn [length].
    split_and!; try lia; [|done]. intros [|k] Hlt; [done|]. cbn. apply Hk. lia.
  - intros [= <- <- <-]. split_and!; cbn; try lia; done.
Qed.

(** [n] bytes of the base at [offset] are those of the target at [start]. *)
Definition same_bytes (base target : bytes) (offset start n : nat) : Prop :=
  offset + n <= length base /\ start + n <= length target /\
  forall k, k < n -> base !! (offset + k) = target !! (start + k).

Lemma same_bytes_slice base target offset start n :
  same_bytes base target offset start n -> slice base offset n = slice target start n.
Proof.
  intros (Hb & Ht & Hk). apply list_eq. intros k. unfold slice. destruct (decide (k < n)).
  - rewrite !lookup_take_lt, !lookup_drop by done. by apply Hk.
  - rewrite !lookup_take_ge by lia. done.
Qed.

Lemma forward_run budget base target offset at_ c m c' stop :
  matching_run budget (drop offset base) (drop at_ target) 0 c = (m, c', stop) -> 0 < m ->
  same_bytes base target offset at_ m.
Proof.
  intros H Hm. apply matching_run_spec in H as (_ & Hb & Ht & Hk & _). rewrite length_drop in Hb, Ht.
  split_and!; [lia..|]. intros k Hlt. specialize (Hk k). rewrite !lookup_drop in Hk. apply Hk. lia.
Qed.

Lemma backward_run budget base target offset at_ literal c m c' stop :
  offset <= length base -> literal <= at_ -> at_ <= length target ->
  matching_run budget (reverse (take offset base)) (reverse (drop literal (take at_ target))) 0 c = (m, c', stop) ->
  m <= offset /\ m <= at_ - literal /\ same_bytes base target (offset - m) (at_ - m) m.
Proof.
  intros Ho Hl Ha H. apply matching_run_spec in H as (_ & Hb & Ht & Hk & _).
  rewrite length_reverse, length_take in Hb. rewrite length_reverse, length_drop, length_take in Ht.
  split_and!; [lia..|]. split_and!; [lia..|]. intros k Hlt.
  specialize (Hk (m - 1 - k)). rewrite !reverse_lookup in Hk by (rewrite ?length_drop, ?length_take; lia).
  rewrite lookup_drop, !length_drop, !length_take, !lookup_take_lt in Hk by lia.
  replace (offset - m + k) with (offset `min` length base - S (m - 1 - k)) by lia. rewrite Hk by lia. f_equal. lia.
Qed.

(** ** What the search keeps *)

(** A candidate for the copy at position [at_]. *)
Definition valid_candidate (base target : bytes) (seed at_ literal : nat) (c : nat * nat * nat) : Prop :=
  let '(offset, start, len) := c in
  literal <= start <= at_ /\ at_ + seed <= start + len /\ same_bytes base target offset start len.

(** The counters stay within the budget. *)
Definition work_ok (budget : N) (w : Work) : Prop :=
  (comparisons w <= budget)%N /\ (exhausted w = true -> comparisons w = budget).

Lemma try_candidate_spec base target budget seed at_ literal best w offset :
  0 < seed -> literal <= at_ -> at_ <= length target -> offset <= length base -> work_ok budget w -> exhausted w = false ->
  (forall c, best = Some c -> valid_candidate base target seed at_ literal c) ->
  match try_candidate base target budget seed at_ literal (best, w) offset with
  | Ok (best', w') => (forall c, best' = Some c -> valid_candidate base target seed at_ literal c) /\
      work_ok budget w' /\ exhausted w' = false
  | Err w' => work_ok budget w' /\ exhausted w' = true
  end.
Proof.
  intros Hs Hl Ha Ho [Hw Hex] Hne Hbest. unfold try_candidate. cbn [comparisons].
  destruct (matching_run budget (drop offset base) (drop at_ target) 0 (comparisons w)) as [[len c1] stop1] eqn:Hf.
  pose proof (matching_run_spec _ _ _ _ _ _ _ _ Hf) as (_ & _ & _ & _ & _ & Hc1 & Hst1).
  destruct stop1; [split; [|done]; split; cbn; auto|].
  destruct (Nat.ltb_spec len seed) as [|Hlen]; [split_and!; [done|split; cbn; naive_solver|done]|].
  pose proof (forward_run _ _ _ _ _ _ _ _ _ Hf) as (Hfb & Hft & Hfk); [lia|]. cbn [comparisons set_comparisons].
  destruct (matching_run budget (reverse _) (reverse _) 0 c1) as [[n c2] stop2] eqn:Hb.
  pose proof (matching_run_spec _ _ _ _ _ _ _ _ Hb) as (_ & _ & _ & _ & _ & Hc2 & Hst2).
  destruct stop2; [split; [|done]; split; cbn; auto|].
  apply backward_run in Hb as (Hno & Hna & Hbb & Hbt & Hbk); [|done..].
  split_and!; [|split; cbn; [auto|naive_solver]|done].
  assert (valid_candidate base target seed at_ literal (offset - n, at_ - n, len + n)) as Hv.
  { split_and!; [lia..|]. split_and!; [lia..|]. intros k Hk. destruct (decide (k < n)); [by apply Hbk|].
    replace (offset - n + k) with (offset + (k - n)) by lia. replace (at_ - n + k) with (at_ + (k - n)) by lia.
    apply Hfk. lia. }
  intros c. destruct best as [[[o s] l]|]; [destruct (Nat.ltb l (len + n))|]; try (by intros [= <-]). auto.
Qed.

(** Every indexed offset leaves room for a seed. *)
Definition index_ok (base : bytes) (index : gmap N (list nat)) : Prop :=
  forall key offsets, index !! key = Some offsets -> Forall (fun o => o <= length base) offsets /\ length offsets <= CANDIDATES_PER_HASH.

Lemma add_anchor_ok base seed index n offset :
  offset <= length base -> index_ok base index -> index_ok base (fst (add_anchor base seed (index, n) offset)).
Proof.
  intros Ho Hok key offsets. unfold add_anchor.
  assert (forall k, Forall (fun o => o <= length base) (default [] (index !! k)) /\ length (default [] (index !! k)) <= CANDIDATES_PER_HASH) as Hd.
  { intros k. destruct (index !! k) eqn:Hk; cbn; [by eapply Hok|]. split; [constructor|lia]. }
  specialize (Hd (seed_hash (slice base offset seed))) as [Hd1 Hd2].
  destruct (Nat.ltb_spec (length (default [] (index !! seed_hash (slice base offset seed)))) CANDIDATES_PER_HASH); cbn [fst];
    intros [[<- <-]|[_ Hk]]%lookup_insert_Some; try (by eapply Hok); split; try done.
  - apply Forall_app. auto.
  - rewrite length_app. cbn. lia.
Qed.

Lemma build_index_ok base seed : 0 < seed <= length base -> index_ok base (fst (build_index base seed)).
Proof.
  intros Hs. unfold build_index.
  assert (Forall (fun o => o <= length base) (anchor_offsets (length base) seed)) as Ho.
  { apply Forall_forall. intros o. unfold anchor_offsets. intros (k & -> & Hk)%list_elem_of_fmap.
    apply elem_of_seq in Hk. assert (k * seed <= length base - seed); [|lia].
    trans ((length base - seed) / seed * seed); [apply Nat.mul_le_mono_r; lia|]. rewrite Nat.mul_comm. apply Nat.Div0.mul_div_le. }
  assert (index_ok base (fst (∅ : gmap N (list nat), 0%N))) as H0 by (intros ? ?; cbn; by rewrite lookup_empty).
  revert H0. generalize (∅ : gmap N (list nat), 0%N). induction Ho as [|o l Ho _ IH]; intros [index n] H0; [done|].
  cbn [foldl]. apply IH. by apply add_anchor_ok.
Qed.

Lemma bucket_ok base index h : index_ok base index -> Forall (fun o => o <= length base) (default [] (index !! h)).
Proof. intros H. destruct (index !! h) eqn:Hh; cbn; [by eapply H|constructor]. Qed.

Lemma try_candidates_spec base target budget seed at_ literal w offsets :
  0 < seed -> literal <= at_ -> at_ <= length target -> Forall (fun o => o <= length base) offsets ->
  work_ok budget w -> exhausted w = false ->
  match foldM (try_candidate base target budget seed at_ literal) (None, w) offsets with
  | Ok (best, w') => (forall c, best = Some c -> valid_candidate base target seed at_ literal c) /\
      work_ok budget w' /\ exhausted w' = false
  | Err w' => work_ok budget w' /\ exhausted w' = true
  end.
Proof.
  intros Hs Hl Ha Ho Hw Hne.
  assert (forall c, (None : option (nat * nat * nat)) = Some c -> valid_candidate base target seed at_ literal c) as Hb by done.
  revert w Hw Hne Hb. generalize (None : option (nat * nat * nat)).
  induction Ho as [|o offsets Ho _ IH]; intros best w Hw Hne Hb; [done|]. cbn [foldM].
  pose proof (try_candidate_spec base target budget seed at_ literal best w o Hs Hl Ha Ho Hw Hne Hb) as Hstep.
  destruct (try_candidate _ _ _ _ _ _ _ _) as [[best' w']|w']; cbn [mbind result_bind]; [|done].
  apply IH; tauto.
Qed.

(** ** The invariant of the search *)

Section search.
Context (base target : bytes) (budget : N) (seed : nat) (index : gmap N (list nat)) (power : N) (header : bytes).
Hypothesis (Hseed : 0 < seed).
Hypothesis (Hindex : index_ok base index).
Hypothesis (Hbase : (N.of_nat (length base) <= 2 ^ 32)%N).

Record search_ok (st : search_state) : Prop := {
  so_order : literal st <= at_ st /\ at_ st <= length target;
  so_out : exists code, search_out st = header ++ code /\ decodes base code (take (literal st) target);
  so_work : work_ok budget (work st)
}.

(** The instructions of a copy and of the literals before it. *)
Lemma copy_decodes code lit offset start len :
  decodes base code (take lit target) -> lit <= start -> same_bytes base target offset start len ->
  decodes base (code ++ insert_chunks (length (slice target lit (start - lit))) (slice target lit (start - lit)) ++
    copy_chunks len offset len) (take (start + len) target).
Proof.
  intros Hc Hle Hsame. pose proof (same_bytes_slice _ _ _ _ _ Hsame) as Heq. destruct Hsame as (Hb & Ht & _).
  replace (take (start + len) target) with (take lit target ++ slice target lit (start - lit) ++ slice base offset len).
  - apply decodes_app; [done|]. apply decodes_app; [by apply insert_chunks_decodes|]. by apply copy_chunks_decodes.
  - rewrite Heq. unfold slice. rewrite <- (take_drop lit (take (start + len) target)), take_take.
    replace (lit `min` (start + len)) with lit by lia. f_equal.
    rewrite <- (take_drop (start - lit) (drop lit (take (start + len) target))).
    rewrite !skipn_firstn_comm, take_take, drop_drop. f_equal; [f_equal; lia|].
    replace (lit + (start - lit)) with start by lia. f_equal. lia.
Qed.

Lemma search_round_ok st :
  search_ok st -> exhausted (work st) = false ->
  match search_round base target budget seed index power st with
  | inl st' => search_ok st' /\ exhausted (work st') = false /\ at_ st < at_ st'
  | inr st' => search_ok st'
  end.
Proof.
  intros [[Hl Ha] (code & Ho & Hc) Hw] Hne. unfold search_round.
  destruct (Nat.leb_spec (at_ st + seed) (length target)) as [Hat|]; [|by split; eauto].
  pose proof (try_candidates_spec base target budget seed (at_ st) (literal st) (work st) (default [] (index !! search_hash st))
    Hseed Hl Ha (bucket_ok _ _ _ Hindex) Hw Hne) as Hcand.
  destruct (foldM _ _ _) as [[[[[offset start] len]|] w]|w].
  - destruct Hcand as (Hbest & Hw' & Hne'). destruct (Hbest _ eq_refl) as ([Hs1 Hs2] & Hlen & Hsame).
    pose proof Hsame as (Hb & Ht & _). cbn. split_and!; [|done|lia]. split; cbn; [lia| |done].
    exists (code ++ insert_chunks (length (slice target (literal st) (start - literal st))) (slice target (literal st) (start - literal st)) ++
      copy_chunks len offset len). split; [|by apply copy_decodes].
    unfold append_copy_instructions, append_insert_instructions. by rewrite Ho, <- !app_assoc.
  - destruct Hcand as (_ & Hw' & Hne'). cbn. split_and!; [|done|lia]. split; cbn; [lia| |done]. by exists code.
  - destruct Hcand as (Hw' & _). split; cbn; [done| |done]. by exists code.
Qed.

Lemma search_total p st : search_ok st -> exhausted (work st) = false -> length target - at_ st < Pos.to_nat p ->
  exists st', loop (search_round base target budget seed index power) p st = inr st' /\ search_ok st'.
Proof.
  intros Hst Hne Hm.
  apply (loop_total _ (fun st => search_ok st /\ exhausted (work st) = false) (fun st => length target - at_ st)); [done..|].
  intros s [Hs Hsn]. pose proof (search_round_ok s Hs Hsn) as Hr.
  destruct (search_round base target budget seed index power s); [|done].
  destruct Hr as (Hok & Hn & Hat). split; [done|]. pose proof (so_order _ Hok). lia.
Qed.
End search.

Lemma seed_length_pos base target : 0 < seed_length base target.
Proof. unfold seed_length. destruct (_ <? _)%N; lia. Qed.

Lemma initial_search_ok base target budget seed header :
  search_ok base target budget header (initial_search base target seed header).
Proof.
  split; cbn; [lia| |split; cbn; [lia|done]]. exists []. rewrite app_nil_r. split; [done|]. rewrite take_0. apply decodes_nil.
Qed.

(** The search of a base and a target within the size policy. *)
Lemma run_search_total base target budget header :
  (N.of_nat (length base) <= MAX_DELTA_BLOB_BYTES)%N -> seed_length base target <= length base ->
  exists st, run_search base target budget (seed_length base target) header = inr st /\
    search_ok base target budget header st.
Proof.
  intros Hb Hs. pose proof (seed_length_pos base target). apply search_total.
  - done.
  - by apply build_index_ok.
  - etrans; [exact Hb|done].
  - apply initial_search_ok.
  - done.
  - unfold search_fuel. cbn [at_ initial_search]. lia.
Qed.

Lemma build_with_budget_spec base target budget :
  exists code, fst (build_with_budget base target budget) = delta_header base target ++ code /\ decodes base code target /\
    work_ok budget (snd (build_with_budget base target budget)).
Proof.
  unfold build_with_budget. destruct (Nat.ltb_spec (length base `min` length target) (seed_length base target)) as [|Hmin]; cbn [orb].
  - exists (insert_chunks (length target) target). split; [done|].
    split; [by apply insert_chunks_decodes|split; cbn; [lia|done]].
  - destruct (N.ltb_spec MAX_DELTA_BLOB_BYTES (N.max (N.of_nat (length base)) (N.of_nat (length target)))) as [|Hmax].
    + exists (insert_chunks (length target) target). split; [done|].
      split; [by apply insert_chunks_decodes|split; cbn; [lia|done]].
    + destruct (run_search_total base target budget (delta_header base target)) as (st & Hst & [_ (code & Ho & Hc) Hw]); [lia|lia|].
      unfold delta_header in Hst. rewrite Hst. cbn [fst snd].
      exists (code ++ insert_chunks (length (drop (literal st) target)) (drop (literal st) target)). split_and!.
      * unfold append_insert_instructions. by rewrite Ho, <- app_assoc.
      * rewrite <- (take_drop (literal st) target) at 3. apply decodes_app; [done|]. by apply insert_chunks_decodes.
      * done.
Qed.

Lemma apply_build_with_budget base target budget :
  (N.of_nat (length base) < u64_modulus)%N -> (N.of_nat (length target) < u64_modulus)%N ->
  apply_git_binary_delta base (fst (build_with_budget base target budget)) = Ok target.
Proof.
  intros Hb Ht. destruct (build_with_budget_spec base target budget) as (code & -> & Hc & _).
  by apply apply_delta_decodes.
Qed.

(** ** The rolling hash *)

(** The hash without wrap-around. *)
Definition poly_hash (l : bytes) : N := foldl (fun h b => h * 257 + (Byte.to_N b + 1))%N 0%N l.

Lemma seed_hash_poly l : seed_hash l = (poly_hash l mod u64_modulus)%N.
Proof.
  unfold seed_hash, poly_hash. assert (0 = 0 mod u64_modulus)%N as H0 by done. rewrite H0 at 1. clear H0.
  generalize 0%N. induction l as [|b l IH]; intros h; cbn [foldl]; [done|].
  rewrite <- IH. f_equal. unfold hash_step, wrapping_add, wrapping_mul.
  rewrite N.Div0.mul_mod_idemp_l, N.Div0.add_mod_idemp_l. done.
Qed.

Lemma poly_hash_snoc l b : poly_hash (l ++ [b]) = (poly_hash l * 257 + (Byte.to_N b + 1))%N.
Proof. unfold poly_hash. by rewrite foldl_app. Qed.

Lemma poly_hash_cons b l : poly_hash (b :: l) = ((Byte.to_N b + 1) * 257 ^ N.of_nat (length l) + poly_hash l)%N.
Proof.
  induction l as [|c l IH] using rev_ind; [cbn; lia|].
  rewrite app_comm_cons, !poly_hash_snoc, IH, length_app, Nat2N.inj_add, N.pow_add_r.
  change (257 ^ N.of_nat (length [c]))%N with 257%N. lia.
Qed.

Lemma seed_power_eq seed : seed_power seed = (257 ^ N.of_nat (seed - 1) mod u64_modulus)%N.
Proof.
  unfold seed_power. generalize 0 at 1. generalize (seed - 1). intros n s.
  assert (forall p, foldl (fun p (_ : nat) => wrapping_mul p 257) (p mod u64_modulus)%N (seq s n) = ((p * 257 ^ N.of_nat n) mod u64_modulus)%N) as Hgen.
  { revert s. induction n as [|n IH]; intros s p; [by rewrite N.mul_1_r|]. cbn [seq foldl].
    unfold wrapping_mul at 2. rewrite N.Div0.mul_mod_idemp_l, IH, Nat2N.inj_succ, N.pow_succ_r'. f_equal. lia. }
  specialize (Hgen 1%N). by rewrite N.mul_1_l in Hgen.
Qed.

Lemma wrapping_sub_add a b : wrapping_sub ((a + b) mod u64_modulus) (a mod u64_modulus) = (b mod u64_modulus)%N.
Proof.
  unfold wrapping_sub. rewrite N.Div0.mod_mod, N.Div0.add_mod_idemp_l.
  pose proof (N.div_mod a u64_modulus ltac:(done)) as Hd. pose proof (N.mod_upper_bound a u64_modulus ltac:(done)).
  replace (a + b + (u64_modulus - a mod u64_modulus))%N with (b + (a / u64_modulus + 1) * u64_modulus)%N by lia.
  apply N.Div0.mod_add.
Qed.

(** Moving the window by one byte. *)
Lemma roll_step x l y :
  wrapping_add (wrapping_mul (wrapping_sub (seed_hash (x :: l))
    (wrapping_mul (Byte.to_N x + 1) (257 ^ N.of_nat (length l) mod u64_modulus))) 257) (Byte.to_N y + 1) =
  seed_hash (l ++ [y]).
Proof.
  rewrite !seed_hash_poly, poly_hash_cons, poly_hash_snoc. unfold wrapping_mul at 2.
  rewrite N.Div0.mul_mod_idemp_r, wrapping_sub_add. unfold wrapping_add, wrapping_mul.
  by rewrite N.Div0.mul_mod_idemp_l, N.Div0.add_mod_idemp_l.
Qed.

Lemma slice_cons (l : bytes) i n : i < length l -> slice l i (S n) = nth i l Byte.x00 :: slice l (S i) n.
Proof.
  intros Hi. unfold slice. destruct (lookup_lt_is_Some_2 l i Hi) as [x Hx].
  rewrite (drop_S l x i) by done. cbn. by rewrite (nth_lookup_Some l i Byte.x00 x).
Qed.

Lemma slice_snoc (l : bytes) i n : i + n < length l -> slice l i (S n) = slice l i n ++ [nth (i + n) l Byte.x00].
Proof.
  intros Hi. unfold slice. destruct (lookup_lt_is_Some_2 l (i + n) Hi) as [x Hx].
  rewrite (take_S_r (drop i l) n x) by (by rewrite lookup_drop). by rewrite (nth_lookup_Some l (i + n) Byte.x00 x).
Qed.

Definition hash_exact (target : bytes) (seed : nat) (st : search_state) : Prop :=
  at_ st + seed <= length target -> search_hash st = seed_hash (slice target (at_ st) seed).

Lemma roll_exact target seed i :
  0 < seed -> i + 1 + seed <= length target ->
  roll target seed i (seed_power seed) (seed_hash (slice target i seed)) = seed_hash (slice target (i + 1) seed).
Proof.
  intros Hs Hi. unfold roll. rewrite (proj2 (Nat.ltb_lt _ _)) by lia.
  destruct seed as [|n]; [lia|]. rewrite (slice_cons target i n) by lia.
  rewrite (slice_snoc target (i + 1) n) by lia. replace (S i) with (i + 1) by lia.
  rewrite <- (roll_step (nth i target Byte.x00)). rewrite seed_power_eq.
  replace (length (slice target (i + 1) n)) with (S n - 1) by (unfold slice; rewrite length_take, length_drop; lia).
  do 3 f_equal. f_equal. lia.
Qed.

Lemma search_round_hash base target budget seed index st st' :
  0 < seed -> hash_exact target seed st ->
  search_round base target budget seed index (seed_power seed) st = inl st' -> hash_exact target seed st'.
Proof.
  intros Hs Hh. unfold search_round. destruct (Nat.leb_spec (at_ st + seed) (length target)) as [Hat|]; [|done].
  destruct (foldM _ _ _) as [[[[[offset start] len]|] w]|w]; [| |done].
  - intros [= <-] Hle. cbn in *. by rewrite (proj2 (Nat.leb_le _ _)).
  - intros [= <-] Hle. cbn in *. rewrite Hh by done. apply roll_exact; [done|lia].
Qed.

(** ** Theorems *)

(** C2. Delta round trip: whatever the base, the target and the comparison
    budget, applying the delta that the encoder built gives back the target;
    hash collisions, an exhausted budget and files above the size policy only
    change its length. *)
Theorem delta_roundtrip base target budget :
  (N.of_nat (length base) < u64_modulus)%N -> (N.of_nat (length target) < u64_modulus)%N ->
  apply_git_binary_delta base (fst (build_with_budget base target budget)) = Ok target.
Proof. apply apply_build_with_budget. Qed.

(** A base of 100 bytes, and a target made of two parts of it and two new
    bytes. *)
Definition example_base : bytes := map (fun k => byte_of_N (N.of_nat (k * k + 7))) (seq 0 100).
Definition example_target : bytes := take 40 example_base ++ [Byte.x01; Byte.x02] ++ drop 33 example_base.

Lemma delta_roundtrip_witness :
  length (build example_base example_target) = 10 /\
  apply_git_binary_delta example_base (fst (build_with_budget example_base example_target 50)) = Ok example_target.
Proof. split; [vm_compute; reflexivity|]. apply (delta_roundtrip example_base example_target 50); vm_compute; reflexivity. Defined.

(** Bounded work: the encoder compares at most [budget] pairs of bytes,
    it reports exhaustion only when the budget is used up, its search loop
    always ends by its own condition, and no bucket of the index holds more
    than eight offsets. *)
Theorem delta_work_bounded base target budget :
  (comparisons (snd (build_with_budget base target budget)) <= budget)%N /\
  (exhausted (snd (build_with_budget base target budget)) = true ->
   comparisons (snd (build_with_budget base target budget)) = budget) /\
  (seed_length base target <= length base -> (N.of_nat (length base) <= MAX_DELTA_BLOB_BYTES)%N ->
   (exists st, run_search base target budget (seed_length base target) (delta_header base target) = inr st) /\
   forall key offsets, fst (build_index base (seed_length base target)) !! key = Some offsets ->
     length offsets <= CANDIDATES_PER_HASH).
Proof.
  destruct (build_with_budget_spec base target budget) as (_ & _ & _ & Hw & Hex). split_and!; [done..|].
  intros Hs Hb. split.
  - destruct (run_search_total base target budget (delta_header base target) Hb Hs) as (st & Hst & _). by exists st.
  - intros key offsets Hk. pose proof (seed_length_pos base target).
    by eapply (build_index_ok base (seed_length base target)).
Qed.

(** The rolling hash is the seed hash: in every state the search reaches,
    the hash it looks up, updated by one subtraction, multiplication and
    addition modulo [2 ^ 64], equals the hash of the window at the current
    position computed from scratch. *)
Theorem rolling_hash_exact base target budget header n st :
  let seed := seed_length base target in
  steps (search_round base target budget seed (fst (build_index base seed)) (seed_power seed)) n
    (initial_search base target seed header) = inl st ->
  at_ st + seed <= length target -> search_hash st = seed_hash (slice target (at_ st) seed).
Proof.
  intros seed. pose proof (seed_length_pos base target) as Hs. fold seed in Hs.
  enough (forall st0, hash_exact target seed st0 ->
    steps (search_round base target budget seed (fst (build_index base seed)) (seed_power seed)) n st0 = inl st ->
    hash_exact target seed st) as Hgen.
  { intros Hn. eapply Hgen; [|exact Hn]. by intros _. }
  induction n as [|n IH]; intros st0 H0; cbn [steps]; [by intros [= <-]|].
  destruct (search_round _ _ _ _ _ _ st0) as [st1|] eqn:Hr; [|done].
  apply IH. by eapply search_round_hash.
Qed.

Lemma rolling_hash_exact_witness :
  exists st, steps (search_round example_base example_target 50 8 (fst (build_index example_base 8)) (seed_power 8)) 2
    (initial_search example_base example_target 8 []) = inl st /\
    search_hash st = seed_hash (slice example_target (at_ st) 8).
Proof.
  eexists. split; [vm_compute; reflexivity|].
  refine (rolling_hash_exact example_base example_target 50 [] 2 _ _ _); [vm_compute; reflexivity|].
  apply Nat.leb_le. vm_compute. reflexivity.
Defined.
