(* ===== verification/PackMembers.v ===== *)
(** * Selecting delta members

    [build_typed_pack_members] of [ait-core/src/pack_substrate/object.rs] with
    the types of [pack_substrate/types.rs] it uses: which blobs of a pack are
    written as deltas of which base. *)

From Stdlib Require Import NArith Lia.
From Stdlib Require Strings.Byte.
From stdpp Require Import base numbers fin_sets gmap strings list.
From S2P Require Import Prelude PackCodec DeltaEncoder.

Record PackCandidate : Type := mkCandidate {
  pc_entry_name : string;
  pc_blob_id : string;
  pc_data : bytes;
  pc_path_hint : option string;
  pc_chain_depth : N
}.

Record ObjectPackWriteMember : Type := mkMember {
  wm_entry_name : string;
  wm_blob_id : string;
  wm_data : bytes;
  wm_logical_data : option bytes;
  wm_entry_type : string;
  wm_base_blob_id : option string;
  wm_chain_depth : N;
  wm_delta_algorithm : option string
}.

(** [member.logical_data.as_deref().unwrap_or(&member.data)] *)
Definition logical_bytes (m : ObjectPackWriteMember) : bytes := default (wm_data m) (wm_logical_data m).

Definition full_member (item : PackCandidate) : ObjectPackWriteMember :=
  mkMember (pc_entry_name item) (pc_blob_id item) (pc_data item) None "full" None 0 None.

Definition delta_member (item base : PackCandidate) (delta_data : bytes) : ObjectPackWriteMember :=
  mkMember (pc_entry_name item) (pc_blob_id item) delta_data (Some (pc_data item)) "delta"
    (Some (pc_blob_id base)) (pc_chain_depth base + 1) (Some PACK_DELTA_GIT_BINARY_V1).

(** [(MIN_DELTA_BLOB_BYTES..=MAX_DELTA_BLOB_BYTES).contains(&data.len())] *)
Definition delta_sized (data : bytes) : bool :=
  (MIN_DELTA_BLOB_BYTES <=? N.of_nat (length data))%N && (N.of_nat (length data) <=? MAX_DELTA_BLOB_BYTES)%N.

Definition select_member (max_delta_chain_depth : N) (item : PackCandidate) (base : option PackCandidate)
  : ObjectPackWriteMember :=
  match base with
  | None => full_member item
  | Some base =>
      if negb (bool_decide (pc_blob_id base = pc_blob_id item)) && (pc_chain_depth base <? max_delta_chain_depth)%N
         && delta_sized (pc_data item) && delta_sized (pc_data base)
      then
        let delta_data := build_git_binary_delta (pc_data base) (pc_data item) in
        if (N.of_nat (length delta_data) + MIN_DELTA_SAVINGS_BYTES <? N.of_nat (length (pc_data item)))%N
        then delta_member item base delta_data
        else full_member item
      else full_member item
  end.

(** One iteration over the candidates; the state is [members] and
    [latest_by_path]. *)
Definition pack_item (max_delta_chain_depth : N) (acc : list ObjectPackWriteMember * gmap string PackCandidate)
    (item : PackCandidate) : list ObjectPackWriteMember * gmap string PackCandidate :=
  let '(members, latest_by_path) := acc in
  let base_candidate := pc_path_hint item ≫= fun path => latest_by_path !! path in
  let member := select_member max_delta_chain_depth item base_candidate in
  let latest_by_path :=
    match pc_path_hint item with
    | Some path_hint =>
        <[path_hint := mkCandidate (pc_entry_name item) (pc_blob_id item) (pc_data item) None (wm_chain_depth member)]>
          latest_by_path
    | None => latest_by_path
    end in
  (members ++ [member], latest_by_path).

Definition build_typed_pack_members (candidates : list PackCandidate) (max_delta_chain_depth : N)
    (initial_by_path : option (gmap string PackCandidate)) : list ObjectPackWriteMember :=
  fst (foldl (pack_item max_delta_chain_depth) ([], default ∅ initial_by_path) candidates).

(** ** Specification *)

(** [base] is what a delta may be built on: an initial base, or a candidate
    already packed, with the depth of its member. *)
Definition known_base (initial : gmap string PackCandidate) (items : list PackCandidate)
    (members : list ObjectPackWriteMember) (base : PackCandidate) : Prop :=
  (exists path, initial !! path = Some base) \/
  (exists k item member, items !! k = Some item /\ members !! k = Some member /\
     pc_blob_id base = pc_blob_id item /\ pc_data base = pc_data item /\ pc_chain_depth base = wm_chain_depth member).

(** [member] stores [item]: in full, or as a smaller delta that decodes to it
    from a known base within the depth limit. *)
Definition stores_item (max : N) (initial : gmap string PackCandidate) (items : list PackCandidate)
    (members : list ObjectPackWriteMember) (item : PackCandidate) (member : ObjectPackWriteMember) : Prop :=
  member = full_member item \/
  exists base delta_data, member = delta_member item base delta_data /\ known_base initial items members base /\
    pc_blob_id base <> pc_blob_id item /\ (wm_chain_depth member <= max)%N /\
    (N.of_nat (length (pc_data base)) <= MAX_DELTA_BLOB_BYTES)%N /\
    (N.of_nat (length delta_data) + MIN_DELTA_SAVINGS_BYTES < N.of_nat (length (pc_data item)))%N /\
    apply_git_binary_delta (pc_data base) delta_data = Ok (pc_data item).

(** ** Lemmas *)

Lemma delta_sized_bound data : delta_sized data = true -> (N.of_nat (length data) <= MAX_DELTA_BLOB_BYTES)%N.
Proof. unfold delta_sized. intros [_ H]%andb_true_iff. by apply N.leb_le in H. Qed.

Lemma select_member_spec max initial items members item base :
  (forall b, base = Some b -> known_base initial items members b) ->
  stores_item max initial items members item (select_member max item base).
Proof.
  intros Hb. unfold select_member. destruct base as [base|]; [|by left].
  destruct (_ && _ && _ && _) eqn:Hcond; [|by left].
  apply andb_true_iff in Hcond as [Hcond Hsb]. apply andb_true_iff in Hcond as [Hcond Hsi].
  apply andb_true_iff in Hcond as [Hne Hdepth]. apply negb_true_iff, bool_decide_eq_false in Hne. apply N.ltb_lt in Hdepth.
  apply delta_sized_bound in Hsb, Hsi.
  destruct (N.ltb_spec (N.of_nat (length (build_git_binary_delta (pc_data base) (pc_data item))) + MIN_DELTA_SAVINGS_BYTES)
    (N.of_nat (length (pc_data item)))) as [Hsave|]; [|by left].
  right. exists base, (build_git_binary_delta (pc_data base) (pc_data item)). split_and!; [done|by apply Hb|done|cbn; lia|done..|].
  apply apply_build_with_budget; unfold MAX_DELTA_BLOB_BYTES, u64_modulus in *; lia.
Qed.

Lemma known_base_app initial items members base item member :
  length items = length members -> known_base initial items members base ->
  known_base initial (items ++ [item]) (members ++ [member]) base.
Proof.
  intros Hl [Hi|(k & i & m & Hk & Hm & Hrest)]; [by left|right].
  exists k, i, m. split; [by apply lookup_app_l_Some|]. split; [by apply lookup_app_l_Some|done].
Qed.

Lemma known_base_last initial items members base item member :
  length items = length members -> pc_blob_id base = pc_blob_id item -> pc_data base = pc_data item ->
  pc_chain_depth base = wm_chain_depth member -> known_base initial (items ++ [item]) (members ++ [member]) base.
Proof.
  intros Hl H1 H2 H3. right. exists (length items), item, member.
  split_and!; [by rewrite list_lookup_middle|by rewrite Hl, list_lookup_middle|done..].
Qed.

(** The state after packing [items]. *)
Record pack_inv (max : N) (initial : gmap string PackCandidate) (items : list PackCandidate)
    (acc : list ObjectPackWriteMember * gmap string PackCandidate) : Prop := {
  pi_length : length items = length (fst acc);
  pi_latest : forall path b, snd acc !! path = Some b -> known_base initial items (fst acc) b;
  pi_members : forall k item member, items !! k = Some item -> fst acc !! k = Some member ->
    stores_item max initial (take k items) (take k (fst acc)) item member
}.

Lemma pack_item_inv max initial items acc item :
  pack_inv max initial items acc -> pack_inv max initial (items ++ [item]) (pack_item max acc item).
Proof.
  intros [Hl Hlat Hm]. destruct acc as [members latest]. cbn [fst snd] in *. unfold pack_item.
  set (base := pc_path_hint item ≫= fun path => latest !! path). set (member := select_member max item base).
  assert (stores_item max initial items members item member) as Hst.
  { apply select_member_spec. intros b Hb. unfold base in Hb. destruct (pc_path_hint item); [|done]. by eapply Hlat. }
  split; cbn [fst snd].
  - rewrite !length_app, Hl. done.
  - intros path b. destruct (pc_path_hint item) as [hint|].
    + intros [[<- <-]|[_ Hb]]%lookup_insert_Some; [by apply known_base_last|]. apply known_base_app; [done|by eapply Hlat].
    + intros Hb. apply known_base_app; [done|by eapply Hlat].
  - intros k i m Hi Hk. apply lookup_app_Some in Hi as [Hi|[Hge Hi]].
    + pose proof (lookup_lt_Some _ _ _ Hi). rewrite lookup_app_l in Hk by lia.
      rewrite !take_app_le by lia. by apply Hm.
    + destruct (k - length items) as [|d] eqn:Hd; [|by destruct d]. injection Hi as <-.
      replace k with (length members) in * by lia. rewrite list_lookup_middle in Hk by done. injection Hk as <-.
      rewrite <- Hl at 1. by rewrite !take_app_length.
Qed.

Lemma build_typed_pack_members_inv candidates max initial :
  pack_inv max (default ∅ initial) candidates
    (foldl (pack_item max) ([], default ∅ initial) candidates).
Proof.
  set (init := default ∅ initial).
  enough (forall rest items acc, pack_inv max init items acc -> pack_inv max init (items ++ rest) (foldl (pack_item max) acc rest)) as Hgen.
  { apply (Hgen candidates []). split; cbn; [done| |done]. intros path b Hb. left. by exists path. }
  induction rest as [|item rest IH]; intros items acc Hinv; cbn [foldl]; [by rewrite app_nil_r|].
  replace (items ++ item :: rest) with ((items ++ [item]) ++ rest) by (by rewrite <- app_assoc).
  apply IH. by apply pack_item_inv.
Qed.

Lemma build_typed_pack_members_length candidates max initial :
  length (build_typed_pack_members candidates max initial) = length candidates.
Proof. symmetry. apply (pi_length _ _ _ _ (build_typed_pack_members_inv candidates max initial)). Qed.

(** ** Theorem *)

(** Delta selection: every candidate gets one member, in order, which
    stores it either in full or as a delta; a delta is at least 17 bytes
    smaller than the blob, is built on a different blob that is an initial
    base or an earlier member, has a depth one more than its base and at most
    the limit, and decodes to the candidate's data from that base. *)
Theorem build_typed_pack_members_spec candidates max initial :
  let members := build_typed_pack_members candidates max initial in
  length members = length candidates /\
  forall k item member, candidates !! k = Some item -> members !! k = Some member ->
    stores_item max (default ∅ initial) (take k candidates) (take k members) item member.
Proof.
  cbn zeta. split; [apply build_typed_pack_members_length|].
  apply (pi_members _ _ _ _ (build_typed_pack_members_inv candidates max initial)).
Qed.
