(* ===== verification/PackIndex.v ===== *)
(** * The binary index of a chunked pack

    Models the index and trailer codec of
    [ait-core/src/pack_substrate/zstd/frame_index.rs]. A cursor into a buffer
    is the suffix that starts there; [usize], [u32] and [u64] fields are [N]. *)

From Stdlib Require Import NArith Lia.
From Stdlib Require Strings.Byte.
From stdpp Require Import base numbers sets strings list.
From S2P Require Import Prelude Text Codec.

Definition ZSTD_CHUNKED_VERSION : N := 1%N.
Definition ZSTD_CHUNKED_TRAILER_MAGIC : bytes := bytes_of_string "AITZSTP1".
Definition ZSTD_CHUNKED_INDEX_MAGIC : bytes := bytes_of_string "AITZIDX1".
Definition ZSTD_CHUNKED_TRAILER_LEN : nat := 8 + 4 + 8 + 8 + 32.
Definition PACK_FORMAT_ZSTD_CHUNKED_V1 : string := "ait-pack-v3-zstd-chunked".
Definition ZSTD_CHUNKED_OBJECT_INDEX_ENTRY_NAME : string := "zstd-chunked-object-index".
Definition ZSTD_CHUNKED_TREE_INDEX_ENTRY_NAME : string := "zstd-chunked-tree-index".
Definition ZSTD_CHUNKED_INDEX_KIND_OBJECT : N := 1%N.
Definition ZSTD_CHUNKED_INDEX_KIND_TREE : N := 2%N.
Definition CONTENT_ADDRESSED_PACK_INDEX_CREATED_AT : string := "1970-01-01T00:00:00Z".

Inductive index_error : Type :=
| Truncated (label : string)
| BadIndexMagic
| UnsupportedIndexVersion (version : N)
| IndexKindMismatch
| TrailingIndexBytes
| BadTrailerMagic
| UnsupportedTrailerVersion (version : N)
| TrailingTrailerBytes
| NotUtf8 (label : string)
| InvalidOptionTag (label : string) (tag : N)
| ExceedsU32 (label : string)
| ExceedsU64 (label : string)
| ChecksumLength
| ChecksumDigits
| PanicCharBoundary.

(** ** Data *)

Record ZstdChunkedChunkIndex : Type := mkChunk {
  ck_chunk_ordinal : N;
  ck_compressed_offset : N;
  ck_compressed_len : N;
  ck_raw_len : N;
  ck_checksum : string
}.

Record ZstdChunkedMemberIndex : Type := mkIndexMember {
  mb_member_ordinal : N;
  mb_entry_name : string;
  mb_content_id : string;
  mb_entry_type : string;
  mb_entry_count : option N;
  mb_base_content_id : option string;
  mb_delta_algorithm : option string;
  mb_chain_depth : N;
  mb_chunk_ordinal : N;
  mb_in_chunk_offset : N;
  mb_stored_len : N;
  mb_logical_len : N;
  mb_checksum : string
}.

Record ZstdChunkedPackIndex : Type := mkPackIndex {
  px_pack_format : string;
  px_pack_id : string;
  px_created_at : string;
  px_index_entry_name : string;
  px_chunks : list ZstdChunkedChunkIndex;
  px_members : list ZstdChunkedMemberIndex
}.

(** ** Hex checksums *)

Definition hex_digit (n : N) : Byte.byte := byte_of_N (if (n <? 10)%N then 48 + n else 87 + n).
(** [format!("{byte:02x}")] for each byte. *)
Definition hex_bytes (data : bytes) : bytes :=
  concat (map (fun b => [hex_digit (Byte.to_N b / 16); hex_digit (Byte.to_N b mod 16)]) data).
Definition hex_string (data : bytes) : string := string_of_bytes (hex_bytes data).

Definition digit_value (b : Byte.byte) : option N :=
  let n := Byte.to_N b in
  (if (48 <=? n) && (n <=? 57) then Some (n - 48)
   else if (97 <=? n) && (n <=? 102) then Some (n - 87)
   else if (65 <=? n) && (n <=? 70) then Some (n - 55)
   else None)%N.

(** [u8::from_str_radix(.., 16)] of two bytes; a leading plus sign is a sign. *)
Definition radix16 (a b : Byte.byte) : option N :=
  if (Byte.to_N a =? 43)%N then digit_value b
  else x ← digit_value a; y ← digit_value b; Some (16 * x + y)%N.

Definition continuation (b : Byte.byte) : bool := (128 <=? Byte.to_N b)%N && (Byte.to_N b <=? 191)%N.

(** The loop over the 32 slots; slicing panics inside a character. *)
Fixpoint hex_pairs (l : bytes) : result index_error bytes :=
  match l with
  | a :: b :: l =>
      _ ← fail_if (match l with c :: _ => continuation c | [] => false end) PanicCharBoundary;
      v ← ok_or (radix16 a b) ChecksumDigits;
      rest ← hex_pairs l;
      Ok (byte_of_N v :: rest)
  | _ => Ok []
  end.

Definition checksum_bytes_from_hex (value : string) : result index_error bytes :=
  let trimmed := bytes_of_string (trim value) in
  _ ← fail_if (negb (bool_decide (length trimmed = 64))) ChecksumLength;
  hex_pairs trimmed.

(** ** Writing fields *)

Definition usize_to_u32 (value : N) (label : string) : result index_error N :=
  if (value <? 4294967296)%N then Ok value else Err (ExceedsU32 label).

Definition usize_to_u64 (value : N) (label : string) : result index_error N :=
  if (value <? u64_modulus)%N then Ok value else Err (ExceedsU64 label).

Definition push_u8 (out : bytes) (value : N) : bytes := out ++ [byte_of_N value].
Definition push_u32 (out : bytes) (value : N) : bytes := out ++ to_le_bytes 4 value.
Definition push_u64 (out : bytes) (value : N) : bytes := out ++ to_le_bytes 8 value.
Definition push_usize32 (out : bytes) (value : N) (label : string) : result index_error bytes :=
  v ← usize_to_u32 value label; Ok (push_u32 out v).
Definition push_usize64 (out : bytes) (value : N) (label : string) : result index_error bytes :=
  v ← usize_to_u64 value label; Ok (push_u64 out v).
Definition push_string (out : bytes) (value : string) : result index_error bytes :=
  let data := bytes_of_string value in
  out ← push_usize32 out (N.of_nat (length data)) "string_len";
  Ok (out ++ data).
Definition push_option_string (out : bytes) (value : option string) : result index_error bytes :=
  match value with Some value => push_string (push_u8 out 1) value | None => Ok (push_u8 out 0) end.
Definition push_option_usize (out : bytes) (value : option N) : result index_error bytes :=
  match value with Some value => push_usize64 (push_u8 out 1) value "optional_usize" | None => Ok (push_u8 out 0) end.
Definition push_checksum_hex (out : bytes) (value : string) : result index_error bytes :=
  data ← checksum_bytes_from_hex value; Ok (out ++ data).

Definition push_chunk (out : bytes) (chunk : ZstdChunkedChunkIndex) : result index_error bytes :=
  out ← push_usize32 out (ck_chunk_ordinal chunk) "chunk_ordinal";
  out ← Ok (push_u64 out (ck_compressed_offset chunk));
  out ← push_usize64 out (ck_compressed_len chunk) "compressed_len";
  out ← push_usize64 out (ck_raw_len chunk) "raw_len";
  push_checksum_hex out (ck_checksum chunk).

Definition push_member (out : bytes) (member : ZstdChunkedMemberIndex) : result index_error bytes :=
  out ← push_usize32 out (mb_member_ordinal member) "member_ordinal";
  out ← push_string out (mb_entry_name member);
  out ← push_string out (mb_content_id member);
  out ← push_string out (mb_entry_type member);
  out ← push_option_usize out (mb_entry_count member);
  out ← push_option_string out (mb_base_content_id member);
  out ← push_option_string out (mb_delta_algorithm member);
  out ← push_usize32 out (mb_chain_depth member) "delta_chain_depth";
  out ← push_usize32 out (mb_chunk_ordinal member) "member_chunk_ordinal";
  out ← push_usize64 out (mb_in_chunk_offset member) "in_chunk_offset";
  out ← push_usize64 out (mb_stored_len member) "stored_len";
  out ← push_usize64 out (mb_logical_len member) "logical_len";
  push_checksum_hex out (mb_checksum member).

Definition encode_zstd_chunked_index (index : ZstdChunkedPackIndex) (kind : N) : result index_error bytes :=
  let out := push_u8 (push_u32 ZSTD_CHUNKED_INDEX_MAGIC ZSTD_CHUNKED_VERSION) kind in
  out ← push_string out (px_pack_format index);
  out ← push_string out (px_pack_id index);
  out ← push_string out (px_created_at index);
  out ← push_string out (px_index_entry_name index);
  out ← push_usize32 out (N.of_nat (length (px_chunks index))) "chunk_count";
  out ← foldM push_chunk out (px_chunks index);
  out ← push_usize32 out (N.of_nat (length (px_members index))) "member_count";
  foldM push_member out (px_members index).

(** ** Reading fields *)

Abbreviation pack_reader := (reader index_error).

Definition read_bytes (len : nat) (label : string) : pack_reader bytes := read_exact (Truncated label) len.
Definition read_le (w : nat) (label : string) : pack_reader N := read_uint (Truncated label) w.
Definition read_u8 (label : string) : pack_reader N := read_le 1 label.
Definition read_u32 (label : string) : pack_reader N := read_le 4 label.
Definition read_u64 (label : string) : pack_reader N := read_le 8 label.
Definition read_string (label : string) : pack_reader string :=
  len ← read_u32 label;
  data ← read_bytes (N.to_nat len) label;
  _ ← reader_fail_if (negb (valid_utf8 data)) (NotUtf8 label);
  mret (string_of_bytes data).
Definition read_option {A} (r : pack_reader A) (label : string) : pack_reader (option A) :=
  tag ← read_u8 label;
  if (tag =? 0)%N then mret None
  else if (tag =? 1)%N then v ← r; mret (Some v)
  else fun _ => Err (InvalidOptionTag label tag).
Definition read_option_string (label : string) : pack_reader (option string) := read_option (read_string label) label.
Definition read_option_usize (label : string) : pack_reader (option N) := read_option (read_u64 label) label.
Definition read_checksum_bytes (label : string) : pack_reader bytes := read_bytes 32 label.
Definition read_checksum_hex (label : string) : pack_reader string := l ← read_checksum_bytes label; mret (hex_string l).

Definition read_chunk : pack_reader ZstdChunkedChunkIndex :=
  chunk_ordinal ← read_u32 "chunk_ordinal";
  compressed_offset ← read_u64 "compressed_offset";
  compressed_len ← read_u64 "compressed_len";
  raw_len ← read_u64 "raw_len";
  checksum ← read_checksum_hex "chunk_checksum";
  mret (mkChunk chunk_ordinal compressed_offset compressed_len raw_len checksum).

Definition read_member : pack_reader ZstdChunkedMemberIndex :=
  member_ordinal ← read_u32 "member_ordinal";
  entry_name ← read_string "entry_name";
  content_id ← read_string "content_id";
  entry_type ← read_string "entry_type";
  entry_count ← read_option_usize "entry_count";
  base_content_id ← read_option_string "base_content_id";
  delta_algorithm ← read_option_string "delta_algorithm";
  chain_depth ← read_u32 "delta_chain_depth";
  chunk_ordinal ← read_u32 "member_chunk_ordinal";
  in_chunk_offset ← read_u64 "in_chunk_offset";
  stored_len ← read_u64 "stored_len";
  logical_len ← read_u64 "logical_len";
  checksum ← read_checksum_hex "member_checksum";
  mret (mkIndexMember member_ordinal entry_name content_id entry_type entry_count base_content_id delta_algorithm
    chain_depth chunk_ordinal in_chunk_offset stored_len logical_len checksum).

Definition read_index (expected_kind : N) : pack_reader ZstdChunkedPackIndex :=
  magic ← read_bytes 8 "index magic";
  _ ← reader_fail_if (negb (bool_decide (magic = ZSTD_CHUNKED_INDEX_MAGIC))) BadIndexMagic;
  version ← read_u32 "index version";
  _ ← reader_fail_if (negb (version =? ZSTD_CHUNKED_VERSION)%N) (UnsupportedIndexVersion version);
  kind ← read_u8 "index kind";
  _ ← reader_fail_if (negb (kind =? expected_kind)%N) IndexKindMismatch;
  pack_format ← read_string "pack_format";
  pack_id ← read_string "pack_id";
  created_at ← read_string "created_at";
  index_entry_name ← read_string "index_entry_name";
  chunk_count ← read_u32 "chunk_count";
  chunks ← read_many (N.to_nat chunk_count) read_chunk;
  member_count ← read_u32 "member_count";
  members ← read_many (N.to_nat member_count) read_member;
  mret (mkPackIndex pack_format pack_id created_at index_entry_name chunks members).

Definition decode_zstd_chunked_index (data : bytes) (expected_kind : N) : result index_error ZstdChunkedPackIndex :=
  r ← read_index expected_kind data;
  _ ← fail_if (negb (bool_decide (snd r = []))) TrailingIndexBytes;
  Ok (fst r).

(** ** The trailer *)

Definition zstd_chunked_trailer (index_offset index_len : N) (digest : bytes) : bytes :=
  push_u64 (push_u64 (push_u32 ZSTD_CHUNKED_TRAILER_MAGIC ZSTD_CHUNKED_VERSION) index_offset) index_len ++ digest.

Definition read_trailer : pack_reader (N * N * bytes) :=
  magic ← read_bytes 8 "trailer magic";
  _ ← reader_fail_if (negb (bool_decide (magic = ZSTD_CHUNKED_TRAILER_MAGIC))) BadTrailerMagic;
  version ← read_u32 "trailer version";
  _ ← reader_fail_if (negb (version =? ZSTD_CHUNKED_VERSION)%N) (UnsupportedTrailerVersion version);
  index_offset ← read_u64 "index_offset";
  index_len ← read_u64 "index_len";
  checksum ← read_checksum_bytes "index_checksum";
  mret (index_offset, index_len, checksum).

Definition decode_zstd_chunked_trailer (data : bytes) : result index_error (N * N * bytes) :=
  r ← read_trailer data;
  _ ← fail_if (negb (bool_decide (snd r = []))) TrailingTrailerBytes;
  Ok (fst r).

(** ** Lemmas on hex strings *)

(** A byte that begins or ends no white-space character. *)
Definition solid (b : Byte.byte) : Prop := forall l,
  strip_any white_space_codes (Byte.to_N b :: l) = None /\ strip_any (map (@rev N) white_space_codes) (Byte.to_N b :: l) = None.

Lemma trim_solid l b c : solid b -> solid c -> hd_error l = Some b -> hd_error (rev l) = Some c ->
  trim (string_of_bytes l) = string_of_bytes l.
Proof.
  intros Hb Hc Hhd Hlast. unfold trim. rewrite codes_of_string_of_bytes.
  assert (trim_start_codes white_space_codes (length (map Byte.to_N l)) (map Byte.to_N l) = map Byte.to_N l) as ->.
  { destruct l as [|x l]; [done|]. injection Hhd as ->. cbn [map length trim_start_codes]. by rewrite (proj1 (Hb _)). }
  rewrite <- List.map_rev.
  assert (trim_start_codes (map (@rev N) white_space_codes) (length (map Byte.to_N l)) (map Byte.to_N (rev l)) = map Byte.to_N (rev l)) as ->.
  { rewrite length_map, <- length_rev. destruct (rev l) as [|x l']; [done|]. injection Hlast as ->.
    cbn [map length trim_start_codes]. by rewrite (proj2 (Hc _)). }
  by rewrite <- List.map_rev, rev_involutive, string_of_codes_of_bytes.
Qed.

(** The sixteen digits, by evaluation. *)
Lemma hex_digits_ind (P : N -> Prop) : Forall P (map N.of_nat (seq 0 16)) -> forall n, (n < 16)%N -> P n.
Proof.
  intros H n Hn. rewrite Forall_forall in H. apply H. rewrite <- (N2Nat.id n). apply list_elem_of_fmap_2, elem_of_seq. lia.
Qed.

Lemma hex_digit_facts n : (n < 16)%N ->
  solid (hex_digit n) /\ continuation (hex_digit n) = false /\ digit_value (hex_digit n) = Some n /\ Byte.to_N (hex_digit n) <> 43%N.
Proof.
  revert n. apply hex_digits_ind. cbn. repeat constructor; discriminate.
Qed.

Lemma byte_nibbles b : (Byte.to_N b / 16 < 16)%N /\ (Byte.to_N b mod 16 < 16)%N.
Proof. pose proof (to_N_lt b). split; [apply N.Div0.div_lt_upper_bound; lia|by apply N.mod_upper_bound]. Qed.

Lemma length_hex_bytes l : length (hex_bytes l) = 2 * length l.
Proof. unfold hex_bytes. induction l as [|b l IH]; cbn in *; lia. Qed.

Lemma hex_pairs_hex_bytes l : hex_pairs (hex_bytes l) = Ok l.
Proof.
  induction l as [|b l IH]; [done|]. destruct (byte_nibbles b) as [Hh Hl].
  change (hex_bytes (b :: l)) with (hex_digit (Byte.to_N b / 16) :: hex_digit (Byte.to_N b mod 16) :: hex_bytes l).
  cbn [hex_pairs].
  assert ((match hex_bytes l with c :: _ => continuation c | [] => false end) = false) as ->.
  { destruct l as [|c l]; [done|]. destruct (byte_nibbles c) as [Hc _]. by apply hex_digit_facts. }
  destruct (hex_digit_facts _ Hh) as (_ & _ & Hdh & Hplus). destruct (hex_digit_facts _ Hl) as (_ & _ & Hdl & _).
  unfold radix16. rewrite (proj2 (N.eqb_neq _ _)) by done. rewrite Hdh, Hdl. cbn [mbind option_bind ok_or fail_if result_bind].
  rewrite IH. cbn [mbind result_bind]. rewrite <- N.div_mod by done. by rewrite byte_of_to_N.
Qed.

Lemma hex_bytes_solid l b : hd_error (hex_bytes l) = Some b \/ hd_error (rev (hex_bytes l)) = Some b -> solid b.
Proof.
  intros [H|H].
  - destruct l as [|c l]; [done|]. injection H as <-. by apply hex_digit_facts, byte_nibbles.
  - destruct l as [|c l _] using rev_ind; [done|].
    unfold hex_bytes in H. rewrite map_app, concat_app, rev_app_distr in H. injection H as <-. by apply hex_digit_facts, byte_nibbles.
Qed.

Lemma checksum_bytes_from_hex_string l : length l = 32 -> checksum_bytes_from_hex (hex_string l) = Ok l.
Proof.
  intros Hl. unfold checksum_bytes_from_hex, hex_string.
  assert (exists b c, hd_error (hex_bytes l) = Some b /\ hd_error (rev (hex_bytes l)) = Some c) as (b & c & Hb & Hc).
  { assert (length (hex_bytes l) = 64) as Hlen by (rewrite length_hex_bytes; lia).
    assert (length (rev (hex_bytes l)) = 64) as Hlen' by (by rewrite length_rev).
    destruct (hex_bytes l), (rev _); try done. by eexists _, _. }
  rewrite (trim_solid _ b c) by (done || eapply hex_bytes_solid; eauto).
  rewrite bytes_of_string_of_bytes, bool_decide_eq_true_2 by (rewrite length_hex_bytes; lia).
  cbn [negb fail_if mbind result_bind]. apply hex_pairs_hex_bytes.
Qed.

(** ** The codecs of the fields *)

Lemma read_bytes_app b label rest len : len = length b -> read_bytes len label (b ++ rest) = Ok (b, rest).
Proof. apply read_exact_app. Qed.

Lemma read_bytes_Ok len label data b rest : read_bytes len label data = Ok (b, rest) -> data = b ++ rest /\ length b = len.
Proof. apply read_exact_Ok. Qed.

Lemma read_le_to_le w label n rest : (n < 256 ^ N.of_nat w)%N -> read_le w label (to_le_bytes w n ++ rest) = Ok (n, rest).
Proof. apply read_uint_to_le. Qed.

Lemma read_le_Ok w label data n rest :
  read_le w label data = Ok (n, rest) -> data = to_le_bytes w n ++ rest /\ (n < 256 ^ N.of_nat w)%N.
Proof. apply read_uint_Ok. Qed.

Lemma codec_u64 label : codec (fun n => (n < u64_modulus)%N) (fun out n => Ok (push_u64 out n)) (read_u64 label).
Proof.
  split.
  - intros out n out' Hn [= <-]. eexists. split; [done|]. intros rest. by apply read_le_to_le.
  - intros data n rest H. apply read_le_Ok in H as [-> Hn]. split; [done|]. by eexists.
Qed.

Lemma codec_usize64 label label' :
  codec (fun n => (n < u64_modulus)%N) (fun out n => push_usize64 out n label') (read_u64 label).
Proof.
  split.
  - intros out n out' Hn. unfold push_usize64, usize_to_u64. rewrite (proj2 (N.ltb_lt _ _)) by done.
    intros [= <-]. eexists. split; [done|]. intros rest. by apply read_le_to_le.
  - intros data n rest H. apply read_le_Ok in H as [-> Hn]. split; [done|]. eexists. split; [done|]. intros out.
    unfold push_usize64, usize_to_u64. by rewrite (proj2 (N.ltb_lt _ _)).
Qed.

Lemma codec_usize32 label label' :
  codec (fun n => (n < 4294967296)%N) (fun out n => push_usize32 out n label') (read_u32 label).
Proof.
  split.
  - intros out n out' Hn. unfold push_usize32, usize_to_u32. rewrite (proj2 (N.ltb_lt _ _)) by done.
    intros [= <-]. eexists. split; [done|]. intros rest. by apply read_le_to_le.
  - intros data n rest H. apply read_le_Ok in H as [-> Hn]. split; [done|]. eexists. split; [done|]. intros out.
    unfold push_usize32, usize_to_u32. by rewrite (proj2 (N.ltb_lt _ _)).
Qed.

Lemma codec_string label : codec utf8_string push_string (read_string label).
Proof.
  split.
  - intros out s out' Hs H. unfold push_string in H. apply bind_Ok in H as (o & Ho & H). injection H as <-.
    assert (N.of_nat (length (bytes_of_string s)) < 4294967296)%N as Hlen.
    { unfold push_usize32, usize_to_u32 in Ho. destruct (N.ltb_spec (N.of_nat (length (bytes_of_string s))) 4294967296); [done|discriminate Ho]. }
    destruct (codec_write _ _ _ (codec_usize32 label "string_len") _ _ _ Hlen Ho) as (b & -> & Hb).
    exists (b ++ bytes_of_string s). split; [by rewrite app_assoc|]. intros rest. unfold read_string, read_u32 in *.
    rewrite <- app_assoc, (reader_bind_eq _ _ _ _ _ (Hb _)). cbn beta.
    rewrite (reader_bind_eq _ _ _ (bytes_of_string s) rest) by (apply read_bytes_app; by rewrite Nat2N.id).
    unfold reader_fail_if. rewrite Hs. cbn. by rewrite string_of_bytes_of_string.
  - intros data s rest H. unfold read_string in H. apply reader_bind_Ok in H as (len & r1 & Hlen & H).
    apply reader_bind_Ok in H as (d & r2 & Hd & H). apply reader_bind_Ok in H as (u & r3 & Hu & H).
    apply reader_fail_if_Ok in Hu as [Hv ->]. apply reader_ret_Ok in H as [<- ->].
    apply read_bytes_Ok in Hd as [-> Hdl]. destruct (codec_read _ _ _ (codec_usize32 label "string_len") _ _ _ Hlen) as (Hl & b & -> & Hb).
    apply negb_false_iff in Hv. split; [unfold utf8_string; by rewrite bytes_of_string_of_bytes|].
    exists (b ++ d). split; [by rewrite app_assoc|]. intros out. unfold push_string. rewrite bytes_of_string_of_bytes.
    replace (N.of_nat (length d)) with len by lia. rewrite Hb. cbn. by rewrite app_assoc.
Qed.

Lemma codec_option {A} (ok : A -> Prop) push (r : pack_reader A) label : codec ok push r ->
  codec (fun o => match o with Some a => ok a | None => True end)
    (fun out o => match o with Some a => push (push_u8 out 1) a | None => Ok (push_u8 out 0) end) (read_option r label).
Proof.
  intros Hc. split.
  - intros out [a|] out' Ha H.
    + destruct (codec_write _ _ _ Hc _ _ _ Ha H) as (b & -> & Hb). exists (byte_of_N 1 :: b).
      split; [unfold push_u8; by rewrite <- app_assoc|]. intros rest. unfold read_option.
      rewrite (reader_bind_eq _ _ _ 1%N (b ++ rest)) by done. cbn. rewrite (reader_bind_eq _ _ _ _ _ (Hb rest)). done.
    + injection H as <-. exists [byte_of_N 0]. by split.
  - intros data o rest H. unfold read_option in H. apply reader_bind_Ok in H as (tag & r1 & Ht & H).
    apply read_le_Ok in Ht as [-> Ht]. destruct (N.eqb_spec tag 0) as [->|].
    + apply reader_ret_Ok in H as [<- ->]. split; [done|]. by eexists.
    + destruct (N.eqb_spec tag 1) as [->|]; [|done]. apply reader_bind_Ok in H as (a & r2 & Ha & H).
      apply reader_ret_Ok in H as [<- ->]. destruct (codec_read _ _ _ Hc _ _ _ Ha) as (Hok & b & -> & Hb). split; [done|].
      exists (to_le_bytes 1 1 ++ b). split; [by rewrite app_assoc|]. intros out. rewrite Hb. unfold push_u8. by rewrite <- app_assoc.
Qed.

Lemma codec_option_string label :
  codec (fun o => match o with Some s => utf8_string s | None => True end) push_option_string (read_option_string label).
Proof. apply codec_option, codec_string. Qed.

Lemma codec_option_usize label :
  codec (fun o => match o with Some n => (n < u64_modulus)%N | None => True end) push_option_usize (read_option_usize label).
Proof. apply (codec_option _ (fun out n => push_usize64 out n "optional_usize")), codec_usize64. Qed.

(** A checksum as the writers build it: 64 lowercase hex digits. *)
Definition hex_checksum (s : string) : Prop := exists l, length l = 32 /\ s = hex_string l.

Lemma codec_checksum label : codec hex_checksum push_checksum_hex (read_checksum_hex label).
Proof.
  split.
  - intros out s out' (l & Hl & ->) H. unfold push_checksum_hex in H. rewrite checksum_bytes_from_hex_string in H by done.
    injection H as <-. exists l. split; [done|]. intros rest. unfold read_checksum_hex, read_checksum_bytes.
    by rewrite (reader_bind_eq _ _ _ l rest) by (by apply read_bytes_app).
  - intros data s rest H. unfold read_checksum_hex in H. apply reader_bind_Ok in H as (l & r1 & Hl & H).
    apply reader_ret_Ok in H as [<- ->]. apply read_bytes_Ok in Hl as [-> Hl]. split; [by exists l|].
    exists l. split; [done|]. intros out. unfold push_checksum_hex. by rewrite checksum_bytes_from_hex_string.
Qed.

(** *** Chunks and members *)

Definition chunk_ok (c : ZstdChunkedChunkIndex) : Prop :=
  (ck_chunk_ordinal c < 4294967296)%N /\ (ck_compressed_offset c < u64_modulus)%N /\
  (ck_compressed_len c < u64_modulus)%N /\ (ck_raw_len c < u64_modulus)%N /\ hex_checksum (ck_checksum c).

Definition member_ok (m : ZstdChunkedMemberIndex) : Prop :=
  (mb_member_ordinal m < 4294967296)%N /\ utf8_string (mb_entry_name m) /\ utf8_string (mb_content_id m) /\
  utf8_string (mb_entry_type m) /\ (match mb_entry_count m with Some n => (n < u64_modulus)%N | None => True end) /\
  (match mb_base_content_id m with Some s => utf8_string s | None => True end) /\
  (match mb_delta_algorithm m with Some s => utf8_string s | None => True end) /\
  (mb_chain_depth m < 4294967296)%N /\ (mb_chunk_ordinal m < 4294967296)%N /\ (mb_in_chunk_offset m < u64_modulus)%N /\
  (mb_stored_len m < u64_modulus)%N /\ (mb_logical_len m < u64_modulus)%N /\ hex_checksum (mb_checksum m).

(** Write or read the next field with the codec [C]. *)
Ltac wr C H := let b := fresh "b" in let H' := fresh in
  eapply (write_step C); cycle 1; [exact H|intros b H'; clear H; rename H' into H; cbn beta in H|eassumption].
Ltac rd C H := apply (read_step C) in H as (? & ? & ? & -> & ? & ? & H).

(** Rewrite the writes with what they were found to append. *)
Ltac use_writes :=
  repeat match goal with
  | Hp : forall out, Ok (push_u64 out ?v) = Ok (out ++ _) |- context [push_u64 ?o ?v] =>
      let E := fresh in pose proof (Hp o) as E; injection E as E; rewrite E; clear E
  | Hp : forall out, _ = Ok (out ++ _) |- _ => rewrite Hp; cbn [mbind result_bind]
  end; by rewrite ?app_assoc.

Lemma codec_chunk : codec chunk_ok push_chunk read_chunk.
Proof.
  split.
  - intros out [o off cl rl cs] out' (Hok1 & Hok2 & Hok3 & Hok4 & Hok5) H. unfold push_chunk in H.
    cbn [ck_chunk_ordinal ck_compressed_offset ck_compressed_len ck_raw_len ck_checksum] in *. unfold read_chunk.
    wr (codec_usize32 "chunk_ordinal" "chunk_ordinal") H. wr (codec_u64 "compressed_offset") H.
    wr (codec_usize64 "compressed_len" "compressed_len") H. wr (codec_usize64 "raw_len" "raw_len") H.
    by apply (write_last (codec_checksum "chunk_checksum")).
  - intros data c rest H. unfold read_chunk in H.
    rd (codec_usize32 "chunk_ordinal" "chunk_ordinal") H. rd (codec_u64 "compressed_offset") H.
    rd (codec_usize64 "compressed_len" "compressed_len") H. rd (codec_usize64 "raw_len" "raw_len") H.
    rd (codec_checksum "chunk_checksum") H. apply reader_ret_Ok in H as [<- ->]. split; [done|].
    eexists. split; [by rewrite !app_assoc|]. intros out. unfold push_chunk. cbn [ck_chunk_ordinal ck_compressed_offset
      ck_compressed_len ck_raw_len ck_checksum].
    cbn [mbind result_bind]. use_writes.
Qed.

Lemma codec_member : codec member_ok push_member read_member.
Proof.
  split.
  - intros out [o en ci et ec bc da cd co off sl ll cs] out' (Hok1 & Hok2 & Hok3 & Hok4 & Hok5 & Hok6 & Hok7 & Hok8 & Hok9 & Hok10 & Hok11 & Hok12 & Hok13) H.
    unfold push_member in H.
    cbn [mb_member_ordinal mb_entry_name mb_content_id mb_entry_type mb_entry_count mb_base_content_id mb_delta_algorithm
      mb_chain_depth mb_chunk_ordinal mb_in_chunk_offset mb_stored_len mb_logical_len mb_checksum] in *. unfold read_member.
    wr (codec_usize32 "member_ordinal" "member_ordinal") H.
    wr (codec_string "entry_name") H. wr (codec_string "content_id") H. wr (codec_string "entry_type") H.
    wr (codec_option_usize "entry_count") H. wr (codec_option_string "base_content_id") H. wr (codec_option_string "delta_algorithm") H.
    wr (codec_usize32 "delta_chain_depth" "delta_chain_depth") H. wr (codec_usize32 "member_chunk_ordinal" "member_chunk_ordinal") H.
    wr (codec_usize64 "in_chunk_offset" "in_chunk_offset") H. wr (codec_usize64 "stored_len" "stored_len") H.
    wr (codec_usize64 "logical_len" "logical_len") H. by apply (write_last (codec_checksum "member_checksum")).
  - intros data c rest H. unfold read_member in H.
    rd (codec_usize32 "member_ordinal" "member_ordinal") H.
    rd (codec_string "entry_name") H. rd (codec_string "content_id") H. rd (codec_string "entry_type") H.
    rd (codec_option_usize "entry_count") H. rd (codec_option_string "base_content_id") H. rd (codec_option_string "delta_algorithm") H.
    rd (codec_usize32 "delta_chain_depth" "delta_chain_depth") H. rd (codec_usize32 "member_chunk_ordinal" "member_chunk_ordinal") H.
    rd (codec_usize64 "in_chunk_offset" "in_chunk_offset") H. rd (codec_usize64 "stored_len" "stored_len") H.
    rd (codec_usize64 "logical_len" "logical_len") H. rd (codec_checksum "member_checksum") H.
    apply reader_ret_Ok in H as [<- ->]. split; [unfold member_ok; cbn; tauto|].
    eexists. split; [by rewrite !app_assoc|]. intros out. unfold push_member.
    cbn [mb_member_ordinal mb_entry_name mb_content_id mb_entry_type mb_entry_count mb_base_content_id mb_delta_algorithm
      mb_chain_depth mb_chunk_ordinal mb_in_chunk_offset mb_stored_len mb_logical_len mb_checksum]. use_writes.
Qed.

(** ** The index *)

(** The type invariant of an index: strings are UTF-8, numbers fit their
    fields and checksums are 32 bytes in lowercase hex. *)
Definition index_ok (i : ZstdChunkedPackIndex) : Prop :=
  utf8_string (px_pack_format i) /\ utf8_string (px_pack_id i) /\ utf8_string (px_created_at i) /\
  utf8_string (px_index_entry_name i) /\ (N.of_nat (length (px_chunks i)) < 4294967296)%N /\ Forall chunk_ok (px_chunks i) /\
  (N.of_nat (length (px_members i)) < 4294967296)%N /\ Forall member_ok (px_members i).

Lemma read_u8_byte kind label rest : (kind < 256)%N -> read_u8 label (byte_of_N kind :: rest) = Ok (kind, rest).
Proof.
  intros Hk. pose proof (read_le_to_le 1 label kind rest Hk) as H. exact H.
Qed.

Definition index_prefix (kind : N) : bytes := push_u8 (push_u32 ZSTD_CHUNKED_INDEX_MAGIC ZSTD_CHUNKED_VERSION) kind.

(** What follows the prefix. *)
Definition read_index_body : pack_reader ZstdChunkedPackIndex :=
  pack_format ← read_string "pack_format";
  pack_id ← read_string "pack_id";
  created_at ← read_string "created_at";
  index_entry_name ← read_string "index_entry_name";
  chunk_count ← read_u32 "chunk_count";
  chunks ← read_many (N.to_nat chunk_count) read_chunk;
  member_count ← read_u32 "member_count";
  members ← read_many (N.to_nat member_count) read_member;
  mret (mkPackIndex pack_format pack_id created_at index_entry_name chunks members).

Lemma read_index_prefix kind rest : (kind < 256)%N -> read_index kind (index_prefix kind ++ rest) = read_index_body rest.
Proof.
  intros Hk. unfold read_index, index_prefix, push_u8, push_u32. rewrite <- !app_assoc.
  rewrite (reader_bind_eq _ _ _ _ _ (read_bytes_app ZSTD_CHUNKED_INDEX_MAGIC _ _ 8 eq_refl)).
  unfold reader_fail_if. rewrite bool_decide_eq_true_2 by done. cbn [negb].
  rewrite (reader_bind_eq _ _ _ tt _) by done.
  rewrite (reader_bind_eq _ _ _ _ _ (read_le_to_le 4 "index version" ZSTD_CHUNKED_VERSION _ eq_refl)).
  rewrite (reader_bind_eq _ _ _ tt _) by done.
  rewrite (reader_bind_eq _ _ _ kind rest) by (by apply read_u8_byte).
  rewrite N.eqb_refl. done.
Qed.

Lemma read_index_Ok kind data i rest : read_index kind data = Ok (i, rest) ->
  (kind < 256)%N /\ exists body, data = index_prefix kind ++ body /\ read_index_body body = Ok (i, rest).
Proof.
  intros H. unfold read_index in H. apply reader_bind_Ok in H as (magic & r1 & Hm & H). apply read_bytes_Ok in Hm as [-> _].
  apply reader_bind_Ok in H as (? & r2 & Hf & H). apply reader_fail_if_Ok in Hf as [->%negb_false_iff%bool_decide_eq_true ->].
  apply reader_bind_Ok in H as (v & r3 & Hv & H). apply read_le_Ok in Hv as [-> _].
  apply reader_bind_Ok in H as (? & r4 & Hf & H). apply reader_fail_if_Ok in Hf as [->%negb_false_iff%N.eqb_eq ->].
  apply reader_bind_Ok in H as (k & r5 & Hk & H). apply read_le_Ok in Hk as [-> Hk].
  apply reader_bind_Ok in H as (? & r6 & Hf & H). apply reader_fail_if_Ok in Hf as [->%negb_false_iff%N.eqb_eq ->].
  split; [done|]. exists r6. split; [|exact H]. unfold index_prefix, push_u8, push_u32. by rewrite <- !app_assoc.
Qed.

Lemma encode_index_read index kind data :
  (kind < 256)%N -> index_ok index -> encode_zstd_chunked_index index kind = Ok data ->
  forall rest, read_index kind (data ++ rest) = Ok (index, rest).
Proof.
  intros Hk (Hok1 & Hok2 & Hok3 & Hok4 & Hok5 & Hok6 & Hok7 & Hok8) H. unfold encode_zstd_chunked_index in H. fold (index_prefix kind) in H.
  assert (exists b, data = index_prefix kind ++ b /\ forall rest, read_index_body (b ++ rest) = Ok (index, rest)) as (b & -> & Hb).
  { destruct index as [pf pi ca ie cs ms]. cbn [px_pack_format px_pack_id px_created_at px_index_entry_name px_chunks px_members] in *.
    unfold read_index_body. wr (codec_string "pack_format") H. wr (codec_string "pack_id") H. wr (codec_string "created_at") H.
    wr (codec_string "index_entry_name") H. wr (codec_usize32 "chunk_count" "chunk_count") H. rewrite Nat2N.id.
    assert (length cs = length cs /\ Forall chunk_ok cs) as Hcs by done.
    wr (codec_many chunk_ok push_chunk read_chunk (length cs) codec_chunk) H.
    wr (codec_usize32 "member_count" "member_count") H. rewrite Nat2N.id.
    by apply (write_last (codec_many member_ok push_member read_member (length ms) codec_member)). }
  intros rest. rewrite <- app_assoc, read_index_prefix by done. apply Hb.
Qed.

Lemma read_index_encode kind data index rest :
  read_index kind data = Ok (index, rest) ->
  index_ok index /\ exists b, data = b ++ rest /\ encode_zstd_chunked_index index kind = Ok b.
Proof.
  intros H. apply read_index_Ok in H as (Hk & body & -> & H). unfold read_index_body in H.
  rd (codec_string "pack_format") H. rd (codec_string "pack_id") H. rd (codec_string "created_at") H.
  rd (codec_string "index_entry_name") H. rd (codec_usize32 "chunk_count" "chunk_count") H.
  apply (read_step (codec_many chunk_ok push_chunk read_chunk _ codec_chunk)) in H as (cs & ? & ? & -> & [Hcl Hcok] & ? & H).
  rd (codec_usize32 "member_count" "member_count") H.
  apply (read_step (codec_many member_ok push_member read_member _ codec_member)) in H as (ms & ? & ? & -> & [Hml Hmok] & ? & H).
  apply reader_ret_Ok in H as [<- ->]. apply (f_equal N.of_nat) in Hcl, Hml. rewrite N2Nat.id in Hcl, Hml. subst.
  split; [by repeat split|]. eexists. split; [by rewrite !app_assoc|].
  unfold encode_zstd_chunked_index. fold (index_prefix kind).
  cbn [px_pack_format px_pack_id px_created_at px_index_entry_name px_chunks px_members]. cbn beta in *. use_writes.
Qed.

(** ** The trailer *)

Lemma decode_trailer offset len digest :
  (offset < u64_modulus)%N -> (len < u64_modulus)%N -> length digest = 32 ->
  decode_zstd_chunked_trailer (zstd_chunked_trailer offset len digest) = Ok (offset, len, digest).
Proof.
  intros Ho Hl Hd. unfold decode_zstd_chunked_trailer, zstd_chunked_trailer, push_u64, push_u32, read_trailer.
  rewrite <- !app_assoc.
  rewrite (reader_bind_eq _ _ _ _ _ (read_bytes_app ZSTD_CHUNKED_TRAILER_MAGIC _ _ 8 eq_refl)).
  unfold reader_fail_if. rewrite bool_decide_eq_true_2 by done. cbn [negb].
  rewrite (reader_bind_eq _ _ _ tt _) by done.
  rewrite (reader_bind_eq _ _ _ _ _ (read_le_to_le 4 "trailer version" ZSTD_CHUNKED_VERSION _ eq_refl)).
  rewrite (reader_bind_eq _ _ _ tt _) by done.
  rewrite (reader_bind_eq _ _ _ _ _ (read_le_to_le 8 "index_offset" offset _ Ho)).
  rewrite (reader_bind_eq _ _ _ _ _ (read_le_to_le 8 "index_len" len _ Hl)).
  rewrite <- (app_nil_r digest) at 1. unfold read_checksum_bytes.
  by rewrite (reader_bind_eq _ _ _ _ _ (read_bytes_app digest "index_checksum" [] 32 (eq_sym Hd))).
Qed.

Lemma length_trailer offset len digest : length digest = 32 ->
  length (zstd_chunked_trailer offset len digest) = ZSTD_CHUNKED_TRAILER_LEN.
Proof.
  intros Hd. unfold zstd_chunked_trailer, push_u64, push_u32. rewrite !length_app, !length_to_le_bytes, Hd. done.
Qed.

(** The digits of a checksum may be uppercase, or a signed digit. *)
Example checksum_accepts_uppercase :
  checksum_bytes_from_hex (string_of_bytes (concat (repeat [Byte.x41; Byte.x46; Byte.x2b; Byte.x66] 16))) =
    Ok (concat (repeat [Byte.xaf; Byte.x0f] 16)).
Proof. vm_compute. reflexivity. Qed.

(** ** Theorems *)

(** Index round trip: every well-formed index that encodes decodes to
    itself from the encoded bytes. *)
Theorem zstd_chunked_index_roundtrip index kind data :
  (kind < 256)%N -> index_ok index -> encode_zstd_chunked_index index kind = Ok data ->
  decode_zstd_chunked_index data kind = Ok index.
Proof.
  intros Hk Hi H. unfold decode_zstd_chunked_index.
  pose proof (encode_index_read index kind data Hk Hi H []) as Hr. rewrite app_nil_r in Hr. by rewrite Hr.
Qed.

(** The index encoding is canonical: whatever bytes the decoder accepts
    are exactly the encoding of the index it returns, which is well formed; so
    two different byte strings never decode to the same index, and re-encoding
    a decoded index gives the bytes whose digest the trailer holds. *)
Theorem zstd_chunked_index_canonical data kind index :
  decode_zstd_chunked_index data kind = Ok index ->
  index_ok index /\ encode_zstd_chunked_index index kind = Ok data.
Proof.
  intros H. unfold decode_zstd_chunked_index in H. apply bind_Ok in H as ([i rest] & Hr & H).
  apply bind_Ok in H as (? & Hf & H). apply fail_if_Ok, negb_false_iff, bool_decide_eq_true in Hf. injection H as <-.
  apply read_index_encode in Hr as (Hok & b & -> & Hb). cbn in Hf |- *. subst rest. by rewrite app_nil_r.
Qed.

(** An index of one chunk with one full and one delta member. *)
Definition example_checksum : string := hex_string (repeat (byte_of_N 171) 32).
Definition example_index : ZstdChunkedPackIndex :=
  mkPackIndex PACK_FORMAT_ZSTD_CHUNKED_V1 "PCK-1" CONTENT_ADDRESSED_PACK_INDEX_CREATED_AT ZSTD_CHUNKED_OBJECT_INDEX_ENTRY_NAME
    [mkChunk 0 0 40 52 example_checksum]
    [mkIndexMember 0 "blobs/A" "A" "full" None None None 0 0 0 40 40 example_checksum;
     mkIndexMember 1 "blobs/B" "B" "delta" None (Some "A"%string) (Some "git-binary-v1"%string) 1 0 40 12 44 example_checksum].

Lemma example_index_ok : index_ok example_index.
Proof.
  assert (hex_checksum example_checksum) as Hx by (by exists (repeat (byte_of_N 171) 32)).
  repeat split; try done; repeat constructor; done.
Qed.

Lemma zstd_chunked_index_roundtrip_witness :
  exists data, encode_zstd_chunked_index example_index ZSTD_CHUNKED_INDEX_KIND_OBJECT = Ok data /\
    decode_zstd_chunked_index data ZSTD_CHUNKED_INDEX_KIND_OBJECT = Ok example_index.
Proof.
  eexists. split; [vm_compute; reflexivity|].
  apply (zstd_chunked_index_roundtrip example_index ZSTD_CHUNKED_INDEX_KIND_OBJECT); [done|apply example_index_ok|vm_compute; reflexivity].
Defined.

Lemma zstd_chunked_index_canonical_witness :
  exists data, decode_zstd_chunked_index data ZSTD_CHUNKED_INDEX_KIND_OBJECT = Ok example_index /\
    encode_zstd_chunked_index example_index ZSTD_CHUNKED_INDEX_KIND_OBJECT = Ok data.
Proof.
  assert (exists data, encode_zstd_chunked_index example_index ZSTD_CHUNKED_INDEX_KIND_OBJECT = Ok data) as [data He]
    by (eexists; vm_compute; reflexivity).
  assert (decode_zstd_chunked_index data ZSTD_CHUNKED_INDEX_KIND_OBJECT = Ok example_index) as Hd
    by (vm_compute in He; injection He as <-; vm_compute; reflexivity).
  exists data. split; [exact Hd|]. clear He. exact (proj2 (zstd_chunked_index_canonical data _ _ Hd)).
Defined.
