(* ===== verification/PackContainer.v ===== *)
(** * The chunked pack container

    Models [ait-core/src/pack_substrate/zstd/compression_helpers.rs], [zstd/validation.rs] and the
    container functions of [zstd/frame_index.rs]: writing members into
    compressed chunks followed by the index and a trailer, and reading them
    back. A file is the list of its bytes. The digest and the compressor come
    from other crates: they are the class [PackPrimitives], with what the code
    relies on in [LawfulPrimitives]. *)

From Stdlib Require Import NArith Lia.
From Stdlib Require Strings.Byte.
From stdpp Require Import base numbers sorting fin_sets gmap strings list.
From S2P Require Import Prelude ChunkLayout PackIndex.

(** ** Code outside the repository *)

Class PackPrimitives : Type := {
  sha256_bytes : bytes -> bytes;
  zstd_compress : bytes -> result string bytes;
  zstd_decompress : bytes -> N -> result string bytes
}.

(** A digest has 32 bytes, and decompression with the right capacity inverts
    compression. *)
Class LawfulPrimitives `{PackPrimitives} : Prop := {
  length_sha256_bytes : forall data, length (sha256_bytes data) = 32;
  zstd_roundtrip : forall raw c, zstd_compress raw = Ok c -> zstd_decompress c (N.of_nat (length raw)) = Ok raw
}.

Definition sha256_hex `{PackPrimitives} (data : bytes) : string := hex_string (sha256_bytes data).

Inductive container_error : Type :=
| IndexError (e : index_error)
| LayoutError (e : layout_error)
| ZstdError (message : string)
| PanicMemberIndex (ordinal : nat)
| UnsupportedPackFormat (pack_format : string)
| IncorrectIndexEntryName
| NonSequentialChunk (ordinal : N)
| ChunkRangeOverflow
| ChunkExceedsData (ordinal : N)
| NonSequentialMember (ordinal : N)
| DuplicateEntryName (entry_name : string)
| DuplicateMemberOrdinal (ordinal : N)
| MissingChunk (ordinal : N)
| MemberRangeOverflow
| MemberExceedsChunk (entry_name : string)
| ObjectEntryCount
| DeltaMissingBase (entry_name : string)
| DuplicateTreeId (content_id : string)
| TreeMissingEntryCount (content_id : string)
| TruncatedTrailer
| IndexRangeOverflow
| IndexRangeExceeds
| IndexChecksumMismatch
| FileRange
| RawChunkSize (ordinal : N)
| ChunkChecksum (ordinal : N).

(** ** Validation of an index *)

Definition checked_add (a b : N) : option N := if (a + b <? u64_modulus)%N then Some (a + b)%N else None.

(** One iteration over [chunks.iter().enumerate()]. *)
Definition validate_chunk_entry (data_end : option N) (expected : N) (chunk : ZstdChunkedChunkIndex)
  : result container_error N :=
  _ ← fail_if (negb (ck_chunk_ordinal chunk =? expected)%N) (NonSequentialChunk (ck_chunk_ordinal chunk));
  _ ← match data_end with
      | None => Ok tt
      | Some data_end =>
          chunk_end ← ok_or (checked_add (ck_compressed_offset chunk) (ck_compressed_len chunk)) ChunkRangeOverflow;
          fail_if (data_end <? chunk_end)%N (ChunkExceedsData (ck_chunk_ordinal chunk))
      end;
  Ok (expected + 1)%N.

(** The loop state over the members. *)
Record member_scan : Type := mkScan {
  scan_ordinal : N;
  scan_entry_names : gset string;
  scan_content_ids : gset string;
  scan_ordinals : gset N
}.

Definition validate_member_entry (kind : N) (chunks : list ZstdChunkedChunkIndex) (st : member_scan)
    (member : ZstdChunkedMemberIndex) : result container_error member_scan :=
  _ ← fail_if (negb (mb_member_ordinal member =? scan_ordinal st)%N) (NonSequentialMember (mb_member_ordinal member));
  _ ← fail_if (bool_decide (mb_entry_name member ∈ scan_entry_names st)) (DuplicateEntryName (mb_entry_name member));
  _ ← fail_if (bool_decide (mb_member_ordinal member ∈ scan_ordinals st)) (DuplicateMemberOrdinal (mb_member_ordinal member));
  chunk ← ok_or (chunks !! N.to_nat (mb_chunk_ordinal member)) (MissingChunk (mb_chunk_ordinal member));
  member_end ← ok_or (checked_add (mb_in_chunk_offset member) (mb_stored_len member)) MemberRangeOverflow;
  _ ← fail_if (ck_raw_len chunk <? member_end)%N (MemberExceedsChunk (mb_entry_name member));
  content_ids ←
    (if (kind =? ZSTD_CHUNKED_INDEX_KIND_OBJECT)%N then
       _ ← fail_if (bool_decide (is_Some (mb_entry_count member))) ObjectEntryCount;
       _ ← fail_if (bool_decide (mb_entry_type member = "delta"%string) && bool_decide (mb_base_content_id member = None))
             (DeltaMissingBase (mb_entry_name member));
       Ok (scan_content_ids st)
     else if (kind =? ZSTD_CHUNKED_INDEX_KIND_TREE)%N then
       _ ← fail_if (bool_decide (mb_content_id member ∈ scan_content_ids st)) (DuplicateTreeId (mb_content_id member));
       _ ← fail_if (bool_decide (mb_entry_count member = None)) (TreeMissingEntryCount (mb_content_id member));
       Ok ({[mb_content_id member]} ∪ scan_content_ids st)
     else Ok (scan_content_ids st));
  Ok (mkScan (scan_ordinal st + 1) ({[mb_entry_name member]} ∪ scan_entry_names st) content_ids
        ({[mb_member_ordinal member]} ∪ scan_ordinals st)).

Definition validate_zstd_chunked_index (index : ZstdChunkedPackIndex) (kind : N) (expected_pack_format : string)
    (data_end : option N) : result container_error unit :=
  _ ← fail_if (negb (bool_decide (px_pack_format index = expected_pack_format))) (UnsupportedPackFormat (px_pack_format index));
  _ ← fail_if ((kind =? ZSTD_CHUNKED_INDEX_KIND_OBJECT)%N &&
               negb (bool_decide (px_index_entry_name index = ZSTD_CHUNKED_OBJECT_INDEX_ENTRY_NAME))) IncorrectIndexEntryName;
  _ ← fail_if ((kind =? ZSTD_CHUNKED_INDEX_KIND_TREE)%N &&
               negb (bool_decide (px_index_entry_name index = ZSTD_CHUNKED_TREE_INDEX_ENTRY_NAME))) IncorrectIndexEntryName;
  _ ← foldM (validate_chunk_entry data_end) 0%N (px_chunks index);
  _ ← foldM (validate_member_entry kind (px_chunks index)) (mkScan 0 ∅ ∅ ∅) (px_members index);
  Ok tt.

(** ** Writing *)

Record ZstdChunkedMemberInput : Type := mkInput {
  mi_member_ordinal : N;
  mi_entry_name : string;
  mi_content_id : string;
  mi_entry_type : string;
  mi_entry_count : option N;
  mi_base_content_id : option string;
  mi_delta_algorithm : option string;
  mi_chain_depth : N;
  mi_data : bytes;
  mi_logical_len : N;
  mi_checksum : string
}.

(** The index entry of a member at [in_chunk_offset] of chunk [chunk_ordinal]. *)
Definition index_entry (member : ZstdChunkedMemberInput) (chunk_ordinal in_chunk_offset : N) : ZstdChunkedMemberIndex :=
  mkIndexMember (mi_member_ordinal member) (mi_entry_name member) (mi_content_id member) (mi_entry_type member)
    (mi_entry_count member) (mi_base_content_id member) (mi_delta_algorithm member) (mi_chain_depth member)
    chunk_ordinal in_chunk_offset (N.of_nat (length (mi_data member))) (mi_logical_len member) (mi_checksum member).

(** [file], [chunks] and [indexed_members]. *)
Definition write_state : Type := bytes * list ZstdChunkedChunkIndex * list ZstdChunkedMemberIndex.

(** [for ordinal in group]: the state is the raw chunk and the entries. *)
Definition write_member (members : list ZstdChunkedMemberInput) (chunk_ordinal : N)
    (acc : bytes * list ZstdChunkedMemberIndex) (ordinal : nat) : result container_error (bytes * list ZstdChunkedMemberIndex) :=
  let '(raw_chunk, indexed) := acc in
  member ← ok_or (members !! ordinal) (PanicMemberIndex ordinal);
  Ok (raw_chunk ++ mi_data member, indexed ++ [index_entry member chunk_ordinal (N.of_nat (length raw_chunk))]).

Section container.
Context `{PackPrimitives}.

Definition write_zstd_chunked_raw_chunk (file : bytes) (chunk_ordinal : N) (raw : bytes)
  : result container_error (bytes * ZstdChunkedChunkIndex) :=
  compressed ← map_err ZstdError (zstd_compress raw);
  Ok (file ++ compressed,
      mkChunk chunk_ordinal (N.of_nat (length file)) (N.of_nat (length compressed)) (N.of_nat (length raw)) (sha256_hex raw)).

Definition write_group (members : list ZstdChunkedMemberInput) (st : write_state) (group : list nat)
  : result container_error write_state :=
  let '(file, chunks, indexed) := st in
  let chunk_ordinal := N.of_nat (length chunks) in
  acc ← foldM (write_member members chunk_ordinal) ([], indexed) group;
  let '(raw_chunk, indexed) := acc in
  r ← write_zstd_chunked_raw_chunk file chunk_ordinal raw_chunk;
  let '(file, chunk) := r in
  Ok (file, chunks ++ [chunk], indexed).

Definition ordinal_le (a b : ZstdChunkedMemberIndex) : Prop := (mb_member_ordinal a <= mb_member_ordinal b)%N.
#[export] Instance ordinal_le_dec : RelDecision ordinal_le.
Proof. intros a b. unfold ordinal_le. apply _. Defined.

(** [write_zstd_chunked_container_with_layout]: the file written and the index. *)
Definition write_zstd_chunked_container_with_layout (kind : N) (pack_format index_entry_name pack_id created_at : string)
    (members : list ZstdChunkedMemberInput) (chunk_bytes : N) (layout : option ObjectPackChunkLayout)
  : result container_error (bytes * ZstdChunkedPackIndex) :=
  plan ← match layout with
         | Some layout => Ok layout
         | None => map_err LayoutError (layout_new (map (fun m => N.of_nat (length (mi_data m))) members) None chunk_bytes)
         end;
  _ ← map_err LayoutError (layout_validate plan (length members));
  st ← foldM (write_group members) ([], [], []) plan;
  let '(file, chunks, indexed) := st in
  let index := mkPackIndex pack_format pack_id created_at index_entry_name chunks (merge_sort ordinal_le indexed) in
  _ ← validate_zstd_chunked_index index kind pack_format None;
  index_bytes ← map_err IndexError (encode_zstd_chunked_index index kind);
  Ok (file ++ index_bytes ++
        zstd_chunked_trailer (N.of_nat (length file)) (N.of_nat (length index_bytes)) (sha256_bytes index_bytes), index).

Definition write_zstd_chunked_container (kind : N) (pack_format index_entry_name pack_id created_at : string)
    (members : list ZstdChunkedMemberInput) (chunk_bytes : N) : result container_error (bytes * ZstdChunkedPackIndex) :=
  write_zstd_chunked_container_with_layout kind pack_format index_entry_name pack_id created_at members chunk_bytes None.

(** ** Reading *)

Definition slice_N (l : bytes) (from len : N) : bytes := take (N.to_nat len) (drop (N.to_nat from) l).

Definition read_zstd_chunked_container_index_from_bytes (pack_bytes : bytes) (kind : N) (expected_pack_format : string)
  : result container_error ZstdChunkedPackIndex :=
  _ ← fail_if (Nat.ltb (length pack_bytes) ZSTD_CHUNKED_TRAILER_LEN) TruncatedTrailer;
  let data_end := length pack_bytes - ZSTD_CHUNKED_TRAILER_LEN in
  trailer ← map_err IndexError (decode_zstd_chunked_trailer (drop data_end pack_bytes));
  let '(index_offset, index_len, expected_checksum) := trailer in
  index_end ← ok_or (checked_add index_offset index_len) IndexRangeOverflow;
  _ ← fail_if (N.of_nat data_end <? index_end)%N IndexRangeExceeds;
  let index_bytes := slice_N pack_bytes index_offset index_len in
  _ ← fail_if (negb (bool_decide (sha256_bytes index_bytes = expected_checksum))) IndexChecksumMismatch;
  index ← map_err IndexError (decode_zstd_chunked_index index_bytes kind);
  _ ← validate_zstd_chunked_index index kind expected_pack_format (Some index_offset);
  Ok index.

(** Seek and [read_exact]. *)
Definition read_file_range (file : bytes) (offset len : N) : result container_error bytes :=
  if (N.of_nat (length file) <? offset + len)%N then Err FileRange else Ok (slice_N file offset len).

(** The same from a file: the trailer and the index are read by ranges. *)
Definition read_zstd_chunked_container_index (file : bytes) (kind : N) (expected_pack_format : string)
  : result container_error ZstdChunkedPackIndex :=
  let file_len := N.of_nat (length file) in
  let trailer_len := N.of_nat ZSTD_CHUNKED_TRAILER_LEN in
  _ ← fail_if (file_len <? trailer_len)%N TruncatedTrailer;
  let data_end := (file_len - trailer_len)%N in
  trailer ← read_file_range file data_end trailer_len;
  trailer ← map_err IndexError (decode_zstd_chunked_trailer trailer);
  let '(index_offset, index_len, expected_checksum) := trailer in
  index_end ← ok_or (checked_add index_offset index_len) IndexRangeOverflow;
  _ ← fail_if (data_end <? index_end)%N IndexRangeExceeds;
  index_bytes ← read_file_range file index_offset index_len;
  _ ← fail_if (negb (bool_decide (sha256_bytes index_bytes = expected_checksum))) IndexChecksumMismatch;
  index ← map_err IndexError (decode_zstd_chunked_index index_bytes kind);
  _ ← validate_zstd_chunked_index index kind expected_pack_format (Some index_offset);
  Ok index.

Definition zstd_chunked_container_index_checksum (file : bytes) (kind : N) (expected_pack_format : string)
  : result container_error string :=
  index ← read_zstd_chunked_container_index file kind expected_pack_format;
  index_bytes ← map_err IndexError (encode_zstd_chunked_index index kind);
  Ok (sha256_hex index_bytes).

Definition read_zstd_chunked_raw_chunk (file : bytes) (chunk : ZstdChunkedChunkIndex) : result container_error bytes :=
  compressed ← read_file_range file (ck_compressed_offset chunk) (ck_compressed_len chunk);
  raw ← map_err ZstdError (zstd_decompress compressed (ck_raw_len chunk));
  _ ← fail_if (negb (N.of_nat (length raw) =? ck_raw_len chunk)%N) (RawChunkSize (ck_chunk_ordinal chunk));
  _ ← fail_if (negb (bool_decide (sha256_hex raw = ck_checksum chunk))) (ChunkChecksum (ck_chunk_ordinal chunk));
  Ok raw.

(** The bounds check and copy that end the three readers of stored bytes. *)
Definition member_slice (raw : bytes) (member : ZstdChunkedMemberIndex) : result container_error bytes :=
  member_end ← ok_or (checked_add (mb_in_chunk_offset member) (mb_stored_len member)) MemberRangeOverflow;
  _ ← fail_if (N.of_nat (length raw) <? member_end)%N (MemberExceedsChunk (mb_entry_name member));
  Ok (slice_N raw (mb_in_chunk_offset member) (mb_stored_len member)).

Definition read_zstd_chunked_member_stored_bytes (file : bytes) (index : ZstdChunkedPackIndex)
    (member : ZstdChunkedMemberIndex) : result container_error bytes :=
  chunk ← ok_or (px_chunks index !! N.to_nat (mb_chunk_ordinal member)) (MissingChunk (mb_chunk_ordinal member));
  raw ← read_zstd_chunked_raw_chunk file chunk;
  member_slice raw member.

(** With the cache of raw chunks, which keeps a chunk even when the member
    range is then rejected. *)
Definition read_zstd_chunked_member_stored_bytes_with_chunk_cache (file : bytes) (index : ZstdChunkedPackIndex)
    (member : ZstdChunkedMemberIndex) (cache : gmap N bytes) : gmap N bytes * result container_error bytes :=
  match px_chunks index !! N.to_nat (mb_chunk_ordinal member) with
  | None => (cache, Err (MissingChunk (mb_chunk_ordinal member)))
  | Some chunk =>
      match cache !! mb_chunk_ordinal member with
      | Some raw => (cache, member_slice raw member)
      | None =>
          match read_zstd_chunked_raw_chunk file chunk with
          | Err e => (cache, Err e)
          | Ok raw => (<[mb_chunk_ordinal member := raw]> cache, member_slice raw member)
          end
      end
  end.

Definition validate_zstd_chunked_container_chunks (file : bytes) (kind : N) (expected_pack_format : string)
  : result container_error unit :=
  index ← read_zstd_chunked_container_index file kind expected_pack_format;
  foldM (fun _ chunk => _ ← read_zstd_chunked_raw_chunk file chunk; Ok tt) tt (px_chunks index).
End container.

(** ** What the writer has written *)

Section written.
Context {P : PackPrimitives} {LP : LawfulPrimitives}.

(** [chunk] describes [raw], stored compressed in [file]. *)
Definition chunk_stored (file : bytes) (ordinal : nat) (chunk : ZstdChunkedChunkIndex) (raw : bytes) : Prop :=
  exists before c after, file = before ++ c ++ after /\ zstd_compress raw = Ok c /\
    chunk = mkChunk (N.of_nat ordinal) (N.of_nat (length before)) (N.of_nat (length c)) (N.of_nat (length raw)) (sha256_hex raw).

(** [entry] locates the data of the input [ordinal] in a raw chunk. *)
Definition entry_located (members : list ZstdChunkedMemberInput) (raws : list bytes) (ordinal : nat)
    (entry : ZstdChunkedMemberIndex) : Prop :=
  exists m k before after, members !! ordinal = Some m /\
    raws !! k = Some (before ++ mi_data m ++ after) /\ entry = index_entry m (N.of_nat k) (N.of_nat (length before)).

Record written (members : list ZstdChunkedMemberInput) (ordinals : list nat) (raws : list bytes) (st : write_state) : Prop := {
  wr_length : length (snd (fst st)) = length raws;
  wr_chunks : forall k chunk raw, snd (fst st) !! k = Some chunk -> raws !! k = Some raw -> chunk_stored (fst (fst st)) k chunk raw;
  wr_entries : Forall2 (entry_located members raws) ordinals (snd st)
}.

Lemma chunk_stored_app file after k chunk raw : chunk_stored file k chunk raw -> chunk_stored (file ++ after) k chunk raw.
Proof.
  intros (b & c & a & -> & Hc & Hk). exists b, c, (a ++ after). split_and!; [by rewrite <- !app_assoc|done..].
Qed.

Lemma entry_located_app members raws raw i e : entry_located members raws i e -> entry_located members (raws ++ [raw]) i e.
Proof.
  intros (m & k & b & a & Hm & Hk & He). exists m, k, b, a. split_and!; [done|by apply lookup_app_l_Some|done].
Qed.

Lemma entry_located_grow members raws cur more i e :
  entry_located members (raws ++ [cur]) i e -> entry_located members (raws ++ [cur ++ more]) i e.
Proof.
  intros (m & k & b & a & Hm & Hk & He). apply lookup_app_Some in Hk as [Hk|[Hge Hk]].
  - exists m, k, b, a. split_and!; [done|by apply lookup_app_l_Some|done].
  - apply list_lookup_singleton_Some in Hk as [Hk ->]. exists m, k, b, (a ++ more). split_and!; [done| |done].
    rewrite lookup_app_r by done. replace (k - length raws) with 0 by lia. cbn. by rewrite <- !app_assoc.
Qed.

(** The loop over the members of one group. *)
Lemma write_members_located members raws group ordinals indexed raw indexed' :
  Forall2 (entry_located members raws) ordinals indexed ->
  foldM (write_member members (N.of_nat (length raws))) ([], indexed) group = Ok (raw, indexed') ->
  Forall2 (entry_located members (raws ++ [raw])) (ordinals ++ group) indexed'.
Proof.
  intros H0 Hf.
  enough (Forall2 (entry_located members (raws ++ [fst (raw, indexed')])) (ordinals ++ group) (snd (raw, indexed'))) by done.
  revert Hf. apply (foldM_ind (write_member members (N.of_nat (length raws)))
    (fun done acc => Forall2 (entry_located members (raws ++ [fst acc])) (ordinals ++ done) (snd acc))).
  - cbn. rewrite app_nil_r. eapply Forall2_impl; [exact H0|]. intros i e. apply entry_located_app.
  - intros done i rest [r1 e1] s2 _ IH Hs. cbn [fst snd] in *. unfold write_member in Hs.
    apply bind_Ok in Hs as (m & Hm & Hs). apply ok_or_Ok in Hm. injection Hs as <-. cbn [fst snd].
    rewrite app_assoc. apply Forall2_app.
    + eapply Forall2_impl; [exact IH|]. intros j e. apply entry_located_grow.
    + constructor; [|constructor]. exists m, (length raws), r1, []. split_and!; [done| |done].
      by rewrite list_lookup_middle, app_nil_r.
Qed.

Lemma write_group_written members ordinals raws st group st' :
  written members ordinals raws st -> write_group members st group = Ok st' ->
  exists raw, written members (ordinals ++ group) (raws ++ [raw]) st'.
Proof.
  destruct st as [[file chunks] indexed]. intros [Hl Hc He] Hw. cbn [fst snd] in *. unfold write_group in Hw. rewrite Hl in Hw.
  apply bind_Ok in Hw as ([raw indexed'] & Hm & Hw). apply bind_Ok in Hw as ([file' chunk] & Hr & Hw). injection Hw as <-.
  unfold write_zstd_chunked_raw_chunk in Hr. apply bind_Ok in Hr as (c & Hcomp & Hr). apply map_err_Ok in Hcomp. injection Hr as <- <-.
  exists raw. split; cbn [fst snd].
  - rewrite !length_app, Hl. done.
  - intros k ch r Hk Hr. apply lookup_app_Some in Hk as [Hk|[Hge Hk]].
    + apply chunk_stored_app. pose proof (lookup_lt_Some _ _ _ Hk). rewrite lookup_app_l in Hr by lia. by eapply Hc.
    + apply list_lookup_singleton_Some in Hk as [Hk <-].
      rewrite lookup_app_r in Hr by lia. replace (k - length raws) with 0 in Hr by lia. injection Hr as <-.
      exists file, c, []. split_and!; [by rewrite app_nil_r|done|]. f_equal. lia.
  - by eapply write_members_located.
Qed.

Lemma write_groups_written members plan st :
  foldM (write_group members) ([], [], []) plan = Ok st -> exists raws, written members (concat plan) raws st.
Proof.
  apply (foldM_ind (write_group members) (fun done st => exists raws, written members (concat done) raws st)).
  - exists []. split; cbn; [done| |constructor]. intros k chunk raw Hk. by rewrite lookup_nil in Hk.
  - intros done group rest s1 s2 _ [raws Hw] Hs. rewrite concat_app. cbn. rewrite app_nil_r.
    destruct (write_group_written _ _ _ _ _ _ Hw Hs) as [raw Hr]. by exists (raws ++ [raw]).
Qed.

(** *** Reading what was written *)

Lemma slice_N_middle (b c a : bytes) : slice_N (b ++ c ++ a) (N.of_nat (length b)) (N.of_nat (length c)) = c.
Proof. unfold slice_N. by rewrite !Nat2N.id, drop_app_length, take_app_length. Qed.

Lemma read_raw_chunk_stored file k chunk raw : chunk_stored file k chunk raw -> read_zstd_chunked_raw_chunk file chunk = Ok raw.
Proof.
  intros (b & c & a & -> & Hc & ->). unfold read_zstd_chunked_raw_chunk, read_file_range.
  cbn [ck_compressed_offset ck_compressed_len ck_raw_len ck_chunk_ordinal ck_checksum].
  rewrite (proj2 (N.ltb_ge _ _)) by (rewrite !length_app; lia). rewrite slice_N_middle. cbn [mbind result_bind].
  rewrite (zstd_roundtrip raw c Hc). cbn [map_err mbind result_bind]. rewrite N.eqb_refl. cbn [negb fail_if mbind result_bind].
  by rewrite bool_decide_eq_true_2.
Qed.

Lemma member_slice_located m k (b a : bytes) :
  (N.of_nat (length (b ++ mi_data m ++ a)) < u64_modulus)%N ->
  member_slice (b ++ mi_data m ++ a) (index_entry m k (N.of_nat (length b))) = Ok (mi_data m).
Proof.
  intros Hl. unfold member_slice, checked_add. cbn [index_entry mb_in_chunk_offset mb_stored_len mb_entry_name].
  rewrite !length_app in *. rewrite (proj2 (N.ltb_lt _ _)) by lia. cbn [ok_or mbind result_bind].
  rewrite (proj2 (N.ltb_ge _ _)) by lia. cbn [fail_if mbind result_bind]. by rewrite slice_N_middle.
Qed.
End written.

(** ** Lemmas on validation *)

(** A valid list of members is in ordinal order with distinct names, and every
    member range lies in its chunk. *)
Record members_valid (kind : N) (chunks : list ZstdChunkedChunkIndex) (members : list ZstdChunkedMemberIndex) : Prop := {
  mv_ordinals : forall k e, members !! k = Some e -> mb_member_ordinal e = N.of_nat k;
  mv_names : NoDup (map mb_entry_name members);
  mv_chunks : forall e, e ∈ members -> exists c, chunks !! N.to_nat (mb_chunk_ordinal e) = Some c /\
    (mb_in_chunk_offset e + mb_stored_len e <= ck_raw_len c)%N;
  mv_objects : kind = ZSTD_CHUNKED_INDEX_KIND_OBJECT -> forall e, e ∈ members ->
    mb_entry_count e = None /\ (mb_entry_type e = "delta"%string -> is_Some (mb_base_content_id e))
}.

Lemma validate_members_Ok kind chunks members st :
  foldM (validate_member_entry kind chunks) (mkScan 0 ∅ ∅ ∅) members = Ok st -> members_valid kind chunks members.
Proof.
  intros Hf.
  enough (members_valid kind chunks members /\ scan_ordinal st = N.of_nat (length members) /\
    (forall x, x ∈ scan_entry_names st <-> x ∈ map mb_entry_name members)) by tauto.
  revert Hf. apply (foldM_ind (validate_member_entry kind chunks) (fun done st =>
    members_valid kind chunks done /\ scan_ordinal st = N.of_nat (length done) /\
    (forall x, x ∈ scan_entry_names st <-> x ∈ map mb_entry_name done))).
  { split_and!; [|done|cbn; set_solver]. split; cbn; [intros k e; by rewrite lookup_nil|constructor|set_solver|set_solver]. }
  intros done e rest s1 s2 _ ([Hord Hn Hc Hobj] & Ho & Hnames) Hs. unfold validate_member_entry in Hs.
  apply bind_Ok in Hs as (? & Hseq & Hs). apply fail_if_Ok, negb_false_iff, N.eqb_eq in Hseq.
  apply bind_Ok in Hs as (? & Hdup & Hs). apply fail_if_Ok, bool_decide_eq_false in Hdup.
  apply bind_Ok in Hs as (? & _ & Hs). apply bind_Ok in Hs as (c & Hck & Hs). apply ok_or_Ok in Hck.
  apply bind_Ok in Hs as (m_end & He & Hs). apply ok_or_Ok in He. apply bind_Ok in Hs as (? & Hle & Hs).
  apply fail_if_Ok, N.ltb_ge in Hle. apply bind_Ok in Hs as (ids & Hk & Hs). injection Hs as <-. cbn.
  unfold checked_add in He. destruct (_ <? _)%N in He; [injection He as <-|done]. split_and!.
  - split.
    + intros k e' Hke. apply lookup_app_Some in Hke as [Hke|[Hge Hke]]; [by apply Hord|].
      apply list_lookup_singleton_Some in Hke as [Hk0 <-]. lia.
    + rewrite map_app. apply NoDup_app. split_and!; [done| |apply NoDup_singleton]. cbn. set_solver.
    + intros e' [He'| ->]%elem_of_snoc; [by apply Hc|by exists c].
    + intros -> e' [He'| ->]%elem_of_snoc; [by apply Hobj|]. cbn in Hk.
      apply bind_Ok in Hk as (? & Hec & Hk). apply fail_if_Ok, bool_decide_eq_false in Hec.
      apply bind_Ok in Hk as (? & Hdb & _). apply fail_if_Ok, andb_false_iff in Hdb. split.
      * destruct (mb_entry_count e); [destruct Hec; by eexists|done].
      * intros Ht. destruct Hdb as [Hdb|Hdb]; [by rewrite bool_decide_eq_true_2 in Hdb|].
        apply bool_decide_eq_false in Hdb. destruct (mb_base_content_id e); [by eexists|done].
  - rewrite Ho, length_app. cbn. lia.
  - intros name. rewrite map_app, elem_of_union, elem_of_singleton, Hnames. cbn. rewrite elem_of_snoc. tauto.
Qed.

Lemma validate_chunks_data_end data_end chunks n n' :
  foldM (validate_chunk_entry None) n chunks = Ok n' -> (data_end < u64_modulus)%N ->
  (forall c, c ∈ chunks -> (ck_compressed_offset c + ck_compressed_len c <= data_end)%N) ->
  foldM (validate_chunk_entry (Some data_end)) n chunks = Ok n'.
Proof.
  intros Hf Hd. revert n Hf; induction chunks as [|c chunks IH]; intros n Hf Hc; [done|]. cbn [foldM] in *.
  unfold validate_chunk_entry at 2. unfold validate_chunk_entry at 2 in Hf.
  destruct (negb _); cbn [fail_if mbind result_bind] in *; [done|].
  assert (ck_compressed_offset c + ck_compressed_len c <= data_end)%N as Hle by (apply Hc; set_solver).
  unfold checked_add. rewrite (proj2 (N.ltb_lt _ _)) by lia. cbn [ok_or mbind result_bind].
  rewrite (proj2 (N.ltb_ge _ _)) by done. cbn [fail_if mbind result_bind]. apply IH; [done|]. intros; apply Hc; set_solver.
Qed.

Lemma validate_index_data_end index kind fmt data_end :
  validate_zstd_chunked_index index kind fmt None = Ok tt -> (data_end < u64_modulus)%N ->
  (forall c, c ∈ px_chunks index -> (ck_compressed_offset c + ck_compressed_len c <= data_end)%N) ->
  validate_zstd_chunked_index index kind fmt (Some data_end) = Ok tt.
Proof.
  intros H Hd Hc. unfold validate_zstd_chunked_index in *.
  do 3 (destruct (fail_if _ _); cbn [mbind result_bind] in *; [|done]).
  destruct (foldM (validate_chunk_entry None) 0%N (px_chunks index)) as [n|] eqn:Hf; [|done].
  by rewrite (validate_chunks_data_end data_end _ _ _ Hf Hd Hc).
Qed.

Lemma validate_index_members index kind fmt data_end :
  validate_zstd_chunked_index index kind fmt data_end = Ok tt -> members_valid kind (px_chunks index) (px_members index).
Proof.
  intros H. unfold validate_zstd_chunked_index in H.
  do 4 skip_bind H. apply bind_Ok in H as (st & Hm & _). by eapply validate_members_Ok.
Qed.

(** ** What an encoded index says of its numbers *)

(** The part of [index_ok] that encoding does not check. *)
Definition index_text_ok (i : ZstdChunkedPackIndex) : Prop :=
  utf8_string (px_pack_format i) /\ utf8_string (px_pack_id i) /\ utf8_string (px_created_at i) /\
  utf8_string (px_index_entry_name i) /\
  Forall (fun c => (ck_compressed_offset c < u64_modulus)%N /\ hex_checksum (ck_checksum c)) (px_chunks i) /\
  Forall (fun m => utf8_string (mb_entry_name m) /\ utf8_string (mb_content_id m) /\ utf8_string (mb_entry_type m) /\
    (match mb_base_content_id m with Some s => utf8_string s | None => True end) /\
    (match mb_delta_algorithm m with Some s => utf8_string s | None => True end) /\ hex_checksum (mb_checksum m)) (px_members i).

Lemma push_usize32_lt out n label out' : push_usize32 out n label = Ok out' -> (n < 4294967296)%N.
Proof. unfold push_usize32, usize_to_u32. by destruct (N.ltb_spec n 4294967296). Qed.

Lemma push_usize64_lt out n label out' : push_usize64 out n label = Ok out' -> (n < u64_modulus)%N.
Proof. unfold push_usize64, usize_to_u64. by destruct (N.ltb_spec n u64_modulus). Qed.

Lemma push_chunk_ok out c out' :
  push_chunk out c = Ok out' -> (ck_compressed_offset c < u64_modulus)%N -> hex_checksum (ck_checksum c) -> chunk_ok c.
Proof.
  intros H Ho Hc. unfold push_chunk in H. apply bind_Ok in H as (? & ?%push_usize32_lt & H). apply bind_Ok in H as (? & _ & H).
  apply bind_Ok in H as (? & ?%push_usize64_lt & H). apply bind_Ok in H as (? & ?%push_usize64_lt & H). by repeat split.
Qed.

Lemma push_option_usize_lt out o out' :
  push_option_usize out o = Ok out' -> match o with Some n => (n < u64_modulus)%N | None => True end.
Proof. destruct o; [|done]. apply push_usize64_lt. Qed.

Lemma encode_index_ok index kind data :
  encode_zstd_chunked_index index kind = Ok data -> index_text_ok index -> index_ok index.
Proof.
  intros H (Ht1 & Ht2 & Ht3 & Ht4 & Ht5 & Ht6). unfold encode_zstd_chunked_index in H.
  do 4 skip_bind H. apply bind_Ok in H as (? & ?%push_usize32_lt & H).
  apply bind_Ok in H as (? & Hcs & H). apply bind_Ok in H as (? & ?%push_usize32_lt & H).
  repeat split; try done; apply Forall_forall.
  - intros c Hc. destruct (foldM_Ok_each _ _ _ _ _ Hcs Hc) as (? & ? & Hp).
    rewrite Forall_forall in Ht5. destruct (Ht5 c Hc). by eapply push_chunk_ok.
  - intros m Hm. destruct (foldM_Ok_each _ _ _ _ _ H Hm) as (? & ? & Hp). rewrite Forall_forall in Ht6.
    destruct (Ht6 m Hm) as (? & ? & ? & ? & ? & ?). unfold push_member in Hp.
    apply bind_Ok in Hp as (? & ?%push_usize32_lt & Hp). do 3 skip_bind Hp.
    apply bind_Ok in Hp as (? & ?%push_option_usize_lt & Hp). do 2 skip_bind Hp.
    apply bind_Ok in Hp as (? & ?%push_usize32_lt & Hp). apply bind_Ok in Hp as (? & ?%push_usize32_lt & Hp). apply bind_Ok in Hp as (? & ?%push_usize64_lt & Hp).
    apply bind_Ok in Hp as (? & ?%push_usize64_lt & Hp). apply bind_Ok in Hp as (? & ?%push_usize64_lt & Hp).
    by repeat split.
Qed.

(** ** Writing and reading back *)

(** The type invariant of an input: its strings are UTF-8 and its checksum is
    a digest in lowercase hex. *)
Definition input_ok (m : ZstdChunkedMemberInput) : Prop :=
  utf8_string (mi_entry_name m) /\ utf8_string (mi_content_id m) /\ utf8_string (mi_entry_type m) /\
  (match mi_base_content_id m with Some s => utf8_string s | None => True end) /\
  (match mi_delta_algorithm m with Some s => utf8_string s | None => True end) /\ hex_checksum (mi_checksum m).

Definition inputs_ok (members : list ZstdChunkedMemberInput) : Prop :=
  Forall input_ok members /\ forall k m, members !! k = Some m -> mi_member_ordinal m = N.of_nat k.

(** [file] and [index] hold [members]: the index reads back, and each member
    has an entry at its own position whose bytes read back. *)
Record holds_members `{PackPrimitives} (file : bytes) (index : ZstdChunkedPackIndex) (kind : N) (raws : list bytes)
    (members : list ZstdChunkedMemberInput) : Prop := {
  hm_valid : members_valid kind (px_chunks index) (px_members index);
  hm_length : length (px_members index) = length members;
  hm_raws : forall k chunk raw, px_chunks index !! k = Some chunk -> raws !! k = Some raw ->
    read_zstd_chunked_raw_chunk file chunk = Ok raw;
  hm_entries : forall k m, members !! k = Some m -> exists c offset raw chunk,
    px_members index !! k = Some (index_entry m (N.of_nat c) offset) /\ px_chunks index !! c = Some chunk /\
    raws !! c = Some raw /\ member_slice raw (index_entry m (N.of_nat c) offset) = Ok (mi_data m)
}.

Section roundtrip.
Context {P : PackPrimitives} {LP : LawfulPrimitives}.

Lemma hex_checksum_sha256 data : hex_checksum (sha256_hex data).
Proof. exists (sha256_bytes data). split; [apply length_sha256_bytes|done]. Qed.

(** The entry at position [k] is that of the input [k]. *)
Lemma written_entry members raws ordinals indexed k e :
  (forall k m, members !! k = Some m -> mi_member_ordinal m = N.of_nat k) ->
  Forall2 (entry_located members raws) ordinals indexed -> e ∈ indexed -> mb_member_ordinal e = N.of_nat k ->
  entry_located members raws k e.
Proof.
  intros Hord Hf He Hk. apply list_elem_of_lookup in He as [j Hj].
  destruct (Forall2_lookup_r _ _ _ _ _ Hf Hj) as (i & Hi & Hloc). pose proof Hloc as (m & c & b & a & Hm & _ & ->).
  cbn in Hk. rewrite (Hord _ _ Hm) in Hk. apply Nat2N.inj in Hk as <-. done.
Qed.

Lemma written_text_ok members raws ordinals indexed :
  Forall input_ok members -> Forall2 (entry_located members raws) ordinals indexed ->
  Forall (fun m => utf8_string (mb_entry_name m) /\ utf8_string (mb_content_id m) /\ utf8_string (mb_entry_type m) /\
    (match mb_base_content_id m with Some s => utf8_string s | None => True end) /\
    (match mb_delta_algorithm m with Some s => utf8_string s | None => True end) /\ hex_checksum (mb_checksum m)) indexed.
Proof.
  intros Hin Hf. apply Forall_forall. intros e He. apply list_elem_of_lookup in He as [j Hj].
  destruct (Forall2_lookup_r _ _ _ _ _ Hf Hj) as (i & _ & (m & c & b & a & Hm & _ & ->)).
  rewrite Forall_forall in Hin. apply (Hin m). by eapply list_elem_of_lookup_2.
Qed.

Lemma container_written kind fmt name pack_id created_at members chunk_bytes layout file index :
  inputs_ok members -> utf8_string fmt -> utf8_string pack_id -> utf8_string created_at -> utf8_string name ->
  (N.of_nat (length file) < u64_modulus)%N ->
  write_zstd_chunked_container_with_layout kind fmt name pack_id created_at members chunk_bytes layout = Ok (file, index) ->
  exists data index_bytes raws, encode_zstd_chunked_index index kind = Ok index_bytes /\ index_ok index /\
    file = data ++ index_bytes ++ zstd_chunked_trailer (N.of_nat (length data)) (N.of_nat (length index_bytes)) (sha256_bytes index_bytes) /\
    validate_zstd_chunked_index index kind fmt (Some (N.of_nat (length data))) = Ok tt /\
    holds_members file index kind raws members.
Proof.
  intros [Hin Hord] Hu1 Hu2 Hu3 Hu4 Hlen H. unfold write_zstd_chunked_container_with_layout in H.
  apply bind_Ok in H as (plan & _ & H). apply bind_Ok in H as ([] & Hplan & H). apply map_err_Ok, layout_validate_iff in Hplan as [_ Hperm].
  apply bind_Ok in H as ([[data chunks] indexed] & Hw & H). apply bind_Ok in H as ([] & Hval & H).
  apply bind_Ok in H as (index_bytes & Henc & H). apply map_err_Ok in Henc. injection H as <- <-.
  apply write_groups_written in Hw as (raws & [Hl Hcs Hes]). cbn [fst snd] in *.
  set (index := mkPackIndex _ _ _ _ _ _) in *.
  assert (px_members index ≡ₚ indexed) as Hsorted by apply merge_sort_Permutation.
  assert (length data <= length (data ++ index_bytes ++ zstd_chunked_trailer (N.of_nat (length data)) (N.of_nat (length index_bytes)) (sha256_bytes index_bytes))) as Hdl
    by (rewrite length_app; lia).
  assert (forall c, c ∈ chunks -> (ck_compressed_offset c + ck_compressed_len c <= N.of_nat (length data))%N /\ hex_checksum (ck_checksum c)) as Hck.
  { intros c Hc. apply list_elem_of_lookup in Hc as [k Hk]. destruct (lookup_lt_is_Some_2 raws k) as [raw Hr];
      [rewrite <- Hl; by eapply lookup_lt_Some|].
    destruct (Hcs k c raw Hk Hr) as (b & cc & a & Hd & _ & ->). cbn. split; [|apply hex_checksum_sha256].
    rewrite Hd, !length_app. lia. }
  exists data, index_bytes, raws. split_and!; [done| |done| |].
  - apply (encode_index_ok index kind index_bytes Henc). repeat split; try done.
    + apply Forall_forall. intros c Hc. destruct (Hck c Hc). split; [lia|done].
    + rewrite Hsorted. by eapply written_text_ok.
  - apply validate_index_data_end; [done|lia|]. intros c Hc. by apply Hck.
  - pose proof (validate_index_members _ _ _ _ Hval) as Hmv. split.
    + done.
    + rewrite Hsorted, <- (Forall2_length _ _ _ Hes), Hperm. apply length_seq.
    + intros k c raw Hk Hr. eapply (read_raw_chunk_stored _ k), chunk_stored_app; by eauto.
    + intros k m Hm.
      assert (k < length (px_members index)) as Hkl.
      { rewrite Hsorted, <- (Forall2_length _ _ _ Hes), Hperm, length_seq. by eapply lookup_lt_Some. }
      destruct (lookup_lt_is_Some_2 _ _ Hkl) as [e He].
      assert (entry_located members raws k e) as (m' & c & b & a & Hm' & Hr & ->).
      { apply (written_entry members raws (concat plan) indexed k e); [done..| |by eapply mv_ordinals].
        rewrite <- Hsorted. by eapply list_elem_of_lookup_2. }
      rewrite Hm in Hm'. injection Hm' as <-.
      destruct (lookup_lt_is_Some_2 chunks c) as [chunk Hchunk]; [rewrite Hl; by eapply lookup_lt_Some|].
      exists c, (N.of_nat (length b)), (b ++ mi_data m ++ a), chunk. split_and!; [done..|].
      apply member_slice_located. destruct (Hcs c chunk _ Hchunk Hr) as (? & ? & ? & _ & _ & Hce).
      pose proof (encode_index_ok index kind index_bytes Henc) as Hiok.
      assert (index_ok index) as Hix.
      { apply Hiok. repeat split; try done.
        + apply Forall_forall. intros c' Hc'. destruct (Hck c' Hc'). split; [lia|done].
        + rewrite Hsorted. by eapply written_text_ok. }
      destruct Hix as (_ & _ & _ & _ & _ & Hcok & _). rewrite Forall_forall in Hcok.
      assert (chunk ∈ chunks) as Hcin by (by eapply list_elem_of_lookup_2). apply Hcok in Hcin as (_ & _ & _ & Hrl & _).
      rewrite Hce in Hrl. done.
Qed.

Lemma read_written_index kind fmt data index_bytes index :
  (kind < 256)%N -> index_ok index -> encode_zstd_chunked_index index kind = Ok index_bytes ->
  let file := data ++ index_bytes ++ zstd_chunked_trailer (N.of_nat (length data)) (N.of_nat (length index_bytes)) (sha256_bytes index_bytes) in
  (N.of_nat (length file) < u64_modulus)%N ->
  validate_zstd_chunked_index index kind fmt (Some (N.of_nat (length data))) = Ok tt ->
  read_zstd_chunked_container_index_from_bytes file kind fmt = Ok index.
Proof.
  intros Hk Hok Henc file Hlen Hval. unfold read_zstd_chunked_container_index_from_bytes, file in *.
  pose proof (length_trailer (N.of_nat (length data)) (N.of_nat (length index_bytes)) _ (length_sha256_bytes index_bytes)) as Htl.
  set (trailer := zstd_chunked_trailer _ _ _) in *. rewrite !length_app, Htl in *.
  rewrite (proj2 (Nat.ltb_ge _ _)) by lia. cbn [fail_if mbind result_bind].
  replace (length data + (length index_bytes + ZSTD_CHUNKED_TRAILER_LEN) - ZSTD_CHUNKED_TRAILER_LEN) with (length (data ++ index_bytes))
    by (rewrite length_app; lia).
  rewrite app_assoc, drop_app_length. unfold trailer. rewrite decode_trailer by (try apply length_sha256_bytes; lia).
  cbn [map_err mbind result_bind]. unfold checked_add. rewrite (proj2 (N.ltb_lt _ _)) by lia. cbn [ok_or mbind result_bind].
  rewrite (proj2 (N.ltb_ge _ _)) by (rewrite length_app; lia). cbn [fail_if mbind result_bind].
  rewrite <- app_assoc, slice_N_middle. rewrite bool_decide_eq_true_2 by done. cbn [negb fail_if mbind result_bind].
  assert (decode_zstd_chunked_index index_bytes kind = Ok index) as ->; [|cbn [map_err mbind result_bind]; by rewrite Hval].
  unfold decode_zstd_chunked_index. pose proof (encode_index_read index kind index_bytes Hk Hok Henc []) as Hr.
  rewrite app_nil_r in Hr. by rewrite Hr.
Qed.
End roundtrip.

Section readers.
Context {P : PackPrimitives}.

Lemma read_file_range_in file offset len :
  (offset + len <= N.of_nat (length file))%N -> read_file_range file offset len = Ok (slice_N file offset len).
Proof. intros Hl. unfold read_file_range. by rewrite (proj2 (N.ltb_ge _ _)). Qed.

Lemma index_readers_agree file kind fmt :
  read_zstd_chunked_container_index file kind fmt = read_zstd_chunked_container_index_from_bytes file kind fmt.
Proof.
  unfold read_zstd_chunked_container_index, read_zstd_chunked_container_index_from_bytes.
  destruct (Nat.ltb_spec (length file) ZSTD_CHUNKED_TRAILER_LEN) as [Hlt|Hge].
  { by rewrite (proj2 (N.ltb_lt _ _)) by lia. }
  rewrite (proj2 (N.ltb_ge _ _)) by lia. cbn [fail_if mbind result_bind].
  rewrite read_file_range_in by lia. cbn [mbind result_bind].
  replace (slice_N file (N.of_nat (length file) - N.of_nat ZSTD_CHUNKED_TRAILER_LEN) (N.of_nat ZSTD_CHUNKED_TRAILER_LEN))
    with (drop (length file - ZSTD_CHUNKED_TRAILER_LEN) file).
  2: { unfold slice_N. rewrite Nat2N.id, <- Nat2N.inj_sub, Nat2N.id. rewrite take_ge; [done|]. rewrite length_drop. lia. }
  destruct (decode_zstd_chunked_trailer _) as [[[io il] cs]|e]; [|done]. cbn [map_err mbind result_bind].
  destruct (checked_add io il) as [ie|] eqn:Hie; [|done]. cbn [ok_or mbind result_bind].
  rewrite Nat2N.inj_sub. destruct (N.ltb_spec (N.of_nat (length file) - N.of_nat ZSTD_CHUNKED_TRAILER_LEN) ie) as [|Hle]; [done|].
  unfold checked_add in Hie. destruct (_ <? _)%N in Hie; [injection Hie as <-|done]. cbn [fail_if mbind result_bind].
  by rewrite read_file_range_in by lia.
Qed.

(** A cache that holds only raw chunks of the file. *)
Definition cache_ok (file : bytes) (index : ZstdChunkedPackIndex) (cache : gmap N bytes) : Prop :=
  forall c raw, cache !! c = Some raw -> exists chunk, px_chunks index !! N.to_nat c = Some chunk /\
    read_zstd_chunked_raw_chunk file chunk = Ok raw.

Lemma cached_read_eq file index member cache : cache_ok file index cache ->
  snd (read_zstd_chunked_member_stored_bytes_with_chunk_cache file index member cache) =
    read_zstd_chunked_member_stored_bytes file index member /\
  cache_ok file index (fst (read_zstd_chunked_member_stored_bytes_with_chunk_cache file index member cache)).
Proof.
  intros Hc. unfold read_zstd_chunked_member_stored_bytes_with_chunk_cache, read_zstd_chunked_member_stored_bytes.
  destruct (px_chunks index !! N.to_nat (mb_chunk_ordinal member)) as [chunk|] eqn:Hk; [|done]. cbn [ok_or mbind result_bind].
  destruct (cache !! mb_chunk_ordinal member) as [raw|] eqn:Hm.
  - split; [|done]. destruct (Hc _ _ Hm) as (chunk' & Hk' & Hr). rewrite Hk in Hk'. injection Hk' as <-. by rewrite Hr.
  - destruct (read_zstd_chunked_raw_chunk file chunk) as [raw|e] eqn:Hr; [|done]. split; [done|]. cbn [fst].
    intros c raw'. intros [[<- <-]|[_ Hc']]%lookup_insert_Some; [by exists chunk|by apply Hc].
Qed.

Lemma holds_read file index kind raws members k m : holds_members file index kind raws members -> members !! k = Some m ->
  exists e, px_members index !! k = Some e /\ (exists c o, e = index_entry m c o) /\
    read_zstd_chunked_member_stored_bytes file index e = Ok (mi_data m).
Proof.
  intros [_ _ Hr He] Hm. destruct (He k m Hm) as (c & o & raw & chunk & Hk & Hc & Hraw & Hs).
  eexists. split_and!; [done|by eexists _, _|]. unfold read_zstd_chunked_member_stored_bytes.
  cbn [index_entry mb_chunk_ordinal]. rewrite Nat2N.id, Hc. cbn [ok_or mbind result_bind].
  rewrite (Hr c chunk raw Hc Hraw). cbn [mbind result_bind]. exact Hs.
Qed.
End readers.

(** ** Theorems *)

(** The two index readers agree: reading the trailer and the index by
    file ranges, as the open path does, returns the same index or the same
    error as parsing the whole container in memory, for every byte string. *)
Theorem container_index_readers_agree {P : PackPrimitives} file kind fmt :
  read_zstd_chunked_container_index file kind fmt = read_zstd_chunked_container_index_from_bytes file kind fmt.
Proof. apply index_readers_agree. Qed.

(** Container round trip: what the writer returns reads back. The index
    read from the written file is the index the writer returned, the digest
    recomputed from it is the one in the trailer, and the entry at every
    position has the metadata of the input there, and its stored bytes,
    decompressed and sliced out of their chunk, are the input's data. *)
Theorem container_roundtrip {P : PackPrimitives} {LP : LawfulPrimitives} kind fmt name pack_id created_at members chunk_bytes layout file index :
  (kind < 256)%N -> inputs_ok members -> Forall utf8_string [fmt; name; pack_id; created_at] ->
  (N.of_nat (length file) < u64_modulus)%N ->
  write_zstd_chunked_container_with_layout kind fmt name pack_id created_at members chunk_bytes layout = Ok (file, index) ->
  read_zstd_chunked_container_index file kind fmt = Ok index /\
  length (px_members index) = length members /\
  (forall k m, members !! k = Some m -> exists e, px_members index !! k = Some e /\ (exists c o, e = index_entry m c o) /\
     read_zstd_chunked_member_stored_bytes file index e = Ok (mi_data m)) /\
  exists index_bytes, encode_zstd_chunked_index index kind = Ok index_bytes /\
    zstd_chunked_container_index_checksum file kind fmt = Ok (sha256_hex index_bytes).
Proof.
  intros Hk Hin Hu Hlen H. rewrite !Forall_cons in Hu. destruct Hu as (Hu1 & Hu2 & Hu3 & Hu4 & _).
  destruct (container_written kind fmt name pack_id created_at members chunk_bytes layout file index) as
    (data & ib & raws & Henc & Hok & -> & Hval & Hh); [done..|].
  assert (read_zstd_chunked_container_index (data ++ ib ++ zstd_chunked_trailer (N.of_nat (length data)) (N.of_nat (length ib)) (sha256_bytes ib)) kind fmt
    = Ok index) as Hread by (rewrite index_readers_agree; by apply read_written_index).
  split_and!; [done|by eapply hm_length| |].
  - intros k m Hm. by eapply holds_read.
  - exists ib. split; [done|]. unfold zstd_chunked_container_index_checksum. by rewrite Hread; cbn; rewrite Henc.
Qed.

(** Primitives that can be computed: a digest that folds the data into 32
    bytes, and a compressor that only adds a tag. *)
Definition toy_digest (data : bytes) : bytes :=
  to_le_bytes 32 (foldl (fun h b => (h * 263 + Byte.to_N b + 1) mod 2 ^ 256)%N 7%N data).
#[local] Instance toy_primitives : PackPrimitives := {
  sha256_bytes := toy_digest;
  zstd_compress raw := Ok (Byte.x28 :: raw);
  zstd_decompress c _ := match c with _ :: raw => Ok raw | [] => Err "empty"%string end
}.
#[local] Instance toy_lawful : LawfulPrimitives.
Proof. split; [intros data; apply length_to_le_bytes|]. by intros raw c [= <-]. Qed.

Definition example_input (k : N) (id : string) (data : bytes) : ZstdChunkedMemberInput :=
  mkInput k ("blobs/" +:+ id) id "full" None None None 0 data (N.of_nat (length data)) (sha256_hex data).

Lemma example_input_ok k id data : utf8_string id -> utf8_string ("blobs/" +:+ id) -> input_ok (example_input k id data).
Proof. intros H1 H2. repeat split; try done. apply hex_checksum_sha256. Qed.

Definition example_inputs : list ZstdChunkedMemberInput :=
  [example_input 0 "A" [Byte.x61; Byte.x62; Byte.x63]; example_input 1 "B" []; example_input 2 "C" [Byte.x64; Byte.x65]].

Lemma container_roundtrip_witness :
  exists file index, write_zstd_chunked_container_with_layout ZSTD_CHUNKED_INDEX_KIND_OBJECT PACK_FORMAT_ZSTD_CHUNKED_V1
      ZSTD_CHUNKED_OBJECT_INDEX_ENTRY_NAME "PCK-1" CONTENT_ADDRESSED_PACK_INDEX_CREATED_AT example_inputs 100
      (Some [[2]; [0; 1]]) = Ok (file, index) /\
    read_zstd_chunked_container_index file ZSTD_CHUNKED_INDEX_KIND_OBJECT PACK_FORMAT_ZSTD_CHUNKED_V1 = Ok index.
Proof.
  eexists _, _. split; [vm_compute; reflexivity|].
  refine (proj1 (container_roundtrip ZSTD_CHUNKED_INDEX_KIND_OBJECT PACK_FORMAT_ZSTD_CHUNKED_V1
    ZSTD_CHUNKED_OBJECT_INDEX_ENTRY_NAME "PCK-1" CONTENT_ADDRESSED_PACK_INDEX_CREATED_AT example_inputs 100
    (Some [[2]; [0; 1]]) _ _ _ _ _ _ _)); [done| |repeat constructor|vm_compute; reflexivity|vm_compute; reflexivity].
  split; [repeat apply Forall_cons_2; try apply Forall_nil_2; by apply example_input_ok|].
  intros [|[|[|k]]] m; cbn; [by intros [= <-]..|done].
Defined.
