(* ===== verification/PackRead.v ===== *)
(** * Typed object packs, end to end

    The typed writer of [ait-core/src/pack_substrate/object.rs] and the
    recursive entry reader of [pack_substrate/zstd/object_pack.rs], which
    resolves a delta through its chain of bases, with a bound on the depth, a
    check for cycles and a cache of chunks. *)

From Stdlib Require Import NArith Lia.
From Stdlib Require Strings.Byte.
From stdpp Require Import base numbers sorting fin_sets gmap strings list.
From S2P Require Import Prelude ChunkLayout PackCodec DeltaEncoder PackMembers PackIndex PackContainer.

Inductive pack_error : Type :=
| ContainerError (e : container_error)
| DeltaError (e : delta_error)
| TypedFormat (format : string)
| NoncanonicalIdentity (blob_id : string)
| InconsistentMetadata (blob_id entry_type : string)
| ChainDepthExceeded (entry_name : string)
| MissingEntry (entry_name : string)
| EntryChecksum (entry_name : string)
| EntrySize (entry_name : string)
| UnsupportedEntryType (entry_type : string)
| InvalidDeltaBase (entry_name : string)
| CyclicChain (entry_name : string)
| MissingBaseResolver (entry_name : string)
| InvalidDeltaAlgorithm (entry_name : string)
| ReadOutOfFuel.

Definition blob_entry_name (blob_id : string) : string := "blobs/" +:+ blob_id.

Section pack.
Context {P : PackPrimitives}.

(** ** Writing typed members *)

(** [match member.entry_type.as_str()]: the metadata each type must have. *)
Definition consistent_metadata (member : ObjectPackWriteMember) : bool :=
  if bool_decide (wm_entry_type member = "full"%string) then
    bool_decide (wm_base_blob_id member = None) && (wm_chain_depth member =? 0)%N
      && bool_decide (wm_delta_algorithm member = None) && bool_decide (logical_bytes member = wm_data member)
  else if bool_decide (wm_entry_type member = "delta"%string) then
    bool_decide (is_Some (wm_base_blob_id member)) && (0 <? wm_chain_depth member)%N
      && bool_decide (wm_delta_algorithm member = Some PACK_DELTA_GIT_BINARY_V1)
      && bool_decide (is_Some (wm_logical_data member))
  else false.

Definition typed_input (ordinal : N) (member : ObjectPackWriteMember) : ZstdChunkedMemberInput :=
  mkInput ordinal (wm_entry_name member) (wm_blob_id member) (wm_entry_type member) None (wm_base_blob_id member)
    (wm_delta_algorithm member) (wm_chain_depth member) (wm_data member) (N.of_nat (length (logical_bytes member)))
    (sha256_hex (logical_bytes member)).

(** One member; the state is the ordinal, [entry_names], [blob_ids] and the
    inputs collected. *)
Definition typed_member (st : N * gset string * gset string * list ZstdChunkedMemberInput) (member : ObjectPackWriteMember)
  : result pack_error (N * gset string * gset string * list ZstdChunkedMemberInput) :=
  let '(ordinal, entry_names, blob_ids, inputs) := st in
  _ ← fail_if (negb (bool_decide (wm_entry_name member = blob_entry_name (wm_blob_id member)))
               || bool_decide (wm_entry_name member ∈ entry_names)
               || bool_decide (wm_blob_id member ∈ blob_ids)) (NoncanonicalIdentity (wm_blob_id member));
  _ ← fail_if (negb (consistent_metadata member)) (InconsistentMetadata (wm_blob_id member) (wm_entry_type member));
  Ok ((ordinal + 1)%N, {[wm_entry_name member]} ∪ entry_names, {[wm_blob_id member]} ∪ blob_ids,
      inputs ++ [typed_input ordinal member]).

Definition write_typed_pack_archive_with_layout (pack_id created_at : string) (members : list ObjectPackWriteMember)
    (persisted_pack_format : string) (layout : option ObjectPackChunkLayout)
  : result pack_error (bytes * ZstdChunkedPackIndex) :=
  _ ← fail_if (negb (bool_decide (persisted_pack_format = PACK_FORMAT_ZSTD_CHUNKED_V1))) (TypedFormat persisted_pack_format);
  st ← foldM typed_member (0%N, ∅, ∅, []) members;
  let '(_, _, _, inputs) := st in
  map_err ContainerError (write_zstd_chunked_container_with_layout ZSTD_CHUNKED_INDEX_KIND_OBJECT PACK_FORMAT_ZSTD_CHUNKED_V1
    ZSTD_CHUNKED_OBJECT_INDEX_ENTRY_NAME pack_id created_at inputs ZSTD_CHUNKED_DEFAULT_CHUNK_BYTES layout).

(** ** The storage gate *)

(** The size an archive would have; checksums are placeholders of the right
    length. *)
Definition placeholder_checksum : string := hex_string (repeat Byte.x00 32).

Definition estimate_member (members : list ObjectPackWriteMember) (chunk_ordinal : N)
    (acc : bytes * list ZstdChunkedMemberIndex) (ordinal : nat) : result container_error (bytes * list ZstdChunkedMemberIndex) :=
  let '(raw, indexed) := acc in
  member ← ok_or (members !! ordinal) (PanicMemberIndex ordinal);
  Ok (raw ++ wm_data member,
      indexed ++ [mkIndexMember (N.of_nat ordinal) (wm_entry_name member) (wm_blob_id member) (wm_entry_type member) None
        (wm_base_blob_id member) (wm_delta_algorithm member) (wm_chain_depth member) chunk_ordinal (N.of_nat (length raw))
        (N.of_nat (length (wm_data member))) (N.of_nat (length (logical_bytes member))) placeholder_checksum]).

Definition estimate_group (members : list ObjectPackWriteMember)
    (st : list ZstdChunkedChunkIndex * list ZstdChunkedMemberIndex * N) (group : list nat)
  : result container_error (list ZstdChunkedChunkIndex * list ZstdChunkedMemberIndex * N) :=
  let '(chunks, indexed, compressed_bytes) := st in
  let chunk_ordinal := N.of_nat (length chunks) in
  acc ← foldM (estimate_member members chunk_ordinal) ([], indexed) group;
  let '(raw, indexed) := acc in
  compressed ← map_err ZstdError (zstd_compress raw);
  let compressed_len := N.of_nat (length compressed) in
  Ok (chunks ++ [mkChunk chunk_ordinal compressed_bytes compressed_len (N.of_nat (length raw)) placeholder_checksum],
      indexed, (compressed_bytes + compressed_len)%N).

Definition estimated_typed_pack_archive_bytes_with_layout (members : list ObjectPackWriteMember)
    (layout : ObjectPackChunkLayout) : result container_error N :=
  _ ← map_err LayoutError (layout_validate layout (length members));
  st ← foldM (estimate_group members) ([], [], 0%N) layout;
  let '(chunks, indexed, compressed_bytes) := st in
  let index := mkPackIndex PACK_FORMAT_ZSTD_CHUNKED_V1 "PCK-000000000000" CONTENT_ADDRESSED_PACK_INDEX_CREATED_AT
                 ZSTD_CHUNKED_OBJECT_INDEX_ENTRY_NAME chunks (merge_sort ordinal_le indexed) in
  data ← map_err IndexError (encode_zstd_chunked_index index ZSTD_CHUNKED_INDEX_KIND_OBJECT);
  Ok (compressed_bytes + N.of_nat (length data) + N.of_nat ZSTD_CHUNKED_TRAILER_LEN)%N.

(** [ObjectPackChunkLayout::for_members]. *)
Definition layout_for_members (members : list ObjectPackWriteMember) (priority_ids : option (gset string))
  : result layout_error ObjectPackChunkLayout :=
  layout_new (map (fun m => N.of_nat (length (wm_data m))) members)
    ((fun ids => map (fun m => bool_decide (wm_blob_id m ∈ ids)) members) <$> priority_ids)
    ZSTD_CHUNKED_DEFAULT_CHUNK_BYTES.

Definition estimate_archive (members : list ObjectPackWriteMember) (priority_ids : option (gset string))
  : result container_error N :=
  layout ← map_err LayoutError (layout_for_members members priority_ids);
  estimated_typed_pack_archive_bytes_with_layout members layout.

Definition build_typed_pack_members_with_storage_gate_and_partitions (candidates : list PackCandidate)
    (max_delta_chain_depth : N) (initial_by_path : option (gmap string PackCandidate)) (priority_ids : option (gset string))
  : result container_error (list ObjectPackWriteMember) :=
  let full := map full_member candidates in
  let proposed := build_typed_pack_members candidates max_delta_chain_depth initial_by_path in
  if negb (existsb (fun m => bool_decide (wm_entry_type m = "delta"%string)) proposed) then Ok proposed
  else
    proposed_bytes ← estimate_archive proposed priority_ids;
    full_bytes ← estimate_archive full priority_ids;
    Ok (if (proposed_bytes <? full_bytes)%N then proposed else full).

(** ** Reading an entry *)

(** The two checks that end both branches. *)
Definition check_entry (member : ZstdChunkedMemberIndex) (entry_name : string) (data : bytes) : result pack_error bytes :=
  _ ← fail_if (negb (bool_decide (sha256_hex data = mb_checksum member))) (EntryChecksum entry_name);
  _ ← fail_if (negb (N.of_nat (length data) =? mb_logical_len member)%N) (EntrySize entry_name);
  Ok data.

Definition find_member (index : ZstdChunkedPackIndex) (entry_name : string) : option ZstdChunkedMemberIndex :=
  List.find (fun e => bool_decide (mb_entry_name e = entry_name)) (px_members index).

Definition member_identity (member : ZstdChunkedMemberIndex) (entry_name : string) : string :=
  if bool_decide (mb_content_id member = EmptyString) then entry_name else mb_content_id member.

(** The recursion, with the chunk cache threaded through. *)
Fixpoint read_entry_with_chunk_cache (fuel : nat) (file : bytes) (index : ZstdChunkedPackIndex) (entry_name : string)
    (base_map : option (gmap string bytes)) (max_chain_depth : N) (visited : gset string) (depth : N) (cache : gmap N bytes)
  : gmap N bytes * result pack_error bytes :=
  match fuel with
  | O => (cache, Err ReadOutOfFuel)
  | S fuel =>
    if (max_chain_depth <? depth)%N then (cache, Err (ChainDepthExceeded entry_name)) else
    match find_member index entry_name with
    | None => (cache, Err (MissingEntry entry_name))
    | Some member =>
      if (max_chain_depth <? mb_chain_depth member)%N then (cache, Err (ChainDepthExceeded entry_name)) else
      let '(cache, stored) := read_zstd_chunked_member_stored_bytes_with_chunk_cache file index member cache in
      match stored with
      | Err e => (cache, Err (ContainerError e))
      | Ok data =>
        if bool_decide (mb_entry_type member = "full"%string) then (cache, check_entry member entry_name data)
        else if negb (bool_decide (mb_entry_type member = "delta"%string))
        then (cache, Err (UnsupportedEntryType (mb_entry_type member)))
        else
          match mb_base_content_id member with
          | None => (cache, Err (InvalidDeltaBase entry_name))
          | Some base_blob_id =>
            let identity := member_identity member entry_name in
            if bool_decide (identity ∈ visited) then (cache, Err (CyclicChain entry_name)) else
            let base_entry_name := blob_entry_name base_blob_id in
            let '(cache, base_data) :=
              if existsb (fun e => bool_decide (mb_entry_name e = base_entry_name)) (px_members index) then
                read_entry_with_chunk_cache fuel file index base_entry_name base_map max_chain_depth
                  ({[identity]} ∪ visited) (depth + 1) cache
              else
                (cache, match base_map with
                        | Some base_map => ok_or (base_map !! base_blob_id) (MissingBaseResolver entry_name)
                        | None => Err (MissingBaseResolver entry_name)
                        end) in
            (cache, base_data ← base_data;
                    algorithm ← ok_or (mb_delta_algorithm member) (InvalidDeltaAlgorithm entry_name);
                    resolved ← map_err DeltaError (apply_pack_delta base_data data algorithm);
                    check_entry member entry_name resolved)
          end
      end
    end
  end.

(** The depth grows with each call, so [max_chain_depth + 1] calls suffice. *)
Definition read_fuel (max_chain_depth : N) : nat := S (S (N.to_nat max_chain_depth)).

Definition read_zstd_chunked_object_entry (file : bytes) (index : ZstdChunkedPackIndex) (entry_name : string)
    (base_map : option (gmap string bytes)) (max_chain_depth : N) : result pack_error bytes :=
  snd (read_entry_with_chunk_cache (read_fuel max_chain_depth) file index entry_name base_map max_chain_depth ∅ 0 ∅).

(** [PackEntryArchive::read_entry]: the archive keeps its cache. *)
Definition archive_read_entry (file : bytes) (index : ZstdChunkedPackIndex) (cache : gmap N bytes) (entry_name : string)
    (base_map : option (gmap string bytes)) (max_chain_depth : N) : gmap N bytes * result pack_error bytes :=
  read_entry_with_chunk_cache (read_fuel max_chain_depth) file index entry_name base_map max_chain_depth ∅ 0 cache.

Definition read_zstd_chunked_pack_entry (file : bytes) (entry_name : string) (base_map : option (gmap string bytes))
    (max_chain_depth : N) : result pack_error bytes :=
  index ← map_err ContainerError (read_zstd_chunked_container_index file ZSTD_CHUNKED_INDEX_KIND_OBJECT PACK_FORMAT_ZSTD_CHUNKED_V1);
  read_zstd_chunked_object_entry file index entry_name base_map max_chain_depth.

(** A session of an open archive: its cache goes from one read to the next. *)
Definition archive_session (file : bytes) (index : ZstdChunkedPackIndex) (base_map : option (gmap string bytes)) (max : N)
    (names : list string) : gmap N bytes * list (result pack_error bytes) :=
  foldl (fun acc name => let '(cache, data) := archive_read_entry file index (fst acc) name base_map max in
                         (cache, snd acc ++ [data])) (∅, []) names.
End pack.

(** ** Lemmas on the reader *)

Section reader.
Context {P : PackPrimitives}.
Context (file : bytes) (index : ZstdChunkedPackIndex) (base_map : option (gmap string bytes)) (max : N).

Local Abbreviation read fuel visited depth cache name :=
  (read_entry_with_chunk_cache fuel file index name base_map max visited depth cache).

Lemma check_entry_Ok member name data data' :
  check_entry member name data = Ok data' ->
  data' = data /\ sha256_hex data = mb_checksum member /\ N.of_nat (length data) = mb_logical_len member.
Proof.
  unfold check_entry. intros H. inv_ok. apply negb_false_iff, bool_decide_eq_true in Hok.
  by apply negb_false_iff, N.eqb_eq in Hok0.
Qed.

Lemma check_entry_no_fuel member name data : check_entry member name data <> Err ReadOutOfFuel.
Proof. unfold check_entry, fail_if. do 2 destruct (negb _); done. Qed.

(** The depth bound makes the recursion finite, whatever the index says. *)
Lemma read_entry_no_fuel fuel visited depth cache name :
  (depth <= max + 1)%N -> N.to_nat max + 1 < fuel + N.to_nat depth -> snd (read fuel visited depth cache name) <> Err ReadOutOfFuel.
Proof.
  revert visited depth cache name; induction fuel as [|fuel IH]; intros visited depth cache name Hd Hf; [lia|].
  cbn [read_entry_with_chunk_cache]. destruct (N.ltb_spec max depth) as [|Hle]; [done|].
  destruct (find_member index name) as [member|]; [|done]. destruct (_ <? _)%N; [done|].
  destruct (read_zstd_chunked_member_stored_bytes_with_chunk_cache file index member cache) as [cache1 [data|e]]; [|done].
  destruct (bool_decide (mb_entry_type member = _)); [apply check_entry_no_fuel|]. destruct (negb _); [done|].
  destruct (mb_base_content_id member) as [base|]; [|done]. destruct (bool_decide (_ ∈ visited)); [done|].
  set (r := if existsb _ _ then _ else _). assert (snd r <> Err ReadOutOfFuel) as Hr.
  { unfold r. destruct (existsb _ _); [apply IH; lia|]. destruct base_map as [m|]; [|done]. cbn. by destruct (m !! base). }
  destruct r as [cache2 [b|e]]; cbn in *; [|congruence].
  destruct (mb_delta_algorithm member); [|done]. cbn. destruct (apply_pack_delta b data _); [|done]. cbn. apply check_entry_no_fuel.
Qed.

Lemma find_member_Some name member : find_member index name = Some member -> member ∈ px_members index /\ mb_entry_name member = name.
Proof. unfold find_member. intros [Hin Hn]%List.find_some. apply bool_decide_eq_true in Hn. by apply list_elem_of_In in Hin. Qed.

(** Whatever is returned has the digest and length that the index records. *)
Lemma read_entry_checked fuel visited depth cache name data :
  snd (read fuel visited depth cache name) = Ok data ->
  exists member, member ∈ px_members index /\ mb_entry_name member = name /\ (mb_chain_depth member <= max)%N /\
    sha256_hex data = mb_checksum member /\ N.of_nat (length data) = mb_logical_len member.
Proof.
  destruct fuel as [|fuel]; [done|]. cbn [read_entry_with_chunk_cache]. destruct (_ <? _)%N; [done|].
  destruct (find_member index name) as [member|] eqn:Hm; [|done]. apply find_member_Some in Hm as [Hin Hn].
  destruct (N.ltb_spec max (mb_chain_depth member)) as [|Hle]; [done|].
  intros H. exists member. split; [done|]. split; [done|]. split; [done|]. revert H.
  destruct (read_zstd_chunked_member_stored_bytes_with_chunk_cache file index member cache) as [cache1 [d|e]]; [|done].
  destruct (bool_decide (mb_entry_type member = _)); [cbn; intros [-> H]%check_entry_Ok; exact H|]. destruct (negb _); [done|].
  destruct (mb_base_content_id member) as [base|]; [|done]. destruct (bool_decide (_ ∈ visited)); [done|].
  set (r := if existsb _ _ then _ else _). destruct r as [cache2 [b|e]]; [|done]. cbn.
  destruct (mb_delta_algorithm member) as [alg|]; [|done]. cbn. destruct (apply_pack_delta b d _); [|done]. cbn.
  intros [-> H]%check_entry_Ok; exact H.
Qed.

Lemma cache_ok_empty : cache_ok file index ∅.
Proof. intros c raw. by rewrite lookup_empty. Qed.

(** The cache changes no result. *)
Lemma read_entry_cache fuel visited depth cache name : cache_ok file index cache ->
  snd (read fuel visited depth cache name) = snd (read fuel visited depth ∅ name) /\
  cache_ok file index (fst (read fuel visited depth cache name)).
Proof.
  pose proof cache_ok_empty as Hempty.
  revert visited depth cache name; induction fuel as [|fuel IH]; intros visited depth cache name Hc; [done|].
  cbn [read_entry_with_chunk_cache]. destruct (_ <? _)%N; [done|].
  destruct (find_member index name) as [member|]; [|done]. destruct (_ <? _)%N; [done|].
  destruct (cached_read_eq file index member cache Hc) as [Hs1 Hk1].
  destruct (cached_read_eq file index member ∅ Hempty) as [Hs2 Hk2].
  destruct (read_zstd_chunked_member_stored_bytes_with_chunk_cache file index member cache) as [c1 s1].
  destruct (read_zstd_chunked_member_stored_bytes_with_chunk_cache file index member ∅) as [c2 s2]. cbn [fst snd] in *. subst s1 s2.
  destruct (read_zstd_chunked_member_stored_bytes file index member) as [d|e]; [|done].
  destruct (bool_decide (mb_entry_type member = _)); [done|]. destruct (negb _); [done|].
  destruct (mb_base_content_id member) as [base|]; [|done]. destruct (bool_decide (_ ∈ visited)); [done|].
  destruct (existsb _ _); [|done].
  destruct (IH ({[member_identity member name]} ∪ visited) (depth + 1)%N c1 (blob_entry_name base) Hk1) as [Ha1 Hb1].
  destruct (IH ({[member_identity member name]} ∪ visited) (depth + 1)%N c2 (blob_entry_name base) Hk2) as [Ha2 _].
  destruct (read_entry_with_chunk_cache fuel _ _ _ _ _ _ _ c1) as [c3 r1], (read_entry_with_chunk_cache fuel _ _ _ _ _ _ _ c2) as [c4 r2].
  cbn [fst snd] in *. by subst r1 r2.
Qed.

Lemma archive_session_ok names :
  cache_ok file index (fst (archive_session file index base_map max names)) /\
  snd (archive_session file index base_map max names) =
    map (fun name => read_zstd_chunked_object_entry file index name base_map max) names.
Proof.
  unfold archive_session. induction names as [|name names IH] using rev_ind; [split; [apply cache_ok_empty|done]|].
  rewrite foldl_app, map_app. revert IH. generalize (foldl (fun acc name => let '(cache, data) := archive_read_entry file index (fst acc)
    name base_map max in (cache, snd acc ++ [data])) (∅, []) names). intros [cache results] [Hc Hs]. cbn [foldl map fst snd] in *.
  destruct (read_entry_cache (read_fuel max) ∅ 0 cache name Hc) as [Hr Hk]. unfold archive_read_entry.
  destruct (read_entry_with_chunk_cache _ _ _ _ _ _ _ _ cache) as [cache' r]. cbn [fst snd] in *.
  rewrite Hs, Hr. by split.
Qed.
End reader.

(** ** Lemmas on the typed writer *)

#[export] Instance blob_entry_name_inj : Inj (=) (=) blob_entry_name.
Proof. intros a b H. unfold blob_entry_name in H. by injection H. Qed.

Lemma utf8_blob_entry_name id : utf8_string id -> utf8_string (blob_entry_name id).
Proof. intros H. exact H. Qed.

(** Identities of a typed pack: canonical names, distinct blobs, and the
    metadata that the type of each member calls for. *)
Record typed_pack (members : list ObjectPackWriteMember) : Prop := {
  tp_names : forall m, m ∈ members -> wm_entry_name m = blob_entry_name (wm_blob_id m);
  tp_distinct : NoDup (map wm_blob_id members);
  tp_metadata : forall m, m ∈ members -> consistent_metadata m = true
}.

Lemma typed_members_Ok `{PackPrimitives} members ordinal names ids inputs :
  foldM typed_member (0%N, ∅, ∅, []) members = Ok (ordinal, names, ids, inputs) ->
  typed_pack members /\ inputs = imap (fun k m => typed_input (N.of_nat k) m) members.
Proof.
  intros Hf.
  enough (typed_pack members /\ snd (ordinal, names, ids, inputs) = imap (fun k m => typed_input (N.of_nat k) m) members /\
    fst (fst (fst (ordinal, names, ids, inputs))) = N.of_nat (length members) /\
    (forall x, x ∈ snd (fst (ordinal, names, ids, inputs)) <-> x ∈ map wm_blob_id members)) by tauto.
  revert Hf. apply (foldM_ind typed_member (fun done st => typed_pack done /\
    snd st = imap (fun k m => typed_input (N.of_nat k) m) done /\ fst (fst (fst st)) = N.of_nat (length done) /\
    (forall x, x ∈ snd (fst st) <-> x ∈ map wm_blob_id done))).
  { split_and!; [|done..|set_solver]. split; cbn; [set_solver|constructor|set_solver]. }
  intros done m rest [[[o nms] bids] ins] s2 _ ([Hn Hd Hm] & Hi & Ho & Hids) Hs. cbn [fst snd] in *. unfold typed_member in Hs.
  apply bind_Ok in Hs as (? & Hid & Hs). apply fail_if_Ok, orb_false_iff in Hid as [Hid Hfresh].
  apply orb_false_iff in Hid as [Hname _]. apply negb_false_iff, bool_decide_eq_true in Hname. apply bool_decide_eq_false in Hfresh.
  apply bind_Ok in Hs as (? & Hmeta & Hs). apply fail_if_Ok, negb_false_iff in Hmeta. injection Hs as <-. cbn [fst snd]. split_and!.
  - split.
    + intros m' [Hm'| ->]%elem_of_snoc; auto.
    + rewrite map_app. apply NoDup_app. split_and!; [done| |apply NoDup_singleton]. cbn. set_solver.
    + intros m' [Hm'| ->]%elem_of_snoc; auto.
  - rewrite imap_app, Hi. cbn. by rewrite Nat.add_0_r, Ho.
  - rewrite length_app, Ho. cbn. lia.
  - intros name. rewrite map_app, elem_of_union, elem_of_singleton, Hids. cbn. rewrite elem_of_snoc. tauto.
Qed.

Lemma find_unique {A} (f : A -> string) (l : list A) k x :
  NoDup (map f l) -> l !! k = Some x -> List.find (fun e => bool_decide (f e = f x)) l = Some x.
Proof.
  revert k; induction l as [|y l IH]; intros k Hnd Hk; [done|]. cbn. cbn in Hnd. apply NoDup_cons in Hnd as [Hy Hnd].
  case_bool_decide as Heq.
  - destruct k as [|k]; [by injection Hk as ->|]. destruct Hy. rewrite Heq. apply list_elem_of_fmap_2.
    by eapply list_elem_of_lookup_2.
  - destruct k as [|k]; [by injection Hk as ->|]. by eapply IH.
Qed.

(** ** Reading a typed pack *)

(** Member [k] can be resolved: it is full, or it is a delta of an earlier
    member, or of a blob outside the pack that [base_map] holds. *)
Definition resolvable (base_map : gmap string bytes) (members : list ObjectPackWriteMember) (k : nat)
    (m : ObjectPackWriteMember) : Prop :=
  (wm_entry_type m = "full"%string /\ wm_data m = logical_bytes m) \/
  exists b base, wm_entry_type m = "delta"%string /\ wm_base_blob_id m = Some b /\
    wm_delta_algorithm m = Some PACK_DELTA_GIT_BINARY_V1 /\ (0 < wm_chain_depth m)%N /\
    apply_git_binary_delta base (wm_data m) = Ok (logical_bytes m) /\
    ((exists j mj, j < k /\ members !! j = Some mj /\ wm_blob_id mj = b /\ logical_bytes mj = base /\
        wm_chain_depth m = (wm_chain_depth mj + 1)%N) \/
     (b ∉ map wm_blob_id members /\ base_map !! b = Some base)).

Section resolve.
Context {P : PackPrimitives}.
Context (file : bytes) (index : ZstdChunkedPackIndex) (raws : list bytes) (base_map : gmap string bytes) (max : N).
Context (members : list ObjectPackWriteMember).
Hypothesis (Hholds : holds_members file index ZSTD_CHUNKED_INDEX_KIND_OBJECT raws
  (imap (fun k m => typed_input (N.of_nat k) m) members)).
Hypothesis (Htyped : typed_pack members).
Hypothesis (Hnonempty : forall m, m ∈ members -> wm_blob_id m <> EmptyString).
Hypothesis (Hdepth : forall m, m ∈ members -> (wm_chain_depth m <= max)%N).
Hypothesis (Hresolve : forall k m, members !! k = Some m -> resolvable base_map members k m).

Lemma entry_at k m : members !! k = Some m -> exists e c o, px_members index !! k = Some e /\
  e = index_entry (typed_input (N.of_nat k) m) c o /\
  read_zstd_chunked_member_stored_bytes file index e = Ok (wm_data m) /\ find_member index (blob_entry_name (wm_blob_id m)) = Some e.
Proof.
  intros Hm. destruct (holds_read _ _ _ _ _ k (typed_input (N.of_nat k) m) Hholds) as (e & He & (c & o & ->) & Hr).
  { by rewrite list_lookup_imap, Hm. }
  exists (index_entry (typed_input (N.of_nat k) m) c o), c, o. split_and!; [done..|].
  pose proof (find_unique mb_entry_name _ _ _ (mv_names _ _ _ (hm_valid _ _ _ _ _ Hholds)) He) as Hf.
  cbn in Hf. rewrite (tp_names _ Htyped m) in Hf by (by eapply list_elem_of_lookup_2). exact Hf.
Qed.

Lemma named_entry b : existsb (fun e => bool_decide (mb_entry_name e = blob_entry_name b)) (px_members index) = true <->
  b ∈ map wm_blob_id members.
Proof.
  rewrite existsb_exists. split.
  - intros (e & Hin & Hn). apply bool_decide_eq_true in Hn. apply list_elem_of_In, list_elem_of_lookup in Hin as [k Hk].
    assert (k < length members) as Hlt.
    { apply lookup_lt_Some in Hk. rewrite (hm_length _ _ _ _ _ Hholds), length_imap in Hk. done. }
    destruct (lookup_lt_is_Some_2 _ _ Hlt) as [m Hm]. destruct (entry_at k m Hm) as (e' & c & o & He' & -> & _).
    rewrite Hk in He'. injection He' as ->. cbn in Hn.
    assert (m ∈ members) as Hmin by (by eapply list_elem_of_lookup_2).
    rewrite (tp_names _ Htyped m Hmin) in Hn. apply (inj blob_entry_name) in Hn as <-. by apply list_elem_of_fmap_2.
  - intros (m & -> & Hm)%list_elem_of_fmap. pose proof Hm as Hin. apply list_elem_of_lookup in Hm as [k Hk].
    destruct (entry_at k m Hk) as (e & c & o & He & -> & _). eexists. split; [by eapply list_elem_of_In, list_elem_of_lookup_2|].
    cbn. by rewrite bool_decide_eq_true_2 by (by apply (tp_names _ Htyped)).
Qed.

Lemma distinct_ids j k mj mk : members !! j = Some mj -> members !! k = Some mk -> wm_blob_id mj = wm_blob_id mk -> j = k.
Proof.
  intros Hj Hk Heq. assert (forall i m, members !! i = Some m -> map wm_blob_id members !! i = Some (wm_blob_id m)) as Hl.
  { intros i m Hi. change (map wm_blob_id members) with (wm_blob_id <$> members). by rewrite list_lookup_fmap, Hi. }
  apply (NoDup_lookup (map wm_blob_id members) j k (wm_blob_id mk)); [apply Htyped|rewrite <- Heq|]; by apply Hl.
Qed.

Lemma check_entry_typed k m c o name :
  check_entry (index_entry (typed_input (N.of_nat k) m) c o) name (logical_bytes m) = Ok (logical_bytes m).
Proof.
  unfold check_entry. cbn [index_entry mb_checksum mb_logical_len typed_input mi_checksum mi_logical_len].
  by rewrite bool_decide_eq_true_2, N.eqb_refl.
Qed.

Lemma read_resolves k m fuel visited depth cache :
  members !! k = Some m -> cache_ok file index cache -> (depth + wm_chain_depth m <= max)%N ->
  N.to_nat (max - depth) < fuel ->
  (forall j mj, j <= k -> members !! j = Some mj -> wm_blob_id mj ∉ visited) ->
  snd (read_entry_with_chunk_cache fuel file index (blob_entry_name (wm_blob_id m)) (Some base_map) max visited depth cache) =
    Ok (logical_bytes m).
Proof.
  revert k m visited depth cache; induction fuel as [|fuel IH]; intros k m visited depth cache Hm Hc Hd Hf Hv; [lia|].
  cbn [read_entry_with_chunk_cache]. rewrite (proj2 (N.ltb_ge _ _)) by lia.
  destruct (entry_at k m Hm) as (e & c & o & He & Heq & Hr & Hfind). rewrite Hfind.
  assert (m ∈ members) as Hin by (by eapply list_elem_of_lookup_2).
  assert (mb_entry_type e = wm_entry_type m /\ mb_base_content_id e = wm_base_blob_id m /\
    mb_delta_algorithm e = wm_delta_algorithm m /\ mb_chain_depth e = wm_chain_depth m) as (Hety & Heb & Hea & Hed) by (by rewrite Heq).
  rewrite Hed, (proj2 (N.ltb_ge _ _)) by (by apply Hdepth).
  destruct (cached_read_eq file index e cache Hc) as [Hs Hc'].
  destruct (read_zstd_chunked_member_stored_bytes_with_chunk_cache file index e cache) as [cache1 stored]. cbn [fst snd] in *.
  rewrite Hs, Hr, Hety.
  destruct (Hresolve k m Hm) as [[Ht Hdata]|(b & base & Ht & Hb & Halg & Hpos & Happ & Hbase)].
  { rewrite bool_decide_eq_true_2 by done. cbn [snd]. rewrite Heq, Hdata. apply check_entry_typed. }
  rewrite Ht, bool_decide_eq_false_2, bool_decide_eq_true_2 by done. cbn [negb]. rewrite Heb, Hb. assert (member_identity e (blob_entry_name (wm_blob_id m)) = wm_blob_id m) as Hid.
  { unfold member_identity. rewrite Heq. cbn. by rewrite bool_decide_eq_false_2 by (by apply Hnonempty). }
  rewrite Hid, bool_decide_eq_false_2 by (by apply (Hv k m)).
  assert (snd (if existsb (fun e => bool_decide (mb_entry_name e = blob_entry_name b)) (px_members index)
    then read_entry_with_chunk_cache fuel file index (blob_entry_name b) (Some base_map) max ({[wm_blob_id m]} ∪ visited) (depth + 1) cache1
    else (cache1, ok_or (base_map !! b) (MissingBaseResolver (blob_entry_name (wm_blob_id m))))) = Ok base) as Hsnd.
  { destruct Hbase as [(j & mj & Hj & Hmj & <- & <- & Hdj)|[Hout Hmap]].
    - rewrite (proj2 (named_entry _)) by (apply list_elem_of_fmap_2; by eapply list_elem_of_lookup_2).
      apply (IH j); [done|done|lia|lia|]. intros i mi Hi Hmi. apply not_elem_of_union. split; [|apply (Hv i mi); [lia|done]].
      rewrite not_elem_of_singleton. intros Hsame. pose proof (distinct_ids _ _ _ _ Hmi Hm Hsame). lia.
    - destruct (existsb _ _) eqn:Hex; [by apply named_entry in Hex|]. cbn. by rewrite Hmap. }
  destruct (if existsb _ _ then _ else _) as [cache2 base_data]. cbn [snd] in *. subst base_data. cbn [mbind result_bind].
  rewrite Hea, Halg. cbn [ok_or mbind result_bind].
  unfold apply_pack_delta. rewrite bool_decide_eq_true_2 by done. rewrite Happ. cbn [map_err mbind result_bind]. rewrite Heq. apply check_entry_typed.
Qed.
End resolve.

(** ** What the selector produces can be resolved *)

Lemma stores_item_fields max initial items members item m : stores_item max initial items members item m ->
  wm_blob_id m = pc_blob_id item /\ logical_bytes m = pc_data item.
Proof. by intros [->|(base & d & -> & _)]. Qed.

(** Candidates whose selected members can be written: texts are UTF-8, names
    are not empty, and no initial base is packed again. *)
Record candidates_ok (candidates : list PackCandidate) (initial : gmap string PackCandidate) (base_map : gmap string bytes) : Prop := {
  co_text : forall c, c ∈ candidates -> utf8_string (pc_blob_id c) /\ pc_blob_id c <> EmptyString;
  co_initial : forall path b, initial !! path = Some b ->
    utf8_string (pc_blob_id b) /\ (pc_blob_id b ∉ map pc_blob_id candidates) /\ base_map !! pc_blob_id b = Some (pc_data b)
}.

(** [members] stores the [candidates] in a way that a reader can resolve. *)
Record members_store (max : N) (base_map : gmap string bytes) (candidates : list PackCandidate)
    (members : list ObjectPackWriteMember) : Prop := {
  ms_item : forall k item, candidates !! k = Some item -> exists m, members !! k = Some m /\
    wm_blob_id m = pc_blob_id item /\ logical_bytes m = pc_data item;
  ms_resolvable : forall k m, members !! k = Some m -> resolvable base_map members k m;
  ms_depth : forall m, m ∈ members -> (wm_chain_depth m <= max)%N;
  ms_text : forall m, m ∈ members -> utf8_string (wm_blob_id m) /\ wm_blob_id m <> EmptyString /\
    utf8_string (wm_entry_type m) /\ (match wm_base_blob_id m with Some s => utf8_string s | None => True end) /\
    (match wm_delta_algorithm m with Some s => utf8_string s | None => True end)
}.

Lemma full_members_store max base_map initial candidates :
  candidates_ok candidates initial base_map -> members_store max base_map candidates (map full_member candidates).
Proof.
  intros [Ht _]. assert (forall k m, map full_member candidates !! k = Some m -> exists c, c ∈ candidates /\ m = full_member c) as Hinv.
  { intros k m Hk%list_elem_of_lookup_2. change (map full_member candidates) with (full_member <$> candidates) in Hk.
    apply list_elem_of_fmap in Hk as (c & -> & Hc). by exists c. }
  split.
  - intros k item Hk. exists (full_member item). split_and!; [|done..].
    change (map full_member candidates) with (full_member <$> candidates). by rewrite list_lookup_fmap, Hk.
  - intros k m Hm. destruct (Hinv k m Hm) as (c & _ & ->). by left.
  - intros m Hm. apply list_elem_of_lookup in Hm as [k Hk]. destruct (Hinv k m Hk) as (c & _ & ->). cbn. lia.
  - intros m Hm. apply list_elem_of_lookup in Hm as [k Hk]. destruct (Hinv k m Hk) as (c & Hc & ->). cbn.
    destruct (Ht c Hc). by repeat split.
Qed.

Section selected.
Context (candidates : list PackCandidate) (initial : gmap string PackCandidate) (base_map : gmap string bytes) (max : N).
Hypothesis (Hok : candidates_ok candidates initial base_map).

Local Abbreviation members := (build_typed_pack_members candidates max (Some initial)).

Lemma selected_stored k item m : candidates !! k = Some item -> members !! k = Some m ->
  stores_item max initial (take k candidates) (take k members) item m.
Proof. apply (pi_members _ _ _ _ (build_typed_pack_members_inv candidates max (Some initial))). Qed.

Lemma selected_lookup k m : members !! k = Some m -> exists item, candidates !! k = Some item /\
  stores_item max initial (take k candidates) (take k members) item m.
Proof.
  intros Hm. destruct (lookup_lt_is_Some_2 candidates k) as [item Hi].
  { rewrite <- (build_typed_pack_members_length candidates max (Some initial)). by eapply lookup_lt_Some. }
  exists item. split; [done|by apply selected_stored].
Qed.

Lemma selected_ids : map wm_blob_id members = map pc_blob_id candidates.
Proof.
  apply list_eq. intros k. change (map wm_blob_id members) with (wm_blob_id <$> members).
  change (map pc_blob_id candidates) with (pc_blob_id <$> candidates). rewrite !list_lookup_fmap.
  destruct (members !! k) as [m|] eqn:Hm.
  - destruct (selected_lookup k m Hm) as (item & Hi & Hs). rewrite Hi. cbn. f_equal. by eapply stores_item_fields.
  - apply lookup_ge_None in Hm. rewrite build_typed_pack_members_length in Hm. by rewrite (proj2 (lookup_ge_None candidates k) Hm).
Qed.

Lemma selected_members_store : members_store max base_map candidates members.
Proof.
  split.
  - intros k item Hi. destruct (lookup_lt_is_Some_2 members k) as [m Hm].
    { rewrite build_typed_pack_members_length. by eapply lookup_lt_Some. }
    exists m. split; [done|]. eapply stores_item_fields, selected_stored; eauto.
  - intros k m Hm. destruct (selected_lookup k m Hm) as (item & Hi & [->|(base & d & -> & Hkb & _ & _ & _ & _ & Happ)]); [by left|].
    right. exists (pc_blob_id base), (pc_data base). split_and!; [done..|cbn; lia|done|].
    destruct Hkb as [[path Hp]|(j & itemj & mj & Hij & Hmj & Hb & Hd & Hc)].
    + right. rewrite selected_ids. by destruct (co_initial _ _ _ Hok path base Hp) as (_ & ? & ?).
    + apply lookup_take_Some in Hij as [Hij Hlt]. apply lookup_take_Some in Hmj as [Hmj _].
      destruct (stores_item_fields _ _ _ _ _ _ (selected_stored j itemj mj Hij Hmj)) as [H1 H2].
      left. exists j, mj. split_and!; [done..|congruence|congruence|]. cbn. by rewrite Hc.
  - intros m Hm. apply list_elem_of_lookup in Hm as [k Hk].
    destruct (selected_lookup k m Hk) as (item & Hi & [->|(base & d & -> & _ & _ & Hle & _)]); [cbn; lia|done].
  - intros m Hm. apply list_elem_of_lookup in Hm as [k Hk].
    destruct (selected_lookup k m Hk) as (item & Hi & Hs). assert (item ∈ candidates) as Hin by (by eapply list_elem_of_lookup_2).
    destruct (co_text _ _ _ Hok item Hin) as [Hu Hne]. destruct Hs as [->|(base & d & -> & Hkb & _)]; cbn; [by repeat split|].
    split_and!; [done..| |done]. destruct Hkb as [[path Hp]|(j & itemj & mj & Hij & _ & -> & _)].
    + by apply (co_initial _ _ _ Hok path base Hp).
    + apply lookup_take_Some in Hij as [Hij _]. apply (co_text _ _ _ Hok). by eapply list_elem_of_lookup_2.
Qed.
End selected.

(** ** Theorems *)

Section theorems.
Context {P : PackPrimitives} {LP : LawfulPrimitives}.

Lemma typed_inputs_ok members base_map max candidates :
  typed_pack members -> members_store max base_map candidates members ->
  inputs_ok (imap (fun k m => typed_input (N.of_nat k) m) members).
Proof.
  intros Hty Hms. split.
  - apply Forall_forall. intros i Hi. apply list_elem_of_lookup in Hi as [k Hk]. rewrite list_lookup_imap in Hk.
    destruct (members !! k) as [m|] eqn:Hm; [|done]. injection Hk as <-. apply list_elem_of_lookup_2 in Hm.
    destruct (ms_text _ _ _ _ Hms m Hm) as (? & ? & ? & ? & ?). repeat split; cbn; try done.
    + rewrite (tp_names _ Hty m Hm). by apply utf8_blob_entry_name.
    + apply hex_checksum_sha256.
  - intros k i Hk. rewrite list_lookup_imap in Hk. destruct (members !! k); [|done]. by injection Hk as <-.
Qed.

Lemma typed_archive_reads base_map max candidates members pack_id created_at fmt layout file index max_read cache item :
  members_store max base_map candidates members -> (max <= max_read)%N -> utf8_string pack_id -> utf8_string created_at ->
  (N.of_nat (length file) < u64_modulus)%N ->
  write_typed_pack_archive_with_layout pack_id created_at members fmt layout = Ok (file, index) ->
  item ∈ candidates -> cache_ok file index cache ->
  read_zstd_chunked_container_index file ZSTD_CHUNKED_INDEX_KIND_OBJECT PACK_FORMAT_ZSTD_CHUNKED_V1 = Ok index /\
  snd (archive_read_entry file index cache (blob_entry_name (pc_blob_id item)) (Some base_map) max_read) = Ok (pc_data item).
Proof.
  intros Hms Hmax Hu1 Hu2 Hlen Hw Hitem Hc. unfold write_typed_pack_archive_with_layout in Hw.
  skip_bind Hw. apply bind_Ok in Hw as ([[[o nms] bids] inputs] & Ht & Hw). apply map_err_Ok in Hw.
  apply typed_members_Ok in Ht as [Hty ->].
  assert (utf8_string PACK_FORMAT_ZSTD_CHUNKED_V1) as Hf by by vm_compute.
  assert (utf8_string ZSTD_CHUNKED_OBJECT_INDEX_ENTRY_NAME) as Hn by by vm_compute.
  destruct (container_written _ _ _ _ _ _ _ _ _ _ (typed_inputs_ok _ _ _ _ Hty Hms) Hf Hu1 Hu2 Hn Hlen Hw) as
    (data & ib & raws & Henc & Hok & Hfile & Hval & Hholds).
  split; [rewrite index_readers_agree, Hfile; apply read_written_index; try done; by rewrite <- Hfile|].
  apply list_elem_of_lookup in Hitem as [k Hk]. destruct (ms_item _ _ _ _ Hms k item Hk) as (m & Hm & Hid & Hlog).
  assert (m ∈ members) as Hmin by (by eapply list_elem_of_lookup_2).
  pose proof (ms_depth _ _ _ _ Hms m Hmin). unfold archive_read_entry, read_fuel. rewrite <- Hid, <- Hlog.
  eapply (read_resolves file index raws base_map max_read members); try done.
  - intros m' Hm'. by apply (ms_text _ _ _ _ Hms).
  - intros m' Hm'. pose proof (ms_depth _ _ _ _ Hms m' Hm'). lia.
  - apply (ms_resolvable _ _ _ _ Hms).
  - lia.
  - lia.
Qed.

(** The storage gate keeps what the selector guarantees. *)
Lemma gate_members_store candidates initial base_map max priority_ids members :
  candidates_ok candidates initial base_map ->
  build_typed_pack_members_with_storage_gate_and_partitions candidates max (Some initial) priority_ids = Ok members ->
  members_store max base_map candidates members.
Proof.
  intros Hok H. unfold build_typed_pack_members_with_storage_gate_and_partitions in H.
  destruct (negb _); [injection H as <-; by apply selected_members_store|].
  inv_ok. destruct (_ <? _)%N; [by apply selected_members_store|by eapply full_members_store].
Qed.

(** C1. A pack written and read back, end to end. Take candidates whose texts
    are valid and whose initial bases are not packed again, let the storage
    gate choose between deltas and full members, and write its choice. If a
    file comes out, the entry of every candidate, looked up by name and
    resolved through its chain of deltas, is the candidate's data, whatever
    reading depth at least the packing depth is used, and whatever entries an
    open archive has read before. *)
Theorem typed_pack_roundtrip candidates initial base_map max priority_ids members pack_id created_at fmt layout file index max_read :
  candidates_ok candidates initial base_map -> (max <= max_read)%N -> utf8_string pack_id -> utf8_string created_at ->
  (N.of_nat (length file) < u64_modulus)%N ->
  build_typed_pack_members_with_storage_gate_and_partitions candidates max (Some initial) priority_ids = Ok members ->
  write_typed_pack_archive_with_layout pack_id created_at members fmt layout = Ok (file, index) ->
  forall item, item ∈ candidates ->
    read_zstd_chunked_pack_entry file (blob_entry_name (pc_blob_id item)) (Some base_map) max_read = Ok (pc_data item) /\
    forall names, snd (archive_read_entry file index (fst (archive_session file index (Some base_map) max_read names))
      (blob_entry_name (pc_blob_id item)) (Some base_map) max_read) = Ok (pc_data item).
Proof.
  intros Hok Hmax Hu1 Hu2 Hlen Hgate Hw item Hitem. apply (gate_members_store _ _ base_map) in Hgate; [|done].
  destruct (typed_archive_reads base_map max candidates members pack_id created_at fmt layout file index max_read ∅ item) as [Hi Hr];
    try done.
  split.
  - unfold read_zstd_chunked_pack_entry. rewrite Hi. exact Hr.
  - intros names. apply (typed_archive_reads base_map max candidates members pack_id created_at fmt layout); try done. apply archive_session_ok.
Qed.

(** The entry reader is safe on any file and any index, with any cache the
    archive has built: it stops (the recursion is bounded by the depth limit,
    also on an index whose deltas form a cycle), and what it returns has the
    digest and the length recorded by an entry of that name whose depth is
    within the limit. *)
Theorem entry_reader_safe file index base_map max names name :
  snd (archive_read_entry file index (fst (archive_session file index base_map max names)) name base_map max) <> Err ReadOutOfFuel /\
  forall data, snd (archive_read_entry file index (fst (archive_session file index base_map max names)) name base_map max) = Ok data ->
    exists member, member ∈ px_members index /\ mb_entry_name member = name /\ (mb_chain_depth member <= max)%N /\
      sha256_hex data = mb_checksum member /\ N.of_nat (length data) = mb_logical_len member.
Proof.
  generalize (fst (archive_session file index base_map max names)). intros cache. unfold archive_read_entry.
  split; [apply read_entry_no_fuel; unfold read_fuel; lia|]. intros data. apply read_entry_checked.
Qed.

(** The chunk cache is transparent: a session of reads through one open
    archive returns, entry by entry and error by error, what independent reads
    with an empty cache return. *)
Theorem archive_session_transparent file index base_map max names :
  snd (archive_session file index base_map max names) =
    map (fun name => read_zstd_chunked_object_entry file index name base_map max) names.
Proof. apply archive_session_ok. Qed.
End theorems.

#[local] Existing Instance toy_primitives.
#[local] Existing Instance toy_lawful.

(** Two versions of a file: the second is stored as a delta of the first. *)
Definition example_version (k : nat) : bytes :=
  concat (map (fun i => to_le_bytes 2 (N.of_nat (i * 7919 mod 65521))) (seq 0 48)) ++ to_le_bytes 1 (N.of_nat k).
Definition example_candidate (k : nat) (id : string) : PackCandidate :=
  mkCandidate (blob_entry_name id) id (example_version k) (Some "src/a.rs"%string) 0.
Definition example_candidates : list PackCandidate := [example_candidate 1 "A"; example_candidate 2 "B"; example_candidate 3 "C"].

Example example_is_delta :
  map (fun m => (wm_entry_type m, wm_chain_depth m)) (build_typed_pack_members example_candidates 4 (Some ∅)) =
    [("full", 0%N); ("delta", 1%N); ("delta", 2%N)].
Proof. vm_compute. reflexivity. Qed.

Lemma typed_pack_roundtrip_witness : exists members file index,
  build_typed_pack_members_with_storage_gate_and_partitions example_candidates 4 (Some ∅) None = Ok members /\
  write_typed_pack_archive_with_layout "PCK-1" CONTENT_ADDRESSED_PACK_INDEX_CREATED_AT members PACK_FORMAT_ZSTD_CHUNKED_V1 None
    = Ok (file, index) /\
  read_zstd_chunked_pack_entry file "blobs/C" (Some ∅) MAX_DELTA_CHAIN_READ_DEPTH = Ok (example_version 3).
Proof.
  eexists _, _, _. split; [vm_compute; reflexivity|]. split; [vm_compute; reflexivity|].
  refine (proj1 (typed_pack_roundtrip example_candidates ∅ ∅ 4 None _ "PCK-1" CONTENT_ADDRESSED_PACK_INDEX_CREATED_AT
    PACK_FORMAT_ZSTD_CHUNKED_V1 None _ _ MAX_DELTA_CHAIN_READ_DEPTH _ _ _ _ _ _ _ (example_candidate 3 "C") _));
    [|done|done|done|vm_compute; reflexivity|vm_compute; reflexivity|vm_compute; reflexivity|].
  - split; [|by intros path b]. intros c Hc. repeat (apply elem_of_cons in Hc as [->|Hc]; [done|]). by apply elem_of_nil in Hc.
  - by right; right; left.
Defined.
