(* ===== verification/TreePack.v ===== *)
(** * Tree packs

    [ait-core/src/pack_substrate/tree_pack.rs] and [zstd/tree_pack.rs]: the
    members of a tree pack are the rows of trees, given as JSON, and stored in
    a binary form of their own in the container of [PackContainer]. *)

From Stdlib Require Import NArith ZArith Lia.
From Stdlib Require Strings.Byte.
From stdpp Require Import base numbers strings list gmap fin_sets sorting.
From S2P Require Import Prelude Codec Json ChunkLayout PackIndex PackContainer.

Definition TREE_PACK_FORMAT_KIND_ZSTD_CHUNKED_V1 : string := "zstd_chunked_tree_v1".
Definition TREE_PACK_FORMAT_ZSTD_CHUNKED_V1 : string := "ait-tree-pack-v2-zstd-chunked".
Definition ZSTD_CHUNKED_TREE_MEMBER_MAGIC : bytes := bytes_of_string "AITTREE1".

Inductive tree_pack_error : Type :=
| TreeJson (e : json_error)
| TreeIndex (e : index_error)
| TreeContainer (e : container_error)
| TreeByteLength (tree_id : string)
| TreeChecksum (tree_id : string)
| TreeIdMismatch (tree_id : string)
| TreeMissingEntries (tree_id : string)
| TreeEntryCount (tree_id : string)
| TreePayloadMagic
| TreePayloadVersion (version : N)
| TreeTrailingBytes
| MissingTreeEntryCount (content_id : string)
| MissingTreeId (tree_id : string)
| MissingEntryOrdinal (entry_ordinal : N)
| MissingTreeEntry (entry_name : string)
| MissingTreeFormat
| UnsupportedTreeFormat (pack_format : string)
| UnsupportedTreeIndexFormat (pack_format : string)
| MissingStatsEntries
| StatsEntryObject
| StatsMissingTreeId
| StatsMissingChecksum.

Local Abbreviation json_result A := (result json_error A).
Local Abbreviation tree_result A := (result tree_pack_error A).

Definition from_json {A} (m : json_result A) : tree_result A := map_err TreeJson m.
Definition from_index {A} (m : result index_error A) : tree_result A := map_err TreeIndex m.
Definition from_container {A} (m : result container_error A) : tree_result A := map_err TreeContainer m.

(** [TreePackFormatKind::from_persisted]; there is one format. *)
Inductive TreePackFormatKind : Type := ZstdChunkedTreeV1.
Definition from_persisted (value : string) : tree_result TreePackFormatKind :=
  let value := trim value in
  if bool_decide (value = TREE_PACK_FORMAT_ZSTD_CHUNKED_V1) || bool_decide (value = TREE_PACK_FORMAT_KIND_ZSTD_CHUNKED_V1) then Ok ZstdChunkedTreeV1
  else if bool_decide (value = EmptyString) then Err MissingTreeFormat
  else Err (UnsupportedTreeFormat value).

(** ** Data *)

Record TreePackMember : Type := mkTreeMember {
  tm_tree_id : string;
  tm_entry_name : string;
  tm_entry_count : N;
  tm_data : bytes;
  tm_checksum : string
}.

Record TreePackIndexEntry : Type := mkTreeEntry {
  ti_tree_id : string;
  ti_entry_count : N;
  ti_byte_length : N;
  ti_checksum : string
}.

(** ** Building members *)

Definition size_bytes_value (row_obj : Map) : JsonValue := default JNull (map_get "size_bytes" row_obj).

(** A row of [tree_payload_bytes]. *)
Definition payload_row (row : JsonValue) : json_result JsonValue :=
  row_obj ← as_object row "tree entry row";
  entry_name ← required_text_field row_obj "entry_name";
  entry_type ← required_text_field row_obj "entry_type";
  target_id ← required_text_field row_obj "target_id";
  mode ← required_text_field row_obj "mode";
  Ok (json_object [("entry_name", JString entry_name); ("entry_type", JString entry_type); ("target_id", JString target_id);
                   ("size_bytes", size_bytes_value row_obj); ("mode", JString mode)])%string.

Definition row_name (row : JsonValue) : string :=
  match row with JObject m => default EmptyString (map_get "entry_name" m ≫= as_str) | _ => EmptyString end.

Definition tree_payload_bytes {J : JsonText} (tree_id : string) (tree_entry_rows : list JsonValue) : json_result bytes :=
  entries ← mapM_result payload_row tree_entry_rows;
  json_bytes_compact_sorted (json_object [("tree_id", JString tree_id); ("entries", JArray (sort_by_key row_name entries))]%string).

Definition group_row (entry_rows_by_tree : gmap string (list JsonValue)) (row : JsonValue) : json_result (gmap string (list JsonValue)) :=
  row_obj ← as_object row "tree entry row";
  tree_id ← required_text_field row_obj "tree_id";
  Ok (<[tree_id := default [] (entry_rows_by_tree !! tree_id) ++ [row]]> entry_rows_by_tree).

Definition tree_row_key (row : JsonValue) : string :=
  match row with JObject m => default EmptyString (optional_text_field m "tree_id") | _ => EmptyString end.

Definition tree_member {J : JsonText} {P : PackPrimitives} (entry_rows_by_tree : gmap string (list JsonValue)) (row : JsonValue) : json_result JsonValue :=
  row_obj ← as_object row "tree row";
  tree_id ← required_text_field row_obj "tree_id";
  data ← tree_payload_bytes tree_id (default [] (entry_rows_by_tree !! tree_id));
  entry_count ← required_usize_field row_obj "entry_count";
  Ok (json_object [("tree_id", JString tree_id); ("entry_name", JString ("trees/" +:+ tree_id +:+ ".json"));
                   ("entry_count", JNumber (PosInt entry_count)); ("data", json_of_bytes data); ("checksum", JString (sha256_hex data))])%string.

Definition build_tree_pack_members {J : JsonText} {P : PackPrimitives} (tree_rows tree_entry_rows : JsonValue) : json_result JsonValue :=
  trees ← as_array tree_rows "tree_rows";
  entries ← as_array tree_entry_rows "tree_entry_rows";
  entry_rows_by_tree ← foldM group_row ∅ entries;
  members ← mapM_result (tree_member entry_rows_by_tree) (sort_by_key tree_row_key trees);
  Ok (JArray members).

(** ** The payload of a member *)

Definition parse_tree_pack_member {P : PackPrimitives} (row : JsonValue) : json_result TreePackMember :=
  row_obj ← as_object row "tree pack member";
  data ← required_bytes_field row_obj "data";
  tree_id ← required_text_field row_obj "tree_id";
  entry_name ← required_text_field row_obj "entry_name";
  entry_count ← required_usize_field row_obj "entry_count";
  Ok (mkTreeMember tree_id entry_name entry_count data (default (sha256_hex data) (optional_text_field row_obj "checksum"))).
Definition parse_tree_pack_members {P : PackPrimitives} (value : JsonValue) : json_result (list TreePackMember) :=
  rows ← as_array value "tree pack members"; mapM_result parse_tree_pack_member rows.

(** A row as [tree_pack_rows_from_payload_bytes] gives it. *)
Definition checked_row (tree_id : string) (row : JsonValue) : json_result JsonValue :=
  row_obj ← as_object row "tree pack row";
  entry_name ← required_text_field row_obj "entry_name";
  entry_type ← required_text_field row_obj "entry_type";
  target_id ← required_text_field row_obj "target_id";
  mode ← required_text_field row_obj "mode";
  Ok (json_object [("tree_id", JString tree_id); ("entry_name", JString entry_name); ("entry_type", JString entry_type);
                   ("target_id", JString target_id); ("size_bytes", size_bytes_value row_obj); ("mode", JString mode)])%string.

Section Payload.
Context {J : JsonText} {P : PackPrimitives}.

Definition check_payload (raw : bytes) (entry : TreePackIndexEntry) : tree_result unit :=
  _ ← fail_if (negb (N.of_nat (length raw) =? ti_byte_length entry)%N) (TreeByteLength (ti_tree_id entry));
  fail_if (negb (bool_decide (sha256_hex raw = ti_checksum entry))) (TreeChecksum (ti_tree_id entry)).

Definition tree_pack_rows_from_payload_bytes (raw : bytes) (entry : TreePackIndexEntry) : tree_result (list JsonValue) :=
  _ ← check_payload raw entry;
  payload ← from_json (map_err JsonCodecError (json_from_slice raw));
  payload_obj ← from_json (as_object payload "tree pack payload");
  _ ← fail_if (negb (bool_decide (optional_text_field payload_obj "tree_id" = Some (ti_tree_id entry)))) (TreeIdMismatch (ti_tree_id entry));
  entries ← ok_or (map_get "entries" payload_obj) (TreeMissingEntries (ti_tree_id entry));
  rows ← from_json (as_array entries "entries");
  _ ← fail_if (negb (N.of_nat (length rows) =? ti_entry_count entry)%N) (TreeEntryCount (ti_tree_id entry));
  from_json (mapM_result (checked_row (ti_tree_id entry)) rows).

(** One row of [encode_zstd_chunked_tree_payload]. *)
Definition push_json_row (tree_id : string) (out : bytes) (row : JsonValue) : tree_result bytes :=
  row_obj ← from_json (as_object row "tree pack row");
  row_tree_id ← from_json (required_text_field row_obj "tree_id");
  _ ← fail_if (negb (bool_decide (row_tree_id = tree_id))) (TreeIdMismatch tree_id);
  entry_name ← from_json (required_text_field row_obj "entry_name");
  out ← from_index (push_string out entry_name);
  entry_type ← from_json (required_text_field row_obj "entry_type");
  out ← from_index (push_string out entry_type);
  target_id ← from_json (required_text_field row_obj "target_id");
  out ← from_index (push_string out target_id);
  size_bytes ← from_json (optional_usize_field row_obj "size_bytes");
  out ← from_index (push_option_usize out size_bytes);
  mode ← from_json (required_text_field row_obj "mode");
  from_index (push_string out mode).

Definition encode_zstd_chunked_tree_payload (tree_id : string) (entry_count : N) (rows : list JsonValue) : tree_result bytes :=
  _ ← fail_if (negb (N.of_nat (length rows) =? entry_count)%N) (TreeEntryCount tree_id);
  let out := push_u32 ZSTD_CHUNKED_TREE_MEMBER_MAGIC ZSTD_CHUNKED_VERSION in
  out ← from_index (push_string out tree_id);
  count ← from_index (usize_to_u32 entry_count "tree_entry_count");
  foldM (push_json_row tree_id) (push_u32 out count) rows.

Definition zstd_chunked_tree_member_payload_bytes (member : TreePackMember) : tree_result bytes :=
  rows ← tree_pack_rows_from_payload_bytes (tm_data member)
    (mkTreeEntry (tm_tree_id member) (tm_entry_count member) (N.of_nat (length (tm_data member))) (tm_checksum member));
  encode_zstd_chunked_tree_payload (tm_tree_id member) (tm_entry_count member) rows.

(** The fields of a stored row. *)
Record tree_row : Type := mkRow {
  tr_entry_name : string;
  tr_entry_type : string;
  tr_target_id : string;
  tr_size_bytes : option N;
  tr_mode : string
}.
Definition read_tree_row : pack_reader tree_row :=
  entry_name ← read_string "entry_name";
  entry_type ← read_string "entry_type";
  target_id ← read_string "target_id";
  size_bytes ← read_option_usize "size_bytes";
  mode ← read_string "mode";
  mret (mkRow entry_name entry_type target_id size_bytes mode).
Definition size_json (size_bytes : option N) : JsonValue := match size_bytes with Some size => JNumber (PosInt size) | None => JNull end.
Definition row_json (tree_id : string) (row : tree_row) : JsonValue :=
  json_object [("tree_id", JString tree_id); ("entry_name", JString (tr_entry_name row)); ("entry_type", JString (tr_entry_type row));
               ("target_id", JString (tr_target_id row)); ("size_bytes", size_json (tr_size_bytes row)); ("mode", JString (tr_mode row))]%string.

(** The reads of [tree_pack_rows_from_zstd_chunked_binary_payload] from the
    cursor on. *)
Definition read_tree_payload (entry : TreePackIndexEntry) : reader tree_pack_error (list tree_row) :=
  let lift {A} (r : pack_reader A) : reader tree_pack_error A := fun rest => from_index (r rest) in
  magic ← lift (read_bytes 8 "tree member magic");
  _ ← reader_fail_if (negb (bool_decide (magic = ZSTD_CHUNKED_TREE_MEMBER_MAGIC))) TreePayloadMagic;
  version ← lift (read_u32 "tree member version");
  _ ← reader_fail_if (negb (version =? ZSTD_CHUNKED_VERSION)%N) (TreePayloadVersion version);
  tree_id ← lift (read_string "tree_id");
  _ ← reader_fail_if (negb (bool_decide (tree_id = ti_tree_id entry))) (TreeIdMismatch (ti_tree_id entry));
  entry_count ← lift (read_u32 "tree_entry_count");
  _ ← reader_fail_if (negb (entry_count =? ti_entry_count entry)%N) (TreeEntryCount (ti_tree_id entry));
  lift (read_many (N.to_nat entry_count) read_tree_row).

Definition tree_pack_rows_from_zstd_chunked_binary_payload (raw : bytes) (entry : TreePackIndexEntry) : tree_result JsonValue :=
  _ ← check_payload raw entry;
  r ← read_tree_payload entry raw;
  let '(rows, rest) := r in
  _ ← fail_if (negb (bool_decide (rest = []))) TreeTrailingBytes;
  Ok (JArray (map (row_json (ti_tree_id entry)) rows)).

(** ** Writing a pack *)

Definition json_number (n : N) : JsonValue := JNumber (PosInt n).
Definition tree_stats_json (member : ZstdChunkedMemberIndex) : JsonValue :=
  json_object
    [("tree_id", JString (mb_content_id member)); ("entry_ordinal", json_number (mb_member_ordinal member)); ("entry_name", JString (mb_entry_name member));
     ("entry_count", json_number (default 0%N (mb_entry_count member))); ("byte_length", json_number (mb_stored_len member));
     ("checksum", JString (mb_checksum member))]%string.

Definition zstd_chunked_tree_pack_index_json (pack_index : ZstdChunkedPackIndex) : tree_result JsonValue :=
  _ ← fail_if (negb (bool_decide (px_pack_format pack_index = TREE_PACK_FORMAT_ZSTD_CHUNKED_V1))) (UnsupportedTreeIndexFormat (px_pack_format pack_index));
  Ok (json_object
    [("pack_format", JString TREE_PACK_FORMAT_ZSTD_CHUNKED_V1); ("pack_id", JString (px_pack_id pack_index));
     ("created_at", JString (px_created_at pack_index)); ("index_entry_name", JString (px_index_entry_name pack_index));
     ("tree_count", json_number (N.of_nat (length (px_members pack_index))));
     ("total_bytes", json_number (foldl (fun total member => (total + mb_stored_len member)%N) 0%N (px_members pack_index)));
     ("chunk_count", json_number (N.of_nat (length (px_chunks pack_index)))); ("trees", JArray (map tree_stats_json (px_members pack_index)))]%string).

Definition tree_input (ordinal : nat) (member : TreePackMember) : tree_result ZstdChunkedMemberInput :=
  data ← zstd_chunked_tree_member_payload_bytes member;
  Ok (mkInput (N.of_nat ordinal) (tm_entry_name member) (tm_tree_id member) "tree" (Some (tm_entry_count member)) None None 0 data
    (N.of_nat (length data)) (sha256_hex data)).
Fixpoint tree_inputs (ordinal : nat) (members : list TreePackMember) : tree_result (list ZstdChunkedMemberInput) :=
  match members with
  | [] => Ok []
  | member :: members => input ← tree_input ordinal member; inputs ← tree_inputs (S ordinal) members; Ok (input :: inputs)
  end.

(** [Value::get] *)
Definition value_get (name : string) (v : JsonValue) : option JsonValue := match v with JObject m => map_get name m | _ => None end.

(** The bytes of the archive and its statistics. *)
Definition write_zstd_chunked_tree_pack_archive (pack_id created_at : string) (members : JsonValue) : tree_result (bytes * JsonValue) :=
  parsed ← from_json (parse_tree_pack_members members);
  inputs ← tree_inputs 0 parsed;
  written ← from_container (write_zstd_chunked_container ZSTD_CHUNKED_INDEX_KIND_TREE TREE_PACK_FORMAT_ZSTD_CHUNKED_V1
    ZSTD_CHUNKED_TREE_INDEX_ENTRY_NAME pack_id created_at inputs ZSTD_CHUNKED_DEFAULT_CHUNK_BYTES);
  let '(file, pack_index) := written in
  pack_index_json ← zstd_chunked_tree_pack_index_json pack_index;
  index_bytes ← from_index (encode_zstd_chunked_index pack_index ZSTD_CHUNKED_INDEX_KIND_TREE);
  let field name := default (json_number 0) (value_get name pack_index_json) in
  Ok (file, json_object
    [("tree_count", field "tree_count"); ("total_bytes", field "total_bytes"); ("archive_bytes", json_number (N.of_nat (length file)));
     ("pack_format", JString TREE_PACK_FORMAT_ZSTD_CHUNKED_V1); ("pack_index_entry_name", JString ZSTD_CHUNKED_TREE_INDEX_ENTRY_NAME);
     ("pack_index_checksum", JString (sha256_hex index_bytes)); ("pack_index", pack_index_json)]%string).

Definition write_tree_pack_archive_with_format (pack_id created_at : string) (members : JsonValue) (persisted_pack_format : string)
  : tree_result (bytes * JsonValue) :=
  _ ← from_persisted persisted_pack_format; write_zstd_chunked_tree_pack_archive pack_id created_at members.

Definition stats_entry (out : gmap string string) (entry : JsonValue) : tree_result (gmap string string) :=
  obj ← match entry with JObject m => Ok m | _ => Err StatsEntryObject end;
  tree_id ← ok_or (map_get "tree_id" obj ≫= as_str) StatsMissingTreeId;
  checksum ← ok_or (map_get "checksum" obj ≫= as_str) StatsMissingChecksum;
  Ok (<[tree_id := checksum]> out).
Definition tree_pack_checksums_by_tree_id (archive_stats : JsonValue) : tree_result (gmap string string) :=
  let found :=
    match value_get "pack_index" archive_stats ≫= value_get "trees" with
    | Some trees => Some trees
    | None => match value_get "trees" archive_stats with Some trees => Some trees | None => value_get "entries" archive_stats end
    end in
  entries ← ok_or (found ≫= fun v => match v with JArray l => Some l | _ => None end) MissingStatsEntries;
  foldM stats_entry ∅ entries.

(** ** Reading a pack *)

Definition tree_pack_index (file : bytes) : tree_result ZstdChunkedPackIndex :=
  from_container (read_zstd_chunked_container_index file ZSTD_CHUNKED_INDEX_KIND_TREE TREE_PACK_FORMAT_ZSTD_CHUNKED_V1).

Definition read_zstd_chunked_tree_pack_index (file : bytes) : tree_result JsonValue :=
  pack_index ← tree_pack_index file; zstd_chunked_tree_pack_index_json pack_index.

(** What both readers of a member do with its bytes. *)
Definition tree_member_rows (raw : bytes) (member : ZstdChunkedMemberIndex) : tree_result JsonValue :=
  entry_count ← ok_or (mb_entry_count member) (MissingTreeEntryCount (mb_content_id member));
  tree_pack_rows_from_zstd_chunked_binary_payload raw (mkTreeEntry (mb_content_id member) entry_count (mb_stored_len member) (mb_checksum member)).

Definition read_zstd_chunked_tree_member (file : bytes) (pack_index : ZstdChunkedPackIndex) (member : ZstdChunkedMemberIndex) : tree_result JsonValue :=
  raw ← from_container (read_zstd_chunked_member_stored_bytes file pack_index member); tree_member_rows raw member.

Definition read_zstd_chunked_tree_member_with_chunk_cache (file : bytes) (pack_index : ZstdChunkedPackIndex) (member : ZstdChunkedMemberIndex)
    (raw_chunk_cache : gmap N bytes) : gmap N bytes * tree_result JsonValue :=
  let '(cache, r) := read_zstd_chunked_member_stored_bytes_with_chunk_cache file pack_index member raw_chunk_cache in
  (cache, raw ← from_container r; tree_member_rows raw member).

Definition find_tree (P : ZstdChunkedMemberIndex -> bool) (pack_index : ZstdChunkedPackIndex) : option ZstdChunkedMemberIndex :=
  List.find P (px_members pack_index).

Definition read_zstd_chunked_tree_pack_tree (file : bytes) (tree_id : string) : tree_result JsonValue :=
  pack_index ← tree_pack_index file;
  member ← ok_or (find_tree (fun entry => bool_decide (mb_content_id entry = tree_id)) pack_index) (MissingTreeId tree_id);
  read_zstd_chunked_tree_member file pack_index member.

Definition ordinal_json (member : ZstdChunkedMemberIndex) (rows : JsonValue) : JsonValue :=
  json_object [("tree_id", JString (mb_content_id member)); ("entry_ordinal", JNumber (PosInt (mb_member_ordinal member))); ("rows", rows)]%string.
Definition with_ordinal (pack_index : ZstdChunkedPackIndex) (entry_ordinal : N) : tree_result ZstdChunkedMemberIndex :=
  ok_or (find_tree (fun entry => mb_member_ordinal entry =? entry_ordinal)%N pack_index) (MissingEntryOrdinal entry_ordinal).

Definition read_zstd_chunked_tree_pack_tree_by_ordinal (file : bytes) (entry_ordinal : N) : tree_result JsonValue :=
  pack_index ← tree_pack_index file;
  member ← with_ordinal pack_index entry_ordinal;
  rows ← read_zstd_chunked_tree_member file pack_index member;
  Ok (ordinal_json member rows).

Definition named_member (pack_index : ZstdChunkedPackIndex) (tree_id entry_name : string) (entry_count : N) (checksum : string)
  : tree_result ZstdChunkedMemberIndex :=
  member ← ok_or (find_tree (fun entry => bool_decide (mb_content_id entry = tree_id) && bool_decide (mb_entry_name entry = entry_name)) pack_index)
    (MissingTreeEntry entry_name);
  _ ← fail_if (negb (bool_decide (mb_entry_count member = Some entry_count))) (TreeEntryCount tree_id);
  _ ← fail_if (negb (bool_decide (mb_checksum member = checksum))) (TreeChecksum tree_id);
  Ok member.

Definition read_zstd_chunked_tree_pack_tree_by_entry_name (file : bytes) (tree_id entry_name : string) (entry_count : N) (checksum : string)
  : tree_result JsonValue :=
  pack_index ← tree_pack_index file;
  member ← named_member pack_index tree_id entry_name entry_count checksum;
  read_zstd_chunked_tree_member file pack_index member.

(** *** An open archive *)

Record TreePackEntryArchive : Type := mkTreeArchive { ta_file : bytes; ta_index : ZstdChunkedPackIndex; ta_cache : gmap N bytes }.

Definition open_with_format (file : bytes) (persisted_pack_format : string) : tree_result TreePackEntryArchive :=
  _ ← from_persisted persisted_pack_format;
  pack_index ← tree_pack_index file;
  Ok (mkTreeArchive file pack_index ∅).

Definition archive_member (archive : TreePackEntryArchive) (member : ZstdChunkedMemberIndex) : TreePackEntryArchive * tree_result JsonValue :=
  let '(cache, r) := read_zstd_chunked_tree_member_with_chunk_cache (ta_file archive) (ta_index archive) member (ta_cache archive) in
  (mkTreeArchive (ta_file archive) (ta_index archive) cache, r).

Definition read_tree_by_ordinal (archive : TreePackEntryArchive) (entry_ordinal : N) : TreePackEntryArchive * tree_result JsonValue :=
  match with_ordinal (ta_index archive) entry_ordinal with
  | Err e => (archive, Err e)
  | Ok member => let '(archive, r) := archive_member archive member in (archive, rows ← r; Ok (ordinal_json member rows))
  end.

Definition read_tree_by_entry_name (archive : TreePackEntryArchive) (tree_id entry_name : string) (entry_count : N) (checksum : string)
  : TreePackEntryArchive * tree_result JsonValue :=
  match named_member (ta_index archive) tree_id entry_name entry_count checksum with
  | Err e => (archive, Err e)
  | Ok member => archive_member archive member
  end.
End Payload.

(** ** Rows *)

(** A text that trimming leaves alone. *)
Definition text_ok (s : string) : Prop := canonical_text s = true /\ utf8_string s.
Definition size_ok (size : option N) : Prop := match size with Some n => (n < u64_modulus)%N | None => True end.
Definition row_ok (r : tree_row) : Prop :=
  text_ok (tr_entry_name r) /\ text_ok (tr_entry_type r) /\ text_ok (tr_target_id r) /\ size_ok (tr_size_bytes r) /\ text_ok (tr_mode r).

(** A JSON row that stands for [r] in the tree [tree_id]; it may have other
    fields, and white space around its texts. *)
Definition row_describes (v : JsonValue) (e : string * tree_row) : Prop :=
  exists obj, v = JObject obj /\ optional_text_field obj "tree_id" = Some (fst e) /\
    optional_text_field obj "entry_name" = Some (tr_entry_name (snd e)) /\ optional_text_field obj "entry_type" = Some (tr_entry_type (snd e)) /\
    optional_text_field obj "target_id" = Some (tr_target_id (snd e)) /\ optional_text_field obj "mode" = Some (tr_mode (snd e)) /\
    size_bytes_value obj = size_json (tr_size_bytes (snd e)).

(** The row in the payload that is handed to the writer. *)
Definition payload_json (r : tree_row) : JsonValue :=
  json_object [("entry_name", JString (tr_entry_name r)); ("entry_type", JString (tr_entry_type r)); ("target_id", JString (tr_target_id r));
               ("size_bytes", size_json (tr_size_bytes r)); ("mode", JString (tr_mode r))]%string.
Definition payload_value (tree_id : string) (rows : list tree_row) : JsonValue :=
  json_object [("tree_id", JString tree_id); ("entries", JArray (map payload_json rows))]%string.

Lemma required_text obj field_name text : optional_text_field obj field_name = Some text -> required_text_field obj field_name = Ok text.
Proof. intros H. unfold required_text_field. by rewrite H. Qed.

Lemma payload_row_Ok v e : row_describes v e -> payload_row v = Ok (payload_json (snd e)).
Proof.
  intros (obj & -> & _ & H1 & H2 & H3 & H4 & H5). unfold payload_row. cbn [as_object mbind result_bind].
  rewrite (required_text _ _ _ H1), (required_text _ _ _ H2), (required_text _ _ _ H3), (required_text _ _ _ H4). cbn [mbind result_bind].
  by rewrite H5.
Qed.

Lemma row_name_payload r : row_name (payload_json r) = tr_entry_name r.
Proof. reflexivity. Qed.

Lemma size_json_ok size : size_ok size -> json_ok (size_json size).
Proof. by destruct size. Qed.

Lemma payload_value_ok tree_id rows : utf8_string tree_id -> Forall row_ok rows ->
  json_ok (payload_value tree_id rows) /\ json_depth (payload_value tree_id rows) < 128.
Proof.
  intros Hid Hrows. split.
  - apply json_ok_object. split; [by apply keys_in_order_sorted|].
    repeat apply Forall_cons_2; [..|apply Forall_nil_2]; (split; [done|]); [|exact Hid].
    apply json_ok_array. apply Forall_fmap. eapply Forall_impl; [exact Hrows|]. intros r ([_ H1] & [_ H2] & [_ H3] & H4 & [_ H5]).
    apply json_ok_object. split; [by apply keys_in_order_sorted|]. repeat apply Forall_cons_2; [..|apply Forall_nil_2]; (split; [done|]); try done.
    by apply size_json_ok.
  - assert (json_depth (payload_value tree_id rows) <= 3) as Hd; [|lia].
    change (S (max (S (foldr (fun v n => max (json_depth v) n) 0 (map payload_json rows))) 0) <= 3).
    assert (foldr (fun v n => max (json_depth v) n) 0 (map payload_json rows) <= 1) as Hf; [|lia].
    clear. induction rows as [|r rows IH]; cbn [map foldr]; [lia|]. assert (json_depth (payload_json r) <= 1) as Hr by (destruct r as [? ? ? [?|] ?]; apply le_n).
    lia.
Qed.

Section Payloads.
Context {J : JsonText} {LJ : LawfulJsonText} {P : PackPrimitives} {LP : LawfulPrimitives}.

Lemma tree_payload_bytes_Ok tree_id vs es data : Forall2 row_describes vs es -> utf8_string tree_id -> Forall (fun e => row_ok (snd e)) es ->
  tree_payload_bytes tree_id vs = Ok data -> json_from_slice data = Ok (payload_value tree_id (sort_by_key tr_entry_name (map snd es))).
Proof.
  intros Hvs Hid Hes H. unfold tree_payload_bytes in H.
  assert (mapM_result payload_row vs = Ok (map payload_json (map snd es))) as Hrows.
  { clear H Hes. induction Hvs as [|v e vs es Hv _ IH]; [done|]. cbn. rewrite (payload_row_Ok _ _ Hv). cbn. by rewrite IH. }
  rewrite Hrows in H. cbn [mbind result_bind] in H. rewrite sort_by_key_map in H. change (fun a => row_name (payload_json a)) with tr_entry_name in H.
  destruct (payload_value_ok tree_id (sort_by_key tr_entry_name (map snd es))) as [Hok Hdepth]; [done| |].
  { rewrite sort_by_key_perm. by apply Forall_fmap. }
  unfold json_bytes_compact_sorted in H. apply map_err_Ok in H. change (json_to_vec (sorted_json_value (payload_value tree_id (sort_by_key tr_entry_name (map snd es)))) = Ok data) in H.
  rewrite sorted_json_value_ok in H by done. by apply json_roundtrip.
Qed.

Lemma checked_row_payload tree_id r : row_ok r -> checked_row tree_id (payload_json r) = Ok (row_json tree_id r).
Proof.
  intros ([H1 _] & [H2 _] & [H3 _] & _ & [H5 _]). unfold checked_row. cbn [as_object payload_json json_object mbind result_bind].
  rewrite (required_text_get _ "entry_name" (tr_entry_name r)), (required_text_get _ "entry_type" (tr_entry_type r)), (required_text_get _ "target_id" (tr_target_id r)), (required_text_get _ "mode" (tr_mode r)) by done.
  reflexivity.
Qed.

Lemma rows_from_payload tree_id rows data entry : text_ok tree_id -> Forall row_ok rows -> json_from_slice data = Ok (payload_value tree_id rows) ->
  entry = mkTreeEntry tree_id (N.of_nat (length rows)) (N.of_nat (length data)) (sha256_hex data) ->
  tree_pack_rows_from_payload_bytes data entry = Ok (map (row_json tree_id) rows).
Proof.
  intros [Hid _] Hrows Hdata ->. unfold tree_pack_rows_from_payload_bytes, check_payload. cbn [ti_tree_id ti_entry_count ti_byte_length ti_checksum].
  rewrite N.eqb_refl, bool_decide_eq_true_2, Hdata by done. cbn [negb fail_if mbind result_bind map_err from_json payload_value json_object as_object].
  rewrite (optional_text_get _ _ tree_id) by done. rewrite bool_decide_eq_true_2 by done. cbn [negb fail_if mbind result_bind].
  change (map_get "entries" _) with (Some (JArray (map payload_json rows))). cbn [ok_or mbind result_bind as_array from_json map_err].
  rewrite length_map, N.eqb_refl. cbn [negb fail_if mbind result_bind].
  rewrite (mapM_result_map _ _ (row_json tree_id)); [done|]. intros r Hr. apply checked_row_payload. rewrite Forall_forall in Hrows. by apply Hrows.
Qed.
End Payloads.

(** ** The stored form *)

Definition push_tree_row (out : bytes) (r : tree_row) : result index_error bytes :=
  out ← push_string out (tr_entry_name r);
  out ← push_string out (tr_entry_type r);
  out ← push_string out (tr_target_id r);
  out ← push_option_usize out (tr_size_bytes r);
  push_string out (tr_mode r).

(** What the stored form keeps apart: any UTF-8 texts. *)
Definition stored_row_ok (r : tree_row) : Prop :=
  utf8_string (tr_entry_name r) /\ utf8_string (tr_entry_type r) /\ utf8_string (tr_target_id r) /\ size_ok (tr_size_bytes r) /\ utf8_string (tr_mode r).

Lemma row_ok_stored r : row_ok r -> stored_row_ok r.
Proof. intros ([_ ?] & [_ ?] & [_ ?] & ? & [_ ?]). by repeat split. Qed.

Lemma codec_tree_row : codec stored_row_ok push_tree_row read_tree_row.
Proof.
  split.
  - intros out [n t g s m] out' (H1 & H2 & H3 & H4 & H5) H. cbn [tr_entry_name tr_entry_type tr_target_id tr_size_bytes tr_mode] in *. unfold push_tree_row in H. unfold read_tree_row.
    eapply (write_step (codec_string "entry_name")); [exact H1|exact H|]. intros b1 K1.
    eapply (write_step (codec_string "entry_type")); [exact H2|exact K1|]. intros b2 K2.
    eapply (write_step (codec_string "target_id")); [exact H3|exact K2|]. intros b3 K3.
    eapply (write_step (codec_option_usize "size_bytes")); [exact H4|exact K3|]. intros b4 K4.
    eapply (write_last (codec_string "mode")); [exact H5|exact K4].
  - intros data r rest H. unfold read_tree_row in H.
    apply (read_step (codec_string "entry_name")) in H as (n & b1 & d1 & -> & H1 & P1 & H).
    apply (read_step (codec_string "entry_type")) in H as (t & b2 & d2 & -> & H2 & P2 & H).
    apply (read_step (codec_string "target_id")) in H as (g & b3 & d3 & -> & H3 & P3 & H).
    apply (read_step (codec_option_usize "size_bytes")) in H as (s & b4 & d4 & -> & H4 & P4 & H).
    apply (read_step (codec_string "mode")) in H as (m & b5 & d5 & -> & H5 & P5 & H).
    apply reader_ret_Ok in H as [<- ->]. split; [by repeat split|]. exists (b1 ++ b2 ++ b3 ++ b4 ++ b5). split; [by rewrite <- !app_assoc|].
    intros out. unfold push_tree_row. cbn [tr_entry_name tr_entry_type tr_target_id tr_size_bytes tr_mode].
    rewrite P1. cbn [mbind result_bind]. rewrite P2. cbn [mbind result_bind]. rewrite P3. cbn [mbind result_bind]. rewrite P4. cbn [mbind result_bind].
    rewrite P5. by rewrite <- !app_assoc.
Qed.

Section Stored.
Context {P : PackPrimitives} {LP : LawfulPrimitives}.

Lemma push_json_row_typed tree_id out r : text_ok tree_id -> row_ok r -> push_json_row tree_id out (row_json tree_id r) = from_index (push_tree_row out r).
Proof.
  intros [Hid _] ([H1 _] & [H2 _] & [H3 _] & _ & [H5 _]). unfold push_json_row, push_tree_row, row_json, json_object. cbn [as_object from_json map_err mbind result_bind].
  set (m := foldl _ [] _).
  rewrite (required_text_get m "tree_id" tree_id), (required_text_get m "entry_name" (tr_entry_name r)), (required_text_get m "entry_type" (tr_entry_type r)),
    (required_text_get m "target_id" (tr_target_id r)), (required_text_get m "mode" (tr_mode r)) by done.
  assert (optional_usize_field m "size_bytes" = Ok (tr_size_bytes r)) as ->.
  { unfold optional_usize_field. change (map_get "size_bytes" m) with (Some (size_json (tr_size_bytes r))). by destruct (tr_size_bytes r). }
  cbn [from_json map_err mbind result_bind]. rewrite bool_decide_eq_true_2 by done. cbn [negb fail_if mbind result_bind].
  destruct (push_string out (tr_entry_name r)) as [o1|]; [|done]. cbn [from_index map_err mbind result_bind].
  destruct (push_string o1 (tr_entry_type r)) as [o2|]; [|done]. cbn [from_index map_err mbind result_bind].
  destruct (push_string o2 (tr_target_id r)) as [o3|]; [|done]. cbn [from_index map_err mbind result_bind].
  by destruct (push_option_usize o3 (tr_size_bytes r)).
Qed.

Lemma push_rows_typed tree_id rows out : text_ok tree_id -> Forall row_ok rows ->
  foldM (push_json_row tree_id) out (map (row_json tree_id) rows) = from_index (foldM push_tree_row out rows).
Proof.
  intros Hid Hrows. revert out. induction Hrows as [|r rows Hr Hrows IH]; intros out; [done|]. cbn [map foldM].
  rewrite push_json_row_typed by done. destruct (push_tree_row out r) as [o|]; [|done]. cbn [from_index map_err mbind result_bind]. apply IH.
Qed.

(** The stored form of rows, as a codec: what the writer of payloads writes the
    reader reads back, and the reader accepts nothing else. *)
Lemma read_payload_encoded tree_id rows raw entry : text_ok tree_id -> Forall row_ok rows -> ti_tree_id entry = tree_id ->
  ti_entry_count entry = N.of_nat (length rows) ->
  encode_zstd_chunked_tree_payload tree_id (N.of_nat (length rows)) (map (row_json tree_id) rows) = Ok raw ->
  read_tree_payload entry raw = Ok (rows, []).
Proof.
  intros Hid Hrows He Hcount H. unfold encode_zstd_chunked_tree_payload in H. rewrite length_map, N.eqb_refl in H. cbn [negb fail_if mbind result_bind] in H.
  apply bind_Ok in H as (out & Hout & H). apply map_err_Ok in Hout. apply bind_Ok in H as (count & Hc & H). apply map_err_Ok in Hc.
  unfold usize_to_u32 in Hc. destruct (N.ltb_spec (N.of_nat (length rows)) 4294967296) as [Hlt|]; [injection Hc as <-|done].
  rewrite push_rows_typed in H by done. apply map_err_Ok in H.
  destruct (codec_write _ _ _ (codec_string "tree_id") _ _ _ (proj2 Hid) Hout) as (b1 & -> & R1).
  destruct (codec_write _ _ _ (codec_many _ _ _ (length rows) codec_tree_row) _ rows _ (conj eq_refl (Forall_impl _ _ _ Hrows row_ok_stored)) H) as (b2 & -> & R2).
  unfold push_u32. rewrite <- !app_assoc. unfold read_tree_payload.
  erewrite reader_bind_eq by (rewrite (read_bytes_app ZSTD_CHUNKED_TREE_MEMBER_MAGIC) by done; done). rewrite bool_decide_eq_true_2 by done.
  erewrite reader_bind_eq by done. erewrite reader_bind_eq by (unfold read_u32; rewrite read_le_to_le by done; done).
  erewrite reader_bind_eq by done. erewrite reader_bind_eq by (rewrite R1; done). rewrite He, bool_decide_eq_true_2 by done.
  erewrite reader_bind_eq by done. erewrite reader_bind_eq by (unfold read_u32; rewrite read_le_to_le by (cbn; lia); done).
  rewrite Hcount, N.eqb_refl. erewrite reader_bind_eq by done. rewrite Nat2N.id. specialize (R2 []). rewrite app_nil_r in R2. by rewrite R2.
Qed.

Lemma rows_from_binary tree_id rows raw entry : text_ok tree_id -> Forall row_ok rows ->
  encode_zstd_chunked_tree_payload tree_id (N.of_nat (length rows)) (map (row_json tree_id) rows) = Ok raw ->
  entry = mkTreeEntry tree_id (N.of_nat (length rows)) (N.of_nat (length raw)) (sha256_hex raw) ->
  tree_pack_rows_from_zstd_chunked_binary_payload raw entry = Ok (JArray (map (row_json tree_id) rows)).
Proof.
  intros Hid Hrows Henc ->. unfold tree_pack_rows_from_zstd_chunked_binary_payload, check_payload. cbn [ti_tree_id ti_entry_count ti_byte_length ti_checksum].
  rewrite N.eqb_refl, bool_decide_eq_true_2 by done. cbn [negb fail_if mbind result_bind].
  rewrite (read_payload_encoded tree_id rows) by done. cbn [mbind result_bind]. by rewrite bool_decide_eq_true_2.
Qed.
End Stored.

(** ** Building *)

(** The rows of a tree among the given rows, as a pack holds them. *)
Definition rows_of (tree_id : string) (es : list (string * tree_row)) : list tree_row :=
  sort_by_key tr_entry_name (map snd (filter (fun e => fst e = tree_id) es)).

(** A JSON row that stands for a tree with [count] entries. *)
Definition tree_describes (es : list (string * tree_row)) (v : JsonValue) (tree_id : string) : Prop :=
  exists obj, v = JObject obj /\ optional_text_field obj "tree_id" = Some tree_id /\
    required_usize_field obj "entry_count" = Ok (N.of_nat (length (rows_of tree_id es))).

Definition tree_entry_name (tree_id : string) : string := "trees/" +:+ tree_id +:+ ".json".
Definition member_json (m : TreePackMember) : JsonValue :=
  json_object [("tree_id", JString (tm_tree_id m)); ("entry_name", JString (tm_entry_name m)); ("entry_count", JNumber (PosInt (tm_entry_count m)));
               ("data", json_of_bytes (tm_data m)); ("checksum", JString (tm_checksum m))]%string.

Lemma insert_by_Forall2 {A B} (R : A -> B -> Prop) key key' x y l l' : (forall a b, R a b -> key a = key' b) -> R x y ->
  Forall2 R l l' -> Forall2 R (insert_by key x l) (insert_by key' y l').
Proof.
  intros Hk Hxy Hl. induction Hl as [|a b l l' Hab Hl IH]; cbn; [by repeat constructor|]. rewrite (Hk _ _ Hxy), (Hk _ _ Hab).
  destruct (bool_decide _); by repeat constructor.
Qed.

Lemma sort_by_key_Forall2 {A B} (R : A -> B -> Prop) key key' l l' : (forall a b, R a b -> key a = key' b) ->
  Forall2 R l l' -> Forall2 R (sort_by_key key l) (sort_by_key key' l').
Proof. intros Hk Hl. unfold sort_by_key. induction Hl; cbn; [constructor|by apply insert_by_Forall2]. Qed.

Lemma group_rows_Ok vs es m0 es0 : Forall2 row_describes vs es ->
  (forall id, Forall2 row_describes (default [] (m0 !! id)) (filter (fun e => fst e = id) es0)) ->
  exists m, foldM group_row m0 vs = Ok m /\ forall id, Forall2 row_describes (default [] (m !! id)) (filter (fun e => fst e = id) (es0 ++ es)).
Proof.
  intros Hvs. revert m0 es0. induction Hvs as [|v e vs es Hv Hvs IH]; intros m0 es0 H0; [exists m0; by rewrite app_nil_r|].
  cbn [foldM]. pose proof Hv as (obj & -> & Hid & _). 
  assert (group_row m0 (JObject obj) = Ok (<[fst e := default [] (m0 !! fst e) ++ [JObject obj]]> m0)) as ->
    by (unfold group_row; cbn [as_object mbind result_bind]; by rewrite (required_text _ _ _ Hid)). cbn [mbind result_bind].
  destruct (IH (<[fst e := default [] (m0 !! fst e) ++ [JObject obj]]> m0) (es0 ++ [e])) as (m & Hm & Hall).
  - intros id. rewrite filter_app, filter_cons, filter_nil. destruct (decide (fst e = id)) as [<-|Hne].
    + rewrite lookup_insert_eq. cbn. apply Forall2_app; [apply H0|by repeat constructor].
    + rewrite lookup_insert_ne, app_nil_r by done. apply H0.
  - exists m. split; [done|]. by rewrite <- app_assoc in Hall.
Qed.

Section Members.
Context {J : JsonText} {LJ : LawfulJsonText} {P : PackPrimitives} {LP : LawfulPrimitives}.

(** What is known of a member that was built for the tree. *)
Definition built (es : list (string * tree_row)) (tree_id : string) (m : TreePackMember) : Prop :=
  m = mkTreeMember tree_id (tree_entry_name tree_id) (N.of_nat (length (rows_of tree_id es))) (tm_data m) (sha256_hex (tm_data m)) /\
  json_from_slice (tm_data m) = Ok (payload_value tree_id (rows_of tree_id es)).

Lemma tree_member_built es m v tree_id member : Forall2 row_describes (default [] (m !! tree_id)) (filter (fun e => fst e = tree_id) es) ->
  Forall (fun e => row_ok (snd e)) es -> text_ok tree_id -> tree_describes es v tree_id -> tree_member m v = Ok member ->
  exists tm, member = member_json tm /\ built es tree_id tm.
Proof.
  intros Hrows Hes [_ Hid] (obj & -> & Htree & Hcount) H. unfold tree_member in H. cbn [as_object mbind result_bind] in H.
  rewrite (required_text _ _ _ Htree) in H. cbn [mbind result_bind] in H. apply bind_Ok in H as (data & Hdata & H). rewrite Hcount in H.
  cbn [mbind result_bind] in H. injection H as <-.
  eexists (mkTreeMember tree_id (tree_entry_name tree_id) _ data (sha256_hex data)). split; [done|]. split; [done|].
  eapply tree_payload_bytes_Ok; [done..| |done]. rewrite Forall_forall in *. intros e [_ He]%list_elem_of_filter. by apply Hes.
Qed.

Lemma build_Ok es entry_rows tree_rows ids members : Forall2 row_describes entry_rows es -> Forall2 (tree_describes es) tree_rows ids ->
  Forall (fun e => row_ok (snd e)) es -> Forall text_ok ids -> build_tree_pack_members (JArray tree_rows) (JArray entry_rows) = Ok members ->
  exists ms, members = JArray (map member_json ms) /\ Forall2 (built es) (sort_by_key id ids) ms.
Proof.
  intros Hrows Htrees Hes Hids H. unfold build_tree_pack_members in H. cbn [as_array mbind result_bind] in H.
  destruct (group_rows_Ok _ _ ∅ [] Hrows) as (m & Hm & Hall); [intros id; by rewrite lookup_empty|]. rewrite Hm in H. cbn [mbind result_bind] in H.
  apply bind_Ok in H as (members' & H & [= <-]).
  assert (Forall2 (tree_describes es) (sort_by_key tree_row_key tree_rows) (sort_by_key id ids)) as Hsorted.
  { apply sort_by_key_Forall2; [|done]. intros a b (obj & -> & Hid & _). cbn. by rewrite Hid. }
  assert (Forall text_ok (sort_by_key id ids)) as Hok by (by rewrite sort_by_key_perm).
  clear Htrees Hids. revert members' H. induction Hsorted as [|v tree_id vs ids' Hv Hvs IH]; intros members' H; cbn in H.
  - injection H as <-. exists []. by split.
  - apply Forall_cons in Hok as [Hid Hok]. apply bind_Ok in H as (member & Hmember & H). apply bind_Ok in H as (rest & Hrest & [= <-]).
    destruct (tree_member_built es m v tree_id member) as (tm & -> & Htm); [apply Hall|done..|].
    destruct (IH Hok rest Hrest) as (ms & [= ->] & Hms). exists (tm :: ms). split; [done|]. by constructor.
Qed.
End Members.
