(* ===== verification/TreeArchive.v ===== *)
(** * Files of tree packs

    What is written with [TreePack] is read back: by ordinal, by id, by name,
    and through an open archive with its cache of chunks. *)

From Stdlib Require Import NArith ZArith Lia.
From Stdlib Require Strings.Byte.
From stdpp Require Import base numbers strings list gmap fin_sets sorting.
From S2P Require Import Prelude Codec Json ChunkLayout PackIndex PackContainer TreePack.

(** ** Texts *)

Lemma canonical_ends s b c : solid b -> solid c -> hd_error (bytes_of_string s) = Some b -> hd_error (rev (bytes_of_string s)) = Some c ->
  canonical_text s = true.
Proof.
  intros Hb Hc Hhd Hlast. unfold canonical_text. pose proof (trim_solid _ _ _ Hb Hc Hhd Hlast) as Ht. rewrite string_of_bytes_of_string in Ht.
  rewrite Ht, (bool_decide_eq_true_2 (s = s)) by done. rewrite bool_decide_eq_false_2; [done|]. by intros ->.
Qed.

Lemma tree_entry_name_ok tree_id : utf8_string tree_id -> text_ok (tree_entry_name tree_id).
Proof.
  intros Hid. split; [|by apply utf8_string_app; [|apply utf8_string_app]].
  apply (canonical_ends _ Byte.x74 Byte.x6e); [by split|by split|done|].
  unfold tree_entry_name. rewrite !bytes_of_string_app, !rev_app_distr. done.
Qed.

Lemma utf8_hex l : valid_utf8 (hex_bytes l) = true.
Proof.
  induction l as [|b l IH]; [done|]. change (hex_bytes (b :: l)) with ([hex_digit (Byte.to_N b / 16)] ++ [hex_digit (Byte.to_N b mod 16)] ++ hex_bytes l).
  assert (forall n, (n < 16)%N -> valid_utf8 [hex_digit n] = true) as Hd by (apply hex_digits_ind; by repeat constructor).
  destruct (byte_nibbles b) as [H1 H2]. unfold valid_utf8. rewrite utf8_run_app by (by apply Hd). unfold valid_utf8. by rewrite utf8_run_app by (by apply Hd).
Qed.

Lemma hex_string_ok l : length l = 32 -> text_ok (hex_string l).
Proof.
  intros Hl. split; [|unfold utf8_string, hex_string; rewrite bytes_of_string_of_bytes; apply utf8_hex].
  assert (0 < length (hex_bytes l)) as Hpos by (rewrite length_hex_bytes; lia). unfold hex_string.
  destruct (hd_error (hex_bytes l)) as [x|] eqn:Hx; [|destruct (hex_bytes l); [cbn in Hpos; lia|done]].
  destruct (hd_error (rev (hex_bytes l))) as [y|] eqn:Hy; [|rewrite <- length_rev in Hpos; destruct (rev (hex_bytes l)); [cbn in Hpos; lia|done]].
  apply (canonical_ends _ x y); rewrite ?bytes_of_string_of_bytes; try done; (eapply hex_bytes_solid; by eauto).
Qed.

Section Archive.
Context {J : JsonText} {LJ : LawfulJsonText} {P : PackPrimitives} {LP : LawfulPrimitives}.

Lemma parse_member_json es tree_id m : text_ok tree_id -> built es tree_id m -> parse_tree_pack_member (member_json m) = Ok m.
Proof.
  intros [Hc Hu] [Hm _]. unfold parse_tree_pack_member, member_json, json_object. cbn [as_object mbind result_bind].
  set (obj := foldl _ [] _). rewrite (required_bytes_get obj "data" (tm_data m)) by done. cbn [mbind result_bind].
  rewrite (required_text_get obj "tree_id" (tm_tree_id m)) by (try done; by rewrite Hm). cbn [mbind result_bind].
  rewrite (required_text_get obj "entry_name" (tm_entry_name m)) by (try done; rewrite Hm; by apply tree_entry_name_ok). cbn [mbind result_bind].
  rewrite (required_usize_get obj "entry_count" (tm_entry_count m)) by done. cbn [mbind result_bind].
  rewrite (optional_text_get obj "checksum" (tm_checksum m)); [by destruct m|done|]. rewrite Hm. apply hex_string_ok, length_sha256_bytes.
Qed.

(** What the writer of the container is given for a tree. *)
Definition input_for (es : list (string * tree_row)) (ordinal : nat) (tree_id : string) (input : ZstdChunkedMemberInput) : Prop :=
  exists raw, encode_zstd_chunked_tree_payload tree_id (N.of_nat (length (rows_of tree_id es))) (map (row_json tree_id) (rows_of tree_id es)) = Ok raw /\
    input = mkInput (N.of_nat ordinal) (tree_entry_name tree_id) tree_id "tree" (Some (N.of_nat (length (rows_of tree_id es)))) None None 0 raw
      (N.of_nat (length raw)) (sha256_hex raw).

Lemma rows_of_ok tree_id es : Forall (fun e => row_ok (snd e)) es -> Forall row_ok (rows_of tree_id es).
Proof.
  intros Hes. unfold rows_of. rewrite sort_by_key_perm. apply Forall_fmap. rewrite Forall_forall in *. intros e [_ He]%list_elem_of_filter. by apply Hes.
Qed.

Lemma tree_input_for es ordinal tree_id m input : Forall (fun e => row_ok (snd e)) es -> text_ok tree_id -> built es tree_id m ->
  tree_input ordinal m = Ok input -> input_for es ordinal tree_id input.
Proof.
  intros Hes Hid [Hm Hdata] H. unfold tree_input, zstd_chunked_tree_member_payload_bytes in H.
  apply bind_Ok in H as (raw & (rows & Hrows & Henc)%bind_Ok & [= <-]). rewrite Hm in Hrows, Henc |- *.
  cbn [tm_tree_id tm_entry_count tm_data tm_checksum tm_entry_name] in *.
  rewrite (rows_from_payload tree_id (rows_of tree_id es)) in Hrows by (done || by apply rows_of_ok). injection Hrows as <-. by exists raw.
Qed.

Lemma tree_inputs_for es ids ms start inputs : Forall (fun e => row_ok (snd e)) es -> Forall text_ok ids -> Forall2 (built es) ids ms ->
  tree_inputs start ms = Ok inputs ->
  length inputs = length ids /\ forall k tree_id, ids !! k = Some tree_id -> exists input, inputs !! k = Some input /\ input_for es (start + k) tree_id input.
Proof.
  intros Hes Hids Hms. revert start inputs Hids. induction Hms as [|tree_id m ids ms Hm Hms IH]; intros start inputs Hids H; cbn in H.
  - injection H as <-. split; [done|]. intros k tree_id Hk. by rewrite lookup_nil in Hk.
  - apply Forall_cons in Hids as [Hid Hids]. apply bind_Ok in H as (input & Hi & H). apply bind_Ok in H as (rest & Hrest & [= <-]).
    destruct (IH (S start) rest Hids Hrest) as [Hlen Hall]. split; [cbn; lia|]. intros [|k] id' Hk; cbn in Hk |- *.
    + injection Hk as <-. exists input. split; [done|]. rewrite Nat.add_0_r. by apply (tree_input_for _ _ _ m).
    + destruct (Hall k id' Hk) as (i & Hi' & Hf). exists i. split; [done|]. by replace (start + S k) with (S start + k) by lia.
Qed.

Lemma inputs_for_ok es ids inputs : Forall text_ok ids -> length inputs = length ids ->
  (forall k tree_id, ids !! k = Some tree_id -> exists input, inputs !! k = Some input /\ input_for es k tree_id input) -> inputs_ok inputs.
Proof.
  intros Hids Hlen Hall. assert (forall k input, inputs !! k = Some input -> exists tree_id, text_ok tree_id /\ input_for es k tree_id input) as Hof.
  { intros k input Hk. destruct (lookup_lt_is_Some_2 ids k) as [tree_id Hid]; [rewrite <- Hlen; by eapply lookup_lt_Some|].
    destruct (Hall k tree_id Hid) as (i & Hi & Hf). exists tree_id. split; [exact (Forall_lookup_1 _ _ _ _ Hids Hid)|]. congruence. }
  split.
  - apply Forall_lookup. intros k input Hk. destruct (Hof k input Hk) as (tree_id & [_ Hid] & raw & _ & ->).
    split_and!; try done; [by apply tree_entry_name_ok|apply hex_checksum_sha256].
  - intros k input Hk. by destruct (Hof k input Hk) as (tree_id & _ & raw & _ & ->).
Qed.
End Archive.

(** ** Finding members *)

Lemma find_at {A} (P : A -> bool) l k x : l !! k = Some x -> P x = true -> (forall j y, l !! j = Some y -> P y = true -> j = k) -> List.find P l = Some x.
Proof.
  revert k; induction l as [|y l IH]; intros k Hk Hx Huniq; [done|]. cbn. destruct (P y) eqn:Hy.
  - assert (0 = k) as <- by (by apply (Huniq 0 y)). by injection Hk as ->.
  - destruct k as [|k]; [injection Hk as ->; by rewrite Hx in Hy|]. apply (IH k); [done..|].
    intros j z Hj Hz. by injection (Huniq (S j) z Hj Hz).
Qed.

Lemma stats_fold members m0 : foldM stats_entry m0 (map tree_stats_json members) =
  Ok (foldl (fun m e => <[mb_content_id e := mb_checksum e]> m) m0 members).
Proof. revert m0. induction members as [|e members IH]; intros m0; [done|]. cbn [map foldM foldl]. apply IH. Qed.

Lemma foldl_insert_lookup (members : list ZstdChunkedMemberIndex) (m0 : gmap string string) k e : NoDup (map mb_content_id members) -> members !! k = Some e ->
  foldl (fun m e => <[mb_content_id e := mb_checksum e]> m) m0 members !! mb_content_id e = Some (mb_checksum e).
Proof.
  intros Hnd. revert m0 k. induction members as [|x members IH]; intros m0 k Hk; [done|]. cbn in Hnd. apply NoDup_cons in Hnd as [Hx Hnd]. cbn [foldl].
  destruct k as [|k]; [|by apply (IH Hnd _ k)]. injection Hk as ->. clear IH.
  assert (forall l (m : gmap string string), mb_content_id e ∉ map mb_content_id l ->
    foldl (fun m e => <[mb_content_id e := mb_checksum e]> m) m l !! mb_content_id e = m !! mb_content_id e) as Hskip.
  { induction l as [|y l IHl]; intros m Hy; [done|]. cbn in Hy. apply not_elem_of_cons in Hy as [Hne Hy]. cbn [foldl].
    rewrite IHl by done. by rewrite lookup_insert_ne. }
  rewrite Hskip by done. apply lookup_insert_eq.
Qed.

(** ** What a written archive holds *)

Section Written.
Context {J : JsonText} {LJ : LawfulJsonText} {P : PackPrimitives} {LP : LawfulPrimitives}.

(** The archive [file] holds the trees [ids], in this order, with their rows
    among [es]. *)
Record holds_trees (file : bytes) (index : ZstdChunkedPackIndex) (es : list (string * tree_row)) (ids : list string) : Prop := {
  ht_index : tree_pack_index file = Ok index;
  ht_format : px_pack_format index = TREE_PACK_FORMAT_ZSTD_CHUNKED_V1;
  ht_ordinals : forall j e, px_members index !! j = Some e -> mb_member_ordinal e = N.of_nat j;
  ht_content : map mb_content_id (px_members index) = ids;
  ht_rows : forall k tree_id, ids !! k = Some tree_id -> exists e, px_members index !! k = Some e /\ mb_content_id e = tree_id /\
    mb_entry_name e = tree_entry_name tree_id /\ mb_entry_count e = Some (N.of_nat (length (rows_of tree_id es))) /\
    read_zstd_chunked_tree_member file index e = Ok (JArray (map (row_json tree_id) (rows_of tree_id es)))
}.

Lemma parse_built es ids ms : Forall text_ok ids -> Forall2 (built es) ids ms -> parse_tree_pack_members (JArray (map member_json ms)) = Ok ms.
Proof.
  intros Hids Hms. unfold parse_tree_pack_members. cbn [as_array mbind result_bind]. rewrite (mapM_result_map _ member_json id); [by rewrite map_id|].
  intros m Hm. apply list_elem_of_lookup in Hm as [k Hk]. destruct (Forall2_lookup_r _ _ _ _ _ Hms Hk) as (tree_id & Hid & Hb).
  eapply parse_member_json; [exact (Forall_lookup_1 _ _ _ _ Hids Hid)|exact Hb].
Qed.

Lemma archive_written es ids ms pack_id created_at file stats : Forall (fun e => row_ok (snd e)) es -> Forall text_ok ids -> Forall2 (built es) ids ms ->
  utf8_string pack_id -> utf8_string created_at -> (N.of_nat (length file) < u64_modulus)%N ->
  write_zstd_chunked_tree_pack_archive pack_id created_at (JArray (map member_json ms)) = Ok (file, stats) ->
  exists index, holds_trees file index es ids /\
    tree_pack_checksums_by_tree_id stats = Ok (foldl (fun m e => <[mb_content_id e := mb_checksum e]> m) ∅ (px_members index)).
Proof.
  intros Hes Hids Hms Hp Hc Hlen H. unfold write_zstd_chunked_tree_pack_archive in H. rewrite (parse_built es ids ms Hids Hms) in H. cbn [from_json map_err mbind result_bind] in H.
  apply bind_Ok in H as (inputs & Hinputs & H). destruct (tree_inputs_for es ids ms 0 inputs Hes Hids Hms Hinputs) as [Hilen Hall].
  apply bind_Ok in H as ([file' index] & Hw & H). apply map_err_Ok in Hw. apply bind_Ok in H as (index_json & Hjson & H).
  apply bind_Ok in H as (index_bytes & Henc & H). injection H as <- <-. unfold write_zstd_chunked_container in Hw.
  destruct (container_written _ TREE_PACK_FORMAT_ZSTD_CHUNKED_V1 ZSTD_CHUNKED_TREE_INDEX_ENTRY_NAME _ _ _ _ _ _ _ (inputs_for_ok es ids inputs Hids Hilen Hall) eq_refl Hp Hc eq_refl Hlen Hw) as
    (data & ib & raws & Henc' & Hok & Hfile & Hval & Hholds).
  assert (read_zstd_chunked_container_index file' ZSTD_CHUNKED_INDEX_KIND_TREE TREE_PACK_FORMAT_ZSTD_CHUNKED_V1 = Ok index) as Hread.
  { rewrite index_readers_agree, Hfile. apply read_written_index; try done. by rewrite <- Hfile. }
  unfold zstd_chunked_tree_pack_index_json in Hjson. apply bind_Ok in Hjson as ([] & Hfmt & [= <-]).
  apply fail_if_Ok, negb_false_iff, bool_decide_eq_true in Hfmt. exists index.
  assert (forall k tree_id, ids !! k = Some tree_id -> exists e, px_members index !! k = Some e /\ mb_content_id e = tree_id /\
    mb_entry_name e = tree_entry_name tree_id /\ mb_entry_count e = Some (N.of_nat (length (rows_of tree_id es))) /\
    read_zstd_chunked_tree_member file' index e = Ok (JArray (map (row_json tree_id) (rows_of tree_id es)))) as Hrows.
  { intros k tree_id Hk. destruct (Hall k tree_id Hk) as (input & Hi & raw & Hraw & ->).
    destruct (holds_read _ _ _ _ _ _ _ Hholds Hi) as (e & He & (c & o & ->) & Hstored). eexists. split; [exact He|]. split_and!; [done..|].
    unfold read_zstd_chunked_tree_member. rewrite Hstored. cbn [from_container map_err mbind result_bind mi_data]. unfold tree_member_rows.
    cbn [index_entry mb_entry_count mi_entry_count ok_or mbind result_bind]. apply (rows_from_binary tree_id (rows_of tree_id es) raw); [|by apply rows_of_ok|done|done].
    exact (Forall_lookup_1 _ _ _ _ Hids Hk). }
  split; [split; [unfold tree_pack_index; by rewrite Hread|done| | |done]|].
  - intros j e Hj. by eapply mv_ordinals; [by eapply hm_valid|].
  - apply list_eq. intros k. change (map mb_content_id (px_members index)) with (mb_content_id <$> px_members index). rewrite list_lookup_fmap.
    destruct (ids !! k) as [tree_id|] eqn:Hk; [by destruct (Hrows k tree_id Hk) as (e & -> & <- & _)|].
    rewrite lookup_ge_None_2; [done|]. rewrite (hm_length _ _ _ _ _ Hholds), Hilen. by apply lookup_ge_None_1.
  - unfold tree_pack_checksums_by_tree_id. cbn [json_object foldl value_get mbind option_bind ok_or result_bind]. apply stats_fold.
Qed.
End Written.

(** ** Reading back *)

Section Reads.
Context {P : PackPrimitives}.

Lemma holds_find file index es ids k tree_id : holds_trees file index es ids -> NoDup ids -> ids !! k = Some tree_id ->
  exists e, mb_content_id e = tree_id /\ mb_member_ordinal e = N.of_nat k /\ mb_entry_name e = tree_entry_name tree_id /\
    mb_entry_count e = Some (N.of_nat (length (rows_of tree_id es))) /\ px_members index !! k = Some e /\
    with_ordinal index (N.of_nat k) = Ok e /\
    find_tree (fun entry => bool_decide (mb_content_id entry = tree_id)) index = Some e /\
    find_tree (fun entry => bool_decide (mb_content_id entry = tree_id) && bool_decide (mb_entry_name entry = tree_entry_name tree_id)) index = Some e /\
    read_zstd_chunked_tree_member file index e = Ok (JArray (map (row_json tree_id) (rows_of tree_id es))).
Proof.
  intros [_ _ Hord Hids Hrows] Hnd Hk. destruct (Hrows k tree_id Hk) as (e & He & Hid & Hname & Hcount & Hread). exists e.
  assert (forall j y, px_members index !! j = Some y -> mb_content_id y = tree_id -> j = k) as Huniq.
  { intros j y Hj Hy. apply (NoDup_lookup ids j k tree_id); [done| |done]. rewrite <- Hids.
    change (map mb_content_id (px_members index)) with (mb_content_id <$> px_members index). by rewrite list_lookup_fmap, Hj, <- Hy. }
  split_and!; try done; [by apply Hord| | |].
  - unfold with_ordinal, find_tree. rewrite (find_at _ _ k e); [done|done|by rewrite (Hord _ _ He), N.eqb_refl|].
    intros j y Hj Hy%N.eqb_eq. rewrite (Hord _ _ Hj) in Hy. lia.
  - apply (find_at _ _ k e); [done|by apply bool_decide_eq_true_2|]. intros j y Hj Hy%bool_decide_eq_true. by eapply Huniq.
  - apply (find_at _ _ k e); [done|rewrite Hname; by rewrite !bool_decide_eq_true_2|]. intros j y Hj [Hy%bool_decide_eq_true _]%andb_true_iff. by eapply Huniq.
Qed.

(** *** Sessions of an open archive *)

Inductive tree_request : Type :=
| ByOrdinal (entry_ordinal : N)
| ByEntryName (tree_id entry_name : string) (entry_count : N) (checksum : string).

Definition tree_answer (archive : TreePackEntryArchive) (request : tree_request) : TreePackEntryArchive * result tree_pack_error JsonValue :=
  match request with
  | ByOrdinal entry_ordinal => read_tree_by_ordinal archive entry_ordinal
  | ByEntryName tree_id entry_name entry_count checksum => read_tree_by_entry_name archive tree_id entry_name entry_count checksum
  end.
Fixpoint tree_session (archive : TreePackEntryArchive) (requests : list tree_request) : list (result tree_pack_error JsonValue) :=
  match requests with
  | [] => []
  | request :: requests => let '(archive, r) := tree_answer archive request in r :: tree_session archive requests
  end.
Definition read_directly (file : bytes) (request : tree_request) : result tree_pack_error JsonValue :=
  match request with
  | ByOrdinal entry_ordinal => read_zstd_chunked_tree_pack_tree_by_ordinal file entry_ordinal
  | ByEntryName tree_id entry_name entry_count checksum => read_zstd_chunked_tree_pack_tree_by_entry_name file tree_id entry_name entry_count checksum
  end.

(** The archive is of [file], and its cache holds chunks of it. *)
Definition archive_of (file : bytes) (archive : TreePackEntryArchive) : Prop :=
  ta_file archive = file /\ tree_pack_index file = Ok (ta_index archive) /\ cache_ok file (ta_index archive) (ta_cache archive).

Lemma archive_member_read file archive member : archive_of file archive ->
  snd (archive_member archive member) = read_zstd_chunked_tree_member file (ta_index archive) member /\ archive_of file (fst (archive_member archive member)) /\
  ta_index (fst (archive_member archive member)) = ta_index archive.
Proof.
  intros (<- & Hi & Hc). unfold archive_member, read_zstd_chunked_tree_member_with_chunk_cache.
  destruct (cached_read_eq _ _ member _ Hc) as [Hr Hc']. destruct (read_zstd_chunked_member_stored_bytes_with_chunk_cache _ _ _ _) as [cache r].
  cbn [fst snd] in *. unfold read_zstd_chunked_tree_member. rewrite Hr. by split_and!.
Qed.

Lemma tree_answer_direct file archive request : archive_of file archive ->
  snd (tree_answer archive request) = read_directly file request /\ archive_of file (fst (tree_answer archive request)).
Proof.
  intros Ha. pose proof Ha as (_ & Hi & _). destruct request as [n|tree_id name count checksum]; cbn [tree_answer read_directly].
  - unfold read_tree_by_ordinal, read_zstd_chunked_tree_pack_tree_by_ordinal. rewrite Hi. cbn [mbind result_bind].
    destruct (with_ordinal (ta_index archive) n) as [member|e]; [|by split]. destruct (archive_member_read file archive member Ha) as (Hr & Ha' & _).
    destruct (archive_member archive member) as [archive' r]. cbn [fst snd] in *. by rewrite Hr.
  - unfold read_tree_by_entry_name, read_zstd_chunked_tree_pack_tree_by_entry_name. rewrite Hi. cbn [mbind result_bind].
    destruct (named_member (ta_index archive) tree_id name count checksum) as [member|e]; [|by split].
    destruct (archive_member_read file archive member Ha) as (Hr & Ha' & _). by destruct (archive_member archive member).
Qed.

Lemma tree_session_direct file archive requests : archive_of file archive -> tree_session archive requests = map (read_directly file) requests.
Proof.
  revert archive. induction requests as [|request requests IH]; intros archive Ha; [done|]. cbn. destruct (tree_answer_direct file archive request Ha) as [<- Ha'].
  destruct (tree_answer archive request) as [archive' r]. cbn [fst snd] in *. by rewrite IH.
Qed.

(** The cache of an open archive is not observable: whatever is asked of an
    archive, in whatever order, the answers are those of readers that open the
    file anew for every question, errors included. *)
Theorem tree_archive_transparent file persisted_pack_format archive requests : open_with_format file persisted_pack_format = Ok archive ->
  tree_session archive requests = map (read_directly file) requests.
Proof.
  intros H. apply tree_session_direct. unfold open_with_format in H. apply bind_Ok in H as (kind & _ & H). apply bind_Ok in H as (index & Hi & [= <-]).
  split_and!; [done|done|]. intros c raw Hc. cbn [ta_cache] in Hc. by rewrite lookup_empty in Hc.
Qed.
End Reads.

(** C33. Tree packs round-trip. Take rows of trees and of their entries as JSON, in
    any order and with any other fields, whose texts are UTF-8 without white
    space around them once trimmed, with distinct tree ids and the right entry
    counts. When the members that are built of them are written to a pack, then
    every tree is read back with exactly its entries, in the order of their
    names - by the ordinal that its id has among the sorted ids, by its id, and
    by its entry name with the checksum that the statistics of the pack report. *)
Theorem tree_pack_roundtrip {J : JsonText} {LJ : LawfulJsonText} {P : PackPrimitives} {LP : LawfulPrimitives}
    es ids tree_rows entry_rows members pack_id created_at persisted_pack_format file stats :
  Forall2 row_describes entry_rows es -> Forall2 (tree_describes es) tree_rows ids ->
  Forall (fun e => row_ok (snd e)) es -> Forall text_ok ids -> NoDup ids ->
  utf8_string pack_id -> utf8_string created_at -> (N.of_nat (length file) < u64_modulus)%N ->
  build_tree_pack_members (JArray tree_rows) (JArray entry_rows) = Ok members ->
  write_tree_pack_archive_with_format pack_id created_at members persisted_pack_format = Ok (file, stats) ->
  exists checksums, tree_pack_checksums_by_tree_id stats = Ok checksums /\
    forall k tree_id, sort_by_key id ids !! k = Some tree_id ->
      let rows := JArray (map (row_json tree_id) (rows_of tree_id es)) in
      read_zstd_chunked_tree_pack_tree_by_ordinal file (N.of_nat k) =
        Ok (json_object [("tree_id", JString tree_id); ("entry_ordinal", JNumber (PosInt (N.of_nat k))); ("rows", rows)]%string) /\
      read_zstd_chunked_tree_pack_tree file tree_id = Ok rows /\
      exists checksum, checksums !! tree_id = Some checksum /\
        read_zstd_chunked_tree_pack_tree_by_entry_name file tree_id (tree_entry_name tree_id) (N.of_nat (length (rows_of tree_id es))) checksum = Ok rows.
Proof.
  intros Hrows Htrees Hes Hids Hnd Hp Hc Hlen Hbuild Hwrite. destruct (build_Ok es entry_rows tree_rows ids members) as (ms & -> & Hms); [done..|].
  unfold write_tree_pack_archive_with_format in Hwrite. apply bind_Ok in Hwrite as (kind & _ & Hwrite).
  destruct (archive_written es (sort_by_key id ids) ms pack_id created_at file stats) as (index & Hholds & Hsums); [done|by rewrite sort_by_key_perm|done..|].
  eexists. split; [exact Hsums|]. intros k tree_id Hk rows. assert (NoDup (sort_by_key id ids)) as Hnd' by (by rewrite sort_by_key_perm).
  destruct (holds_find _ _ _ _ _ _ Hholds Hnd' Hk) as (e & Hid & Hord & Hname & Hcount & He & F1 & F2 & F3 & Hread).
  pose proof (ht_index _ _ _ _ Hholds) as Hi. split_and!.
  - unfold read_zstd_chunked_tree_pack_tree_by_ordinal. rewrite Hi. cbn [mbind result_bind]. rewrite F1. cbn [mbind result_bind]. rewrite Hread. cbn [mbind result_bind].
    unfold ordinal_json. by rewrite Hid, Hord.
  - unfold read_zstd_chunked_tree_pack_tree. rewrite Hi. cbn [mbind result_bind]. by rewrite F2.
  - exists (mb_checksum e). rewrite <- Hid at 1. split.
    + apply (foldl_insert_lookup _ _ k); [|done]. by rewrite (ht_content _ _ _ _ Hholds).
    + unfold read_zstd_chunked_tree_pack_tree_by_entry_name. rewrite Hi. cbn [mbind result_bind]. unfold named_member. rewrite F3. cbn [ok_or mbind result_bind].
      by rewrite Hcount, !bool_decide_eq_true_2.
Qed.

(** ** An example *)

Definition example_row (name target : string) : tree_row := mkRow name "blob" target (Some 3%N) "100644".
Definition example_entries : list (string * tree_row) :=
  [("TRE-B", example_row "b" "BLB-2"); ("TRE-A", mkRow "sub" "tree" "TRE-B" None "040000"); ("TRE-B", example_row "a" "BLB-1")]%string.
Definition example_tree (tree_id : string) (count : N) : JsonValue :=
  json_object [("tree_id", JString tree_id); ("entry_count", json_number count)]%string.
Definition example_trees : list JsonValue := [example_tree "TRE-B" 2; example_tree "TRE-A" 1].

Definition example_rows : list JsonValue := map (fun e => row_json (fst e) (snd e)) example_entries.
Definition example_members : result json_error JsonValue :=
  build_tree_pack_members (J := toy_json) (P := toy_primitives) (JArray example_trees) (JArray example_rows).

Ltac describe := eexists; split; [reflexivity|]; split_and!; vm_compute; reflexivity.
Lemma example_rows_described : Forall2 row_describes example_rows example_entries.
Proof. apply Forall2_cons; split; [describe|]. apply Forall2_cons; split; [describe|]. apply Forall2_cons; split; [describe|]. apply Forall2_nil_2. Qed.
Lemma example_trees_described : Forall2 (tree_describes example_entries) example_trees ["TRE-B"; "TRE-A"]%string.
Proof. apply Forall2_cons; split; [describe|]. apply Forall2_cons; split; [describe|]. apply Forall2_nil_2. Qed.
Lemma example_rows_ok : Forall (fun e => row_ok (snd e)) example_entries.
Proof. repeat apply Forall_cons_2; [..|apply Forall_nil_2]; repeat split; vm_compute; reflexivity. Qed.
Lemma example_ids_ok : Forall text_ok ["TRE-B"; "TRE-A"]%string.
Proof. repeat apply Forall_cons_2; [..|apply Forall_nil_2]; split; vm_compute; reflexivity. Qed.

Definition example_archive : result tree_pack_error (JsonValue * bytes * JsonValue) :=
  members ← from_json example_members;
  written ← write_tree_pack_archive_with_format (J := toy_json) (P := toy_primitives) "TPK-1" "1970-01-01T00:00:00Z" members " ait-tree-pack-v2-zstd-chunked";
  Ok (members, fst written, snd written).

Lemma tree_pack_roundtrip_witness : exists members file stats, example_members = Ok members /\
  write_tree_pack_archive_with_format (J := toy_json) (P := toy_primitives) "TPK-1" "1970-01-01T00:00:00Z" members " ait-tree-pack-v2-zstd-chunked" = Ok (file, stats) /\
  read_zstd_chunked_tree_pack_tree (P := toy_primitives) file "TRE-B" =
    Ok (JArray [row_json "TRE-B" (example_row "a" "BLB-1"); row_json "TRE-B" (example_row "b" "BLB-2")]).
Proof.
  assert (match example_archive with Ok (_, file, _) => (N.of_nat (length file) <? u64_modulus)%N | Err _ => false end = true) as Hlen by (vm_compute; reflexivity).
  destruct example_archive as [[[members file] stats]|e] eqn:Hrun; [|discriminate Hlen]. apply N.ltb_lt in Hlen. unfold example_archive in Hrun.
  apply bind_Ok in Hrun as (members' & Hbuild & Hrun). apply bind_Ok in Hrun as ([file' stats'] & Hwrite & [= -> -> ->]). apply map_err_Ok in Hbuild.
  exists members, file, stats. split; [exact Hbuild|]. split; [exact Hwrite|].
  destruct (tree_pack_roundtrip (J := toy_json) (LJ := toy_json_lawful) (P := toy_primitives) (LP := toy_lawful) example_entries ["TRE-B"; "TRE-A"]%string example_trees
    example_rows members "TPK-1" "1970-01-01T00:00:00Z" " ait-tree-pack-v2-zstd-chunked" file stats) as (checksums & _ & Hall).
  - exact example_rows_described.
  - exact example_trees_described.
  - exact example_rows_ok.
  - exact example_ids_ok.
  - exact (bool_decide_unpack (NoDup ["TRE-B"; "TRE-A"]%string) I).
  - reflexivity.
  - reflexivity.
  - exact Hlen.
  - exact Hbuild.
  - exact Hwrite.
  - destruct (Hall 1 "TRE-B"%string eq_refl) as (_ & Hread & _). exact Hread.
Defined.
