(* ===== verification/SnapshotRebase.v ===== *)
(** * Rebasing snapshots

    [ait-core/src/snapshot_rebase.rs]: the three-way rebase of one tree of
    files, and the replay of a whole history of snapshots on a new target. *)

From Stdlib Require Import NArith ZArith Lia.
From stdpp Require Import base numbers sorting fin_sets gmap strings list.
From S2P Require Import Prelude.

Record SnapshotFileRow : Type := mkRow {
  fr_path : string;
  fr_blob_id : string;
  fr_size_bytes : Z;
  fr_mode : string;
  fr_sha256 : string
}.
#[export] Instance SnapshotFileRow_eq_dec : EqDecision SnapshotFileRow.
Proof. solve_decision. Defined.

Abbreviation SnapshotFileMap := (gmap string SnapshotFileRow).

Inductive SnapshotRebaseResolution : Type := ResolveTarget | ResolveFeature | ResolveSameResult | ResolveConflict.
Inductive SnapshotRebaseApply : Type := ApplyUnchanged | ApplyWrite | ApplyRemove | ApplyConflict.

Record SnapshotRebasePath : Type := mkRebasePath {
  rp_path : string;
  rp_feature_changed : bool;
  rp_target_changed : bool;
  rp_resolution : SnapshotRebaseResolution;
  rp_apply : SnapshotRebaseApply
}.

Record SnapshotTreeRebasePlan : Type := mkRebasePlan {
  feature_delta_count : N;
  plan_paths : list SnapshotRebasePath;
  write_paths : list string;
  remove_paths : list string;
  conflict_paths : list string;
  merged_files : option SnapshotFileMap
}.

Definition empty_plan : SnapshotTreeRebasePlan := mkRebasePlan 0 [] [] [] [] None.
Definition count_feature (changed : bool) (p : SnapshotTreeRebasePlan) : SnapshotTreeRebasePlan :=
  mkRebasePlan (feature_delta_count p + if changed then 1 else 0) (plan_paths p) (write_paths p) (remove_paths p) (conflict_paths p) (merged_files p).
Definition push_path (row : SnapshotRebasePath) (p : SnapshotTreeRebasePlan) : SnapshotTreeRebasePlan :=
  mkRebasePlan (feature_delta_count p) (plan_paths p ++ [row]) (write_paths p) (remove_paths p) (conflict_paths p) (merged_files p).
Definition push_write (path : string) (p : SnapshotTreeRebasePlan) : SnapshotTreeRebasePlan :=
  mkRebasePlan (feature_delta_count p) (plan_paths p) (write_paths p ++ [path]) (remove_paths p) (conflict_paths p) (merged_files p).
Definition push_remove (path : string) (p : SnapshotTreeRebasePlan) : SnapshotTreeRebasePlan :=
  mkRebasePlan (feature_delta_count p) (plan_paths p) (write_paths p) (remove_paths p ++ [path]) (conflict_paths p) (merged_files p).
Definition push_conflict (path : string) (p : SnapshotTreeRebasePlan) : SnapshotTreeRebasePlan :=
  mkRebasePlan (feature_delta_count p) (plan_paths p) (write_paths p) (remove_paths p) (conflict_paths p ++ [path]) (merged_files p).
Definition set_merged (merged : option SnapshotFileMap) (p : SnapshotTreeRebasePlan) : SnapshotTreeRebasePlan :=
  mkRebasePlan (feature_delta_count p) (plan_paths p) (write_paths p) (remove_paths p) (conflict_paths p) merged.

(** The body of the loop over the paths; the state is [plan] and [merged]. *)
Definition rebase_path (base feature target : SnapshotFileMap) (st : SnapshotTreeRebasePlan * SnapshotFileMap) (path : string)
  : SnapshotTreeRebasePlan * SnapshotFileMap :=
  let '(plan, merged) := st in
  let old := base !! path in
  let source := feature !! path in
  let destination := target !! path in
  let feature_changed := negb (bool_decide (source = old)) in
  let target_changed := negb (bool_decide (destination = old)) in
  if negb feature_changed && negb target_changed then (plan, merged)
  else
    let plan := count_feature feature_changed plan in
    let '(plan, merged, resolution, apply) :=
      if negb feature_changed then (plan, merged, ResolveTarget, ApplyUnchanged)
      else if negb target_changed then
        match source with
        | Some row => (push_write path plan, <[path := row]> merged, ResolveFeature, ApplyWrite)
        | None => (push_remove path plan, delete path merged, ResolveFeature, ApplyRemove)
        end
      else if bool_decide (source = destination) then (plan, merged, ResolveSameResult, ApplyUnchanged)
      else (push_conflict path plan, merged, ResolveConflict, ApplyConflict) in
    (push_path (mkRebasePath path feature_changed target_changed resolution apply) plan, merged).

Definition rebase_snapshot_files (base feature target : SnapshotFileMap) : SnapshotTreeRebasePlan :=
  let paths := sorted_elements (dom base ∪ dom feature ∪ dom target) in
  let '(plan, merged) := foldl (rebase_path base feature target) (empty_plan, target) paths in
  match conflict_paths plan with [] => set_merged (Some merged) plan | _ => plan end.

(** ** Replaying a history *)

Record SnapshotWorkflowBinding : Type := mkBinding { wb_task_id : string; wb_change_id : string; wb_line_name : string }.

Record SnapshotHistoryBoundary (M : Type) : Type := mkBoundary {
  hb_base_snapshot_id : string;
  hb_snapshot_id : string;
  hb_owner : SnapshotWorkflowBinding;
  hb_base_files : SnapshotFileMap;
  hb_files : SnapshotFileMap;
  hb_metadata : M
}.
Arguments mkBoundary {M}.
Arguments hb_base_snapshot_id {M}.
Arguments hb_snapshot_id {M}.
Arguments hb_owner {M}.
Arguments hb_base_files {M}.
Arguments hb_files {M}.
Arguments hb_metadata {M}.

Inductive SnapshotReplayParent : Type := Existing (id : string) | Replayed (index : nat).
#[export] Instance SnapshotReplayParent_eq_dec : EqDecision SnapshotReplayParent.
Proof. solve_decision. Defined.

Record SnapshotHistoryRebaseStep (M : Type) : Type := mkStep {
  hs_source : SnapshotHistoryBoundary M;
  hs_parent : SnapshotReplayParent;
  hs_files : SnapshotFileMap;
  hs_reuse_snapshot_id : option string
}.
Arguments mkStep {M}.
Arguments hs_source {M}.
Arguments hs_parent {M}.
Arguments hs_files {M}.
Arguments hs_reuse_snapshot_id {M}.

Inductive SnapshotHistoryRebaseError : Type :=
| InvalidHistory (message : string)
| Conflict (task_id snapshot_id : string) (paths : list string).

Section history.
Context {M : Type}.
Local Abbreviation boundary := (SnapshotHistoryBoundary M).

(** [value.trim().is_empty()] *)
Definition blank (s : string) : bool := bool_decide (trim s = EmptyString).

(** [seen_snapshots], [seen_tasks], [previous_task] and [previous_source]. *)
Record history_scan : Type := mkScan {
  seen_snapshots : gset string;
  seen_tasks : gset string;
  previous_task : option string;
  previous_source : option boundary
}.

Definition enter_task (st : history_scan) (task_id : string) : result SnapshotHistoryRebaseError (gset string * option string) :=
  if bool_decide (previous_task st = Some task_id) then Ok (seen_tasks st, previous_task st)
  else
    _ ← fail_if (bool_decide (task_id ∈ seen_tasks st)) (InvalidHistory "History replay returns to an earlier Task");
    Ok ({[task_id]} ∪ seen_tasks st, Some task_id).

Definition validate_boundary (target_snapshot_id : string) (target_files : SnapshotFileMap) (st : history_scan) (b : boundary)
  : result SnapshotHistoryRebaseError history_scan :=
  _ ← fail_if (blank (hb_base_snapshot_id b) || blank (hb_snapshot_id b)
               || bool_decide (hb_base_snapshot_id b = hb_snapshot_id b)
               || blank (wb_task_id (hb_owner b)) || blank (wb_line_name (hb_owner b))
               || bool_decide (hb_snapshot_id b ∈ seen_snapshots st))
        (InvalidHistory "History replay has an invalid identity or repeated Snapshot");
  tasks ← enter_task st (wb_task_id (hb_owner b));
  _ ← fail_if (match previous_source st with
               | Some previous => negb (bool_decide (hb_base_snapshot_id b = hb_snapshot_id previous))
                                  || negb (bool_decide (hb_base_files b = hb_files previous))
               | None => false end)
        (InvalidHistory "History replay contains a gap or conflicting immutable tree");
  _ ← fail_if (bool_decide (hb_snapshot_id b = target_snapshot_id))
        (InvalidHistory "Select only the history suffix not already present in the target");
  _ ← fail_if (bool_decide (hb_base_snapshot_id b = target_snapshot_id) && negb (bool_decide (hb_base_files b = target_files)))
        (InvalidHistory "Target Snapshot has conflicting immutable tree content");
  Ok (mkScan ({[hb_snapshot_id b]} ∪ seen_snapshots st) (fst tasks) (snd tasks) (Some b)).

(** The validation of the complete input. *)
Definition validate_history (target_snapshot_id : string) (target_files : SnapshotFileMap) (boundaries : list boundary)
  : result SnapshotHistoryRebaseError unit :=
  match boundaries with
  | first :: _ =>
      _ ← fail_if (blank target_snapshot_id) (InvalidHistory "History replay requires a target and source boundaries");
      _ ← foldM (validate_boundary target_snapshot_id target_files)
            (mkScan {[hb_base_snapshot_id first]} ∅ None None) boundaries;
      Ok tt
  | [] => Err (InvalidHistory "History replay requires a target and source boundaries")
  end.

(** [parent], [files], [steps] and the index of the enumeration. *)
Record replay_state : Type := mkReplay {
  rs_index : nat;
  rs_parent : SnapshotReplayParent;
  rs_files : SnapshotFileMap;
  rs_steps : list (SnapshotHistoryRebaseStep M)
}.

Definition replay_boundary (st : replay_state) (source : boundary) : result SnapshotHistoryRebaseError replay_state :=
  let merged := rebase_snapshot_files (hb_base_files source) (hb_files source) (rs_files st) in
  replayed_files ← ok_or (merged_files merged)
    (Conflict (wb_task_id (hb_owner source)) (hb_snapshot_id source) (conflict_paths merged));
  let reuse := bool_decide (rs_parent st = Existing (hb_base_snapshot_id source))
               && bool_decide (replayed_files = hb_files source) in
  let next_parent := if reuse then Existing (hb_snapshot_id source) else Replayed (rs_index st) in
  Ok (mkReplay (S (rs_index st)) next_parent replayed_files
    (rs_steps st ++ [mkStep source (rs_parent st) replayed_files (if reuse then Some (hb_snapshot_id source) else None)])).

Definition plan_snapshot_history_rebase (target_snapshot_id : string) (target_files : SnapshotFileMap) (boundaries : list boundary)
  : result SnapshotHistoryRebaseError (list (SnapshotHistoryRebaseStep M)) :=
  _ ← validate_history target_snapshot_id target_files boundaries;
  st ← foldM replay_boundary (mkReplay 0 (Existing target_snapshot_id) target_files []) boundaries;
  Ok (rs_steps st).
End history.
Arguments history_scan : clear implicits.
Arguments replay_state : clear implicits.

(** ** Specification *)

(** Both sides changed the path, to different results. *)
Definition diverges (base feature target : SnapshotFileMap) (path : string) : Prop :=
  feature !! path <> base !! path /\ target !! path <> base !! path /\ feature !! path <> target !! path.

(** What a path holds after a rebase without conflicts. *)
Definition rebased (base feature target : SnapshotFileMap) (path : string) : option SnapshotFileRow :=
  if bool_decide (feature !! path = base !! path) then target !! path else feature !! path.

#[export] Instance diverges_dec base feature target path : Decision (diverges base feature target path).
Proof. unfold diverges. apply _. Defined.

(** The paths that only the feature changed. *)
Definition adopted (base feature target : SnapshotFileMap) (path : string) : Prop :=
  feature !! path <> base !! path /\ target !! path = base !! path.
#[export] Instance adopted_dec base feature target path : Decision (adopted base feature target path).
Proof. unfold adopted. apply _. Defined.

Definition written (base feature target : SnapshotFileMap) (path : string) : Prop :=
  adopted base feature target path /\ is_Some (feature !! path).
#[export] Instance written_dec base feature target path : Decision (written base feature target path).
Proof. unfold written. apply _. Defined.

Definition removed (base feature target : SnapshotFileMap) (path : string) : Prop :=
  adopted base feature target path /\ feature !! path = None.
#[export] Instance removed_dec base feature target path : Decision (removed base feature target path).
Proof. unfold removed. apply _. Defined.

(** ** Lemmas on one tree *)

Section tree.
Context (base feature target : SnapshotFileMap).

Record rebase_inv (done : list string) (st : SnapshotTreeRebasePlan * SnapshotFileMap) : Prop := {
  ri_conflict : conflict_paths (fst st) = filter (diverges base feature target) done;
  ri_write : write_paths (fst st) = filter (written base feature target) done;
  ri_remove : remove_paths (fst st) = filter (removed base feature target) done;
  ri_merged : forall path, snd st !! path =
    if decide (path ∈ done /\ adopted base feature target path) then feature !! path else target !! path;
  ri_none : merged_files (fst st) = None
}.

Ltac decide_path :=
  unfold written, removed, diverges, adopted;
  repeat match goal with H : feature !! _ = _ |- _ => rewrite H end; intuition (eauto; congruence || by destruct_and?).

Ltac by_filter :=
  rewrite ?filter_snoc; first [rewrite decide_True by decide_path | rewrite decide_False by decide_path];
  rewrite ?app_nil_r; congruence.

Ltac plan_fields := cbn [fst snd push_path push_write push_remove push_conflict count_feature conflict_paths write_paths remove_paths merged_files].

Lemma rebase_path_inv done path st :
  path ∉ done -> rebase_inv done st -> rebase_inv (done ++ [path]) (rebase_path base feature target st path).
Proof.
  intros Hfresh [Hc Hw Hr Hm Hn]. destruct st as [plan merged]. cbn [fst snd] in *.
  assert (forall p (m : SnapshotFileMap), m !! path = (if decide (adopted base feature target path) then feature !! path else target !! path) ->
    (p <> path -> m !! p = merged !! p) ->
    m !! p = if decide (p ∈ done ++ [path] /\ adopted base feature target p) then feature !! p else target !! p) as Hmap.
  { intros p m Hself Hother. destruct (decide (p = path)) as [->|Hp].
    - rewrite Hself. apply decide_ext. rewrite elem_of_snoc. tauto.
    - rewrite (Hother Hp), Hm. apply decide_ext. rewrite elem_of_snoc. tauto. }
  pose proof (Hm path) as Hpath. rewrite decide_False in Hpath by tauto.
  unfold rebase_path. destruct (bool_decide_reflect (feature !! path = base !! path)) as [Hf|Hf];
    destruct (bool_decide_reflect (target !! path = base !! path)) as [Ht|Ht]; cbn [negb andb].
  - split; plan_fields; [by_filter..| |done]. intros p. apply Hmap; [|done]. by rewrite decide_False by (unfold adopted; tauto).
  - split; plan_fields; [by_filter..| |done]. intros p. apply Hmap; [|done]. by rewrite decide_False by (unfold adopted; tauto).
  - destruct (feature !! path) as [row|] eqn:Hrow.
    + split; plan_fields; [by_filter..| |done]. intros p. apply Hmap; [|intros Hp; by rewrite lookup_insert_ne].
      rewrite lookup_insert_eq, decide_True by (unfold adopted; rewrite Hrow; tauto). done.
    + split; plan_fields; [by_filter..| |done]. intros p. apply Hmap; [|intros Hp; by rewrite lookup_delete_ne].
      rewrite lookup_delete_eq, decide_True by (unfold adopted; rewrite Hrow; tauto). done.
  - assert (~ adopted base feature target path) as Hno by (unfold adopted; tauto).
    case_bool_decide; (split; plan_fields; [by_filter..| |done]); intros p; apply Hmap; try done; by rewrite decide_False.
Qed.

Lemma rebase_fold_inv : rebase_inv (sorted_elements (dom base ∪ dom feature ∪ dom target))
  (foldl (rebase_path base feature target) (empty_plan, target) (sorted_elements (dom base ∪ dom feature ∪ dom target))).
Proof.
  apply (foldl_ind _ rebase_inv).
  - by split.
  - intros done path rest st Hl. apply rebase_path_inv. pose proof (NoDup_sorted_elements (dom base ∪ dom feature ∪ dom target)) as Hnd.
    rewrite Hl in Hnd. apply NoDup_app in Hnd as (_ & Hd & _). intros Hin. apply (Hd path Hin). by left.
Qed.

Lemma elem_of_paths path : path ∈ sorted_elements (dom base ∪ dom feature ∪ dom target) <->
  is_Some (base !! path) \/ is_Some (feature !! path) \/ is_Some (target !! path).
Proof. rewrite elem_of_sorted_elements, !elem_of_union, !elem_of_dom. tauto. Qed.

Lemma elem_of_selected (P : string -> Prop) `{!forall path, Decision (P path)} path :
  (P path -> is_Some (base !! path) \/ is_Some (feature !! path) \/ is_Some (target !! path)) ->
  path ∈ filter P (sorted_elements (dom base ∪ dom feature ∪ dom target)) <-> P path.
Proof. intros HP. rewrite list_elem_of_filter, elem_of_paths. tauto. Qed.

(** The lists of the plan, before and after [merged_files] is set. *)
Lemma rebase_plan_fields : exists merged,
  rebase_snapshot_files base feature target =
    (let plan := fst (foldl (rebase_path base feature target) (empty_plan, target) (sorted_elements (dom base ∪ dom feature ∪ dom target))) in
     match conflict_paths plan with [] => set_merged (Some merged) plan | _ => plan end) /\
  forall path, merged !! path = if decide (adopted base feature target path) then feature !! path else target !! path.
Proof.
  destruct rebase_fold_inv as [_ _ _ Hm _]. unfold rebase_snapshot_files. destruct (foldl _ _ _) as [plan merged].
  exists merged. split; [done|]. intros path. rewrite Hm. cbn [snd]. destruct (decide (adopted base feature target path)) as [Ha|Ha].
  - destruct (decide (_ /\ _)) as [|Hn]; [done|]. destruct (target !! path) eqn:Ht, (feature !! path) eqn:Hf; try done;
      destruct Hn; (split; [|done]); apply elem_of_paths; rewrite ?Ht, ?Hf; eauto.
  - by rewrite decide_False by tauto.
Qed.

Lemma rebase_conflicts : conflict_paths (rebase_snapshot_files base feature target) =
  filter (diverges base feature target) (sorted_elements (dom base ∪ dom feature ∪ dom target)).
Proof.
  destruct rebase_plan_fields as (merged & -> & _). destruct rebase_fold_inv as [Hc _ _ _ _]. cbn zeta.
  destruct (conflict_paths _) eqn:He; cbn; congruence.
Qed.

Lemma rebase_no_conflicts : conflict_paths (rebase_snapshot_files base feature target) = [] ->
  is_Some (merged_files (rebase_snapshot_files base feature target)).
Proof. destruct rebase_plan_fields as (m & -> & _). cbn zeta. destruct (conflict_paths (fst _)) eqn:He; cbn; [eauto|congruence]. Qed.

Lemma elem_of_conflicts path : path ∈ conflict_paths (rebase_snapshot_files base feature target) <-> diverges base feature target path.
Proof.
  rewrite rebase_conflicts. apply elem_of_selected. intros (H1 & H2 & H3).
  destruct (feature !! path); [eauto|]. destruct (base !! path); [eauto|]. done.
Qed.

Lemma elem_of_written path : path ∈ write_paths (rebase_snapshot_files base feature target) <-> written base feature target path.
Proof.
  destruct rebase_plan_fields as (merged & -> & _). destruct rebase_fold_inv as [_ Hw _ _ _]. cbn zeta.
  rewrite <- (elem_of_selected (written base feature target) path) by (unfold written; tauto). rewrite <- Hw.
  by destruct (conflict_paths _).
Qed.

Lemma elem_of_removed path : path ∈ remove_paths (rebase_snapshot_files base feature target) <-> removed base feature target path.
Proof.
  destruct rebase_plan_fields as (merged & -> & _). destruct rebase_fold_inv as [_ _ Hr _ _]. cbn zeta.
  rewrite <- (elem_of_selected (removed base feature target) path), <- Hr; [by destruct (conflict_paths _)|].
  intros [[Hf _] Hn]. rewrite Hn in Hf. destruct (base !! path); [eauto|done].
Qed.

Lemma rebase_merged merged : merged_files (rebase_snapshot_files base feature target) = Some merged <->
  (forall path, ~ diverges base feature target path) /\ forall path, merged !! path = rebased base feature target path.
Proof.
  pose proof elem_of_conflicts as Hcs. destruct rebase_plan_fields as (m & Hplan & Hm). destruct rebase_fold_inv as [_ _ _ _ Hnone].
  assert (forall path, ~ diverges base feature target path -> m !! path = rebased base feature target path) as Hval.
  { intros path Hd. rewrite Hm. unfold rebased, adopted, diverges in *.
    destruct (bool_decide_reflect (feature !! path = base !! path)) as [Hf|Hf];
      [by rewrite decide_False by tauto|].
    destruct (decide _) as [|Hn]; [done|]. destruct (decide (feature !! path = target !! path)); [done|]. tauto. }
  rewrite Hplan in *. cbn zeta in *. destruct (conflict_paths (fst _)) as [|p ps] eqn:He.
  - cbn in *. assert (forall path, ~ diverges base feature target path) as Hno.
    { intros path Hd. apply Hcs in Hd. rewrite He in Hd. by apply elem_of_nil in Hd. }
    split.
    + intros [= <-]. split; [done|]. intros path. by apply Hval.
    + intros [_ Heq]. f_equal. apply map_eq. intros path. by rewrite Heq, Hval.
  - rewrite Hnone. split; [done|]. intros [Hno _]. destruct (Hno p). apply Hcs. rewrite He. by left.
Qed.
End tree.

(** ** Lemmas on a history *)

Section replay.
Context {M : Type} (target_snapshot_id : string) (target_files : SnapshotFileMap).
Local Abbreviation boundary := (SnapshotHistoryBoundary M).
Local Abbreviation step := (SnapshotHistoryRebaseStep M).

(** Consecutive boundaries, the first of which starts from the target's tree
    when it starts from the target. *)
Record chained (boundaries : list boundary) : Prop := {
  ch_next : forall k b b', boundaries !! k = Some b -> boundaries !! S k = Some b' ->
    hb_base_snapshot_id b' = hb_snapshot_id b /\ hb_base_files b' = hb_files b;
  ch_target : forall b, b ∈ boundaries -> hb_base_snapshot_id b = target_snapshot_id -> hb_base_files b = target_files;
  ch_suffix : forall b, b ∈ boundaries -> hb_snapshot_id b <> target_snapshot_id
}.

Lemma chained_prefix l1 l2 : chained (l1 ++ l2) -> chained l1.
Proof.
  intros [Hn Ht Hs]. split; [|set_solver..]. intros k b1 b2 H1 H2. apply (Hn k); by apply lookup_app_l_Some.
Qed.

Lemma last_snoc_lookup {A} (l : list A) x k b b' :
  (l ++ [x]) !! k = Some b -> (l ++ [x]) !! S k = Some b' -> (l !! k = Some b /\ l !! S k = Some b') \/ (last l = Some b /\ b' = x).
Proof.
  intros Hk Hk'. apply lookup_snoc_Some in Hk' as [[Hlt Hl]|[Heq ->]].
  - left. split; [|done]. rewrite lookup_app_l in Hk by lia. done.
  - right. split; [|done]. rewrite lookup_app_l in Hk by lia. rewrite last_lookup. by replace (pred (length l)) with k by lia.
Qed.

Lemma validate_history_chained boundaries :
  validate_history target_snapshot_id target_files boundaries = Ok tt -> chained boundaries.
Proof.
  unfold validate_history. destruct boundaries as [|first rest]; [done|]. intros H. skip_bind H.
  apply bind_Ok in H as (st & Hf & _).
  enough (chained (first :: rest) /\ previous_source st = last (first :: rest)) by tauto. revert Hf.
  apply (foldM_ind _ (fun done st => chained done /\ previous_source st = last done)).
  - split; [|done]. split; [intros k b b' Hk|intros b Hb|intros b Hb]; by apply elem_of_nil in Hb || rewrite lookup_nil in Hk.
  - intros done b rest' s s' _ [[Hn Ht Hs] Hp] Hv. unfold validate_boundary in Hv. inv_ok.
    rewrite last_snoc. split; [|done]. rewrite Hp in Hok1. split.
    + intros k b1 b2 H1 H2. destruct (last_snoc_lookup _ _ _ _ _ H1 H2) as [[? ?]|[Hl ->]]; [by eapply Hn|].
      rewrite Hl in Hok1. apply orb_false_iff in Hok1 as [Hi Hfs].
      apply negb_false_iff, bool_decide_eq_true in Hi, Hfs. by split.
    + intros b' [Hb| ->]%elem_of_snoc; [by apply Ht|]. intros Hb. apply andb_false_iff in Hok3 as [Hi|Hi].
      * by apply bool_decide_eq_false in Hi.
      * by apply negb_false_iff, bool_decide_eq_true in Hi.
    + intros b' [Hb| ->]%elem_of_snoc; [by apply Hs|]. by apply bool_decide_eq_false in Hok2.
Qed.

Lemma validate_history_invalid boundaries task_id snapshot_id paths :
  validate_history (M := M) target_snapshot_id target_files boundaries <> Err (Conflict task_id snapshot_id paths).
Proof.
  unfold validate_history. destruct boundaries as [|first rest]; [done|]. intros H.
  apply bind_Err in H as [[H _]%fail_if_Err|(? & _ & H)]; [done|]. apply bind_Err in H as [H|(? & _ & H)]; [|done].
  apply foldM_Err in H as (done & b & rest' & st & _ & _ & H). unfold validate_boundary, enter_task in H.
  apply bind_Err in H as [[H _]%fail_if_Err|(? & _ & H)]; [done|]. apply bind_Err in H as [H|(? & _ & H)].
  - destruct (bool_decide _); [done|]. by apply bind_Err in H as [[H _]%fail_if_Err|(? & _ & H)].
  - do 3 (apply bind_Err in H as [[H _]%fail_if_Err|(? & _ & H)]; [done|]). done.
Qed.

(** The tree that a history leaves at a path: the target's row if no boundary
    changes the path, and the row of the last boundary otherwise. *)
Definition untouched (path : string) (b : boundary) : Prop := hb_files b !! path = hb_base_files b !! path.
#[export] Instance untouched_dec path b : Decision (untouched path b).
Proof. unfold untouched. apply _. Defined.

Definition net_row (boundaries : list boundary) (path : string) : option SnapshotFileRow :=
  if decide (Forall (untouched path) boundaries) then target_files !! path
  else match last boundaries with Some b => hb_files b !! path | None => None end.

Lemma net_row_snoc l b merged path :
  chained (l ++ [b]) -> (forall p, merged !! p = net_row l p) ->
  rebased (hb_base_files b) (hb_files b) merged path = net_row (l ++ [b]) path.
Proof.
  intros Hc Hm. unfold rebased. rewrite Hm. unfold net_row. rewrite last_snoc.
  case_bool_decide as Hu.
  - destruct (decide (Forall (untouched path) l)) as [Hl|Hl].
    + by rewrite decide_True by (apply Forall_app; auto).
    + rewrite (decide_False (P := Forall (untouched path) (l ++ [b]))) by (rewrite Forall_app; tauto).
      destruct (last l) as [b0|] eqn:Hlast; [|apply last_None in Hlast as ->; by destruct Hl].
      rewrite Hu. rewrite last_lookup in Hlast. f_equal.
      assert (0 < length l) by (destruct l; [done|cbn; lia]).
      symmetry. apply (ch_next _ Hc (pred (length l))); [by rewrite lookup_app_l by lia|].
      replace (S (pred (length l))) with (length l) by lia. by apply list_lookup_middle.
  - rewrite (decide_False (P := Forall (untouched path) (l ++ [b]))); [done|].
    rewrite Forall_app, Forall_singleton. unfold untouched. tauto.
Qed.

Record replay_inv (done : list boundary) (st : replay_state M) : Prop := {
  rv_index : rs_index st = length done;
  rv_length : length (rs_steps st) = length done;
  rv_files : forall path, rs_files st !! path = net_row done path;
  rv_steps : forall k s, rs_steps st !! k = Some s ->
    done !! k = Some (hs_source s) /\ forall path, hs_files s !! path = net_row (take (S k) done) path
}.

Lemma replay_inv_fold boundaries st : chained boundaries ->
  foldM replay_boundary (mkReplay 0 (Existing target_snapshot_id) target_files []) boundaries = Ok st -> replay_inv boundaries st.
Proof.
  intros Hc. apply (foldM_ind _ replay_inv).
  - split; try done.
  - intros done b rest s s' Hl [Hi Hlen Hf Hs] Hr. unfold replay_boundary in Hr.
    apply bind_Ok in Hr as (merged & Hm & Hr). apply ok_or_Ok, rebase_merged in Hm as [_ Hm]. injection Hr as <-.
    assert (chained (done ++ [b])) as Hc' by (apply (chained_prefix _ rest); rewrite <- app_assoc; cbn; by rewrite <- Hl).
    assert (forall path, merged !! path = net_row (done ++ [b]) path) as Hm'.
    { intros path. rewrite Hm. by apply net_row_snoc. }
    split; cbn [rs_index rs_steps rs_files]; rewrite ?length_app, ?Hi, ?Hlen; cbn; try done; try lia.
    intros k s' Hk. apply lookup_snoc_Some in Hk as [[Hlt Hk]|[-> <-]].
    + destruct (Hs k s' Hk) as [Hd Hp]. split; [by apply lookup_app_l_Some|]. intros path. rewrite Hp.
      by rewrite take_app_le by lia.
    + cbn [hs_source hs_files]. split; [rewrite Hlen; by apply list_lookup_middle|]. intros path.
      by rewrite Hm', Hlen, take_ge by (rewrite length_app; cbn; lia).
Qed.

(** A history that starts at the target is replayed as it is. *)
Definition kept_step (b : boundary) : step := mkStep b (Existing (hb_base_snapshot_id b)) (hb_files b) (Some (hb_snapshot_id b)).

Definition starts_at_target (boundaries : list boundary) : Prop :=
  forall b, head boundaries = Some b -> hb_base_snapshot_id b = target_snapshot_id.

Lemma rebase_onto_base base feature : merged_files (rebase_snapshot_files base feature base) = Some feature.
Proof.
  apply rebase_merged. unfold diverges, rebased. split; [tauto|]. intros path. by case_bool_decide.
Qed.

Lemma replay_kept boundaries : chained boundaries -> starts_at_target boundaries ->
  exists st, foldM replay_boundary (mkReplay 0 (Existing target_snapshot_id) target_files []) boundaries = Ok st /\
    rs_steps st = map kept_step boundaries.
Proof.
  intros Hc Hstart.
  destruct (foldM_total replay_boundary (fun done st => rs_steps st = map kept_step done /\
    rs_parent st = Existing (match last done with Some b => hb_snapshot_id b | None => target_snapshot_id end) /\
    rs_files st = match last done with Some b => hb_files b | None => target_files end) boundaries
    (mkReplay 0 (Existing target_snapshot_id) target_files [])) as (st & Hf & Hs & _); [done| |by exists st].
  intros done b rest s Hl (Hs & Hp & Hf).
  assert (rs_files s = hb_base_files b /\ rs_parent s = Existing (hb_base_snapshot_id b)) as [Hf' Hp'].
  { rewrite Hf, Hp. destruct (last done) as [b0|] eqn:Hlast.
    - destruct (last_Some done b0) as [(done' & ->) _]; [done|].
      destruct (ch_next _ Hc (length done') b0 b) as [Hi Hfi].
      + rewrite Hl, <- app_assoc. by apply list_lookup_middle.
      + rewrite Hl. apply list_lookup_middle. rewrite length_app. cbn. lia.
      + by rewrite Hi, Hfi.
    - apply last_None in Hlast as ->. assert (hb_base_snapshot_id b = target_snapshot_id) as Hb by (apply Hstart; by rewrite Hl).
      rewrite Hb. split; [|done]. symmetry. apply (ch_target _ Hc); [|done]. rewrite Hl. by left. }
  unfold replay_boundary. rewrite Hf', rebase_onto_base. cbn [ok_or mbind result_bind]. rewrite Hp', !bool_decide_eq_true_2 by done.
  eexists. split; [done|]. cbn [rs_steps rs_parent rs_files andb]. rewrite last_snoc, map_app, Hs. by split.
Qed.

(** Another history gets new snapshots, each on the one before. *)
Definition fresh_parent (k : nat) : SnapshotReplayParent := match k with O => Existing target_snapshot_id | S j => Replayed j end.

Lemma replay_fresh boundaries st : ~ starts_at_target boundaries ->
  foldM replay_boundary (mkReplay 0 (Existing target_snapshot_id) target_files []) boundaries = Ok st ->
  forall k s, rs_steps st !! k = Some s -> hs_reuse_snapshot_id s = None /\ hs_parent s = fresh_parent k.
Proof.
  intros Hstart Hf.
  enough ((forall k s, rs_steps st !! k = Some s -> hs_reuse_snapshot_id s = None /\ hs_parent s = fresh_parent k) /\
    rs_parent st = fresh_parent (length boundaries) /\ rs_index st = length boundaries /\ length (rs_steps st) = length boundaries) by tauto.
  revert Hf. apply (foldM_ind _ (fun done st => (forall k s, rs_steps st !! k = Some s ->
    hs_reuse_snapshot_id s = None /\ hs_parent s = fresh_parent k) /\ rs_parent st = fresh_parent (length done) /\
    rs_index st = length done /\ length (rs_steps st) = length done)); [done|].
  intros done b rest s s' Hl (Hs & Hp & Hi & Hlen) Hr. unfold replay_boundary in Hr. skip_bind Hr.
  assert (bool_decide (rs_parent s = Existing (hb_base_snapshot_id b)) = false) as Hno.
  { apply bool_decide_eq_false. rewrite Hp. destruct done as [|b0 done]; [|done]. cbn. intros [= Hb]. apply Hstart.
    intros b' Hb'. rewrite Hl in Hb'. injection Hb' as <-. done. }
  rewrite Hno in Hr. injection Hr as <-. cbn [rs_steps rs_parent rs_index andb]. rewrite !length_app, Hi, Hlen. cbn.
  rewrite Nat.add_1_r. split_and!; [|done..].
  intros k s' Hk. apply lookup_snoc_Some in Hk as [[_ Hk]|[-> <-]]; [by apply Hs|]. by rewrite Hlen, <- Hp.
Qed.
End replay.

(** ** Theorems *)

(** C20. Three-way rebase of a tree, on every path. The conflicts are, in
    sorted order, exactly the paths where the two sides changed the base to
    different results; the written and removed paths are those that only the
    feature changed, according to whether it kept a file there; and a merged
    tree exists exactly when nothing conflicts, in which case every path holds
    the feature's row if the feature changed it and the target's row
    otherwise. *)
Theorem rebase_snapshot_files_spec base feature target :
  let plan := rebase_snapshot_files base feature target in
  StronglySorted String.le (conflict_paths plan) /\ NoDup (conflict_paths plan) /\
  (forall path, path ∈ conflict_paths plan <-> diverges base feature target path) /\
  (forall path, path ∈ write_paths plan <-> adopted base feature target path /\ is_Some (feature !! path)) /\
  (forall path, path ∈ remove_paths plan <-> adopted base feature target path /\ feature !! path = None) /\
  (forall merged, merged_files plan = Some merged <->
     (forall path, ~ diverges base feature target path) /\ forall path, merged !! path = rebased base feature target path).
Proof.
  intros plan. unfold plan. split_and!.
  - rewrite rebase_conflicts. apply StronglySorted_filter, sorted_elements_sorted.
  - rewrite rebase_conflicts. apply NoDup_filter, NoDup_sorted_elements.
  - apply elem_of_conflicts.
  - apply elem_of_written.
  - apply elem_of_removed.
  - apply rebase_merged.
Qed.

(** The rebase is symmetric: rebasing the feature on the target and the
    target on the feature gives the same merged tree, or the same conflicts. *)
Theorem rebase_snapshot_files_symmetric base feature target :
  merged_files (rebase_snapshot_files base feature target) = merged_files (rebase_snapshot_files base target feature) /\
  conflict_paths (rebase_snapshot_files base feature target) = conflict_paths (rebase_snapshot_files base target feature).
Proof.
  assert (forall path, diverges base feature target path <-> diverges base target feature path) as Hd
    by (intros path; unfold diverges; intuition congruence).
  split.
  - apply option_eq. intros merged. rewrite !rebase_merged. setoid_rewrite Hd.
    split; intros [Hno Hm]; (split; [done|]); intros path; rewrite Hm; specialize (Hno path); unfold diverges, rebased in *;
      repeat case_bool_decide; try congruence; destruct (decide (feature !! path = target !! path)); intuition congruence.
  - rewrite !rebase_conflicts. replace (dom base ∪ dom feature ∪ dom target) with (dom base ∪ dom target ∪ dom feature) by set_solver.
    apply list_filter_ext_in. intros path _. apply Hd.
Qed.

Section plan.
Context {M : Type}.

(** C21. Net effect of a replayed history. When the plan exists, it has one step
    per boundary, in order, and the tree after step [k] is determined path by
    path: a path that none of the boundaries up to [k] changes holds the
    target's row, and any other path holds the row of boundary [k]. *)
Theorem history_rebase_net_effect target_snapshot_id target_files (boundaries : list (SnapshotHistoryBoundary M)) steps :
  plan_snapshot_history_rebase target_snapshot_id target_files boundaries = Ok steps ->
  map hs_source steps = boundaries /\
  forall k s, steps !! k = Some s -> forall path,
    hs_files s !! path = if decide (Forall (untouched path) (take (S k) boundaries)) then target_files !! path
                         else hb_files (hs_source s) !! path.
Proof.
  intros H. unfold plan_snapshot_history_rebase in H. apply bind_Ok in H as ([] & Hv & H). apply bind_Ok in H as (st & Hf & H).
  injection H as <-. apply validate_history_chained in Hv. destruct (replay_inv_fold _ _ _ _ Hv Hf) as [_ Hlen _ Hs]. split.
  - apply list_eq_same_length with (length boundaries); [done|by rewrite length_map|]. intros k b b' Hk Hb Hb'.
    change (map hs_source (rs_steps st)) with (hs_source <$> rs_steps st) in Hb. apply list_lookup_fmap_Some in Hb as (s & -> & Hb).
    destruct (Hs k s Hb) as [Hd _]. congruence.
  - intros k s Hk path. destruct (Hs k s Hk) as [Hd Hp]. rewrite Hp. unfold net_row. destruct (decide _); [done|].
    by rewrite (take_S_r _ _ _ Hd), last_snoc.
Qed.

(** Snapshots are reused all together or not at all. A valid history that
    starts at the target is always planned, without conflict, by reusing every
    snapshot with its own parent and files; any other plan reuses none, its
    first step is authored on the target and each later one on the step before
    it. *)
Theorem history_rebase_reuse target_snapshot_id target_files (boundaries : list (SnapshotHistoryBoundary M)) :
  validate_history target_snapshot_id target_files boundaries = Ok tt ->
  ((forall b, head boundaries = Some b -> hb_base_snapshot_id b = target_snapshot_id) ->
     plan_snapshot_history_rebase target_snapshot_id target_files boundaries = Ok (map kept_step boundaries)) /\
  (~ (forall b, head boundaries = Some b -> hb_base_snapshot_id b = target_snapshot_id) -> forall steps,
     plan_snapshot_history_rebase target_snapshot_id target_files boundaries = Ok steps ->
     forall k s, steps !! k = Some s -> hs_reuse_snapshot_id s = None /\
       hs_parent s = match k with O => Existing target_snapshot_id | S j => Replayed j end).
Proof.
  intros Hv. unfold plan_snapshot_history_rebase. rewrite Hv. apply validate_history_chained in Hv. cbn [mbind result_bind]. split.
  - intros Hstart. destruct (replay_kept _ _ _ Hv Hstart) as (st & -> & Hs). cbn. by rewrite Hs.
  - intros Hstart steps H. apply bind_Ok in H as (st & Hf & [= <-]). by apply (replay_fresh _ target_files _ _ Hstart).
Qed.

(** A failed replay names its cause. Either the input is rejected by the
    validation, before any tree is merged; or there is a first boundary that
    conflicts: the ones before it replay to the tree that the net effect
    describes, the error carries the task and the snapshot of that boundary,
    and its paths, of which there is at least one, are exactly those where the
    boundary's change and that tree diverge. *)
Theorem history_rebase_error target_snapshot_id target_files (boundaries : list (SnapshotHistoryBoundary M)) e :
  plan_snapshot_history_rebase target_snapshot_id target_files boundaries = Err e ->
  match e with
  | InvalidHistory _ => validate_history target_snapshot_id target_files boundaries = Err e
  | Conflict task_id snapshot_id paths =>
      validate_history target_snapshot_id target_files boundaries = Ok tt /\
      exists done b rest tree, boundaries = done ++ b :: rest /\ (forall path, tree !! path = net_row target_files done path) /\
        task_id = wb_task_id (hb_owner b) /\ snapshot_id = hb_snapshot_id b /\ paths <> [] /\
        forall path, path ∈ paths <-> diverges (hb_base_files b) (hb_files b) tree path
  end.
Proof.
  unfold plan_snapshot_history_rebase. intros H. apply bind_Err in H as [Hv|([] & Hv & H)].
  - destruct e; [done|]. by apply validate_history_invalid in Hv.
  - apply bind_Err in H as [H|(st & _ & H)]; [|done]. apply foldM_Err in H as (done & b & rest & st & -> & Hd & Hb).
    unfold replay_boundary in Hb. apply bind_Err in Hb as [Hb|(? & _ & Hb)]; [|done].
    destruct (merged_files _) eqn:Hm in Hb; [done|]. injection Hb as <-. split; [done|].
    exists done, b, rest, (rs_files st). split_and!; try done.
    + apply validate_history_chained, chained_prefix in Hv. by destruct (replay_inv_fold _ _ _ _ Hv Hd).
    + intros Hnil. assert (is_Some (merged_files (rebase_snapshot_files (hb_base_files b) (hb_files b) (rs_files st)))) as [m Hm'].
      { by apply rebase_no_conflicts. }
      congruence.
    + apply elem_of_conflicts.
Qed.
End plan.

(** ** Examples *)

Definition example_row (path content : string) : SnapshotFileRow := mkRow path content (Z.of_nat (String.length content)) "100644" content.
Definition example_tree (entries : list (string * string)) : SnapshotFileMap :=
  list_to_map (map (fun e => (fst e, example_row (fst e) (snd e))) entries).
Definition example_boundary (base id task : string) (before after : list (string * string)) : SnapshotHistoryBoundary unit :=
  mkBoundary base id (mkBinding task "" "feature") (example_tree before) (example_tree after) ().

(** Two tasks: the first adds a file, the second edits it. *)
Definition example_history : list (SnapshotHistoryBoundary unit) :=
  [example_boundary "base" "s1" "t1" [("a", "0")] [("a", "0"); ("b", "1")];
   example_boundary "s1" "s2" "t2" [("a", "0"); ("b", "1")] [("a", "0"); ("b", "2")]].

Lemma history_rebase_net_effect_witness : exists steps,
  plan_snapshot_history_rebase "remote" (example_tree [("a", "9")]) example_history = Ok steps /\
  map hs_source steps = example_history /\ map hs_reuse_snapshot_id steps = [None; None].
Proof.
  eexists. split; [vm_compute; reflexivity|]. split; [|reflexivity].
  refine (proj1 (history_rebase_net_effect "remote" (example_tree [("a", "9")]) example_history _ _)). vm_compute. reflexivity.
Defined.

Lemma history_rebase_reuse_witness :
  plan_snapshot_history_rebase "base" (example_tree [("a", "0")]) example_history = Ok (map kept_step example_history).
Proof.
  refine (proj1 (history_rebase_reuse "base" (example_tree [("a", "0")]) example_history _) _); [vm_compute; reflexivity|].
  intros b [= <-]. reflexivity.
Defined.

Lemma history_rebase_error_witness :
  validate_history "remote" (example_tree [("b", "9")]) example_history = Ok tt /\
  exists done b rest tree, example_history = done ++ b :: rest /\
    (forall path, tree !! path = net_row (example_tree [("b", "9")]) done path) /\
    "t1"%string = wb_task_id (hb_owner b) /\ "s1"%string = hb_snapshot_id b /\ ["b"%string] <> [] /\
    forall path, path ∈ ["b"%string] <-> diverges (hb_base_files b) (hb_files b) tree path.
Proof.
  refine (history_rebase_error "remote" (example_tree [("b", "9")]) example_history (Conflict "t1" "s1" ["b"%string]) _).
  vm_compute. reflexivity.
Defined.
