(* ===== verification/SnapshotMerge.v ===== *)
(** * Three-way merge of texts

    [ait-core/src/snapshot_merge.rs]: two versions of a text are merged line by
    line over their common base. The line differ is the [similar] crate's and a
    parameter; what its documentation promises is the hypothesis [diff_ok]. *)

From Stdlib Require Import NArith Lia.
From Stdlib Require Strings.Byte.
From stdpp Require Import base numbers sorting fin_sets strings list.
From S2P Require Import Prelude.

(** [similar::DiffOp]. *)
Inductive DiffOp : Type :=
| DiffEqual (old_index new_index len : nat)
| DiffInsert (old_index new_index new_len : nat)
| DiffDelete (old_index old_len new_index : nat)
| DiffReplace (old_index old_len new_index new_len : nat).

(** [similar::capture_diff_slices(Algorithm::Myers, old, new)]. *)
Class LineDiff : Type := capture_diff_slices : list string -> list string -> list DiffOp.

Inductive TextMergeOutcome : Type := Merged (text : bytes) | MergeConflict | NonText.

(** What would stop the process. *)
Inductive merge_panic : Type := PanicSliceRange | PanicSpliceRange.

Record TextEdit : Type := mkEdit { ed_start : nat; ed_end : nat; ed_replacement : list string }.
#[export] Instance TextEdit_eq_dec : EqDecision TextEdit.
Proof. solve_decision. Defined.

(** [text.split_inclusive('\n')]; [line] is what was read of the current line. *)
Fixpoint split_inclusive (line : bytes) (text : bytes) : list bytes :=
  match text with
  | [] => match line with [] => [] | _ => [line] end
  | b :: text =>
      if bool_decide (b = Byte.x0a) then (line ++ [b]) :: split_inclusive [] text
      else split_inclusive (line ++ [b]) text
  end.

Definition split_preserving_lines (text : bytes) : list string := map string_of_bytes (split_inclusive [] text).

(** [merged.concat().into_bytes()] *)
Definition concat_lines (lines : list string) : bytes := concat (map bytes_of_string lines).

(** The [flat_map]: replacements of equal length are split into lines. *)
Definition split_replacement (operation : DiffOp) : list DiffOp :=
  match operation with
  | DiffReplace old_index old_len new_index new_len =>
      if Nat.eqb old_len new_len
      then map (fun offset => DiffReplace (old_index + offset) 1 (new_index + offset) 1) (seq 0 old_len)
      else [operation]
  | operation => [operation]
  end.

(** [side[new_index..new_index + new_len].to_vec()] *)
Definition side_slice (side : list string) (new_index new_len : nat) : result merge_panic (list string) :=
  _ ← fail_if (Nat.ltb (length side) (new_index + new_len)) PanicSliceRange;
  Ok (take new_len (drop new_index side)).

(** The [filter_map]. *)
Definition edit_of (side : list string) (operation : DiffOp) : result merge_panic (option TextEdit) :=
  match operation with
  | DiffEqual _ _ _ => Ok None
  | DiffInsert old_index new_index new_len =>
      replacement ← side_slice side new_index new_len;
      Ok (Some (mkEdit old_index old_index replacement))
  | DiffDelete old_index old_len _ => Ok (Some (mkEdit old_index (old_index + old_len) []))
  | DiffReplace old_index old_len new_index new_len =>
      replacement ← side_slice side new_index new_len;
      Ok (Some (mkEdit old_index (old_index + old_len) replacement))
  end.

Definition edits_of_operations (side : list string) (operations : list DiffOp) : result merge_panic (list TextEdit) :=
  edits ← mapM_result (edit_of side) (flat_map split_replacement operations);
  Ok (omap (fun e => e) (edits : list (option TextEdit))).

Definition edits_overlap (left right : TextEdit) : bool :=
  let left_insert := Nat.eqb (ed_start left) (ed_end left) in
  let right_insert := Nat.eqb (ed_start right) (ed_end right) in
  match left_insert, right_insert with
  | true, true => Nat.eqb (ed_start left) (ed_start right)
  | true, false => Nat.leb (ed_start right) (ed_start left) && Nat.ltb (ed_start left) (ed_end right)
  | false, true => Nat.leb (ed_start left) (ed_start right) && Nat.ltb (ed_start right) (ed_end left)
  | false, false => Nat.ltb (ed_start left) (ed_end right) && Nat.ltb (ed_start right) (ed_end left)
  end.

(** The loop over [target_edits] for one source edit: [None] on conflict, and
    otherwise whether the edit is a duplicate. *)
Fixpoint find_duplicate (source_edit : TextEdit) (target_edits : list TextEdit) : option bool :=
  match target_edits with
  | [] => Some false
  | target_edit :: rest =>
      if bool_decide (target_edit = source_edit) then Some true
      else if edits_overlap target_edit source_edit then None
      else find_duplicate source_edit rest
  end.

(** The loop over [source_edits], which extends [target_edits]. *)
Fixpoint combine_edits (target_edits source_edits : list TextEdit) : option (list TextEdit) :=
  match source_edits with
  | [] => Some target_edits
  | source_edit :: rest =>
      match find_duplicate source_edit target_edits with
      | None => None
      | Some true => combine_edits target_edits rest
      | Some false => combine_edits (target_edits ++ [source_edit]) rest
      end
  end.

(** [Vec<String>::cmp] *)
Fixpoint lines_le (a b : list string) : bool :=
  match a, b with
  | [], _ => true
  | _ :: _, [] => false
  | x :: a, y :: b => if bool_decide (x = y) then lines_le a b else bool_decide (String.le x y)
  end.

(** The comparison of [sort_by]: largest position first. *)
Definition edit_le (left right : TextEdit) : Prop :=
  ed_start right < ed_start left \/
  ed_start right = ed_start left /\ (ed_end right < ed_end left \/
    ed_end right = ed_end left /\ lines_le (ed_replacement right) (ed_replacement left) = true).
#[export] Instance edit_le_dec : RelDecision edit_le.
Proof. intros a b. unfold edit_le. apply _. Defined.

(** [merged.splice(edit.start..edit.end, edit.replacement)] *)
Definition splice (merged : list string) (edit : TextEdit) : result merge_panic (list string) :=
  _ ← fail_if (Nat.ltb (ed_end edit) (ed_start edit) || Nat.ltb (length merged) (ed_end edit)) PanicSpliceRange;
  Ok (take (ed_start edit) merged ++ ed_replacement edit ++ drop (ed_end edit) merged).

Section merge.
Context `{LineDiff}.

Definition diff_edits (base side : list string) : result merge_panic (list TextEdit) :=
  edits_of_operations side (capture_diff_slices base side).

Definition has_nul (text : bytes) : bool := existsb (fun b => bool_decide (b = Byte.x00)) text.

Definition merge_utf8_text_bytes (base target source : bytes) : result merge_panic TextMergeOutcome :=
  if has_nul base || has_nul target || has_nul source then Ok NonText
  else if negb (valid_utf8 base && valid_utf8 target && valid_utf8 source) then Ok NonText
  else if bool_decide (target = source) then Ok (Merged target)
  else if bool_decide (target = base) then Ok (Merged source)
  else if bool_decide (source = base) then Ok (Merged target)
  else
    let base_lines := split_preserving_lines base in
    target_edits ← diff_edits base_lines (split_preserving_lines target);
    source_edits ← diff_edits base_lines (split_preserving_lines source);
    match combine_edits target_edits source_edits with
    | None => Ok MergeConflict
    | Some edits =>
        merged ← foldM splice base_lines (merge_sort edit_le edits);
        Ok (Merged (concat_lines merged))
    end.
End merge.

(** ** Specification *)

(** What the documentation of the differ promises: the operations cover both
    sequences from left to right, equal runs are equal, and between two equal
    runs there is at most one change. *)
Fixpoint diff_from (old new : list string) (i j : nat) (after_change : bool) (operations : list DiffOp) : Prop :=
  match operations with
  | [] => i = length old /\ j = length new
  | operation :: rest =>
      match operation with
      | DiffEqual oi ni len =>
          oi = i /\ ni = j /\ 0 < len /\ i + len <= length old /\ j + len <= length new /\
          take len (drop i old) = take len (drop j new) /\ diff_from old new (i + len) (j + len) false rest
      | DiffInsert oi ni nl =>
          after_change = false /\ oi = i /\ ni = j /\ 0 < nl /\ j + nl <= length new /\ diff_from old new i (j + nl) true rest
      | DiffDelete oi ol ni =>
          after_change = false /\ oi = i /\ ni = j /\ 0 < ol /\ i + ol <= length old /\ diff_from old new (i + ol) j true rest
      | DiffReplace oi ol ni nl =>
          after_change = false /\ oi = i /\ ni = j /\ 0 < ol /\ 0 < nl /\ i + ol <= length old /\ j + nl <= length new /\
          diff_from old new (i + ol) (j + nl) true rest
      end
  end.
Definition diff_ok (old new : list string) (operations : list DiffOp) : Prop := diff_from old new 0 0 false operations.

(** Applying separated edits in one pass from left to right: the reference for
    the splices from right to left. *)
Fixpoint patch (lines : list string) (at_ : nat) (edits : list TextEdit) : list string :=
  match edits with
  | [] => drop at_ lines
  | e :: edits => take (ed_start e - at_) (drop at_ lines) ++ ed_replacement e ++ patch lines (ed_end e) edits
  end.

(** ** Lemmas on the order of edits *)

Definition wf_edit (n : nat) (e : TextEdit) : Prop := ed_start e <= ed_end e <= n.

(** [a] lies strictly before [b]. *)
Definition before (a b : TextEdit) : Prop := ed_end a <= ed_start b /\ ed_start a < ed_start b.

Lemma edits_overlap_false n a b : wf_edit n a -> wf_edit n b -> edits_overlap a b = false <-> before a b \/ before b a.
Proof.
  unfold wf_edit, before, edits_overlap. intros Ha Hb.
  destruct (Nat.eqb_spec (ed_start a) (ed_end a)), (Nat.eqb_spec (ed_start b) (ed_end b));
    rewrite ?andb_false_iff, ?Nat.eqb_neq, ?Nat.leb_gt, ?Nat.ltb_ge; lia.
Qed.

Lemma edits_overlap_sym n a b : wf_edit n a -> wf_edit n b -> edits_overlap a b = edits_overlap b a.
Proof.
  intros Ha Hb. apply eq_true_iff_eq. rewrite <- !not_false_iff_true.
  rewrite (edits_overlap_false n a b), (edits_overlap_false n b a) by done. tauto.
Qed.

#[export] Instance before_antisymm : AntiSymm (=) before.
Proof. intros a b [_ H1] [_ H2]. lia. Qed.

Lemma lines_le_total a b : lines_le a b = true \/ lines_le b a = true.
Proof.
  revert b; induction a as [|x a IH]; intros [|y b]; cbn; auto.
  destruct (bool_decide_reflect (x = y)) as [->|Hne]; [rewrite bool_decide_eq_true_2 by done; apply IH|].
  rewrite (bool_decide_eq_false_2 (y = x)) by congruence. rewrite !bool_decide_eq_true. apply (total String.le).
Qed.

Lemma lines_le_trans a b c : lines_le a b = true -> lines_le b c = true -> lines_le a c = true.
Proof.
  revert b c; induction a as [|x a IH]; intros [|y b] [|z c]; cbn; try done.
  destruct (bool_decide_reflect (x = y)) as [->|Hxy], (bool_decide_reflect (y = z)) as [->|Hyz]; try done.
  - apply IH.
  - rewrite (bool_decide_eq_false_2 (x = z)) by done. done.
  - rewrite !bool_decide_eq_true. intros H1 H2. rewrite bool_decide_eq_false_2; [apply bool_decide_eq_true; by etrans|].
    intros ->. apply Hxy. by apply (anti_symm String.le).
Qed.

#[export] Instance edit_le_total : Total edit_le.
Proof.
  intros a b. unfold edit_le. destruct (Nat.lt_trichotomy (ed_start a) (ed_start b)) as [|[|]]; [tauto| |tauto].
  destruct (Nat.lt_trichotomy (ed_end a) (ed_end b)) as [|[|]]; [intuition lia| |intuition lia].
  destruct (lines_le_total (ed_replacement a) (ed_replacement b)); intuition lia.
Qed.
#[export] Instance edit_le_trans : Transitive edit_le.
Proof.
  intros a b c Hab Hbc. unfold edit_le in *.
  destruct Hab as [|(? & [|(? & H1)])], Hbc as [|(? & [|(? & H2)])]; try lia.
  right. split; [lia|]. right. split; [lia|]. by eapply lines_le_trans.
Qed.

(** ** Combining the edits of both sides *)

Lemma find_duplicate_spec s l : match find_duplicate s l with
  | Some true => s ∈ l
  | Some false => (s ∉ l) /\ forall t, t ∈ l -> edits_overlap t s = false
  | None => exists t, t ∈ l /\ t <> s /\ edits_overlap t s = true
  end.
Proof.
  induction l as [|t l IH]; cbn; [split; [apply not_elem_of_nil|intros t Ht; by apply elem_of_nil in Ht]|].
  case_bool_decide as Ht; [subst; by left|]. destruct (edits_overlap t s) eqn:Ho; [exists t; split; [by left|done]|].
  destruct (find_duplicate s l) as [[]|].
  - by right.
  - destruct IH as [Hs Hl]. split; [by apply not_elem_of_cons|]. intros t' [->|Ht']%elem_of_cons; auto.
  - destruct IH as (t' & Hin & Hne). exists t'. split; [by right|done].
Qed.

(** No two different edits overlap. *)
Definition disjoint_edits (l : list TextEdit) : Prop := forall a b, a ∈ l -> b ∈ l -> a = b \/ edits_overlap a b = false.

Lemma sorted_disjoint n l : Forall (wf_edit n) l -> StronglySorted before l -> disjoint_edits l /\ NoDup l.
Proof.
  intros Hwf Hs. induction Hs as [|e l Hs IH He].
  { split; [intros a b Ha; by apply elem_of_nil in Ha|constructor]. }
  apply Forall_cons in Hwf as [Hwe Hwf]. destruct (IH Hwf) as [Hd Hnd]. rewrite Forall_forall in He, Hwf. split.
  - intros a b [->|Ha]%elem_of_cons [->|Hb]%elem_of_cons; [by left| | |by apply Hd]; right;
      apply (edits_overlap_false n); auto.
  - constructor; [|done]. intros Hin. destruct (He e Hin). lia.
Qed.

Lemma combine_edits_spec n target_edits source_edits :
  Forall (wf_edit n) target_edits -> Forall (wf_edit n) source_edits -> NoDup target_edits ->
  disjoint_edits target_edits -> disjoint_edits source_edits ->
  match combine_edits target_edits source_edits with
  | Some edits => NoDup edits /\ disjoint_edits edits /\ forall e, e ∈ edits <-> e ∈ target_edits \/ e ∈ source_edits
  | None => exists t s, t ∈ target_edits /\ s ∈ source_edits /\ t <> s /\ edits_overlap t s = true
  end.
Proof.
  intros HT HS. revert target_edits HT; induction source_edits as [|s rest IH]; intros T HT Hnd Hd Hds; cbn.
  { split_and!; [done..|]. intros e. rewrite elem_of_nil. tauto. }
  apply Forall_cons in HS as [Hs HS]. pose proof (find_duplicate_spec s T) as Hf.
  assert (disjoint_edits rest) as Hdr by (intros a b Ha Hb; apply Hds; by right).
  destruct (find_duplicate s T) as [[]|]; [| |by destruct Hf as (t & ? & ? & ?); exists t, s; split_and!; [|left| |]].
  - specialize (IH HS T HT Hnd Hd Hdr). destruct (combine_edits T rest) as [edits|].
    + destruct IH as (H1 & H2 & H3). split_and!; [done..|]. intros e. rewrite H3, elem_of_cons. naive_solver.
    + destruct IH as (t & s' & H1 & H2 & H3). exists t, s'. split; [done|]. split; [by right|done].
  - destruct Hf as [Hs' Hf]. rewrite Forall_forall in HT.
    assert (disjoint_edits (T ++ [s])) as Hd'.
    { intros a b Ha%elem_of_snoc Hb%elem_of_snoc. destruct Ha as [Ha| ->], Hb as [Hb| ->]; [by apply Hd| | |by left]; right; [by apply Hf|].
      rewrite (edits_overlap_sym n) by auto. by apply Hf. }
    specialize (IH HS (T ++ [s])). destruct (combine_edits (T ++ [s]) rest) as [edits|].
    + destruct IH as (H1 & H2 & H3); [..|done|done|].
      * apply Forall_app. by rewrite Forall_forall, Forall_singleton.
      * apply NoDup_app. split_and!; [done|by intros x Hx ->%list_elem_of_singleton|apply NoDup_singleton].
      * split_and!; [done..|]. intros e. rewrite H3, elem_of_snoc, elem_of_cons. tauto.
    + destruct IH as (t & s' & Ht & Hin & Hne & Ho); [..|done|done|].
      * apply Forall_app. by rewrite Forall_forall, Forall_singleton.
      * apply NoDup_app. split_and!; [done|by intros x Hx ->%list_elem_of_singleton|apply NoDup_singleton].
      * exists t, s'. apply elem_of_snoc in Ht as [Ht| ->]; [by split_and!; [|right| |]|].
        destruct (Hds s s'); [by left|by right|done|congruence].
Qed.

(** ** Splicing *)

Lemma sorted_edits_before n edits : Forall (wf_edit n) edits -> NoDup edits -> disjoint_edits edits ->
  StronglySorted before (reverse (merge_sort edit_le edits)).
Proof.
  intros Hwf Hnd Hd. pose proof (StronglySorted_merge_sort edit_le edits) as Hs.
  assert (forall e, e ∈ merge_sort edit_le edits -> e ∈ edits) as Hin by (intros e; by rewrite merge_sort_Permutation).
  assert (NoDup (merge_sort edit_le edits)) as Hnd' by by rewrite merge_sort_Permutation.
  revert Hs Hnd' Hin. generalize (merge_sort edit_le edits). intros l. rewrite Forall_forall in Hwf.
  induction 1 as [|e l Hs IH He]; intros Hnd' Hin; [constructor|]. rewrite reverse_cons. apply NoDup_cons in Hnd' as [Hne Hnd'].
  apply StronglySorted_app. split_and!; [|apply IH; [done|intros; apply Hin; by right]|repeat constructor].
  intros a e' Ha ->%list_elem_of_singleton. rewrite elem_of_reverse in Ha.
  rewrite Forall_forall in He. destruct (Hd a e) as [->|Ho]; [apply Hin; by right|apply Hin; by left|done|].
  apply (edits_overlap_false n) in Ho as [|[_ Hlt]]; [done| |apply Hwf, Hin; by right|apply Hwf, Hin; by left].
  specialize (He a Ha). unfold edit_le in He. lia.
Qed.

Lemma patch_skip lines k i edits :
  i <= k -> k <= length lines -> Forall (fun e => k <= ed_start e) edits ->
  patch lines i edits = take (k - i) (drop i lines) ++ patch lines k edits.
Proof.
  intros Hi Hk He. destruct edits as [|e edits]; cbn [patch].
  - rewrite <- (take_drop (k - i) (drop i lines)) at 1. by rewrite drop_drop, Nat.add_comm, Nat.sub_add by lia.
  - apply Forall_cons in He as [He _]. rewrite (app_assoc (take (k - i) _)). f_equal. replace (drop k lines) with (drop (k - i) (drop i lines)).
    2:{ rewrite drop_drop. f_equal. lia. }
    rewrite take_take_drop. f_equal. lia.
Qed.

Lemma splice_all lines edits k :
  StronglySorted before edits -> Forall (wf_edit (length lines)) edits -> Forall (fun e => k <= ed_start e) edits -> k <= length lines ->
  foldM splice lines (reverse edits) = Ok (take k lines ++ patch lines k edits).
Proof.
  intros Hs. revert k; induction Hs as [|e edits Hs IH He]; intros k Hwf Hk Hlen.
  { cbn. by rewrite take_drop. }
  apply Forall_cons in Hwf as [[Hse Hel] Hwf]. apply Forall_cons in Hk as [Hke _].
  rewrite reverse_cons, foldM_app, (IH (ed_end e)); [|done| |done].
  2:{ rewrite Forall_forall in *. intros e' He'. by destruct (He e' He'). }
  cbn [mbind result_bind foldM]. unfold splice.
  rewrite (proj2 (Nat.ltb_ge _ _)) by done. rewrite (proj2 (Nat.ltb_ge _ _)) by (rewrite length_app, length_take; lia).
  cbn [orb fail_if mbind result_bind]. f_equal.
  rewrite drop_app_length' by (rewrite length_take; lia). rewrite take_app_le, take_take, Nat.min_l by (rewrite ?length_take; lia).
  cbn [patch]. rewrite (app_assoc (take k _)), take_take_drop. do 2 f_equal. lia.
Qed.

(** ** The edits of a diff *)

Lemma mapM_result_app {E A B} (f : A -> result E B) l1 l2 r1 r2 :
  mapM_result f l1 = Ok r1 -> mapM_result f l2 = Ok r2 -> mapM_result f (l1 ++ l2) = Ok (r1 ++ r2).
Proof.
  revert r1; induction l1 as [|x l1 IH]; intros r1 H1 H2; cbn in *; [by injection H1 as <-|].
  apply bind_Ok in H1 as (y & Hy & H1). apply bind_Ok in H1 as (ys & Hys & [= <-]). rewrite Hy. cbn.
  by rewrite (IH ys).
Qed.

Lemma edits_of_operations_cons side operation operations l edits :
  mapM_result (edit_of side) (split_replacement operation) = Ok l -> edits_of_operations side operations = Ok edits ->
  edits_of_operations side (operation :: operations) = Ok (omap (fun e => e) l ++ edits).
Proof.
  unfold edits_of_operations. intros Hl He. apply bind_Ok in He as (r & Hr & [= <-]). cbn [flat_map].
  rewrite (mapM_result_app _ _ _ _ _ Hl Hr). cbn. by rewrite omap_app.
Qed.

Lemma side_slice_Ok side j n : j + n <= length side -> side_slice side j n = Ok (take n (drop j side)).
Proof. intros H. unfold side_slice. by rewrite (proj2 (Nat.ltb_ge _ _)). Qed.

Section lines.
Context (old new : list string).

Definition line_edit (i j offset : nat) : TextEdit := mkEdit (i + offset) (i + offset + 1) (take 1 (drop (j + offset) new)).

Lemma line_edits_Ok i j k m : j + k + m <= length new ->
  mapM_result (edit_of new) (map (fun offset => DiffReplace (i + offset) 1 (j + offset) 1) (seq k m)) =
    Ok (map Some (map (line_edit i j) (seq k m))).
Proof.
  revert k; induction m as [|m IH]; intros k H; [done|]. cbn. rewrite side_slice_Ok by lia. cbn. by rewrite IH by lia.
Qed.

Lemma line_edits_patch i j k m edits : i + k + m <= length old -> j + k + m <= length new ->
  patch old (i + k) (map (line_edit i j) (seq k m) ++ edits) = take m (drop (j + k) new) ++ patch old (i + k + m) edits.
Proof.
  revert k; induction m as [|m IH]; intros k Ho Hn; cbn [seq map app]; [by rewrite Nat.add_0_r|].
  cbn [patch line_edit ed_start ed_end ed_replacement]. rewrite Nat.sub_diag, take_0, app_nil_l.
  replace (i + k + 1) with (i + S k) by lia. rewrite IH by lia. replace (i + S k + m) with (i + k + S m) by lia.
  rewrite (app_assoc (take 1 _)). f_equal.
  replace (j + S k) with (j + k + 1) by lia. rewrite <- (drop_drop _ 1 (j + k)), take_take_drop. done.
Qed.

Lemma line_edits_sorted i j k m :
  StronglySorted before (map (line_edit i j) (seq k m)) /\
  forall e, e ∈ map (line_edit i j) (seq k m) -> i + k <= ed_start e /\ ed_end e = ed_start e + 1 /\ ed_end e <= i + k + m.
Proof.
  revert k; induction m as [|m IH]; intros k; cbn [seq map]; [split; [constructor|intros e He; by apply elem_of_nil in He]|].
  destruct (IH (S k)) as [Hs He]. split.
  - constructor; [done|]. apply Forall_forall. intros e (H1 & H2 & H3)%He. unfold before. cbn. lia.
  - intros e [->|(H1 & H2 & H3)%He]%elem_of_cons; cbn; lia.
Qed.

Lemma omap_some {A} (l : list A) : omap (fun e => e) (map Some l) = l.
Proof. induction l as [|x l IH]; [done|]. cbn. by rewrite IH. Qed.

Record diff_edits_ok (i j : nat) (strict : bool) (edits : list TextEdit) : Prop := {
  de_wf : Forall (wf_edit (length old)) edits;
  de_start : Forall (fun e => i + (if strict then 1 else 0) <= ed_start e) edits;
  de_sorted : StronglySorted before edits;
  de_patch : patch old i edits = drop j new
}.

(** Putting the edits of one change, which spans [i] to [i'], before others. *)
Lemma diff_edits_ok_app i i' j j' first edits :
  i <= i' -> i' <= length old ->
  StronglySorted before first -> (forall e, e ∈ first -> i <= ed_start e /\ ed_start e <= ed_end e /\ ed_end e <= i') ->
  patch old i (first ++ edits) = drop j new -> diff_edits_ok i' j' true edits -> diff_edits_ok i j false (first ++ edits).
Proof.
  intros Hi Hi' Hs Hf Hp [Hwf Hst Hso _]. split; [| | |done].
  - apply Forall_app. split; [|done]. apply Forall_forall. intros e He. destruct (Hf e He). unfold wf_edit. lia.
  - apply Forall_app. split; [apply Forall_forall; intros e He; destruct (Hf e He); lia|].
    eapply Forall_impl; [exact Hst|]. cbn. intros. lia.
  - apply StronglySorted_app. split_and!; [|done..]. intros a b Ha Hb. rewrite Forall_forall in Hst. specialize (Hst b Hb).
    destruct (Hf a Ha). unfold before. lia.
Qed.

Lemma edits_of_diff i j strict operations : i <= length old -> diff_from old new i j strict operations ->
  exists edits, edits_of_operations new operations = Ok edits /\ diff_edits_ok i j strict edits.
Proof.
  revert i j strict; induction operations as [|operation operations IH]; intros i j strict Hlen Hd.
  { exists []. split; [done|]. destruct Hd as [-> ->]. split; [constructor..|]. cbn. by rewrite !drop_all. }
  destruct operation as [oi ni len|oi ni nl|oi ol ni|oi ol ni nl].
  - destruct Hd as (-> & -> & Hl & Ho & Hn & Heq & Hd). destruct (IH _ _ _ Ho Hd) as (edits & He & [Hwf Hst Hs Hp]).
    exists edits. split; [by apply (edits_of_operations_cons _ _ _ [None])|]. split; [done| |done|].
    + eapply Forall_impl; [exact Hst|]. cbn. intros e. destruct strict; lia.
    + rewrite (patch_skip old (i + len)) by first [lia | eapply Forall_impl; [exact Hst|]; cbn; lia].
      replace (i + len - i) with len by lia. rewrite Heq, Hp, <- drop_drop. apply take_drop.
  - destruct Hd as (-> & -> & -> & Hl & Hn & Hd). destruct (IH _ _ _ Hlen Hd) as (edits & He & Hok).
    exists ([mkEdit i i (take nl (drop j new))] ++ edits). split.
    + apply (edits_of_operations_cons _ _ _ [Some _]); [|done]. cbn. by rewrite side_slice_Ok.
    + apply (diff_edits_ok_app i i j (j + nl)); try done; [repeat constructor|by intros e ->%list_elem_of_singleton|].
      cbn. rewrite Nat.sub_diag. cbn. rewrite (de_patch _ _ _ _ Hok), <- drop_drop. apply take_drop.
  - destruct Hd as (-> & -> & -> & Hl & Ho & Hd). destruct (IH _ _ _ Ho Hd) as (edits & He & Hok).
    exists ([mkEdit i (i + ol) []] ++ edits). split; [by apply (edits_of_operations_cons _ _ _ [Some _])|].
    apply (diff_edits_ok_app i (i + ol) j j); try done; [lia..|repeat constructor|intros e ->%list_elem_of_singleton; cbn; lia|].
    cbn. rewrite Nat.sub_diag. cbn. apply (de_patch _ _ _ _ Hok).
  - destruct Hd as (-> & -> & -> & Hol & Hnl & Ho & Hn & Hd). destruct (IH _ _ _ Ho Hd) as (edits & He & Hok).
    destruct (Nat.eqb_spec ol nl) as [<-|Hne].
    + exists (map (line_edit i j) (seq 0 ol) ++ edits). split.
      * rewrite <- (omap_some (map (line_edit i j) (seq 0 ol))). apply edits_of_operations_cons; [|done]. cbn.
        rewrite Nat.eqb_refl. apply line_edits_Ok. lia.
      * destruct (line_edits_sorted i j 0 ol) as [Hs Hin].
        apply (diff_edits_ok_app i (i + ol) j (j + ol)); try done; [lia..| |].
        -- intros e (H1 & H2 & H3)%Hin. lia.
        -- pose proof (line_edits_patch i j 0 ol edits) as Hp. rewrite !Nat.add_0_r in Hp. rewrite Hp by lia.
           rewrite (de_patch _ _ _ _ Hok), <- drop_drop. apply take_drop.
    + exists ([mkEdit i (i + ol) (take nl (drop j new))] ++ edits). split.
      * apply (edits_of_operations_cons _ _ _ [Some _]); [|done]. cbn. rewrite (proj2 (Nat.eqb_neq _ _)) by done. cbn.
        by rewrite side_slice_Ok.
      * apply (diff_edits_ok_app i (i + ol) j (j + nl)); try done; [lia..|repeat constructor|intros e ->%list_elem_of_singleton; cbn; lia|].
        cbn. rewrite Nat.sub_diag. cbn. rewrite (de_patch _ _ _ _ Hok), <- drop_drop. apply take_drop.
Qed.
End lines.

(** ** The merge *)

Lemma concat_split_inclusive line text : concat (split_inclusive line text) = line ++ text.
Proof.
  revert line; induction text as [|b text IH]; intros line; cbn.
  - destruct line; cbn; by rewrite ?app_nil_r.
  - case_bool_decide; cbn; rewrite IH; cbn; by rewrite <- app_assoc.
Qed.

Lemma concat_split_lines text : concat_lines (split_preserving_lines text) = text.
Proof.
  unfold concat_lines, split_preserving_lines. rewrite map_map, (map_ext _ id), map_id by (intros; apply bytes_of_string_of_bytes).
  apply concat_split_inclusive.
Qed.

Lemma sorted_before_unique U V : StronglySorted before U -> StronglySorted before V -> (forall e, e ∈ U <-> e ∈ V) -> U = V.
Proof.
  assert (forall l, StronglySorted before l -> NoDup l) as Hnd.
  { induction 1 as [|e l _ IH He]; constructor; [|done]. intros Hin. rewrite Forall_forall in He. destruct (He e Hin). lia. }
  intros HU HV Heq. apply (StronglySorted_unique before); [done..|]. by apply NoDup_Permutation; auto.
Qed.

Lemma patch_union lines old_n edits : old_n = length lines -> Forall (wf_edit old_n) edits -> NoDup edits -> disjoint_edits edits ->
  exists U, StronglySorted before U /\ (forall e, e ∈ U <-> e ∈ edits) /\
    foldM splice lines (merge_sort edit_le edits) = Ok (patch lines 0 U).
Proof.
  intros -> Hwf Hnd Hd. exists (reverse (merge_sort edit_le edits)). split; [by eapply sorted_edits_before|].
  assert (forall e, e ∈ reverse (merge_sort edit_le edits) <-> e ∈ edits) as Hin by (intros e; by rewrite elem_of_reverse, merge_sort_Permutation).
  split; [done|]. rewrite <- (reverse_involutive (merge_sort edit_le edits)) at 1.
  rewrite (splice_all lines _ 0); [by rewrite take_0|by eapply sorted_edits_before| | |lia].
  - rewrite Forall_forall in *. intros e He. by apply Hwf, Hin.
  - apply Forall_forall. lia.
Qed.

Section spec.
Context `{D : LineDiff}.

Definition is_text (text : bytes) : Prop := has_nul text = false /\ valid_utf8 text = true.

(** The differ keeps its promise on the two pairs of texts compared. *)
Definition diff_lawful (base side : bytes) : Prop :=
  let old := split_preserving_lines base in
  let new := split_preserving_lines side in diff_ok old new (capture_diff_slices old new).

Definition side_edits (base side : bytes) : result merge_panic (list TextEdit) :=
  diff_edits (split_preserving_lines base) (split_preserving_lines side).

Definition conflicting (T S : list TextEdit) : Prop := exists t s, t ∈ T /\ s ∈ S /\ t <> s /\ edits_overlap t s = true.

Lemma side_edits_Ok base side : diff_lawful base side ->
  exists edits, side_edits base side = Ok edits /\ diff_edits_ok (split_preserving_lines base) (split_preserving_lines side) 0 0 false edits.
Proof. intros Hd. apply edits_of_diff; [lia|done]. Qed.

Lemma text_guards base target source : is_text base -> is_text target -> is_text source ->
  has_nul base || has_nul target || has_nul source = false /\
  negb (valid_utf8 base && valid_utf8 target && valid_utf8 source) = false.
Proof. intros [-> ->] [-> ->] [-> ->]. done. Qed.

(** The general path, in terms of the edits of the two sides. *)
Lemma combine_cases base target source T S :
  diff_edits_ok (split_preserving_lines base) (split_preserving_lines target) 0 0 false T ->
  diff_edits_ok (split_preserving_lines base) (split_preserving_lines source) 0 0 false S ->
  match combine_edits T S with
  | None => conflicting T S
  | Some edits => ~ conflicting T S /\ exists U, StronglySorted before U /\ (forall e, e ∈ U <-> e ∈ T \/ e ∈ S) /\
      foldM splice (split_preserving_lines base) (merge_sort edit_le edits) = Ok (patch (split_preserving_lines base) 0 U)
  end.
Proof.
  intros [HwT _ HsT _] [HwS _ HsS _]. destruct (sorted_disjoint _ _ HwT HsT) as [HdT HndT]. destruct (sorted_disjoint _ _ HwS HsS) as [HdS _].
  pose proof (combine_edits_spec _ _ _ HwT HwS HndT HdT HdS) as Hc. destruct (combine_edits T S) as [edits|]; [|done].
  destruct Hc as (Hnd & Hd & Hin). split.
  - intros (t & s & Ht & Hs & Hne & Ho). destruct (Hd t s) as [|]; [apply Hin; auto..|done|congruence].
  - destruct (patch_union (split_preserving_lines base) _ edits eq_refl) as (U & HsU & HU & Hf); [|done..|].
    + rewrite Forall_forall in *. intros e [He|He]%Hin; auto.
    + exists U. split; [done|]. split; [|done]. intros e. by rewrite HU.
Qed.

Lemma conflicting_sym base T S target source :
  diff_edits_ok (split_preserving_lines base) (split_preserving_lines target) 0 0 false T ->
  diff_edits_ok (split_preserving_lines base) (split_preserving_lines source) 0 0 false S ->
  conflicting T S -> conflicting S T.
Proof.
  intros [HwT _ _ _] [HwS _ _ _] (t & s & Ht & Hs & Hne & Ho). rewrite Forall_forall in HwT, HwS. exists s, t.
  split_and!; [done..|]. by rewrite (edits_overlap_sym (length (split_preserving_lines base))) by auto.
Qed.

(** C27. What the merge returns. It never panics. It answers [NonText] exactly
    when one of the three inputs holds a NUL or is not UTF-8, and the changed
    side when the other did not change. Otherwise it compares the line edits
    of the two sides: it reports a conflict exactly when two different edits
    overlap, and if none do, the result is the base with the edits of both
    sides applied, each once, from left to right. *)
Theorem text_merge_spec base target source :
  diff_lawful base target -> diff_lawful base source ->
  (~ (is_text base /\ is_text target /\ is_text source) -> merge_utf8_text_bytes base target source = Ok NonText) /\
  (is_text base -> is_text target -> is_text source ->
     (target = source -> merge_utf8_text_bytes base target source = Ok (Merged target)) /\
     (target = base -> merge_utf8_text_bytes base target source = Ok (Merged source)) /\
     (source = base -> merge_utf8_text_bytes base target source = Ok (Merged target)) /\
     (target <> source -> target <> base -> source <> base -> exists T S,
        side_edits base target = Ok T /\ side_edits base source = Ok S /\
        ((conflicting T S /\ merge_utf8_text_bytes base target source = Ok MergeConflict) \/
         (~ conflicting T S /\ exists U, StronglySorted before U /\ (forall e, e ∈ U <-> e ∈ T \/ e ∈ S) /\
            merge_utf8_text_bytes base target source = Ok (Merged (concat_lines (patch (split_preserving_lines base) 0 U))))))).
Proof.
  intros Ht Hs. split.
  - intros Hn. unfold merge_utf8_text_bytes. destruct (has_nul base || has_nul target || has_nul source) eqn:Hnul; [done|].
    destruct (valid_utf8 base && valid_utf8 target && valid_utf8 source) eqn:Hu; [|done]. destruct Hn.
    apply orb_false_iff in Hnul as [[? ?]%orb_false_iff ?]. apply andb_true_iff in Hu as [[? ?]%andb_true_iff ?]. by unfold is_text.
  - intros Hb1 Ht1 Hs1. destruct (text_guards base target source Hb1 Ht1 Hs1) as [Hg1 Hg2].
    unfold merge_utf8_text_bytes. rewrite Hg1, Hg2. split_and!.
    + intros ->. by rewrite bool_decide_eq_true_2.
    + intros ->. case_bool_decide as Heq; [by rewrite Heq|]. by rewrite bool_decide_eq_true_2.
    + intros ->. case_bool_decide as Heq; [done|]. by rewrite bool_decide_eq_true_2.
    + intros H1 H2 H3. rewrite !bool_decide_eq_false_2 by done.
      destruct (side_edits_Ok base target Ht) as (T & HT & HokT), (side_edits_Ok base source Hs) as (S & HS & HokS).
      exists T, S. split_and!; [done..|]. unfold side_edits in *. rewrite HT, HS. cbn [mbind result_bind].
      pose proof (combine_cases base target source T S HokT HokS) as Hc. destruct (combine_edits T S) as [edits|].
      * destruct Hc as (Hn & U & HsU & HU & ->). right. split; [done|]. by exists U.
      * by left.
Qed.

(** The merge does not depend on which side is the target: swapping the
    two versions gives the same text, or a conflict on both sides. *)
Theorem text_merge_symmetric base target source :
  diff_lawful base target -> diff_lawful base source ->
  merge_utf8_text_bytes base target source = merge_utf8_text_bytes base source target.
Proof.
  intros Ht Hs. unfold merge_utf8_text_bytes.
  rewrite (orb_comm (has_nul base || has_nul target)), orb_assoc, (orb_comm _ (has_nul base)).
  rewrite (andb_comm (valid_utf8 base && valid_utf8 target)), andb_assoc, (andb_comm _ (valid_utf8 base)).
  destruct (has_nul base || has_nul source || has_nul target); [done|]. destruct (negb _); [done|].
  destruct (decide (target = source)) as [->|H1]; [done|]. rewrite (bool_decide_eq_false_2 (target = source)), (bool_decide_eq_false_2 (source = target)) by congruence.
  destruct (decide (target = base)) as [->|H2].
  { rewrite bool_decide_eq_true_2, bool_decide_eq_false_2 by congruence. done. }
  destruct (decide (source = base)) as [->|H3].
  { rewrite bool_decide_eq_false_2, bool_decide_eq_true_2 by congruence. done. }
  rewrite !bool_decide_eq_false_2 by done.
  destruct (side_edits_Ok base target Ht) as (T & HT & HokT), (side_edits_Ok base source Hs) as (S & HS & HokS).
  unfold side_edits in *. rewrite HT, HS. cbn [mbind result_bind].
  pose proof (combine_cases base target source T S HokT HokS) as Hc. pose proof (combine_cases base source target S T HokS HokT) as Hc'.
  pose proof (conflicting_sym base T S target source HokT HokS). pose proof (conflicting_sym base S T source target HokS HokT).
  destruct (combine_edits T S) as [E1|], (combine_edits S T) as [E2|]; try tauto.
  destruct Hc as (_ & U & HsU & HU & ->), Hc' as (_ & V & HsV & HV & ->).
  rewrite (sorted_before_unique U V); [done..|]. intros e. rewrite HU, HV. tauto.
Qed.

(** A change that is already there is not applied twice: if every line
    edit of the source is one of the target's, the merge is the target. *)
Theorem text_merge_replay base target source T S :
  is_text base -> is_text target -> is_text source -> diff_lawful base target -> diff_lawful base source ->
  side_edits base target = Ok T -> side_edits base source = Ok S -> (forall e, e ∈ S -> e ∈ T) -> target <> base ->
  merge_utf8_text_bytes base target source = Ok (Merged target).
Proof.
  intros Hb1 Ht1 Hs1 Ht Hs HT HS Hsub Hne. destruct (text_guards base target source Hb1 Ht1 Hs1) as [Hg1 Hg2].
  unfold merge_utf8_text_bytes. rewrite Hg1, Hg2. case_bool_decide; [done|]. rewrite bool_decide_eq_false_2 by done. case_bool_decide; [done|].
  destruct (side_edits_Ok base target Ht) as (T' & HT' & HokT), (side_edits_Ok base source Hs) as (S' & HS' & HokS).
  rewrite HT in HT'. rewrite HS in HS'. injection HT' as <-. injection HS' as <-. unfold side_edits in *. rewrite HT, HS. cbn [mbind result_bind].
  pose proof (combine_cases base target source T S HokT HokS) as Hc. destruct HokT as [HwT _ HsT Hp]. destruct (sorted_disjoint _ _ HwT HsT) as [HdT _].
  destruct (combine_edits T S) as [edits|].
  - destruct Hc as (_ & U & HsU & HU & ->). cbn. rewrite (sorted_before_unique U T); [|done..|intros e; rewrite HU; naive_solver].
    rewrite Hp. cbn. by rewrite drop_0, concat_split_lines.
  - destruct Hc as (t & s & Hin & Hs' & Hts & Ho). destruct (HdT t s) as [|]; [done|by apply Hsub|done|congruence].
Qed.
End spec.

(** ** Examples *)

(** A differ that reports one change between the common prefix and the common
    suffix. *)
Fixpoint common_prefix (a b : list string) : nat :=
  match a, b with
  | x :: a, y :: b => if bool_decide (x = y) then S (common_prefix a b) else 0
  | _, _ => 0
  end.

Definition equal_run (i j n : nat) : list DiffOp := match n with O => [] | _ => [DiffEqual i j n] end.

Definition one_change (i ol j nl : nat) : list DiffOp :=
  match ol, nl with
  | O, O => []
  | O, _ => [DiffInsert i j nl]
  | _, O => [DiffDelete i ol j]
  | _, _ => [DiffReplace i ol j nl]
  end.

#[local] Instance one_change_diff : LineDiff := fun old new =>
  let p := common_prefix old new in
  let s := common_prefix (reverse (drop p old)) (reverse (drop p new)) in
  let ol := length old - p - s in
  let nl := length new - p - s in
  equal_run 0 0 p ++ one_change p ol p nl ++ equal_run (p + ol) (p + nl) s.

Definition example_text (s : string) : bytes := bytes_of_string s ++ [Byte.x0a].
Definition example_lines (l : list string) : bytes := concat (map example_text l).

(** The texts of the tests of the module. *)
Definition base_text : bytes := example_lines ["one"; "two"; "three"].
Definition target_text : bytes := example_lines ["ONE"; "two"; "three"].
Definition source_text : bytes := example_lines ["one"; "two"; "THREE"].

Example merges_non_overlapping_line_edits :
  merge_utf8_text_bytes base_text target_text source_text = Ok (Merged (example_lines ["ONE"; "two"; "THREE"])).
Proof. vm_compute. reflexivity. Qed.

Example rejects_overlapping_edits :
  merge_utf8_text_bytes (example_lines ["one"; "two"]) (example_lines ["target"; "two"]) (example_lines ["source"; "two"]) = Ok MergeConflict.
Proof. vm_compute. reflexivity. Qed.

Ltac lawful := vm_compute; repeat split; lia.

Lemma text_merge_spec_witness : exists T S,
  side_edits base_text target_text = Ok T /\ side_edits base_text source_text = Ok S /\
  ((conflicting T S /\ merge_utf8_text_bytes base_text target_text source_text = Ok MergeConflict) \/
   (~ conflicting T S /\ exists U, StronglySorted before U /\ (forall e, e ∈ U <-> e ∈ T \/ e ∈ S) /\
      merge_utf8_text_bytes base_text target_text source_text = Ok (Merged (concat_lines (patch (split_preserving_lines base_text) 0 U))))).
Proof.
  refine (proj2 (proj2 (proj2 (proj2 (text_merge_spec base_text target_text source_text _ _) _ _ _))) _ _ _);
    [lawful|lawful|by split|by split|by split|done|done|done].
Defined.

Lemma text_merge_symmetric_witness :
  merge_utf8_text_bytes base_text target_text source_text = merge_utf8_text_bytes base_text source_text target_text.
Proof. refine (text_merge_symmetric base_text target_text source_text _ _); lawful. Defined.

Lemma text_merge_replay_witness :
  merge_utf8_text_bytes (example_lines ["alpha=0"; "beta=0"]) (example_lines ["alpha=1"; "beta=2"]) (example_lines ["alpha=1"; "beta=0"])
    = Ok (Merged (example_lines ["alpha=1"; "beta=2"])).
Proof.
  refine (text_merge_replay (example_lines ["alpha=0"; "beta=0"]) (example_lines ["alpha=1"; "beta=2"]) (example_lines ["alpha=1"; "beta=0"])
    _ _ _ _ _ _ _ _ _ _ _); [by split|by split|by split|lawful|lawful|vm_compute; reflexivity|vm_compute; reflexivity| |done].
  intros e ->%list_elem_of_singleton. left.
Defined.
