(* ===== verification/FileStore.v ===== *)
(** * Files

    The file interface of [ait-core/src/file_io/mod.rs] as the binary databases
    use it: computations that keep their state when they fail, paths, and a
    directory tree whose operations may fail before, or halfway through, their
    effect. *)

From Stdlib Require Import NArith Lia.
From Stdlib Require Strings.Byte.
From Stdlib Require Import Ascii.
From stdpp Require Import base numbers strings gmap list.
From S2P Require Import Prelude.

(** ** Computations with a state that outlives an error *)

(** A method that takes [&mut self] and returns a [Result]: what it did to the
    state before it failed stays done. *)
Definition stateful (S E A : Type) : Type := S -> result E A * S.
#[export] Instance stateful_ret {S E} : MRet (stateful S E) := fun A a s => (Ok a, s).
#[export] Instance stateful_bind {S E} : MBind (stateful S E) := fun A B k m s =>
  match m s with (Ok a, s') => k a s' | (Err e, s') => (Err e, s') end.
Definition lift {S E A} (r : result E A) : stateful S E A := fun s => (r, s).
Definition get {S E} : stateful S E S := fun s => (Ok s, s).
Definition modify {S E} (f : S -> S) : stateful S E unit := fun s => (Ok tt, f s).
Definition map_error {S E F A} (f : E -> F) (m : stateful S E A) : stateful S F A := fun s =>
  let '(r, s') := m s in (map_err f r, s').

(** A [for] loop with [?] in its body. *)
Fixpoint for_each {S E A} (f : A -> stateful S E unit) (l : list A) : stateful S E unit :=
  match l with
  | [] => mret tt
  | x :: l => f x ≫= fun _ => for_each f l
  end.

(** ** Paths *)

(** [std::path::Component] on Unix, and [Path::components]: empty and dot
    segments disappear, except a dot in front. *)
Inductive Component : Type := RootDir | CurDir | ParentDir | Normal (name : string).
Abbreviation PathBuf := (list Component).

#[export] Instance component_eq_dec : EqDecision Component.
Proof. solve_decision. Defined.
#[export] Instance component_countable : Countable Component.
Proof.
  refine (inj_countable' (fun c => match c with
      | RootDir => inl 0 | CurDir => inl 1 | ParentDir => inl 2 | Normal name => inr name end)
    (fun s => match s with inl 0 => RootDir | inl 1 => CurDir | inl _ => ParentDir | inr name => Normal name end) _).
  by intros [].
Defined.

Fixpoint segments (path : string) : list string :=
  match path with
  | EmptyString => [EmptyString]
  | String c path =>
      if bool_decide (c = "/"%char) then EmptyString :: segments path
      else match segments path with segment :: l => String c segment :: l | [] => [String c EmptyString] end
  end.

Definition component_of (segment : string) : option Component :=
  if bool_decide (segment = EmptyString) || bool_decide (segment = "."%string) then None
  else if bool_decide (segment = ".."%string) then Some ParentDir else Some (Normal segment).

Definition components (path : string) : PathBuf :=
  let parts := segments path in
  let rest := omap component_of parts in
  match path, parts with
  | String "/"%char _, _ => RootDir :: rest
  | _, "."%string :: _ => CurDir :: rest
  | _, _ => rest
  end.

(** [root.join(path)] for a relative path. *)
Definition join (root path : PathBuf) : PathBuf :=
  match root with [] => path | _ => root ++ filter (fun c => c <> CurDir) path end.

Definition file_name (path : PathBuf) : option string :=
  match last path with Some (Normal name) => Some name | _ => None end.

Fixpoint rsplit_dot (name : string) : option (string * string) :=
  match name with
  | EmptyString => None
  | String c name =>
      match rsplit_dot name with
      | Some (before, after) => Some (String c before, after)
      | None => if bool_decide (c = "."%char) then Some (EmptyString, name) else None
      end
  end.

(** [Path::extension]: a leading dot starts no extension. *)
Definition extension (path : PathBuf) : option string :=
  name ← file_name path;
  match rsplit_dot name with Some (String _ _, after) => Some after | _ => None end.

Definition parent (path : PathBuf) : option PathBuf :=
  match last path with None | Some RootDir => None | Some _ => Some (removelast path) end.

(** ** The file store *)

Inductive FileIoErrorKind : Type :=
| NotFound | PermissionDenied | AlreadyExists | InvalidInput | InvalidFileData | Interrupted | WouldBlock
| UnexpectedEof | WriteZero | UnsupportedIo | LockFailed | Durability | Utf8 | OtherIo.

(** What the operating system does with the next call: it works, it fails
    without effect, or a write fails after [written] bytes. *)
Inductive fault : Type :=
| Works
| Refused (kind : FileIoErrorKind)
| Torn (written : nat) (kind : FileIoErrorKind).

(** The contents that have been flushed, the files as programs see them, and
    the fate of the calls to come; when the list is used up, every call works. *)
Record io_state : Type := mkIo { durable : gmap PathBuf bytes; disk : gmap PathBuf bytes; faults : list fault }.
Definition set_disk (s : io_state) (d : gmap PathBuf bytes) : io_state := mkIo (durable s) d (faults s).
Definition next_fault (s : io_state) : fault * io_state :=
  match faults s with [] => (Works, s) | f :: l => (f, mkIo (durable s) (disk s) l) end.

Abbreviation file_io := (stateful io_state FileIoErrorKind).

(** A call that changes no file. *)
Definition query {A} (op : gmap PathBuf bytes -> result FileIoErrorKind A) : file_io A := fun s =>
  match next_fault s with
  | (Works, s) => (op (disk s), s)
  | (Refused kind, s) | (Torn _ kind, s) => (Err kind, s)
  end.

(** A call that writes: [op written] is the effect when at most [written] bytes
    get through. *)
Definition update {A} (op : option nat -> gmap PathBuf bytes -> result FileIoErrorKind (A * gmap PathBuf bytes)) : file_io A := fun s =>
  match next_fault s with
  | (Works, s) => match op None (disk s) with Ok (a, d) => (Ok a, set_disk s d) | Err kind => (Err kind, s) end
  | (Refused kind, s) => (Err kind, s)
  | (Torn written kind, s) =>
      match op (Some written) (disk s) with Ok (_, d) => (Err kind, set_disk s d) | Err kind' => (Err kind', s) end
  end.

Definition written_part (written : option nat) (data : bytes) : bytes :=
  match written with None => data | Some n => take n data end.

(** [bytes] written over the file content from [offset] on. *)
Definition splice_at (data : bytes) (offset : nat) (new : bytes) : bytes :=
  take offset data ++ new ++ drop (offset + length new) data.

Definition metadata_len (path : PathBuf) : file_io (option N) := query (fun d => Ok (N.of_nat ∘ length <$> d !! path)).

Definition read_bytes_at (path : PathBuf) : file_io bytes := query (fun d => ok_or (d !! path) NotFound).

Definition read_range (path : PathBuf) (offset len : N) : file_io bytes := query (fun d =>
  data ← ok_or (d !! path) NotFound;
  _ ← fail_if (N.of_nat (length data) <? offset + len)%N UnexpectedEof;
  Ok (take (N.to_nat len) (drop (N.to_nat offset) data))).

(** Directories are not part of the state; creating one can only fail. *)
Definition create_parent_dirs (path : PathBuf) : file_io unit := query (fun _ => Ok tt).

Definition append_bytes (path : PathBuf) (data : bytes) : file_io N :=
  create_parent_dirs path ≫= fun _ => update (fun written d =>
    let old := default [] (d !! path) in
    Ok (N.of_nat (length old), <[path := old ++ written_part written data]> d)).

Definition overwrite_range (path : PathBuf) (offset : N) (data : bytes) : file_io unit := update (fun written d =>
  old ← ok_or (d !! path) NotFound;
  _ ← fail_if (usize_max <? offset + N.of_nat (length data))%N InvalidInput;
  _ ← fail_if (N.of_nat (length old) <? offset + N.of_nat (length data))%N InvalidInput;
  Ok (tt, <[path := splice_at old (N.to_nat offset) (written_part written data)]> d)).

(** [File::set_len], which fills with zeros when it extends. *)
Definition set_len (data : bytes) (len : N) : bytes :=
  take (N.to_nat len) data ++ replicate (N.to_nat len - length data) Byte.x00.

Definition truncate_file (path : PathBuf) (len : N) : file_io unit := update (fun written d =>
  old ← ok_or (d !! path) NotFound;
  Ok (tt, match written with None => <[path := set_len old len]> d | Some _ => d end)).

Definition remove_file_if_exists (path : PathBuf) : file_io unit := update (fun written d =>
  Ok (tt, match written with None => delete path d | Some _ => d end)).

Definition sync_file (path : PathBuf) : file_io unit := fun s =>
  match next_fault s with
  | (Works, s) =>
      match disk s !! path with
      | Some data => (Ok tt, mkIo (<[path := data]> (durable s)) (disk s) (faults s))
      | None => (Err Durability, s)
      end
  | (_, s) => (Err Durability, s)
  end.
(** Flushing a directory has no effect that the model shows: [durable] tells what is
    known of the contents of files, not of their names. *)
Definition sync_dir (path : PathBuf) : file_io unit := map_error (fun _ => Durability) (query (fun _ => Ok tt)).

(** The staged file lies outside the modelled files; it is synced before the
    rename, which happens completely or not at all. *)
Definition write_bytes_atomically_from_directory (path : PathBuf) (data : bytes) : file_io unit := fun s =>
  match next_fault s with
  | (Works, s) => (Ok tt, mkIo (<[path := data]> (durable s)) (<[path := data]> (disk s)) (faults s))
  | (Refused kind, s) | (Torn _ kind, s) => (Err kind, s)
  end.

(** ** Lemmas *)

Lemma bind_run {S E A B} (m : stateful S E A) (k : A -> stateful S E B) s a s' :
  m s = (Ok a, s') -> (m ≫= k) s = k a s'.
Proof. intros H. unfold mbind, stateful_bind. by rewrite H. Qed.

Lemma bind_run_to {S E A B} (m : stateful S E A) (k : A -> stateful S E B) s a s' r :
  m s = (Ok a, s') -> k a s' = r -> (m ≫= k) s = r.
Proof. intros H <-. by apply bind_run. Qed.

Lemma bind_run_Err {S E A B} (m : stateful S E A) (k : A -> stateful S E B) s e s' :
  m s = (Err e, s') -> (m ≫= k) s = (Err e, s').
Proof. intros H. unfold mbind, stateful_bind. by rewrite H. Qed.

Lemma bind_run_Ok {S E A B} (m : stateful S E A) (k : A -> stateful S E B) s b s' :
  (m ≫= k) s = (Ok b, s') <-> exists a s0, m s = (Ok a, s0) /\ k a s0 = (Ok b, s').
Proof.
  unfold mbind, stateful_bind. destruct (m s) as [[a|e] s0]; split; [by eauto| |done|by intros (? & ? & [=] & _)].
  intros (a' & s0' & [= -> ->] & H). done.
Qed.

(** Relations between the states before and after a computation, whatever its
    outcome. *)
Definition preserves {S E A} (R : S -> S -> Prop) (m : stateful S E A) : Prop := forall s, R s (snd (m s)).

Section Preserves.
Context {S E : Type} (R : S -> S -> Prop) `{!PreOrder R}.

Lemma preserves_ret {A} (a : A) : preserves R (mret a : stateful S E A).
Proof. intros s. reflexivity. Qed.
Lemma preserves_lift {A} (r : result E A) : preserves R (lift r).
Proof. intros s. reflexivity. Qed.
Lemma preserves_map_error {F A} (f : F -> E) (m : stateful S F A) : preserves R m -> preserves R (map_error f m).
Proof. intros Hm s. specialize (Hm s). unfold map_error. by destruct (m s). Qed.
Lemma preserves_bind {A B} (m : stateful S E A) (k : A -> stateful S E B) :
  preserves R m -> (forall a, preserves R (k a)) -> preserves R (m ≫= k).
Proof.
  intros Hm Hk s. specialize (Hm s). unfold mbind, stateful_bind. destruct (m s) as [[a|e] s']; [|done].
  cbn in Hm. etransitivity; [exact Hm|apply Hk].
Qed.
Lemma preserves_for_each {A} (f : A -> stateful S E unit) l : (forall x, preserves R (f x)) -> preserves R (for_each f l).
Proof. intros Hf. induction l as [|x l IH]; [by apply preserves_ret|]. cbn [for_each]. by apply preserves_bind. Qed.
Lemma preserves_bind_lift {A B} (r : result E A) (k : A -> stateful S E B) :
  (forall a, r = Ok a -> preserves R (k a)) -> preserves R (lift r ≫= k).
Proof. intros Hk s. unfold mbind, stateful_bind, lift. destruct r; [by apply Hk|reflexivity]. Qed.
End Preserves.

(** Calls that work, on a state without faults to come. *)
Lemma query_works {du : gmap PathBuf bytes} {A} (op : gmap PathBuf bytes -> result FileIoErrorKind A) d : query op (mkIo du d []) = (op d, mkIo du d []).
Proof. done. Qed.

Lemma query_disk {A} (op : gmap PathBuf bytes -> result FileIoErrorKind A) s : disk (snd (query op s)) = disk s.
Proof. unfold query, next_fault. destruct s as [du d [|[]]]; done. Qed.

Lemma metadata_len_works {du : gmap PathBuf bytes} path d : metadata_len path (mkIo du d []) =
  (Ok (match d !! path with Some data => Some (N.of_nat (length data)) | None => None end), mkIo du d []).
Proof. unfold metadata_len. rewrite query_works. by destruct (d !! path). Qed.

Lemma append_bytes_works {du : gmap PathBuf bytes} path data d :
  append_bytes path data (mkIo du d []) = (Ok (N.of_nat (length (default [] (d !! path)))), mkIo du (<[path := default [] (d !! path) ++ data]> d) []).
Proof. done. Qed.

Lemma read_range_works {du : gmap PathBuf bytes} path offset len d data : d !! path = Some data -> (offset + len <= N.of_nat (length data))%N ->
  read_range path offset len (mkIo du d []) = (Ok (take (N.to_nat len) (drop (N.to_nat offset) data)), mkIo du d []).
Proof.
  intros Hd Hlen. unfold read_range. rewrite query_works, Hd. cbn [ok_or mbind result_bind].
  by rewrite (proj2 (N.ltb_ge _ _) Hlen).
Qed.

Lemma overwrite_range_works {du : gmap PathBuf bytes} path offset data d old :
  d !! path = Some old -> (offset + N.of_nat (length data) <= N.of_nat (length old))%N -> (N.of_nat (length old) <= usize_max)%N ->
  overwrite_range path offset data (mkIo du d []) = (Ok tt, mkIo du (<[path := splice_at old (N.to_nat offset) data]> d) []).
Proof.
  intros Hd Hlen Hmax. unfold overwrite_range, update. cbn [next_fault faults disk]. rewrite Hd. cbn [ok_or mbind result_bind].
  rewrite (proj2 (N.ltb_ge _ _)) by lia. cbn [fail_if mbind result_bind]. by rewrite (proj2 (N.ltb_ge _ _)) by lia.
Qed.

(** Bytes of a spliced list. *)
Lemma splice_at_app (a b c new : bytes) : length new = length b -> splice_at (a ++ b ++ c) (length a) new = a ++ new ++ c.
Proof.
  intros Hlen. unfold splice_at. rewrite take_app_length. f_equal. f_equal. rewrite Hlen.
  rewrite app_assoc, <- length_app. apply drop_app_length.
Qed.

Lemma length_splice_at (data new : bytes) offset : offset + length new <= length data -> length (splice_at data offset new) = length data.
Proof. intros H. unfold splice_at. rewrite !length_app, length_take, length_drop. lia. Qed.

Lemma lookup_splice_at (data new : bytes) offset i : offset + length new <= length data ->
  splice_at data offset new !! i = if decide (offset <= i < offset + length new) then new !! (i - offset) else data !! i.
Proof.
  intros H. unfold splice_at. destruct (decide (i < offset)) as [Hi|Hi].
  - rewrite lookup_app_l by (rewrite length_take; lia). rewrite lookup_take_lt by done. rewrite decide_False by lia. done.
  - rewrite lookup_app_r by (rewrite length_take; lia). rewrite length_take, Nat.min_l by lia. case_decide as Hin.
    + by rewrite lookup_app_l by lia.
    + rewrite lookup_app_r by lia. rewrite lookup_drop. f_equal. lia.
Qed.

(** ** Effects of calls that may fail *)

(** At most [path] changes, and only by bytes at its end. *)
Definition only_appends (path : PathBuf) (s s' : io_state) : Prop :=
  (forall p, p <> path -> disk s' !! p = disk s !! p) /\
  forall data, disk s !! path = Some data -> exists extra, disk s' !! path = Some (data ++ extra).

(** At most the [len] bytes of [path] from [offset] on change. *)
Definition only_rewrites (path : PathBuf) (offset len : nat) (s s' : io_state) : Prop :=
  (forall p, p <> path -> disk s' !! p = disk s !! p) /\
  (disk s !! path = None -> disk s' !! path = None) /\
  forall data, disk s !! path = Some data -> exists data', disk s' !! path = Some data' /\ length data' = length data /\
    forall i, ~ (offset <= i < offset + len) -> data' !! i = data !! i.

Definition same_disk (s s' : io_state) : Prop := disk s' = disk s.

#[export] Instance same_disk_preorder : PreOrder same_disk.
Proof. split; [done|]. intros s1 s2 s3 H12 H23. unfold same_disk in *. congruence. Qed.

#[export] Instance only_appends_preorder path : PreOrder (only_appends path).
Proof.
  split.
  - intros s. split; [done|]. intros data H. exists []. by rewrite app_nil_r.
  - intros s1 s2 s3 [Ho12 Hd12] [Ho23 Hd23]. split; [intros p Hp; by rewrite Ho23, Ho12|]. intros data H1.
    destruct (Hd12 _ H1) as [e1 H2]. destruct (Hd23 _ H2) as [e2 H3]. exists (e1 ++ e2). by rewrite app_assoc.
Qed.

#[export] Instance only_rewrites_preorder path offset len : PreOrder (only_rewrites path offset len).
Proof.
  split.
  - intros s. split; [done|]. split; [done|]. intros data H. by exists data.
  - intros s1 s2 s3 (Ho12 & Hn12 & Hd12) (Ho23 & Hn23 & Hd23). split; [intros p Hp; by rewrite Ho23, Ho12|]. split; [auto|].
    intros data H1. destruct (Hd12 _ H1) as (d2 & H2 & Hl2 & Hi2). destruct (Hd23 _ H2) as (d3 & H3 & Hl3 & Hi3).
    exists d3. split; [done|]. split; [congruence|]. intros i Hi. by rewrite Hi3, Hi2.
Qed.

(** Relations that say nothing when the files stay the same. *)
Class OnDisk (R : io_state -> io_state -> Prop) : Prop := { on_disk_preorder :: PreOrder R; on_disk_same s s' : disk s' = disk s -> R s s' }.

#[export] Instance same_disk_on_disk : OnDisk same_disk.
Proof. split; [apply _|done]. Qed.
#[export] Instance only_appends_on_disk path : OnDisk (only_appends path).
Proof. split; [apply _|]. intros s s' H. unfold only_appends. rewrite H. split; [done|]. intros data Hd. exists []. by rewrite app_nil_r. Qed.
#[export] Instance only_rewrites_on_disk path offset len : OnDisk (only_rewrites path offset len).
Proof. split; [apply _|]. intros s s' H. unfold only_rewrites. rewrite H. split_and!; [done|done|]. intros data Hd. by exists data. Qed.

Lemma preserves_query R `{!OnDisk R} {A} (op : gmap PathBuf bytes -> result FileIoErrorKind A) : preserves R (query op).
Proof. intros s. apply on_disk_same, query_disk. Qed.

Lemma next_fault_durable s : durable (snd (next_fault s)) = durable s.
Proof. unfold next_fault. by destruct (faults s). Qed.

Lemma query_durable {A} (op : gmap PathBuf bytes -> result FileIoErrorKind A) s : durable (snd (query op s)) = durable s.
Proof. unfold query. pose proof (next_fault_durable s) as H. by destruct (next_fault s) as [[] s']. Qed.

Lemma next_fault_disk s : disk (snd (next_fault s)) = disk s.
Proof. unfold next_fault. by destruct (faults s). Qed.

Lemma sync_file_disk path s : disk (snd (sync_file path s)) = disk s.
Proof.
  unfold sync_file. pose proof (next_fault_disk s) as H. destruct (next_fault s) as [[] s']; [|done..]. cbn in H.
  destruct (disk s' !! path); cbn; by rewrite <- H.
Qed.

Lemma preserves_update R `{!OnDisk R} {A} (op : option nat -> gmap PathBuf bytes -> result FileIoErrorKind (A * gmap PathBuf bytes)) :
  (forall written s s' a, op written (disk s) = Ok (a, disk s') -> R s s') -> preserves R (update op).
Proof.
  intros Hop s. unfold update. pose proof (next_fault_disk s) as Hd. destruct (next_fault s) as [f s1]. cbn in Hd.
  destruct f as [|kind|n kind]; [|by apply on_disk_same|].
  - destruct (op None (disk s1)) as [[a d]|e] eqn:Ho; [|by apply on_disk_same]. apply (Hop None s (set_disk s1 d) a). by rewrite <- Hd.
  - destruct (op (Some n) (disk s1)) as [[a d]|e] eqn:Ho; [|by apply on_disk_same]. apply (Hop (Some n) s (set_disk s1 d) a). by rewrite <- Hd.
Qed.

Lemma preserves_append_bytes path data : preserves (only_appends path) (append_bytes path data).
Proof.
  apply preserves_bind; [apply _|apply preserves_query, _|]. intros _. apply preserves_update; [apply _|].
  intros written s s' a [= _ H]. split.
  - intros p Hp. by rewrite <- H, lookup_insert_ne.
  - intros old Hold. rewrite <- H, lookup_insert_eq, Hold. eauto.
Qed.

Lemma length_written_part written data : length (written_part written data) <= length data.
Proof. destruct written; cbn; [rewrite length_take; lia|done]. Qed.

Lemma preserves_overwrite_range path offset data : preserves (only_rewrites path (N.to_nat offset) (length data)) (overwrite_range path offset data).
Proof.
  apply preserves_update; [apply _|]. intros written s s' a H. apply bind_Ok in H as (old & Hold%ok_or_Ok & H).
  apply bind_Ok in H as (u1 & Hu1 & H). apply bind_Ok in H as (u2 & Hu2%fail_if_Ok%N.ltb_ge & H). injection H as _ H.
  pose proof (length_written_part written data) as Hw. split; [intros p Hp; by rewrite <- H, lookup_insert_ne|].
  split; [by rewrite Hold|]. intros old' Hold'. rewrite Hold in Hold'. injection Hold' as <-. rewrite <- H, lookup_insert_eq. eexists.
  split; [done|]. split; [apply length_splice_at; lia|]. intros i Hi. rewrite lookup_splice_at by lia. rewrite decide_False by lia. done.
Qed.

(** What a successful call did. *)
Lemma update_Ok {A} (op : option nat -> gmap PathBuf bytes -> result FileIoErrorKind (A * gmap PathBuf bytes)) s a s' :
  update op s = (Ok a, s') -> op None (disk s) = Ok (a, disk s').
Proof.
  unfold update. pose proof (next_fault_disk s) as Hd. destruct (next_fault s) as [[|kind|n kind] s1]; cbn in Hd; [|done|].
  - rewrite Hd. destruct (op None (disk s)) as [[a' d]|e]; [|done]. by intros [= -> <-].
  - by destruct (op (Some n) (disk s1)) as [[a' d]|e].
Qed.

Lemma query_Ok {A} (op : gmap PathBuf bytes -> result FileIoErrorKind A) s a s' : query op s = (Ok a, s') -> op (disk s) = Ok a /\ disk s' = disk s.
Proof.
  unfold query. pose proof (next_fault_disk s) as Hd. destruct (next_fault s) as [[] s1]; cbn in Hd; [|done..]. rewrite Hd.
  by intros [= -> <-].
Qed.

Lemma map_error_Ok {S E F A} (f : E -> F) (m : stateful S E A) s a s' : map_error f m s = (Ok a, s') <-> m s = (Ok a, s').
Proof. unfold map_error. destruct (m s) as [[a'|e] s1]; cbn; split; intros H; by simplify_eq. Qed.

Lemma sync_file_Ok path s u s' : sync_file path s = (Ok u, s') ->
  is_Some (disk s !! path) /\ disk s' = disk s /\ durable s' !! path = disk s' !! path /\ forall p, p <> path -> durable s' !! p = durable s !! p.
Proof.
  unfold sync_file. pose proof (next_fault_disk s) as Hd. pose proof (next_fault_durable s) as Hu. destruct (next_fault s) as [[] s1]; [|done..].
  cbn in Hd, Hu. rewrite <- Hd, <- Hu. destruct (disk s1 !! path) as [data|] eqn:Hp; [|done]. intros [= _ <-]. cbn. split_and!; [done|done| |].
  - by rewrite lookup_insert_eq.
  - intros p Hp'. by apply lookup_insert_ne.
Qed.

Lemma truncate_file_effect path len s :
  match truncate_file path len s with
  | (Ok _, s') => exists old, disk s !! path = Some old /\ disk s' = <[path := set_len old len]> (disk s)
  | (Err _, s') => disk s' = disk s
  end.
Proof.
  unfold truncate_file, update. pose proof (next_fault_disk s) as Hd. destruct (next_fault s) as [[|kind|n kind] s1]; cbn in Hd; rewrite <- Hd; [|done|];
    destruct (disk s1 !! path) as [old|]; cbn; try done. by exists old.
Qed.

Lemma remove_file_effect path s :
  match remove_file_if_exists path s with
  | (Ok _, s') => disk s' = delete path (disk s)
  | (Err _, s') => disk s' = disk s
  end.
Proof.
  unfold remove_file_if_exists, update. pose proof (next_fault_disk s) as Hd. destruct (next_fault s) as [[|kind|n kind] s1]; cbn in *; by rewrite Hd.
Qed.

(** ** Hoare triples: [Q] after a success, [I] after an error *)

Definition triple {S E A} (I P : S -> Prop) (m : stateful S E A) (Q : A -> S -> Prop) : Prop :=
  forall s, P s -> match m s with (Ok a, s') => Q a s' | (Err _, s') => I s' end.

Section Triples.
Context {S E : Type} (I : S -> Prop).

Lemma triple_bind {A B} P (m : stateful S E A) (k : A -> stateful S E B) (Q : A -> S -> Prop) T :
  triple I P m Q -> (forall a, triple I (Q a) (k a) T) -> triple I P (m ≫= k) T.
Proof.
  intros Hm Hk s HP. specialize (Hm s HP). unfold mbind, stateful_bind. destruct (m s) as [[a|e] s']; [by apply Hk|done].
Qed.

Lemma triple_conseq {A} (P P' : S -> Prop) (m : stateful S E A) (Q Q' : A -> S -> Prop) :
  triple I P m Q -> (forall s, P' s -> P s) -> (forall a s, Q a s -> Q' a s) -> triple I P' m Q'.
Proof. intros Hm HP HQ s Hs. specialize (Hm s (HP s Hs)). destruct (m s) as [[a|e] s']; [by apply HQ|done]. Qed.

Lemma triple_ret {A} P (a : A) : triple (E := E) I P (mret a) (fun _ => P).
Proof. by intros s HP. Qed.

Lemma triple_lift {A} P (r : result E A) : (forall s, P s -> I s) -> triple I P (lift r) (fun a s => r = Ok a /\ P s).
Proof. intros HI s HP. unfold lift. destruct r; [by split|by apply HI]. Qed.

Lemma triple_modify P (f : S -> S) : triple (E := E) I P (modify f) (fun _ s => exists s0, P s0 /\ s = f s0).
Proof. intros s HP. by exists s. Qed.

(** What is true of every outcome. *)
Lemma triple_snd {A} P (m : stateful S E A) Q s : triple I P m Q -> (forall a s, Q a s -> I s) -> P s -> I (snd (m s)).
Proof. intros Hm HQ HP. specialize (Hm s HP). destruct (m s) as [[a|e] s']; cbn; [by apply (HQ a)|done]. Qed.

Lemma triple_for_each {A} (f : A -> stateful S E unit) (J : list A -> S -> Prop) l :
  (forall x l', triple I (J (x :: l')) (f x) (fun _ => J l')) -> triple I (J l) (for_each f l) (fun _ => J []).
Proof.
  intros Hf. induction l as [|x l IH]; [apply triple_ret|]. eapply triple_bind; [apply Hf|]. intros []. exact IH.
Qed.
End Triples.
