(* ===== verification/BinaryDb.v ===== *)
(** * Binary database files

    The record and payload files of [ait-core/src/binary_db]: errors, file
    identities, command scopes, and the filesystem adapter with its fixed
    record and payload operations. Indexes are in [BinaryIndex], transactions
    in [WriteTxn]. *)

From Stdlib Require Import NArith Lia.
From Stdlib Require Strings.Byte.
From stdpp Require Import base numbers strings gmap list.
From S2P Require Import Prelude Codec FileStore.

Inductive BinaryDbErrorKind : Type :=
| RetryableBusy | Corruption | LayoutMismatch | MissingData | InvalidDomainData | Io | Unsupported | Other.

Definition file_io_error_to_binary (kind : FileIoErrorKind) : BinaryDbErrorKind :=
  match kind with
  | UnsupportedIo => Unsupported
  | InvalidFileData => Corruption
  | WouldBlock => RetryableBusy
  | _ => Io
  end.

(** An operation of the database on the files. *)
Abbreviation db := (stateful io_state BinaryDbErrorKind).
Definition io {A} (m : file_io A) : db A := map_error file_io_error_to_binary m.
Definition require {S} (b : bool) (kind : BinaryDbErrorKind) : stateful S BinaryDbErrorKind unit := lift (fail_if (negb b) kind).

(** ** Identities *)

Record BinaryFileId : Type := mkFileId { relative_path : string; file_layout_id : N; record_size : N }.
Record BinaryPayloadFileId : Type := mkPayloadFileId { payload_path : string; payload_layout_id : N }.
Record PayloadRange : Type := mkPayloadRange { payload_range_offset : N; payload_range_len : N }.

#[export] Instance file_id_eq_dec : EqDecision BinaryFileId.
Proof. solve_decision. Defined.

(** Files are equal when the components of their paths are. *)
Definition file_key (file : BinaryFileId) : PathBuf * N * N :=
  (components (relative_path file), record_size file, file_layout_id file).

Inductive BinaryDbFileFamily : Type := ContentFamily | PlanFamily.

Definition for_relative_path (path : string) : BinaryDbFileFamily :=
  let name := default EmptyString (file_name (components path)) in
  if bool_decide (name = "plan.bin"%string) || String.prefix "plan_" name then PlanFamily else ContentFamily.

Inductive BinaryDbCommandScope : Type :=
| General | PlanSyncLocal | PlanSyncLocalPlan | PlanSyncRemote | RemoteSyncLocalImport | PlanImport
| SnapshotWrite | ContentWrite | Gc.

Definition authorizes_file_family (scope : BinaryDbCommandScope) (family : BinaryDbFileFamily) : bool :=
  match scope with
  | General => true
  | Gc => match family with ContentFamily | PlanFamily => true end
  | PlanSyncLocal | PlanImport | PlanSyncRemote => true
  | PlanSyncLocalPlan => match family with PlanFamily => true | _ => false end
  | RemoteSyncLocalImport | SnapshotWrite | ContentWrite => match family with ContentFamily => true | _ => false end
  end.

(** The number of a transaction is not modelled: nothing reads it back. *)
Record BinaryWriteContext : Type := mkWriteContext { command_scope : BinaryDbCommandScope; active : bool }.

Definition ensure_active (write : BinaryWriteContext) : result BinaryDbErrorKind unit :=
  fail_if (negb (active write)) InvalidDomainData.
Definition ensure_authorized_family (write : BinaryWriteContext) (family : BinaryDbFileFamily) : result BinaryDbErrorKind unit :=
  _ ← ensure_active write;
  fail_if (negb (authorizes_file_family (command_scope write) family)) InvalidDomainData.
Definition ensure_authorized_path (write : BinaryWriteContext) (path : string) : result BinaryDbErrorKind unit :=
  ensure_authorized_family write (for_relative_path path).

Definition validate_store_relative_path (path : PathBuf) : result BinaryDbErrorKind PathBuf :=
  _ ← fail_if (match path with RootDir :: _ => true | _ => false end) InvalidDomainData;
  _ ← fail_if (bool_decide (ParentDir ∈ path)) InvalidDomainData;
  Ok path.

Definition store_path_for (authority_root : PathBuf) (path : string) : result BinaryDbErrorKind PathBuf :=
  rel ← validate_store_relative_path (components path);
  Ok (join authority_root rel).

(** ** The filesystem adapter *)

(** [LocalBinaryDbFs] on an ordinary directory. *)
Record LocalBinaryDbFs : Type := mkDb {
  authority_root : PathBuf;
  declared_bin_paths : option (list string);
  declared_index_paths : option (list string);
  admission_error : option string
}.

Definition BIN_FILE_HEADER_BYTES : N := 4%N.
Definition u32_max : N := 4294967295%N.

Definition ensure_admitted (fs : LocalBinaryDbFs) : result BinaryDbErrorKind unit :=
  match admission_error fs with Some _ => Err InvalidDomainData | None => Ok tt end.

Definition resolve_relative_path (fs : LocalBinaryDbFs) (path : string) : result BinaryDbErrorKind PathBuf :=
  _ ← ensure_admitted fs;
  rel ← validate_store_relative_path (components path);
  let declared :=
    match extension rel with
    | Some "bin"%string => declared_bin_paths fs
    | Some "idx"%string => declared_index_paths fs
    | _ => None
    end in
  match declared with
  | Some paths => _ ← fail_if (negb (bool_decide (path ∈ paths))) InvalidDomainData; Ok rel
  | None => Ok rel
  end.

(** [file_path_for_binary_record], [file_path_for_payload] and
    [file_path_for_index] *)
Definition file_path_for (fs : LocalBinaryDbFs) (path : string) : result BinaryDbErrorKind PathBuf :=
  rel ← resolve_relative_path fs path; Ok (join (authority_root fs) rel).

Definition read_u32_le (data : bytes) : result BinaryDbErrorKind N :=
  _ ← fail_if (negb (Nat.eqb (length data) 4)) Corruption; Ok (from_le_bytes data).

Definition ensure_parent_directory (path : PathBuf) : db unit := io (create_parent_dirs path).

Definition read_layout_id (path : PathBuf) : db N :=
  header ← io (read_range path 0 BIN_FILE_HEADER_BYTES); lift (read_u32_le header).

(** The number of records of a file that is well formed. *)
Definition ensure_binary_file_valid (path : PathBuf) (expected_layout_id record_size : N) : db N :=
  len ← io (metadata_len path);
  len ← lift (ok_or len MissingData);
  _ ← require (BIN_FILE_HEADER_BYTES <=? len)%N Corruption;
  _ ← require (negb (record_size =? 0)%N) InvalidDomainData;
  layout ← read_layout_id path;
  _ ← require (layout =? expected_layout_id)%N LayoutMismatch;
  let payload_size := (len - BIN_FILE_HEADER_BYTES)%N in
  _ ← require (payload_size mod record_size =? 0)%N Corruption;
  mret (payload_size / record_size)%N.

Definition layout_id (fs : LocalBinaryDbFs) (file : BinaryFileId) : db N :=
  path ← lift (file_path_for fs (relative_path file));
  len ← io (metadata_len path);
  len ← lift (ok_or len MissingData);
  _ ← require (BIN_FILE_HEADER_BYTES <=? len)%N Corruption;
  read_layout_id path.

Definition record_count (fs : LocalBinaryDbFs) (file : BinaryFileId) : db N :=
  path ← lift (file_path_for fs (relative_path file));
  len ← io (metadata_len path);
  match len with
  | None => mret 0%N
  | Some _ =>
      count ← ensure_binary_file_valid path (file_layout_id file) (record_size file);
      _ ← require (count <=? u32_max)%N Corruption;
      mret count
  end.

Definition record_offset (file : BinaryFileId) (record_index : N) : N := (BIN_FILE_HEADER_BYTES + record_index * record_size file)%N.

Definition read_record (fs : LocalBinaryDbFs) (file : BinaryFileId) (record_index : N) : db bytes :=
  path ← lift (file_path_for fs (relative_path file));
  count ← record_count fs file;
  _ ← require (record_index <? count)%N MissingData;
  io (read_range path (record_offset file record_index) (record_size file)).

(** Writing the header of a new file, which must land at offset 0. *)
Definition write_layout_header (path : PathBuf) (layout : N) : db N :=
  header_offset ← io (append_bytes path (to_le_bytes 4 layout));
  _ ← require (header_offset =? 0)%N Corruption;
  mret BIN_FILE_HEADER_BYTES.

(** Appending where the caller computed the end of the file to be. *)
Definition append_at (path : PathBuf) (append_offset : N) (data : bytes) : db unit :=
  actual_offset ← io (append_bytes path data);
  require (actual_offset =? append_offset)%N Corruption.

Definition append_record (fs : LocalBinaryDbFs) (file : BinaryFileId) (record : bytes) (write : BinaryWriteContext) : db N :=
  _ ← lift (ensure_authorized_path write (relative_path file));
  _ ← require (N.of_nat (length record) =? record_size file)%N InvalidDomainData;
  path ← lift (file_path_for fs (relative_path file));
  _ ← ensure_parent_directory path;
  len ← io (metadata_len path);
  index ← match len with
          | Some len => if (BIN_FILE_HEADER_BYTES <=? len)%N then record_count fs file else mret 0%N
          | None => mret 0%N
          end;
  append_offset ←
    match len with
    | None | Some 0%N => write_layout_header path (file_layout_id file)
    | Some len =>
        _ ← require (BIN_FILE_HEADER_BYTES <=? len)%N Corruption;
        _ ← ensure_binary_file_valid path (file_layout_id file) (record_size file);
        mret len
    end;
  _ ← append_at path append_offset record;
  mret index.

Definition append_records (fs : LocalBinaryDbFs) (file : BinaryFileId) (records : bytes) (write : BinaryWriteContext) : db (N * N) :=
  _ ← lift (ensure_authorized_path write (relative_path file));
  _ ← require (negb (record_size file =? 0)%N) InvalidDomainData;
  let total := N.of_nat (length records) in
  _ ← require (total mod record_size file =? 0)%N InvalidDomainData;
  let batch_count := (total / record_size file)%N in
  _ ← require (batch_count <=? u32_max)%N InvalidDomainData;
  if (batch_count =? 0)%N then count ← record_count fs file; mret (count, 0%N)
  else
    path ← lift (file_path_for fs (relative_path file));
    _ ← ensure_parent_directory path;
    len ← io (metadata_len path);
    '(start_index, append_offset, initialize) ←
      match len with
      | None | Some 0%N => mret (0%N, BIN_FILE_HEADER_BYTES, true)
      | Some len =>
          _ ← require (BIN_FILE_HEADER_BYTES <=? len)%N Corruption;
          count ← ensure_binary_file_valid path (file_layout_id file) (record_size file);
          _ ← require (count <=? u32_max)%N Corruption;
          mret (count, len, false)
      end;
    _ ← require (start_index + batch_count <=? u32_max)%N InvalidDomainData;
    _ ← (if initialize : bool then write_layout_header path (file_layout_id file) ≫= fun _ => mret tt else mret tt);
    _ ← append_at path append_offset records;
    mret (start_index, batch_count).

Definition overwrite_record (fs : LocalBinaryDbFs) (file : BinaryFileId) (record_index : N) (record : bytes)
  (write : BinaryWriteContext) : db unit :=
  _ ← lift (ensure_authorized_path write (relative_path file));
  _ ← require (N.of_nat (length record) =? record_size file)%N InvalidDomainData;
  path ← lift (file_path_for fs (relative_path file));
  count ← record_count fs file;
  _ ← require (record_index <? count)%N MissingData;
  _ ← require (record_offset file record_index <=? usize_max)%N InvalidDomainData;
  io (overwrite_range path (record_offset file record_index) record).

Definition overwrite_record_marker (fs : LocalBinaryDbFs) (file : BinaryFileId) (record_index : N) (marker : Byte.byte)
  (write : BinaryWriteContext) : db unit :=
  _ ← lift (ensure_authorized_path write (relative_path file));
  _ ← require (negb (record_size file =? 0)%N) MissingData;
  count ← record_count fs file;
  _ ← require (record_index <? count)%N MissingData;
  path ← lift (file_path_for fs (relative_path file));
  io (overwrite_range path (record_offset file record_index) [marker]).

(** ** Payload files *)

Definition validate_payload_file_layout (path : PathBuf) (expected_layout_id : N) : db N :=
  len ← io (metadata_len path);
  len ← lift (ok_or len MissingData);
  _ ← require (BIN_FILE_HEADER_BYTES <=? len)%N Corruption;
  header ← io (read_range path 0 BIN_FILE_HEADER_BYTES);
  layout ← lift (read_u32_le header);
  _ ← require (layout =? expected_layout_id)%N LayoutMismatch;
  mret len.

Definition read_payload (fs : LocalBinaryDbFs) (file : BinaryPayloadFileId) (offset len : N) : db bytes :=
  path ← lift (file_path_for fs (payload_path file));
  file_len ← validate_payload_file_layout path (payload_layout_id file);
  _ ← require (BIN_FILE_HEADER_BYTES <=? offset)%N MissingData;
  _ ← require ((offset + len <=? usize_max) && (offset + len <=? file_len))%N MissingData;
  io (read_range path offset len).

Definition append_payload (fs : LocalBinaryDbFs) (file : BinaryPayloadFileId) (data : bytes) (write : BinaryWriteContext) : db PayloadRange :=
  _ ← lift (ensure_authorized_path write (payload_path file));
  _ ← require (negb (is_some (declared_bin_paths fs) && Nat.eqb (length data) 0)) InvalidDomainData;
  path ← lift (file_path_for fs (payload_path file));
  _ ← ensure_parent_directory path;
  len ← io (metadata_len path);
  offset ←
    match len with
    | None | Some 0%N => write_layout_header path (payload_layout_id file)
    | Some len =>
        _ ← require (BIN_FILE_HEADER_BYTES <=? len)%N Corruption;
        validate_payload_file_layout path (payload_layout_id file)
    end;
  _ ← append_at path offset data;
  _ ← require (N.of_nat (length data) <=? u32_max)%N Other;
  mret (mkPayloadRange offset (N.of_nat (length data))).

(** ** Lemmas *)

Lemma bind_lift {A B} (r : result BinaryDbErrorKind A) (k : A -> db B) a s : r = Ok a -> (lift r ≫= k) s = k a s.
Proof. by intros ->. Qed.

Lemma bind_require {B} b kind (k : unit -> db B) s : b = true -> (require b kind ≫= k) s = k tt s.
Proof. by intros ->. Qed.

Lemma bind_io {A B} (m : file_io A) (k : A -> db B) s a s' : m s = (Ok a, s') -> (io m ≫= k) s = k a s'.
Proof. intros H. apply bind_run. unfold io, map_error. by rewrite H. Qed.

Lemma write_header_run {du : gmap PathBuf bytes} path layout d : default [] (d !! path) = [] ->
  write_layout_header path layout (mkIo du d []) = (Ok 4%N, mkIo du (<[path := to_le_bytes 4 layout]> d) []).
Proof.
  intros Hd. unfold write_layout_header. erewrite bind_io by apply append_bytes_works. rewrite Hd. by rewrite bind_require.
Qed.

Lemma append_at_run {du : gmap PathBuf bytes} path d old data : d !! path = Some old ->
  append_at path (N.of_nat (length old)) data (mkIo du d []) = (Ok tt, mkIo du (<[path := old ++ data]> d) []).
Proof.
  intros Hd. unfold append_at. erewrite bind_io by apply append_bytes_works. rewrite Hd. cbn [default from_option id].
  unfold require. by rewrite N.eqb_refl.
Qed.

(** ** Effects, whatever fails *)

Create HintDb effects.
#[export] Hint Resolve preserves_append_bytes preserves_overwrite_range : effects.

(** Walks through an operation; what is left are the steps that write. *)
Ltac effects :=
  repeat match goal with
  | |- preserves _ (lift _ ≫= _) => apply preserves_bind_lift; [apply _|intros ? ?]
  | |- preserves _ (_ ≫= _) => apply preserves_bind; [apply _| |intros ?]
  | |- preserves _ (mret _) => apply preserves_ret; apply _
  | |- preserves _ (lift _) => apply preserves_lift; apply _
  | |- preserves _ (require _ _) => apply preserves_lift; apply _
  | |- preserves _ (io _) => apply preserves_map_error
  | |- preserves _ (query _) => apply preserves_query; apply _
  | |- preserves _ (match ?x with _ => _ end) => destruct x
  | |- preserves _ (let _ := _ in _) => cbv zeta
  | |- preserves _ _ => solve [eauto with effects typeclass_instances]
  end.

Lemma effect_metadata R `{!OnDisk R} path : preserves R (metadata_len path).
Proof. by apply preserves_query. Qed.
Lemma effect_read_range R `{!OnDisk R} path offset len : preserves R (read_range path offset len).
Proof. by apply preserves_query. Qed.
Lemma effect_parent R `{!OnDisk R} path : preserves R (ensure_parent_directory path).
Proof. by apply preserves_map_error, preserves_query. Qed.
#[export] Hint Resolve effect_metadata effect_read_range effect_parent : effects.

Lemma effect_valid R `{!OnDisk R} path layout size : preserves R (ensure_binary_file_valid path layout size).
Proof. unfold ensure_binary_file_valid, read_layout_id. effects. Qed.
#[export] Hint Resolve effect_valid : effects.
Lemma effect_count R `{!OnDisk R} fs file : preserves R (record_count fs file).
Proof. unfold record_count. effects. Qed.
#[export] Hint Resolve effect_count : effects.
Lemma effect_read_record R `{!OnDisk R} fs file i : preserves R (read_record fs file i).
Proof. unfold read_record. effects. Qed.
Lemma effect_payload_layout R `{!OnDisk R} path layout : preserves R (validate_payload_file_layout path layout).
Proof. unfold validate_payload_file_layout. effects. Qed.
#[export] Hint Resolve effect_read_record effect_payload_layout : effects.

Lemma effect_header path layout : preserves (only_appends path) (write_layout_header path layout).
Proof. unfold write_layout_header. effects. Qed.
Lemma effect_append_at path offset data : preserves (only_appends path) (append_at path offset data).
Proof. unfold append_at. effects. Qed.
#[export] Hint Resolve effect_header effect_append_at : effects.

(** The file that an identity resolves to. *)
Ltac at_path Hp := match goal with H : file_path_for _ _ = Ok _ |- _ => rewrite (Hp _ H); effects end.

Lemma effect_append_record fs file record write path : (forall q, file_path_for fs (relative_path file) = Ok q -> q = path) ->
  preserves (only_appends path) (append_record fs file record write).
Proof. intros Hp. unfold append_record. effects. all: at_path Hp. Qed.

Lemma effect_append_records fs file records write path : (forall q, file_path_for fs (relative_path file) = Ok q -> q = path) ->
  preserves (only_appends path) (append_records fs file records write).
Proof. intros Hp. unfold append_records. effects. all: at_path Hp. Qed.

Lemma effect_append_payload fs file data write path : (forall q, file_path_for fs (payload_path file) = Ok q -> q = path) ->
  preserves (only_appends path) (append_payload fs file data write).
Proof. intros Hp. unfold append_payload. effects. all: at_path Hp. Qed.

(** An overwrite touches only its row; the length was checked before. *)
Lemma effect_overwrite_record fs file i record write path : (forall q, file_path_for fs (relative_path file) = Ok q -> q = path) ->
  preserves (only_rewrites path (N.to_nat (record_offset file i)) (N.to_nat (record_size file))) (overwrite_record fs file i record write).
Proof.
  intros Hp. unfold overwrite_record. apply preserves_bind_lift; [apply _|]. intros _ _. unfold require at 1.
  apply preserves_bind_lift; [apply _|]. intros _ Hlen%fail_if_Ok%negb_false_iff%N.eqb_eq.
  replace (N.to_nat (record_size file)) with (length record) by lia. effects. at_path Hp.
Qed.

Lemma io_Ok {A} (m : file_io A) s a s' : io m s = (Ok a, s') <-> m s = (Ok a, s').
Proof. apply map_error_Ok. Qed.

Lemma lift_Ok {S E A} (r : result E A) (s s' : S) a : lift r s = (Ok a, s') <-> r = Ok a /\ s' = s.
Proof. unfold lift. split; [by intros [= -> ->]|by intros [-> ->]]. Qed.

Lemma require_Ok {S} b kind (s s' : S) u : require b kind s = (Ok u, s') <-> b = true /\ s' = s.
Proof. unfold require. by rewrite lift_Ok, fail_if_Ok, negb_false_iff. Qed.

(** What a successful read and a successful overwrite did, whatever failed
    before. *)
Lemma read_record_Ok fs file i s b s' : read_record fs file i s = (Ok b, s') ->
  exists path data, file_path_for fs (relative_path file) = Ok path /\ disk s !! path = Some data /\
    N.to_nat (record_offset file i) + N.to_nat (record_size file) <= length data /\
    b = take (N.to_nat (record_size file)) (drop (N.to_nat (record_offset file i)) data) /\ disk s' = disk s.
Proof.
  intros H. unfold read_record in H. apply bind_run_Ok in H as (path & s1 & [Hp ->]%lift_Ok & H).
  apply bind_run_Ok in H as (count & s2 & Hc & H). pose proof (effect_count same_disk fs file s) as Hsame. rewrite Hc in Hsame.
  apply bind_run_Ok in H as (u & s3 & [_ ->]%require_Ok & H). apply io_Ok, query_Ok in H as [H Hd].
  cbn in Hsame. unfold same_disk in Hsame. rewrite Hsame in *. apply bind_Ok in H as (data & Hdata%ok_or_Ok & H).
  apply bind_Ok in H as (u' & Hu%fail_if_Ok%N.ltb_ge & [= <-]). exists path, data. split_and!; [done|done|lia|done|congruence].
Qed.

Lemma overwrite_record_Ok fs file i record write s u s' : overwrite_record fs file i record write s = (Ok u, s') ->
  exists path data, file_path_for fs (relative_path file) = Ok path /\ disk s !! path = Some data /\
    N.of_nat (length record) = record_size file /\ N.to_nat (record_offset file i) + length record <= length data /\
    disk s' = <[path := splice_at data (N.to_nat (record_offset file i)) record]> (disk s).
Proof.
  intros H. unfold overwrite_record in H. apply bind_run_Ok in H as (u1 & s1 & [_ ->]%lift_Ok & H).
  apply bind_run_Ok in H as (u2 & s2 & [Hlen%N.eqb_eq ->]%require_Ok & H). apply bind_run_Ok in H as (path & s3 & [Hp ->]%lift_Ok & H).
  apply bind_run_Ok in H as (count & s4 & Hc & H). pose proof (effect_count same_disk fs file s) as Hsame. rewrite Hc in Hsame.
  apply bind_run_Ok in H as (u3 & s5 & [_ ->]%require_Ok & H). apply bind_run_Ok in H as (u4 & s6 & [_ ->]%require_Ok & H).
  apply io_Ok, update_Ok in H. cbn in Hsame. unfold same_disk in Hsame. rewrite Hsame in H.
  apply bind_Ok in H as (data & Hdata%ok_or_Ok & H). apply bind_Ok in H as (u5 & Hu%fail_if_Ok%N.ltb_ge & H).
  apply bind_Ok in H as (u6 & Hu'%fail_if_Ok%N.ltb_ge & H). injection H as _ H. exists path, data. split_and!; [done|done|done|lia|done].
Qed.

(** The path under the authority root does not depend on the declarations. *)
Lemma file_path_store_path fs path q : file_path_for fs path = Ok q -> store_path_for (authority_root fs) path = Ok q.
Proof.
  unfold file_path_for, resolve_relative_path, store_path_for. intros H. apply bind_Ok in H as (rel & Hrel & [= <-]).
  apply bind_Ok in Hrel as (u & _ & Hrel). apply bind_Ok in Hrel as (rel' & Hval & Hrel). rewrite Hval. cbn [mbind result_bind].
  cbv zeta in Hrel. destruct (match extension rel' with Some "bin"%string => _ | Some "idx"%string => _ | _ => None end) as [paths|].
  - by apply bind_Ok in Hrel as (u' & _ & [= <-]).
  - by injection Hrel as <-.
Qed.
