(* ===== verification/BinaryLocks.v ===== *)
(** * Command and read locks

    [ait-core/src/binary_db/locks.rs] and the lock tables of [identities.rs]:
    which locks a command or a read transaction takes, and what happens when
    several of them run at the same time. A program that takes locks is a client
    that advances by single calls; a system of clients advances by events. *)

From Stdlib Require Import NArith Lia.
From Stdlib Require Strings.Byte.
From stdpp Require Import base numbers strings list sorting.
From S2P Require Import Prelude FileStore BinaryDb.

(** ** Lock tables *)

Definition all_write_lock_file_names : list string :=
  ["content.write.lock"; "gc.write.lock"; "global.write.lock"; "plan.write.lock"; "remote-content.write.lock";
   "remote-plan.write.lock"; "snapshot.write.lock"]%string.

Definition command_lock_file_names (scope : BinaryDbCommandScope) : list string :=
  match scope with
  | General => all_write_lock_file_names
  | PlanSyncLocal => ["content.write.lock"; "plan.write.lock"]%string
  | PlanSyncLocalPlan => ["plan.write.lock"]%string
  | PlanSyncRemote => ["remote-content.write.lock"; "remote-plan.write.lock"]%string
  | RemoteSyncLocalImport => ["content.write.lock"]%string
  | PlanImport => ["content.write.lock"; "plan.write.lock"]%string
  | SnapshotWrite => ["content.write.lock"; "snapshot.write.lock"]%string
  | ContentWrite => ["content.write.lock"]%string
  | Gc => ["content.write.lock"; "gc.write.lock"; "plan.write.lock"; "snapshot.write.lock"]%string
  end.

Definition conflicts_with (scope other : BinaryDbCommandScope) : bool :=
  existsb (fun left => bool_decide (left ∈ command_lock_file_names other)) (command_lock_file_names scope).

Inductive BinaryDbReadScope : Type := ReadAll | ReadContent | ReadPlan | ReadContentAndPlan.

Definition read_lock_file_names (scope : BinaryDbReadScope) : list string :=
  match scope with
  | ReadAll => all_write_lock_file_names
  | ReadContent => ["content.write.lock"; "remote-content.write.lock"]%string
  | ReadPlan => ["plan.write.lock"; "remote-plan.write.lock"]%string
  | ReadContentAndPlan => ["content.write.lock"; "plan.write.lock"; "remote-content.write.lock"; "remote-plan.write.lock"]%string
  end.

Definition lock_root (authority_root : PathBuf) : PathBuf :=
  join (join authority_root [Normal ".locks"%string]) [Normal "binary-db"%string].
Definition lock_paths (authority_root : PathBuf) (names : list string) : list PathBuf :=
  map (fun name => join (lock_root authority_root) [Normal name]) names.

(** ** Clients *)

Inductive FileIoLockMode : Type := Shared | Exclusive.
Inductive FileIoLockWait : Type := Blocking | Nonblocking.

(** Why a client gave its locks back: its work was done, another client was in
    the way, or a call failed. *)
Inductive lock_outcome : Type := Completed | Busy | Failed.

(** A client takes its locks one after the other, works, and gives them back
    one after the other; it also gives them back when it cannot have all. *)
Inductive lock_phase : Type := Acquiring | Working | Releasing (o : lock_outcome) | Closed (o : lock_outcome).

Record lock_client : Type := mkClient {
  client_mode : FileIoLockMode;
  client_wait : FileIoLockWait;
  held_paths : list PathBuf;
  wanted_paths : list PathBuf;
  client_phase : lock_phase
}.

#[export] Instance lock_mode_eq_dec : EqDecision FileIoLockMode.
Proof. solve_decision. Defined.
#[export] Instance lock_wait_eq_dec : EqDecision FileIoLockWait.
Proof. solve_decision. Defined.

(** [BinaryDbCommandLockSet::open_and_lock] and
    [BinaryDbReadLockSet::try_acquire_for_scope]. A reader tries each lock until
    a deadline: attempts before the deadline change nothing, so that it is
    modelled as a client that may be refused when a lock is taken. *)
Definition open_and_lock (authority_root : PathBuf) (scope : BinaryDbCommandScope) (nonblocking : bool) : lock_client :=
  mkClient Exclusive (if nonblocking then Nonblocking else Blocking) [] (lock_paths authority_root (command_lock_file_names scope)) Acquiring.
Definition try_acquire_for_scope (authority_root : PathBuf) (read_scope : BinaryDbReadScope) : lock_client :=
  mkClient Shared Nonblocking [] (lock_paths authority_root (read_lock_file_names read_scope)) Acquiring.

(** ** Systems *)

Inductive lock_event : Type :=
| Acquire (i : nat)
| Refuse (i : nat)
| FailCall (i : nat)
| Acquired (i : nat)
| StartRelease (i : nat)
| Unlock (i : nat)
| Close (i : nat).

(** The lock of [path] may be taken in [mode] beside what [other] holds. *)
Definition compatible (mode : FileIoLockMode) (path : PathBuf) (other : lock_client) : bool :=
  negb (bool_decide (path ∈ held_paths other)) || bool_decide (mode = Shared) && bool_decide (client_mode other = Shared).

Fixpoint others {A} (i : nat) (l : list A) {struct l} : list A :=
  match l, i with
  | [], _ => []
  | _ :: l, O => l
  | x :: l, S i => x :: others i l
  end.

Definition available (i : nat) (c : lock_client) (path : PathBuf) (sys : list lock_client) : bool :=
  forallb (compatible (client_mode c) path) (others i sys).

Definition set_phase (c : lock_client) (phase : lock_phase) : lock_client :=
  mkClient (client_mode c) (client_wait c) (held_paths c) (wanted_paths c) phase.
Definition take_lock (c : lock_client) (path : PathBuf) (rest : list PathBuf) : lock_client :=
  mkClient (client_mode c) (client_wait c) (held_paths c ++ [path]) rest (client_phase c).
Definition drop_lock (c : lock_client) (rest : list PathBuf) : lock_client :=
  mkClient (client_mode c) (client_wait c) rest (wanted_paths c) (client_phase c).

Definition on_client (i : nat) (sys : list lock_client) (f : lock_client -> option lock_client) : option (list lock_client) :=
  c ← sys !! i; c' ← f c; Some (<[i := c']> sys).

(** One step of a client. A call fails that takes a lock, or one with which a command
    writes who holds a lock that it has taken, the last one included. *)
Definition lock_step (e : lock_event) (sys : list lock_client) : option (list lock_client) :=
  match e with
  | Acquire i => on_client i sys (fun c =>
      match client_phase c, wanted_paths c with
      | Acquiring, path :: rest => if available i c path sys then Some (take_lock c path rest) else None
      | _, _ => None
      end)
  | Refuse i => on_client i sys (fun c =>
      match client_phase c, wanted_paths c, client_wait c with
      | Acquiring, path :: _, Nonblocking => if available i c path sys then None else Some (set_phase c (Releasing Busy))
      | _, _, _ => None
      end)
  | FailCall i => on_client i sys (fun c =>
      match client_phase c with
      | Acquiring =>
          if negb (Nat.eqb (length (wanted_paths c)) 0) || bool_decide (client_mode c = Exclusive) then Some (set_phase c (Releasing Failed)) else None
      | _ => None
      end)
  | Acquired i => on_client i sys (fun c =>
      match client_phase c, wanted_paths c with Acquiring, [] => Some (set_phase c Working) | _, _ => None end)
  | StartRelease i => on_client i sys (fun c =>
      match client_phase c with Working => Some (set_phase c (Releasing Completed)) | _ => None end)
  | Unlock i => on_client i sys (fun c =>
      match client_phase c, held_paths c with Releasing _, _ :: rest => Some (drop_lock c rest) | _, _ => None end)
  | Close i => on_client i sys (fun c =>
      match client_phase c, held_paths c with Releasing o, [] => Some (set_phase c (Closed o)) | _, _ => None end)
  end.

(** Progress of a client by itself, not by giving up. *)
Definition proper (e : lock_event) : bool := match e with Refuse _ | FailCall _ => false | _ => true end.

Inductive reachable (init : list lock_client) : list lock_client -> Prop :=
| reach_init : reachable init init
| reach_step sys e sys' : reachable init sys -> lock_step e sys = Some sys' -> reachable init sys'.

(** Whatever happens, [P] comes true, and until then some client can go on. *)
Inductive inevitable (P : list lock_client -> Prop) (sys : list lock_client) : Prop :=
| inevitable_now : P sys -> inevitable P sys
| inevitable_later : (exists e sys', proper e = true /\ lock_step e sys = Some sys') ->
    (forall e sys', lock_step e sys = Some sys' -> inevitable P sys') -> inevitable P sys.

Definition is_client (c : lock_client) : Prop :=
  exists root, (exists scope nonblocking, c = open_and_lock root scope nonblocking) \/ (exists scope, c = try_acquire_for_scope root scope).
Definition is_closed (c : lock_client) : bool := match client_phase c with Closed _ => true | _ => false end.

(** ** Lemmas *)

Lemma on_client_Some i sys f sys' : on_client i sys f = Some sys' <-> exists c c', sys !! i = Some c /\ f c = Some c' /\ sys' = <[i := c']> sys.
Proof.
  unfold on_client. split.
  - intros (c & Hc & H)%bind_Some. apply bind_Some in H as (c' & Hf & [= <-]). by exists c, c'.
  - intros (c & c' & -> & Hf & ->). cbn. by rewrite Hf.
Qed.

Lemma elem_of_others {A} i (l : list A) x : x ∈ others i l <-> exists j, j <> i /\ l !! j = Some x.
Proof.
  revert i. induction l as [|y l IH]; intros i; [change (others i []) with (@nil A); split; [by intros ?%elem_of_nil|by intros (j & _ & [=])]|]. destruct i as [|i]; cbn [others].
  - rewrite list_elem_of_lookup. split.
    + intros [j Hj]. by exists (S j).
    + intros ([|j] & Hne & Hj); [done|by exists j].
  - rewrite elem_of_cons, IH. split.
    + intros [->|(j & Hne & Hj)]; [by exists 0|exists (S j); split; [lia|done]].
    + intros ([|j] & Hne & Hj); [left; by injection Hj|right; exists j; split; [lia|done]].
Qed.

(** What one client does in a step, whichever client it is. *)
Inductive moves (free : PathBuf -> bool) (c : lock_client) : lock_client -> bool -> Prop :=
| move_take path rest : client_phase c = Acquiring -> wanted_paths c = path :: rest -> free path = true -> moves free c (take_lock c path rest) true
| move_refuse path rest : client_phase c = Acquiring -> wanted_paths c = path :: rest -> client_wait c = Nonblocking ->
    moves free c (set_phase c (Releasing Busy)) false
| move_fail : client_phase c = Acquiring -> moves free c (set_phase c (Releasing Failed)) false
| move_acquired : client_phase c = Acquiring -> wanted_paths c = [] -> moves free c (set_phase c Working) true
| move_done : client_phase c = Working -> moves free c (set_phase c (Releasing Completed)) true
| move_unlock o path rest : client_phase c = Releasing o -> held_paths c = path :: rest -> moves free c (drop_lock c rest) true
| move_close o : client_phase c = Releasing o -> held_paths c = [] -> moves free c (set_phase c (Closed o)) true.

Lemma lock_step_moves e sys sys' : lock_step e sys = Some sys' ->
  exists i c c', sys !! i = Some c /\ sys' = <[i := c']> sys /\ moves (fun p => available i c p sys) c c' (proper e).
Proof.
  destruct e as [i|i|i|i|i|i|i]; cbn [lock_step proper]; intros (c & c' & Hc & Hf & ->)%on_client_Some; exists i, c, c'; (split; [done|split; [done|]]);
    destruct (client_phase c) eqn:Hp; try discriminate;
    try (destruct (wanted_paths c) as [|path rest] eqn:Hw; try discriminate); try (destruct (client_wait c) eqn:Hwait; try discriminate);
    try (destruct (held_paths c) as [|path' rest'] eqn:Hh; try discriminate); try (destruct (available i c path sys) eqn:Ha; try discriminate);
    try (destruct (_ || _); try discriminate);
    injection Hf as <-; by econstructor.
Qed.

Lemma moves_lock_step i c c' sys b : sys !! i = Some c -> moves (fun p => available i c p sys) c c' b -> b = true ->
  exists e, proper e = true /\ lock_step e sys = Some (<[i := c']> sys).
Proof.
  intros Hc Hm Hb. destruct Hm as [path rest Hp Hw Ha| | |Hp Hw|Hp|o path rest Hp Hh|o Hp Hh]; try discriminate;
    [exists (Acquire i)|exists (Acquired i)|exists (StartRelease i)|exists (Unlock i)|exists (Close i)]; (split; [done|]); apply on_client_Some;
    exists c; eexists; (split; [done|]); rewrite Hp, ?Hw, ?Hh, ?Ha; done.
Qed.

(** *** Mutual exclusion *)

Definition exclusive (sys : list lock_client) : Prop :=
  forall i j ci cj path, i <> j -> sys !! i = Some ci -> sys !! j = Some cj -> path ∈ held_paths ci -> path ∈ held_paths cj ->
    client_mode ci = Shared /\ client_mode cj = Shared.

Lemma moves_mode free c c' b : moves free c c' b -> client_mode c' = client_mode c /\ client_wait c' = client_wait c.
Proof. by destruct 1. Qed.

Lemma moves_held free c c' b path : moves free c c' b -> path ∈ held_paths c' -> path ∈ held_paths c \/ free path = true.
Proof.
  destruct 1 as [p rest Hp Hw Ha| | | | |o p rest Hp Hh|]; cbn; try (by left).
  - rewrite elem_of_app, list_elem_of_singleton. intros [?| ->]; [by left|by right].
  - rewrite Hh. intros H. left. by right.
Qed.

Lemma available_spec i c path sys j cj : available i c path sys = true -> j <> i -> sys !! j = Some cj -> path ∈ held_paths cj ->
  client_mode c = Shared /\ client_mode cj = Shared.
Proof.
  unfold available. rewrite forallb_forall. intros H Hne Hj Hin. specialize (H cj). rewrite <- list_elem_of_In, elem_of_others in H.
  specialize (H (ex_intro _ j (conj Hne Hj))). unfold compatible in H. rewrite bool_decide_eq_true_2 in H by done. cbn in H.
  apply andb_true_iff in H as [H1%bool_decide_eq_true_1 H2%bool_decide_eq_true_1]. done.
Qed.

Lemma lock_step_exclusive e sys sys' : lock_step e sys = Some sys' -> exclusive sys -> exclusive sys'.
Proof.
  intros (k & c & c' & Hc & -> & Hm)%lock_step_moves Hex. pose proof (moves_mode _ _ _ _ Hm) as [Hmode _].
  pose proof (lookup_lt_Some _ _ _ Hc) as Hlen.
  assert (forall j cj path, j <> k -> sys !! j = Some cj -> path ∈ held_paths c' -> path ∈ held_paths cj -> client_mode c' = Shared /\ client_mode cj = Shared) as H.
  { intros j cj path Hne Hj Hin Hinj. rewrite Hmode. destruct (moves_held _ _ _ _ _ Hm Hin) as [Hold|Hfree].
    - by apply (Hex k j c cj path).
    - by apply (available_spec k c path sys j cj). }
  intros i j ci cj path Hne Hi Hj Hini Hinj. destruct (decide (i = k)) as [->|Hik]; [|destruct (decide (j = k)) as [->|Hjk]].
  - rewrite list_lookup_insert_eq in Hi by done. injection Hi as <-. rewrite list_lookup_insert_ne in Hj by done. by apply (H j cj path).
  - rewrite list_lookup_insert_eq in Hj by done. injection Hj as <-. rewrite list_lookup_insert_ne in Hi by done.
    apply and_comm. by apply (H i ci path).
  - rewrite list_lookup_insert_ne in Hi, Hj by done. by apply (Hex i j ci cj path).
Qed.

(** *** What a client has become since it was opened *)

Record evolves (c0 c : lock_client) : Prop := {
  ev_mode : client_mode c = client_mode c0;
  ev_wait : client_wait c = client_wait c0;
  ev_locks : match client_phase c with
    | Acquiring => held_paths c ++ wanted_paths c = wanted_paths c0
    | Working => held_paths c = wanted_paths c0
    | Releasing _ => True
    | Closed _ => held_paths c = []
    end;
  ev_busy : client_phase c = Releasing Busy \/ client_phase c = Closed Busy -> client_wait c = Nonblocking
}.

Lemma evolves_init c : is_client c -> evolves c c.
Proof. by intros (root & [(scope & nonblocking & ->)|(scope & ->)]); split; try done; intros [?|?]. Qed.

Lemma evolves_moves free c0 c c' b : moves free c c' b -> evolves c0 c -> evolves c0 c'.
Proof.
  intros Hm [Hmode Hwait Hlocks Hbusy]. destruct Hm as [path rest Hp Hw Ha|path rest Hp Hw Hn|Hp|Hp Hw|Hp|o path rest Hp Hh|o Hp Hh];
    rewrite Hp in Hlocks; split; cbn; try done; try (by intros [?|?]).
  - rewrite Hp. by rewrite <- app_assoc, <- Hlocks, Hw.
  - by rewrite Hw, app_nil_r in Hlocks.
  - by rewrite Hp.
  - intros [?|[= ->]]; [done|]. apply Hbusy. by left.
Qed.

Definition evolved (init sys : list lock_client) : Prop := Forall2 evolves init sys /\ exclusive sys.

Lemma reachable_evolved init sys : Forall is_client init -> reachable init sys -> evolved init sys.
Proof.
  intros Hinit. induction 1 as [|sys e sys' _ [IH Hex] Hstep].
  - split.
    + apply Forall2_same_length_lookup_2; [done|]. intros i c c' Hc Hc'. rewrite Hc in Hc'. injection Hc' as <-.
      apply evolves_init. by apply (Forall_lookup_1 _ _ _ _ Hinit Hc).
    + intros i j ci cj path _ Hi _ Hin. pose proof (Forall_lookup_1 _ _ _ _ Hinit Hi) as (root & [(scope & nb & ->)|(scope & ->)]);
        cbn in Hin; by apply elem_of_nil in Hin.
  - split; [|by apply (lock_step_exclusive e sys)]. apply lock_step_moves in Hstep as (i & c & c' & Hc & -> & Hm).
    destruct (Forall2_lookup_r _ _ _ _ _ IH Hc) as (c0 & Hc0 & Hev). rewrite <- (list_insert_id init i c0 Hc0).
    apply Forall2_insert; [done|]. by apply (evolves_moves _ _ c c' _ Hm).
Qed.

(** ** Isolation *)

(** The families of files that a reader looks at. *)
Definition reads_family (scope : BinaryDbReadScope) (family : BinaryDbFileFamily) : bool :=
  match scope, family with
  | ReadAll, _ | ReadContentAndPlan, _ | ReadContent, ContentFamily | ReadPlan, PlanFamily => true
  | ReadContent, PlanFamily | ReadPlan, ContentFamily => false
  end.

Definition is_plan_sync_remote (scope : BinaryDbCommandScope) : bool := match scope with PlanSyncRemote => true | _ => false end.

(** Two commands that may write the same family share a lock, unless exactly one
    of them is the synchronisation of a remote authority. *)
Lemma writers_share scope other family : authorizes_file_family scope family = true -> authorizes_file_family other family = true ->
  xorb (is_plan_sync_remote scope) (is_plan_sync_remote other) = false -> exists name, name ∈ command_lock_file_names scope /\ name ∈ command_lock_file_names other.
Proof.
  intros H1 H2 H3. assert (Exists (fun name => name ∈ command_lock_file_names other) (command_lock_file_names scope)) as H.
  { revert H1 H2 H3. destruct scope, other, family; intros; try discriminate; apply (bool_decide_unpack _); vm_compute; exact I. }
  apply Exists_exists in H as (name & ? & ?). by exists name.
Qed.

Lemma reader_writer_share rscope scope family : reads_family rscope family = true -> authorizes_file_family scope family = true ->
  exists name, name ∈ read_lock_file_names rscope /\ name ∈ command_lock_file_names scope.
Proof.
  intros H1 H2. assert (Exists (fun name => name ∈ command_lock_file_names scope) (read_lock_file_names rscope)) as H.
  { revert H1 H2. destruct rscope, scope, family; intros; try discriminate; apply (bool_decide_unpack _); vm_compute; exact I. }
  apply Exists_exists in H as (name & ? & ?). by exists name.
Qed.

Lemma elem_of_lock_paths root names name : name ∈ names -> join (lock_root root) [Normal name] ∈ lock_paths root names.
Proof. intros H. apply list_elem_of_fmap. by exists name. Qed.

(** C25. Readers and writers do not meet: in every state that a system of
    commands and read transactions can reach, whatever is interleaved, refused
    or fails, a command that holds its locks excludes, on the same authority,
    every reader of a family of files that the command may write, and every
    other command that may write that family - except that the synchronisation
    of a remote authority is only excluded by its like and by general commands. *)
Theorem locks_isolate init sys root i j scope nonblocking ci cj : Forall is_client init -> reachable init sys -> i <> j ->
  init !! i = Some (open_and_lock root scope nonblocking) -> sys !! i = Some ci -> client_phase ci = Working ->
  sys !! j = Some cj -> client_phase cj = Working ->
  (forall rscope family, init !! j = Some (try_acquire_for_scope root rscope) -> reads_family rscope family = true ->
    authorizes_file_family scope family = false) /\
  (forall other nonblocking' family, init !! j = Some (open_and_lock root other nonblocking') ->
    authorizes_file_family scope family = true -> authorizes_file_family other family = true ->
    xorb (is_plan_sync_remote scope) (is_plan_sync_remote other) = true /\ conflicts_with scope other = false).
Proof.
  intros Hinit Hreach Hne Hi Hci Hwi Hcj Hwj. destruct (reachable_evolved init sys Hinit Hreach) as [Hall Hex].
  assert (forall k c0 c, init !! k = Some c0 -> sys !! k = Some c -> client_phase c = Working ->
    held_paths c = wanted_paths c0 /\ client_mode c = client_mode c0) as Hheld.
  { intros k c0 c H0 Hc Hw. pose proof (Forall2_lookup_lr _ _ _ _ _ _ Hall H0 Hc) as [? _ Hl _]. by rewrite Hw in Hl. }
  destruct (Hheld i _ ci Hi Hci Hwi) as [Hhi Hmi]. cbn in Hhi, Hmi.
  assert (forall names name c0, init !! j = Some c0 -> wanted_paths c0 = lock_paths root names ->
    name ∈ command_lock_file_names scope -> name ∈ names -> False) as Hclash.
  { intros names name c0 Hj Hw Hin Hin'. destruct (Hheld j _ cj Hj Hcj Hwj) as [Hhj _].
    destruct (Hex i j ci cj (join (lock_root root) [Normal name]) Hne Hci Hcj) as [Hs _]; [| |congruence].
    - rewrite Hhi. by apply elem_of_lock_paths.
    - rewrite Hhj, Hw. by apply elem_of_lock_paths. }
  split.
  - intros rscope family Hj Hr. apply not_true_is_false. intros Ha.
    destruct (reader_writer_share rscope scope family Hr Ha) as (name & ? & ?). by eapply Hclash.
  - intros other nb family Hj Ha Hb. split.
    + apply not_false_is_true. intros Hx. destruct (writers_share scope other family Ha Hb Hx) as (name & ? & ?). by eapply Hclash.
    + apply not_true_is_false. unfold conflicts_with. rewrite existsb_exists. intros (name & Hin%list_elem_of_In & Hin'%bool_decide_eq_true_1).
      by eapply Hclash.
Qed.

(** ** Progress *)

(** The place of a lock in the order in which every program takes its locks. *)
Definition lock_rank (path : PathBuf) : nat :=
  match list_find (fun name => Some name = file_name path) all_write_lock_file_names with Some (i, _) => i | None => 0 end.

Lemma lock_rank_name root name : lock_rank (join (lock_root root) [Normal name]) =
  match list_find (fun n => Some n = Some name) all_write_lock_file_names with Some (i, _) => i | None => 0 end.
Proof.
  assert (file_name (join (lock_root root) [Normal name]) = Some name) as Hn.
  { unfold join, file_name. destruct (lock_root root); [done|]. change (filter _ [Normal name]) with [Normal name]. by rewrite last_snoc. }
  unfold lock_rank. by rewrite Hn.
Qed.

Lemma lock_paths_sorted root names :
  StronglySorted lt (map (fun name => match list_find (fun n => Some n = Some name) all_write_lock_file_names with Some (i, _) => i | None => 0 end) names) ->
  StronglySorted lt (map lock_rank (lock_paths root names)).
Proof.
  intros H. unfold lock_paths. rewrite map_map. erewrite map_ext; [exact H|]. intros name. apply lock_rank_name.
Qed.

Lemma client_sorted c : is_client c -> StronglySorted lt (map lock_rank (wanted_paths c)).
Proof.
  intros (root & [(scope & nb & ->)|(scope & ->)]); cbn [wanted_paths open_and_lock try_acquire_for_scope]; apply lock_paths_sorted;
    destruct scope; vm_compute; repeat constructor.
Qed.

(** The work that a client has left. *)
Definition phase_weight (phase : lock_phase) : nat :=
  match phase with Acquiring => 3 | Working => 2 | Releasing _ => 1 | Closed _ => 0 end.
Definition client_weight (c : lock_client) : nat := 2 * length (wanted_paths c) + length (held_paths c) + phase_weight (client_phase c).
Definition system_weight (sys : list lock_client) : nat := sum_list (map client_weight sys).

Lemma moves_weight free c c' b : moves free c c' b -> client_weight c' < client_weight c.
Proof.
  destruct 1 as [path rest Hp Hw Ha|path rest Hp Hw Hn|Hp|Hp Hw|Hp|o path rest Hp Hh|o Hp Hh];
    unfold client_weight; cbn; rewrite ?length_app, ?Hp, ?Hw, ?Hh; cbn; try rewrite Hw; cbn; lia.
Qed.

Lemma system_weight_insert i c c' sys : sys !! i = Some c -> system_weight (<[i := c']> sys) + client_weight c = system_weight sys + client_weight c'.
Proof.
  unfold system_weight. generalize client_weight as weight. intros weight. revert i. induction sys as [|x sys IH]; intros [|i] H; cbn in *; [done|done|injection H as ->; lia|rewrite <- !Nat.add_assoc; f_equal; exact (IH i H)].
Qed.

Lemma lock_step_weight e sys sys' : lock_step e sys = Some sys' -> system_weight sys' < system_weight sys.
Proof.
  intros (i & c & c' & Hc & -> & Hm)%lock_step_moves. pose proof (moves_weight _ _ _ _ Hm). pose proof (system_weight_insert i c c' sys Hc). lia.
Qed.

Lemma list_argmax {A} (P : A -> bool) (f : A -> nat) l : existsb P l = true ->
  exists i x, l !! i = Some x /\ P x = true /\ forall y, y ∈ l -> P y = true -> f y <= f x.
Proof.
  induction l as [|x l IH]; [done|]. cbn [existsb]. intros H. destruct (existsb P l) eqn:Hl.
  - destruct (IH eq_refl) as (i & y & Hi & Hy & Hmax). destruct (P x && (f y <? f x)) eqn:Hx.
    + apply andb_true_iff in Hx as [Hpx Hlt%Nat.ltb_lt]. exists 0, x. split_and!; [done|done|]. intros z [->|Hz]%elem_of_cons Hpz; [done|].
      specialize (Hmax z Hz Hpz). lia.
    + exists (S i), y. split_and!; [done|done|]. intros z [->|Hz]%elem_of_cons Hpz; [|by apply Hmax]. rewrite Hpz in Hx.
      by apply Nat.ltb_ge in Hx.
  - rewrite orb_false_r in H. exists 0, x. split_and!; [done|done|]. intros z [->|Hz]%elem_of_cons Hpz; [done|].
    assert (existsb P l = true) by (apply existsb_exists; exists z; split; [by apply list_elem_of_In|done]). congruence.
Qed.

Definition is_waiting (c : lock_client) : bool := match client_phase c, wanted_paths c with Acquiring, _ :: _ => true | _, _ => false end.
Definition next_rank (c : lock_client) : nat := match wanted_paths c with path :: _ => lock_rank path | [] => 0 end.

(** A client that waits holds only locks before the one it waits for. *)
Lemma waiting_holds_smaller init sys c path : Forall is_client init -> evolved init sys -> c ∈ sys -> is_closed c = false ->
  is_waiting c = true -> path ∈ held_paths c -> lock_rank path < next_rank c.
Proof.
  intros Hinit [Hall _] Hc _ Hw Hin. apply list_elem_of_lookup in Hc as [i Hc]. destruct (Forall2_lookup_r _ _ _ _ _ Hall Hc) as (c0 & Hc0 & [_ _ Hl _]).
  unfold is_waiting in Hw. destruct (client_phase c); try discriminate. destruct (wanted_paths c) as [|p rest] eqn:Hwant; [discriminate|].
  pose proof (client_sorted c0 (Forall_lookup_1 _ _ _ _ Hinit Hc0)) as Hs. rewrite <- Hl, map_app in Hs. unfold next_rank. rewrite Hwant.
  apply list_elem_of_lookup in Hin as [k Hk]. apply list_elem_of_split_length in Hk as (before & after & Hh & _).
  rewrite Hh, !map_app, <- app_assoc in Hs. apply StronglySorted_app in Hs as (_ & _ & Hs). cbn in Hs. apply StronglySorted_inv in Hs as [_ Hs].
  rewrite Forall_forall in Hs. apply Hs. rewrite elem_of_app. right. left.
Qed.

(** The client that waits for the last lock in the order can have it. *)
Lemma system_goes_on init sys : Forall is_client init -> evolved init sys -> forallb is_closed sys = false ->
  exists e sys', proper e = true /\ lock_step e sys = Some sys'.
Proof.
  intros Hinit Hev Hopen.
  assert (existsb (fun c => negb (is_closed c) && negb (is_waiting c)) sys = true \/ forall c, c ∈ sys -> is_closed c = false -> is_waiting c = true) as [Hfree|Hwait].
  { destruct (existsb (fun c => negb (is_closed c) && negb (is_waiting c)) sys) eqn:H; [by left|right]. intros c Hc Hclosed.
    apply not_false_is_true. intros Hw. assert (existsb (fun c => negb (is_closed c) && negb (is_waiting c)) sys = true); [|congruence].
    apply existsb_exists. exists c. split; [by apply list_elem_of_In|]. by rewrite Hclosed, Hw. }
  - apply existsb_exists in Hfree as (c & Hc%list_elem_of_In%list_elem_of_lookup & Hfree). destruct Hc as [i Hc].
    apply andb_true_iff in Hfree as [Hclosed%negb_true_iff Hw%negb_true_iff]. unfold is_closed in Hclosed. unfold is_waiting in Hw.
    assert (exists c', moves (fun p => available i c p sys) c c' true) as [c' Hm].
    { destruct (client_phase c) as [| |o|o] eqn:Hp; [|eexists; by econstructor| |discriminate].
      - destruct (wanted_paths c) eqn:Hwant; [|discriminate]. eexists. by econstructor.
      - destruct (held_paths c) eqn:Hheld; eexists; [eapply move_close|eapply move_unlock]; done. }
    destruct (moves_lock_step i c c' sys true Hc Hm eq_refl) as (e & He & Hs). by exists e, (<[i := c']> sys).
  - assert (existsb (fun c => negb (is_closed c)) sys = true) as Hex.
    { apply not_false_is_true. intros H. assert (forallb is_closed sys = true); [|congruence]. apply forallb_forall. intros c Hc.
      apply not_false_is_true. intros Hn. assert (existsb (fun c => negb (is_closed c)) sys = true); [|congruence].
      apply existsb_exists. exists c. by rewrite Hn. }
    destruct (list_argmax _ next_rank sys Hex) as (i & c & Hc & Hclosed%negb_true_iff & Hmax).
    pose proof (Hwait c (list_elem_of_lookup_2 _ _ _ Hc) Hclosed) as Hw. unfold is_waiting in Hw.
    destruct (client_phase c) eqn:Hp; try discriminate. destruct (wanted_paths c) as [|path rest] eqn:Hwant; [discriminate|].
    assert (available i c path sys = true) as Ha.
    { apply forallb_forall. intros other (j & Hne & Hj)%list_elem_of_In%elem_of_others. unfold compatible.
      rewrite bool_decide_eq_false_2; [done|]. intros Hin. pose proof (list_elem_of_lookup_2 _ _ _ Hj) as Hother.
      destruct (is_closed other) eqn:Hoc.
      - destruct Hev as [Hall _]. destruct (Forall2_lookup_r _ _ _ _ _ Hall Hj) as (c0 & _ & [_ _ Hl _]). unfold is_closed in Hoc.
        destruct (client_phase other); try discriminate. rewrite Hl in Hin. by apply elem_of_nil in Hin.
      - pose proof (waiting_holds_smaller init sys other path Hinit Hev Hother Hoc (Hwait _ Hother Hoc) Hin) as Hlt.
        specialize (Hmax other Hother ltac:(by rewrite Hoc)). unfold next_rank at 2 in Hmax. rewrite Hwant in Hmax. lia. }
    destruct (moves_lock_step i c _ sys true Hc (move_take _ c path rest Hp Hwant Ha) eq_refl) as (e & He & Hs). eauto.
Qed.

(** Everyone is done and no lock is left; only clients that do not wait were
    turned away. *)
Definition all_done (sys : list lock_client) : Prop :=
  Forall (fun c => is_closed c = true /\ held_paths c = [] /\ (client_phase c = Closed Busy -> client_wait c = Nonblocking)) sys.

(** C26. No deadlock: any number of commands and readers, on any authorities,
    waiting or not, come to an end whatever happens - every schedule of their
    steps, with any refusals and failed calls, ends after finitely many steps
    with all of them done and all locks released, only clients that do not wait
    having been turned away; and until then there is always one that can go on
    without giving up. *)
Theorem locks_never_deadlock init : Forall is_client init -> inevitable all_done init.
Proof.
  intros Hinit. assert (forall n sys, system_weight sys < n -> evolved init sys -> inevitable all_done sys) as H.
  { induction n as [|n IH]; intros sys Hn Hev; [lia|]. destruct (forallb is_closed sys) eqn:Hclosed.
    - apply inevitable_now. destruct Hev as [Hall _]. apply Forall_lookup_2. intros i c Hc.
      destruct (Forall2_lookup_r _ _ _ _ _ Hall Hc) as (c0 & _ & [_ _ Hl Hb]). rewrite forallb_forall in Hclosed.
      specialize (Hclosed c (proj1 (list_elem_of_In _ _) (list_elem_of_lookup_2 _ _ _ Hc))). unfold is_closed in *.
      destruct (client_phase c) eqn:Hp; try discriminate. split_and!; [done|done|]. intros [= ->]. apply Hb. by right.
    - apply inevitable_later; [by apply (system_goes_on init)|]. intros e sys' Hs. pose proof (lock_step_weight e sys sys' Hs).
      apply IH; [lia|]. split; [|apply (lock_step_exclusive e sys); [done|apply Hev]].
      apply lock_step_moves in Hs as (i & c & c' & Hc & -> & Hm). destruct Hev as [Hall _].
      destruct (Forall2_lookup_r _ _ _ _ _ Hall Hc) as (c0 & Hc0 & Hevc). rewrite <- (list_insert_id init i c0 Hc0).
      apply Forall2_insert; [done|]. by apply (evolves_moves _ _ c c' _ Hm). }
  apply (H (S (system_weight init))); [lia|]. apply (reachable_evolved init init Hinit). constructor.
Qed.

(** ** Runs *)

Fixpoint lock_run (es : list lock_event) (sys : list lock_client) : option (list lock_client) :=
  match es with [] => Some sys | e :: es => sys' ← lock_step e sys; lock_run es sys' end.

Lemma lock_run_reachable init es sys sys' : reachable init sys -> lock_run es sys = Some sys' -> reachable init sys'.
Proof.
  revert sys. induction es as [|e es IH]; intros sys Hr H; cbn in H; [by injection H as <-|].
  apply bind_Some in H as (sys1 & Hs & H). apply (IH sys1); [|done]. by econstructor.
Qed.

(** A snapshot is written while plans are read; the reader of the content is
    turned away meanwhile. *)
Lemma locks_isolate_witness :
  let root := [RootDir; Normal "db"%string] in
  let init := [open_and_lock root SnapshotWrite false; try_acquire_for_scope root ReadPlan; try_acquire_for_scope root ReadContent] in
  let es := [Acquire 0; Acquire 1; Refuse 2; Acquire 0; Acquired 0; Acquire 1; Acquired 1; Close 2] in
  exists sys, lock_run es init = Some sys /\ client_phase <$> sys = [Working; Working; Closed Busy] /\
    (forall rscope family, init !! 1 = Some (try_acquire_for_scope root rscope) -> reads_family rscope family = true ->
      authorizes_file_family SnapshotWrite family = false).
Proof.
  intros root init es. assert (is_Some (lock_run es init)) as [sys Hsys] by (vm_compute; by eexists).
  assert (exists ci cj, sys !! 0 = Some ci /\ client_phase ci = Working /\ sys !! 1 = Some cj /\ client_phase cj = Working /\
    client_phase <$> sys = [Working; Working; Closed Busy]) as (ci & cj & Hi & Hwi & Hj & Hwj & Hall).
  { vm_compute in Hsys. injection Hsys as <-. do 2 eexists. by split_and!. }
  exists sys. split; [done|]. split; [done|].
  refine (proj1 (locks_isolate init sys root 0 1 SnapshotWrite false ci cj _ _ _ _ Hi Hwi Hj Hwj)).
  - repeat constructor; exists root; [left|right|right]; eauto.
  - eapply lock_run_reachable; [constructor|exact Hsys].
  - done.
  - done.
Defined.

Lemma locks_never_deadlock_witness :
  let root := [RootDir; Normal "db"%string] in
  inevitable all_done [open_and_lock root Gc false; open_and_lock root PlanImport false; open_and_lock root SnapshotWrite true;
    try_acquire_for_scope root ReadAll].
Proof.
  intros root. refine (locks_never_deadlock _ _). repeat constructor; exists root; [left|left|left|right]; eauto.
Defined.
