(* ===== verification/RecordTable.v ===== *)
(** * Record files as tables

    A record file of [BinaryDb] is a list of rows of one size: the abstract
    table, the refinement of it by the filesystem adapter, and the typed tables
    that a lawful codec puts on top. *)

From Stdlib Require Import NArith Lia.
From Stdlib Require Strings.Byte.
From stdpp Require Import base numbers strings gmap list.
From S2P Require Import Prelude Codec FileStore BinaryDb.

(** ** The abstract table *)

Inductive table_op : Type :=
| AppendRecord (record : bytes)
| AppendRecords (records : bytes)
| ReadRecord (record_index : N)
| OverwriteRecord (record_index : N) (record : bytes)
| OverwriteMarker (record_index : N) (marker : Byte.byte)
| RecordCount.

Inductive table_answer : Type :=
| Index (n : N) | Range (start count : N) | Row (record : bytes) | Done.

(** [n] rows of [size] bytes. *)
Fixpoint split_rows (size n : nat) (data : bytes) : list bytes :=
  match n with O => [] | S n => take size data :: split_rows size n (drop size data) end.

(** What each operation answers and leaves behind. *)
Definition table_step (size : N) (op : table_op) (rows : list bytes) : result BinaryDbErrorKind table_answer * list bytes :=
  let n := N.of_nat (length rows) in
  match op with
  | AppendRecord record =>
      if (N.of_nat (length record) =? size)%N then (Ok (Index n), rows ++ [record]) else (Err InvalidDomainData, rows)
  | AppendRecords records =>
      let total := N.of_nat (length records) in
      let count := (total / size)%N in
      if negb (total mod size =? 0)%N || (u32_max <? count)%N then (Err InvalidDomainData, rows)
      else if (count =? 0)%N then (Ok (Range n 0), rows)
      else if (u32_max <? n + count)%N then (Err InvalidDomainData, rows)
      else (Ok (Range n count), rows ++ split_rows (N.to_nat size) (N.to_nat count) records)
  | ReadRecord i => match rows !! N.to_nat i with Some record => (Ok (Row record), rows) | None => (Err MissingData, rows) end
  | OverwriteRecord i record =>
      if negb (N.of_nat (length record) =? size)%N then (Err InvalidDomainData, rows)
      else if (i <? n)%N then (Ok Done, <[N.to_nat i := record]> rows) else (Err MissingData, rows)
  | OverwriteMarker i marker =>
      match rows !! N.to_nat i with
      | Some record => (Ok Done, <[N.to_nat i := marker :: drop 1 record]> rows)
      | None => (Err MissingData, rows)
      end
  | RecordCount => (Ok (Index n), rows)
  end.

(** [append_record], unlike [append_records], does not check that the count
    still fits 32 bits; callers must stay below the limit. *)
Fixpoint within_capacity (size : N) (ops : list table_op) (rows : list bytes) : Prop :=
  match ops with
  | [] => True
  | op :: ops =>
      match op with AppendRecord _ => (N.of_nat (length rows) < u32_max)%N | _ => True end /\
      within_capacity size ops (snd (table_step size op rows))
  end.

Fixpoint table_run (size : N) (ops : list table_op) (rows : list bytes) : list (result BinaryDbErrorKind table_answer) * list bytes :=
  match ops with
  | [] => ([], rows)
  | op :: ops =>
      let '(answer, rows) := table_step size op rows in
      let '(answers, rows) := table_run size ops rows in (answer :: answers, rows)
  end.

(** The same operations on the files; the caller goes on after an error. *)
Definition db_step (fs : LocalBinaryDbFs) (file : BinaryFileId) (write : BinaryWriteContext) (op : table_op) : db table_answer :=
  match op with
  | AppendRecord record => index ← append_record fs file record write; mret (Index index)
  | AppendRecords records => '(start, count) ← append_records fs file records write; mret (Range start count)
  | ReadRecord i => record ← read_record fs file i; mret (Row record)
  | OverwriteRecord i record => _ ← overwrite_record fs file i record write; mret Done
  | OverwriteMarker i marker => _ ← overwrite_record_marker fs file i marker write; mret Done
  | RecordCount => count ← record_count fs file; mret (Index count)
  end.

Fixpoint db_run (fs : LocalBinaryDbFs) (file : BinaryFileId) (write : BinaryWriteContext) (ops : list table_op) (s : io_state)
  : list (result BinaryDbErrorKind table_answer) * io_state :=
  match ops with
  | [] => ([], s)
  | op :: ops =>
      let '(answer, s) := db_step fs file write op s in
      let '(answers, s) := db_run fs file write ops s in (answer :: answers, s)
  end.

Definition table_bytes (file : BinaryFileId) (rows : list bytes) : bytes := to_le_bytes 4 (file_layout_id file) ++ concat rows.

(** The rows of a file; a table that was never written has no file. *)
Definition holds_table (file : BinaryFileId) (path : PathBuf) (d : gmap PathBuf bytes) (rows : list bytes) : Prop :=
  Forall (fun r => N.of_nat (length r) = record_size file) rows /\
  (d !! path = Some (table_bytes file rows) \/ d !! path = None /\ rows = []).

(** ** Rows and bytes *)

Section Rows.
Context (size : nat).
Implicit Types rows : list bytes.

Lemma length_concat_rows rows : Forall (fun r => length r = size) rows -> length (concat rows) = length rows * size.
Proof. induction 1 as [|r rows Hr _ IH]; [done|]. cbn. rewrite length_app, IH, Hr. lia. Qed.

Lemma split_concat_rows rows i row : Forall (fun r => length r = size) rows -> rows !! i = Some row ->
  exists before after, concat rows = before ++ row ++ after /\ length before = i * size /\ length row = size /\
    forall new, concat (<[i := new]> rows) = before ++ new ++ after.
Proof.
  intros Hall Hi. pose proof (lookup_lt_Some _ _ _ Hi) as Hlt. exists (concat (take i rows)), (concat (drop (S i) rows)).
  rewrite <- (take_drop_middle rows i row Hi) at 1. rewrite concat_app. split_and!; [done| | |].
  - rewrite length_concat_rows by (by apply Forall_take). rewrite length_take. lia.
  - by apply (Forall_lookup_1 _ _ _ _ Hall Hi).
  - intros new. rewrite insert_take_drop by done. by rewrite concat_app.
Qed.

Lemma length_split_rows n (data : bytes) : length (split_rows size n data) = n.
Proof. revert data. induction n as [|n IH]; intros data; [done|]. cbn. by rewrite IH. Qed.

Lemma split_rows_concat n (data : bytes) : length data = n * size ->
  concat (split_rows size n data) = data /\ Forall (fun r => length r = size) (split_rows size n data).
Proof.
  revert data. induction n as [|n IH]; intros data Hlen; cbn in *.
  - apply length_zero_iff_nil in Hlen as ->. done.
  - destruct (IH (drop size data)) as [Hc Hf]; [rewrite length_drop; lia|]. rewrite Hc. split; [apply take_drop|].
    constructor; [rewrite length_take; lia|done].
Qed.
End Rows.

Section Refinement.
Context (fs : LocalBinaryDbFs) (file : BinaryFileId) (path : PathBuf) (write : BinaryWriteContext) {du : gmap PathBuf bytes}.
Context (Hpath : file_path_for fs (relative_path file) = Ok path).
Context (Hsize : (0 < record_size file)%N) (Hsize_max : (record_size file <= u32_max)%N) (Hlayout : (file_layout_id file <= u32_max)%N).
Context (Hwrite : ensure_authorized_path write (relative_path file) = Ok tt).
Implicit Types (d : gmap PathBuf bytes) (rows : list bytes).

Let size := N.to_nat (record_size file).

Lemma rows_sized rows : Forall (fun r => N.of_nat (length r) = record_size file) rows <-> Forall (fun r => length r = size) rows.
Proof. unfold size. split; intros H; (eapply Forall_impl; [exact H|]); cbn; lia. Qed.

Lemma length_table rows : Forall (fun r => length r = size) rows -> N.of_nat (length (table_bytes file rows)) = (4 + N.of_nat (length rows) * record_size file)%N.
Proof. intros H. unfold table_bytes. rewrite length_app, length_to_le_bytes, (length_concat_rows size) by done. unfold size. lia. Qed.

Lemma read_layout_run d data : d !! path = Some (to_le_bytes 4 (file_layout_id file) ++ data) ->
  read_layout_id path (mkIo du d []) = (Ok (file_layout_id file), mkIo du d []).
Proof.
  intros Hd. unfold read_layout_id. erewrite bind_io by (apply read_range_works; [exact Hd|rewrite length_app, length_to_le_bytes; unfold BIN_FILE_HEADER_BYTES; lia]).
  change (N.to_nat 0) with 0. rewrite drop_0. change (N.to_nat BIN_FILE_HEADER_BYTES) with (length (to_le_bytes 4 (file_layout_id file))).
  rewrite take_app_length. unfold lift, read_u32_le. rewrite length_to_le_bytes. cbn [Nat.eqb negb fail_if mbind result_bind].
  rewrite from_to_le_bytes; [done|]. unfold u32_max in Hlayout. change (256 ^ N.of_nat 4)%N with 4294967296%N. lia.
Qed.

Lemma valid_run d rows : d !! path = Some (table_bytes file rows) -> Forall (fun r => length r = size) rows ->
  ensure_binary_file_valid path (file_layout_id file) (record_size file) (mkIo du d []) = (Ok (N.of_nat (length rows)), mkIo du d []).
Proof.
  intros Hd Hrows. unfold ensure_binary_file_valid. erewrite bind_io by apply metadata_len_works. rewrite Hd.
  erewrite bind_lift by done. rewrite (length_table _ Hrows). rewrite bind_require by (apply N.leb_le; unfold BIN_FILE_HEADER_BYTES; lia).
  rewrite bind_require by (apply negb_true_iff, N.eqb_neq; lia). erewrite bind_run by (by eapply read_layout_run).
  rewrite bind_require by apply N.eqb_refl. unfold BIN_FILE_HEADER_BYTES.
  replace (4 + N.of_nat (length rows) * record_size file - 4)%N with (N.of_nat (length rows) * record_size file)%N by lia.
  rewrite bind_require by (rewrite N.Div0.mod_mul; done). rewrite N.div_mul by lia. done.
Qed.

Lemma count_run d rows : holds_table file path d rows -> (N.of_nat (length rows) <= u32_max)%N ->
  record_count fs file (mkIo du d []) = (Ok (N.of_nat (length rows)), mkIo du d []).
Proof.
  intros [Hrows%rows_sized Hd] Hmax. unfold record_count. erewrite bind_lift by exact Hpath.
  erewrite bind_io by apply metadata_len_works. destruct Hd as [Hd|[Hd ->]]; rewrite Hd; [|done]. erewrite bind_run by (by apply valid_run). by rewrite bind_require by (by apply N.leb_le).
Qed.
Lemma offset_fits i rows : (i < N.of_nat (length rows))%N -> (N.of_nat (length rows) <= u32_max)%N ->
  (record_offset file i + record_size file <= 4 + N.of_nat (length rows) * record_size file)%N /\
  (4 + N.of_nat (length rows) * record_size file <= usize_max)%N.
Proof. intros Hi Hmax. unfold record_offset, BIN_FILE_HEADER_BYTES, u32_max, usize_max in *. split; nia. Qed.

(** The bytes of row [i] of a table, and the table with another row there. *)
Lemma row_bytes rows i row : Forall (fun r => length r = size) rows -> rows !! i = Some row ->
  exists before after, table_bytes file rows = before ++ row ++ after /\ length before = N.to_nat (record_offset file (N.of_nat i)) /\
    length row = size /\ forall new, table_bytes file (<[i := new]> rows) = before ++ new ++ after.
Proof.
  intros Hrows Hi. destruct (split_concat_rows size rows i row Hrows Hi) as (b & a & Hc & Hb & Hr & Hnew).
  exists (to_le_bytes 4 (file_layout_id file) ++ b), a. unfold table_bytes. rewrite Hc. split_and!; [by rewrite <- app_assoc| |done|].
  - rewrite length_app, length_to_le_bytes, Hb. unfold record_offset, BIN_FILE_HEADER_BYTES, size. lia.
  - intros new. by rewrite Hnew, <- app_assoc.
Qed.

Lemma read_record_run d rows i : holds_table file path d rows -> (N.of_nat (length rows) <= u32_max)%N ->
  read_record fs file i (mkIo du d []) =
    (match rows !! N.to_nat i with Some record => Ok record | None => Err MissingData end, mkIo du d []).
Proof.
  intros Ht Hmax. unfold read_record. erewrite bind_lift by exact Hpath. erewrite bind_run by (by apply count_run).
  destruct (rows !! N.to_nat i) as [row|] eqn:Hi.
  - pose proof (lookup_lt_Some _ _ _ Hi) as Hlt. rewrite bind_require by (apply N.ltb_lt; lia). destruct Ht as [Hrows%rows_sized Hd].
    destruct Hd as [Hd|[_ ->]]; [|done]. destruct (row_bytes _ _ _ Hrows Hi) as (b & a & Hb & Hlb & Hlr & _). rewrite N2Nat.id in Hlb.
    destruct (offset_fits i rows) as [Hoff _]; [lia|done|].
    unfold io, map_error. erewrite read_range_works; [|exact Hd|by rewrite length_table]. rewrite Hb, <- Hlb, drop_app_length. fold size.
    by rewrite <- Hlr, take_app_length.
  - apply lookup_ge_None in Hi. unfold require. rewrite (proj2 (N.ltb_ge _ _)) by lia. done.
Qed.

Lemma overwrite_record_run d rows i new : holds_table file path d rows -> (N.of_nat (length rows) <= u32_max)%N ->
  length new = size -> (i < N.of_nat (length rows))%N ->
  overwrite_record fs file i new write (mkIo du d []) = (Ok tt, mkIo du (<[path := table_bytes file (<[N.to_nat i := new]> rows)]> d) []).
Proof.
  intros Ht Hmax Hnew Hi. unfold overwrite_record. erewrite bind_lift by exact Hwrite.
  rewrite bind_require by (apply N.eqb_eq; unfold size in Hnew; lia). erewrite bind_lift by exact Hpath.
  erewrite bind_run by (by apply count_run). rewrite bind_require by (by apply N.ltb_lt). destruct (offset_fits i rows) as [Hoff Hfit]; [done..|].
  rewrite bind_require by (apply N.leb_le; lia). destruct Ht as [Hrows%rows_sized [Hd|[_ ->]]]; [|cbn in Hi; lia].
  destruct (lookup_lt_is_Some_2 rows (N.to_nat i)) as [row Hrow]; [lia|].
  destruct (row_bytes _ _ _ Hrows Hrow) as (b & a & Hb & Hlb & Hlr & Hins). rewrite N2Nat.id in Hlb.
  unfold io, map_error. erewrite overwrite_range_works; [|exact Hd|rewrite length_table by done; unfold size in Hnew; lia|rewrite length_table by done; lia].
  rewrite Hins, Hb, <- Hlb, splice_at_app by lia. done.
Qed.

Lemma append_record_run d rows record : holds_table file path d rows -> (N.of_nat (length rows) <= u32_max)%N -> length record = size ->
  append_record fs file record write (mkIo du d []) =
    (Ok (N.of_nat (length rows)), mkIo du (<[path := table_bytes file (rows ++ [record])]> d) []).
Proof.
  intros Ht Hmax Hr. unfold append_record. erewrite bind_lift by exact Hwrite.
  rewrite bind_require by (apply N.eqb_eq; unfold size in Hr; lia). erewrite bind_lift by exact Hpath.
  erewrite bind_run by done. erewrite bind_io by apply metadata_len_works. pose proof Ht as [Hrows%rows_sized [Hd|[Hd ->]]]; rewrite Hd.
  - rewrite length_table by done. set (len := (4 + _)%N). assert (4 <= len)%N as Hlen by (unfold len; lia).
    unfold BIN_FILE_HEADER_BYTES. rewrite (proj2 (N.leb_le 4 len) Hlen). erewrite bind_run by (by apply count_run).
    destruct len as [|p] eqn:Elen; [lia|]. rewrite <- Elen in *. clear p Elen.
    erewrite bind_run; [|rewrite bind_require by done; erewrite bind_run by (by apply valid_run); done].
    unfold len. rewrite <- length_table by done. erewrite bind_run by (by apply append_at_run). unfold mret, stateful_ret. f_equal.
    unfold table_bytes. rewrite concat_app, <- app_assoc. cbn [concat]. by rewrite app_nil_r.
  - erewrite bind_run by done. erewrite bind_run by (apply write_header_run; by rewrite Hd).
    erewrite bind_run by (apply (append_at_run path _ (to_le_bytes 4 (file_layout_id file))); apply lookup_insert_eq).
    rewrite insert_insert_eq. unfold mret, stateful_ret, table_bytes. cbn [app concat]. by rewrite app_nil_r.
Qed.

Lemma append_records_run d rows records count : holds_table file path d rows -> (N.of_nat (length rows) <= u32_max)%N ->
  N.of_nat (length records) = (count * record_size file)%N -> (0 < count <= u32_max)%N -> (N.of_nat (length rows) + count <= u32_max)%N ->
  append_records fs file records write (mkIo du d []) =
    (Ok (N.of_nat (length rows), count), mkIo du (<[path := table_bytes file (rows ++ split_rows size (N.to_nat count) records)]> d) []).
Proof.
  intros Ht Hmax Hr Hcount Hfit. unfold append_records. erewrite bind_lift by exact Hwrite. rewrite Hr, N.div_mul, N.Div0.mod_mul by lia.
  rewrite bind_require by (apply negb_true_iff, N.eqb_neq; lia). rewrite bind_require by done. rewrite bind_require by (apply N.leb_le; lia).
  rewrite (proj2 (N.eqb_neq _ _)) by lia. erewrite bind_lift by exact Hpath. erewrite bind_run by done.
  erewrite bind_io by apply metadata_len_works. destruct (split_rows_concat size (N.to_nat count) records) as [Hc _]; [unfold size; lia|].
  pose proof Ht as [Hrows%rows_sized [Hd|[Hd ->]]]; rewrite Hd.
  - rewrite length_table by done. set (len := (4 + _)%N). assert (4 <= len)%N as Hlen by (unfold len; lia).
    destruct len as [|p] eqn:Elen; [lia|]. rewrite <- Elen in *. clear p Elen.
    erewrite bind_run; [|rewrite bind_require by (by apply N.leb_le); erewrite bind_run by (by apply valid_run); rewrite bind_require by (by apply N.leb_le); done].
    cbv beta iota. rewrite bind_require by (by apply N.leb_le). erewrite bind_run by done. unfold len.
    rewrite <- length_table by done. erewrite bind_run by (by apply append_at_run). unfold mret, stateful_ret. f_equal.
    unfold table_bytes. by rewrite concat_app, <- app_assoc, Hc.
  - erewrite bind_run by done. cbv beta iota. rewrite bind_require by (apply N.leb_le; lia).
    erewrite bind_run; [|erewrite bind_run by (apply write_header_run; by rewrite Hd); done].
    erewrite bind_run by (apply (append_at_run path _ (to_le_bytes 4 (file_layout_id file))); apply lookup_insert_eq).
    rewrite insert_insert_eq. unfold mret, stateful_ret, table_bytes. by rewrite app_nil_l, Hc.
Qed.

Lemma marker_run d rows i marker row : holds_table file path d rows -> (N.of_nat (length rows) <= u32_max)%N -> rows !! N.to_nat i = Some row ->
  overwrite_record_marker fs file i marker write (mkIo du d []) =
    (Ok tt, mkIo du (<[path := table_bytes file (<[N.to_nat i := marker :: drop 1 row]> rows)]> d) []).
Proof.
  intros Ht Hmax Hrow. pose proof (lookup_lt_Some _ _ _ Hrow) as Hi. unfold overwrite_record_marker. erewrite bind_lift by exact Hwrite.
  rewrite bind_require by (apply negb_true_iff, N.eqb_neq; lia). erewrite bind_run by (by apply count_run).
  rewrite bind_require by (apply N.ltb_lt; lia). erewrite bind_lift by exact Hpath. destruct (offset_fits i rows) as [Hoff Hfit]; [lia|done|].
  destruct Ht as [Hrows%rows_sized [Hd|[_ ->]]]; [|done].
  destruct (row_bytes _ _ _ Hrows Hrow) as (b & a & Hb & Hlb & Hlr & Hins). rewrite N2Nat.id in Hlb.
  unfold io, map_error. erewrite overwrite_range_works; [|exact Hd|rewrite length_table by done; cbn [length]; lia|rewrite length_table by done; lia].
  rewrite Hins, Hb, <- Hlb. destruct row as [|c row]; [cbn in Hlr; unfold size in Hlr; lia|].
  cbn [drop]. change ((c :: row) ++ a) with ([c] ++ row ++ a). by rewrite (splice_at_app b [c] (row ++ a) [marker] eq_refl).
Qed.

Lemma db_step_reads op answer rows d : holds_table file path d rows -> (N.of_nat (length rows) <= u32_max)%N ->
  table_step (record_size file) op rows = (answer, rows) -> db_step fs file write op (mkIo du d []) = (answer, mkIo du d []) ->
  exists d', db_step fs file write op (mkIo du d []) = (fst (table_step (record_size file) op rows), mkIo du d' []) /\
    holds_table file path d' (snd (table_step (record_size file) op rows)) /\
    (N.of_nat (length (snd (table_step (record_size file) op rows))) <= u32_max)%N /\ forall p, p <> path -> d' !! p = d !! p.
Proof. intros Ht Hmax -> Hrun. by exists d. Qed.

Lemma db_step_writes op answer rows rows' d : Forall (fun r => N.of_nat (length r) = record_size file) rows' ->
  (N.of_nat (length rows') <= u32_max)%N -> table_step (record_size file) op rows = (Ok answer, rows') ->
  db_step fs file write op (mkIo du d []) = (Ok answer, mkIo du (<[path := table_bytes file rows']> d) []) ->
  exists d', db_step fs file write op (mkIo du d []) = (fst (table_step (record_size file) op rows), mkIo du d' []) /\
    holds_table file path d' (snd (table_step (record_size file) op rows)) /\
    (N.of_nat (length (snd (table_step (record_size file) op rows))) <= u32_max)%N /\ forall p, p <> path -> d' !! p = d !! p.
Proof.
  intros Hrows Hmax -> Hrun. eexists. split; [exact Hrun|]. cbn [snd]. split_and!; [|done|by intros; apply lookup_insert_ne].
  split; [done|left; apply lookup_insert_eq].
Qed.

Lemma append_records_step d rows records : holds_table file path d rows -> (N.of_nat (length rows) <= u32_max)%N ->
  let op := AppendRecords records in
  exists d', db_step fs file write op (mkIo du d []) = (fst (table_step (record_size file) op rows), mkIo du d' []) /\
    holds_table file path d' (snd (table_step (record_size file) op rows)) /\
    (N.of_nat (length (snd (table_step (record_size file) op rows))) <= u32_max)%N /\ forall p, p <> path -> d' !! p = d !! p.
Proof.
  intros Ht Hmax op. pose proof Ht as [Hrows _]. pose proof (N.div_mod (N.of_nat (length records)) (record_size file)) as Hdm.
  assert (db_step fs file write op (mkIo du d []) = (append_records fs file records write ≫= fun '(start, count) => mret (Range start count)) (mkIo du d [])) as Hop
    by done.
  destruct (N.eqb_spec (N.of_nat (length records) mod record_size file) 0) as [Hmod|Hmod].
  2:{ eapply db_step_reads; [done|done|unfold op; cbn [table_step]; by rewrite (proj2 (N.eqb_neq _ _) Hmod)|].
      rewrite Hop. erewrite bind_run_Err; [done|]. unfold append_records. erewrite bind_lift by exact Hwrite.
      rewrite bind_require by (apply negb_true_iff, N.eqb_neq; lia). unfold require. by rewrite (proj2 (N.eqb_neq _ _) Hmod). }
  assert (N.of_nat (length records) = N.of_nat (length records) / record_size file * record_size file)%N as Hlen by lia.
  revert Hlen. set (count := (N.of_nat (length records) / record_size file)%N). intros Hlen.
  assert (table_step (record_size file) op rows =
    if (u32_max <? count)%N then (Err InvalidDomainData, rows)
    else if (count =? 0)%N then (Ok (Range (N.of_nat (length rows)) 0), rows)
    else if (u32_max <? N.of_nat (length rows) + count)%N then (Err InvalidDomainData, rows)
    else (Ok (Range (N.of_nat (length rows)) count), rows ++ split_rows size (N.to_nat count) records)) as Hstep.
  { unfold op, count. cbn [table_step]. rewrite (proj2 (N.eqb_eq _ _) Hmod). done. }
  destruct (N.ltb_spec u32_max count) as [Hbig|Hbig]; [|destruct (N.eqb_spec count 0) as [Hz|Hz];
    [|destruct (N.ltb_spec u32_max (N.of_nat (length rows) + count)) as [Hover|Hfit]]].
  - eapply db_step_reads; [done|done|exact Hstep|]. rewrite Hop. erewrite bind_run_Err; [done|]. unfold append_records.
    erewrite bind_lift by exact Hwrite. rewrite bind_require by (apply negb_true_iff, N.eqb_neq; lia).
    rewrite bind_require by (by apply N.eqb_eq). fold count. unfold require. by rewrite (proj2 (N.leb_gt _ _) Hbig).
  - eapply db_step_reads; [done|done|exact Hstep|]. rewrite Hop. eapply (bind_run_to _ _ _ (N.of_nat (length rows), 0%N)); [|done]. unfold append_records.
    erewrite bind_lift by exact Hwrite. rewrite bind_require by (apply negb_true_iff, N.eqb_neq; lia).
    rewrite bind_require by (by apply N.eqb_eq). fold count. rewrite bind_require by (by apply N.leb_le).
    rewrite (proj2 (N.eqb_eq _ _) Hz). by erewrite bind_run by (by apply count_run).
  - eapply db_step_reads; [done|done|exact Hstep|]. rewrite Hop. erewrite bind_run_Err; [done|].
    assert (rows <> []) as Hne by (intros ->; cbn in Hover; lia). destruct Ht as [_ [Hd|[_ ?]]]; [|done].
    unfold append_records. erewrite bind_lift by exact Hwrite. rewrite bind_require by (apply negb_true_iff, N.eqb_neq; lia).
    rewrite bind_require by (by apply N.eqb_eq). fold count. rewrite bind_require by (by apply N.leb_le).
    rewrite (proj2 (N.eqb_neq _ _) Hz). erewrite bind_lift by exact Hpath. erewrite bind_run by done.
    erewrite bind_io by apply metadata_len_works. rewrite Hd. pose proof (proj1 (rows_sized _) Hrows) as Hs.
    rewrite length_table by done. set (len := (4 + _)%N). assert (4 <= len)%N as Hlen4 by (unfold len; lia).
    destruct len as [|p] eqn:Elen; [lia|]. rewrite <- Elen in *. clear p Elen.
    erewrite bind_run; [|rewrite bind_require by (by apply N.leb_le); erewrite bind_run by (by apply valid_run); rewrite bind_require by (by apply N.leb_le); done].
    cbv beta iota. unfold require. by rewrite (proj2 (N.leb_gt _ _) Hover).
  - destruct (split_rows_concat size (N.to_nat count) records) as [_ Hsized%rows_sized]; [unfold size; lia|].
    eapply (db_step_writes _ _ rows (rows ++ _)); [by apply Forall_app|rewrite length_app, length_split_rows; lia|exact Hstep|].
    rewrite Hop. eapply (bind_run_to _ _ _ (N.of_nat (length rows), count)); [|done]. apply append_records_run; [done|done|done|lia|lia].
Qed.

(** One operation does to the file what it does to the table. *)
Lemma db_step_run d rows op : holds_table file path d rows -> (N.of_nat (length rows) <= u32_max)%N ->
  within_capacity (record_size file) [op] rows ->
  exists d', db_step fs file write op (mkIo du d []) = (fst (table_step (record_size file) op rows), mkIo du d' []) /\
    holds_table file path d' (snd (table_step (record_size file) op rows)) /\
    (N.of_nat (length (snd (table_step (record_size file) op rows))) <= u32_max)%N /\ forall p, p <> path -> d' !! p = d !! p.
Proof.
  intros Ht Hmax [Hcap _]. pose proof Ht as [Hrows _]. destruct op as [record|records|i|i record|i marker|].
  - destruct (N.eqb_spec (N.of_nat (length record)) (record_size file)) as [Hr|Hr].
    + eapply (db_step_writes _ _ rows (rows ++ [record])); [by apply Forall_app; split; [|constructor]|rewrite length_app; cbn [length]; cbn in Hcap; lia| |].
      * cbn [table_step]. by rewrite (proj2 (N.eqb_eq _ _) Hr).
      * cbn [db_step]. by erewrite bind_run by (apply append_record_run; [done|done|unfold size; lia]).
    + eapply db_step_reads; [done|done|cbn [table_step]; by rewrite (proj2 (N.eqb_neq _ _) Hr)|].
      cbn [db_step]. unfold append_record. erewrite bind_run_Err; [done|]. erewrite bind_lift by exact Hwrite.
      unfold require. by rewrite (proj2 (N.eqb_neq _ _) Hr).
  - exact (append_records_step d rows records Ht Hmax).
  - destruct (rows !! N.to_nat i) as [row|] eqn:Hi; (eapply db_step_reads; [done|done|cbn [table_step]; by rewrite Hi|]);
      cbn [db_step]; unfold mbind, stateful_bind; erewrite read_record_run by done; by rewrite Hi.
  - destruct (N.eqb_spec (N.of_nat (length record)) (record_size file)) as [Hr|Hr]; [destruct (N.ltb_spec i (N.of_nat (length rows))) as [Hi|Hi]|].
    + eapply (db_step_writes _ _ rows (<[N.to_nat i := record]> rows)); [by apply Forall_insert|by rewrite length_insert| |].
      * cbn [table_step]. by rewrite (proj2 (N.eqb_eq _ _) Hr), (proj2 (N.ltb_lt _ _) Hi).
      * cbn [db_step]. by erewrite bind_run by (apply overwrite_record_run; [done|done|unfold size; lia|done]).
    + eapply db_step_reads; [done|done|cbn [table_step]; by rewrite (proj2 (N.eqb_eq _ _) Hr), (proj2 (N.ltb_ge _ _) Hi)|].
      cbn [db_step]. unfold overwrite_record. erewrite bind_run_Err; [done|]. erewrite bind_lift by exact Hwrite.
      rewrite bind_require by (by apply N.eqb_eq). erewrite bind_lift by exact Hpath. erewrite bind_run by (by apply count_run).
      unfold require. by rewrite (proj2 (N.ltb_ge _ _) Hi).
    + eapply db_step_reads; [done|done|cbn [table_step]; by rewrite (proj2 (N.eqb_neq _ _) Hr)|].
      cbn [db_step]. unfold overwrite_record. erewrite bind_run_Err; [done|]. erewrite bind_lift by exact Hwrite.
      unfold require. by rewrite (proj2 (N.eqb_neq _ _) Hr).
  - destruct (rows !! N.to_nat i) as [row|] eqn:Hi.
    + eapply (db_step_writes _ _ rows (<[N.to_nat i := marker :: drop 1 row]> rows)); [|by rewrite length_insert| |].
      * apply Forall_insert; [exact Hrows|]. pose proof (Forall_lookup_1 _ _ _ _ Hrows Hi) as Hr. cbn beta in Hr.
        rewrite length_cons, length_drop. lia.
      * cbn [table_step]. by rewrite Hi.
      * cbn [db_step]. by erewrite bind_run by (by apply marker_run).
    + eapply db_step_reads; [done|done|cbn [table_step]; by rewrite Hi|]. cbn [db_step]. apply lookup_ge_None in Hi.
      unfold overwrite_record_marker. erewrite bind_run_Err; [done|]. erewrite bind_lift by exact Hwrite.
      rewrite bind_require by (apply negb_true_iff, N.eqb_neq; lia). erewrite bind_run by (by apply count_run).
      unfold require. by rewrite (proj2 (N.ltb_ge _ _)) by lia.
  - eapply db_step_reads; [done|done|done|]. cbn [db_step]. by erewrite bind_run by (by apply count_run).
Qed.

(** C24. Refinement of the abstract table: on a well-formed (or missing) record
    file, every sequence of record operations gives the answers and errors of
    the abstract table, leaves a well-formed file with exactly its rows, and
    touches no other file, as long as single appends stay below the capacity. *)
Theorem record_file_refines_table d rows ops : holds_table file path d rows -> (N.of_nat (length rows) <= u32_max)%N ->
  within_capacity (record_size file) ops rows ->
  exists d', db_run fs file write ops (mkIo du d []) = (fst (table_run (record_size file) ops rows), mkIo du d' []) /\
    holds_table file path d' (snd (table_run (record_size file) ops rows)) /\
    forall p, p <> path -> d' !! p = d !! p.
Proof.
  revert d rows. induction ops as [|op ops IH]; intros d rows Ht Hmax Hcap; [by exists d|]. destruct Hcap as [Hcap Hrest].
  destruct (db_step_run d rows op Ht Hmax (conj Hcap I)) as (d1 & Hstep & Ht1 & Hmax1 & Hother).
  cbn [db_run table_run]. rewrite Hstep. destruct (table_step (record_size file) op rows) as [answer rows1].
  cbn [fst snd] in *. destruct (IH d1 rows1 Ht1 Hmax1 Hrest) as (d2 & Hrun & Ht2 & Hother2). rewrite Hrun.
  destruct (table_run (record_size file) ops rows1) as [answers rows2]. cbn [fst snd] in *.
  exists d2. split; [done|]. split; [done|]. intros p Hp. by rewrite Hother2, Hother.
Qed.
End Refinement.

(** A table that is filled, changed and read, on a file that does not exist
    yet. *)
Lemma record_file_refines_table_witness :
  let fs := mkDb [RootDir; Normal "db"%string] None None None in
  let file := mkFileId "rows.bin" 7 2 in
  let write := mkWriteContext General true in
  let ops := [AppendRecord [Byte.x61; Byte.x62]; AppendRecords [Byte.x63; Byte.x64; Byte.x65; Byte.x66]; OverwriteMarker 1 Byte.xff;
    OverwriteRecord 5 [Byte.x00; Byte.x00]; ReadRecord 1; AppendRecord [Byte.x00]; RecordCount] in
  exists d', db_run fs file write ops (mkIo ∅ ∅ []) =
      ([Ok (Index 0); Ok (Range 1 2); Ok Done; Err MissingData; Ok (Row [Byte.xff; Byte.x64]); Err InvalidDomainData; Ok (Index 3)], mkIo ∅ d' []) /\
    holds_table file [RootDir; Normal "db"%string; Normal "rows.bin"%string] d' [[Byte.x61; Byte.x62]; [Byte.xff; Byte.x64]; [Byte.x65; Byte.x66]] /\
    forall p, p <> [RootDir; Normal "db"%string; Normal "rows.bin"%string] -> d' !! p = (∅ : gmap PathBuf bytes) !! p.
Proof.
  intros fs file write ops.
  refine (record_file_refines_table fs file _ write _ _ _ _ _ ∅ [] ops _ _ _); [reflexivity|reflexivity|by vm_compute|by vm_compute|reflexivity| |by vm_compute|].
  - split; [constructor|right; split; reflexivity].
  - by vm_compute.
Defined.

(** ** Typed tables *)

Section Typed.
Context {E R : Type} {C : RecordCodec E R} {L : LawfulRecordCodec E R}.

(** [let bytes = Codec::encode_record(record)?; write.append_record(file, &bytes)] *)
Definition append_typed (fs : LocalBinaryDbFs) (file : BinaryFileId) (write : BinaryWriteContext) (r : R) : db N :=
  raw ← lift (map_err (fun _ => Other) (encode_record (file_layout_id file) r));
  append_record fs file raw write.

(** [Codec::decode_record(&read.read_record(file, index)?)] *)
Definition read_typed (fs : LocalBinaryDbFs) (file : BinaryFileId) (record_index : N) : db R :=
  raw ← read_record fs file record_index;
  lift (map_err (fun _ => Other) (decode_record (file_layout_id file) raw)).

(** The rows of a file are the encodings of [rs]. *)
Definition holds_records (file : BinaryFileId) (path : PathBuf) (d : gmap PathBuf bytes) (rs : list R) : Prop :=
  exists rows, holds_table file path d rows /\ Forall2 (fun r row => encode_record (file_layout_id file) r = Ok row) rs rows.

Context (fs : LocalBinaryDbFs) (file : BinaryFileId) (path : PathBuf) (write : BinaryWriteContext) {du : gmap PathBuf bytes}.
Context (Hpath : file_path_for fs (relative_path file) = Ok path).
Context (Hwrite : ensure_authorized_path write (relative_path file) = Ok tt).
Context (Hsup : supported_layout (R := R) (file_layout_id file) = true) (Hlayout : (file_layout_id file <= u32_max)%N).
Context (Hsize : record_size file = N.of_nat (codec_size (R := R) (file_layout_id file))) (Hpos : (0 < record_size file <= u32_max)%N).

Lemma encoded_record (r : R) row : record_ok (file_layout_id file) r -> encode_record (file_layout_id file) r = Ok row ->
  N.of_nat (length row) = record_size file /\ decode_record (file_layout_id file) row = Ok r.
Proof.
  intros Hr Henc. destruct (encode_decode _ r Hsup Hr) as (raw & Hraw & Hlen & Hdec). rewrite Henc in Hraw. injection Hraw as <-.
  by rewrite Hsize, Hlen.
Qed.

(** Typed record files: appending a record that its layout can hold
    returns the next index, and afterwards every index reads back exactly the
    record appended there, decoded; an index past the end is missing data. *)
Theorem typed_table_append_read d (rs : list R) r : holds_records file path d rs -> Forall (record_ok (file_layout_id file)) rs ->
  record_ok (file_layout_id file) r -> (N.of_nat (length rs) < u32_max)%N ->
  exists d', append_typed fs file write r (mkIo du d []) = (Ok (N.of_nat (length rs)), mkIo du d' []) /\
    holds_records file path d' (rs ++ [r]) /\
    forall i, read_typed fs file i (mkIo du d' []) =
      (match (rs ++ [r]) !! N.to_nat i with Some r' => Ok r' | None => Err MissingData end, mkIo du d' []).
Proof.
  intros (rows & Ht & Hrows) Hrs Hr Hcap. pose proof (Forall2_length _ _ _ Hrows) as Hlen.
  destruct (encode_decode _ r Hsup Hr) as (raw & Hraw & Hrawlen & _). assert (N.of_nat (length raw) = record_size file) as Hrs2 by lia.
  destruct (db_step_run (du := du) fs file path write Hpath ltac:(lia) ltac:(lia) Hlayout Hwrite d rows (AppendRecord raw) Ht) as (d' & Hstep & Ht' & Hmax' & _);
    [lia|split; [lia|done]|].
  cbn [db_step table_step] in *. rewrite (proj2 (N.eqb_eq _ _) Hrs2) in *. cbn [fst snd] in *.
  assert (Forall2 (fun r row => encode_record (file_layout_id file) r = Ok row) (rs ++ [r]) (rows ++ [raw])) as Hall
    by (by apply Forall2_app; [|constructor]).
  exists d'. split_and!; [|by exists (rows ++ [raw])|].
  - unfold append_typed. erewrite bind_run by (by rewrite Hraw). unfold mbind, stateful_bind in Hstep.
    destruct (append_record fs file raw write (mkIo du d [])) as [[n|e] s]; [|done]. injection Hstep as -> ->. by rewrite Hlen.
  - intros i. unfold read_typed, mbind, stateful_bind.
    erewrite read_record_run; [|exact Hpath|lia|lia|exact Hlayout|exact Ht'|done].
    destruct ((rs ++ [r]) !! N.to_nat i) as [r'|] eqn:Hi.
    + destruct (Forall2_lookup_l _ _ _ _ _ Hall Hi) as (row & -> & Henc). unfold lift.
      assert (record_ok (file_layout_id file) r') as Hok.
      { assert (Forall (record_ok (file_layout_id file)) (rs ++ [r])) as Hf by (by apply Forall_app; split; [|constructor]).
        exact (Forall_lookup_1 _ _ _ _ Hf Hi). }
      destruct (encoded_record r' row Hok Henc) as [_ ->]. done.
    + apply lookup_ge_None in Hi. rewrite lookup_ge_None_2; [done|]. rewrite <- (Forall2_length _ _ _ Hall). done.
Qed.
End Typed.
