(* ===== verification/BinaryIndex.v ===== *)
(** * Index files

    The index files of [ait-core/src/binary_db]: appending a candidate, the
    direct lookup, and the lookup through the cache of a transaction. *)

From Stdlib Require Import NArith Lia.
From Stdlib Require Strings.Byte.
From stdpp Require Import base numbers strings gmap list.
From S2P Require Import Prelude Codec FileStore BinaryDb.

Record BinaryIndexId : Type := mkIndexId {
  index_path : string;
  index_layout_id : N;
  fixed_key_size : option N;
  stores_record_index_plus_one : bool
}.
Definition index_key (index : BinaryIndexId) : PathBuf * N * option N * bool :=
  (components (index_path index), index_layout_id index, fixed_key_size index, stores_record_index_plus_one index).

(** A hash map from index keys to record indexes. *)
Abbreviation candidate_map := (gmap bytes (list N)).

Record BinaryDbReadCache : Type := mkCache {
  layout_ids : gmap (PathBuf * N * N) N;
  record_files : gmap (PathBuf * N * N) (option bytes);
  index_files : gmap (PathBuf * N * option N * bool) (option bytes);
  parsed_index_candidates : gmap (PathBuf * N * option N * bool) candidate_map
}.
Definition empty_cache : BinaryDbReadCache := mkCache ∅ ∅ ∅ ∅.

(** ** Entries *)

(** The record index of a stored one. *)
Definition stored_record_index (index : BinaryIndexId) (stored : N) : result BinaryDbErrorKind N :=
  if stores_record_index_plus_one index then
    if (stored =? 0)%N then Err Corruption else Ok (stored - 1)%N
  else Ok stored.

(** The direct scan: [n] entries with keys of [size] bytes. *)
Fixpoint scan_fixed (index : BinaryIndexId) (key : bytes) (size n : nat) (body : bytes) (candidates : list N)
  : result BinaryDbErrorKind (list N) :=
  match n with
  | O => Ok candidates
  | S n =>
      let stored := from_le_bytes (take 4 (drop size body)) in
      candidates ← (if bool_decide (take size body = key)
                    then record_index ← stored_record_index index stored; Ok (candidates ++ [record_index])
                    else Ok candidates);
      scan_fixed index key size n (drop (size + 4) body) candidates
  end.

(** [while cursor < bytes.len()]: a round consumes at least 8 bytes, so that
    the length of the body is fuel enough. *)
Fixpoint scan_variable (key : bytes) (fuel : nat) (body : bytes) (candidates : list N) : result BinaryDbErrorKind (list N) :=
  match body, fuel with
  | [], _ => Ok candidates
  | _, O => Err Other
  | _, S fuel =>
      _ ← fail_if (Nat.ltb (length body) 4) Corruption;
      let key_len := from_le_bytes (take 4 body) in
      let rest := drop 4 body in
      _ ← fail_if (N.of_nat (length rest) <? key_len)%N Corruption;
      let candidate_key := take (N.to_nat key_len) rest in
      let rest := drop (N.to_nat key_len) rest in
      _ ← fail_if (Nat.ltb (length rest) 4) Corruption;
      let record_index := from_le_bytes (take 4 rest) in
      scan_variable key fuel (drop 4 rest) (if bool_decide (candidate_key = key) then candidates ++ [record_index] else candidates)
  end.

Definition index_candidates_from_file_bytes (index : BinaryIndexId) (key : bytes) (data : option bytes) : result BinaryDbErrorKind (list N) :=
  match data with
  | None => Ok []
  | Some data =>
      if Nat.eqb (length data) 4 then Ok []
      else
        let body := drop 4 data in
        match fixed_key_size index with
        | Some key_size =>
            let size := N.to_nat key_size in
            _ ← fail_if (negb (Nat.eqb (length key) size)) InvalidDomainData;
            _ ← fail_if (negb (Nat.eqb (length body mod (size + 4)) 0)) Corruption;
            scan_fixed index key size (length body / (size + 4)) body []
        | None => scan_variable key (length body) body []
        end
  end.

(** [candidates.entry(key).or_default().push(record_index)] *)
Definition push_candidate (key : bytes) (record_index : N) (candidates : candidate_map) : candidate_map :=
  <[key := default [] (candidates !! key) ++ [record_index]]> candidates.

Fixpoint parse_fixed (index : BinaryIndexId) (size n : nat) (body : bytes) (candidates : candidate_map) : result BinaryDbErrorKind candidate_map :=
  match n with
  | O => Ok candidates
  | S n =>
      record_index ← stored_record_index index (from_le_bytes (take 4 (drop size body)));
      parse_fixed index size n (drop (size + 4) body) (push_candidate (take size body) record_index candidates)
  end.

Fixpoint parse_variable (fuel : nat) (body : bytes) (candidates : candidate_map) : result BinaryDbErrorKind candidate_map :=
  match body, fuel with
  | [], _ => Ok candidates
  | _, O => Err Other
  | _, S fuel =>
      _ ← fail_if (Nat.ltb (length body) 4) Corruption;
      let key_len := from_le_bytes (take 4 body) in
      let rest := drop 4 body in
      _ ← fail_if (N.of_nat (length rest) <? key_len + 4)%N Corruption;
      let record_index := from_le_bytes (take 4 (drop (N.to_nat key_len) rest)) in
      parse_variable fuel (drop (N.to_nat key_len + 4) rest) (push_candidate (take (N.to_nat key_len) rest) record_index candidates)
  end.

Definition index_candidate_map_from_file_bytes (index : BinaryIndexId) (data : option bytes) : result BinaryDbErrorKind candidate_map :=
  match data with
  | None => Ok ∅
  | Some data =>
      if Nat.eqb (length data) 4 then Ok ∅
      else
        let body := drop 4 data in
        match fixed_key_size index with
        | Some key_size =>
            let size := N.to_nat key_size in
            _ ← fail_if (Nat.ltb (length data) 4 || negb (Nat.eqb (length body mod (size + 4)) 0)) Corruption;
            parse_fixed index size (length body / (size + 4)) body ∅
        | None => parse_variable (length body) body ∅
        end
  end.

(** ** Operations *)

Definition validate_index_file_bytes (expected_layout_id : N) (data : bytes) : result BinaryDbErrorKind unit :=
  _ ← fail_if (Nat.eqb (length data) 0) Corruption;
  _ ← fail_if (Nat.ltb (length data) 4) Corruption;
  header ← read_u32_le (take 4 data);
  fail_if (negb (header =? expected_layout_id)%N) LayoutMismatch.

Definition validate_index_file_layout (path : PathBuf) (expected_layout_id metadata_len : N) : db unit :=
  data ← io (read_range path 0 (N.min metadata_len 4));
  lift (validate_index_file_bytes expected_layout_id data).

Definition read_index_file_bytes (fs : LocalBinaryDbFs) (index : BinaryIndexId) : db (option bytes) :=
  path ← lift (file_path_for fs (index_path index));
  len ← io (metadata_len path);
  match len with
  | None => mret None
  | Some _ =>
      data ← io (read_bytes_at path);
      _ ← lift (validate_index_file_bytes (index_layout_id index) data);
      mret (Some data)
  end.

Definition lookup_index (fs : LocalBinaryDbFs) (index : BinaryIndexId) (key : bytes) : db (list N) :=
  _ ← lift (file_path_for fs (index_path index));
  data ← read_index_file_bytes fs index;
  lift (index_candidates_from_file_bytes index key data).

(** The bytes of one entry. *)
Definition candidate_bytes (index : BinaryIndexId) (key : bytes) (record_index : N) : result BinaryDbErrorKind bytes :=
  match fixed_key_size index with
  | Some key_size =>
      _ ← fail_if (negb (N.of_nat (length key) =? key_size)%N) InvalidDomainData;
      stored_index ← (if stores_record_index_plus_one index
                      then _ ← fail_if (u32_max <=? record_index)%N InvalidDomainData; Ok (record_index + 1)%N
                      else Ok record_index);
      Ok (key ++ to_le_bytes 4 stored_index)
  | None =>
      _ ← fail_if (u32_max <? N.of_nat (length key))%N Other;
      Ok (to_le_bytes 4 (N.of_nat (length key)) ++ key ++ to_le_bytes 4 record_index)
  end.

Definition append_index_candidate (fs : LocalBinaryDbFs) (index : BinaryIndexId) (key : bytes) (record_index : N)
  (write : BinaryWriteContext) : db unit :=
  _ ← lift (ensure_authorized_path write (index_path index));
  path ← lift (file_path_for fs (index_path index));
  _ ← ensure_parent_directory path;
  len ← io (metadata_len path);
  append_offset ←
    match len with
    | None | Some 0%N => write_layout_header path (index_layout_id index)
    | Some len => _ ← validate_index_file_layout path (index_layout_id index) len; mret len
    end;
  data ← lift (candidate_bytes index key record_index);
  append_at path append_offset data.

(** ** Through the cache of a transaction *)

Abbreviation cached := (stateful (BinaryDbReadCache * io_state) BinaryDbErrorKind).
Definition uncached {A} (m : db A) : cached A := fun '(cache, s) => let '(r, s) := m s in (r, (cache, s)).
Definition update_cache (f : BinaryDbReadCache -> BinaryDbReadCache) : cached unit := modify (fun '(cache, s) => (f cache, s)).
Definition read_cache : cached BinaryDbReadCache := fun '(cache, s) => (Ok cache, (cache, s)).

Definition remember_record_file (file : BinaryFileId) (data : option bytes) (c : BinaryDbReadCache) : BinaryDbReadCache :=
  mkCache (layout_ids c) (<[file_key file := data]> (record_files c)) (index_files c) (parsed_index_candidates c).
Definition remember_index_file (index : BinaryIndexId) (data : option bytes) (c : BinaryDbReadCache) : BinaryDbReadCache :=
  mkCache (layout_ids c) (record_files c) (<[index_key index := data]> (index_files c)) (parsed_index_candidates c).
Definition remember_candidates (index : BinaryIndexId) (parsed : candidate_map) (c : BinaryDbReadCache) : BinaryDbReadCache :=
  mkCache (layout_ids c) (record_files c) (index_files c) (<[index_key index := parsed]> (parsed_index_candidates c)).
Definition remember_layout (file : BinaryFileId) (layout : N) (c : BinaryDbReadCache) : BinaryDbReadCache :=
  mkCache (<[file_key file := layout]> (layout_ids c)) (record_files c) (index_files c) (parsed_index_candidates c).

Definition lookup_index_in_read_txn (fs : LocalBinaryDbFs) (index : BinaryIndexId) (key : bytes) : cached (list N) :=
  _ ← lift (file_path_for fs (index_path index));
  _ ← require (match fixed_key_size index with
               | Some key_size => N.of_nat (length key) =? key_size
               | None => true
               end)%N InvalidDomainData;
  cache ← read_cache;
  _ ← match parsed_index_candidates cache !! index_key index with
      | Some _ => mret tt
      | None =>
          _ ← match index_files cache !! index_key index with
              | Some _ => mret tt
              | None => data ← uncached (read_index_file_bytes fs index); update_cache (remember_index_file index data)
              end;
          cache ← read_cache;
          parsed ← lift (index_candidate_map_from_file_bytes index (default None (index_files cache !! index_key index)));
          update_cache (remember_candidates index parsed)
      end;
  cache ← read_cache;
  mret (default [] (rows ← parsed_index_candidates cache !! index_key index; rows !! key)).

Definition read_record_file_bytes (fs : LocalBinaryDbFs) (file : BinaryFileId) : db (option bytes) :=
  path ← lift (file_path_for fs (relative_path file));
  len ← io (metadata_len path);
  match len with
  | None => mret None
  | Some _ =>
      _ ← ensure_binary_file_valid path (file_layout_id file) (record_size file);
      data ← io (read_bytes_at path);
      mret (Some data)
  end.

Definition record_from_file_bytes (file : BinaryFileId) (record_index : N) (data : option bytes) : result BinaryDbErrorKind bytes :=
  data ← ok_or data MissingData;
  _ ← fail_if (Nat.ltb (length data) 4) Corruption;
  let payload := drop 4 data in
  let offset := (record_index * record_size file)%N in
  _ ← fail_if (usize_max <? offset + record_size file)%N Other;
  _ ← fail_if (N.of_nat (length payload) <? offset + record_size file)%N MissingData;
  Ok (take (N.to_nat (record_size file)) (drop (N.to_nat offset) payload)).

Definition read_record_in_read_txn (fs : LocalBinaryDbFs) (file : BinaryFileId) (record_index : N) : cached bytes :=
  _ ← lift (file_path_for fs (relative_path file));
  cache ← read_cache;
  _ ← match record_files cache !! file_key file with
      | Some _ => mret tt
      | None => data ← uncached (read_record_file_bytes fs file); update_cache (remember_record_file file data)
      end;
  cache ← read_cache;
  lift (record_from_file_bytes file record_index (default None (record_files cache !! file_key file))).

(** ** The two lookups agree *)

Lemma push_candidate_lookup key key' r m :
  default [] (push_candidate key' r m !! key) = if bool_decide (key' = key) then default [] (m !! key) ++ [r] else default [] (m !! key).
Proof.
  unfold push_candidate. destruct (bool_decide_reflect (key' = key)) as [->|Hne]; [by rewrite lookup_insert_eq|].
  by rewrite lookup_insert_ne.
Qed.

Lemma scan_parse_fixed index key size n body m m' :
  parse_fixed index size n body m = Ok m' -> scan_fixed index key size n body (default [] (m !! key)) = Ok (default [] (m' !! key)).
Proof.
  revert body m. induction n as [|n IH]; intros body m H; cbn [parse_fixed scan_fixed] in *; [by injection H as <-|].
  apply bind_Ok in H as (r & Hr & H). apply IH in H. rewrite push_candidate_lookup in H. case_bool_decide.
  - rewrite Hr. exact H.
  - exact H.
Qed.

Lemma scan_parse_variable key fuel body m m' :
  parse_variable fuel body m = Ok m' -> scan_variable key fuel body (default [] (m !! key)) = Ok (default [] (m' !! key)).
Proof.
  revert body m. induction fuel as [|fuel IH]; intros body m H; destruct body as [|b body]; cbn [parse_variable scan_variable] in *;
    try (by injection H as <-); [done|]. set (data := b :: body) in *. clearbody data.
  apply bind_Ok in H as (u1 & Hu1 & H). apply bind_Ok in H as (u2 & Hu2 & H). rewrite Hu1. apply fail_if_Ok, N.ltb_ge in Hu2.
  apply IH in H. rewrite push_candidate_lookup in H. cbn [mbind result_bind]. rewrite (proj2 (N.ltb_ge _ _)) by lia.
  cbn [fail_if mbind result_bind]. rewrite (proj2 (Nat.ltb_ge _ _)) by (rewrite length_drop; lia). rewrite drop_drop. exact H.
Qed.

(** On keys of the right size the direct scan agrees with the parsed file. *)
Lemma scan_of_parsed index data m key : index_candidate_map_from_file_bytes index data = Ok m ->
  (forall key_size, fixed_key_size index = Some key_size -> N.of_nat (length key) = key_size) ->
  index_candidates_from_file_bytes index key data = Ok (default [] (m !! key)).
Proof.
  intros H Hkey. unfold index_candidate_map_from_file_bytes, index_candidates_from_file_bytes in *. destruct data as [data|]; [|by injection H as <-].
  destruct (Nat.eqb (length data) 4); [by injection H as <-|]. cbv zeta in *. destruct (fixed_key_size index) as [key_size|].
  - specialize (Hkey _ eq_refl). apply bind_Ok in H as (u & Hu & H). apply fail_if_Ok, orb_false_iff in Hu as [_ Hu].
    rewrite (proj2 (Nat.eqb_eq (length key) (N.to_nat key_size))) by lia. cbn [negb fail_if mbind result_bind]. rewrite Hu.
    exact (scan_parse_fixed _ key _ _ _ ∅ _ H).
  - exact (scan_parse_variable key _ _ ∅ _ H).
Qed.

(** ** What an index file holds *)

(** The bytes of the index file as [read_index_file_bytes] returns them. *)
Definition index_data (index : BinaryIndexId) (path : PathBuf) (d : gmap PathBuf bytes) : result BinaryDbErrorKind (option bytes) :=
  match d !! path with
  | None => Ok None
  | Some data => _ ← validate_index_file_bytes (index_layout_id index) data; Ok (Some data)
  end.

(** The file at [path] is an index whose candidates are [m]. *)
Definition index_content (index : BinaryIndexId) (path : PathBuf) (d : gmap PathBuf bytes) (m : candidate_map) : Prop :=
  exists data, index_data index path d = Ok data /\ index_candidate_map_from_file_bytes index data = Ok m.

(** What the cache holds for an index is what the files hold. *)
Definition index_coherent (index : BinaryIndexId) (path : PathBuf) (d : gmap PathBuf bytes) (c : BinaryDbReadCache) : Prop :=
  (forall data, index_files c !! index_key index = Some data -> index_data index path d = Ok data) /\
  (forall m, parsed_index_candidates c !! index_key index = Some m -> index_content index path d m).

Definition key_fits (index : BinaryIndexId) (key : bytes) : Prop :=
  forall key_size, fixed_key_size index = Some key_size -> N.of_nat (length key) = key_size.

(** *** Entries at the end of a file *)

Lemma read_le4 n rest : (n <= u32_max)%N -> from_le_bytes (take 4 (to_le_bytes 4 n ++ rest)) = n.
Proof.
  intros Hn. change 4 with (length (to_le_bytes 4 n)) at 1. rewrite take_app_length, from_to_le_bytes; [done|].
  unfold u32_max in Hn. change (256 ^ N.of_nat 4)%N with 4294967296%N. lia.
Qed.

Lemma drop_le4 n rest : drop 4 (to_le_bytes 4 n ++ rest) = rest.
Proof. change 4 with (length (to_le_bytes 4 n)) at 1. apply drop_app_length. Qed.

Lemma parse_fixed_app index size n body e m : length body = n * (size + 4) ->
  parse_fixed index size (n + 1) (body ++ e) m = (m' ← parse_fixed index size n body m; parse_fixed index size 1 e m').
Proof.
  revert body m. induction n as [|n IH]; intros body m Hlen; [by apply length_zero_iff_nil in Hlen as ->|]. cbn [Nat.add].
  change (parse_fixed index size (S (n + 1)) (body ++ e) m) with
    (record_index ← stored_record_index index (from_le_bytes (take 4 (drop size (body ++ e))));
     parse_fixed index size (n + 1) (drop (size + 4) (body ++ e)) (push_candidate (take size (body ++ e)) record_index m)).
  cbn [parse_fixed]. rewrite (drop_app_le body e size), (take_app_le (drop size body)), (take_app_le body e size), (drop_app_le body e (size + 4))
    by (rewrite ?length_drop; lia).
  destruct (stored_record_index index _) as [r|]; [|done]. cbn [mbind result_bind]. rewrite IH by (rewrite length_drop; lia). done.
Qed.

Lemma parse_variable_step fuel data m : data <> [] -> parse_variable (S fuel) data m =
  (_ ← fail_if (Nat.ltb (length data) 4) Corruption;
   let key_len := from_le_bytes (take 4 data) in
   _ ← fail_if (N.of_nat (length (drop 4 data)) <? key_len + 4)%N Corruption;
   parse_variable fuel (drop (N.to_nat key_len + 4) (drop 4 data))
     (push_candidate (take (N.to_nat key_len) (drop 4 data)) (from_le_bytes (take 4 (drop (N.to_nat key_len) (drop 4 data)))) m)).
Proof. by destruct data. Qed.

(** Enough fuel is enough: a round consumes at least 8 bytes. *)
Lemma parse_variable_fuel data k k' m : length data <= k -> length data <= k' -> parse_variable k data m = parse_variable k' data m.
Proof.
  revert k' data m. induction k as [|k IH]; intros k' data m Hk Hk'.
  { assert (data = []) as -> by (apply length_zero_iff_nil; lia). by destruct k'. }
  destruct (decide (data = [])) as [->|Hne]; [by destruct k'|]. destruct k' as [|k'].
  - assert (data = []) by (apply length_zero_iff_nil; lia). done.
  - rewrite !parse_variable_step by done. destruct (Nat.ltb_spec (length data) 4); [done|]. cbn [fail_if mbind result_bind].
    destruct (_ <? _)%N; [done|]. cbn [fail_if mbind result_bind]. apply IH; rewrite !length_drop; lia.
Qed.

Lemma parse_variable_app fuel body e m m' k : parse_variable fuel body m = Ok m' -> length body + length e <= k ->
  parse_variable k (body ++ e) m = parse_variable (length e) e m'.
Proof.
  revert body m k. induction fuel as [|fuel IH]; intros body m k H Hk; (destruct (decide (body = [])) as [->|Hne];
    [injection H as <-; rewrite app_nil_l; apply parse_variable_fuel; cbn in Hk; lia|]); [by destruct body|].
  rewrite parse_variable_step in H by done. apply bind_Ok in H as (u1 & Hu1 & H). apply bind_Ok in H as (u2 & Hu2 & H).
  apply fail_if_Ok, Nat.ltb_ge in Hu1. apply fail_if_Ok, N.ltb_ge in Hu2. destruct k as [|k]; [destruct body; [done|cbn in Hk; lia]|].
  rewrite parse_variable_step by (by destruct body). rewrite (take_app_le body e 4), (drop_app_le body e 4) by done. cbv zeta.
  rewrite (proj2 (Nat.ltb_ge _ _)) by (rewrite length_app; lia). cbn [fail_if mbind result_bind].
  set (kl := from_le_bytes (take 4 body)) in *. rewrite length_drop in Hu2.
  rewrite (proj2 (N.ltb_ge _ _)) by (rewrite length_app, length_drop; lia). cbn [fail_if mbind result_bind].
  rewrite (drop_app_le _ e (N.to_nat kl)), (take_app_le _ e (N.to_nat kl)), (take_app_le _ e 4), (drop_app_le _ e (N.to_nat kl + 4))
    by (rewrite ?length_drop; lia).
  apply IH; [exact H|]. rewrite !length_drop. lia.
Qed.

(** The entry that [append_index_candidate] writes, at the end of a file. *)
Lemma append_entry index data m key r entry : index_candidate_map_from_file_bytes index (Some data) = Ok m ->
  4 <= length data -> (r <= u32_max)%N -> candidate_bytes index key r = Ok entry ->
  index_candidate_map_from_file_bytes index (Some (data ++ entry)) = Ok (push_candidate key r m).
Proof.
  intros Hm H4 Hr He. unfold index_candidate_map_from_file_bytes, candidate_bytes in *. rewrite length_app, drop_app_le by lia.
  set (body := drop 4 data) in *. assert (length data = 4 + length body) as Hd by (unfold body; rewrite length_drop; lia).
  destruct (fixed_key_size index) as [key_size|] eqn:Hfix; cbv zeta in *.
  - apply bind_Ok in He as (u & Hu & He). apply fail_if_Ok, negb_false_iff, N.eqb_eq in Hu. apply bind_Ok in He as (stored & Hs & He). assert (key ++ to_le_bytes 4 stored = entry) as <- by congruence. clear He.
    assert ((stored <= u32_max)%N /\ stored_record_index index stored = Ok r) as [Hsmax Hback].
    { unfold stored_record_index. destruct (stores_record_index_plus_one index).
      - apply bind_Ok in Hs as (u' & Hu' & [= <-]). apply fail_if_Ok, N.leb_gt in Hu'. rewrite (proj2 (N.eqb_neq _ _)) by lia. split; [lia|f_equal; lia].
      - by injection Hs as ->. }
    assert (exists n, length body = n * (N.to_nat key_size + 4) /\ parse_fixed index (N.to_nat key_size) n body ∅ = Ok m) as (n & Hn & Hparse).
    { destruct (Nat.eqb_spec (length data) 4) as [Hz|Hz].
      - exists 0. injection Hm as <-. split; [cbn; lia|done].
      - apply bind_Ok in Hm as (u' & Hu' & Hm). apply fail_if_Ok, orb_false_iff in Hu' as [_ Hu'%negb_false_iff%Nat.eqb_eq].
        exists (length body / (N.to_nat key_size + 4)). split; [|done]. pose proof (Nat.div_mod_eq (length body) (N.to_nat key_size + 4)). lia. }
    assert (length (body ++ key ++ to_le_bytes 4 stored) = (n + 1) * (N.to_nat key_size + 4)) as Hlen
      by (rewrite !length_app, length_to_le_bytes; lia).
    rewrite !length_app, length_to_le_bytes in *. rewrite (proj2 (Nat.eqb_neq _ _)), (proj2 (Nat.ltb_ge _ _)) by lia.
    rewrite Hlen, Nat.Div0.mod_mul, Nat.div_mul by lia. cbn [Nat.eqb negb orb fail_if mbind result_bind].
    rewrite parse_fixed_app, Hparse by done. cbn [mbind result_bind parse_fixed].
    replace (N.to_nat key_size) with (length key) by lia. rewrite drop_app_length, take_app_length.
    rewrite <- (app_nil_r (to_le_bytes 4 stored)), read_le4 by done. by rewrite Hback.
  - apply bind_Ok in He as (u & Hu & He). apply fail_if_Ok, N.ltb_ge in Hu.
    assert (to_le_bytes 4 (N.of_nat (length key)) ++ key ++ to_le_bytes 4 r = entry) as <- by congruence. clear He.
    rewrite !length_app, !length_to_le_bytes. rewrite (proj2 (Nat.eqb_neq _ _)) by lia.
    assert (parse_variable (length body) body ∅ = Ok m) as Hparse.
    { destruct (Nat.eqb_spec (length data) 4) as [Hz|Hz]; [|done]. injection Hm as <-.
      assert (body = []) as -> by (apply length_zero_iff_nil; lia). done. }
    rewrite (parse_variable_app _ _ _ _ _ _ Hparse) by (rewrite !length_app, !length_to_le_bytes; lia).
    set (entry := to_le_bytes 4 (N.of_nat (length key)) ++ key ++ to_le_bytes 4 r).
    destruct (length entry) as [|k] eqn:Hk; [unfold entry in Hk; rewrite !length_app, length_to_le_bytes in Hk; lia|].
    rewrite parse_variable_step by (intros Hnil; by rewrite Hnil in Hk). rewrite (proj2 (Nat.ltb_ge _ _)).
    2:{ unfold entry. rewrite !length_app, length_to_le_bytes. lia. }
    assert (from_le_bytes (take 4 entry) = N.of_nat (length key)) as -> by (by apply read_le4).
    assert (drop 4 entry = key ++ to_le_bytes 4 r) as -> by apply drop_le4. cbn [fail_if mbind result_bind]. cbv zeta.
    rewrite (proj2 (N.ltb_ge _ _)) by (rewrite length_app, length_to_le_bytes; lia). cbn [fail_if mbind result_bind].
    rewrite Nat2N.id, drop_app_length, take_app_length, <- drop_drop, drop_app_length.
    rewrite <- (app_nil_r (to_le_bytes 4 r)), read_le4, drop_le4 by done. by destruct k.
Qed.

(** *** Operations on a directory without failures *)

Lemma validate_bytes_Ok layout data u : validate_index_file_bytes layout data = Ok u <-> 4 <= length data /\ from_le_bytes (take 4 data) = layout.
Proof.
  unfold validate_index_file_bytes, read_u32_le. destruct (Nat.eqb_spec (length data) 0) as [Hz|Hz]; cbn [fail_if mbind result_bind]; [split; [done|lia]|].
  destruct (Nat.ltb_spec (length data) 4) as [Hl|Hl]; cbn [fail_if mbind result_bind]; [split; [done|lia]|].
  rewrite length_take, Nat.min_l by lia. cbn [Nat.eqb negb fail_if mbind result_bind]. rewrite fail_if_Ok, negb_false_iff, N.eqb_eq. tauto.
Qed.

Lemma validate_layout_run {du : gmap PathBuf bytes} path layout data d : d !! path = Some data -> validate_index_file_bytes layout data = Ok tt ->
  validate_index_file_layout path layout (N.of_nat (length data)) (mkIo du d []) = (Ok tt, mkIo du d []).
Proof.
  intros Hd [H4 Hl]%validate_bytes_Ok. unfold validate_index_file_layout.
  erewrite bind_io by (apply read_range_works; [exact Hd|lia]). rewrite N.min_r by lia. change (N.to_nat 4) with 4. change (N.to_nat 0) with 0.
  rewrite drop_0. unfold lift. f_equal. apply validate_bytes_Ok. rewrite length_take, take_take. split; [lia|]. by rewrite Nat.min_l by lia.
Qed.

Lemma index_data_insert index path d data : validate_index_file_bytes (index_layout_id index) data = Ok tt ->
  index_data index path (<[path := data]> d) = Ok (Some data).
Proof. intros H. unfold index_data. by rewrite lookup_insert_eq, H. Qed.

Section Index.
Context (fs : LocalBinaryDbFs) (index : BinaryIndexId) (path : PathBuf) {du : gmap PathBuf bytes}.
Context (Hpath : file_path_for fs (index_path index) = Ok path).

Lemma read_index_run d : read_index_file_bytes fs index (mkIo du d []) = (index_data index path d, mkIo du d []).
Proof.
  unfold read_index_file_bytes, index_data. erewrite bind_run by (by rewrite Hpath).
  erewrite bind_run by (unfold io, map_error; by rewrite metadata_len_works). destruct (d !! path) as [data|] eqn:Hd; [|done].
  erewrite bind_run by (unfold io, map_error, read_bytes_at; by rewrite query_works, Hd).
  unfold mbind, stateful_bind, lift. by destruct (validate_index_file_bytes _ data).
Qed.

Lemma lookup_run d m key : index_content index path d m -> key_fits index key ->
  lookup_index fs index key (mkIo du d []) = (Ok (default [] (m !! key)), mkIo du d []).
Proof.
  intros (data & Hdata & Hm) Hkey. unfold lookup_index. erewrite bind_run by (by rewrite Hpath).
  erewrite bind_run by (rewrite read_index_run; by rewrite Hdata). unfold lift. by rewrite (scan_of_parsed _ _ _ _ Hm Hkey).
Qed.

(** The lookup through the cache of a transaction agrees with the direct
    one: if the cache reflects the index file, then whenever the cached lookup
    succeeds, so does the direct scan of the file, with the same candidates in
    the same order; the cache still reflects the file afterwards, and the files
    are unchanged. *)
Theorem cached_lookup_agrees d c key rows c' s' : index_coherent index path d c ->
  lookup_index_in_read_txn fs index key (c, mkIo du d []) = (Ok rows, (c', s')) ->
  lookup_index fs index key (mkIo du d []) = (Ok rows, mkIo du d []) /\ index_coherent index path d c' /\ s' = mkIo du d [].
Proof.
  intros [Hfiles Hparsed] H. unfold lookup_index_in_read_txn in H. apply bind_run_Ok in H as (p & [c0 s0] & [= Hp <- <-] & H).
  apply bind_run_Ok in H as (u & [c0 s0] & Hu & H). apply pair_equal_spec in Hu as [Hu%fail_if_Ok%negb_false_iff [= <- <-]].
  assert (key_fits index key) as Hkey by (intros key_size Hfix; rewrite Hfix in Hu; by apply N.eqb_eq).
  apply bind_run_Ok in H as (cache & [c0 s0] & [= <- <- <-] & H). apply bind_run_Ok in H as (u' & [c1 s1] & Hfill & H).
  apply bind_run_Ok in H as (cache & [c0 s0] & [= <- <- <-] & H). injection H as <- <- <-.
  assert (exists m, parsed_index_candidates c1 !! index_key index = Some m /\ index_content index path d m /\
    index_coherent index path d c1 /\ s1 = mkIo du d []) as (m & Hm & Hcontent & Hcoh & ->).
  { destruct (parsed_index_candidates c !! index_key index) as [m|] eqn:Hm.
    - injection Hfill as _ <- <-. exists m. split_and!; [done|by apply Hparsed|split; [done|intros m0; rewrite Hm; apply Hparsed]|done].
    - apply bind_run_Ok in Hfill as (u2 & [c2 s2] & Hload & Hfill).
      assert (exists data, index_files c2 !! index_key index = Some data /\ index_data index path d = Ok data /\ s2 = mkIo du d [] /\
        parsed_index_candidates c2 = parsed_index_candidates c) as (data & Hc2 & Hdata & -> & Hsame).
      { destruct (index_files c !! index_key index) as [data|] eqn:Hf.
        - injection Hload as _ <- <-. exists data. split_and!; [done|by apply Hfiles|done|done].
        - apply bind_run_Ok in Hload as (data & [c3 s3] & Hread & Hload). unfold uncached in Hread. rewrite read_index_run in Hread.
          injection Hread as Hdata <- <-. injection Hload as _ <- <-. exists data. split_and!; [|done..]. cbn. by rewrite lookup_insert_eq. }
      apply bind_run_Ok in Hfill as (cache & [c3 s3] & [= <- <- <-] & Hfill). rewrite Hc2 in Hfill.
      apply bind_run_Ok in Hfill as (parsed & [c3 s3] & [= Hp' <- <-] & Hfill). injection Hfill as _ <- <-.
      assert (index_content index path d parsed) as Hcontent by (by exists data). exists parsed. split_and!; [|done| |done].
      + cbn. by rewrite lookup_insert_eq.
      + split; cbn; [|intros m'; rewrite lookup_insert_eq; by intros [= <-]]. intros data'. rewrite Hc2. by intros [= <-]. }
  rewrite Hm. split_and!; [by apply lookup_run|done|done].
Qed.

Lemma append_candidate_run d m key record_index entry write : index_content index path d m ->
  (index_layout_id index <= u32_max)%N -> ensure_authorized_path write (index_path index) = Ok tt ->
  (record_index <= u32_max)%N -> candidate_bytes index key record_index = Ok entry ->
  let d' := <[path := default (to_le_bytes 4 (index_layout_id index)) (d !! path) ++ entry]> d in
  append_index_candidate fs index key record_index write (mkIo du d []) = (Ok tt, mkIo du d' []) /\
    index_content index path d' (push_candidate key record_index m).
Proof.
  intros (data & Hdata & Hm) Hlayout Hwrite Hr He.
  set (old := default (to_le_bytes 4 (index_layout_id index)) (d !! path)).
  assert (append_index_candidate fs index key record_index write (mkIo du d []) = (Ok tt, mkIo du (<[path := old ++ entry]> d) []) /\
    index_candidate_map_from_file_bytes index (Some old) = Ok m /\ validate_index_file_bytes (index_layout_id index) old = Ok tt)
    as (Hrun & Hold & Hvalid).
  { unfold old. unfold append_index_candidate. erewrite bind_run by (by rewrite Hwrite). erewrite bind_run by (by rewrite Hpath). erewrite bind_run by done.
    erewrite bind_run by (unfold io, map_error; by rewrite metadata_len_works). unfold index_data in Hdata.
    destruct (d !! path) as [cur|] eqn:Hd; cbn [default from_option id].
    - apply bind_Ok in Hdata as ([] & Hvalid & [= <-]). split; [|done]. pose proof (proj1 (validate_bytes_Ok _ _ _) Hvalid) as [H4 _].
      destruct (N.of_nat (length cur)) as [|p] eqn:Hlen; [lia|]. rewrite <- Hlen. clear p Hlen.
      apply (bind_run_to _ _ _ (N.of_nat (length cur)) (mkIo du d [])).
      { by erewrite bind_run by (by apply validate_layout_run). }
      erewrite bind_lift by exact He. by apply append_at_run.
    - injection Hdata as <-. injection Hm as <-.
      assert (validate_index_file_bytes (index_layout_id index) (to_le_bytes 4 (index_layout_id index)) = Ok tt) as Hvalid.
      { apply validate_bytes_Ok. rewrite length_to_le_bytes. split; [done|]. rewrite <- (app_nil_r (to_le_bytes 4 _)). by apply read_le4. }
      split; [|split; [done|exact Hvalid]]. erewrite bind_run by (apply write_header_run; by rewrite Hd).
      erewrite bind_lift by exact He.
      change 4%N with (N.of_nat (length (to_le_bytes 4 (index_layout_id index)))).
      erewrite append_at_run by apply lookup_insert_eq. by rewrite insert_insert_eq. }
  split; [exact Hrun|]. exists (Some (old ++ entry)). pose proof (proj1 (validate_bytes_Ok _ _ _) Hvalid) as [H4 Hl].
  split; [|by apply append_entry]. apply index_data_insert, validate_bytes_Ok. rewrite take_app_le, length_app by done. split; [lia|done].
Qed.

(** Appending a candidate: on an index file (or none yet) that holds the
    candidates [m], an authorized append of an entry that the index can hold
    succeeds; the file then holds [m] with the record index added behind the
    candidates of its key, so that every lookup sees exactly that, and no other
    file changes. *)
Theorem append_candidate_content d m key record_index entry write : index_content index path d m ->
  (index_layout_id index <= u32_max)%N -> ensure_authorized_path write (index_path index) = Ok tt ->
  (record_index <= u32_max)%N -> candidate_bytes index key record_index = Ok entry ->
  exists d', append_index_candidate fs index key record_index write (mkIo du d []) = (Ok tt, mkIo du d' []) /\
    index_content index path d' (push_candidate key record_index m) /\ (forall p, p <> path -> d' !! p = d !! p) /\
    forall key', key_fits index key' -> lookup_index fs index key' (mkIo du d' []) =
      (Ok (default [] (m !! key') ++ (if bool_decide (key = key') then [record_index] else [])), mkIo du d' []).
Proof.
  intros Hm Hl Hw Hr He. destruct (append_candidate_run d m key record_index entry write Hm Hl Hw Hr He) as [Hrun Hcontent].
  eexists. split_and!; [exact Hrun|exact Hcontent|by intros; apply lookup_insert_ne|]. intros key' Hkey'. rewrite (lookup_run _ _ _ Hcontent Hkey').
  rewrite push_candidate_lookup. case_bool_decide; [done|by rewrite app_nil_r].
Qed.
End Index.

Lemma cached_lookup_agrees_witness :
  let fs := mkDb [RootDir; Normal "db"%string] None None None in
  let index := mkIndexId "k.idx" 3 (Some 2%N) true in
  let path := [RootDir; Normal "db"%string; Normal "k.idx"%string] in
  let key := [Byte.x61; Byte.x62] in
  let d : gmap PathBuf bytes := {[path := to_le_bytes 4 3 ++ key ++ to_le_bytes 4 6 ++ [Byte.x00; Byte.x00] ++ to_le_bytes 4 1 ++ key ++ to_le_bytes 4 2]} in
  exists c', lookup_index fs index key (mkIo ∅ d []) = (Ok [5%N; 1%N], mkIo ∅ d []) /\ index_coherent index path d c'.
Proof.
  intros fs index path key d.
  eexists. refine ((fun H => conj (proj1 H) (proj1 (proj2 H))) (cached_lookup_agrees fs index path (du := ∅) _ d empty_cache key [5%N; 1%N] _ _ _ _)).
  - reflexivity.
  - split; intros ?; cbn; by rewrite lookup_empty.
  - vm_compute. reflexivity.
Defined.

Lemma append_candidate_content_witness :
  let fs := mkDb [RootDir; Normal "db"%string] None None None in
  let index := mkIndexId "k.idx" 3 (Some 2%N) true in
  let path := [RootDir; Normal "db"%string; Normal "k.idx"%string] in
  let key := [Byte.x61; Byte.x62] in
  let write := mkWriteContext General true in
  exists d', append_index_candidate fs index key 5 write (mkIo ∅ ∅ []) = (Ok tt, mkIo ∅ d' []) /\
    index_content index path d' (push_candidate key 5 ∅) /\ (forall p, p <> path -> d' !! p = (∅ : gmap PathBuf bytes) !! p) /\
    forall key', key_fits index key' -> lookup_index fs index key' (mkIo ∅ d' []) =
      (Ok (default [] ((∅ : candidate_map) !! key') ++ (if bool_decide (key = key') then [5%N] else [])), mkIo ∅ d' []).
Proof.
  intros fs index path key write.
  refine (append_candidate_content fs index path (du := ∅) _ ∅ ∅ key 5 (key ++ to_le_bytes 4 6) write _ _ _ _ _).
  - reflexivity.
  - exists None. split; reflexivity.
  - by vm_compute.
  - reflexivity.
  - by vm_compute.
  - reflexivity.
Defined.

(** ** Effects, whatever fails *)

Lemma effect_index_layout R `{!OnDisk R} path layout len : preserves R (validate_index_file_layout path layout len).
Proof. unfold validate_index_file_layout. effects. Qed.
#[export] Hint Resolve effect_index_layout : effects.

Lemma effect_append_index_candidate fs index key r write path : (forall q, file_path_for fs (index_path index) = Ok q -> q = path) ->
  preserves (only_appends path) (append_index_candidate fs index key r write).
Proof. intros Hp. unfold append_index_candidate. effects. all: at_path Hp. Qed.

Lemma effect_read_index R `{!OnDisk R} fs index : preserves R (read_index_file_bytes fs index).
Proof. unfold read_index_file_bytes, read_bytes_at. effects. Qed.

(** The cached lookup reads at most. *)
Lemma effect_cached_lookup fs index key c s : disk (snd (snd (lookup_index_in_read_txn fs index key (c, s)))) = disk s.
Proof.
  set (R := fun x y : BinaryDbReadCache * io_state => disk (snd y) = disk (snd x)).
  assert (PreOrder R) as HR by (split; [done|intros x y z Hxy Hyz; unfold R in *; congruence]).
  assert (forall f, preserves R (update_cache f)) as Hupdate by (by intros f [c0 s0]).
  assert (preserves R read_cache) as Hread by (by intros [c0 s0]).
  assert (preserves R (uncached (read_index_file_bytes fs index))) as Hload.
  { intros [c0 s0]. unfold uncached, R. pose proof (effect_read_index same_disk fs index s0) as H.
    destruct (read_index_file_bytes fs index s0) as [r s1]. exact H. }
  assert (preserves R (lookup_index_in_read_txn fs index key)) as H.
  { unfold lookup_index_in_read_txn. effects. }
  exact (H (c, s)).
Qed.
