(* ===== verification/ReadTxn.v ===== *)
(** * Read transactions

    [ait-core/src/binary_db/read_txn.rs]: a read transaction remembers the
    layouts, the record files and the index files that it has read. What it
    remembers stays true while it holds its locks, so that a read through the
    transaction is a read of the files. *)

From Stdlib Require Import NArith Lia.
From Stdlib Require Strings.Byte.
From stdpp Require Import base numbers strings gmap list.
From S2P Require Import Prelude Codec FileStore BinaryDb BinaryIndex.

(** [layout_id]; a failure is not remembered. *)
Definition read_txn_layout_id (fs : LocalBinaryDbFs) (file : BinaryFileId) : cached N :=
  cache ← read_cache;
  match layout_ids cache !! file_key file with
  | Some layout => mret layout
  | None => layout ← uncached (layout_id fs file); _ ← update_cache (remember_layout file layout); mret layout
  end.
Definition read_txn_record_count (fs : LocalBinaryDbFs) (file : BinaryFileId) : cached N := uncached (record_count fs file).
Definition read_txn_payload (fs : LocalBinaryDbFs) (file : BinaryPayloadFileId) (offset len : N) : cached bytes :=
  uncached (read_payload fs file offset len).

(** ** The reads as functions of the files *)

Definition layout_of (path : PathBuf) (d : gmap PathBuf bytes) : result BinaryDbErrorKind N :=
  data ← ok_or (d !! path) MissingData;
  _ ← fail_if (Nat.ltb (length data) 4) Corruption;
  Ok (from_le_bytes (take 4 data)).

(** The number of rows of a record file. *)
Definition rows_of (layout size : N) (data : bytes) : result BinaryDbErrorKind N :=
  _ ← fail_if (Nat.ltb (length data) 4) Corruption;
  _ ← fail_if (size =? 0)%N InvalidDomainData;
  _ ← fail_if (negb (from_le_bytes (take 4 data) =? layout)%N) LayoutMismatch;
  let payload_size := (N.of_nat (length data) - 4)%N in
  _ ← fail_if (negb (payload_size mod size =? 0)%N) Corruption;
  Ok (payload_size / size)%N.

Definition record_file_of (file : BinaryFileId) (path : PathBuf) (d : gmap PathBuf bytes) : result BinaryDbErrorKind (option bytes) :=
  match d !! path with
  | None => Ok None
  | Some data => _ ← rows_of (file_layout_id file) (record_size file) data; Ok (Some data)
  end.

Lemma read_layout_pure {du : gmap PathBuf bytes} path d data : d !! path = Some data -> 4 <= length data ->
  read_layout_id path (mkIo du d []) = (Ok (from_le_bytes (take 4 data)), mkIo du d []).
Proof.
  intros Hd Hlen. unfold read_layout_id. erewrite bind_io by (apply read_range_works; [exact Hd|unfold BIN_FILE_HEADER_BYTES; lia]).
  change (N.to_nat 0) with 0. rewrite drop_0. change (N.to_nat BIN_FILE_HEADER_BYTES) with 4. unfold lift, read_u32_le.
  rewrite length_take, Nat.min_l by done. done.
Qed.

Lemma rows_of_length layout size data n : rows_of layout size data = Ok n ->
  N.of_nat (length data) = (4 + n * size)%N /\ (0 < size)%N /\ from_le_bytes (take 4 data) = layout.
Proof.
  unfold rows_of. intros H. inv_ok. apply Nat.ltb_ge in Hok. apply N.eqb_neq in Hok0. apply negb_false_iff, N.eqb_eq in Hok1, Hok2.
  pose proof (N.div_mod (N.of_nat (length data) - 4) size Hok0). split_and!; [lia|lia|done].
Qed.

Section Files.
Context (fs : LocalBinaryDbFs) {du : gmap PathBuf bytes}.
Implicit Types (d : gmap PathBuf bytes) (file : BinaryFileId) (path : PathBuf).

Lemma layout_id_pure d file path : file_path_for fs (relative_path file) = Ok path ->
  layout_id fs file (mkIo du d []) = (layout_of path d, mkIo du d []).
Proof.
  intros Hp. unfold layout_id, layout_of. erewrite bind_lift by exact Hp. erewrite bind_io by apply metadata_len_works.
  destruct (d !! path) as [data|] eqn:Hd; [|done]. erewrite bind_lift by done. cbn [ok_or mbind result_bind].
  destruct (Nat.ltb_spec (length data) 4) as [Hl|Hl].
  - unfold require. rewrite (proj2 (N.leb_gt _ _)) by (unfold BIN_FILE_HEADER_BYTES; lia). done.
  - rewrite bind_require by (apply N.leb_le; unfold BIN_FILE_HEADER_BYTES; lia). by rewrite (read_layout_pure _ _ data).
Qed.

Lemma rows_pure d path layout size : ensure_binary_file_valid path layout size (mkIo du d []) =
  (data ← ok_or (d !! path) MissingData; rows_of layout size data, mkIo du d []).
Proof.
  unfold ensure_binary_file_valid, rows_of. erewrite bind_io by apply metadata_len_works.
  destruct (d !! path) as [data|] eqn:Hd; [|done]. erewrite bind_lift by done. cbn [ok_or mbind result_bind].
  destruct (Nat.ltb_spec (length data) 4) as [Hl|Hl]; cbn [fail_if mbind result_bind].
  { unfold require. rewrite (proj2 (N.leb_gt _ _)) by (unfold BIN_FILE_HEADER_BYTES; lia). done. }
  rewrite bind_require by (apply N.leb_le; unfold BIN_FILE_HEADER_BYTES; lia). destruct (N.eqb_spec size 0) as [->|Hs]; [done|].
  rewrite bind_require by done. erewrite bind_run by (by apply (read_layout_pure _ _ data)).
  destruct (N.eqb_spec (from_le_bytes (take 4 data)) layout) as [He|He]; [rewrite bind_require by done|done]. cbn [negb fail_if mbind result_bind].
  unfold require. change BIN_FILE_HEADER_BYTES with 4%N. by destruct (((N.of_nat (length data) - 4) mod size =? 0)%N).
Qed.

Lemma record_file_pure d file path : file_path_for fs (relative_path file) = Ok path ->
  read_record_file_bytes fs file (mkIo du d []) = (record_file_of file path d, mkIo du d []).
Proof.
  intros Hp. unfold read_record_file_bytes, record_file_of. erewrite bind_lift by exact Hp. erewrite bind_io by apply metadata_len_works.
  destruct (d !! path) as [data|] eqn:Hd; [|done]. cbn [fmap option_fmap option_map]. unfold mbind at 1, stateful_bind. rewrite rows_pure, Hd.
  cbn [ok_or mbind result_bind]. destruct (rows_of _ _ data); [|done].
  erewrite bind_io by (unfold read_bytes_at; by rewrite query_works, Hd). done.
Qed.

Lemma record_count_pure d file path : file_path_for fs (relative_path file) = Ok path ->
  record_count fs file (mkIo du d []) =
    (match d !! path with
     | None => Ok 0%N
     | Some data => n ← rows_of (file_layout_id file) (record_size file) data; _ ← fail_if (u32_max <? n)%N Corruption; Ok n
     end, mkIo du d []).
Proof.
  intros Hp. unfold record_count. erewrite bind_lift by exact Hp. erewrite bind_io by apply metadata_len_works.
  destruct (d !! path) as [data|] eqn:Hd; [|done]. cbn [fmap option_fmap option_map]. unfold mbind at 1, stateful_bind. rewrite rows_pure, Hd.
  cbn [ok_or mbind result_bind]. destruct (rows_of _ _ data) as [n|e]; [|done]. unfold require. rewrite N.leb_antisym, negb_involutive.
  cbn [mbind result_bind]. by destruct (u32_max <? n)%N.
Qed.

(** ** Coherent caches *)

(** What the cache remembers is what the files say. *)
Record coherent (d : gmap PathBuf bytes) (c : BinaryDbReadCache) : Prop := {
  co_layouts : forall file path layout, file_path_for fs (relative_path file) = Ok path ->
    layout_ids c !! file_key file = Some layout -> layout_of path d = Ok layout;
  co_records : forall file path data, file_path_for fs (relative_path file) = Ok path ->
    record_files c !! file_key file = Some data -> record_file_of file path d = Ok data;
  co_indexes : forall index path, file_path_for fs (index_path index) = Ok path -> index_coherent index path d c
}.

Lemma empty_coherent d : coherent d empty_cache.
Proof. split; [| |intros index path _; split]; intros *; cbn; rewrite lookup_empty; done. Qed.

(** The path of a file is determined by what identifies it. *)
Lemma path_of_components p q path path' : components p = components q -> file_path_for fs p = Ok path -> file_path_for fs q = Ok path' -> path = path'.
Proof.
  intros Hc Hp%file_path_store_path Hq%file_path_store_path. unfold store_path_for in *. rewrite Hc in Hp. congruence.
Qed.

Lemma record_file_key d file file' path path' : file_key file = file_key file' -> file_path_for fs (relative_path file) = Ok path ->
  file_path_for fs (relative_path file') = Ok path' -> path = path' /\ record_file_of file path d = record_file_of file' path' d.
Proof.
  intros [= Hc Hs Hl] Hp Hp'. assert (path = path') as -> by (by eapply path_of_components). split; [done|]. unfold record_file_of. by rewrite Hs, Hl.
Qed.

Lemma coherent_layout d c file path layout : coherent d c -> file_path_for fs (relative_path file) = Ok path -> layout_of path d = Ok layout ->
  coherent d (remember_layout file layout c).
Proof.
  intros [Hl Hr Hi] Hp Hlay. split; [|exact Hr|exact Hi]. intros file' path' layout' Hp'. cbn.
  destruct (decide (file_key file = file_key file')) as [He|Hne]; [|rewrite lookup_insert_ne by done; by apply Hl].
  rewrite He, lookup_insert_eq. intros [= <-]. by destruct (record_file_key d file file' path path' He Hp Hp') as [<- _].
Qed.

Lemma coherent_record_file d c file path data : coherent d c -> file_path_for fs (relative_path file) = Ok path -> record_file_of file path d = Ok data ->
  coherent d (remember_record_file file data c).
Proof.
  intros [Hl Hr Hi] Hp Hdata. split; [exact Hl| |exact Hi]. intros file' path' data' Hp'. cbn.
  destruct (decide (file_key file = file_key file')) as [He|Hne]; [|rewrite lookup_insert_ne by done; by apply Hr].
  rewrite He, lookup_insert_eq. intros [= <-]. destruct (record_file_key d file file' path path' He Hp Hp') as [<- Heq]. by rewrite <- Heq.
Qed.

(** ** Reading through a transaction *)

(** Whatever the cache remembers, [m] gives [r] and leaves the files alone. *)
Definition reads {A : Type} (d : gmap PathBuf bytes) (m : cached A) (r : result BinaryDbErrorKind A) : Prop :=
  forall c, coherent d c -> exists c', m (c, mkIo du d []) = (r, (c', mkIo du d [])) /\ coherent d c'.

Lemma reads_ret {A : Type} d (a : A) : reads d (mret a) (Ok a).
Proof. intros c Hc. by exists c. Qed.

Lemma reads_lift {A : Type} d (r : result BinaryDbErrorKind A) : reads d (lift r) r.
Proof. intros c Hc. by exists c. Qed.

Lemma reads_bind {A B : Type} d (m : cached A) (k : A -> cached B) r r' : reads d m r ->
  match r with Ok a => reads d (k a) r' | Err e => r' = Err e end -> reads d (m ≫= k) r'.
Proof.
  intros Hm Hk c Hc. destruct (Hm c Hc) as (c1 & Hrun & Hc1). unfold mbind, stateful_bind. rewrite Hrun.
  destruct r as [a|e]; [by apply Hk|]. rewrite Hk. by exists c1.
Qed.

Lemma reads_step {A B : Type} d (m : cached A) (k : A -> cached B) a r : reads d m (Ok a) -> reads d (k a) r -> reads d (m ≫= k) r.
Proof. intros Hm Hk. by apply (reads_bind d m k (Ok a)). Qed.

Lemma reads_uncached {A : Type} d (m : db A) r : m (mkIo du d []) = (r, mkIo du d []) -> reads d (uncached m) r.
Proof. intros Hm c Hc. exists c. unfold uncached. by rewrite Hm. Qed.

Lemma reads_layout d file path : file_path_for fs (relative_path file) = Ok path -> reads d (read_txn_layout_id fs file) (layout_of path d).
Proof.
  intros Hp c Hc. unfold read_txn_layout_id. erewrite bind_run by done.
  destruct (layout_ids c !! file_key file) as [layout|] eqn:Hl; [exists c; by rewrite (co_layouts _ _ Hc _ _ _ Hp Hl)|].
  unfold mbind, stateful_bind, uncached. rewrite (layout_id_pure _ _ _ Hp). destruct (layout_of path d) as [layout|e] eqn:He; [|by exists c].
  exists (remember_layout file layout c). split; [done|]. by apply (coherent_layout d c file path).
Qed.

Lemma reads_record d file path i : file_path_for fs (relative_path file) = Ok path ->
  reads d (read_record_in_read_txn fs file i) (data ← record_file_of file path d; record_from_file_bytes file i data).
Proof.
  intros Hp c Hc. unfold read_record_in_read_txn. erewrite bind_run by (by rewrite Hp). erewrite bind_run by done.
  destruct (record_files c !! file_key file) as [data|] eqn:Hf.
  - exists c. erewrite bind_run by done. erewrite bind_run by done. rewrite Hf, (co_records _ _ Hc _ _ _ Hp Hf). done.
  - unfold mbind, stateful_bind, uncached. rewrite (record_file_pure _ _ _ Hp). destruct (record_file_of file path d) as [data|e] eqn:He; [|by exists c].
    exists (remember_record_file file data c). split; [|by apply (coherent_record_file d c file path)].
    unfold update_cache, modify. cbn. by rewrite lookup_insert_eq.
Qed.

Lemma index_file_key d index index' path path' m : index_key index = index_key index' -> file_path_for fs (index_path index) = Ok path ->
  file_path_for fs (index_path index') = Ok path' -> path = path' /\ index_data index path d = index_data index' path' d /\
    (index_content index path d m -> index_content index' path' d m).
Proof.
  intros [= Hc Hl Hk Hs] Hp Hp'. assert (path = path') as -> by (by eapply path_of_components).
  assert (index_data index path' d = index_data index' path' d) as Hd by (unfold index_data; by rewrite Hl). split_and!; [done|done|].
  intros (data & Hdata & Hm). exists data. split; [by rewrite <- Hd|]. rewrite <- Hm. unfold index_candidate_map_from_file_bytes. rewrite Hk.
  destruct data as [data|]; [|done]. destruct (Nat.eqb _ _); [done|]. destruct (fixed_key_size index'); [|done].
  cbv zeta. assert (forall n size body m', parse_fixed index' size n body m' = parse_fixed index size n body m') as Heq;
    [|destruct (fail_if _ _) as [u|]; [|done]; cbn [mbind result_bind]; by rewrite Heq].
  intros n' size' body. induction n' as [|n' IH] in body |- *; intros m'; [done|]. cbn. unfold stored_record_index. rewrite Hs.
  destruct (stores_record_index_plus_one index'); [destruct (_ =? 0)%N; [done|]|]; cbn; apply IH.
Qed.

Lemma coherent_index d c c' index path : coherent d c -> file_path_for fs (index_path index) = Ok path -> layout_ids c' = layout_ids c ->
  record_files c' = record_files c -> index_coherent index path d c' ->
  (forall k, k <> index_key index -> index_files c' !! k = index_files c !! k /\ parsed_index_candidates c' !! k = parsed_index_candidates c !! k) ->
  coherent d c'.
Proof.
  intros [Hl Hr Hi] Hp Hlay Hrec [Hf Hm] Hother. split; [by rewrite Hlay|by rewrite Hrec|]. intros index' path' Hp'.
  destruct (decide (index_key index = index_key index')) as [He|Hne].
  - split; [intros data|intros m]; rewrite <- He; intros H.
    + destruct (index_file_key d index index' path path' ∅ He Hp Hp') as (_ & <- & _). by apply Hf.
    + destruct (index_file_key d index index' path path' m He Hp Hp') as (_ & _ & Himp). by apply Himp, Hm.
  - destruct (Hother (index_key index')) as [H1 H2]; [done|]. destruct (Hi index' path' Hp') as [Hf' Hm']. split; [by rewrite H1|by rewrite H2].
Qed.

(** The lookup through a cache that is right about one index. *)
Lemma cached_lookup_run d c index path m key : file_path_for fs (index_path index) = Ok path -> index_content index path d m -> key_fits index key ->
  index_coherent index path d c ->
  exists c', lookup_index_in_read_txn fs index key (c, mkIo du d []) = (Ok (default [] (m !! key)), (c', mkIo du d [])) /\
    index_coherent index path d c' /\ layout_ids c' = layout_ids c /\ record_files c' = record_files c /\
    (forall k, k <> index_key index -> index_files c' !! k = index_files c !! k /\ parsed_index_candidates c' !! k = parsed_index_candidates c !! k).
Proof.
  intros Hp Hm Hkey [Hfiles Hparsed]. unfold lookup_index_in_read_txn. erewrite bind_run by (by rewrite Hp).
  assert (match fixed_key_size index with Some key_size => N.of_nat (length key) =? key_size | None => true end = true)%N as Hfit.
  { unfold key_fits in Hkey. destruct (fixed_key_size index) as [k|]; [|done]. apply N.eqb_eq. by apply Hkey. }
  erewrite bind_run by (unfold require; by rewrite Hfit).
  erewrite bind_run by done. pose proof Hm as (data & Hdata & Hparse).
  assert (forall m', index_content index path d m' -> m' = m) as Huniq.
  { intros m' (data' & Hd' & Hp'). rewrite Hdata in Hd'. injection Hd' as <-. congruence. }
  destruct (parsed_index_candidates c !! index_key index) as [m'|] eqn:Hpar.
  - exists c. erewrite bind_run by done. erewrite bind_run by done. rewrite Hpar, (Huniq m' (Hparsed m' eq_refl)).
    split_and!; [done| |done..]. split; [done|]. intros m0. rewrite Hpar. apply Hparsed.
  - assert (exists c1, match index_files c !! index_key index with
        | Some _ => mret tt
        | None => data ← uncached (read_index_file_bytes fs index); update_cache (remember_index_file index data)
        end (c, mkIo du d []) = (Ok tt, (c1, mkIo du d [])) /\ index_files c1 !! index_key index = Some data /\
        layout_ids c1 = layout_ids c /\ record_files c1 = record_files c /\
        (forall k, k <> index_key index -> index_files c1 !! k = index_files c !! k) /\ parsed_index_candidates c1 = parsed_index_candidates c)
      as (c1 & Hload & Hc1 & H1 & H2 & H3 & H4).
    { destruct (index_files c !! index_key index) as [data'|] eqn:Hf.
      - exists c. split_and!; try done. specialize (Hfiles data' eq_refl). congruence.
      - exists (remember_index_file index data c). unfold mbind, stateful_bind, uncached. rewrite (read_index_run fs index path Hp), Hdata.
        split_and!; try done; cbn; [by rewrite lookup_insert_eq|]. intros k Hk. by rewrite lookup_insert_ne. }
    exists (remember_candidates index m c1). split_and!; try done; cbn.
    + erewrite bind_run; [|erewrite bind_run by exact Hload; erewrite bind_run by done; rewrite Hc1; cbn [default from_option id];
        erewrite bind_run by (by rewrite Hparse); done].
      erewrite bind_run by done. cbn. by rewrite lookup_insert_eq.
    + split; cbn; [intros data'; rewrite Hc1; by intros [= <-]|intros m'; rewrite lookup_insert_eq; by intros [= <-]].
    + intros k Hk. split; [by apply H3|]. by rewrite lookup_insert_ne, H4.
Qed.

Lemma reads_lookup d index path m key : file_path_for fs (index_path index) = Ok path -> index_content index path d m -> key_fits index key ->
  reads d (lookup_index_in_read_txn fs index key) (Ok (default [] (m !! key))).
Proof.
  intros Hp Hm Hkey c Hc.
  destruct (cached_lookup_run d c index path m key Hp Hm Hkey (co_indexes _ _ Hc _ _ Hp)) as (c' & Hrun & Hc' & Hl & Hr & Hother).
  exists c'. split; [done|]. by apply (coherent_index d c c' index path).
Qed.

(** *** The direct reads *)

Lemma read_record_pure d file path i : file_path_for fs (relative_path file) = Ok path ->
  read_record fs file i (mkIo du d []) =
    (match d !! path with
     | None => Err MissingData
     | Some data =>
         n ← rows_of (file_layout_id file) (record_size file) data;
         _ ← fail_if (u32_max <? n)%N Corruption;
         _ ← fail_if (n <=? i)%N MissingData;
         Ok (take (N.to_nat (record_size file)) (drop (N.to_nat (record_offset file i)) data))
     end, mkIo du d []).
Proof.
  intros Hp. unfold read_record. erewrite bind_lift by exact Hp. unfold mbind at 1, stateful_bind. rewrite (record_count_pure _ _ _ Hp).
  destruct (d !! path) as [data|] eqn:Hd; [|by destruct i].
  destruct (rows_of (file_layout_id file) (record_size file) data) as [n|e] eqn:Hn; [|done]. cbn [mbind result_bind].
  destruct (u32_max <? n)%N; [done|]. cbn [fail_if mbind result_bind]. unfold require. rewrite N.ltb_antisym, negb_involutive.
  destruct (N.leb_spec n i) as [Hi|Hi]; [done|]. cbn [fail_if]. erewrite bind_lift by done. unfold io, map_error.
  erewrite read_range_works; [done|exact Hd|]. apply rows_of_length in Hn as [Hlen _]. unfold record_offset, BIN_FILE_HEADER_BYTES. nia.
Qed.

(** The cut out of a remembered file is the record in the file. *)
Lemma record_of_file d file path i : (i <= u32_max)%N -> (record_size file <= u32_max)%N ->
  (forall data n, d !! path = Some data -> rows_of (file_layout_id file) (record_size file) data = Ok n -> (n <= u32_max)%N) ->
  (data ← record_file_of file path d; record_from_file_bytes file i data) =
    match d !! path with
    | None => Err MissingData
    | Some data =>
        n ← rows_of (file_layout_id file) (record_size file) data;
        _ ← fail_if (u32_max <? n)%N Corruption;
        _ ← fail_if (n <=? i)%N MissingData;
        Ok (take (N.to_nat (record_size file)) (drop (N.to_nat (record_offset file i)) data))
    end.
Proof.
  intros Hi Hsize Hsmall. unfold record_file_of. destruct (d !! path) as [data|] eqn:Hd; [|done]. specialize (Hsmall data).
  destruct (rows_of (file_layout_id file) (record_size file) data) as [n|e] eqn:Hn; [|done]. cbn [mbind result_bind].
  specialize (Hsmall n eq_refl eq_refl). rewrite (proj2 (N.ltb_ge _ _)) by done. cbn [fail_if mbind result_bind].
  apply rows_of_length in Hn as (Hlen & Hpos & _). unfold record_from_file_bytes. cbn [ok_or mbind result_bind].
  rewrite (proj2 (Nat.ltb_ge _ _)) by lia. cbn [fail_if mbind result_bind]. cbv zeta. unfold u32_max, usize_max in *.
  pose proof (N.mul_le_mono _ _ _ _ Hi Hsize) as Hmul. rewrite (proj2 (N.ltb_ge 18446744073709551615 (i * record_size file + record_size file))) by lia. cbn [fail_if mbind result_bind]. rewrite length_drop.
  replace (N.of_nat (length data - 4)) with (n * record_size file)%N by lia.
  destruct (N.leb_spec n i) as [Hni|Hni].
  - rewrite (proj2 (N.ltb_lt _ _)) by nia. done.
  - rewrite (proj2 (N.ltb_ge _ _)) by nia. cbn [fail_if mbind result_bind]. rewrite drop_drop. do 3 f_equal. unfold record_offset, BIN_FILE_HEADER_BYTES. lia.
Qed.

(** What a read transaction returns is what the files say: the layout of a
    file, a record, and the candidates of a key are the same whether they are
    read from the files or through the cache of the transaction, whatever it
    has read before; the files and the truth of the cache are preserved. *)
Theorem read_txn_agrees d c : coherent d c ->
  (forall file path, file_path_for fs (relative_path file) = Ok path ->
    exists c', read_txn_layout_id fs file (c, mkIo du d []) = (fst (layout_id fs file (mkIo du d [])), (c', mkIo du d [])) /\ coherent d c') /\
  (forall file path i, file_path_for fs (relative_path file) = Ok path -> (i <= u32_max)%N -> (record_size file <= u32_max)%N ->
    (forall data n, d !! path = Some data -> rows_of (file_layout_id file) (record_size file) data = Ok n -> (n <= u32_max)%N) ->
    exists c', read_record_in_read_txn fs file i (c, mkIo du d []) = (fst (read_record fs file i (mkIo du d [])), (c', mkIo du d [])) /\ coherent d c') /\
  (forall index key path m, file_path_for fs (index_path index) = Ok path -> index_content index path d m -> key_fits index key ->
    exists c', lookup_index_in_read_txn fs index key (c, mkIo du d []) = (fst (lookup_index fs index key (mkIo du d [])), (c', mkIo du d [])) /\
      coherent d c').
Proof.
  intros Hc. split_and!.
  - intros file path Hp. rewrite (layout_id_pure _ _ _ Hp). by apply (reads_layout _ _ _ Hp).
  - intros file path i Hp Hi Hsize Hn. rewrite (read_record_pure _ _ _ _ Hp), <- (record_of_file d file path i) by done. by apply (reads_record _ _ _ _ Hp).
  - intros index key path m Hp Hm Hkey. rewrite (lookup_run fs index path Hp d m key Hm Hkey). by apply (reads_lookup d index path m).
Qed.
End Files.

(** A new read transaction over an empty directory. *)
Lemma read_txn_agrees_witness : exists c', read_txn_layout_id (mkDb [RootDir] None None None) (mkFileId "snapshot.bin" 1 8) (empty_cache, mkIo (∅ : gmap PathBuf bytes) ∅ []) =
  (Err MissingData, (c', mkIo ∅ ∅ [])).
Proof.
  destruct (read_txn_agrees (mkDb [RootDir] None None None) (du := ∅) ∅ empty_cache (empty_coherent _ _)) as [H _].
  destruct (H (mkFileId "snapshot.bin" 1 8) _ eq_refl) as (c' & Hrun & _). exists c'. exact Hrun.
Defined.
