(* ===== verification/WriteTxn.v ===== *)
(** * Write transactions

    [ait-core/src/binary_db/write_txn.rs]: a transaction remembers what it
    touches, how long each file was, and what every overwritten record held, so
    that it can be undone until its commit point. *)

From Stdlib Require Import NArith Lia.
From Stdlib Require Strings.Byte.
From stdpp Require Import base numbers strings gmap list.
From S2P Require Import Prelude Codec FileStore BinaryDb BinaryIndex.

Record BinaryDbRollbackFile : Type := mkRollbackFile { rollback_path : PathBuf; existed : bool; rollback_len : N }.
Record BinaryDbRollbackRecord : Type := mkRollbackRecord { rollback_file : BinaryFileId; rollback_index : N; before_image : bytes }.
Record BinaryDbCommitOutcome : Type := mkOutcome { lock_cleanup_warning : option BinaryDbErrorKind }.

(** The lock set of [locks.rs]: for every guard whether it has been unlocked. *)
Record lock_set : Type := mkLocks { guards : list bool; released : bool }.

Record BinaryDbWriteTxn : Type := mkTxn {
  files : io_state;
  lock : lock_set;
  write_context : BinaryWriteContext;
  touched_files : list PathBuf;
  touched_directories : list PathBuf;
  rollback_files : list BinaryDbRollbackFile;
  rollback_records : list BinaryDbRollbackRecord;
  index_cache : BinaryDbReadCache;
  commit_outcome : option BinaryDbCommitOutcome;
  finished : bool
}.

Definition set_files s t := mkTxn s (lock t) (write_context t) (touched_files t) (touched_directories t) (rollback_files t)
  (rollback_records t) (index_cache t) (commit_outcome t) (finished t).
Definition set_lock l t := mkTxn (files t) l (write_context t) (touched_files t) (touched_directories t) (rollback_files t)
  (rollback_records t) (index_cache t) (commit_outcome t) (finished t).
Definition finish_context t := mkTxn (files t) (lock t) (mkWriteContext (command_scope (write_context t)) false) (touched_files t)
  (touched_directories t) (rollback_files t) (rollback_records t) (index_cache t) (commit_outcome t) (finished t).
Definition set_touched fs ds t := mkTxn (files t) (lock t) (write_context t) fs ds (rollback_files t) (rollback_records t)
  (index_cache t) (commit_outcome t) (finished t).
Definition set_rollback fs rs t := mkTxn (files t) (lock t) (write_context t) (touched_files t) (touched_directories t) fs rs
  (index_cache t) (commit_outcome t) (finished t).
Definition set_index_cache c t := mkTxn (files t) (lock t) (write_context t) (touched_files t) (touched_directories t)
  (rollback_files t) (rollback_records t) c (commit_outcome t) (finished t).
Definition set_finished t := mkTxn (files t) (lock t) (write_context t) (touched_files t) (touched_directories t)
  (rollback_files t) (rollback_records t) (index_cache t) (commit_outcome t) true.
Definition set_outcome o t := mkTxn (files t) (lock t) (write_context t) (touched_files t) (touched_directories t)
  (rollback_files t) (rollback_records t) (index_cache t) (Some o) (finished t).

Abbreviation txn := (stateful BinaryDbWriteTxn BinaryDbErrorKind).
Definition on_files {A} (m : db A) : txn A := fun t => let '(r, s) := m (files t) in (r, set_files s t).
Definition on_cache {A} (m : cached A) : txn A := fun t =>
  let '(r, (c, s)) := m (index_cache t, files t) in (r, set_files s (set_index_cache c t)).
(** [m.err()] *)
Definition try_ {A} (m : txn A) : txn (option BinaryDbErrorKind) := fun t =>
  match m t with (Ok _, t) => (Ok None, t) | (Err e, t) => (Ok (Some e), t) end.

(** ** Locks *)

(** Clearing the contents of a lock file, or unlocking it, is one call that may
    fail; a guard is unlocked at most once. *)
Definition lock_call : db unit := io (query (fun _ => Ok tt)).
Fixpoint release_guards (gs : list bool) (s : io_state) : result BinaryDbErrorKind unit * list bool * io_state :=
  match gs with
  | [] => (Ok tt, [], s)
  | unlocked :: gs =>
      match (_ ← lock_call; if unlocked : bool then mret tt else lock_call) s with
      | (Err e, s) => (Err e, unlocked :: gs, s)
      | (Ok _, s) => let '(r, gs, s) := release_guards gs s in (r, true :: gs, s)
      end
  end.

Definition release : txn unit := fun t =>
  if released (lock t) then (Ok tt, t)
  else
    match release_guards (guards (lock t)) (files t) with
    | (Ok _, _, s) => (Ok tt, set_files s (set_lock (mkLocks [] true) t))
    | (Err e, gs, s) => (Err e, set_files s (set_lock (mkLocks gs false) t))
    end.

(** ** Tracking *)

Definition begin (scope : BinaryDbCommandScope) (lock : lock_set) (s : io_state) : BinaryDbWriteTxn :=
  mkTxn s lock (mkWriteContext scope true) [] [] [] [] empty_cache None false.

Definition push_new (paths : list PathBuf) (path : PathBuf) : list PathBuf :=
  if bool_decide (path ∈ paths) then paths else paths ++ [path].

Definition track_absolute_file (path : PathBuf) : txn unit := modify (fun t =>
  set_touched (push_new (touched_files t) path)
    (match parent path with Some dir => push_new (touched_directories t) dir | None => touched_directories t end) t).

Definition track_absolute_file_for_write (path : PathBuf) : txn unit :=
  t ← get;
  _ ← (if existsb (fun entry => bool_decide (rollback_path entry = path)) (rollback_files t) then mret tt
       else
         len ← on_files (io (metadata_len path));
         let state := match len with Some len => mkRollbackFile path true len | None => mkRollbackFile path false 0 end in
         modify (fun t => set_rollback (rollback_files t ++ [state]) (rollback_records t) t));
  track_absolute_file path.

Section Txn.
Context (fs : LocalBinaryDbFs).

Definition track_relative_path_for_write (path : string) : txn unit :=
  path ← lift (store_path_for (authority_root fs) path); track_absolute_file_for_write path.

Definition ensure_write_open : txn unit :=
  t ← get;
  _ ← require (negb (finished t)) InvalidDomainData;
  lift (ensure_active (write_context t)).

Definition with_context {A} (op : BinaryWriteContext -> db A) : txn A := t ← get; on_files (op (write_context t)).

(** ** Writes *)

Definition txn_append_record (file : BinaryFileId) (record : bytes) : txn N :=
  _ ← ensure_write_open;
  _ ← track_relative_path_for_write (relative_path file);
  with_context (append_record fs file record).

Definition txn_append_records (file : BinaryFileId) (records : bytes) : txn (N * N) :=
  _ ← ensure_write_open;
  _ ← track_relative_path_for_write (relative_path file);
  with_context (append_records fs file records).

Definition same_record (file : BinaryFileId) (record_index : N) (entry : BinaryDbRollbackRecord) : bool :=
  bool_decide (file_key (rollback_file entry) = file_key file) && (rollback_index entry =? record_index)%N.

Definition txn_overwrite_record (file : BinaryFileId) (record_index : N) (record : bytes) : txn unit :=
  _ ← ensure_write_open;
  _ ← track_relative_path_for_write (relative_path file);
  t ← get;
  _ ← (if existsb (same_record file record_index) (rollback_records t) then mret tt
       else
         image ← on_files (read_record fs file record_index);
         modify (fun t => set_rollback (rollback_files t) (rollback_records t ++ [mkRollbackRecord file record_index image]) t));
  with_context (overwrite_record fs file record_index record).

Definition txn_append_payload (file : BinaryPayloadFileId) (data : bytes) : txn PayloadRange :=
  _ ← ensure_write_open;
  _ ← track_relative_path_for_write (payload_path file);
  with_context (append_payload fs file data).

Definition forget_index_file (index : BinaryIndexId) (key : bytes) (record_index : N) (c : BinaryDbReadCache) : BinaryDbReadCache :=
  mkCache (layout_ids c) (record_files c) (delete (index_key index) (index_files c))
    (alter (push_candidate key record_index) (index_key index) (parsed_index_candidates c)).

Definition txn_append_index_candidate (index : BinaryIndexId) (key : bytes) (record_index : N) : txn unit :=
  _ ← ensure_write_open;
  _ ← track_relative_path_for_write (index_path index);
  _ ← with_context (append_index_candidate fs index key record_index);
  modify (fun t => set_index_cache (forget_index_file index key record_index (index_cache t)) t).

Definition txn_lookup_index (index : BinaryIndexId) (key : bytes) : txn (list N) := on_cache (lookup_index_in_read_txn fs index key).
Definition txn_read_record (file : BinaryFileId) (record_index : N) : txn bytes := on_files (read_record fs file record_index).
Definition txn_read_payload (file : BinaryPayloadFileId) (offset len : N) : txn bytes := on_files (read_payload fs file offset len).

(** ** Undoing *)

Definition restore_record (state : BinaryDbRollbackRecord) : txn unit :=
  with_context (overwrite_record fs (rollback_file state) (rollback_index state) (before_image state)).

Definition restore_file (state : BinaryDbRollbackFile) : txn unit :=
  on_files (io (if existed state then truncate_file (rollback_path state) (rollback_len state)
                else remove_file_if_exists (rollback_path state))).

Definition rollback_uncommitted_files : txn unit :=
  t ← get;
  _ ← for_each restore_record (rev (rollback_records t));
  _ ← modify (fun t => set_rollback (rollback_files t) [] t);
  t ← get;
  _ ← for_each restore_file (rev (rollback_files t));
  modify (fun t => set_rollback [] (rollback_records t) t).

Definition abort : txn unit :=
  t ← get;
  if finished t then mret tt
  else
    _ ← rollback_uncommitted_files;
    _ ← modify (set_touched [] []);
    _ ← modify finish_context;
    _ ← release;
    modify set_finished.

Definition drop_txn (t : BinaryDbWriteTxn) : BinaryDbWriteTxn :=
  if finished t then t
  else
    let t := snd (rollback_uncommitted_files t) in
    set_finished (snd (release (finish_context t))).

(** ** Committing *)

Definition ensure_commit_open : txn unit := t ← get; require (negb (finished t)) InvalidDomainData.

Definition sync_touched_dependencies : txn unit :=
  t ← get;
  _ ← for_each (fun path => on_files (io (sync_file path))) (touched_files t);
  for_each (fun path => on_files (io (sync_dir path))) (touched_directories t).

(** Past the commit point nothing is undone, and a failure to release the locks
    is only reported. *)
Definition finish_crossed_commit_point : txn (option BinaryDbErrorKind) :=
  _ ← modify (set_rollback [] []);
  _ ← modify finish_context;
  _ ← modify set_finished;
  try_ release.

Definition finish_committed : txn BinaryDbCommitOutcome :=
  warning ← finish_crossed_commit_point;
  let outcome := mkOutcome warning in
  _ ← modify (set_outcome outcome);
  mret outcome.

Definition commit : txn BinaryDbCommitOutcome :=
  t ← get;
  match commit_outcome t with
  | Some outcome => mret outcome
  | None => _ ← ensure_commit_open; _ ← sync_touched_dependencies; finish_committed
  end.

Definition commit_with_record_marker (file : BinaryFileId) (record_index : N) (marker : Byte.byte) : txn BinaryDbCommitOutcome :=
  _ ← ensure_write_open;
  path ← lift (store_path_for (authority_root fs) (relative_path file));
  t ← get;
  _ ← require (bool_decide (path ∈ touched_files t)) InvalidDomainData;
  _ ← sync_touched_dependencies;
  failed ← try_ (_ ← with_context (overwrite_record_marker fs file record_index marker); on_files (io (sync_file path)));
  match failed with
  | Some e => _ ← finish_crossed_commit_point; lift (Err e)
  | None => finish_committed
  end.

(** [replace_file_atomically] of the adapter; the staging directory lies beside
    the authority root. *)
Definition replace_file_atomically (path : PathBuf) (data : bytes) : db PathBuf :=
  authority_parent ← lift (ok_or (parent (authority_root fs)) InvalidDomainData);
  _ ← io (write_bytes_atomically_from_directory path data);
  mret (authority_parent ++ [Normal "binary-db-staging"%string]).

Definition commit_with_atomic_file_replacement (file : BinaryFileId) (data : bytes) : txn BinaryDbCommitOutcome :=
  t ← get;
  match commit_outcome t with
  | Some outcome => mret outcome
  | None =>
      _ ← ensure_commit_open;
      _ ← lift (ensure_authorized_path (write_context t) (relative_path file));
      target ← lift (store_path_for (authority_root fs) (relative_path file));
      _ ← require (negb (bool_decide (target ∈ touched_files t))) InvalidDomainData;
      _ ← sync_touched_dependencies;
      staging_directory ← on_files (replace_file_atomically target data);
      target_directory ← lift (ok_or (parent target) InvalidDomainData);
      failed ← try_ (on_files (io (sync_dir target_directory)));
      match failed with
      | Some e => _ ← finish_crossed_commit_point; lift (Err e)
      | None =>
          _ ← (if bool_decide (staging_directory = target_directory) then mret tt
               else _ ← try_ (on_files (io (sync_dir staging_directory))); mret tt);
          finish_committed
      end
  end.
End Txn.

(** ** What a transaction can undo *)

Section Invariant.
Context (fs : LocalBinaryDbFs) (d0 : gmap PathBuf bytes).

Definition record_path (r : BinaryDbRollbackRecord) : result BinaryDbErrorKind PathBuf :=
  store_path_for (authority_root fs) (relative_path (rollback_file r)).
Definition record_start (r : BinaryDbRollbackRecord) : nat := N.to_nat (record_offset (rollback_file r) (rollback_index r)).

(** The byte that a before-image holds for position [i] of [path]. *)
Definition image_byte (r : BinaryDbRollbackRecord) (path : PathBuf) (i : nat) : option Byte.byte :=
  match record_path r with
  | Ok p => if bool_decide (p = path) && Nat.leb (record_start r) i then before_image r !! (i - record_start r) else None
  | Err _ => None
  end.

(** Undoing runs backwards, so that the first image of a position counts. *)
Fixpoint first_image (rs : list BinaryDbRollbackRecord) (path : PathBuf) (i : nat) : option Byte.byte :=
  match rs with
  | [] => None
  | r :: rs => match image_byte r path i with Some b => Some b | None => first_image rs path i end
  end.

(** With the images [rs], the file that [f] describes can be restored. *)
Definition file_restorable (d : gmap PathBuf bytes) (rs : list BinaryDbRollbackRecord) (f : BinaryDbRollbackFile) : Prop :=
  if existed f then
    exists old cur, d0 !! rollback_path f = Some old /\ rollback_len f = N.of_nat (length old) /\
      d !! rollback_path f = Some cur /\ length old <= length cur /\
      forall i b, old !! i = Some b -> match first_image rs (rollback_path f) i with Some b' => b' = b | None => cur !! i = Some b end
  else d0 !! rollback_path f = None.

Definition tracked (t : BinaryDbWriteTxn) (path : PathBuf) : Prop := path ∈ map rollback_path (rollback_files t).

Record undoable (rs : list BinaryDbRollbackRecord) (t : BinaryDbWriteTxn) : Prop := {
  un_others : forall p, ~ tracked t p -> disk (files t) !! p = d0 !! p;
  un_files : Forall (file_restorable (disk (files t)) rs) (rollback_files t);
  un_records : Forall (fun r => N.of_nat (length (before_image r)) = record_size (rollback_file r) /\
    exists p, record_path r = Ok p /\ tracked t p) rs
}.

(** The invariant of a transaction that has not passed its commit point. *)
Definition txn_inv (t : BinaryDbWriteTxn) : Prop :=
  undoable (rollback_records t) t /\ (finished t = true -> rollback_files t = []).

Lemma first_image_app rs rs' path i : first_image (rs ++ rs') path i =
  match first_image rs path i with Some b => Some b | None => first_image rs' path i end.
Proof. induction rs as [|r rs IH]; [done|]. cbn. by destruct (image_byte r path i). Qed.

Lemma first_image_path rs path i : (forall r, r ∈ rs -> record_path r <> Ok path) -> first_image rs path i = None.
Proof.
  induction rs as [|r rs IH]; intros H; [done|]. cbn. assert (image_byte r path i = None) as ->.
  { unfold image_byte. specialize (H r (list_elem_of_here _ _)). destruct (record_path r) as [p|]; [|done].
    destruct (bool_decide_reflect (p = path)) as [->|]; [by destruct H|done]. }
  apply IH. intros r' Hr'. apply H. by right.
Qed.

Lemma image_byte_inside r path i : record_path r = Ok path -> record_start r <= i < record_start r + length (before_image r) ->
  image_byte r path i = before_image r !! (i - record_start r) /\ is_Some (image_byte r path i).
Proof.
  intros Hp Hi. unfold image_byte. rewrite Hp, bool_decide_eq_true_2, (proj2 (Nat.leb_le _ _)) by (done || lia). split; [done|].
  apply lookup_lt_is_Some_2. lia.
Qed.

(** Where a write of [len] bytes at [offset] is covered by images. *)
Definition covered (rs : list BinaryDbRollbackRecord) (path : PathBuf) (offset len : nat) : Prop :=
  forall i, offset <= i < offset + len -> is_Some (first_image rs path i).

Lemma covered_by r rs path : r ∈ rs -> record_path r = Ok path -> covered rs path (record_start r) (length (before_image r)).
Proof.
  intros Hr Hp i Hi. induction rs as [|r' rs IH]; [by apply elem_of_nil in Hr|]. cbn.
  apply elem_of_cons in Hr as [->|Hr]; [by destruct (image_byte_inside r' path i Hp Hi) as [_ [b ->]]|].
  destruct (image_byte r' path i); [done|by apply IH].
Qed.

Lemma undoable_other rs t s' path : undoable rs t -> tracked t path -> (forall p, p <> path -> disk s' !! p = disk (files t) !! p) ->
  (forall f, f ∈ rollback_files t -> rollback_path f = path -> file_restorable (disk s') rs f) -> undoable rs (set_files s' t).
Proof.
  intros [Ho Hf Hr] Hpath Hsame Hnew. split; [| |exact Hr].
  - intros p Hp. cbn. rewrite Hsame; [by apply Ho|]. intros ->. by apply Hp.
  - apply Forall_forall. intros f Hin. destruct (decide (rollback_path f = path)) as [He|Hne]; [by apply Hnew|].
    rewrite Forall_forall in Hf. specialize (Hf f Hin). unfold file_restorable in *. destruct (existed f); [|done].
    destruct Hf as (old & cur & H1 & H2 & H3 & H4). exists old, cur. split_and!; [done|done| |by destruct H4|by destruct H4].
    cbn. by rewrite Hsame.
Qed.

(** Appends and covered overwrites of tracked files can be undone. *)
Lemma undoable_appends rs t s' path : undoable rs t -> tracked t path -> only_appends path (files t) s' -> undoable rs (set_files s' t).
Proof.
  intros Hu Hp [Hsame Hgrow]. apply (undoable_other _ _ _ path); [done..|]. intros f Hin He. destruct Hu as [_ Hf _].
  rewrite Forall_forall in Hf. specialize (Hf f Hin). unfold file_restorable in *. destruct (existed f); [|done].
  destruct Hf as (old & cur & H1 & H2 & H3 & H4 & H5). rewrite He in *. destruct (Hgrow _ H3) as [extra H6].
  exists old, (cur ++ extra). split_and!; [done|done|done|rewrite length_app; lia|]. intros i b Hb. specialize (H5 i b Hb).
  destruct (first_image rs path i); [done|]. by apply lookup_app_l_Some.
Qed.

Lemma undoable_rewrites rs t s' path offset len : undoable rs t -> tracked t path -> only_rewrites path offset len (files t) s' ->
  covered rs path offset len -> undoable rs (set_files s' t).
Proof.
  intros Hu Hp (Hsame & _ & Hdata) Hcov. apply (undoable_other _ _ _ path); [done..|]. intros f Hin He. destruct Hu as [_ Hf _].
  rewrite Forall_forall in Hf. specialize (Hf f Hin). unfold file_restorable in *. destruct (existed f); [|done].
  destruct Hf as (old & cur & H1 & H2 & H3 & H4 & H5). rewrite He in *. destruct (Hdata _ H3) as (cur' & H6 & Hlen & Hi).
  exists old, cur'. split_and!; [done|done|done|lia|]. intros i b Hb. specialize (H5 i b Hb).
  destruct (first_image rs path i) as [b'|] eqn:Hfi; [done|]. rewrite Hi; [done|]. intros Hin'. destruct (Hcov i Hin') as [b' Hb']. by rewrite Hfi in Hb'.
Qed.

(** A file that is tracked for the first time. *)
Lemma undoable_track rs t path : undoable rs t -> ~ tracked t path ->
  let f := match disk (files t) !! path with
           | Some cur => mkRollbackFile path true (N.of_nat (length cur))
           | None => mkRollbackFile path false 0
           end in
  undoable rs (set_rollback (rollback_files t ++ [f]) (rollback_records t) t).
Proof.
  intros [Ho Hf Hr] Hp f. assert (rollback_path f = path) as Hfp by (unfold f; by destruct (disk (files t) !! path)).
  assert (forall p, tracked (set_rollback (rollback_files t ++ [f]) (rollback_records t) t) p <-> tracked t p \/ p = path) as Htr.
  { intros p. unfold tracked. cbn [rollback_files set_rollback]. rewrite map_app, elem_of_app. cbn. rewrite list_elem_of_singleton. by rewrite Hfp. }
  split.
  - intros p Hn. cbn. apply Ho. intros H. apply Hn, Htr. by left.
  - cbn. apply Forall_app. split; [done|]. apply Forall_singleton. unfold file_restorable. rewrite Hfp. pose proof (Ho _ Hp) as Hd.
    unfold f. destruct (disk (files t) !! path) as [cur|] eqn:Hc; [|done]. cbn. exists cur, cur. split_and!; [done..|].
    intros i b Hb. rewrite first_image_path; [done|]. intros r Hr'. rewrite Forall_forall in Hr.
    destruct (Hr r Hr') as (_ & p & Hrp & Htp). rewrite Hrp. intros [= ->]. done.
  - eapply Forall_impl; [exact Hr|]. intros r (Hlen & p & Hrp & Htp). split; [done|]. exists p. split; [done|]. apply Htr. by left.
Qed.

(** A before-image that was read from the current files. *)
Lemma undoable_image rs t r path data : undoable rs t -> record_path r = Ok path -> tracked t path ->
  N.of_nat (length (before_image r)) = record_size (rollback_file r) -> disk (files t) !! path = Some data ->
  before_image r = take (length (before_image r)) (drop (record_start r) data) -> undoable (rs ++ [r]) t.
Proof.
  intros [Ho Hf Hr] Hp Ht Hlen Hd Himage. split; [done| |].
  - eapply Forall_impl; [exact Hf|]. intros f. unfold file_restorable. destruct (existed f); [|done].
    intros (old & cur & H1 & H2 & H3 & H4 & H5). exists old, cur. split_and!; [done..|]. intros i b Hb. specialize (H5 i b Hb).
    rewrite first_image_app. destruct (first_image rs (rollback_path f) i); [done|]. cbn.
    destruct (image_byte r (rollback_path f) i) as [b'|] eqn:Hi; [|done]. unfold image_byte in Hi. rewrite Hp in Hi.
    destruct (bool_decide_reflect (path = rollback_path f)) as [He|]; [|done]. destruct (Nat.leb_spec (record_start r) i); [|done].
    cbn in Hi. rewrite <- He in *. rewrite Hd in H3. injection H3 as <-. pose proof (lookup_lt_Some _ _ _ Hi) as Hlt.
    rewrite Himage, lookup_take_lt in Hi by done. rewrite lookup_drop in Hi.
    replace (record_start r + (i - record_start r)) with i in Hi by lia. congruence.
  - apply Forall_app. split; [done|]. apply Forall_singleton. split; [done|]. by exists path.
Qed.

Lemma undoable_ext rs t t' : disk (files t') = disk (files t) -> rollback_files t' = rollback_files t -> undoable rs t -> undoable rs t'.
Proof. intros Hd Hf [H1 H2 H3]. unfold tracked in *. split; unfold tracked; rewrite ?Hd, ?Hf; done. Qed.

Lemma txn_inv_ext t t' : disk (files t') = disk (files t) -> rollback_files t' = rollback_files t ->
  rollback_records t' = rollback_records t -> finished t' = finished t -> txn_inv t -> txn_inv t'.
Proof. intros Hd Hf Hr Hfin [Hu Hn]. split; [rewrite Hr; by eapply undoable_ext|by rewrite Hfin, Hf]. Qed.

Lemma undoable_restored t s' path : undoable [] t -> tracked t path -> (forall p, p <> path -> disk s' !! p = disk (files t) !! p) ->
  disk s' !! path = d0 !! path -> undoable [] (set_files s' t).
Proof.
  intros Hu Ht Hsame Hnew. apply (undoable_other _ _ _ path); [done..|]. intros f Hin He. destruct Hu as [_ Hf _].
  rewrite Forall_forall in Hf. specialize (Hf f Hin). unfold file_restorable in *. destruct (existed f); [|done].
  destruct Hf as (old & cur & H1 & H2 & _). exists old, old. rewrite He in *. by rewrite Hnew.
Qed.

(** *** Triples of the operations *)

(** A transaction that may write to the files at [path]. *)
Definition ready (path : string) (t : BinaryDbWriteTxn) : Prop :=
  txn_inv t /\ finished t = false /\ exists q, store_path_for (authority_root fs) path = Ok q /\ tracked t q.

Lemma triple_open : triple txn_inv txn_inv ensure_write_open (fun _ t => txn_inv t /\ finished t = false).
Proof.
  intros t Ht. unfold ensure_write_open, get, require, lift, mbind, stateful_bind. destruct (finished t) eqn:Hf; cbn; [done|].
  by destruct (ensure_active (write_context t)).
Qed.

Lemma existsb_tracked t path : existsb (fun entry => bool_decide (rollback_path entry = path)) (rollback_files t) = true <-> tracked t path.
Proof.
  rewrite existsb_exists. unfold tracked. rewrite list_elem_of_In, in_map_iff. split.
  - intros (f & Hin & <-%bool_decide_eq_true_1). by exists f.
  - intros (f & <- & Hin). exists f. split; [done|]. by apply bool_decide_eq_true_2.
Qed.

Lemma triple_track path : triple txn_inv (fun t => txn_inv t /\ finished t = false) (track_relative_path_for_write fs path) (fun _ => ready path).
Proof.
  unfold track_relative_path_for_write. eapply triple_bind; [apply triple_lift; by intros ? [? _]|]. intros q t (Hq & Ht & Hfin).
  assert (forall t', txn_inv t' -> finished t' = false -> tracked t' q ->
    match track_absolute_file q t' with (Ok _, t'') => ready path t'' | (Err _, t'') => txn_inv t'' end) as Htouch.
  { intros t' Ht' Hfin' Htr. cbn. split; [by apply (txn_inv_ext t')|]. split; [done|]. by exists q. }
  unfold track_absolute_file_for_write, get, mbind, stateful_bind.
  destruct (existsb _ (rollback_files t)) eqn:He.
  - apply existsb_tracked in He. by apply Htouch.
  - assert (~ tracked t q) as Hn by (rewrite <- existsb_tracked, He; done).
    unfold on_files, io, map_error. pose proof (query_disk (fun d => Ok (N.of_nat ∘ length <$> d !! q)) (files t)) as Hd.
    change (query (fun d => Ok (N.of_nat ∘ length <$> d !! q)) (files t)) with (metadata_len q (files t)) in Hd.
    destruct (metadata_len q (files t)) as [[len|e] s1] eqn:Hm; cbn in Hd |- *; [|by apply (txn_inv_ext t)].
    apply query_Ok in Hm as [[= <-] _]. destruct Ht as [Hu Hnil].
    pose proof (undoable_track _ (set_files s1 t) q (undoable_ext _ t (set_files s1 t) Hd eq_refl Hu) Hn) as Hnew.
    cbn in Hnew. rewrite Hd in Hnew.
    set (f := match disk (files t) !! q with Some cur => _ | None => _ end) in Hnew.
    assert (rollback_path f = q) as Hf by (unfold f; by destruct (disk (files t) !! q)).
    assert (match N.of_nat ∘ length <$> disk (files t) !! q with
            | Some len => mkRollbackFile q true len | None => mkRollbackFile q false 0 end = f) as Heq
      by (unfold f; by destruct (disk (files t) !! q)).
    refine (eq_rect_r (fun f' => match track_absolute_file q (set_rollback (rollback_files t ++ [f']) (rollback_records t) (set_files s1 t)) with
      (Ok _, t'') => ready path t'' | (Err _, t'') => txn_inv t'' end) _ Heq).
    apply Htouch; [split; [exact Hnew|cbn; by rewrite Hfin]|done|].
    unfold tracked. cbn. rewrite map_app. apply elem_of_app. right. cbn. rewrite Hf. by left.
Qed.

Lemma triple_appending {A} path (op : BinaryWriteContext -> db A) :
  (forall w q, store_path_for (authority_root fs) path = Ok q -> preserves (only_appends q) (op w)) ->
  triple txn_inv (ready path) (with_context op) (fun _ => txn_inv).
Proof.
  intros Hop t ([Hu Hn] & Hfin & q & Hq & Htr). unfold with_context, get, mbind, stateful_bind, on_files.
  specialize (Hop (write_context t) q Hq (files t)). destruct (op (write_context t) (files t)) as [[a|e] s']; cbn in *;
    (split; [by apply (undoable_appends _ _ _ q)|cbn; by rewrite Hfin]).
Qed.

Lemma record_path_key r file : file_key (rollback_file r) = file_key file ->
  record_path r = store_path_for (authority_root fs) (relative_path file) /\ record_size (rollback_file r) = record_size file.
Proof.
  unfold file_key, record_path, store_path_for. intros [= Hc Hs _]. by rewrite Hc, Hs.
Qed.

(** An overwrite of a row with a before-image. *)
Lemma triple_covered file i record :
  triple txn_inv (fun t => ready (relative_path file) t /\ exists q, store_path_for (authority_root fs) (relative_path file) = Ok q /\
      covered (rollback_records t) q (N.to_nat (record_offset file i)) (N.to_nat (record_size file)))
    (with_context (overwrite_record fs file i record)) (fun _ => txn_inv).
Proof.
  intros t [([Hu Hn] & Hfin & q & Hq & Htr) (q' & Hq' & Hcov)]. rewrite Hq in Hq'. injection Hq' as <-.
  unfold with_context, get, mbind, stateful_bind, on_files.
  assert (forall p, file_path_for fs (relative_path file) = Ok p -> p = q) as Hp by (intros p Hp%file_path_store_path; congruence).
  pose proof (effect_overwrite_record fs file i record (write_context t) q Hp (files t)) as He.
  destruct (overwrite_record fs file i record (write_context t) (files t)) as [[[]|e] s']; cbn in *;
    (split; [by eapply undoable_rewrites|cbn; by rewrite Hfin]).
Qed.

Lemma triple_overwrite file i record : triple txn_inv txn_inv (txn_overwrite_record fs file i record) (fun _ => txn_inv).
Proof.
  unfold txn_overwrite_record. eapply triple_bind; [apply triple_open|]. intros ?. eapply triple_bind; [apply triple_track|]. intros ?.
  intros t Ht. unfold get, mbind at 1, stateful_bind at 1. revert t Ht.
  assert (forall t, ready (relative_path file) t -> (exists r, r ∈ rollback_records t /\ record_path r = store_path_for (authority_root fs) (relative_path file) /\
      record_start r = N.to_nat (record_offset file i) /\ record_size (rollback_file r) = record_size file) ->
    match with_context (overwrite_record fs file i record) t with (Ok _, t') => txn_inv t' | (Err _, t') => txn_inv t' end) as Hwrite.
  { intros t Ht (r & Hr & Hp & Hs & Hsize). apply triple_covered. split; [done|]. pose proof Ht as ([Hu _] & _ & q & Hq & _).
    exists q. split; [done|]. rewrite <- Hs, <- Hsize. destruct Hu as [_ _ Hrec]. rewrite Forall_forall in Hrec.
    destruct (Hrec r Hr) as [Hlen _]. rewrite <- Hlen, Nat2N.id. apply covered_by; [done|congruence]. }
  intros t Ht. unfold mbind at 1, stateful_bind at 1. destruct (existsb _ (rollback_records t)) eqn:He.
  - apply existsb_exists in He as (r & Hin & [Hkey%bool_decide_eq_true_1 Hidx%N.eqb_eq]%andb_true_iff). apply Hwrite; [done|].
    exists r. destruct (record_path_key r file Hkey) as [Hp Hsize]. split_and!; [by apply list_elem_of_In|done| |done].
    unfold record_start, record_offset. by rewrite Hsize, Hidx.
  - unfold mbind, stateful_bind, on_files. pose proof Ht as ([Hu Hn] & Hfin & q & Hq & Htr).
    pose proof (effect_read_record same_disk fs file i (files t)) as Hsame.
    destruct (read_record fs file i (files t)) as [[image|e] s1] eqn:Hread; cbn in Hsame; unfold same_disk in Hsame; cbn; [|by apply (txn_inv_ext t)].
    apply read_record_Ok in Hread as (q' & data & Hq' & Hd & Hlen & Himage & _). apply file_path_store_path in Hq'.
    rewrite Hq in Hq'. injection Hq' as <-. set (r := mkRollbackRecord file i image). apply Hwrite.
    + split; [|split; [done|by exists q]]. split; [|cbn; by rewrite Hfin]. cbn [rollback_records set_rollback].
      assert (length image = N.to_nat (record_size file)) as Hil by (rewrite Himage, length_take, length_drop; lia).
      apply (undoable_image _ _ r q data); [by eapply undoable_ext; [| |exact Hu]|done|done|cbn; lia|cbn; congruence|].
      cbn [before_image r]. rewrite Hil. exact Himage.
    + exists r. split_and!; [apply elem_of_app; right; by left|done|done|done].
Qed.

Lemma triple_lookup index key : triple txn_inv txn_inv (txn_lookup_index fs index key) (fun _ => txn_inv).
Proof.
  intros t Ht. unfold txn_lookup_index, on_cache. pose proof (effect_cached_lookup fs index key (index_cache t) (files t)) as Hd.
  destruct (lookup_index_in_read_txn fs index key (index_cache t, files t)) as [[rows|e] [c s]]; cbn in *; by apply (txn_inv_ext t).
Qed.

Lemma triple_read file i : triple txn_inv txn_inv (txn_read_record fs file i) (fun _ => txn_inv).
Proof.
  intros t Ht. unfold txn_read_record, on_files. pose proof (effect_read_record same_disk fs file i (files t)) as Hd.
  destruct (read_record fs file i (files t)) as [[b|e] s]; cbn in *; by apply (txn_inv_ext t).
Qed.

(** *** Aborting *)

(** While the images are written back, [l] are the ones to go. *)
Definition undoing (all : list BinaryDbRollbackRecord) (l : list BinaryDbRollbackRecord) (t : BinaryDbWriteTxn) : Prop :=
  finished t = false /\ rollback_records t = all /\ undoable all t /\ undoable (rev l) t /\ exists rest, all = rev l ++ rest.

(** Writing the last image back leaves the others to be written. *)
Lemma undoable_written rs r t s' q data : undoable (rs ++ [r]) t -> record_path r = Ok q -> tracked t q -> disk (files t) !! q = Some data ->
  record_start r + length (before_image r) <= length data ->
  disk s' = <[q := splice_at data (record_start r) (before_image r)]> (disk (files t)) -> undoable rs (set_files s' t).
Proof.
  intros [Ho Hf Hr] Hq Htr Hd Hfit Hd'. apply Forall_app in Hr as [Hr _]. split; [| |exact Hr].
  - intros p Hp. cbn. rewrite Hd', lookup_insert_ne; [by apply Ho|]. intros ->. by apply Hp.
  - eapply Forall_impl; [exact Hf|]. intros f. unfold file_restorable. destruct (existed f); [|done].
    intros (old & cur & H1 & H2 & H3 & H4 & H5). cbn. rewrite Hd'. destruct (decide (rollback_path f = q)) as [He|Hne].
    + rewrite He in *. rewrite Hd in H3. injection H3 as <-. rewrite lookup_insert_eq. eexists old, _. split_and!; [done|done|done| |].
      { by rewrite length_splice_at. }
      intros i b Hb. specialize (H5 i b Hb). rewrite first_image_app in H5. destruct (first_image rs q i); [done|]. cbn in H5.
      rewrite lookup_splice_at by done. case_decide as Hin.
      * destruct (image_byte_inside r q i Hq Hin) as [Hi [b' Hb']]. rewrite Hb' in *. by rewrite <- Hi, H5.
      * destruct (image_byte r q i) as [b'|] eqn:Hi; [|done]. exfalso. unfold image_byte in Hi. rewrite Hq in Hi.
        destruct (bool_decide (q = q)); [|done]. destruct (Nat.leb_spec (record_start r) i); [|done]. cbn in Hi.
        apply lookup_lt_Some in Hi. lia.
    + exists old, cur. rewrite lookup_insert_ne by done. split_and!; [done..|]. intros i b Hb. specialize (H5 i b Hb).
      rewrite first_image_app in H5. destruct (first_image rs (rollback_path f) i); [done|]. cbn in H5.
      assert (image_byte r (rollback_path f) i = None) as Hnone; [|by rewrite Hnone in H5].
      unfold image_byte. rewrite Hq. by rewrite bool_decide_eq_false_2.
Qed.

Lemma triple_restore_record all r l : triple txn_inv (undoing all (r :: l)) (restore_record fs r) (fun _ => undoing all l).
Proof.
  intros t (Hfin & Hall & Hu & Hl & rest & Hrest). cbn [rev] in *. rewrite <- app_assoc in Hrest.
  pose proof Hl as [_ _ Hr]. apply Forall_app in Hr as [_ [Hone _]%Forall_cons]. destruct Hone as (Hsize & q & Hq & Htr).
  unfold restore_record, with_context, get, mbind, stateful_bind, on_files.
  assert (forall p, file_path_for fs (relative_path (rollback_file r)) = Ok p -> p = q) as Hp.
  { intros p Hp%file_path_store_path. unfold record_path in Hq. congruence. }
  pose proof (effect_overwrite_record fs (rollback_file r) (rollback_index r) (before_image r) (write_context t) q Hp (files t)) as He.
  assert (covered all q (record_start r) (N.to_nat (record_size (rollback_file r)))) as Hcov.
  { rewrite <- Hsize, Nat2N.id. apply covered_by; [|done]. rewrite Hrest. apply elem_of_app. right. by left. }
  destruct (overwrite_record fs _ _ _ (write_context t) (files t)) as [[u|e] s'] eqn:Hrun; cbn [snd] in He.
  2:{ split; [cbn; rewrite Hall; by eapply undoable_rewrites|cbn; by rewrite Hfin]. }
  apply overwrite_record_Ok in Hrun as (q' & data & Hq' & Hd & _ & Hfit & Hd'). apply Hp in Hq' as ->.
  split; [done|]. split; [done|]. split; [by eapply undoable_rewrites|]. split; [|by exists (r :: rest)].
  by eapply undoable_written.
Qed.

(** While the lengths are restored, [l] are the files to go. *)
Definition truncating (all l : list BinaryDbRollbackFile) (t : BinaryDbWriteTxn) : Prop :=
  finished t = false /\ rollback_records t = [] /\ rollback_files t = all /\ undoable [] t /\
  (forall f, f ∈ l -> f ∈ all) /\ forall f, f ∈ all -> f ∈ l \/ disk (files t) !! rollback_path f = d0 !! rollback_path f.

Lemma truncating_step all f l t s' : truncating all (f :: l) t -> (forall p, p <> rollback_path f -> disk s' !! p = disk (files t) !! p) ->
  disk s' !! rollback_path f = d0 !! rollback_path f -> truncating all l (set_files s' t).
Proof.
  intros (Hfin & Hr & Hf & Hu & Hsub & Hdone) Hsame Hnew. split_and!; [done|done|done| |intros g Hg; apply Hsub; by right|].
  - apply (undoable_restored _ _ (rollback_path f)); [done| |done|done]. unfold tracked. rewrite Hf.
    apply list_elem_of_fmap. exists f. split; [done|]. apply Hsub. by left.
  - intros g Hg. cbn. destruct (decide (rollback_path g = rollback_path f)) as [He|Hne]; [right; by rewrite He|].
    destruct (Hdone g Hg) as [[->|Hl]%elem_of_cons|Hd]; [done|by left|right; by rewrite Hsame].
Qed.

Lemma triple_restore_file all f l : triple txn_inv (truncating all (f :: l)) (restore_file f) (fun _ => truncating all l).
Proof.
  intros t Ht. pose proof Ht as (Hfin & Hr & Hf & Hu & Hsub & Hdone). assert (f ∈ rollback_files t) as Hin by (rewrite Hf; apply Hsub; by left).
  pose proof Hu as [_ Hrest _]. rewrite Forall_forall in Hrest. specialize (Hrest f Hin). unfold file_restorable in Hrest.
  assert (forall s', disk s' = disk (files t) -> txn_inv (set_files s' t)) as Hsame.
  { intros s' Hd. apply (txn_inv_ext t); [done..|]. split; [by rewrite Hr|]. by rewrite Hfin. }
  unfold restore_file, on_files, io, map_error. destruct (existed f).
  - destruct Hrest as (old & cur & Hold & Hlen & Hcur & Hle & Hprefix).
    pose proof (truncate_file_effect (rollback_path f) (rollback_len f) (files t)) as He.
    destruct (truncate_file _ _ (files t)) as [[u|e] s']; cbn; [|by apply Hsame]. destruct He as (cur' & Hcur' & Hd).
    rewrite Hcur in Hcur'. injection Hcur' as <-. apply (truncating_step all f); [done|intros p Hp; by rewrite Hd, lookup_insert_ne|].
    rewrite Hd, lookup_insert_eq, Hold, Hlen. f_equal. unfold set_len. rewrite Nat2N.id.
    replace (length old - length cur) with 0 by lia. rewrite app_nil_r. apply list_eq. intros i.
    destruct (decide (i < length old)) as [Hi|Hi].
    + rewrite lookup_take_lt by done. destruct (lookup_lt_is_Some_2 old i Hi) as [b Hb]. rewrite Hb. by apply Hprefix in Hb.
    + rewrite !lookup_ge_None_2; [done|lia|rewrite length_take; lia].
  - pose proof (remove_file_effect (rollback_path f) (files t)) as He.
    destruct (remove_file_if_exists _ (files t)) as [[u|e] s']; cbn; [|by apply Hsame].
    apply (truncating_step all f); [done|intros p Hp; by rewrite He, lookup_delete_ne|]. by rewrite He, lookup_delete_eq, Hrest.
Qed.

(** Everything undone. *)
Definition undone (t : BinaryDbWriteTxn) : Prop := disk (files t) = d0 /\ rollback_files t = [] /\ rollback_records t = [].

Lemma undone_inv t : undone t -> txn_inv t.
Proof.
  intros (Hd & Hf & Hr). split; [|done]. split; [intros p _; by rewrite Hd|by rewrite Hf|by rewrite Hr].
Qed.

Lemma triple_rollback : triple txn_inv (fun t => txn_inv t /\ finished t = false) (rollback_uncommitted_files fs)
  (fun _ t => undone t /\ finished t = false).
Proof.
  intros t [[Hu Hn] Hfin]. unfold rollback_uncommitted_files, get. unfold mbind at 1, stateful_bind at 1.
  unfold mbind at 1, stateful_bind at 1.
  pose proof (triple_for_each txn_inv (restore_record fs) (undoing (rollback_records t)) (rev (rollback_records t))
    (fun r l => triple_restore_record _ r l) t) as H1.
  destruct (for_each _ _ t) as [[u|e] t1]; [|apply H1; split_and!; [done|done|done|by rewrite rev_involutive|exists []; by rewrite rev_involutive, app_nil_r]].
  destruct H1 as (Hfin1 & _ & _ & Hu1 & _).
  { split_and!; [done|done|done|by rewrite rev_involutive|exists []; by rewrite rev_involutive, app_nil_r]. }
  unfold mbind at 1, stateful_bind at 1, modify at 1. set (t2 := set_rollback (rollback_files t1) [] t1).
  unfold mbind at 1, stateful_bind at 1. unfold mbind at 1, stateful_bind at 1.
  pose proof (triple_for_each txn_inv restore_file (truncating (rollback_files t2)) (rev (rollback_files t2))
    (fun f l => triple_restore_file _ f l) t2) as H2.
  assert (truncating (rollback_files t2) (rev (rollback_files t2)) t2) as Hstart.
  { split_and!; [done|done|done|by eapply undoable_ext; [| |exact Hu1]| |];
      intros f Hf; [by rewrite list_elem_of_In, <- in_rev, <- list_elem_of_In in Hf|left; by rewrite list_elem_of_In, <- in_rev, <- list_elem_of_In]. }
  destruct (for_each _ _ t2) as [[u2|e] t3]; [|by apply H2]. destruct (H2 Hstart) as (Hfin3 & Hr3 & Hf3 & [Ho3 _ _] & _ & Hall).
  cbn. split; [|done]. split_and!; [|done|done]. cbn. apply map_eq. intros p.
  destruct (decide (p ∈ map rollback_path (rollback_files t3))) as [Hp|Hp]; [|by apply Ho3].
  apply list_elem_of_fmap in Hp as (f & -> & Hf). rewrite Hf3 in Hf. destruct (Hall f Hf) as [Hnil|Hd]; [by apply elem_of_nil in Hnil|done].
Qed.

Lemma release_guards_durable gs s : durable (snd (release_guards gs s)) = durable s.
Proof.
  revert s. induction gs as [|g gs IH]; intros s; [done|]. cbn [release_guards].
  assert (durable (snd ((_ ← lock_call; if g : bool then mret tt else lock_call) s)) = durable s) as H.
  { unfold lock_call, io, map_error, mbind, stateful_bind. pose proof (query_durable (fun _ => Ok tt) s) as H1.
    destruct (query _ s) as [[[]|e] s1]; cbn in *; [|done]. destruct g; [done|]. pose proof (query_durable (fun _ => Ok tt) s1) as H2.
    destruct (query _ s1) as [[[]|e] s2]; cbn in *; congruence. }
  destruct ((_ ← lock_call; if g : bool then mret tt else lock_call) s) as [[u|e] s1]; [|exact H].
  specialize (IH s1). destruct (release_guards gs s1) as [[r gs'] s2]. cbn in *. congruence.
Qed.

Lemma release_guards_disk gs s : disk (snd (release_guards gs s)) = disk s.
Proof.
  revert s. induction gs as [|g gs IH]; intros s; [done|]. cbn [release_guards].
  assert (preserves same_disk (_ ← lock_call; if g : bool then mret tt else lock_call)) as H by (unfold lock_call; effects).
  specialize (H s). destruct ((_ ← lock_call; if g : bool then mret tt else lock_call) s) as [[u|e] s1]; [|exact H].
  specialize (IH s1). destruct (release_guards gs s1) as [[r gs'] s2]. cbn in *. unfold same_disk in H. congruence.
Qed.

(** Releasing the locks changes neither the files nor what can be undone. *)
Lemma release_effect t : let t' := snd (release t) in
  disk (files t') = disk (files t) /\ rollback_files t' = rollback_files t /\ rollback_records t' = rollback_records t /\ finished t' = finished t.
Proof.
  unfold release. destruct (released (lock t)); [done|]. pose proof (release_guards_disk (guards (lock t)) (files t)) as H.
  by destruct (release_guards (guards (lock t)) (files t)) as [[[u|e] gs] s].
Qed.

Lemma triple_abort : triple txn_inv txn_inv (abort fs) (fun _ t => undone t /\ finished t = true \/ txn_inv t /\ finished t = true).
Proof.
  intros t Ht. unfold abort, get. unfold mbind at 1, stateful_bind at 1. destruct (finished t) eqn:Hfin; [by right|].
  pose proof (triple_rollback t (conj Ht Hfin)) as H1. unfold mbind at 1, stateful_bind at 1.
  destruct (rollback_uncommitted_files fs t) as [[u|e] t1]; [|exact H1]. destruct H1 as [H1 _].
  unfold mbind at 1, stateful_bind at 1, modify at 1. unfold mbind at 1, stateful_bind at 1, modify at 1.
  set (t2 := finish_context _). assert (undone t2) as H2 by exact H1. clearbody t2. unfold mbind, stateful_bind.
  pose proof (release_effect t2) as H3. destruct H2 as (Hd & Hf & Hr). destruct (release t2) as [[u2|e] t3]; cbn in H3; destruct H3 as (H3d & H3f & H3r & _).
  - left. split; [|done]. split_and!; cbn; congruence.
  - apply undone_inv. split_and!; congruence.
Qed.
End Invariant.

(** ** Whole transactions *)

(** What a command does inside a transaction before it commits. *)
Inductive txn_op : Type :=
| TxnAppendRecord (file : BinaryFileId) (record : bytes)
| TxnAppendRecords (file : BinaryFileId) (records : bytes)
| TxnOverwriteRecord (file : BinaryFileId) (record_index : N) (record : bytes)
| TxnAppendPayload (file : BinaryPayloadFileId) (data : bytes)
| TxnAppendIndex (index : BinaryIndexId) (key : bytes) (record_index : N)
| TxnLookup (index : BinaryIndexId) (key : bytes)
| TxnRead (file : BinaryFileId) (record_index : N)
| TxnAbort.

Definition txn_step (fs : LocalBinaryDbFs) (op : txn_op) (t : BinaryDbWriteTxn) : BinaryDbWriteTxn :=
  match op with
  | TxnAppendRecord file record => snd (txn_append_record fs file record t)
  | TxnAppendRecords file records => snd (txn_append_records fs file records t)
  | TxnOverwriteRecord file i record => snd (txn_overwrite_record fs file i record t)
  | TxnAppendPayload file data => snd (txn_append_payload fs file data t)
  | TxnAppendIndex index key r => snd (txn_append_index_candidate fs index key r t)
  | TxnLookup index key => snd (txn_lookup_index fs index key t)
  | TxnRead file i => snd (txn_read_record fs file i t)
  | TxnAbort => snd (abort fs t)
  end.
Definition txn_run (fs : LocalBinaryDbFs) (ops : list txn_op) (t : BinaryDbWriteTxn) : BinaryDbWriteTxn :=
  foldl (fun t op => txn_step fs op t) t ops.

Lemma triple_append_op fs d0 {A} path (op : BinaryWriteContext -> db A) :
  (forall w q, store_path_for (authority_root fs) path = Ok q -> preserves (only_appends q) (op w)) ->
  triple (txn_inv fs d0) (txn_inv fs d0) (_ ← ensure_write_open; _ ← track_relative_path_for_write fs path; with_context op) (fun _ => txn_inv fs d0).
Proof.
  intros Hop. eapply triple_bind; [apply triple_open|]. intros ?. eapply triple_bind; [apply triple_track|]. intros ?.
  by apply triple_appending.
Qed.

Lemma txn_step_inv fs d0 op t : txn_inv fs d0 t -> txn_inv fs d0 (txn_step fs op t).
Proof.
  intros Ht. destruct op; cbn [txn_step].
  - eapply triple_snd; [apply triple_append_op|by intros|exact Ht]. intros w q Hq. apply effect_append_record.
    intros q' Hq'%file_path_store_path. congruence.
  - eapply triple_snd; [apply triple_append_op|by intros|exact Ht]. intros w q Hq. apply effect_append_records.
    intros q' Hq'%file_path_store_path. congruence.
  - eapply triple_snd; [apply triple_overwrite|by intros|exact Ht].
  - eapply triple_snd; [apply triple_append_op|by intros|exact Ht]. intros w q Hq. apply effect_append_payload.
    intros q' Hq'%file_path_store_path. congruence.
  - eapply (triple_snd _ (txn_inv fs d0) _ (fun _ => txn_inv fs d0)); [|by intros|exact Ht]. unfold txn_append_index_candidate.
    eapply triple_bind; [apply triple_open|]. intros ?. eapply triple_bind; [apply triple_track|]. intros ?.
    eapply triple_bind; [apply triple_appending|]. 2:{ intros ? t' Ht'. by apply (txn_inv_ext fs d0 t'). }
    intros w q Hq. apply effect_append_index_candidate. intros q' Hq'%file_path_store_path. congruence.
  - eapply triple_snd; [apply triple_lookup|by intros|exact Ht].
  - eapply triple_snd; [apply triple_read|by intros|exact Ht].
  - eapply triple_snd; [apply triple_abort| |exact Ht]. intros ? t' [[H _]|[H _]]; [by apply undone_inv|done].
Qed.

Lemma txn_run_inv fs d0 ops t : txn_inv fs d0 t -> txn_inv fs d0 (txn_run fs ops t).
Proof. revert t. induction ops as [|op ops IH]; intros t Ht; [done|]. apply IH, txn_step_inv, Ht. Qed.

Lemma begin_inv fs scope lock s : txn_inv fs (disk s) (begin scope lock s).
Proof. by apply undone_inv. Qed.

(** C22. Abort restores the files: whatever operations a transaction ran and
    however they failed - calls refused by the system, writes torn halfway,
    earlier attempts to abort that broke off - when an abort returns without an
    error, every file is exactly as it was when the transaction began, and the
    files it created are gone. *)
Theorem abort_restores_files fs scope lock s ops t' :
  abort fs (txn_run fs ops (begin scope lock s)) = (Ok tt, t') -> disk (files t') = disk s.
Proof.
  intros H. pose proof (triple_abort fs (disk s) _ (txn_run_inv fs _ ops _ (begin_inv fs scope lock s))) as Ht. rewrite H in Ht.
  destruct Ht as [[[Hd _] _]|[[[Ho _ _] Hnil] Hfin]]; [done|]. apply map_eq. intros p. apply Ho. unfold tracked.
  rewrite (Hnil Hfin). apply not_elem_of_nil.
Qed.

(** *** Transactions without overwrites *)

Definition append_only (op : txn_op) : bool := match op with TxnOverwriteRecord _ _ _ => false | _ => true end.

Definition no_images (t t' : BinaryDbWriteTxn) : Prop := rollback_records t = [] -> rollback_records t' = [].
#[export] Instance no_images_preorder : PreOrder no_images.
Proof. split; [intros t H; exact H|]. intros t1 t2 t3 H12 H23 H. exact (H23 (H12 H)). Qed.

Lemma no_images_files {A} (m : db A) : preserves no_images (on_files m).
Proof. intros t H. unfold on_files. by destruct (m (files t)). Qed.
Lemma no_images_get : preserves no_images (get (E := BinaryDbErrorKind)).
Proof. intros t H. exact H. Qed.
Lemma no_images_release : preserves no_images release.
Proof. intros t H. pose proof (release_effect t) as (_ & _ & Hr & _). congruence. Qed.
Lemma no_images_modify f : (forall t, no_images t (f t)) -> preserves no_images (modify (E := BinaryDbErrorKind) f).
Proof. intros Hf t. apply Hf. Qed.
Lemma no_images_track fs path : preserves no_images (track_relative_path_for_write fs path).
Proof.
  unfold track_relative_path_for_write, track_absolute_file_for_write, track_absolute_file. effects;
    first [apply no_images_get | apply no_images_files | (apply no_images_modify; intros ? H; exact H)].
Qed.
Lemma no_images_open : preserves no_images ensure_write_open.
Proof. unfold ensure_write_open. effects. apply no_images_get. Qed.
Lemma no_images_context {A} (op : BinaryWriteContext -> db A) : preserves no_images (with_context op).
Proof. unfold with_context. effects; [apply no_images_get|apply no_images_files]. Qed.

Lemma no_images_abort fs : preserves no_images (abort fs).
Proof.
  unfold abort, rollback_uncommitted_files. effects;
    first [apply no_images_get | apply no_images_release | (apply no_images_modify; intros ? H; (reflexivity || exact H))
          | (apply preserves_for_each; [apply _|]; intros ?; first [apply no_images_context | apply no_images_files])].
Qed.

Lemma txn_step_no_images fs op t : append_only op = true -> rollback_records t = [] -> rollback_records (txn_step fs op t) = [].
Proof.
  assert (forall A path (op : BinaryWriteContext -> db A),
    preserves no_images (_ ← ensure_write_open; _ ← track_relative_path_for_write fs path; with_context op)) as Happend.
  { intros A path op'. effects; first [apply no_images_open | apply no_images_track | apply no_images_context]. }
  destruct op; cbn [append_only txn_step]; intros Hop Ht; try done.
  - by apply (Happend _ (relative_path file)).
  - by apply (Happend _ (relative_path file)).
  - by apply (Happend _ (payload_path file)).
  - revert Ht. unfold txn_append_index_candidate.
    assert (preserves no_images (txn_append_index_candidate fs index key record_index)) as H; [|apply H].
    unfold txn_append_index_candidate. effects; first [apply no_images_open | apply no_images_track | apply no_images_context
      | (apply no_images_modify; intros ? H; exact H)].
  - unfold txn_lookup_index, on_cache. by destruct (lookup_index_in_read_txn _ _ _ _) as [r [c s]].
  - by apply no_images_files.
  - by apply no_images_abort.
Qed.

Lemma triple_restore_file_calm fs d0 all f l :
  triple (fun _ => False) (fun t => truncating fs d0 all (f :: l) t /\ faults (files t) = []) (restore_file f)
    (fun _ t => truncating fs d0 all l t /\ faults (files t) = []).
Proof.
  intros t [Ht Hcalm]. pose proof (triple_restore_file fs d0 all f l t Ht) as H. pose proof Ht as (_ & _ & Hf & Hu & Hsub & _).
  pose proof Hu as [_ Hrest _]. rewrite Forall_forall in Hrest. specialize (Hrest f). rewrite Hf in Hrest. specialize (Hrest (Hsub _ (list_elem_of_here _ _))).
  unfold restore_file, on_files, io, map_error, file_restorable in *. destruct (existed f).
  - destruct Hrest as (old & cur & _ & _ & Hcur & _). unfold truncate_file, update, next_fault in *. rewrite Hcalm in *.
    cbn in *. rewrite Hcur in *. by split.
  - unfold remove_file_if_exists, update, next_fault in *. rewrite Hcalm in *. by split.
Qed.

Lemma release_calm t : faults (files t) = [] -> exists t', release t = (Ok tt, t') /\ files t' = files t.
Proof.
  intros Hcalm. unfold release. destruct (released (lock t)); [by eexists|].
  assert (forall gs s, faults s = [] -> exists gs', release_guards gs s = (Ok tt, gs', s)) as H.
  { intros gs s Hs. induction gs as [|g gs [gs' IH]]; [by eexists|]. cbn [release_guards].
    assert ((_ ← lock_call; if g : bool then mret tt else lock_call) s = (Ok tt, s)) as ->.
    { destruct s as [du d l]. cbn in Hs. subst l. by destruct g. }
    rewrite IH. by eexists. }
  destruct (H (guards (lock t)) (files t) Hcalm) as [gs' ->]. by eexists.
Qed.

(** A transaction that only appends can always be aborted: whatever failed
    or was torn while it ran, once the calls of the abort itself work, the
    abort succeeds, the transaction is finished and the files are those of the
    beginning. *)
Theorem append_only_abort_succeeds fs scope lock s ops : forallb append_only ops = true ->
  faults (files (txn_run fs ops (begin scope lock s))) = [] ->
  exists t', abort fs (txn_run fs ops (begin scope lock s)) = (Ok tt, t') /\ disk (files t') = disk s /\ finished t' = true.
Proof.
  intros Hops. pose proof (txn_run_inv fs _ ops _ (begin_inv fs scope lock s)) as Hinv.
  assert (rollback_records (txn_run fs ops (begin scope lock s)) = []) as Hnone.
  { assert (rollback_records (begin scope lock s) = []) as H by done. revert H. generalize (begin scope lock s). clear Hinv.
    induction ops as [|op ops IH]; intros t Ht; [done|]. cbn in Hops. apply andb_true_iff in Hops as [Hop Hops].
    apply (IH Hops). by apply txn_step_no_images. }
  revert Hinv Hnone. generalize (txn_run fs ops (begin scope lock s)). intros t Hinv Hnone Hcalm.
  assert (exists t', abort fs t = (Ok tt, t') /\ finished t' = true) as (t' & Hab & Hfin').
  { unfold abort, get. unfold mbind at 1, stateful_bind at 1. destruct (finished t) eqn:Hfin; [by exists t|]. destruct Hinv as [Hu _].
    unfold rollback_uncommitted_files, get, mbind, stateful_bind, modify. rewrite Hnone. cbn [rev app for_each]. unfold mret at 1, stateful_ret at 1.
    set (t2 := set_rollback (rollback_files t) [] t).
    pose proof (triple_for_each (fun _ => False) restore_file (fun l t => truncating fs (disk s) (rollback_files t2) l t /\ faults (files t) = [])
      (rev (rollback_files t2)) (fun f l => triple_restore_file_calm fs _ _ f l) t2) as H.
    assert (truncating fs (disk s) (rollback_files t2) (rev (rollback_files t2)) t2) as Hstart.
    { split_and!; [done|done|done|rewrite Hnone in Hu; by eapply undoable_ext; [| |exact Hu]| |];
        intros f Hf; [by rewrite list_elem_of_In, <- in_rev, <- list_elem_of_In in Hf|left; by rewrite list_elem_of_In, <- in_rev, <- list_elem_of_In]. }
    destruct (for_each _ _ t2) as [[u|e] t3]; [|by destruct (H (conj Hstart Hcalm))]. destruct (H (conj Hstart Hcalm)) as [_ Hcalm3].
    destruct (release_calm (finish_context (set_touched [] [] (set_rollback [] (rollback_records t3) t3)))) as (t4 & Hr & _); [done|].
    rewrite Hr. by eexists. }
  exists t'. split; [done|]. split; [|done]. pose proof (triple_abort fs (disk s) _ Hinv) as Ht. rewrite Hab in Ht.
  destruct Ht as [[[Hd _] _]|[[[Ho _ _] Hnil] Hfin]]; [done|]. apply map_eq. intros p. apply Ho. unfold tracked. rewrite (Hnil Hfin). apply not_elem_of_nil.
Qed.

(** *** Committing *)

(** Whatever may have to be undone has been noted for the flush at the end. *)
Definition noted (t : BinaryDbWriteTxn) : Prop := forall p, tracked t p -> p ∈ touched_files t.
Definition keeps_noted (t t' : BinaryDbWriteTxn) : Prop := noted t -> noted t'.
#[export] Instance keeps_noted_preorder : PreOrder keeps_noted.
Proof. split; [intros t H; exact H|]. intros t1 t2 t3 H12 H23 H. exact (H23 (H12 H)). Qed.

Lemma keeps_noted_same t t' : rollback_files t' = rollback_files t -> touched_files t' = touched_files t -> keeps_noted t t'.
Proof. intros Hr Ht H p. unfold tracked. rewrite Hr, Ht. apply H. Qed.

Lemma keeps_noted_files {A} (m : db A) : preserves keeps_noted (on_files m).
Proof. intros t. unfold on_files. destruct (m (files t)). by apply keeps_noted_same. Qed.
Lemma keeps_noted_get : preserves keeps_noted (get (E := BinaryDbErrorKind)).
Proof. intros t. by apply keeps_noted_same. Qed.
Lemma keeps_noted_modify f : (forall t, keeps_noted t (f t)) -> preserves keeps_noted (modify (E := BinaryDbErrorKind) f).
Proof. intros Hf t. apply Hf. Qed.
Lemma keeps_noted_context {A} (op : BinaryWriteContext -> db A) : preserves keeps_noted (with_context op).
Proof. unfold with_context. effects; [apply keeps_noted_get|apply keeps_noted_files]. Qed.
Lemma keeps_noted_open : preserves keeps_noted ensure_write_open.
Proof. unfold ensure_write_open. effects. apply keeps_noted_get. Qed.
Lemma keeps_noted_release : preserves keeps_noted release.
Proof.
  intros t. unfold release. destruct (released (lock t)); [by apply keeps_noted_same|].
  destruct (release_guards (guards (lock t)) (files t)) as [[[u|e] gs] s]; by apply keeps_noted_same.
Qed.

Lemma elem_of_push_new paths path p : p ∈ push_new paths path <-> p ∈ paths \/ p = path.
Proof.
  unfold push_new. destruct (bool_decide_reflect (path ∈ paths)) as [Hin|Hin]; [|by rewrite elem_of_app, list_elem_of_singleton].
  split; [by left|]. by intros [H| ->].
Qed.

Lemma keeps_noted_track fs path : preserves keeps_noted (track_relative_path_for_write fs path).
Proof.
  unfold track_relative_path_for_write. apply preserves_bind_lift; [apply _|]. intros q _.
  intros t Ht. unfold track_absolute_file_for_write, get, mbind, stateful_bind.
  assert (forall t', (forall p, tracked t' p -> p ∈ touched_files t' \/ p = q) -> noted (snd (track_absolute_file q t'))) as Hlast.
  { intros t' H p Hp. cbn. apply elem_of_push_new, H, Hp. }
  destruct (existsb _ (rollback_files t)); [apply Hlast; intros p Hp; left; by apply Ht|].
  unfold on_files, io, map_error. destruct (metadata_len q (files t)) as [[len|e] s1]; cbn [map_err snd]; [|exact Ht].
  apply Hlast. intros p Hp. unfold tracked in Hp. cbn in Hp. rewrite map_app, elem_of_app in Hp. destruct Hp as [Hp|Hp]; [left; by apply Ht|right].
  cbn in Hp. apply list_elem_of_singleton in Hp as ->. by destruct len.
Qed.

Lemma keeps_noted_nil t : rollback_files t = [] -> noted t.
Proof. intros H p. unfold tracked. rewrite H. by intros ?%elem_of_nil. Qed.

Lemma noted_abort fs : preserves keeps_noted (abort fs).
Proof.
  intros t Ht. unfold abort, get. unfold mbind at 1, stateful_bind at 1. destruct (finished t); [exact Ht|].
  assert (preserves keeps_noted (rollback_uncommitted_files fs)) as H.
  { unfold rollback_uncommitted_files. effects; first [apply keeps_noted_get
      | (apply preserves_for_each; [apply _|]; intros ?; first [apply keeps_noted_context | apply keeps_noted_files])
      | (apply keeps_noted_modify; intros t0; first [by apply keeps_noted_same | intros _; by apply keeps_noted_nil])]. }
  specialize (H t Ht). unfold mbind at 1, stateful_bind at 1.
  destruct (rollback_uncommitted_files fs t) as [[u|e] t1] eqn:Hr; [|exact H]. cbn in H.
  assert (rollback_files t1 = []) as Hnil.
  { unfold rollback_uncommitted_files in Hr. apply bind_run_Ok in Hr as (? & ? & _ & Hr). apply bind_run_Ok in Hr as (? & ? & _ & Hr).
    apply bind_run_Ok in Hr as (? & ? & _ & Hr). apply bind_run_Ok in Hr as (? & ? & _ & Hr). apply bind_run_Ok in Hr as (? & ? & _ & Hr).
    by injection Hr as _ <-. }
  apply keeps_noted_nil. unfold mbind, stateful_bind, modify.
  pose proof (release_effect (finish_context (set_touched [] [] t1))) as (_ & Hf & _).
  destruct (release (finish_context (set_touched [] [] t1))) as [[u2|e] t2]; cbn in *; congruence.
Qed.

Lemma noted_step fs op : forall t, keeps_noted t (txn_step fs op t).
Proof.
  assert (forall A path (op : BinaryWriteContext -> db A),
    preserves keeps_noted (_ ← ensure_write_open; _ ← track_relative_path_for_write fs path; with_context op)) as Happend.
  { intros A path op'. effects; first [apply keeps_noted_open | apply keeps_noted_track | apply keeps_noted_context]. }
  destruct op; intros t; cbn [txn_step].
  - apply (Happend _ (relative_path file)).
  - apply (Happend _ (relative_path file)).
  - assert (preserves keeps_noted (txn_overwrite_record fs file record_index record)) as H; [|apply H].
    unfold txn_overwrite_record. effects; first [apply keeps_noted_open | apply keeps_noted_track | apply keeps_noted_context
      | apply keeps_noted_get | apply keeps_noted_files | (apply keeps_noted_modify; intros t0; by apply keeps_noted_same)].
  - apply (Happend _ (payload_path file)).
  - assert (preserves keeps_noted (txn_append_index_candidate fs index key record_index)) as H; [|apply H].
    unfold txn_append_index_candidate. effects; first [apply keeps_noted_open | apply keeps_noted_track | apply keeps_noted_context
      | (apply keeps_noted_modify; intros t0; by apply keeps_noted_same)].
  - unfold txn_lookup_index, on_cache. destruct (lookup_index_in_read_txn _ _ _ _) as [r [c s]]. by apply keeps_noted_same.
  - apply keeps_noted_files.
  - apply noted_abort.
Qed.

Lemma noted_run fs ops t : noted t -> noted (txn_run fs ops t).
Proof. revert t. induction ops as [|op ops IH]; intros t Ht; [done|]. apply IH. by apply noted_step. Qed.

(** Flushing: the files are unchanged, and those in the list are durable. *)
Definition flushed (paths : list PathBuf) (t : BinaryDbWriteTxn) : Prop :=
  forall p, p ∈ paths -> durable (files t) !! p = disk (files t) !! p.

Lemma sync_files_Ok paths t u t' : for_each (fun path => on_files (io (sync_file path))) paths t = (Ok u, t') ->
  t' = set_files (files t') t /\ disk (files t') = disk (files t) /\ flushed paths t' /\
  forall p, p ∉ paths -> durable (files t') !! p = durable (files t) !! p.
Proof.
  revert t. induction paths as [|path paths IH]; intros t H.
  - injection H as _ <-. split_and!; [by destruct t|done| |done]. by intros p ?%elem_of_nil.
  - cbn [for_each] in H. apply bind_run_Ok in H as (u1 & t1 & H1 & H). unfold on_files in H1.
    destruct (io (sync_file path) (files t)) as [r s1] eqn:Hs. injection H1 as -> <-. apply io_Ok, sync_file_Ok in Hs as (_ & Hd & Hu & Ho).
    apply IH in H as (Ht & Hd' & Hf & Ho'). cbn in Hd', Ho'. split_and!.
    + by rewrite Ht at 1.
    + congruence.
    + intros p [->|Hp]%elem_of_cons; [|by apply Hf]. destruct (decide (path ∈ paths)) as [Hin|Hin]; [by apply Hf|].
      rewrite Ho' by done. congruence.
    + intros p [Hne Hin]%not_elem_of_cons. rewrite Ho' by done. by apply Ho.
Qed.

Lemma sync_dirs_Ok dirs t u t' : for_each (fun path => on_files (io (sync_dir path))) dirs t = (Ok u, t') ->
  t' = set_files (files t') t /\ disk (files t') = disk (files t) /\ durable (files t') = durable (files t).
Proof.
  revert t. induction dirs as [|dir dirs IH]; intros t H; [injection H as _ <-; by destruct t|]. cbn [for_each] in H.
  apply bind_run_Ok in H as (u1 & t1 & H1 & H). unfold on_files in H1. destruct (io (sync_dir dir) (files t)) as [r s1] eqn:Hs. injection H1 as -> <-.
  unfold sync_dir in Hs. apply io_Ok, map_error_Ok in Hs. pose proof (query_durable (fun _ => Ok tt) (files t)) as Hu.
  pose proof (query_disk (fun _ => Ok tt) (files t)) as Hd. rewrite Hs in Hu, Hd. cbn in Hu, Hd.
  apply IH in H as (Ht & Hd' & Hu'). cbn in *. split_and!; [by rewrite Ht at 1|congruence..].
Qed.

Lemma sync_touched_Ok t u t' : sync_touched_dependencies t = (Ok u, t') ->
  t' = set_files (files t') t /\ disk (files t') = disk (files t) /\ flushed (touched_files t) t'.
Proof.
  unfold sync_touched_dependencies. intros H. apply bind_run_Ok in H as (t0 & ? & [= <- <-] & H). apply bind_run_Ok in H as (u1 & t1 & H1 & H).
  apply sync_files_Ok in H1 as (Ht1 & Hd1 & Hf1 & _). apply sync_dirs_Ok in H as (Ht & Hd & Hu). split_and!.
  - rewrite Ht, Ht1. done.
  - congruence.
  - intros p Hp. rewrite Hu, Hd. by apply Hf1.
Qed.

(** Past the commit point. *)
Lemma finish_committed_spec t : exists o t', finish_committed t = (Ok o, t') /\ disk (files t') = disk (files t) /\
  durable (files t') = durable (files t) /\ finished t' = true /\ commit_outcome t' = Some o /\ rollback_files t' = [].
Proof.
  unfold finish_committed, finish_crossed_commit_point, modify, try_, mbind, stateful_bind. set (t1 := set_finished _).
  assert (durable (files (snd (release t1))) = durable (files t1)) as Hu.
  { unfold release. destruct (released (lock t1)); [done|]. pose proof (release_guards_durable (guards (lock t1)) (files t1)) as H.
    by destruct (release_guards (guards (lock t1)) (files t1)) as [[[u|e] gs] s]. }
  pose proof (release_effect t1) as (Hd & Hf & _ & Hfin). destruct (release t1) as [[u|e] t2]; cbn in Hu, Hd, Hf, Hfin;
    (do 2 eexists; split; [done|]); by split_and!.
Qed.

Lemma no_outcome_step fs op t : commit_outcome (txn_step fs op t) = commit_outcome t.
Proof.
  set (R := fun t t' => commit_outcome t' = commit_outcome t).
  assert (PreOrder R) as HR by (split; [done|]; intros t1 t2 t3; unfold R; congruence).
  assert (forall A (m : db A), preserves R (on_files m)) as Hfiles by (intros A m t0; unfold on_files; by destruct (m (files t0))).
  assert (preserves R (get (E := BinaryDbErrorKind))) as Hget by done.
  assert (forall f, (forall t, commit_outcome (f t) = commit_outcome t) -> preserves R (modify (E := BinaryDbErrorKind) f)) as Hmod by (intros f Hf t0; apply Hf).
  assert (forall A (op : BinaryWriteContext -> db A), preserves R (with_context op)) as Hctx by (intros A op'; unfold with_context; effects; auto).
  assert (preserves R ensure_write_open) as Hopen by (unfold ensure_write_open; effects; auto).
  assert (forall path, preserves R (track_relative_path_for_write fs path)) as Htrack.
  { intros path. unfold track_relative_path_for_write, track_absolute_file_for_write, track_absolute_file. effects; auto. }
  assert (preserves R release) as Hrel.
  { intros t0. unfold release. destruct (released (lock t0)); [done|]. by destruct (release_guards (guards (lock t0)) (files t0)) as [[[u|e] gs] s]. }
  assert (forall A path (op : BinaryWriteContext -> db A), preserves R (_ ← ensure_write_open; _ ← track_relative_path_for_write fs path; with_context op)) as Happend.
  { intros A path op'. effects; auto. }
  destruct op; cbn [txn_step].
  - apply (Happend _ (relative_path file)).
  - apply (Happend _ (relative_path file)).
  - assert (preserves R (txn_overwrite_record fs file record_index record)) as H by (unfold txn_overwrite_record; effects; auto). apply H.
  - apply (Happend _ (payload_path file)).
  - assert (preserves R (txn_append_index_candidate fs index key record_index)) as H by (unfold txn_append_index_candidate; effects; auto). apply H.
  - unfold txn_lookup_index, on_cache. by destruct (lookup_index_in_read_txn _ _ _ _) as [r [c s]].
  - apply Hfiles.
  - assert (preserves R (abort fs)) as H; [|apply H]. unfold abort, rollback_uncommitted_files. effects; auto.
    all: apply preserves_for_each; [done|]; intros x; first [apply Hctx | apply Hfiles].
Qed.

Lemma commit_Ok_inv t o t' : commit_outcome t = None -> commit t = (Ok o, t') ->
  finished t = false /\ exists t1, sync_touched_dependencies t = (Ok tt, t1) /\ finish_committed t1 = (Ok o, t').
Proof.
  unfold commit. intros Hnone H. apply bind_run_Ok in H as (t0 & ? & [= <- <-] & H). rewrite Hnone in H.
  apply bind_run_Ok in H as (u & t0 & H0 & H). unfold ensure_commit_open in H0. apply bind_run_Ok in H0 as (? & ? & [= <- <-] & [Hf ->]%require_Ok).
  apply bind_run_Ok in H as ([] & t1 & H1 & H). apply negb_true_iff in Hf. eauto.
Qed.

(** C23. What a successful commit promises, whatever operations came before and
    however they failed: the commit itself changes no file, every file that
    differs from the beginning of the transaction has been flushed with its
    present content, and the transaction is over - aborting it, or dropping it,
    does nothing, and committing again returns the same outcome. *)
Theorem commit_durable fs scope lock s ops o t' : commit (txn_run fs ops (begin scope lock s)) = (Ok o, t') ->
  disk (files t') = disk (files (txn_run fs ops (begin scope lock s))) /\
  (forall p, disk (files t') !! p <> disk s !! p -> durable (files t') !! p = disk (files t') !! p) /\
  abort fs t' = (Ok tt, t') /\ drop_txn fs t' = t' /\ commit t' = (Ok o, t').
Proof.
  pose proof (txn_run_inv fs _ ops _ (begin_inv fs scope lock s)) as [[Hothers _ _] _].
  assert (noted (txn_run fs ops (begin scope lock s))) as Hnoted by by apply noted_run, keeps_noted_nil.
  assert (commit_outcome (txn_run fs ops (begin scope lock s)) = None) as Hnone.
  { assert (commit_outcome (begin scope lock s) = None) as H by done. revert H. generalize (begin scope lock s). clear.
    induction ops as [|op ops IH]; intros t Ht; [done|]. apply IH. by rewrite no_outcome_step. }
  intros H. apply commit_Ok_inv in H as (_ & t1 & H1 & H); [|done]. apply sync_touched_Ok in H1 as (_ & Hd1 & Hf1).
  destruct (finish_committed_spec t1) as (o' & t2 & H2 & Hd2 & Hu2 & Hfin & Hout & _). rewrite H in H2. injection H2 as <- <-.
  split_and!.
  - congruence.
  - intros p Hp. rewrite Hu2, Hd2. apply Hf1, Hnoted. destruct (decide (p ∈ map rollback_path (rollback_files (txn_run fs ops (begin scope lock s))))) as [Ht|Ht]; [done|].
    destruct Hp. rewrite Hd2, Hd1. by apply Hothers.
  - unfold abort, get, mbind, stateful_bind. by rewrite Hfin.
  - unfold drop_txn. by rewrite Hfin.
  - unfold commit, get, mbind, stateful_bind. by rewrite Hout.
Qed.

(** ** Examples *)

Section Example_database.
Let demo_fs := mkDb [RootDir; Normal "db"%string] None None None.
Let demo_rows := mkFileId "rows.bin" 7 2.
Let demo_path := [RootDir; Normal "db"%string; Normal "rows.bin"%string].
Let demo_state (l : list fault) := mkIo ∅ {[demo_path := to_le_bytes 4 7 ++ [Byte.x61; Byte.x62]]} l.

(** An append, an overwrite, and a payload whose second byte is not written. *)
Let demo_ops := [TxnAppendRecord demo_rows [Byte.x63; Byte.x64]; TxnOverwriteRecord demo_rows 0 [Byte.xff; Byte.xff];
  TxnAppendPayload (mkPayloadFileId "p.bin" 7) [Byte.x01; Byte.x02]].
Let demo_faults := replicate 24 Works ++ [Torn 1 OtherIo].

Lemma abort_restores_files_witness : exists t',
  abort demo_fs (txn_run demo_fs demo_ops (begin ContentWrite (mkLocks [false] false) (demo_state demo_faults))) = (Ok tt, t') /\
  disk (files t') = {[demo_path := to_le_bytes 4 7 ++ [Byte.x61; Byte.x62]]}.
Proof.
  refine (ex_intro _ (snd (abort demo_fs (txn_run demo_fs demo_ops (begin ContentWrite (mkLocks [false] false) (demo_state demo_faults))))) (conj _ _)).
  - vm_compute. reflexivity.
  - refine (abort_restores_files demo_fs ContentWrite (mkLocks [false] false) (demo_state demo_faults) demo_ops _ _). vm_compute. reflexivity.
Defined.

Lemma append_only_abort_succeeds_witness :
  let ops := [TxnAppendRecord demo_rows [Byte.x63; Byte.x64]; TxnAppendPayload (mkPayloadFileId "p.bin" 7) [Byte.x01; Byte.x02]; TxnAbort] in
  let s := demo_state (replicate 13 Works ++ [Torn 1 OtherIo; Refused PermissionDenied]) in
  exists t', abort demo_fs (txn_run demo_fs ops (begin ContentWrite (mkLocks [false] false) s)) = (Ok tt, t') /\
    disk (files t') = {[demo_path := to_le_bytes 4 7 ++ [Byte.x61; Byte.x62]]} /\ finished t' = true.
Proof.
  intros ops s. refine (append_only_abort_succeeds demo_fs ContentWrite (mkLocks [false] false) s ops _ _); vm_compute; reflexivity.
Defined.

Lemma commit_durable_witness :
  let t := txn_run demo_fs demo_ops (begin ContentWrite (mkLocks [false] false) (demo_state [])) in
  exists t', commit t = (Ok (mkOutcome None), t') /\ disk (files t') = disk (files t) /\
    (forall p, disk (files t') !! p <> disk (demo_state []) !! p -> durable (files t') !! p = disk (files t') !! p) /\
    abort demo_fs t' = (Ok tt, t') /\ drop_txn demo_fs t' = t' /\ commit t' = (Ok (mkOutcome None), t').
Proof.
  intros t. refine (ex_intro _ (snd (commit t)) (conj _ _)).
  - vm_compute. reflexivity.
  - refine (commit_durable demo_fs ContentWrite (mkLocks [false] false) (demo_state []) demo_ops (mkOutcome None) _ _). vm_compute. reflexivity.
Defined.

(** Two ways in which a transaction becomes impossible to abort, although every
    call works again. An append that is torn leaves the record file with an
    incomplete row; if a record of the same file was overwritten before, the
    undoing starts with that record, and is refused because the file is not
    well formed, before the file is ever truncated. *)
Example torn_append_blocks_abort :
  let ops := [TxnOverwriteRecord demo_rows 0 [Byte.xff; Byte.xff]; TxnAppendRecord demo_rows [Byte.x63; Byte.x64]] in
  let t := txn_run demo_fs ops (begin ContentWrite (mkLocks [false] false) (demo_state (replicate 17 Works ++ [Torn 1 OtherIo]))) in
  let t' := snd (abort demo_fs t) in
  faults (files t) = [] /\ fst (abort demo_fs t) = Err Corruption /\ fst (abort demo_fs t') = Err Corruption /\
  disk (files t') !! demo_path = Some (to_le_bytes 4 7 ++ [Byte.xff; Byte.xff; Byte.x63]).
Proof. vm_compute. done. Qed.

(** An overwrite for which the command has no authority is refused, but leaves
    a before-image that the command may not write back either: the rows
    appended by others before stay. *)
Example refused_overwrite_blocks_abort :
  let plan_rows := mkFileId "plan_rows.bin" 7 2 in
  let ops := [TxnAppendRecord plan_rows [Byte.x63; Byte.x64]; TxnOverwriteRecord demo_rows 0 [Byte.xff; Byte.xff]] in
  let t := txn_run demo_fs ops (begin PlanSyncLocalPlan (mkLocks [false] false) (demo_state [])) in
  let t' := snd (abort demo_fs t) in
  fst (abort demo_fs t) = Err InvalidDomainData /\
  disk (files t') !! [RootDir; Normal "db"%string; Normal "plan_rows.bin"%string] = Some (to_le_bytes 4 7 ++ [Byte.x63; Byte.x64]).
Proof. vm_compute. done. Qed.
End Example_database.
