(* ===== verification/PayloadFile.v ===== *)
(** * Payload files

    A payload file of [ait-core/src/binary_db/filesystem_db.rs] as the bytes that
    it holds: what an append adds and what a read cuts out. *)

From Stdlib Require Import NArith Lia.
From Stdlib Require Strings.Byte.
From stdpp Require Import base numbers strings gmap list.
From S2P Require Import Prelude FileStore BinaryDb.

Section Payload.
Context (fs : LocalBinaryDbFs) (file : BinaryPayloadFileId) (path : PathBuf) {du : gmap PathBuf bytes}.
Context (Hpath : file_path_for fs (payload_path file) = Ok path).
Implicit Types d : gmap PathBuf bytes.

(** The bytes of the file; a file that is missing counts as its header. *)
Definition payload_contents (d : gmap PathBuf bytes) : bytes := default (to_le_bytes 4 (payload_layout_id file)) (d !! path).

Record holds_payload (d : gmap PathBuf bytes) : Prop := {
  hp_length : 4 <= length (payload_contents d);
  hp_layout : from_le_bytes (take 4 (payload_contents d)) = payload_layout_id file;
  hp_space : (N.of_nat (length (payload_contents d)) <= usize_max)%N
}.

Lemma validate_payload_run d data : d !! path = Some data -> 4 <= length data -> from_le_bytes (take 4 data) = payload_layout_id file ->
  validate_payload_file_layout path (payload_layout_id file) (mkIo du d []) = (Ok (N.of_nat (length data)), mkIo du d []).
Proof.
  intros Hdata Hlen Hlayout. unfold validate_payload_file_layout. erewrite bind_io by apply metadata_len_works. rewrite Hdata. erewrite bind_lift by done.
  rewrite bind_require by (apply N.leb_le; unfold BIN_FILE_HEADER_BYTES; lia).
  erewrite bind_io by (apply read_range_works; [exact Hdata|unfold BIN_FILE_HEADER_BYTES; lia]).
  erewrite bind_lift by (unfold read_u32_le; change (N.to_nat 0) with 0; rewrite drop_0; change (N.to_nat BIN_FILE_HEADER_BYTES) with 4;
    rewrite length_take, Nat.min_l by done; cbn [Nat.eqb negb fail_if mbind result_bind]; rewrite Hlayout; done).
  by rewrite bind_require by (apply N.eqb_eq; done).
Qed.

Lemma read_payload_at d offset len : holds_payload d -> is_Some (d !! path) -> (4 <= offset)%N ->
  (offset + len <= N.of_nat (length (payload_contents d)))%N ->
  read_payload fs file offset len (mkIo du d []) = (Ok (take (N.to_nat len) (drop (N.to_nat offset) (payload_contents d))), mkIo du d []).
Proof.
  intros [Hlen Hlayout Hspace] [data Hdata] Hoff Hend. unfold payload_contents in *. rewrite Hdata in *. cbn [default from_option id] in *.
  unfold read_payload. erewrite bind_lift by exact Hpath. erewrite bind_run by (by apply validate_payload_run).
  rewrite bind_require by (by apply N.leb_le). rewrite bind_require by (apply andb_true_iff; split; apply N.leb_le; lia).
  unfold io, map_error. by erewrite read_range_works.
Qed.

Lemma append_payload_at d raw write : holds_payload d -> ensure_authorized_path write (payload_path file) = Ok tt -> raw <> [] ->
  (N.of_nat (length raw) <= u32_max)%N ->
  append_payload fs file raw write (mkIo du d []) =
    (Ok (mkPayloadRange (N.of_nat (length (payload_contents d))) (N.of_nat (length raw))), mkIo du (<[path := payload_contents d ++ raw]> d) []).
Proof.
  intros [Hlen Hlayout Hspace] Hw Hne Hraw. unfold append_payload. erewrite bind_lift by exact Hw.
  rewrite bind_require by (apply negb_true_iff, andb_false_iff; right; by destruct raw).
  erewrite bind_lift by exact Hpath. erewrite bind_run by done. erewrite bind_io by apply metadata_len_works.
  clear Hspace. unfold payload_contents in *. destruct (d !! path) as [data|] eqn:Hdata; cbn [default from_option id fmap option_fmap option_map compose] in *.
  - destruct (N.of_nat (length data)) as [|n] eqn:Hn; [lia|]. rewrite <- Hn. clear n Hn.
    apply (bind_run_to _ _ _ (N.of_nat (length data)) (mkIo du d [])).
    { rewrite bind_require by (apply N.leb_le; unfold BIN_FILE_HEADER_BYTES; lia). by apply validate_payload_run. }
    erewrite bind_run by (by apply append_at_run). by rewrite bind_require by (by apply N.leb_le).
  - erewrite bind_run by (apply write_header_run; by rewrite Hdata).
    erewrite bind_run by (apply (append_at_run path _ (to_le_bytes 4 (payload_layout_id file))); apply lookup_insert_eq).
    rewrite bind_require by (by apply N.leb_le). by rewrite insert_insert_eq.
Qed.

(** *** After an append *)

Lemma contents_appended d raw : payload_contents (<[path := payload_contents d ++ raw]> d) = payload_contents d ++ raw.
Proof. unfold payload_contents at 1. by rewrite lookup_insert_eq. Qed.

Lemma payload_appended d raw : holds_payload d -> (N.of_nat (length (payload_contents d ++ raw)) <= usize_max)%N ->
  holds_payload (<[path := payload_contents d ++ raw]> d).
Proof.
  intros [Hlen Hlayout Hspace] H. split; rewrite contents_appended; [rewrite length_app; lia|by rewrite take_app_le|done].
Qed.

Lemma slice_appended d raw offset len : (offset + len <= N.of_nat (length (payload_contents d)))%N ->
  take (N.to_nat len) (drop (N.to_nat offset) (payload_contents d ++ raw)) = take (N.to_nat len) (drop (N.to_nat offset) (payload_contents d)).
Proof. intros H. rewrite drop_app_le by lia. apply take_app_le. rewrite length_drop. lia. Qed.

Lemma contents_other d d' : d' !! path = d !! path -> payload_contents d' = payload_contents d.
Proof. unfold payload_contents. by intros ->. Qed.

Lemma payload_other d d' : d' !! path = d !! path -> holds_payload d -> holds_payload d'.
Proof. intros H [H1 H2 H3]. split; by rewrite (contents_other d d' H). Qed.

Lemma payload_missing d : d !! path = None -> (payload_layout_id file <= u32_max)%N -> holds_payload d.
Proof.
  intros H Hl. assert (payload_contents d = to_le_bytes 4 (payload_layout_id file)) as Hc by (unfold payload_contents; by rewrite H).
  split; rewrite Hc.
  - by rewrite length_to_le_bytes.
  - rewrite <- (app_nil_r (to_le_bytes 4 _)), take_app_le, firstn_all2 by (by rewrite ?length_to_le_bytes). apply from_to_le_bytes.
    change (256 ^ N.of_nat 4)%N with 4294967296%N. unfold u32_max in Hl. lia.
  - rewrite length_to_le_bytes. by vm_compute.
Qed.
End Payload.

Arguments holds_payload file path d : assert.
Arguments payload_contents file path d : assert.
