(* ===== verification/QuietTxn.v ===== *)
(** * Transactions in which nothing fails

    Write transactions whose file calls all work: each operation is a function of
    the files, a commit keeps them, and a transaction that has not written leaves
    them alone when it is dropped. The stores of the content database state their
    writes with these rules. *)

From Stdlib Require Import NArith Lia.
From Stdlib Require Strings.Byte.
From stdpp Require Import base numbers strings gmap list.
From S2P Require Import Prelude FileStore BinaryDb RecordTable BinaryIndex ReadTxn WriteTxn PayloadFile.

(** ** Files with different names *)

Lemma path_of_name fs p path : file_path_for fs p = Ok path -> path = join (authority_root fs) (components p).
Proof.
  intros Hp%file_path_store_path. unfold store_path_for, validate_store_relative_path in Hp.
  apply bind_Ok in Hp as (rel & Hrel & [= <-]). apply bind_Ok in Hrel as (u1 & _ & Hrel). by apply bind_Ok in Hrel as (u2 & _ & [= <-]).
Qed.

Lemma join_name_inj root a b : join root [Normal a] = join root [Normal b] -> a = b.
Proof. unfold join. destruct root as [|c root]; [by intros [= ->]|]. by intros [= ->]%app_inv_head. Qed.

Lemma names_apart fs p q a b path path' : file_path_for fs p = Ok path -> file_path_for fs q = Ok path' ->
  components p = [Normal a] -> components q = [Normal b] -> a <> b -> path <> path'.
Proof.
  intros Hp%path_of_name Hq%path_of_name Ha Hb Hne Heq. rewrite Ha in Hp. rewrite Hb in Hq. apply Hne, (join_name_inj (authority_root fs)). congruence.
Qed.

(** ** Answers *)

(** In every state that is [good], [m] answers [r] and stays in such a state. *)
Definition answers {S E A : Type} (good : S -> Prop) (m : stateful S E A) (r : result E A) : Prop :=
  forall s, good s -> exists s', m s = (r, s') /\ good s'.

Section Answers.
Context {S E : Type} (good : S -> Prop).

Lemma answers_ret {A : Type} (a : A) : answers good (mret a : stateful S E A) (Ok a).
Proof. intros s Hs. by exists s. Qed.

Lemma answers_lift {A : Type} (r : result E A) : answers good (lift r : stateful S E A) r.
Proof. intros s Hs. by exists s. Qed.

Lemma answers_bind {A B : Type} (m : stateful S E A) (k : A -> stateful S E B) r r' : answers good m r ->
  match r with Ok a => answers good (k a) r' | Err e => r' = Err e end -> answers good (m ≫= k) r'.
Proof.
  intros Hm Hk s Hs. destruct (Hm s Hs) as (s1 & Hrun & Hs1). unfold mbind, stateful_bind. rewrite Hrun.
  destruct r as [a|e]; [by apply Hk|]. rewrite Hk. by exists s1.
Qed.

Lemma answers_step {A B : Type} (m : stateful S E A) (k : A -> stateful S E B) a r : answers good m (Ok a) -> answers good (k a) r -> answers good (m ≫= k) r.
Proof. intros Hm Hk. by apply (answers_bind m k (Ok a)). Qed.
End Answers.

Lemma answers_map_error {S E F A : Type} (good : S -> Prop) (f : E -> F) (m : stateful S E A) r : answers good m r ->
  answers good (map_error f m) (map_err f r).
Proof. intros Hm s Hs. destruct (Hm s Hs) as (s' & Hrun & Hs'). exists s'. unfold map_error. rewrite Hrun. by destruct r. Qed.

(** ** Calm transactions *)

Section Quiet.
Context (fs : LocalBinaryDbFs) (paths : list PathBuf) (indexes : list (BinaryIndexId * PathBuf)).
Context (Hindexes : Forall (fun ip => file_path_for fs (index_path (fst ip)) = Ok (snd ip)) indexes) (Hapart : NoDup (map snd indexes)).
Context {du : gmap PathBuf bytes}.
Implicit Types d : gmap PathBuf bytes.

(** An open transaction of a command that may write content, without failures
    to come, that has written to no file but [paths], and whose cache is right
    about the [indexes]. *)
Record calm (d : gmap PathBuf bytes) (t : BinaryDbWriteTxn) : Prop := {
  ca_files : files t = mkIo du d [];
  ca_open : finished t = false;
  ca_outcome : commit_outcome t = None;
  ca_touched : Forall (fun p => p ∈ paths) (touched_files t);
  ca_active : ensure_authorized_family (write_context t) ContentFamily = Ok tt;
  ca_cache : Forall (fun ip => index_coherent (fst ip) (snd ip) d (index_cache t)) indexes
}.

(** In such a transaction [m] succeeds with [a] and leaves the files [d']. *)
Definition works {E A : Type} (d : gmap PathBuf bytes) (m : stateful BinaryDbWriteTxn E A) (a : A) (d' : gmap PathBuf bytes) : Prop :=
  forall t, calm d t -> exists t', m t = (Ok a, t') /\ calm d' t'.

Lemma works_bind {E A B : Type} d d1 d' (m : stateful BinaryDbWriteTxn E A) (k : A -> stateful BinaryDbWriteTxn E B) a b :
  works d m a d1 -> works d1 (k a) b d' -> works d (m ≫= k) b d'.
Proof.
  intros Hm Hk t Ht. destruct (Hm t Ht) as (t1 & Hrun & Ht1). destruct (Hk t1 Ht1) as (t2 & Hrun2 & Ht2).
  exists t2. split; [|done]. by erewrite bind_run by exact Hrun.
Qed.

Lemma works_ret {E A : Type} d (a : A) : works d (mret a : stateful BinaryDbWriteTxn E A) a d.
Proof. intros t Ht. by exists t. Qed.

Lemma works_lift {E A : Type} d (r : result E A) a : r = Ok a -> works d (lift r) a d.
Proof. intros -> t Ht. by exists t. Qed.

Lemma works_map_error {E F A : Type} (f : E -> F) d d' (m : stateful BinaryDbWriteTxn E A) a : works d m a d' -> works d (map_error f m) a d'.
Proof. intros Hm t Ht. destruct (Hm t Ht) as (t' & Hrun & Ht'). exists t'. unfold map_error. by rewrite Hrun. Qed.

Lemma works_open d : works d ensure_write_open tt d.
Proof.
  intros t Ht. exists t. split; [|done]. unfold ensure_write_open. erewrite bind_run by done.
  erewrite bind_run by (unfold require; rewrite (ca_open _ _ Ht); done). pose proof (ca_active _ _ Ht) as Ha.
  unfold ensure_authorized_family in Ha. apply bind_Ok in Ha as ([] & Ha & _). unfold lift. by rewrite Ha.
Qed.

Lemma works_track d p path : file_path_for fs p = Ok path -> path ∈ paths -> works d (track_relative_path_for_write fs p) tt d.
Proof.
  intros Hp%file_path_store_path Hin t Ht.
  assert (Forall (fun p => p ∈ paths) (push_new (touched_files t) path)) as Htouched.
  { unfold push_new. case_bool_decide; [apply Ht|]. apply Forall_app. split; [apply Ht|by apply Forall_singleton]. }
  unfold track_relative_path_for_write. erewrite bind_run by (by rewrite Hp).
  unfold track_absolute_file_for_write. erewrite bind_run by done.
  destruct (existsb _ (rollback_files t)); [eexists; split; [by erewrite bind_run by done|]; destruct Ht as [H1 H2 H3 _ H4 H5]; by split|].
  pose proof (ca_files _ _ Ht) as Hf. erewrite bind_run.
  2:{ erewrite bind_run; [|unfold on_files, io, map_error; rewrite Hf, metadata_len_works; done]. done. }
  eexists. split; [done|]. destruct Ht as [_ H2 H3 _ H4 H5]. by split.
Qed.

(** An operation that changes no index. *)
Lemma works_op {A : Type} d d' (op : BinaryWriteContext -> db A) a :
  (forall write, ensure_authorized_family write ContentFamily = Ok tt -> op write (mkIo du d []) = (Ok a, mkIo du d' [])) ->
  (forall p, p ∈ map snd indexes -> d' !! p = d !! p) -> works d (with_context op) a d'.
Proof.
  intros Hop Hother t Ht. destruct Ht as [Hf Ho Hout Htou Ha Hc]. unfold with_context. erewrite bind_run by done.
  unfold on_files. rewrite Hf, (Hop _ Ha). eexists. split; [done|]. split; [done..|]. cbn.
  rewrite Forall_forall in Hc |- *. intros [index path] Hin. destruct (Hc _ Hin) as [Hd Hm]. cbn in *.
  assert (d' !! path = d !! path) as Heq by (apply Hother, list_elem_of_fmap; by exists (index, path)).
  unfold index_coherent, index_content, index_data in *. rewrite Heq. by split.
Qed.

(** *** Writing *)

Lemma works_payload d file path raw : file_path_for fs (payload_path file) = Ok path -> for_relative_path (payload_path file) = ContentFamily ->
  path ∈ paths -> path ∉ map snd indexes -> holds_payload file path d -> raw <> [] -> (N.of_nat (length raw) <= u32_max)%N ->
  works d (txn_append_payload fs file raw) (mkPayloadRange (N.of_nat (length (payload_contents file path d))) (N.of_nat (length raw)))
    (<[path := payload_contents file path d ++ raw]> d).
Proof.
  intros Hp Hfam Hin Hout Hd Hne Hraw. eapply works_bind; [apply works_open|]. eapply works_bind; [by apply (works_track _ _ path)|].
  apply works_op; [|intros p Hi; apply lookup_insert_ne; by intros ->].
  intros write Hw. apply append_payload_at; [done|done| |done|done]. unfold ensure_authorized_path. by rewrite Hfam.
Qed.

Lemma works_record d file path rows row : file_path_for fs (relative_path file) = Ok path -> for_relative_path (relative_path file) = ContentFamily ->
  (0 < record_size file <= u32_max)%N -> (file_layout_id file <= u32_max)%N -> path ∈ paths -> path ∉ map snd indexes ->
  holds_table file path d rows -> (N.of_nat (length rows) <= u32_max)%N -> N.of_nat (length row) = record_size file ->
  works d (txn_append_record fs file row) (N.of_nat (length rows)) (<[path := table_bytes file (rows ++ [row])]> d).
Proof.
  intros Hp Hfam [Hs1 Hs2] Hl Hin Hout Ht Hcount Hrow. eapply works_bind; [apply works_open|]. eapply works_bind; [by apply (works_track _ _ path)|].
  apply works_op; [|intros p Hi; apply lookup_insert_ne; by intros ->].
  intros write Hw. assert (ensure_authorized_path write (relative_path file) = Ok tt) as Hauth by (unfold ensure_authorized_path; by rewrite Hfam).
  apply (append_record_run fs file path write Hp Hs1 Hs2 Hl Hauth); [done|done|lia].
Qed.

Lemma works_overwrite d file path rows i row new : file_path_for fs (relative_path file) = Ok path -> for_relative_path (relative_path file) = ContentFamily ->
  (0 < record_size file <= u32_max)%N -> (file_layout_id file <= u32_max)%N -> path ∈ paths -> path ∉ map snd indexes ->
  holds_table file path d rows -> (N.of_nat (length rows) <= u32_max)%N -> rows !! N.to_nat i = Some row -> N.of_nat (length new) = record_size file ->
  works d (txn_overwrite_record fs file i new) tt (<[path := table_bytes file (<[N.to_nat i := new]> rows)]> d).
Proof.
  intros Hp Hfam [Hs1 Hs2] Hl Hin Hout Ht Hcount Hrow Hnew. eapply works_bind; [apply works_open|]. eapply works_bind; [by apply (works_track _ _ path)|].
  intros t Hcalm. erewrite bind_run by done.
  assert (exists t1, (if existsb (same_record file i) (rollback_records t) then mret tt
      else image ← on_files (read_record fs file i);
        modify (fun t => set_rollback (rollback_files t) (rollback_records t ++ [mkRollbackRecord file i image]) t)) t = (Ok tt, t1) /\ calm d t1)
    as (t1 & Hrun & Hcalm1).
  { destruct (existsb _ _); [by exists t|]. destruct Hcalm as [Hf H1 H2 H3 H4 H5]. eexists. split.
    - erewrite bind_run.
      2:{ unfold on_files. rewrite Hf, (read_record_run fs file path Hp Hs1 Hs2 Hl d rows i Ht Hcount), Hrow. done. }
      done.
    - by split. }
  erewrite bind_run by exact Hrun. clear Hrun Hcalm t. revert t1 Hcalm1.
  match goal with |- forall t1, _ -> exists t', ?m t1 = _ /\ calm ?d' t' => change (works d m tt d') end.
  apply works_op; [|intros p Hi; apply lookup_insert_ne; by intros ->].
  intros write Hw. pose proof (lookup_lt_Some _ _ _ Hrow).
  assert (ensure_authorized_path write (relative_path file) = Ok tt) as Hauth by (unfold ensure_authorized_path; by rewrite Hfam).
  apply (overwrite_record_run fs file path write Hp Hs1 Hs2 Hl Hauth); [done|done|lia|lia].
Qed.

(** The files with one more entry in an index. *)
Definition with_entry (index : BinaryIndexId) (path : PathBuf) (raw : bytes) (d : gmap PathBuf bytes) : gmap PathBuf bytes :=
  <[path := default (to_le_bytes 4 (index_layout_id index)) (d !! path) ++ raw]> d.

Lemma works_candidate d index path m key i raw : (index, path) ∈ indexes -> for_relative_path (index_path index) = ContentFamily -> path ∈ paths ->
  index_content index path d m -> (index_layout_id index <= u32_max)%N -> (i <= u32_max)%N -> candidate_bytes index key i = Ok raw ->
  works d (txn_append_index_candidate fs index key i) tt (with_entry index path raw d) /\
    index_content index path (with_entry index path raw d) (push_candidate key i m).
Proof.
  intros Hix Hfam Hin Hm Hl Hi Hraw. pose proof Hindexes as Hp. rewrite Forall_forall in Hp. specialize (Hp _ Hix). cbn in Hp.
  assert (forall write, ensure_authorized_family write ContentFamily = Ok tt ->
    append_index_candidate fs index key i write (mkIo du d []) = (Ok tt, mkIo du (with_entry index path raw d) []) /\
    index_content index path (with_entry index path raw d) (push_candidate key i m)) as Hrun.
  { intros write Hw. apply (append_candidate_run fs index path (du := du) Hp d m key i raw write Hm Hl); [|done|done]. unfold ensure_authorized_path. by rewrite Hfam. }
  split; [|by apply (Hrun (mkWriteContext ContentWrite true))].
  eapply works_bind; [apply works_open|]. eapply works_bind; [by apply (works_track _ _ path)|].
  intros t [Hf Ho Hout Htou Ha Hc]. unfold with_context. erewrite bind_run.
  2:{ erewrite bind_run by done. unfold on_files. rewrite Hf. destruct (Hrun (write_context t) Ha) as [-> _]. done. }
  eexists. split; [done|]. split; [done..|]. cbn. rewrite Forall_forall in Hc |- *. intros [index' path'] Hix'. destruct (Hc _ Hix') as [Hc1 Hc2]. cbn [fst snd] in *.
  destruct (decide (path' = path)) as [->|Hne].
  - assert (index' = index) as ->.
    { apply list_elem_of_lookup in Hix as [a Hai], Hix' as [b Hbi].
      assert (a = b) as -> by (apply (NoDup_lookup _ _ _ path Hapart); by rewrite list_lookup_fmap, ?Hai, ?Hbi). congruence. }
    split; cbn; intros x; [by rewrite lookup_delete_eq|]. rewrite lookup_alter_eq. intros (m' & Hm' & ->)%fmap_Some.
    assert (m' = m) as ->; [|by apply (Hrun (mkWriteContext ContentWrite true))].
    destruct (Hc2 m' Hm') as (data' & Hd' & Hp'), Hm as (data & Hd & Hp2). congruence.
  - assert (index_key index' <> index_key index) as Hkey.
    { intros [= Hk _ _ _]. apply Hne. pose proof Hindexes as Hp'. rewrite Forall_forall in Hp'. specialize (Hp' _ Hix'). by eapply path_of_components. }
    assert (with_entry index path raw d !! path' = d !! path') as Heq by (by apply lookup_insert_ne).
    split; cbn; intros x; [rewrite lookup_delete_ne by done|rewrite lookup_alter_ne by done]; intros Hx.
    + unfold index_data. rewrite Heq. by apply Hc1.
    + unfold index_content, index_data. rewrite Heq. by apply Hc2.
Qed.

(** *** Reading *)

(** Reading leaves alone what a rollback would undo. *)
Definition unwritten (d : gmap PathBuf bytes) (was : list BinaryDbRollbackFile * list BinaryDbRollbackRecord) (t : BinaryDbWriteTxn) : Prop :=
  calm d t /\ (rollback_files t, rollback_records t) = was.

Lemma works_answers {E A : Type} d (m : stateful BinaryDbWriteTxn E A) a : (forall was, answers (unwritten d was) m (Ok a)) -> works d m a d.
Proof.
  intros Hm t Ht. destruct (Hm (rollback_files t, rollback_records t) t) as (t' & Hrun & Ht' & _); [by split|]. by exists t'.
Qed.

Lemma answers_record d was file path rows i : file_path_for fs (relative_path file) = Ok path ->
  (0 < record_size file <= u32_max)%N -> (file_layout_id file <= u32_max)%N -> holds_table file path d rows -> (N.of_nat (length rows) <= u32_max)%N ->
  answers (unwritten d was) (txn_read_record fs file i) (match rows !! N.to_nat i with Some row => Ok row | None => Err MissingData end).
Proof.
  intros Hp [Hs1 Hs2] Hl Ht Hcount t [Hc Hwas]. exists t. split; [|by split]. unfold txn_read_record, on_files. rewrite (ca_files _ _ Hc).
  rewrite (read_record_run fs file path Hp Hs1 Hs2 Hl d rows i Ht Hcount). rewrite <- (ca_files _ _ Hc). destruct t; cbn. by destruct (rows !! N.to_nat i).
Qed.

Lemma answers_payload d was file path offset len : file_path_for fs (payload_path file) = Ok path -> holds_payload file path d -> is_Some (d !! path) ->
  (4 <= offset)%N -> (offset + len <= N.of_nat (length (payload_contents file path d)))%N ->
  answers (unwritten d was) (txn_read_payload fs file offset len) (Ok (take (N.to_nat len) (drop (N.to_nat offset) (payload_contents file path d)))).
Proof.
  intros Hp Hd Hsome Hoff Hend t [Hc Hwas]. exists t. split; [|by split]. unfold txn_read_payload, on_files. rewrite (ca_files _ _ Hc).
  rewrite (read_payload_at fs file path Hp) by done. rewrite <- (ca_files _ _ Hc). by destruct t.
Qed.

Lemma answers_lookup d was index path m key : (index, path) ∈ indexes -> index_content index path d m -> key_fits index key ->
  answers (unwritten d was) (txn_lookup_index fs index key) (Ok (default [] (m !! key))).
Proof.
  intros Hix Hm Hkey t [[Hf H1 H2 H3 H4 H5] Hwas]. pose proof Hindexes as Hp. rewrite Forall_forall in Hp. specialize (Hp _ Hix). cbn in Hp.
  unfold txn_lookup_index, on_cache. rewrite Hf. pose proof H5 as Hc. rewrite Forall_forall in Hc. pose proof (Hc _ Hix) as Hcoh. cbn in Hcoh.
  destruct (cached_lookup_run fs (du := du) d (index_cache t) index path m key Hp Hm Hkey Hcoh) as (c' & -> & Hc' & _ & _ & Hother).
  eexists. split; [done|]. split; [|done]. split; [done..|]. cbn. apply Forall_forall. intros [index' path'] Hix'. cbn.
  destruct (decide (index_key index' = index_key index)) as [Hk|Hk].
  - assert (path' = path) as ->.
    { injection Hk as Hk _ _ _. pose proof Hindexes as Hp'. rewrite Forall_forall in Hp'. specialize (Hp' _ Hix'). by eapply path_of_components. }
    assert (index' = index) as ->; [|done]. apply list_elem_of_lookup in Hix as [a Hai], Hix' as [b Hbi].
    assert (a = b) as -> by (apply (NoDup_lookup _ _ _ path Hapart); by rewrite list_lookup_fmap, ?Hai, ?Hbi). congruence.
  - destruct (Hc _ Hix') as [Hd Hm']. destruct (Hother _ Hk) as [E1 E2]. split; [by rewrite E1|by rewrite E2].
Qed.

(** ** Ends of a transaction *)

(** The flush of files that exist. *)
Lemma sync_calm t d : (exists du0, files t = mkIo du0 d []) -> Forall (fun p => is_Some (d !! p)) (touched_files t) ->
  exists du', sync_touched_dependencies t = (Ok tt, set_files (mkIo du' d []) t).
Proof.
  intros Hf Htouched. assert (forall ps t0, (exists du0, files t0 = mkIo du0 d []) -> Forall (fun p => is_Some (d !! p)) ps ->
    exists du', for_each (fun path => on_files (io (sync_file path))) ps t0 = (Ok tt, set_files (mkIo du' d []) t0)) as Hfiles.
  { induction ps as [|p ps IH]; intros t0 [du0 H0] Hps; [exists du0; destruct t0; cbn in H0; by subst|]. apply Forall_cons in Hps as [[data Hdata] Hps].
    destruct (IH (set_files (mkIo (<[p := data]> du0) d []) t0)) as [du' Hrun]; [by eexists|done|]. exists du'. cbn [for_each].
    erewrite bind_run; [exact Hrun|]. unfold on_files, io, map_error, sync_file. rewrite H0. cbn. by rewrite Hdata. }
  assert (forall ps t0, (exists du0, files t0 = mkIo du0 d []) -> for_each (fun path => on_files (io (sync_dir path))) ps t0 = (Ok tt, t0)) as Hdirs.
  { induction ps as [|p ps IH]; intros t0 H0; [done|]. cbn [for_each]. erewrite bind_run; [by apply IH|]. destruct H0 as [du0 H0].
    unfold on_files, io, sync_dir, map_error. rewrite H0, query_works, <- H0. by destruct t0. }
  destruct (Hfiles (touched_files t) t Hf Htouched) as [du' Hrun]. exists du'. unfold sync_touched_dependencies.
  erewrite bind_run by done. erewrite bind_run by exact Hrun. apply Hdirs. by eexists.
Qed.

Lemma commit_quiet t d : calm d t -> (forall p, p ∈ paths -> is_Some (d !! p)) ->
  exists o t' du', commit t = (Ok o, t') /\ files t' = mkIo du' d [] /\ finished t' = true.
Proof.
  intros [Hf Ho Hout Htou _ _] Hthere. destruct (sync_calm t d) as [du' Hsync]; [by eexists|by eapply Forall_impl; [exact Htou|]|].
  unfold commit. erewrite bind_run by done. rewrite Hout.
  erewrite bind_run by (unfold ensure_commit_open; erewrite bind_run by done; unfold require; rewrite Ho; done).
  erewrite bind_run by exact Hsync. unfold finish_committed, finish_crossed_commit_point. set (t1 := set_files (mkIo du' d []) t).
  destruct (release_calm (set_finished (finish_context (set_rollback [] [] t1)))) as (t2 & Hrel & Hfiles); [done|].
  pose proof (release_effect (set_finished (finish_context (set_rollback [] [] t1)))) as (_ & _ & _ & Hfin). rewrite Hrel in Hfin. cbn in Hfin.
  eexists _, _, du'. split_and!.
  - erewrite bind_run; [|erewrite bind_run by done; erewrite bind_run by done; erewrite bind_run by done; unfold try_; rewrite Hrel; done].
    by erewrite bind_run by done.
  - cbn. rewrite Hfiles. done.
  - exact Hfin.
Qed.

(** A transaction that has not written. *)
Lemma rollback_nothing t : rollback_files t = [] -> rollback_records t = [] ->
  exists t1, rollback_uncommitted_files fs t = (Ok tt, t1) /\ files t1 = files t.
Proof.
  intros H1 H2. unfold rollback_uncommitted_files. erewrite bind_run by done. rewrite H2. erewrite bind_run by done. erewrite bind_run by done.
  erewrite bind_run by done. cbn [rollback_files set_rollback]. rewrite H1. erewrite bind_run by done. by eexists.
Qed.

Lemma abort_untouched t d : files t = mkIo du d [] -> finished t = false -> rollback_files t = [] -> rollback_records t = [] ->
  exists t', abort fs t = (Ok tt, t') /\ finished t' = true /\ files t' = mkIo du d [].
Proof.
  intros Hf Ho H1 H2. unfold abort. erewrite bind_run by done. rewrite Ho.
  destruct (rollback_nothing t H1 H2) as (t1 & Hrun & Hf1).
  erewrite bind_run by exact Hrun. erewrite bind_run by done. erewrite bind_run by done.
  match goal with |- context [(release ≫= _) ?t2] => set (t3 := t2) end.
  destruct (release_calm t3) as (t4 & Hrel & Hf4); [unfold t3; cbn; by rewrite Hf1, Hf|].
  erewrite bind_run by exact Hrel. eexists. split; [done|]. split; [done|]. cbn in *. by rewrite Hf4, Hf1, Hf.
Qed.

Lemma drop_unwritten t d : unwritten d ([], []) t -> files (drop_txn fs t) = mkIo du d [].
Proof.
  intros [[Hf Ho _ _ _ _] [= H1 H2]]. unfold drop_txn. rewrite Ho. destruct (rollback_nothing t H1 H2) as (t1 & -> & Hf1). cbn.
  destruct (release_calm (finish_context t1)) as (t2 & -> & Hf2); [cbn; by rewrite Hf1, Hf|]. cbn in *. by rewrite Hf2, Hf1, Hf.
Qed.

(** *** The end of a method *)

(** From the states [P], [m] answers [r], and when its transaction is dropped
    the files are [d']. *)
Definition concludes {E A : Type} (P : BinaryDbWriteTxn -> Prop) (m : stateful BinaryDbWriteTxn E A) (r : result E A) (d' : gmap PathBuf bytes) : Prop :=
  forall t, P t -> exists t' du', m t = (r, t') /\ files (drop_txn fs t') = mkIo du' d' [].

Lemma concludes_works {E A B : Type} d d1 was (m : stateful BinaryDbWriteTxn E A) (k : A -> stateful BinaryDbWriteTxn E B) a r d' :
  works d m a d1 -> concludes (calm d1) (k a) r d' -> concludes (unwritten d was) (m ≫= k) r d'.
Proof.
  intros Hm Hk t [Ht _]. destruct (Hm t Ht) as (t1 & Hrun & Ht1). destruct (Hk t1 Ht1) as (t2 & du2 & Hrun2 & Hf).
  exists t2, du2. split; [|done]. by erewrite bind_run by exact Hrun.
Qed.

Lemma concludes_calm {E A B : Type} d d1 (m : stateful BinaryDbWriteTxn E A) (k : A -> stateful BinaryDbWriteTxn E B) a r d' :
  works d m a d1 -> concludes (calm d1) (k a) r d' -> concludes (calm d) (m ≫= k) r d'.
Proof. intros Hm Hk t Ht. exact (concludes_works d d1 _ m k a r d' Hm Hk t (conj Ht eq_refl)). Qed.

Lemma concludes_answers {E A B : Type} d was (m : stateful BinaryDbWriteTxn E A) (k : A -> stateful BinaryDbWriteTxn E B) a r d' :
  answers (unwritten d was) m (Ok a) -> concludes (unwritten d was) (k a) r d' -> concludes (unwritten d was) (m ≫= k) r d'.
Proof.
  intros Hm Hk t Ht. destruct (Hm t Ht) as (t1 & Hrun & Ht1). destruct (Hk t1 Ht1) as (t2 & du2 & Hrun2 & Hf).
  exists t2, du2. split; [|done]. by erewrite bind_run by exact Hrun.
Qed.

(** Without a write the files stay. *)
Lemma concludes_unwritten {E A : Type} d (m : stateful BinaryDbWriteTxn E A) r : answers (unwritten d ([], [])) m r -> concludes (unwritten d ([], [])) m r d.
Proof. intros Hm t Ht. destruct (Hm t Ht) as (t1 & Hrun & Ht1). exists t1, du. split; [done|]. by apply drop_unwritten. Qed.

Lemma concludes_fail {E A B : Type} d (m : stateful BinaryDbWriteTxn E A) (k : A -> stateful BinaryDbWriteTxn E B) e :
  answers (unwritten d ([], [])) m (Err e) -> concludes (unwritten d ([], [])) (m ≫= k) (Err e) d.
Proof. intros Hm. apply concludes_unwritten. by eapply answers_bind. Qed.

Lemma concludes_abort {E A : Type} (f : BinaryDbErrorKind -> E) d (r : result E A) : concludes (unwritten d ([], [])) (_ ← map_error f (abort fs); lift r) r d.
Proof.
  intros t [Hc [= H1 H2]]. destruct (abort_untouched t d (ca_files _ _ Hc) (ca_open _ _ Hc) H1 H2) as (t' & Hrun & Hfin & Hf). exists t', du.
  split; [|unfold drop_txn; by rewrite Hfin]. unfold mbind, stateful_bind, map_error. by rewrite Hrun.
Qed.

Lemma concludes_commit {E A : Type} (f : BinaryDbErrorKind -> E) d (a : A) : (forall p, p ∈ paths -> is_Some (d !! p)) ->
  concludes (calm d) (_ ← map_error f commit; mret a) (Ok a) d.
Proof.
  intros Hthere t Ht. destruct (commit_quiet t d Ht Hthere) as (o & t' & du' & Hrun & Hf & Hfin). exists t', du'. split; [|unfold drop_txn; by rewrite Hfin].
  unfold mbind, stateful_bind, map_error. by rewrite Hrun.
Qed.

(** A new transaction. *)
Lemma begin_calm scope locks d : ensure_authorized_family (mkWriteContext scope true) ContentFamily = Ok tt ->
  unwritten d ([], []) (begin scope locks (mkIo du d [])).
Proof.
  intros Hscope. split; [|done]. split; [done|done|done|constructor|done|]. apply Forall_forall. intros ip _.
  split; intros *; cbn; by rewrite lookup_empty.
Qed.
End Quiet.

Arguments calm paths indexes {du} d t : assert.
Arguments works paths indexes {du E A} d m a d' : assert.
Arguments unwritten paths indexes {du} d was t : assert.
Arguments concludes fs {E A} P m r d' : assert.
