(* ===== verification/ContentCodec.v ===== *)
(** * Records of the content database

    The record and payload codecs of
    [ait-core/src/content_binary_db/schema]: blobs, snapshots, object packs and
    their members, tree packs and trees. *)

From Stdlib Require Import NArith Lia.
From Stdlib Require Strings.Byte.
From stdpp Require Import base numbers strings list.
From S2P Require Import Prelude Codec SnapshotStore.

Definition BINARY_DB_CONTENT_LAYOUT_ID : N := 1%N.
Definition BLOB_RECORD_SIZE : nat := 64.
Definition SNAPSHOT_RECORD_SIZE : nat := 88.
Definition OBJECT_PACK_RECORD_SIZE : nat := 32.
Definition OBJECT_PACK_MEMBER_RECORD_SIZE : nat := 16.
Definition TREE_PACK_RECORD_SIZE : nat := 32.
Definition TREE_RECORD_SIZE : nat := 20.
Definition SNAPSHOT_PARENT_EXTENSION_VERSION : N := 1%N.

Inductive content_error : Type :=
| ContentLayout (layout : N)
| SnapshotLayout (layout : N)
| EncodedLen (label : string) (len : nat)
| RawLen (label : string) (len : nat)
| FieldTruncated (label : string)
| ReservedMetaBits
| UnknownHistoryFlags
| SnapshotHashHighBits
| PayloadOffsetInHeader
| AdditionalParentsWithoutFirst
| AdditionalParentsPayloadShort
| BoundaryWithParents
| RootLocatorFlag
| ParentCountExceeded (count : nat)
| MessageTooLong
| AdditionalParentCountOverflow
| ParentIndexOverflow
| PayloadTooLong (len : nat)
| UnsupportedExtensionVersion (version : N)
| NoAdditionalParents
| ExtensionTruncated
| ZeroPlusOneIndex
| LineNameWithoutFlag
| LineNameNotUtf8
| MessageNotUtf8.

(** ** Records *)

Record BinaryBlobRecord : Type := mkBlobRecord {
  blob_meta : N;
  hash_kind : N;
  blob_reserved0 : N;
  size_bytes : N;
  pack_member_index_plus1 : N;
  blob_created_at_s : N;
  pruned_at_s : N;
  sha256 : bytes
}.

Record BinarySnapshotRecord : Type := mkSnapshotRecord {
  snapshot_meta : N;
  history_flags : N;
  payload_len : N;
  payload_offset : N;
  snapshot_hash48 : N;
  parent_snapshot_index_plus1 : N;
  root_tree_pack_index_plus1 : N;
  root_entry_ordinal : N;
  line_index_plus1 : N;
  manifest_hash : bytes;
  file_count : N;
  snapshot_total_bytes : N;
  snapshot_created_at_s : N
}.

Record BinaryObjectPackRecord : Type := mkObjectPackRecord {
  object_pack_meta : N;
  object_pack_format_kind : N;
  object_pack_hash_hi16 : N;
  object_pack_hash_lo32 : N;
  first_member_index : N;
  member_count : N;
  object_pack_total_bytes : N;
  object_pack_created_at_s : N
}.

Record BinaryObjectPackMemberRecord : Type := mkObjectPackMemberRecord {
  member_meta : N;
  delta_chain_depth : N;
  member_reserved0 : N;
  pack_index : N;
  blob_index : N;
  base_blob_index_plus1 : N
}.

Record BinaryTreePackRecord : Type := mkTreePackRecord {
  tree_pack_meta : N;
  tree_pack_format_kind : N;
  tree_pack_hash_hi16 : N;
  tree_pack_hash_lo32 : N;
  first_tree_index : N;
  tree_count : N;
  tree_pack_total_bytes : N;
  tree_pack_created_at_s : N
}.

Record BinaryTreeRecord : Type := mkTreeRecord {
  tree_meta : N;
  tree_reserved0 : N;
  pack_entry_ordinal : N;
  entry_count : N;
  tree_hash80 : bytes
}.

(** ** Accessors *)

(** [value & mask != 0] *)
Definition has_bits (value mask : N) : bool := negb (N.land value mask =? 0)%N.

(** [checked_sub(1)] *)
Definition minus_one (plus1 : N) : option N := if (plus1 =? 0)%N then None else Some (plus1 - 1)%N.

Definition META_TOMBSTONE : N := 128%N.
Definition META_PRUNED : N := 2%N.
Definition META_READY : N := 1%N.
Definition META_KIND_MASK : N := 3%N.
Definition META_HAS_MESSAGE : N := 4%N.
Definition META_HAS_LINE_NAME_PAYLOAD : N := 8%N.
Definition META_HAS_ADDITIONAL_PARENTS : N := 16%N.
Definition META_HAS_ROOT_LOCATOR : N := 32%N.
Definition META_SPARSE_PHYSICAL_ORDINALS : N := 4%N.
Definition FLAG_REMOTE_HEAD_HISTORY_BOUNDARY : N := 1%N.
Definition KNOWN_FLAGS : N := FLAG_REMOTE_HEAD_HISTORY_BOUNDARY.

Definition blob_is_pruned (r : BinaryBlobRecord) : bool := has_bits (blob_meta r) META_PRUNED || negb (pruned_at_s r =? 0)%N.
Definition blob_is_tombstone (r : BinaryBlobRecord) : bool := has_bits (blob_meta r) META_TOMBSTONE.
Definition pack_member_index (r : BinaryBlobRecord) : option N := minus_one (pack_member_index_plus1 r).

Inductive BinarySnapshotKind : Type := LineSnapshot | StashSnapshot | ReservedSnapshot (kind : N).
Definition snapshot_kind (r : BinarySnapshotRecord) : BinarySnapshotKind :=
  let kind := N.land (snapshot_meta r) META_KIND_MASK in
  if (kind =? 0)%N then LineSnapshot else if (kind =? 1)%N then StashSnapshot else ReservedSnapshot kind.
Definition has_root_locator (r : BinarySnapshotRecord) : bool := has_bits (snapshot_meta r) META_HAS_ROOT_LOCATOR.
Definition snapshot_is_ready (r : BinarySnapshotRecord) : bool := has_root_locator r.
Definition snapshot_is_tombstone (r : BinarySnapshotRecord) : bool := has_bits (snapshot_meta r) META_TOMBSTONE.
Definition parent_snapshot_index (r : BinarySnapshotRecord) : option N := minus_one (parent_snapshot_index_plus1 r).
Definition has_additional_parents (r : BinarySnapshotRecord) : bool := has_bits (snapshot_meta r) META_HAS_ADDITIONAL_PARENTS.
Definition is_remote_head_history_boundary (r : BinarySnapshotRecord) : bool :=
  has_bits (history_flags r) FLAG_REMOTE_HEAD_HISTORY_BOUNDARY.
Definition root_tree_pack_index (r : BinarySnapshotRecord) : option N := minus_one (root_tree_pack_index_plus1 r).
Definition line_index (r : BinarySnapshotRecord) : option N := minus_one (line_index_plus1 r).
Definition has_message (r : BinarySnapshotRecord) : bool := has_bits (snapshot_meta r) META_HAS_MESSAGE.
Definition has_line_name_payload (r : BinarySnapshotRecord) : bool := has_bits (snapshot_meta r) META_HAS_LINE_NAME_PAYLOAD.

Definition pack_hash48 (hi16 lo32 : N) : N := N.lor (N.shiftl hi16 32) lo32.
Inductive BinaryObjectPackFormatKind : Type := ZstdChunkedV1 | ReservedObjectFormat (kind : N).
Definition object_pack_format (r : BinaryObjectPackRecord) : BinaryObjectPackFormatKind :=
  if (object_pack_format_kind r =? 1)%N then ZstdChunkedV1 else ReservedObjectFormat (object_pack_format_kind r).
Definition object_pack_is_ready (r : BinaryObjectPackRecord) : bool := has_bits (object_pack_meta r) META_READY.
Definition object_pack_is_tombstone (r : BinaryObjectPackRecord) : bool := has_bits (object_pack_meta r) META_TOMBSTONE.
Definition object_pack_hash48 (r : BinaryObjectPackRecord) : N := pack_hash48 (object_pack_hash_hi16 r) (object_pack_hash_lo32 r).

Inductive BinaryObjectPackMemberKind : Type := FullMember | DeltaMember | ReservedMember (kind : N).
Definition member_kind (r : BinaryObjectPackMemberRecord) : BinaryObjectPackMemberKind :=
  let kind := N.land (member_meta r) 3 in
  if (kind =? 0)%N then FullMember else if (kind =? 1)%N then DeltaMember else ReservedMember kind.
Inductive BinaryObjectPackCompressionKind : Type := NoCompression | ZstdCompression | ReservedCompression (kind : N).
Definition compression_kind (r : BinaryObjectPackMemberRecord) : BinaryObjectPackCompressionKind :=
  let kind := N.land (N.shiftr (member_meta r) 2) 3 in
  if (kind =? 0)%N then NoCompression else if (kind =? 2)%N then ZstdCompression else ReservedCompression kind.
Definition member_is_tombstone (r : BinaryObjectPackMemberRecord) : bool := has_bits (member_meta r) META_TOMBSTONE.
Definition base_blob_index (r : BinaryObjectPackMemberRecord) : option N := minus_one (base_blob_index_plus1 r).

Inductive BinaryTreePackFormatKind : Type := ZstdChunkedTreeV1 | ReservedTreeFormat (kind : N).
Definition tree_pack_format (r : BinaryTreePackRecord) : BinaryTreePackFormatKind :=
  if (tree_pack_format_kind r =? 1)%N then ZstdChunkedTreeV1 else ReservedTreeFormat (tree_pack_format_kind r).
Definition tree_pack_is_ready (r : BinaryTreePackRecord) : bool := has_bits (tree_pack_meta r) META_READY.
Definition tree_pack_is_tombstone (r : BinaryTreePackRecord) : bool := has_bits (tree_pack_meta r) META_TOMBSTONE.
Definition has_sparse_physical_ordinals (r : BinaryTreePackRecord) : bool := has_bits (tree_pack_meta r) META_SPARSE_PHYSICAL_ORDINALS.
Definition tree_pack_hash48 (r : BinaryTreePackRecord) : N := pack_hash48 (tree_pack_hash_hi16 r) (tree_pack_hash_lo32 r).
Definition tree_is_tombstone (r : BinaryTreeRecord) : bool := has_bits (tree_meta r) META_TOMBSTONE.

(** ** Fields *)

Definition push_u8 (out : bytes) (value : N) : bytes := out ++ to_le_bytes 1 value.
Definition push_u16 (out : bytes) (value : N) : bytes := out ++ to_le_bytes 2 value.
Definition push_u32 (out : bytes) (value : N) : bytes := out ++ to_le_bytes 4 value.
Definition push_u64 (out : bytes) (value : N) : bytes := out ++ to_le_bytes 8 value.

(** [Cursor::take] and its fixed widths; the cursor is the input left. *)
Definition take_bytes (len : nat) (label : string) : reader content_error bytes := read_exact (FieldTruncated label) len.
Definition take_u8 (label : string) : reader content_error N := read_uint (FieldTruncated label) 1.
Definition take_u16 (label : string) : reader content_error N := read_uint (FieldTruncated label) 2.
Definition take_u32 (label : string) : reader content_error N := read_uint (FieldTruncated label) 4.
Definition take_u64 (label : string) : reader content_error N := read_uint (FieldTruncated label) 8.

Definition require_supported_content_layout (layout : N) : result content_error unit :=
  fail_if (negb (layout =? BINARY_DB_CONTENT_LAYOUT_ID)%N) (ContentLayout layout).
Definition require_supported_snapshot_layout (layout : N) : result content_error unit :=
  fail_if (negb (layout =? BINARY_DB_CONTENT_LAYOUT_ID)%N) (SnapshotLayout layout).
Definition require_encoded_len (out : bytes) (expected : nat) (label : string) : result content_error unit :=
  fail_if (negb (Nat.eqb (length out) expected)) (EncodedLen label (length out)).
Definition require_raw_len (raw : bytes) (expected : nat) (label : string) : result content_error unit :=
  fail_if (negb (Nat.eqb (length raw) expected)) (RawLen label (length raw)).

(** The value of a reader that starts at the first byte. *)
Definition from_start {A} (r : reader content_error A) (raw : bytes) : result content_error A := fst <$> r raw.

(** ** Record codecs *)

Definition encode_blob_record (layout : N) (r : BinaryBlobRecord) : result content_error bytes :=
  _ ← require_supported_content_layout layout;
  let out := push_u8 [] (blob_meta r) in
  let out := push_u8 out (hash_kind r) in
  let out := push_u16 out (blob_reserved0 r) in
  let out := push_u64 out (size_bytes r) in
  let out := push_u32 out (pack_member_index_plus1 r) in
  let out := push_u64 out (blob_created_at_s r) in
  let out := push_u64 out (pruned_at_s r) in
  let out := out ++ sha256 r in
  _ ← require_encoded_len out BLOB_RECORD_SIZE "BinaryBlobRecord";
  Ok out.

Definition decode_blob_record (layout : N) (raw : bytes) : result content_error BinaryBlobRecord :=
  _ ← require_supported_content_layout layout;
  _ ← require_raw_len raw BLOB_RECORD_SIZE "BinaryBlobRecord";
  from_start (
    meta ← take_u8 "blob_meta";
    hash_kind ← take_u8 "hash_kind";
    reserved0 ← take_u16 "reserved0";
    size_bytes ← take_u64 "size_bytes";
    pack_member_index_plus1 ← take_u32 "pack_member_index_plus1";
    created_at_s ← take_u64 "created_at_s";
    pruned_at_s ← take_u64 "pruned_at_s";
    sha256 ← take_bytes 32 "sha256";
    mret (mkBlobRecord meta hash_kind reserved0 size_bytes pack_member_index_plus1 created_at_s pruned_at_s sha256)) raw.

Definition validate_snapshot_record (r : BinarySnapshotRecord) : result content_error unit :=
  _ ← fail_if (has_bits (snapshot_meta r) 64) ReservedMetaBits;
  _ ← fail_if (has_bits (history_flags r) (255 - KNOWN_FLAGS)) UnknownHistoryFlags;
  _ ← fail_if (negb (N.shiftr (snapshot_hash48 r) 48 =? 0)%N) SnapshotHashHighBits;
  _ ← fail_if ((0 <? payload_len r)%N && (payload_offset r <? 4)%N) PayloadOffsetInHeader;
  _ ← fail_if (has_additional_parents r && negb (is_some (parent_snapshot_index r))) AdditionalParentsWithoutFirst;
  _ ← fail_if (has_additional_parents r && (payload_len r <? 9)%N) AdditionalParentsPayloadShort;
  _ ← fail_if (is_remote_head_history_boundary r && (is_some (parent_snapshot_index r) || has_additional_parents r)) BoundaryWithParents;
  _ ← fail_if (negb (eqb (has_root_locator r) (negb (root_tree_pack_index_plus1 r =? 0)%N))) RootLocatorFlag;
  Ok tt.

Definition encode_snapshot_record (layout : N) (r : BinarySnapshotRecord) : result content_error bytes :=
  _ ← require_supported_snapshot_layout layout;
  _ ← validate_snapshot_record r;
  let out := push_u8 [] (snapshot_meta r) in
  let out := push_u8 out (history_flags r) in
  let out := push_u16 out (payload_len r) in
  let out := push_u64 out (payload_offset r) in
  let out := push_u64 out (snapshot_hash48 r) in
  let out := push_u32 out (parent_snapshot_index_plus1 r) in
  let out := push_u32 out (root_tree_pack_index_plus1 r) in
  let out := push_u32 out (root_entry_ordinal r) in
  let out := push_u32 out (line_index_plus1 r) in
  let out := out ++ manifest_hash r in
  let out := push_u32 out (file_count r) in
  let out := push_u64 out (snapshot_total_bytes r) in
  let out := push_u64 out (snapshot_created_at_s r) in
  _ ← require_encoded_len out SNAPSHOT_RECORD_SIZE "BinarySnapshotRecord";
  Ok out.

Definition decode_snapshot_record (layout : N) (raw : bytes) : result content_error BinarySnapshotRecord :=
  _ ← require_supported_snapshot_layout layout;
  _ ← require_raw_len raw SNAPSHOT_RECORD_SIZE "BinarySnapshotRecord";
  record ← from_start (
    meta ← take_u8 "snapshot_meta";
    flags ← take_u8 "history_flags";
    payload_len ← take_u16 "payload_len";
    payload_offset ← take_u64 "payload_offset";
    hash48 ← take_u64 "snapshot_hash48";
    parent ← take_u32 "parent_snapshot_index_plus1";
    root ← take_u32 "root_tree_pack_index_plus1";
    ordinal ← take_u32 "root_entry_ordinal";
    line ← take_u32 "line_index_plus1";
    manifest ← take_bytes 32 "manifest_hash";
    files ← take_u32 "file_count";
    total ← take_u64 "total_bytes";
    created ← take_u64 "created_at_s";
    mret (mkSnapshotRecord meta flags payload_len payload_offset hash48 parent root ordinal line manifest files total created)) raw;
  _ ← validate_snapshot_record record;
  Ok record.

Definition encode_object_pack_record (layout : N) (r : BinaryObjectPackRecord) : result content_error bytes :=
  _ ← require_supported_content_layout layout;
  let out := push_u8 [] (object_pack_meta r) in
  let out := push_u8 out (object_pack_format_kind r) in
  let out := push_u16 out (object_pack_hash_hi16 r) in
  let out := push_u32 out (object_pack_hash_lo32 r) in
  let out := push_u32 out (first_member_index r) in
  let out := push_u32 out (member_count r) in
  let out := push_u64 out (object_pack_total_bytes r) in
  let out := push_u64 out (object_pack_created_at_s r) in
  _ ← require_encoded_len out OBJECT_PACK_RECORD_SIZE "BinaryObjectPackRecord";
  Ok out.

Definition decode_object_pack_record (layout : N) (raw : bytes) : result content_error BinaryObjectPackRecord :=
  _ ← require_supported_content_layout layout;
  _ ← require_raw_len raw OBJECT_PACK_RECORD_SIZE "BinaryObjectPackRecord";
  from_start (
    meta ← take_u8 "pack_meta";
    kind ← take_u8 "pack_format_kind";
    hi16 ← take_u16 "pack_hash_hi16";
    lo32 ← take_u32 "pack_hash_lo32";
    first ← take_u32 "first_member_index";
    count ← take_u32 "member_count";
    total ← take_u64 "total_bytes";
    created ← take_u64 "created_at_s";
    mret (mkObjectPackRecord meta kind hi16 lo32 first count total created)) raw.

Definition encode_object_pack_member_record (layout : N) (r : BinaryObjectPackMemberRecord) : result content_error bytes :=
  _ ← require_supported_content_layout layout;
  let out := push_u8 [] (member_meta r) in
  let out := push_u8 out (delta_chain_depth r) in
  let out := push_u16 out (member_reserved0 r) in
  let out := push_u32 out (pack_index r) in
  let out := push_u32 out (blob_index r) in
  let out := push_u32 out (base_blob_index_plus1 r) in
  _ ← require_encoded_len out OBJECT_PACK_MEMBER_RECORD_SIZE "BinaryObjectPackMemberRecord";
  Ok out.

Definition decode_object_pack_member_record (layout : N) (raw : bytes) : result content_error BinaryObjectPackMemberRecord :=
  _ ← require_supported_content_layout layout;
  _ ← require_raw_len raw OBJECT_PACK_MEMBER_RECORD_SIZE "BinaryObjectPackMemberRecord";
  from_start (
    meta ← take_u8 "member_meta";
    depth ← take_u8 "delta_chain_depth";
    reserved0 ← take_u16 "reserved0";
    pack ← take_u32 "pack_index";
    blob ← take_u32 "blob_index";
    base ← take_u32 "base_blob_index_plus1";
    mret (mkObjectPackMemberRecord meta depth reserved0 pack blob base)) raw.

Definition encode_tree_pack_record (layout : N) (r : BinaryTreePackRecord) : result content_error bytes :=
  _ ← require_supported_content_layout layout;
  let out := push_u8 [] (tree_pack_meta r) in
  let out := push_u8 out (tree_pack_format_kind r) in
  let out := push_u16 out (tree_pack_hash_hi16 r) in
  let out := push_u32 out (tree_pack_hash_lo32 r) in
  let out := push_u32 out (first_tree_index r) in
  let out := push_u32 out (tree_count r) in
  let out := push_u64 out (tree_pack_total_bytes r) in
  let out := push_u64 out (tree_pack_created_at_s r) in
  _ ← require_encoded_len out TREE_PACK_RECORD_SIZE "BinaryTreePackRecord";
  Ok out.

Definition decode_tree_pack_record (layout : N) (raw : bytes) : result content_error BinaryTreePackRecord :=
  _ ← require_supported_content_layout layout;
  _ ← require_raw_len raw TREE_PACK_RECORD_SIZE "BinaryTreePackRecord";
  from_start (
    meta ← take_u8 "pack_meta";
    kind ← take_u8 "pack_format_kind";
    hi16 ← take_u16 "pack_hash_hi16";
    lo32 ← take_u32 "pack_hash_lo32";
    first ← take_u32 "first_tree_index";
    count ← take_u32 "tree_count";
    total ← take_u64 "total_bytes";
    created ← take_u64 "created_at_s";
    mret (mkTreePackRecord meta kind hi16 lo32 first count total created)) raw.

Definition encode_tree_record (layout : N) (r : BinaryTreeRecord) : result content_error bytes :=
  _ ← require_supported_content_layout layout;
  let out := push_u8 [] (tree_meta r) in
  let out := push_u8 out (tree_reserved0 r) in
  let out := push_u32 out (pack_entry_ordinal r) in
  let out := push_u32 out (entry_count r) in
  let out := out ++ tree_hash80 r in
  _ ← require_encoded_len out TREE_RECORD_SIZE "BinaryTreeRecord";
  Ok out.

Definition decode_tree_record (layout : N) (raw : bytes) : result content_error BinaryTreeRecord :=
  _ ← require_supported_content_layout layout;
  _ ← require_raw_len raw TREE_RECORD_SIZE "BinaryTreeRecord";
  from_start (
    meta ← take_u8 "tree_meta";
    reserved0 ← take_u8 "reserved0";
    ordinal ← take_u32 "pack_entry_ordinal";
    count ← take_u32 "entry_count";
    hash80 ← take_bytes 10 "tree_hash80";
    mret (mkTreeRecord meta reserved0 ordinal count hash80)) raw.

(** ** Snapshot payloads *)

Record BinarySnapshotPayload : Type := mkPayload {
  line_name : string;
  message : option string;
  additional_parent_snapshot_indices : list N
}.

(** [push_u32(&mut out, parent_index.checked_add(1).ok_or_else(..)?)] *)
Definition push_parent_index (out : bytes) (parent_index : N) : result content_error bytes :=
  _ ← fail_if (4294967295 <=? parent_index)%N ParentIndexOverflow;
  Ok (push_u32 out (parent_index + 1)).

Definition push_parents (out : bytes) (indices : list N) : result content_error bytes :=
  if Nat.ltb 0 (length indices) then
    let out := push_u8 out SNAPSHOT_PARENT_EXTENSION_VERSION in
    _ ← fail_if (65535 <? N.of_nat (length indices))%N AdditionalParentCountOverflow;
    foldM push_parent_index (push_u16 out (N.of_nat (length indices))) indices
  else Ok out.

Definition encode_payload (layout : N) (payload : BinarySnapshotPayload) : result content_error bytes :=
  _ ← require_supported_snapshot_layout layout;
  let line_name := bytes_of_string (line_name payload) in
  let message := bytes_of_string (default EmptyString (message payload)) in
  let indices := additional_parent_snapshot_indices payload in
  _ ← fail_if (MAX_SNAPSHOT_PARENT_COUNT <=? N.of_nat (length indices))%N (ParentCountExceeded (length indices + 1));
  _ ← fail_if (65535 <? N.of_nat (length message))%N MessageTooLong;
  out ← push_parents [] indices;
  let out := push_u16 out (N.of_nat (length message)) in
  let out := out ++ message ++ line_name in
  _ ← fail_if (65535 <? N.of_nat (length out))%N (PayloadTooLong (length out));
  Ok out.

(** One index of the extension: [take_u32(..)?.checked_sub(1).ok_or_else(..)?] *)
Definition take_parent_index : reader content_error N :=
  plus1 ← take_u32 "additional_parent_snapshot_index_plus1";
  _ ← reader_fail_if (plus1 =? 0)%N ZeroPlusOneIndex;
  mret (plus1 - 1)%N.

Definition remaining : reader content_error nat := fun rest => Ok (length rest, rest).

Definition take_parents : reader content_error (list N) :=
  version ← take_u8 "parent_extension_version";
  _ ← reader_fail_if (negb (version =? SNAPSHOT_PARENT_EXTENSION_VERSION)%N) (UnsupportedExtensionVersion version);
  count ← take_u16 "additional_parent_count";
  _ ← reader_fail_if (count =? 0)%N NoAdditionalParents;
  _ ← reader_fail_if (MAX_SNAPSHOT_PARENT_COUNT <=? count)%N (ParentCountExceeded (N.to_nat count + 1));
  left_ ← remaining;
  _ ← reader_fail_if (Nat.ltb left_ (N.to_nat count * 4 + 2)) ExtensionTruncated;
  read_many (N.to_nat count) take_parent_index.

Definition utf8_text (text : bytes) (e : content_error) : reader content_error string :=
  _ ← reader_fail_if (negb (valid_utf8 text)) e; mret (string_of_bytes text).

(** What follows the extension: the message behind its length, and the line
    name, which is the rest. *)
Definition payload_texts (has_line_name_payload : bool) (indices : list N) : reader content_error BinarySnapshotPayload :=
  message_len ← take_u16 "message_len";
  message_bytes ← take_bytes (N.to_nat message_len) "message";
  left_ ← remaining;
  line_name_bytes ← take_bytes left_ "line_name";
  _ ← reader_fail_if (negb has_line_name_payload && negb (Nat.eqb (length line_name_bytes) 0)) LineNameWithoutFlag;
  line_name ← utf8_text line_name_bytes LineNameNotUtf8;
  message ← (if Nat.eqb (length message_bytes) 0 then mret None
             else text ← utf8_text message_bytes MessageNotUtf8; mret (Some text));
  mret (mkPayload line_name message indices).

Definition payload_fields (has_line_name_payload has_additional_parents : bool) : reader content_error BinarySnapshotPayload :=
  indices ← (if has_additional_parents then take_parents else mret []);
  payload_texts has_line_name_payload indices.

Definition decode_payload (layout : N) (raw : bytes) (has_line_name_payload has_additional_parents : bool)
  : result content_error BinarySnapshotPayload :=
  _ ← require_supported_snapshot_layout layout;
  from_start (payload_fields has_line_name_payload has_additional_parents) raw.

(** ** The codecs as instances of the interface *)

(** Every field fits its width on disk. *)
Definition fits (w : nat) (n : N) : Prop := (n < 256 ^ N.of_nat w)%N.

#[export] Instance blob_codec : RecordCodec content_error BinaryBlobRecord := {
  supported_layout layout := (layout =? BINARY_DB_CONTENT_LAYOUT_ID)%N;
  codec_size _ := BLOB_RECORD_SIZE;
  record_ok _ r := fits 1 (blob_meta r) /\ fits 1 (hash_kind r) /\ fits 2 (blob_reserved0 r) /\ fits 8 (size_bytes r) /\
    fits 4 (pack_member_index_plus1 r) /\ fits 8 (blob_created_at_s r) /\ fits 8 (pruned_at_s r) /\ length (sha256 r) = 32;
  encode_record := encode_blob_record;
  decode_record := decode_blob_record
}.

#[export] Instance snapshot_codec : RecordCodec content_error BinarySnapshotRecord := {
  supported_layout layout := (layout =? BINARY_DB_CONTENT_LAYOUT_ID)%N;
  codec_size _ := SNAPSHOT_RECORD_SIZE;
  record_ok _ r := fits 1 (snapshot_meta r) /\ fits 1 (history_flags r) /\ fits 2 (payload_len r) /\ fits 8 (payload_offset r) /\
    fits 8 (snapshot_hash48 r) /\ fits 4 (parent_snapshot_index_plus1 r) /\ fits 4 (root_tree_pack_index_plus1 r) /\
    fits 4 (root_entry_ordinal r) /\ fits 4 (line_index_plus1 r) /\ length (manifest_hash r) = 32 /\ fits 4 (file_count r) /\
    fits 8 (snapshot_total_bytes r) /\ fits 8 (snapshot_created_at_s r) /\ validate_snapshot_record r = Ok tt;
  encode_record := encode_snapshot_record;
  decode_record := decode_snapshot_record
}.

#[export] Instance object_pack_codec : RecordCodec content_error BinaryObjectPackRecord := {
  supported_layout layout := (layout =? BINARY_DB_CONTENT_LAYOUT_ID)%N;
  codec_size _ := OBJECT_PACK_RECORD_SIZE;
  record_ok _ r := fits 1 (object_pack_meta r) /\ fits 1 (object_pack_format_kind r) /\ fits 2 (object_pack_hash_hi16 r) /\
    fits 4 (object_pack_hash_lo32 r) /\ fits 4 (first_member_index r) /\ fits 4 (member_count r) /\
    fits 8 (object_pack_total_bytes r) /\ fits 8 (object_pack_created_at_s r);
  encode_record := encode_object_pack_record;
  decode_record := decode_object_pack_record
}.

#[export] Instance object_pack_member_codec : RecordCodec content_error BinaryObjectPackMemberRecord := {
  supported_layout layout := (layout =? BINARY_DB_CONTENT_LAYOUT_ID)%N;
  codec_size _ := OBJECT_PACK_MEMBER_RECORD_SIZE;
  record_ok _ r := fits 1 (member_meta r) /\ fits 1 (delta_chain_depth r) /\ fits 2 (member_reserved0 r) /\ fits 4 (pack_index r) /\
    fits 4 (blob_index r) /\ fits 4 (base_blob_index_plus1 r);
  encode_record := encode_object_pack_member_record;
  decode_record := decode_object_pack_member_record
}.

#[export] Instance tree_pack_codec : RecordCodec content_error BinaryTreePackRecord := {
  supported_layout layout := (layout =? BINARY_DB_CONTENT_LAYOUT_ID)%N;
  codec_size _ := TREE_PACK_RECORD_SIZE;
  record_ok _ r := fits 1 (tree_pack_meta r) /\ fits 1 (tree_pack_format_kind r) /\ fits 2 (tree_pack_hash_hi16 r) /\
    fits 4 (tree_pack_hash_lo32 r) /\ fits 4 (first_tree_index r) /\ fits 4 (tree_count r) /\
    fits 8 (tree_pack_total_bytes r) /\ fits 8 (tree_pack_created_at_s r);
  encode_record := encode_tree_pack_record;
  decode_record := decode_tree_pack_record
}.

#[export] Instance tree_codec : RecordCodec content_error BinaryTreeRecord := {
  supported_layout layout := (layout =? BINARY_DB_CONTENT_LAYOUT_ID)%N;
  codec_size _ := TREE_RECORD_SIZE;
  record_ok _ r := fits 1 (tree_meta r) /\ fits 1 (tree_reserved0 r) /\ fits 4 (pack_entry_ordinal r) /\ fits 4 (entry_count r) /\
    length (tree_hash80 r) = 10;
  encode_record := encode_tree_record;
  decode_record := decode_tree_record
}.

(** ** Lemmas *)

Lemma require_content_layout layout u : require_supported_content_layout layout = Ok u <-> layout = BINARY_DB_CONTENT_LAYOUT_ID.
Proof. unfold require_supported_content_layout. rewrite fail_if_Ok, negb_false_iff. apply N.eqb_eq. Qed.

Lemma require_snapshot_layout layout u : require_supported_snapshot_layout layout = Ok u <-> layout = BINARY_DB_CONTENT_LAYOUT_ID.
Proof. unfold require_supported_snapshot_layout. rewrite fail_if_Ok, negb_false_iff. apply N.eqb_eq. Qed.

Lemma require_encoded_len_Ok out n label u : require_encoded_len out n label = Ok u <-> length out = n.
Proof. unfold require_encoded_len. rewrite fail_if_Ok, negb_false_iff. apply Nat.eqb_eq. Qed.

Lemma require_raw_len_Ok raw n label u : require_raw_len raw n label = Ok u <-> length raw = n.
Proof. unfold require_raw_len. rewrite fail_if_Ok, negb_false_iff. apply Nat.eqb_eq. Qed.

Lemma from_start_Ok {A} (r : reader content_error A) raw a : from_start r raw = Ok a <-> exists rest, r raw = Ok (a, rest).
Proof.
  unfold from_start. destruct (r raw) as [[a' rest]|e]; cbn; split; [intros [= ->]; eauto|by intros (? & [= -> _])|done|by intros (? & [=])].
Qed.

(** Sequences of guarded steps that all succeed. *)
Lemma guard_step {E B} (m : result E unit) (k : unit -> result E B) b : m = Ok tt -> k tt = Ok b -> (m ≫= k) = Ok b.
Proof. by intros ->. Qed.
Lemma bind_step {E A B} (m : result E A) (k : A -> result E B) a b : m = Ok a -> k a = Ok b -> (m ≫= k) = Ok b.
Proof. by intros ->. Qed.

(** Pushing the fields of a record, then reading them back. *)
Ltac field_lengths := unfold push_u8, push_u16, push_u32, push_u64 in *; rewrite ?length_app, ?length_to_le_bytes in *; cbn [length] in *.
Ltac guards :=
  repeat (apply guard_step; [first [by apply require_content_layout | by apply require_snapshot_layout | assumption
    | apply require_encoded_len_Ok; field_lengths; cbn; lia | apply require_raw_len_Ok; field_lengths; cbn; lia]|]; cbv beta zeta).
Ltac read_back :=
  apply from_start_Ok; exists []; unfold push_u8, push_u16, push_u32, push_u64, take_u8, take_u16, take_u32, take_u64, take_bytes;
  match goal with |- _ ?raw = _ => rewrite <- (app_nil_r raw) end; rewrite <- !app_assoc, app_nil_l; put_fields; reflexivity.

(** The two directions of a record codec, for records destructed into fields
    whose widths are known. *)
Ltac encode_then_decode := eexists; split_and!; [guards; reflexivity|field_lengths; cbn; lia|guards; read_back].

Ltac decode_then_encode H :=
  apply bind_Ok in H as (? & Hlayout & H); apply require_content_layout in Hlayout as ->; apply bind_Ok in H as (? & Hlen & H);
  apply require_raw_len_Ok in Hlen; assert (Hsize := Hlen); apply from_start_Ok in H as (rest & H); unfold take_u8, take_u16, take_u32, take_u64, take_bytes in H; take_fields H;
  apply reader_ret_Ok in H as [<- ->]; rewrite !length_app, !length_to_le_bytes in Hlen;
  assert (rest = []) as -> by (apply length_zero_iff_nil; lia);
  (split; [cbn; unfold fits; tauto|split; [done|guards; f_equal; unfold push_u8, push_u16, push_u32, push_u64; by rewrite app_nil_r, <- !app_assoc]]).

Lemma foreign_content {A} layout (k : unit -> result content_error A) :
  layout <> BINARY_DB_CONTENT_LAYOUT_ID -> is_ok (require_supported_content_layout layout ≫= k) = false.
Proof. intros Hl. unfold require_supported_content_layout. by rewrite (proj2 (N.eqb_neq _ _) Hl). Qed.

Lemma foreign_snapshot {A} layout (k : unit -> result content_error A) :
  layout <> BINARY_DB_CONTENT_LAYOUT_ID -> is_ok (require_supported_snapshot_layout layout ≫= k) = false.
Proof. intros Hl. unfold require_supported_snapshot_layout. by rewrite (proj2 (N.eqb_neq _ _) Hl). Qed.

Ltac foreign := split; intros; first [by apply foreign_content | by apply foreign_snapshot].
Ltac unfold_codec instance := split; cbn [supported_layout codec_size encode_record decode_record record_ok instance].
Ltac lawful_codec :=
  [> intros layout [] ->%N.eqb_eq H; cbn in H; destruct_and!; encode_then_decode
   | intros layout raw r H; decode_then_encode H | intros layout Hl%N.eqb_neq; foreign].

#[export] Instance blob_codec_lawful : LawfulRecordCodec content_error BinaryBlobRecord.
Proof.
  unfold_codec blob_codec; unfold encode_blob_record, decode_blob_record, BLOB_RECORD_SIZE.
  all: lawful_codec.
Qed.

#[export] Instance object_pack_codec_lawful : LawfulRecordCodec content_error BinaryObjectPackRecord.
Proof.
  unfold_codec object_pack_codec; unfold encode_object_pack_record, decode_object_pack_record, OBJECT_PACK_RECORD_SIZE.
  all: lawful_codec.
Qed.

#[export] Instance object_pack_member_codec_lawful : LawfulRecordCodec content_error BinaryObjectPackMemberRecord.
Proof.
  unfold_codec object_pack_member_codec;
    unfold encode_object_pack_member_record, decode_object_pack_member_record, OBJECT_PACK_MEMBER_RECORD_SIZE.
  all: lawful_codec.
Qed.

#[export] Instance tree_pack_codec_lawful : LawfulRecordCodec content_error BinaryTreePackRecord.
Proof.
  unfold_codec tree_pack_codec; unfold encode_tree_pack_record, decode_tree_pack_record, TREE_PACK_RECORD_SIZE.
  all: lawful_codec.
Qed.

#[export] Instance tree_codec_lawful : LawfulRecordCodec content_error BinaryTreeRecord.
Proof.
  unfold_codec tree_codec; unfold encode_tree_record, decode_tree_record, TREE_RECORD_SIZE.
  all: lawful_codec.
Qed.

#[export] Instance snapshot_codec_lawful : LawfulRecordCodec content_error BinarySnapshotRecord.
Proof.
  unfold_codec snapshot_codec; unfold encode_snapshot_record, decode_snapshot_record, SNAPSHOT_RECORD_SIZE.
  - intros layout r ->%N.eqb_eq H. assert (validate_snapshot_record r = Ok tt) as Hv by tauto. destruct r. cbn in H. destruct_and!.
    eexists; split_and!; [guards; reflexivity|field_lengths; cbn; lia|]. guards. eapply bind_step; [read_back|]. guards. done.
  - intros layout raw r H. apply bind_Ok in H as (? & ->%require_snapshot_layout & H). apply bind_Ok in H as (? & Hlen & H). apply bind_Ok in H as (r' & H & Hr').
    apply bind_Ok in Hr' as ([] & Hv & [= ->]). apply require_raw_len_Ok in Hlen. assert (Hsize := Hlen).
    apply from_start_Ok in H as (rest & H); unfold take_u8, take_u16, take_u32, take_u64, take_bytes in H; take_fields H.
    apply reader_ret_Ok in H as [<- ->]. rewrite !length_app, !length_to_le_bytes in Hlen.
    assert (rest = []) as -> by (apply length_zero_iff_nil; lia). split; [cbn -[validate_snapshot_record]; unfold fits; tauto|split; [done|]].
    guards. f_equal. unfold push_u8, push_u16, push_u32, push_u64. by rewrite app_nil_r, <- !app_assoc.
  - intros layout Hl%N.eqb_neq. foreign.
Qed.

(** ** Lemmas on payloads *)

Lemma codec_parent_index : codec (fun i => (i < 4294967295)%N) push_parent_index take_parent_index.
Proof.
  split.
  - intros out i out' Hi H. unfold push_parent_index in H. rewrite (proj2 (N.leb_gt _ _)) in H by done. injection H as <-.
    eexists. split; [done|]. intros rest. unfold take_parent_index. apply read_uint_step; [change (256 ^ N.of_nat 4)%N with 4294967296%N; lia|].
    rewrite (reader_bind_eq _ _ _ tt rest) by (apply reader_fail_if_Ok; split; [apply N.eqb_neq; lia|done]).
    apply reader_ret_Ok. split; [lia|done].
  - intros data i rest H. unfold take_parent_index in H. apply reader_bind_Ok in H as (n & r1 & Hn & H). apply read_uint_Ok in Hn as [-> Hn].
    change (256 ^ N.of_nat 4)%N with 4294967296%N in Hn. apply reader_bind_Ok in H as (u & r2 & Hu & H).
    apply reader_fail_if_Ok in Hu as [Hz%N.eqb_neq ->]. apply reader_ret_Ok in H as [<- ->]. split; [lia|].
    eexists. split; [done|]. intros out. unfold push_parent_index. rewrite (proj2 (N.leb_gt _ _)) by lia. cbn [fail_if mbind result_bind].
    unfold push_u32. by replace (n - 1 + 1)%N with n by lia.
Qed.

Lemma push_parents_each l out : Forall (fun i => (i < 4294967295)%N) l -> exists b, foldM push_parent_index out l = Ok (out ++ b) /\ length b = 4 * length l.
Proof.
  revert out; induction l as [|i l IH]; intros out Hl; [exists []; by rewrite app_nil_r|].
  apply Forall_cons in Hl as [Hi Hl]. cbn [foldM]. unfold push_parent_index at 2. rewrite (proj2 (N.leb_gt _ _)) by done.
  cbn [fail_if mbind result_bind]. destruct (IH (push_u32 out (i + 1)) Hl) as (b & -> & Hb).
  exists (to_le_bytes 4 (i + 1) ++ b). unfold push_u32. split; [by rewrite app_assoc|]. rewrite length_app, length_to_le_bytes, Hb. cbn. lia.
Qed.

(** The bytes of the parent extension, and what reads them back. *)
Lemma parents_written l : Forall (fun i => (i < 4294967295)%N) l -> (N.of_nat (length l) < MAX_SNAPSHOT_PARENT_COUNT)%N -> l <> [] ->
  exists b, push_parents [] l = Ok b /\ length b = 3 + 4 * length l /\
    forall rest, 2 <= length rest -> take_parents (b ++ rest) = Ok (l, rest).
Proof.
  intros Hl Hn Hne. unfold MAX_SNAPSHOT_PARENT_COUNT in Hn. assert (0 < length l) as Hpos by (destruct l; [done|cbn; lia]).
  unfold push_parents. rewrite (proj2 (Nat.ltb_lt _ _) Hpos), (proj2 (N.ltb_ge _ _)) by lia. cbn [fail_if mbind result_bind].
  destruct (push_parents_each l (push_u16 (push_u8 [] SNAPSHOT_PARENT_EXTENSION_VERSION) (N.of_nat (length l))) Hl) as (b & Hb & Hlb).
  destruct (codec_write _ _ _ (codec_many _ _ _ (length l) codec_parent_index) _ _ _ (conj eq_refl Hl) Hb) as (b' & Heq & Hread).
  apply app_inv_head in Heq as <-. eexists. split; [exact Hb|]. unfold push_u8, push_u16. split.
  { rewrite !length_app, !length_to_le_bytes, Hlb. cbn. lia. }
  intros rest Hrest. rewrite <- !app_assoc, app_nil_l. unfold take_parents. apply read_uint_step; [done|].
  rewrite (reader_bind_eq _ _ _ tt _) by (by apply reader_fail_if_Ok). apply read_uint_step; [change (256 ^ N.of_nat 2)%N with 65536%N; lia|].
  rewrite (reader_bind_eq _ _ _ tt _) by (apply reader_fail_if_Ok; split; [apply N.eqb_neq; lia|done]).
  rewrite (reader_bind_eq _ _ _ tt _) by (apply reader_fail_if_Ok; split; [apply N.leb_gt; unfold MAX_SNAPSHOT_PARENT_COUNT; lia|done]).
  rewrite (reader_bind_eq _ _ _ (length (b ++ rest)) (b ++ rest)) by done.
  rewrite (reader_bind_eq _ _ _ tt _) by (apply reader_fail_if_Ok; split; [apply Nat.ltb_ge; rewrite length_app; lia|done]).
  rewrite Nat2N.id. apply Hread.
Qed.

Lemma parents_read data l rest : take_parents data = Ok (l, rest) ->
  l <> [] /\ Forall (fun i => (i < 4294967295)%N) l /\ (N.of_nat (length l) < MAX_SNAPSHOT_PARENT_COUNT)%N /\
  exists b, data = b ++ rest /\ push_parents [] l = Ok b.
Proof.
  intros H. unfold take_parents in H. apply reader_bind_Ok in H as (v & r1 & Hv & H). apply read_uint_Ok in Hv as [-> _].
  apply reader_bind_Ok in H as (u & r2 & Hu & H). apply reader_fail_if_Ok in Hu as [->%negb_false_iff%N.eqb_eq ->].
  apply reader_bind_Ok in H as (n & r3 & Hn & H). apply read_uint_Ok in Hn as [-> _].
  apply reader_bind_Ok in H as (u1 & r4 & Hu & H). apply reader_fail_if_Ok in Hu as [Hz%N.eqb_neq ->].
  apply reader_bind_Ok in H as (u2 & r5 & Hu & H). apply reader_fail_if_Ok in Hu as [Hmax%N.leb_gt ->].
  apply reader_bind_Ok in H as (k & r6 & [= <- <-] & H).
  apply reader_bind_Ok in H as (u3 & r7 & Hu & H). apply reader_fail_if_Ok in Hu as [_ ->].
  destruct (codec_read _ _ _ (codec_many _ _ _ (N.to_nat n) codec_parent_index) _ _ _ H) as ([Hlen Hl] & b & -> & Hb).
  split; [intros ->; cbn in Hlen; lia|]. split; [done|]. split; [lia|].
  exists (to_le_bytes 1 SNAPSHOT_PARENT_EXTENSION_VERSION ++ to_le_bytes 2 n ++ b). split; [by rewrite <- !app_assoc|].
  unfold push_parents, MAX_SNAPSHOT_PARENT_COUNT in *. rewrite (proj2 (Nat.ltb_lt _ _)), (proj2 (N.ltb_ge _ _)) by lia.
  cbn [fail_if mbind result_bind]. rewrite Hb. unfold push_u16, push_u8. rewrite Hlen, N2Nat.id. by rewrite <- !app_assoc.
Qed.

Definition extension_len (indices : list N) : nat := match indices with [] => 0 | _ => 3 + length indices * 4 end.

(** What a payload can hold; an empty message is stored like no message. *)
Record payload_ok (has_line : bool) (p : BinarySnapshotPayload) : Prop := {
  po_line : valid_utf8 (bytes_of_string (line_name p)) = true;
  po_flag : has_line = false -> line_name p = EmptyString;
  po_message : forall m, message p = Some m -> valid_utf8 (bytes_of_string m) = true;
  po_parents : Forall (fun i => (i < 4294967295)%N) (additional_parent_snapshot_indices p);
  po_count : (N.of_nat (length (additional_parent_snapshot_indices p)) < MAX_SNAPSHOT_PARENT_COUNT)%N;
  po_size : (N.of_nat (extension_len (additional_parent_snapshot_indices p) + 2 +
    length (bytes_of_string (default EmptyString (message p))) + length (bytes_of_string (line_name p))) <= 65535)%N
}.

Definition stored_message (m : option string) : option string := match m with Some EmptyString => None | m => m end.

Definition has_parents (p : BinarySnapshotPayload) : bool := negb (Nat.eqb (length (additional_parent_snapshot_indices p)) 0).

Lemma utf8_text_app (text : bytes) e rest : valid_utf8 text = true -> utf8_text text e rest = Ok (string_of_bytes text, rest).
Proof. intros Hu. unfold utf8_text. by rewrite (reader_bind_eq _ _ _ tt rest) by (by apply reader_fail_if_Ok; rewrite Hu). Qed.

Lemma utf8_text_Ok (text : bytes) e data s rest : utf8_text text e data = Ok (s, rest) ->
  valid_utf8 text = true /\ s = string_of_bytes text /\ rest = data.
Proof.
  intros (u & r & Hu & H)%reader_bind_Ok. apply reader_fail_if_Ok in Hu as [Hv%negb_false_iff ->].
  by apply reader_ret_Ok in H as [<- ->].
Qed.

(** The part of a payload before the message. *)
Lemma payload_prefix l : Forall (fun i => (i < 4294967295)%N) l -> (N.of_nat (length l) < MAX_SNAPSHOT_PARENT_COUNT)%N ->
  exists b, push_parents [] l = Ok b /\ length b = extension_len l /\
    forall rest, 2 <= length rest ->
      (if negb (Nat.eqb (length l) 0) then take_parents else mret []) (b ++ rest) = Ok (l, rest).
Proof.
  intros Hl Hn. destruct l as [|i l]; [by exists []|].
  destruct (parents_written (i :: l) Hl Hn) as (b & Hb & Hlen & Hr); [done|]. exists b. split_and!; [done| |done].
  rewrite Hlen. cbn. lia.
Qed.

(** The part of a payload after the parents. *)
Lemma payload_tail has_line p indices : payload_ok has_line p ->
  payload_texts has_line indices
    (to_le_bytes 2 (N.of_nat (length (bytes_of_string (default EmptyString (message p))))) ++
     bytes_of_string (default EmptyString (message p)) ++ bytes_of_string (line_name p)) =
  Ok (mkPayload (line_name p) (stored_message (message p)) indices, []).
Proof.
  intros [Hline Hflag Hmsg _ _ Hsize]. unfold payload_texts.
  set (msg := bytes_of_string (default EmptyString (message p))) in *. set (line := bytes_of_string (line_name p)) in *.
  apply read_uint_step; [change (256 ^ N.of_nat 2)%N with 65536%N; lia|]. apply read_exact_step; [by rewrite Nat2N.id|].
  rewrite (reader_bind_eq _ _ _ (length line) line) by done. rewrite <- (app_nil_r line) at 2. apply read_exact_step; [done|].
  rewrite (reader_bind_eq _ _ _ tt []).
  2:{ apply reader_fail_if_Ok. split; [|done]. destruct has_line; [done|]. unfold line. by rewrite Hflag. }
  rewrite (reader_bind_eq _ _ _ _ _ (utf8_text_app line LineNameNotUtf8 [] Hline)). unfold line. rewrite string_of_bytes_of_string.
  assert (bytes_of_string (default EmptyString (message p)) = msg) as Hm by done. clearbody msg.
  destruct (message p) as [m|]; [|by rewrite <- Hm]. destruct m as [|c m]; [by rewrite <- Hm|].
  specialize (Hmsg _ eq_refl). change (bytes_of_string (String c m) = msg) in Hm. rewrite Hm in Hmsg.
  assert (Nat.eqb (length msg) 0 = false) as -> by (by rewrite <- Hm).
  rewrite (reader_bind_eq _ _ _ (Some (String c m)) []); [done|].
  rewrite (reader_bind_eq _ _ _ _ _ (utf8_text_app _ MessageNotUtf8 [] Hmsg)), <- Hm. by rewrite string_of_bytes_of_string.
Qed.

Lemma payload_encodes has_line p : payload_ok has_line p ->
  exists raw, encode_payload BINARY_DB_CONTENT_LAYOUT_ID p = Ok raw /\
    length raw = extension_len (additional_parent_snapshot_indices p) + 2 + length (bytes_of_string (default EmptyString (message p)))
      + length (bytes_of_string (line_name p)) /\ (has_parents p = true -> (9 <= N.of_nat (length raw) <= 65535)%N) /\
    decode_payload BINARY_DB_CONTENT_LAYOUT_ID raw has_line (has_parents p) =
      Ok (mkPayload (line_name p) (stored_message (message p)) (additional_parent_snapshot_indices p)).
Proof.
  intros Hp. pose proof Hp as [_ _ _ Hl Hn Hsize].
  destruct (payload_prefix (additional_parent_snapshot_indices p) Hl Hn) as (b & Hb & Hlen & Hread).
  unfold encode_payload, decode_payload, has_parents. eexists. split_and!.
  - apply guard_step; [done|]. apply guard_step; [apply fail_if_Ok, N.leb_gt; done|].
    apply guard_step; [apply fail_if_Ok, N.ltb_ge; lia|]. eapply bind_step; [exact Hb|].
    apply guard_step; [|reflexivity]. apply fail_if_Ok, N.ltb_ge. unfold push_u16. rewrite !length_app, length_to_le_bytes. lia.
  - unfold push_u16. rewrite !length_app, length_to_le_bytes. lia.
  - intros Hpar. unfold push_u16. rewrite !length_app, length_to_le_bytes, Hlen in *.
    destruct (additional_parent_snapshot_indices p); cbn in *; [done|lia].
  - apply guard_step; [done|]. apply from_start_Ok. exists []. unfold push_u16. rewrite <- !app_assoc. unfold payload_fields.
    erewrite reader_bind_eq; [exact (payload_tail has_line p _ Hp)|]. apply Hread. rewrite length_app, length_to_le_bytes. lia.
Qed.

(** Snapshot payload round trip: a payload that fits encodes, to between 9
    and 65535 bytes if it has additional parents, as the check of the record
    assumes, and decodes, under the flags that describe it, to itself, except
    that an empty message comes back as no message. *)
Theorem snapshot_payload_roundtrip has_line p : payload_ok has_line p ->
  exists raw, encode_payload BINARY_DB_CONTENT_LAYOUT_ID p = Ok raw /\
    length raw = extension_len (additional_parent_snapshot_indices p) + 2 + length (bytes_of_string (default EmptyString (message p)))
      + length (bytes_of_string (line_name p)) /\ (has_parents p = true -> (9 <= N.of_nat (length raw) <= 65535)%N) /\
    decode_payload BINARY_DB_CONTENT_LAYOUT_ID raw has_line (has_parents p) =
      Ok (mkPayload (line_name p) (stored_message (message p)) (additional_parent_snapshot_indices p)).
Proof. exact (payload_encodes has_line p). Qed.

(** The payload encoding is canonical: what decodes from at most 65535
    bytes is a payload that fits, its flags are those it was read with, and it
    encodes to the same bytes. *)
Theorem snapshot_payload_canonical raw has_line has_additional p :
  decode_payload BINARY_DB_CONTENT_LAYOUT_ID raw has_line has_additional = Ok p -> (N.of_nat (length raw) <= 65535)%N ->
  payload_ok has_line p /\ has_parents p = has_additional /\ encode_payload BINARY_DB_CONTENT_LAYOUT_ID p = Ok raw.
Proof.
  intros H Hraw. unfold decode_payload in H. apply bind_Ok in H as (? & _ & H). apply from_start_Ok in H as (rest & H).
  unfold payload_fields in H. apply reader_bind_Ok in H as (l & r1 & Hl & H). unfold payload_texts in H.
  assert (Forall (fun i => (i < 4294967295)%N) l /\ (N.of_nat (length l) < MAX_SNAPSHOT_PARENT_COUNT)%N /\
    negb (Nat.eqb (length l) 0) = has_additional /\ exists b, raw = b ++ r1 /\ push_parents [] l = Ok b) as (Hall & Hcount & Hflag & b & -> & Hb).
  { destruct has_additional.
    - destruct (parents_read _ _ _ Hl) as (Hne & ? & ? & b & -> & ?). split_and!; [done..|by destruct l|by exists b].
    - apply reader_ret_Ok in Hl as [<- ->]. by repeat (split; [done|] || eexists []). }
  clear Hl. apply reader_bind_Ok in H as (n & r2 & Hn & H). apply read_uint_Ok in Hn as [-> Hn].
  apply reader_bind_Ok in H as (msg & r3 & Hmsg & H). apply read_exact_Ok in Hmsg as [-> Hlm].
  apply reader_bind_Ok in H as (k & r4 & [= <- <-] & H). apply reader_bind_Ok in H as (line & r5 & Hline & H).
  apply read_exact_Ok in Hline as [-> Hll]. assert (r5 = []) as ->.
  { rewrite length_app in Hll. apply length_zero_iff_nil. lia. }
  apply reader_bind_Ok in H as (u & r6 & Hu & H). apply reader_fail_if_Ok in Hu as [Hlf <-].
  apply reader_bind_Ok in H as (line_s & r7 & Hline & H). apply utf8_text_Ok in Hline as (Hline & -> & ->).
  apply reader_bind_Ok in H as (m & r8 & Hm & H). apply reader_ret_Ok in H as [<- _].
  assert (bytes_of_string (default EmptyString m) = msg /\ forall s, m = Some s -> valid_utf8 (bytes_of_string s) = true) as [Hmsg Hmu].
  { destruct (Nat.eqb_spec (length msg) 0) as [Hz|Hz].
    - apply reader_ret_Ok in Hm as [<- _]. by apply length_zero_iff_nil in Hz as ->.
    - apply reader_bind_Ok in Hm as (t & r9 & Ht & Hm). apply utf8_text_Ok in Ht as (Hu & -> & ->). apply reader_ret_Ok in Hm as [<- _].
      split; [exact (bytes_of_string_of_bytes msg)|]. intros s [= <-]. by rewrite bytes_of_string_of_bytes. }
  destruct (payload_prefix l Hall Hcount) as (b' & Hb' & Hlen & _). rewrite Hb in Hb'. injection Hb' as <-.
  rewrite app_nil_r in *. rewrite !length_app, length_to_le_bytes, Hlen in Hraw. split_and!; [|done|].
  - split; cbn [line_name message additional_parent_snapshot_indices]; rewrite ?bytes_of_string_of_bytes, ?Hmsg; try done; [|lia].
    intros ->. cbn in Hlf. apply negb_false_iff, Nat.eqb_eq, length_zero_iff_nil in Hlf as ->. done.
  - unfold encode_payload. cbn [line_name message additional_parent_snapshot_indices]. rewrite bytes_of_string_of_bytes, Hmsg.
    apply guard_step; [done|]. apply guard_step; [by apply fail_if_Ok, N.leb_gt|]. apply guard_step; [apply fail_if_Ok, N.ltb_ge; lia|].
    eapply bind_step; [exact Hb|]. assert (N.of_nat (length msg) = n) as -> by lia. apply guard_step.
    + apply fail_if_Ok, N.ltb_ge. unfold push_u16. rewrite !length_app, length_to_le_bytes, Hlen. lia.
    + unfold push_u16. by rewrite <- !app_assoc.
Qed.

Lemma snapshot_payload_roundtrip_witness :
  let p := mkPayload "main" (Some "merge"%string) [7%N; 65536%N] in
  exists raw, encode_payload BINARY_DB_CONTENT_LAYOUT_ID p = Ok raw /\
    length raw = extension_len (additional_parent_snapshot_indices p) + 2 + length (bytes_of_string (default EmptyString (message p)))
      + length (bytes_of_string (line_name p)) /\ (has_parents p = true -> (9 <= N.of_nat (length raw) <= 65535)%N) /\
    decode_payload BINARY_DB_CONTENT_LAYOUT_ID raw true (has_parents p) =
      Ok (mkPayload (line_name p) (stored_message (message p)) (additional_parent_snapshot_indices p)).
Proof.
  intros p. refine (snapshot_payload_roundtrip true p _). split; cbn [p line_name message additional_parent_snapshot_indices].
  - reflexivity.
  - discriminate.
  - intros m [= <-]. reflexivity.
  - by repeat constructor.
  - reflexivity.
  - by vm_compute.
Defined.

Lemma snapshot_payload_canonical_witness :
  let raw := to_le_bytes 1 1 ++ to_le_bytes 2 1 ++ to_le_bytes 4 8 ++ to_le_bytes 2 2 ++ [Byte.x68; Byte.x69; Byte.x6d] in
  let p := mkPayload "m" (Some "hi"%string) [7%N] in
  payload_ok true p /\ has_parents p = true /\ encode_payload BINARY_DB_CONTENT_LAYOUT_ID p = Ok raw.
Proof. intros raw p. refine (snapshot_payload_canonical raw true true p _ _); [reflexivity|by vm_compute]. Defined.

(** C34. The six record codecs are exact: under the layout of the content
    database, what decodes are exactly the encodings of the records whose fields
    fit their widths - for snapshots, also with consistent flags -, every such
    record has an encoding, and all encodings have the size that the file
    identities declare. *)
Theorem content_records_exact :
  exact_codec blob_codec BINARY_DB_CONTENT_LAYOUT_ID BLOB_RECORD_SIZE /\
  exact_codec snapshot_codec BINARY_DB_CONTENT_LAYOUT_ID SNAPSHOT_RECORD_SIZE /\
  exact_codec object_pack_codec BINARY_DB_CONTENT_LAYOUT_ID OBJECT_PACK_RECORD_SIZE /\
  exact_codec object_pack_member_codec BINARY_DB_CONTENT_LAYOUT_ID OBJECT_PACK_MEMBER_RECORD_SIZE /\
  exact_codec tree_pack_codec BINARY_DB_CONTENT_LAYOUT_ID TREE_PACK_RECORD_SIZE /\
  exact_codec tree_codec BINARY_DB_CONTENT_LAYOUT_ID TREE_RECORD_SIZE.
Proof.
  split_and!; [exact (lawful_codec_exact blob_codec 1%N eq_refl)|exact (lawful_codec_exact snapshot_codec 1%N eq_refl)
    |exact (lawful_codec_exact object_pack_codec 1%N eq_refl)|exact (lawful_codec_exact object_pack_member_codec 1%N eq_refl)
    |exact (lawful_codec_exact tree_pack_codec 1%N eq_refl)|exact (lawful_codec_exact tree_codec 1%N eq_refl)].
Qed.
