(* ===== verification/ContentStore.v ===== *)
(** * The snapshot store of the content database

    [ait-core/src/content_binary_db/read/surface]: how snapshots are appended to
    the record, payload and index files inside a write transaction, and how a
    read transaction finds them and their parents again. *)

From Stdlib Require Import NArith Lia.
From Stdlib Require Strings.Byte.
From stdpp Require Import base numbers strings gmap list sorting.
From S2P Require Import Prelude Codec SnapshotStore FileStore BinaryDb RecordTable BinaryIndex ReadTxn WriteTxn ContentCodec ContentIds.

Definition SNAPSHOT_BIN : string := "snapshot.bin".
Definition SNAPSHOT_PAYLOAD_BIN : string := "snapshot_payload.bin".
Definition SNAPSHOT_ID_IDX : string := "snapshot_id.idx".

Definition snapshot_file (layout : N) : BinaryFileId := mkFileId SNAPSHOT_BIN layout (N.of_nat SNAPSHOT_RECORD_SIZE).
Definition snapshot_id_index (layout : N) : BinaryIndexId := mkIndexId SNAPSHOT_ID_IDX layout (Some 8%N) true.
Definition snapshot_payload_file (layout : N) : BinaryPayloadFileId := mkPayloadFileId SNAPSHOT_PAYLOAD_BIN layout.

(** The kind of the error that a codec or an id returns; a panic counts as
    [Other]. *)
Definition content_error_kind (e : content_error) : BinaryDbErrorKind :=
  match e with ContentLayout _ | SnapshotLayout _ => LayoutMismatch | _ => Other end.
Definition id_error_kind (e : id_error) : BinaryDbErrorKind := Other.

(** ** Reading in a transaction *)

Definition require_supported_persisted_layout (layout : N) : result BinaryDbErrorKind unit :=
  fail_if (negb (layout =? BINARY_DB_CONTENT_LAYOUT_ID)%N) LayoutMismatch.

(** [Err(error) if error.kind() == MissingData => return Ok(None)] *)
Definition unless_missing {S A} (m : stateful S BinaryDbErrorKind A) : stateful S BinaryDbErrorKind (option A) := fun s =>
  match m s with
  | (Ok a, s) => (Ok (Some a), s)
  | (Err MissingData, s) => (Ok None, s)
  | (Err e, s) => (Err e, s)
  end.

Definition persisted_content_layout (fs : LocalBinaryDbFs) (path : string) (size : nat) : cached (option N) :=
  layout ← unless_missing (read_txn_layout_id fs (mkFileId path BINARY_DB_CONTENT_LAYOUT_ID (N.of_nat size)));
  match layout with
  | None => mret None
  | Some layout => _ ← lift (require_supported_persisted_layout layout); mret (Some layout)
  end.

Definition required_content_layout (fs : LocalBinaryDbFs) (path : string) (size : nat) : cached N :=
  layout ← persisted_content_layout fs path size; lift (ok_or layout MissingData).

Definition content_record_file (path : string) (size : nat) (layout : N) : result BinaryDbErrorKind BinaryFileId :=
  _ ← require_supported_persisted_layout layout; Ok (mkFileId path layout (N.of_nat size)).
Definition content_index (path : string) (layout : N) (fixed : option (N * bool)) : result BinaryDbErrorKind BinaryIndexId :=
  _ ← require_supported_persisted_layout layout;
  Ok (match fixed with
      | Some (key_size, plus_one) => mkIndexId path layout (Some key_size) plus_one
      | None => mkIndexId path layout None false
      end).
Definition content_payload (path : string) (layout : N) : result BinaryDbErrorKind BinaryPayloadFileId :=
  _ ← require_supported_persisted_layout layout; Ok (mkPayloadFileId path layout).

(** [sort_unstable], [dedup], [reverse] *)
Fixpoint dedup (l : list N) : list N :=
  match l with
  | x :: (y :: _) as l => if (x =? y)%N then dedup l else x :: dedup l
  | l => l
  end.
Definition newest_first (candidates : list N) : list N := rev (dedup (merge_sort N.le candidates)).
Definition index_candidates (fs : LocalBinaryDbFs) (index : BinaryIndexId) (key : bytes) : cached (list N) :=
  candidates ← lookup_index_in_read_txn fs index key; mret (newest_first candidates).

Section Store.
Context (fs : LocalBinaryDbFs).

Definition read_snapshot_record_at (snapshot_index : N) : cached BinarySnapshotRecord :=
  layout ← required_content_layout fs SNAPSHOT_BIN SNAPSHOT_RECORD_SIZE;
  file ← lift (content_record_file SNAPSHOT_BIN SNAPSHOT_RECORD_SIZE layout);
  raw ← read_record_in_read_txn fs file snapshot_index;
  lift (map_err content_error_kind (decode_snapshot_record layout raw)).

Definition snapshot_name (r : BinarySnapshotRecord) : string := snapshot_id_from_hash48 (snapshot_hash48 r).

(** The first candidate that is the snapshot with the name. *)
Fixpoint first_snapshot (snapshot_id : string) (candidates : list N) : cached (option (N * BinarySnapshotRecord)) :=
  match candidates with
  | [] => mret None
  | index :: candidates =>
      record ← read_snapshot_record_at index;
      if eq_ignore_ascii_case (snapshot_name record) snapshot_id && negb (snapshot_is_tombstone record) then mret (Some (index, record))
      else first_snapshot snapshot_id candidates
  end.

Definition get_snapshot_record_by_id (snapshot_id : string) : cached (option (N * BinarySnapshotRecord)) :=
  key ← lift (map_err id_error_kind (snapshot_id_index_key snapshot_id));
  layout ← persisted_content_layout fs SNAPSHOT_BIN SNAPSHOT_RECORD_SIZE;
  match layout with
  | None => mret None
  | Some layout =>
      index ← lift (content_index SNAPSHOT_ID_IDX layout (Some (8%N, true)));
      candidates ← index_candidates fs index key;
      first_snapshot snapshot_id candidates
  end.

(** *** Parents *)

Fixpoint parent_records (snapshot_index count : N) (seen : gset N) (parents : list N) : cached (list (N * BinarySnapshotRecord)) :=
  match parents with
  | [] => mret []
  | parent :: parents =>
      _ ← require (parent <? count)%N Corruption;
      _ ← require (parent <? snapshot_index)%N Corruption;
      _ ← require (negb (bool_decide (parent ∈ seen))) Corruption;
      record ← read_snapshot_record_at parent;
      _ ← require (negb (snapshot_is_tombstone record)) Corruption;
      rest ← parent_records snapshot_index count ({[parent]} ∪ seen) parents;
      mret ((parent, record) :: rest)
  end.

Definition snapshot_parent_records_from_indices (snapshot_index : N) (record : BinarySnapshotRecord) (additional : list N)
  : cached (list (N * BinarySnapshotRecord)) :=
  _ ← require (negb (eqb (has_additional_parents record) (Nat.eqb (length additional) 0))) Corruption;
  _ ← require (negb (is_remote_head_history_boundary record && (is_some (parent_snapshot_index record) || negb (Nat.eqb (length additional) 0)))) Corruption;
  match parent_snapshot_index record with
  | None => mret []
  | Some primary =>
      let parents := primary :: additional in
      _ ← require (N.of_nat (length parents) <=? MAX_SNAPSHOT_PARENT_COUNT)%N Corruption;
      layout ← required_content_layout fs SNAPSHOT_BIN SNAPSHOT_RECORD_SIZE;
      file ← lift (content_record_file SNAPSHOT_BIN SNAPSHOT_RECORD_SIZE layout);
      count ← read_txn_record_count fs file;
      parent_records snapshot_index count ∅ parents
  end.

Definition snapshot_parent_records (snapshot_index : N) (record : BinarySnapshotRecord) : cached (list (N * BinarySnapshotRecord)) :=
  additional ←
    (if has_additional_parents record then
       layout ← required_content_layout fs SNAPSHOT_BIN SNAPSHOT_RECORD_SIZE;
       file ← lift (content_payload SNAPSHOT_PAYLOAD_BIN layout);
       raw ← read_txn_payload fs file (payload_offset record) (payload_len record);
       payload ← lift (map_err content_error_kind (decode_payload layout raw (has_line_name_payload record) true));
       mret (additional_parent_snapshot_indices payload)
     else mret []);
  snapshot_parent_records_from_indices snapshot_index record additional.

Definition parent_link_at (snapshot_index : N) (record : BinarySnapshotRecord) : cached SnapshotParentLink :=
  parents ← snapshot_parent_records snapshot_index record;
  let parent_snapshot_ids := map (fun p => snapshot_name (snd p)) parents in
  let '(primary, parent) := compatibility_parent_projections parent_snapshot_ids in
  mret (mkLink (snapshot_name record) parent_snapshot_ids primary parent).

(** *** The trait *)

Definition require_non_empty (value : string) : result BinaryDbErrorKind unit := fail_if (bool_decide (trim value = EmptyString)) Other.

(** The closure that [snapshot_parent_links] maps over the names. *)
Definition parent_link_of (snapshot_id : string) : cached (option SnapshotParentLink) :=
  _ ← lift (require_non_empty snapshot_id);
  found ← get_snapshot_record_by_id snapshot_id;
  match found with
  | None => mret None
  | Some (index, record) => link ← parent_link_at index record; mret (Some link)
  end.

Fixpoint parent_links_of (snapshot_ids : list string) : cached (list (option SnapshotParentLink)) :=
  match snapshot_ids with
  | [] => mret []
  | id :: snapshot_ids => link ← parent_link_of id; links ← parent_links_of snapshot_ids; mret (link :: links)
  end.

(** [snapshot_parent_link] *)
Definition binary_parent_link (snapshot_id : string) : cached (option SnapshotParentLink) :=
  _ ← lift (require_non_empty snapshot_id);
  links ← parent_links_of [snapshot_id];
  lift (ok_or (head links) Other).

Fixpoint links_between (fuel : nat) (index end_ : N) : cached (list SnapshotParentLink) :=
  match fuel with
  | O => mret []
  | S fuel =>
      if (end_ <=? index)%N then mret []
      else
        record ← read_snapshot_record_at index;
        if snapshot_is_tombstone record then links_between fuel (index + 1) end_
        else link ← parent_link_at index record; links ← links_between fuel (index + 1) end_; mret (link :: links)
  end.

(** The loop [for snapshot_index in cursor..end], which makes [end - cursor]
    rounds. *)
Definition parent_link_page (cursor limit : N) : cached SnapshotParentLinkPage :=
  _ ← require (negb (limit =? 0)%N) Other;
  layout ← persisted_content_layout fs SNAPSHOT_BIN SNAPSHOT_RECORD_SIZE;
  match layout with
  | None => mret (mkPage [] None)
  | Some layout =>
      file ← lift (content_record_file SNAPSHOT_BIN SNAPSHOT_RECORD_SIZE layout);
      count ← read_txn_record_count fs file;
      _ ← require (cursor <=? count)%N Other;
      let end_ := N.min (N.min (cursor + limit) usize_max) count in
      links ← links_between (N.to_nat (end_ - cursor)) cursor end_;
      mret (mkPage links (if (end_ <? count)%N then Some end_ else None))
  end.

Definition snapshot_primary_parent_record (snapshot_index : N) (record : BinarySnapshotRecord) : cached (option (N * BinarySnapshotRecord)) :=
  if is_remote_head_history_boundary record then
    _ ← require (negb (is_some (parent_snapshot_index record) || has_additional_parents record)) Corruption; mret None
  else
    match parent_snapshot_index record with
    | None => mret None
    | Some parent =>
        _ ← require (parent <? snapshot_index)%N Corruption;
        parent_record ← read_snapshot_record_at parent;
        _ ← require (negb (snapshot_is_tombstone parent_record)) Corruption;
        mret (Some (parent, parent_record))
    end.

(** The loop of [snapshot_chain]; the index falls in every round, so that the
    first index is fuel enough. *)
Fixpoint chain_from (fuel : nat) (seen : gset N) (index : N) (record : BinarySnapshotRecord) (ordered : list string) : cached (list string) :=
  _ ← require (negb (bool_decide (index ∈ seen))) Other;
  let ordered := ordered ++ [snapshot_name record] in
  parent ← snapshot_primary_parent_record index record;
  match parent, fuel with
  | None, _ => mret (rev ordered)
  | Some _, O => lift (Err Other)
  | Some (parent, parent_record), S fuel => chain_from fuel ({[index]} ∪ seen) parent parent_record ordered
  end.

Definition binary_snapshot_chain (snapshot_id : string) : cached (list string) :=
  _ ← lift (require_non_empty snapshot_id);
  found ← get_snapshot_record_by_id snapshot_id;
  '(index, record) ← lift (ok_or found Other);
  chain_from (N.to_nat index) ∅ index record [].

Definition binary_snapshot_exists (snapshot_id : string) : cached bool :=
  _ ← lift (require_non_empty snapshot_id);
  found ← get_snapshot_record_by_id snapshot_id;
  mret (is_some found).

(** ** Writing in a transaction *)

Definition append_snapshot_payload (layout : N) (payload : BinarySnapshotPayload) : txn PayloadRange :=
  raw ← lift (map_err content_error_kind (encode_payload layout payload));
  txn_append_payload fs (snapshot_payload_file layout) raw.

Definition append_snapshot_record (layout : N) (record : BinarySnapshotRecord) : txn N :=
  raw ← lift (map_err content_error_kind (encode_snapshot_record layout record));
  txn_append_record fs (snapshot_file layout) raw.

(** [meta |= bit] and [meta &= !bit] *)
Definition set_bit (meta bit : N) (b : bool) : N := if b then N.lor meta bit else N.ldiff meta bit.

(** The record with the place of its payload and the flags that describe it. *)
Definition place_payload (record : BinarySnapshotRecord) (payload : BinarySnapshotPayload) (offset len : N) : BinarySnapshotRecord :=
  let meta := set_bit (snapshot_meta record) META_HAS_MESSAGE
    (match message payload with Some value => negb (bool_decide (value = EmptyString)) | None => false end) in
  let meta := set_bit meta META_HAS_LINE_NAME_PAYLOAD (negb (bool_decide (line_name payload = EmptyString))) in
  let meta := set_bit meta META_HAS_ADDITIONAL_PARENTS (negb (Nat.eqb (length (additional_parent_snapshot_indices payload)) 0)) in
  mkSnapshotRecord meta (history_flags record) len offset (snapshot_hash48 record)
    (parent_snapshot_index_plus1 record) (root_tree_pack_index_plus1 record) (root_entry_ordinal record) (line_index_plus1 record)
    (manifest_hash record) (file_count record) (snapshot_total_bytes record) (snapshot_created_at_s record).

Definition append_snapshot (layout : N) (record : BinarySnapshotRecord) (payload : BinarySnapshotPayload)
  : txn (N * string * BinarySnapshotRecord) :=
  range ← append_snapshot_payload layout payload;
  _ ← require (payload_range_len range <=? 65535)%N Other;
  let record := place_payload record payload (payload_range_offset range) (payload_range_len range) in
  index ← append_snapshot_record layout record;
  mret (index, snapshot_name record, record).

Definition append_snapshot_id_index (layout : N) (snapshot_id : string) (snapshot_index : N) : txn unit :=
  key ← lift (map_err id_error_kind (snapshot_id_index_key snapshot_id));
  txn_append_index_candidate fs (snapshot_id_index layout) key snapshot_index.

Definition append_snapshot_with_id_index (layout : N) (record : BinarySnapshotRecord) (payload : BinarySnapshotPayload)
  : txn (N * string * BinarySnapshotRecord) :=
  '(index, snapshot_id, record) ← append_snapshot layout record payload;
  _ ← append_snapshot_id_index layout snapshot_id index;
  mret (index, snapshot_id, record).

(** *** Changing the kind of a snapshot *)

Definition kind_bits (snapshot_kind : string) : result BinaryDbErrorKind N :=
  let kind := trim snapshot_kind in
  if bool_decide (kind = "line"%string) then Ok 0%N else if bool_decide (kind = "stash"%string) then Ok 1%N else Err Other.

Definition with_kind (record : BinarySnapshotRecord) (bits : N) : BinarySnapshotRecord :=
  mkSnapshotRecord (N.lor (N.ldiff (snapshot_meta record) META_KIND_MASK) bits) (history_flags record) (payload_len record) (payload_offset record)
    (snapshot_hash48 record) (parent_snapshot_index_plus1 record) (root_tree_pack_index_plus1 record) (root_entry_ordinal record)
    (line_index_plus1 record) (manifest_hash record) (file_count record) (snapshot_total_bytes record) (snapshot_created_at_s record).

Fixpoint update_first (layout : N) (snapshot_id : string) (bits : N) (candidates : list N) : txn N :=
  match candidates with
  | [] => _ ← abort fs; mret 0%N
  | index :: candidates =>
      raw ← txn_read_record fs (snapshot_file layout) index;
      record ← lift (map_err content_error_kind (decode_snapshot_record layout raw));
      if snapshot_is_tombstone record || negb (eq_ignore_ascii_case (snapshot_name record) snapshot_id) then update_first layout snapshot_id bits candidates
      else
        encoded ← lift (map_err content_error_kind (encode_snapshot_record layout (with_kind record bits)));
        _ ← txn_overwrite_record fs (snapshot_file layout) index encoded;
        _ ← commit;
        mret 1%N
  end.

Definition update_kind_body (layout : N) (snapshot_id : string) (bits : N) : txn N :=
  key ← lift (map_err id_error_kind (snapshot_id_index_key snapshot_id));
  candidates ← txn_lookup_index fs (snapshot_id_index layout) key;
  update_first layout snapshot_id bits (newest_first candidates).

(** [update_snapshot_kind], with the locks that its transaction takes; on an
    error the transaction is dropped. *)
Definition update_snapshot_kind (layout : N) (snapshot_id snapshot_kind : string) (lock : lock_set) (s : io_state)
  : result BinaryDbErrorKind N * io_state :=
  match (_ ← require_non_empty snapshot_id; kind_bits snapshot_kind) with
  | Err e => (Err e, s)
  | Ok bits => let '(r, t) := update_kind_body layout snapshot_id bits (begin ContentWrite lock s) in (r, files (drop_txn fs t))
  end.
End Store.
