(* ===== verification/SnapshotLog.v ===== *)
(** * The snapshot store as a log

    What the files of [ContentStore] hold is a list of snapshots, oldest first:
    the reads of the store are functions of that list, and an append in a write
    transaction adds an entry behind it. *)

From Stdlib Require Import NArith Lia.
From Stdlib Require Strings.Byte.
From stdpp Require Import base numbers strings gmap list sorting.
From S2P Require Import Prelude Codec SnapshotStore FileStore BinaryDb RecordTable BinaryIndex ReadTxn WriteTxn PayloadFile ContentIds ContentCodec ContentStore.

Local Abbreviation L := BINARY_DB_CONTENT_LAYOUT_ID.

(** ** The log *)

(** A record and its payload, as it is read back. *)
Abbreviation entry := (BinarySnapshotRecord * BinarySnapshotPayload)%type.

Definition entry_hash (e : entry) : N := snapshot_hash48 (fst e).
Definition entry_name (e : entry) : string := snapshot_name (fst e).
Definition entry_live (e : entry) : bool := negb (snapshot_is_tombstone (fst e)).
Definition parent_indices (e : entry) : list N :=
  match parent_snapshot_index (fst e) with
  | None => []
  | Some primary => primary :: additional_parent_snapshot_indices (snd e)
  end.

(** The places of the entries with a hash, oldest first. *)
Fixpoint positions (h : N) (n : N) (es : list entry) : list N :=
  match es with
  | [] => []
  | e :: es => if (entry_hash e =? h)%N then n :: positions h (n + 1) es else positions h (n + 1) es
  end.

(** The parents of an entry are earlier entries that are live. *)
Record entry_ok (es : list entry) (i : nat) (e : entry) : Prop := {
  eo_flag : has_additional_parents (fst e) = has_parents (snd e);
  eo_count : (N.of_nat (length (parent_indices e)) <= MAX_SNAPSHOT_PARENT_COUNT)%N;
  eo_distinct : NoDup (parent_indices e);
  eo_earlier : Forall (fun p => N.to_nat p < i /\ exists e', es !! N.to_nat p = Some e' /\ entry_live e' = true) (parent_indices e)
}.

Record log_ok (es : list entry) : Prop := {
  lo_records : Forall (fun e => record_ok L (fst e)) es;
  lo_live : forall i e, es !! i = Some e -> entry_live e = true -> entry_ok es i e;
  lo_hashes : forall i j e e', es !! i = Some e -> es !! j = Some e' -> entry_live e = true -> entry_live e' = true ->
    entry_hash e = entry_hash e' -> i = j
}.

Definition parents_of (es : list entry) (ps : list N) : list (N * BinarySnapshotRecord) :=
  omap (fun p => (fun e => (p, fst e)) <$> es !! N.to_nat p) ps.
Definition parent_names (es : list entry) (e : entry) : list string :=
  map (fun p => snapshot_name (snd p)) (parents_of es (parent_indices e)).
Definition entry_link (es : list entry) (e : entry) : SnapshotParentLink := link_of (entry_name e) (parent_names es e).

(** ** Positions *)

Lemma elem_of_rev {A : Type} (x : A) l : x ∈ rev l <-> x ∈ l.
Proof. by rewrite !list_elem_of_In, <- in_rev. Qed.

Lemma elem_of_positions h n es i : i ∈ positions h n es <-> exists k e, i = (n + N.of_nat k)%N /\ es !! k = Some e /\ entry_hash e = h.
Proof.
  revert n. induction es as [|e es IH]; intros n; cbn [positions].
  - split; [by intros ?%elem_of_nil|by intros (k & e & _ & [=] & _)].
  - assert (i ∈ positions h (n + 1) es <-> exists k e0, i = (n + N.of_nat (S k))%N /\ es !! k = Some e0 /\ entry_hash e0 = h) as IH'.
    { rewrite IH. by split; intros (k & e0 & -> & ?); exists k, e0; (split; [lia|]). }
    destruct (N.eqb_spec (entry_hash e) h) as [He|He]; rewrite ?elem_of_cons, IH'; split.
    + intros [->|(k & e0 & H)]; [exists 0, e; by split_and!; [lia| |]|by exists (S k), e0].
    + intros ([|k] & e0 & Hi & Hk & H); [left; lia|right; by exists k, e0].
    + intros (k & e0 & H). by exists (S k), e0.
    + intros ([|k] & e0 & Hi & Hk & H); [by injection Hk as <-|by exists k, e0].
Qed.

Lemma positions_sorted h n es : StronglySorted N.lt (positions h n es).
Proof.
  revert n. induction es as [|e es IH]; intros n; cbn [positions]; [constructor|]. destruct (entry_hash e =? h)%N; [|apply IH].
  constructor; [apply IH|]. apply Forall_forall. intros i (k & e0 & -> & _)%elem_of_positions. lia.
Qed.

Lemma positions_snoc h n es e : positions h n (es ++ [e]) =
  positions h n es ++ (if bool_decide (entry_hash e = h) then [(n + N.of_nat (length es))%N] else []).
Proof.
  revert n. induction es as [|e0 es IH]; intros n; cbn [positions app length].
  - destruct (N.eqb_spec (entry_hash e) h) as [He|He]; [rewrite bool_decide_eq_true_2 by done|by rewrite bool_decide_eq_false_2].
    cbn. by rewrite N.add_0_r.
  - rewrite IH. replace (n + 1 + N.of_nat (length es))%N with (n + N.of_nat (S (length es)))%N by lia. by destruct (entry_hash e0 =? h)%N.
Qed.

Lemma dedup_increasing l : StronglySorted N.lt l -> dedup l = l.
Proof.
  intros H. induction H as [|x l Hs IH Hx]; [done|]. destruct l as [|y l]; [done|].
  change (dedup (x :: y :: l)) with (if (x =? y)%N then dedup (y :: l) else x :: dedup (y :: l)).
  rewrite IH. apply Forall_cons in Hx as [Hlt _]. by rewrite (proj2 (N.eqb_neq x y)) by lia.
Qed.

Lemma newest_first_increasing l : StronglySorted N.lt l -> newest_first l = rev l.
Proof.
  intros H. unfold newest_first. assert (merge_sort N.le l = l) as ->; [|by rewrite dedup_increasing].
  apply (StronglySorted_unique_strong N.le); [|apply (StronglySorted_merge_sort N.le)| |apply (merge_sort_Permutation N.le)].
  - intros x y _ _ H1 H2. lia.
  - eapply StronglySorted_weaken; [|exact H]. intros x y. lia.
Qed.

(** ** The files *)

Section Log.
Context (fs : LocalBinaryDbFs) (record_file payload_file index_file : PathBuf).
Context (Hrec : file_path_for fs SNAPSHOT_BIN = Ok record_file).
Context (Hpay : file_path_for fs SNAPSHOT_PAYLOAD_BIN = Ok payload_file).
Context (Hidx : file_path_for fs SNAPSHOT_ID_IDX = Ok index_file).
Context {du : gmap PathBuf bytes}.
Implicit Types (d : gmap PathBuf bytes) (es : list entry) (e : entry).

(** The payload of an entry lies in the payload file, behind its header. *)
Definition payload_stored (data : bytes) (e : entry) : Prop :=
  (4 <= payload_offset (fst e))%N /\ (payload_offset (fst e) + payload_len (fst e) <= N.of_nat (length data))%N /\
  decode_payload L (take (N.to_nat (payload_len (fst e))) (drop (N.to_nat (payload_offset (fst e))) data))
    (has_line_name_payload (fst e)) (has_additional_parents (fst e)) = Ok (snd e).

Definition payload_data (d : gmap PathBuf bytes) : bytes := payload_contents (snapshot_payload_file L) payload_file d.

Record holds_snapshots (d : gmap PathBuf bytes) (es : list entry) : Prop := {
  hs_records : holds_records (snapshot_file L) record_file d (map fst es);
  hs_count : (N.of_nat (length es) <= u32_max)%N;
  hs_header : 4 <= length (payload_data d) /\ from_le_bytes (take 4 (payload_data d)) = L;
  hs_space : (N.of_nat (length (payload_data d)) <= usize_max)%N;
  hs_payloads : Forall (fun e => is_Some (d !! payload_file) /\ payload_stored (payload_data d) e) es;
  hs_index : exists m, index_content (snapshot_id_index L) index_file d m /\
    forall h, (h < 2 ^ 48)%N -> default [] (m !! to_le_bytes 8 h) = positions h 0 es
}.

Lemma snapshots_payload d es : holds_snapshots d es -> holds_payload (snapshot_payload_file L) payload_file d.
Proof. intros [_ _ [H1 H2] H3 _ _]. by split. Qed.

Lemma snapshot_file_pos : (0 < record_size (snapshot_file L))%N.
Proof. reflexivity. Qed.
Lemma snapshot_file_max : (record_size (snapshot_file L) <= u32_max)%N.
Proof. by vm_compute. Qed.
Lemma content_layout_max : (L <= u32_max)%N.
Proof. by vm_compute. Qed.

Lemma snapshot_encoded (r : BinarySnapshotRecord) row : record_ok L r -> encode_snapshot_record L r = Ok row ->
  length row = SNAPSHOT_RECORD_SIZE /\ decode_snapshot_record L row = Ok r.
Proof.
  intros Hr Henc. destruct (encode_decode L r) as (raw & H1 & H2 & H3); [reflexivity|exact Hr|].
  change (encode_snapshot_record L r = Ok raw) in H1. rewrite Henc in H1. by injection H1 as <-.
Qed.

(** ** Reading *)

Section Reading.
Context (d : gmap PathBuf bytes) (es : list entry) (Hd : holds_snapshots d es) (Hok : log_ok es).

Local Abbreviation reads_ m r := (reads fs (du := du) d m r).

Lemma record_ok_entry i e : es !! i = Some e -> record_ok L (fst e).
Proof. intros Hi. exact (Forall_lookup_1 _ _ _ _ (lo_records es Hok) Hi). Qed.

Lemma entry_hash_lt i e : es !! i = Some e -> (entry_hash e < 2 ^ 48)%N.
Proof.
  intros Hi. pose proof (record_ok_entry i e Hi) as H. destruct H as (_ & _ & _ & _ & H8 & _ & _ & _ & _ & _ & _ & _ & _ & Hv).
  clear -Hv. unfold validate_snapshot_record in Hv. do 2 skip_bind Hv. apply bind_Ok in Hv as (u & Hh & _).
  apply fail_if_Ok, negb_false_iff, N.eqb_eq in Hh. rewrite N.shiftr_div_pow2 in Hh. by apply N.div_small_iff in Hh.
Qed.

(** The record file is missing exactly while the log is empty and nothing was
    written. *)
Lemma record_file_cases : d !! record_file = None /\ es = [] \/
  exists data n, d !! record_file = Some data /\ layout_of record_file d = Ok L /\
    rows_of L (N.of_nat SNAPSHOT_RECORD_SIZE) data = Ok n /\ n = N.of_nat (length es).
Proof.
  destruct Hd as [(rows & [Hrows Hdata] & Hall) Hn _ _ _ _]. pose proof (Forall2_length _ _ _ Hall) as Hlen. rewrite length_map in Hlen.
  destruct Hdata as [Hdata|[Hdata ->]].
  - right. exists (table_bytes (snapshot_file L) rows), (N.of_nat (length es)).
    assert (record_size (snapshot_file L) = 88%N) as Hsize by done.
    assert (ensure_binary_file_valid record_file L 88 (mkIo du d []) = (Ok (N.of_nat (length rows)), mkIo du d [])) as Hv.
    { apply (valid_run (snapshot_file L) record_file snapshot_file_pos snapshot_file_max content_layout_max d rows Hdata).
      by apply rows_sized. }
    rewrite rows_pure, Hdata in Hv. cbn [ok_or mbind result_bind] in Hv. injection Hv as Hv. split_and!; [done| |by rewrite <- Hlen in Hv|done].
    apply rows_of_length in Hv as (Hl & _ & Hlay). unfold layout_of. rewrite Hdata. cbn [ok_or mbind result_bind].
    rewrite (proj2 (Nat.ltb_ge _ _)) by lia. cbn [fail_if mbind result_bind]. by rewrite Hlay.
  - left. split; [done|]. by destruct es.
Qed.

Lemma reads_persisted : reads_ (persisted_content_layout fs SNAPSHOT_BIN SNAPSHOT_RECORD_SIZE)
  (Ok (match d !! record_file with Some _ => Some L | None => None end)).
Proof.
  unfold persisted_content_layout. set (file := mkFileId _ _ _).
  apply (reads_step _ _ _ _ (match d !! record_file with Some _ => Some L | None => None end)).
  - intros c Hc. destruct (reads_layout fs (du := du) d file record_file Hrec c Hc) as (c' & Hrun & Hc').
    exists c'. split; [|done]. unfold unless_missing. rewrite Hrun. destruct record_file_cases as [[Hnone _]|(data & n & Hsome & -> & _)].
    + unfold layout_of. by rewrite Hnone.
    + by rewrite Hsome.
  - destruct (d !! record_file); [|apply reads_ret]. apply (reads_step _ _ _ _ tt); [apply reads_lift|apply reads_ret].
Qed.

Lemma reads_required : es <> [] -> reads_ (required_content_layout fs SNAPSHOT_BIN SNAPSHOT_RECORD_SIZE) (Ok L).
Proof.
  intros Hne. unfold required_content_layout. eapply reads_step; [apply reads_persisted|].
  destruct record_file_cases as [[_ ?]|(data & n & -> & _)]; [done|apply reads_lift].
Qed.

Lemma reads_snapshot_record i : (i <= u32_max)%N -> reads_ (read_snapshot_record_at fs i)
  (match es !! N.to_nat i with Some e => Ok (fst e) | None => Err MissingData end).
Proof.
  intros Hi. unfold read_snapshot_record_at, required_content_layout.
  apply (reads_bind _ _ _ _ (match d !! record_file with Some _ => Ok L | None => Err MissingData end)).
  { eapply reads_step; [apply reads_persisted|]. destruct (d !! record_file); apply reads_lift. }
  destruct record_file_cases as [[Hnone ->]|(data & n & Hsome & _ & Hn & ->)]; [by rewrite Hnone|rewrite Hsome].
  apply (reads_step _ _ _ _ (snapshot_file L)); [apply reads_lift|].
  pose proof (hs_records _ _ Hd) as (rows & Ht & Hall). pose proof (Forall2_length _ _ _ Hall) as Hlen. rewrite length_map in Hlen.
  pose proof (hs_count _ _ Hd) as Hcount.
  apply (reads_bind _ _ _ _ (match rows !! N.to_nat i with Some row => Ok row | None => Err MissingData end)).
  - pose proof (read_record_run (du := du) fs (snapshot_file L) record_file Hrec snapshot_file_pos snapshot_file_max content_layout_max d rows i Ht ltac:(lia)) as Hrun.
    rewrite (read_record_pure fs d (snapshot_file L) record_file i Hrec) in Hrun. apply pair_equal_spec in Hrun as [Hrun _].
    rewrite <- Hrun, <- record_of_file; [by apply reads_record|done|done|]. intros data' n Hdata' Hn'. rewrite Hsome in Hdata'. injection Hdata' as <-.
    change (record_size (snapshot_file L)) with (N.of_nat SNAPSHOT_RECORD_SIZE) in Hn'. change (file_layout_id (snapshot_file L)) with L in Hn'.
    assert (n = N.of_nat (length es)) as -> by congruence. exact Hcount.
  - destruct (rows !! N.to_nat i) as [row|] eqn:Hrow.
    + destruct (Forall2_lookup_r _ _ _ _ _ Hall Hrow) as (r & Hr & Henc). change (map fst es) with (fst <$> es) in Hr. rewrite list_lookup_fmap in Hr. apply fmap_Some in Hr as (e & He & ->).
      rewrite He. destruct (snapshot_encoded (fst e) row (record_ok_entry _ e He) Henc) as [_ Hdec]. rewrite Hdec. apply reads_lift.
    + apply lookup_ge_None in Hrow. by rewrite lookup_ge_None_2 by lia.
Qed.

Lemma reads_entry i e : es !! N.to_nat i = Some e -> reads_ (read_snapshot_record_at fs i) (Ok (fst e)).
Proof.
  intros He. pose proof (lookup_lt_Some _ _ _ He) as Hlt. pose proof (hs_count _ _ Hd) as Hcount.
  pose proof (reads_snapshot_record i ltac:(lia)) as H. by rewrite He in H.
Qed.

(** *** By name *)

(** The first of the places that holds a live snapshot with the name. *)
Fixpoint find_snapshot (snapshot_id : string) (candidates : list N) : option (N * BinarySnapshotRecord) :=
  match candidates with
  | [] => None
  | i :: candidates =>
      match es !! N.to_nat i with
      | Some e => if eq_ignore_ascii_case (entry_name e) snapshot_id && entry_live e then Some (i, fst e) else find_snapshot snapshot_id candidates
      | None => None
      end
  end.

Lemma reads_first_snapshot snapshot_id candidates : Forall (fun i => N.to_nat i < length es) candidates ->
  reads_ (first_snapshot fs snapshot_id candidates) (Ok (find_snapshot snapshot_id candidates)).
Proof.
  induction candidates as [|i candidates IH]; intros H; cbn [first_snapshot find_snapshot]; [apply reads_ret|].
  apply Forall_cons in H as [Hi H]. destruct (lookup_lt_is_Some_2 es (N.to_nat i) Hi) as [e He].
  eapply reads_step; [by apply reads_entry|]. rewrite He. cbn beta iota. fold (entry_name e). fold (entry_live e).
  destruct (eq_ignore_ascii_case (entry_name e) snapshot_id && entry_live e); [apply reads_ret|by apply IH].
Qed.

Lemma positions_lt h i : i ∈ positions h 0 es -> N.to_nat i < length es.
Proof. intros (k & e & -> & Hk & _)%elem_of_positions. apply lookup_lt_Some in Hk. lia. Qed.

Lemma reads_candidates h : (h < 2 ^ 48)%N -> reads_ (index_candidates fs (snapshot_id_index L) (to_le_bytes 8 h)) (Ok (rev (positions h 0 es))).
Proof.
  intros Hh. destruct (hs_index _ _ Hd) as (m & Hm & Hpos). unfold index_candidates.
  rewrite <- (newest_first_increasing _ (positions_sorted h 0 es)), <- (Hpos h Hh).
  eapply reads_step; [|apply reads_ret]. apply (reads_lookup fs d (snapshot_id_index L) index_file m); [exact Hidx|exact Hm|].
  intros k [= <-]. by rewrite length_to_le_bytes.
Qed.

Lemma reads_by_id snapshot_id h : snapshot_hash48_from_id snapshot_id = Ok h ->
  reads_ (get_snapshot_record_by_id fs snapshot_id) (Ok (find_snapshot snapshot_id (rev (positions h 0 es)))).
Proof.
  intros Hid. unfold get_snapshot_record_by_id.
  assert (h < 2 ^ 48)%N as Hh by (by apply snapshot_hash48_spec in Hid as [? _]).
  apply (reads_step _ _ _ _ (to_le_bytes 8 h)). { unfold snapshot_id_index_key. rewrite Hid. apply reads_lift. }
  eapply reads_step; [apply reads_persisted|]. destruct record_file_cases as [[-> ->]|(data & n & -> & _)]; [apply reads_ret|].
  apply (reads_step _ _ _ _ (snapshot_id_index L)); [apply reads_lift|]. eapply reads_step; [by apply reads_candidates|].
  apply reads_first_snapshot. apply Forall_forall. intros i Hi. rewrite elem_of_rev in Hi. by eapply positions_lt.
Qed.

(** A name finds the live snapshot with its hash, and nothing else. *)
Lemma find_live i e : es !! i = Some e -> entry_live e = true ->
  find_snapshot (entry_name e) (rev (positions (entry_hash e) 0 es)) = Some (N.of_nat i, fst e).
Proof.
  intros He Hlive. assert (N.of_nat i ∈ rev (positions (entry_hash e) 0 es)) as Hin.
  { rewrite elem_of_rev. apply elem_of_positions. exists i, e. by split_and!; [lia| |]. }
  assert (forall j, j ∈ rev (positions (entry_hash e) 0 es) -> exists e', es !! N.to_nat j = Some e' /\ entry_hash e' = entry_hash e) as Hall.
  { intros j. rewrite elem_of_rev. intros (k & e' & -> & Hk & Hh)%elem_of_positions.
    exists e'. split; [|done]. by replace (N.to_nat (0 + N.of_nat k)) with k by lia. }
  induction (rev (positions (entry_hash e) 0 es)) as [|j l IH]; [by apply elem_of_nil in Hin|]. cbn [find_snapshot].
  destruct (Hall j) as (e' & He' & Hh); [by left|]. rewrite He'. assert (entry_name e' = entry_name e) as ->.
  { unfold entry_name, snapshot_name. unfold entry_hash in Hh. by rewrite Hh. }
  unfold eq_ignore_ascii_case. rewrite bool_decide_eq_true_2 by done. cbn [andb]. destruct (entry_live e') eqn:Hlive'.
  - assert (N.to_nat j = i) as Hji by (by apply (lo_hashes es Hok (N.to_nat j) i e' e)). rewrite Hji in He'.
    assert (e' = e) as -> by congruence. do 2 f_equal. lia.
  - apply IH; [|intros j' Hj'; apply Hall; by right]. apply elem_of_cons in Hin as [<-|Hin]; [|done].
    rewrite Nat2N.id in He'. congruence.
Qed.

Lemma find_absent snapshot_id h : (forall i e, es !! i = Some e -> entry_live e = true -> entry_hash e <> h) ->
  find_snapshot snapshot_id (rev (positions h 0 es)) = None.
Proof.
  intros Hno. assert (forall j, j ∈ rev (positions h 0 es) -> forall e', es !! N.to_nat j = Some e' -> entry_live e' = false) as Hall.
  { intros j Hj e' He'. rewrite elem_of_rev in Hj. apply elem_of_positions in Hj as (k & e0 & -> & Hk & Hh).
    replace (N.to_nat (0 + N.of_nat k)) with k in He' by lia. apply not_true_is_false. intros Hlive. apply (Hno k e' He' Hlive). congruence. }
  induction (rev (positions h 0 es)) as [|j l IH]; [done|]. cbn [find_snapshot]. destruct (es !! N.to_nat j) as [e'|] eqn:He'; [|done].
  rewrite (Hall j) by (by left || done). rewrite andb_false_r. apply IH. intros j' Hj'. apply Hall. by right.
Qed.

(** *** Parents *)

Lemma boundary_no_parents i e : es !! i = Some e ->
  is_remote_head_history_boundary (fst e) && (is_some (parent_snapshot_index (fst e)) || has_additional_parents (fst e)) = false.
Proof.
  intros Hi. pose proof (record_ok_entry i e Hi) as H. destruct H as (_ & _ & _ & _ & _ & _ & _ & _ & _ & _ & _ & _ & _ & Hv).
  clear -Hv. unfold validate_snapshot_record in Hv. do 6 skip_bind Hv. by apply bind_Ok in Hv as (u & Hh%fail_if_Ok & _).
Qed.

Lemma read_payload_run e : is_Some (d !! payload_file) -> payload_stored (payload_data d) e ->
  read_payload fs (snapshot_payload_file L) (payload_offset (fst e)) (payload_len (fst e)) (mkIo du d []) =
    (Ok (take (N.to_nat (payload_len (fst e))) (drop (N.to_nat (payload_offset (fst e))) (payload_data d))), mkIo du d []).
Proof.
  intros Hsome (Hoff & Hlen & _). apply read_payload_at; [done|by eapply snapshots_payload|done..].
Qed.

Lemma reads_parent_loop i seen ps : Forall (fun p => N.to_nat p < i /\ exists e', es !! N.to_nat p = Some e' /\ entry_live e' = true) ps ->
  NoDup ps -> (forall p, p ∈ ps -> p ∉ seen) -> i <= length es ->
  reads_ (parent_records fs (N.of_nat i) (N.of_nat (length es)) seen ps) (Ok (parents_of es ps)).
Proof.
  intros Hps. revert seen. induction Hps as [|p ps (Hlt & e' & He' & Hlive) Hps IH]; intros seen Hnd Hseen Hi; cbn [parent_records]; [apply reads_ret|].
  apply NoDup_cons in Hnd as [Hp Hnd].
  apply (reads_step _ _ _ _ tt). { unfold require. rewrite (proj2 (N.ltb_lt _ _)) by lia. apply reads_lift. }
  apply (reads_step _ _ _ _ tt). { unfold require. rewrite (proj2 (N.ltb_lt _ _)) by lia. apply reads_lift. }
  apply (reads_step _ _ _ _ tt). { unfold require. rewrite bool_decide_eq_false_2 by (apply Hseen; by left). apply reads_lift. }
  eapply reads_step; [by apply reads_entry|]. apply (reads_step _ _ _ _ tt).
  { unfold require. unfold entry_live in Hlive. rewrite Hlive. apply reads_lift. }
  apply (reads_step _ _ _ _ (parents_of es ps)).
  - apply IH; [done| |done]. intros q Hq. rewrite not_elem_of_union, not_elem_of_singleton. split; [by intros ->|apply Hseen; by right].
  - unfold parents_of. cbn [omap list_omap]. rewrite He'. apply reads_ret.
Qed.

Lemma reads_parents i e : es !! i = Some e -> entry_live e = true ->
  reads_ (snapshot_parent_records fs (N.of_nat i) (fst e)) (Ok (parents_of es (parent_indices e))).
Proof.
  intros He Hlive. destruct (lo_live es Hok i e He Hlive) as [Hflag Hcount Hnd Hear]. pose proof (lookup_lt_Some _ _ _ He) as Hlt.
  assert (es <> []) as Hne by (intros ->; cbn in Hlt; lia). pose proof (boundary_no_parents i e He) as Hb.
  unfold snapshot_parent_records.
  apply (reads_step _ _ _ _ (additional_parent_snapshot_indices (snd e))).
  - destruct (has_additional_parents (fst e)) eqn:Hadd.
    + eapply reads_step; [by apply reads_required|]. apply (reads_step _ _ _ _ (snapshot_payload_file L)); [apply reads_lift|].
      destruct (Forall_lookup_1 _ _ _ _ (hs_payloads _ _ Hd) He) as [Hsome Hstored]. eapply reads_step.
      { apply reads_uncached. by apply read_payload_run. }
      destruct Hstored as (_ & _ & Hdec). rewrite Hadd in Hdec. rewrite Hdec. eapply reads_step; [apply reads_lift|apply reads_ret].
    + unfold has_parents in Hflag. symmetry in Hflag. apply negb_false_iff, Nat.eqb_eq, length_zero_iff_nil in Hflag as ->. apply reads_ret.
  - unfold snapshot_parent_records_from_indices.
    apply (reads_step _ _ _ _ tt). { unfold require. rewrite Hflag. unfold has_parents. destruct (Nat.eqb _ 0); apply reads_lift. }
    apply (reads_step _ _ _ _ tt). { unfold require. rewrite Hflag in Hb. unfold has_parents in Hb. rewrite Hb. apply reads_lift. }
    unfold parent_indices in *. destruct (parent_snapshot_index (fst e)) as [primary|]; [|apply reads_ret].
    apply (reads_step _ _ _ _ tt). { unfold require. rewrite (proj2 (N.leb_le _ _)) by done. apply reads_lift. }
    eapply reads_step; [by apply reads_required|]. apply (reads_step _ _ _ _ (snapshot_file L)); [apply reads_lift|].
    apply (reads_step _ _ _ _ (N.of_nat (length es))).
    + apply reads_uncached. destruct (hs_records _ _ Hd) as (rows & Ht & Hall). pose proof (Forall2_length _ _ _ Hall) as Hlen.
      rewrite length_map in Hlen. pose proof (hs_count _ _ Hd). rewrite Hlen.
      apply (count_run fs (snapshot_file L) record_file Hrec snapshot_file_pos snapshot_file_max content_layout_max d rows Ht). lia.
    + apply reads_parent_loop; [done|done|by intros p _ ?%not_elem_of_empty|lia].
Qed.

Lemma reads_link i e : es !! i = Some e -> entry_live e = true -> reads_ (parent_link_at fs (N.of_nat i) (fst e)) (Ok (entry_link es e)).
Proof. intros He Hlive. unfold parent_link_at. eapply reads_step; [by eapply reads_parents|]. apply reads_ret. Qed.

Lemma entry_name_solid e : require_non_empty (entry_name e) = Ok tt.
Proof. unfold require_non_empty, entry_name, snapshot_name. by rewrite snapshot_id_trim, bool_decide_eq_false_2. Qed.

Lemma entry_name_hash i e : es !! i = Some e -> snapshot_hash48_from_id (entry_name e) = Ok (entry_hash e).
Proof. intros He. apply snapshot_id_roundtrip. by eapply entry_hash_lt. Qed.

Lemma reads_link_of i e : es !! i = Some e -> entry_live e = true -> reads_ (parent_link_of fs (entry_name e)) (Ok (Some (entry_link es e))).
Proof.
  intros He Hlive. unfold parent_link_of. apply (reads_step _ _ _ _ tt); [rewrite entry_name_solid; apply reads_lift|].
  eapply reads_step; [eapply reads_by_id; by eapply entry_name_hash|]. rewrite (find_live i e He Hlive).
  eapply reads_step; [by apply reads_link|apply reads_ret].
Qed.

(** *** Pages *)

(** The links of the live entries from place [i] to before place [j]. *)
Definition page_of (i j : nat) : list SnapshotParentLink :=
  map (entry_link es) (filter (fun e => entry_live e = true) (take (j - i) (drop i es))).

Lemma reads_links_between fuel i j : j = i + fuel -> j <= length es ->
  reads_ (links_between fs fuel (N.of_nat i) (N.of_nat j)) (Ok (page_of i j)).
Proof.
  revert i. induction fuel as [|fuel IH]; intros i -> Hj; cbn [links_between].
  - unfold page_of. replace (i + 0 - i) with 0 by lia. apply reads_ret.
  - rewrite (proj2 (N.leb_gt _ _)) by lia. destruct (lookup_lt_is_Some_2 es i) as [e He]; [lia|].
    eapply reads_step; [apply reads_entry; by rewrite Nat2N.id|]. replace (N.of_nat i + 1)%N with (N.of_nat (S i)) by lia.
    assert (page_of i (i + S fuel) = (if entry_live e then [entry_link es e] else []) ++ page_of (S i) (i + S fuel)) as ->.
    { unfold page_of. replace (i + S fuel - i) with (S (i + S fuel - S i)) by lia. rewrite (drop_S es e i He). cbn [take].
      rewrite filter_cons. destruct (decide (entry_live e = true)) as [->|Hn]; [done|]. by apply not_true_is_false in Hn as ->. }
    assert (snapshot_is_tombstone (fst e) = negb (entry_live e)) as -> by (unfold entry_live; by rewrite negb_involutive).
    destruct (entry_live e) eqn:Hlive; cbn [negb app]; [|apply IH; lia].
    eapply reads_step; [by apply reads_link|]. eapply reads_step; [apply IH; lia|]. apply reads_ret.
Qed.

Lemma reads_page cursor limit : (0 < limit)%N -> (cursor <= N.of_nat (length es))%N ->
  let end_ := N.min (cursor + limit) (N.of_nat (length es)) in
  reads_ (parent_link_page fs cursor limit)
    (Ok (mkPage (page_of (N.to_nat cursor) (N.to_nat end_)) (if (end_ <? N.of_nat (length es))%N then Some end_ else None))).
Proof.
  intros Hlimit Hcursor end_. pose proof (hs_count _ _ Hd) as Hcount. unfold parent_link_page.
  apply (reads_step _ _ _ _ tt). { unfold require. rewrite (proj2 (N.eqb_neq _ _)) by lia. apply reads_lift. }
  eapply reads_step; [apply reads_persisted|]. destruct record_file_cases as [[-> Hnil]|(data & n & -> & _)].
  { unfold page_of, end_. rewrite Hnil, N.min_0_r. cbn [length N.of_nat N.ltb N.compare]. rewrite drop_nil, take_nil. apply reads_ret. }
  apply (reads_step _ _ _ _ (snapshot_file L)); [apply reads_lift|]. apply (reads_step _ _ _ _ (N.of_nat (length es))).
  { apply reads_uncached. destruct (hs_records _ _ Hd) as (rows & Ht & Hall). pose proof (Forall2_length _ _ _ Hall) as Hlen.
    rewrite length_map in Hlen. rewrite Hlen.
    apply (count_run fs (snapshot_file L) record_file Hrec snapshot_file_pos snapshot_file_max content_layout_max d rows Ht). lia. }
  apply (reads_step _ _ _ _ tt). { unfold require. rewrite (proj2 (N.leb_le _ _)) by done. apply reads_lift. }
  assert (N.min (N.min (cursor + limit) usize_max) (N.of_nat (length es)) = end_) as -> by (unfold end_, usize_max, u32_max in *; lia).
  cbv zeta. apply (reads_step _ _ _ _ (page_of (N.to_nat cursor) (N.to_nat end_))); [|apply reads_ret].
  rewrite <- (N2Nat.id cursor) at 2. rewrite <- (N2Nat.id end_) at 2. apply reads_links_between; unfold end_; lia.
Qed.

(** *** Chains *)

(** The ids from a root along primary parents, ending at place [i]. *)
Inductive primary_chain : nat -> list string -> Prop :=
| chain_root i e : es !! i = Some e -> parent_snapshot_index (fst e) = None -> primary_chain i [entry_name e]
| chain_step i e p ids : es !! i = Some e -> parent_snapshot_index (fst e) = Some p -> primary_chain (N.to_nat p) ids ->
    primary_chain i (ids ++ [entry_name e]).

Lemma reads_primary_parent i e : es !! i = Some e -> entry_live e = true ->
  reads_ (snapshot_primary_parent_record fs (N.of_nat i) (fst e))
    (Ok (p ← parent_snapshot_index (fst e); e' ← es !! N.to_nat p; Some (p, fst e'))).
Proof.
  intros He Hlive. destruct (lo_live es Hok i e He Hlive) as [_ _ _ Hear]. pose proof (boundary_no_parents i e He) as Hb.
  unfold snapshot_primary_parent_record. destruct (is_remote_head_history_boundary (fst e)); cbn [andb] in Hb.
  - rewrite Hb. apply orb_false_iff in Hb as [Hp _]. destruct (parent_snapshot_index (fst e)); [done|].
    eapply reads_step; [apply reads_lift|apply reads_ret].
  - unfold parent_indices in Hear. destruct (parent_snapshot_index (fst e)) as [p|]; [|apply reads_ret].
    apply Forall_cons in Hear as [(Hlt & e' & He' & Hl') _]. cbn [mbind option_bind]. rewrite He'.
    apply (reads_step _ _ _ _ tt). { unfold require. rewrite (proj2 (N.ltb_lt _ _)) by lia. apply reads_lift. }
    eapply reads_step; [by apply reads_entry|]. apply (reads_step _ _ _ _ tt); [|apply reads_ret].
    unfold require. unfold entry_live in Hl'. rewrite Hl'. apply reads_lift.
Qed.

Lemma reads_chain fuel i e seen ordered : es !! i = Some e -> entry_live e = true -> i <= fuel -> (forall j, j ∈ seen -> i < N.to_nat j) ->
  exists ids, primary_chain i ids /\ reads_ (chain_from fs fuel seen (N.of_nat i) (fst e) ordered) (Ok (ids ++ rev ordered)).
Proof.
  revert i e seen ordered. induction fuel as [|fuel IH]; intros i e seen ordered He Hlive Hfuel Hseen.
  all: destruct (lo_live es Hok i e He Hlive) as [_ _ _ Hear]; unfold parent_indices in Hear.
  all: pose proof (reads_primary_parent i e He Hlive) as Hpar; destruct (parent_snapshot_index (fst e)) as [p|] eqn:Hp.
  1: apply Forall_cons in Hear as [(Hlt & _) _]; lia.
  2: apply Forall_cons in Hear as [(Hlt & e' & He' & Hl') _];
    destruct (IH (N.to_nat p) e' ({[N.of_nat i]} ∪ seen) (ordered ++ [entry_name e])) as (ids & Hids & Hrun); [done|done|lia| |].
  2: { intros j [Hj|Hj]%elem_of_union; [apply elem_of_singleton in Hj; lia|]. specialize (Hseen j Hj). lia. }
  1, 3: exists [entry_name e]; split; [by apply (chain_root i e)|].
  3: exists (ids ++ [entry_name e]); split; [by apply (chain_step i e p)|].
  all: cbn [chain_from]; apply (reads_step _ _ _ _ tt);
    [unfold require; rewrite bool_decide_eq_false_2 by (intros Hj; specialize (Hseen _ Hj); lia); apply reads_lift|].
  all: eapply reads_step; [exact Hpar|]; cbn [mbind option_bind].
  1, 2: fold (entry_name e); rewrite rev_app_distr; apply reads_ret.
  rewrite He'. fold (entry_name e). rewrite rev_app_distr in Hrun. cbn [rev app] in Hrun. rewrite N2Nat.id in Hrun.
  rewrite <- app_assoc. exact Hrun.
Qed.
End Reading.
End Log.

Arguments hs_records {_ _ _ _ _} _.
Arguments hs_count {_ _ _ _ _} _.
Arguments hs_header {_ _ _ _ _} _.
Arguments hs_space {_ _ _ _ _} _.
Arguments hs_payloads {_ _ _ _ _} _.
Arguments hs_index {_ _ _ _ _} _.
