(* ===== verification/SnapshotAppend.v ===== *)
(** * Writing snapshots

    Appends to the store of [ContentStore] in a write transaction: every append
    adds an entry to the log of [SnapshotLog], and a history of appends that is
    committed leaves the log with its snapshots. *)

From Stdlib Require Import NArith Lia.
From Stdlib Require Strings.Byte.
From stdpp Require Import base numbers strings gmap list sorting.
From S2P Require Import Prelude Codec SnapshotStore FileStore BinaryDb RecordTable BinaryIndex ReadTxn WriteTxn PayloadFile QuietTxn ContentIds ContentCodec ContentStore SnapshotLog.

Local Abbreviation L := BINARY_DB_CONTENT_LAYOUT_ID.

Section Append.
Context (fs : LocalBinaryDbFs) (record_file payload_file index_file : PathBuf).
Context (Hrec : file_path_for fs SNAPSHOT_BIN = Ok record_file).
Context (Hpay : file_path_for fs SNAPSHOT_PAYLOAD_BIN = Ok payload_file).
Context (Hidx : file_path_for fs SNAPSHOT_ID_IDX = Ok index_file).
Context {du : gmap PathBuf bytes}.
Implicit Types (d : gmap PathBuf bytes) (es : list entry) (e : entry).

Local Abbreviation holds_snapshots := (holds_snapshots record_file payload_file index_file).
Local Abbreviation payload_data := (payload_data payload_file).

(** The transactions that write to the three files of the store. *)
Local Abbreviation paths := [record_file; payload_file; index_file].
Local Abbreviation indexes := [(snapshot_id_index L, index_file)].
Local Abbreviation works := (works paths indexes (du := du)).

Lemma indexes_named : Forall (fun ip => file_path_for fs (index_path (fst ip)) = Ok (snd ip)) indexes.
Proof. by repeat constructor. Qed.
Lemma indexes_apart : NoDup (map snd indexes).
Proof. apply NoDup_singleton. Qed.

Lemma index_content_other d d' m : d' !! index_file = d !! index_file ->
  index_content (snapshot_id_index L) index_file d m -> index_content (snapshot_id_index L) index_file d' m.
Proof. intros H. unfold index_content, index_data. by rewrite H. Qed.

(** *** The three files are different *)

Lemma distinct_files : record_file <> payload_file /\ record_file <> index_file /\ payload_file <> index_file.
Proof. split_and!; by eapply names_apart. Qed.

(** *** The payload *)

(** The size of a payload on disk. *)
Definition payload_size (p : BinarySnapshotPayload) : nat :=
  extension_len (additional_parent_snapshot_indices p) + 2 + length (bytes_of_string (default EmptyString (message p)))
    + length (bytes_of_string (line_name p)).
Definition stored_payload (p : BinarySnapshotPayload) : BinarySnapshotPayload :=
  mkPayload (line_name p) (stored_message (message p)) (additional_parent_snapshot_indices p).

(** *** The three writes of an append *)

Lemma works_append_payload d es raw : holds_snapshots d es -> raw <> [] -> (N.of_nat (length raw) <= u32_max)%N ->
  works d (txn_append_payload fs (snapshot_payload_file L) raw)
    (mkPayloadRange (N.of_nat (length (payload_data d))) (N.of_nat (length raw))) (<[payload_file := payload_data d ++ raw]> d).
Proof.
  intros Hd Hne Hraw. destruct distinct_files as (_ & _ & Hpi). apply works_payload; [done|done|set_solver|set_solver| |done|done]. by eapply snapshots_payload.
Qed.

Lemma works_append_record d rows row : holds_table (snapshot_file L) record_file d rows -> (N.of_nat (length rows) <= u32_max)%N ->
  length row = SNAPSHOT_RECORD_SIZE ->
  works d (txn_append_record fs (snapshot_file L) row) (N.of_nat (length rows))
    (<[record_file := table_bytes (snapshot_file L) (rows ++ [row])]> d).
Proof.
  intros Ht Hcount Hrow. destruct distinct_files as (_ & Hri & _). apply works_record; [done|done|by split|done|set_solver|set_solver|done|done|by rewrite Hrow].
Qed.

(** The bytes of the index with one more entry. *)
Definition indexed (d : gmap PathBuf bytes) (h i : N) : gmap PathBuf bytes :=
  <[index_file := default (to_le_bytes 4 L) (d !! index_file) ++ to_le_bytes 8 h ++ to_le_bytes 4 (i + 1)]> d.

Lemma snapshot_candidate_bytes h i : (i < u32_max)%N ->
  candidate_bytes (snapshot_id_index L) (to_le_bytes 8 h) i = Ok (to_le_bytes 8 h ++ to_le_bytes 4 (i + 1)).
Proof.
  intros Hi. unfold candidate_bytes. cbn [snapshot_id_index fixed_key_size stores_record_index_plus_one]. rewrite length_to_le_bytes.
  change (negb (N.of_nat 8 =? 8)%N) with false. cbn [fail_if mbind result_bind]. by rewrite (proj2 (N.leb_gt _ _)) by done.
Qed.

Lemma works_append_candidate d m h i : index_content (snapshot_id_index L) index_file d m -> (i < u32_max)%N ->
  works d (txn_append_index_candidate fs (snapshot_id_index L) (to_le_bytes 8 h) i) tt (indexed d h i) /\
    index_content (snapshot_id_index L) index_file (indexed d h i) (push_candidate (to_le_bytes 8 h) i m).
Proof.
  intros Hm Hi. apply (works_candidate fs paths indexes indexes_named indexes_apart d (snapshot_id_index L)); [set_solver|done|set_solver|done|done|lia|].
  by apply snapshot_candidate_bytes.
Qed.

(** *** The flags of a placed record *)

Lemma has_bits_set meta bit b : (exists k, bit = N.shiftl 1 k) -> has_bits (set_bit meta bit b) bit = b.
Proof.
  intros [k ->]. unfold has_bits, set_bit. destruct b.
  - apply negb_true_iff, N.eqb_neq. intros H. apply (f_equal (fun n => N.testbit n k)) in H.
    rewrite N.land_spec, N.lor_spec, N.shiftl_1_l, N.pow2_bits_true, orb_true_r, N.bits_0 in H. done.
  - apply negb_false_iff, N.eqb_eq. apply N.bits_inj_iff. intros j. rewrite N.land_spec, N.ldiff_spec, N.bits_0.
    destruct (N.testbit (N.shiftl 1 k) j); [by rewrite andb_false_r|by rewrite andb_false_r].
Qed.

Lemma has_bits_set_other meta bit b bit' : N.land bit bit' = 0%N -> has_bits (set_bit meta bit b) bit' = has_bits meta bit'.
Proof.
  intros H. unfold has_bits, set_bit. do 2 f_equal. apply N.bits_inj_iff. intros j.
  assert (N.testbit bit j && N.testbit bit' j = false) as Hj by (by rewrite <- N.land_spec, H, N.bits_0).
  destruct b; rewrite !N.land_spec, ?N.lor_spec, ?N.ldiff_spec; destruct (N.testbit meta j), (N.testbit bit j), (N.testbit bit' j); done.
Qed.

Lemma place_payload_flags r p off len :
  has_additional_parents (place_payload r p off len) = has_parents p /\
  has_line_name_payload (place_payload r p off len) = negb (bool_decide (line_name p = EmptyString)) /\
  snapshot_is_tombstone (place_payload r p off len) = snapshot_is_tombstone r.
Proof.
  unfold has_additional_parents, has_line_name_payload, snapshot_is_tombstone, place_payload. cbn [snapshot_meta]. split_and!.
  - apply has_bits_set. by exists 4%N.
  - rewrite has_bits_set_other by done. apply has_bits_set. by exists 3%N.
  - by rewrite !has_bits_set_other by done.
Qed.

(** A record that is valid with its payload in front is valid with its payload
    anywhere. *)
Lemma record_ok_place r p len off : record_ok L (place_payload r p 4 len) -> (4 <= off)%N -> fits 8 off -> record_ok L (place_payload r p off len).
Proof.
  intros (H1 & H2 & H3 & _ & H5 & H6 & H7 & H8 & H9 & H10 & H11 & H12 & H13 & Hv) Hoff Hfit.
  cbn [record_ok snapshot_codec]. split_and!; try done.
  unfold validate_snapshot_record in *. cbn [place_payload payload_len payload_offset] in *.
  rewrite (proj2 (N.ltb_ge off 4)) by done. rewrite (proj2 (N.ltb_ge 4 4)) in Hv by done. exact Hv.
Qed.

(** *** Appending *)

(** What a caller of [append_snapshot] has to see to: the fields and the texts
    fit, the snapshot is live and new, and its parents are earlier snapshots. *)
Record input_ok (es : list entry) (r : BinarySnapshotRecord) (p : BinarySnapshotPayload) : Prop := {
  in_payload : payload_ok (negb (bool_decide (line_name p = EmptyString))) p;
  in_record : record_ok L (place_payload r p 4 (N.of_nat (payload_size p)));
  in_live : snapshot_is_tombstone r = false;
  in_new : forall i e, es !! i = Some e -> entry_live e = true -> entry_hash e <> snapshot_hash48 r;
  in_distinct : NoDup (parent_indices (r, p));
  in_earlier : Forall (fun i => exists e, es !! N.to_nat i = Some e /\ entry_live e = true) (parent_indices (r, p))
}.

(** The entry behind a payload file of [off] bytes. *)
Definition stored_entry (off : N) (r : BinarySnapshotRecord) (p : BinarySnapshotPayload) : entry :=
  (place_payload r p off (N.of_nat (payload_size p)), stored_payload p).

Lemma stored_parents off r p : parent_indices (stored_entry off r p) = parent_indices (r, p).
Proof. done. Qed.

Lemma log_ok_snoc es off r p : log_ok es -> input_ok es r p -> (4 <= off)%N -> fits 8 off -> log_ok (es ++ [stored_entry off r p]).
Proof.
  intros [Hr Hl Hh] [Hpay' Hrec' Hlive Hnew Hnd Hear] Hoff Hfit.
  assert (forall i e, (es ++ [stored_entry off r p]) !! i = Some e -> es !! i = Some e \/ i = length es /\ e = stored_entry off r p) as Hcase.
  { intros i e [He|[Hi He]]%lookup_app_Some; [by left|]. right. destruct (i - length es) as [|k] eqn:Hk; [|done]. injection He as <-. split; [lia|done]. }
  assert (entry_hash (stored_entry off r p) = snapshot_hash48 r) as Hhash by done. split.
  - apply Forall_app. split; [done|]. apply Forall_singleton. by apply record_ok_place.
  - intros i e He Hlive'. destruct (Hcase i e He) as [He'|[-> ->]].
    + destruct (Hl i e He' Hlive') as [H1 H2 H3 H4]. split; try done. eapply Forall_impl; [exact H4|].
      intros q (Hq & e' & Hqe & Hle). split; [done|]. exists e'. split; [by apply lookup_app_l_Some|done].
    + destruct (place_payload_flags r p off (N.of_nat (payload_size p))) as (Hf & _ & _). split; [exact Hf| |done|].
      * rewrite stored_parents. unfold parent_indices. cbn [fst snd]. destruct (parent_snapshot_index r); cbn [length]; [|done].
        destruct Hpay' as [_ _ _ _ Hcount _]. unfold MAX_SNAPSHOT_PARENT_COUNT in *. lia.
      * rewrite stored_parents. eapply Forall_impl; [exact Hear|]. intros q (e' & Hq & Hle).
        split; [by apply lookup_lt_Some in Hq|]. exists e'. split; [by apply lookup_app_l_Some|done].
  - intros i j e e' He He' Hle Hle' Heq. destruct (Hcase i e He) as [Hi|[-> ->]], (Hcase j e' He') as [Hj|[-> ->]].
    + by apply (Hh i j e e').
    + rewrite Hhash in Heq. by destruct (Hnew i e Hi Hle).
    + rewrite Hhash in Heq. by destruct (Hnew j e' Hj Hle').
    + done.
Qed.

(** The files after an append. *)
Definition appended (d : gmap PathBuf bytes) (es : list entry) (rows : list bytes) (raw row : bytes) (e : entry) : gmap PathBuf bytes :=
  indexed (<[record_file := table_bytes (snapshot_file L) (rows ++ [row])]> (<[payload_file := payload_data d ++ raw]> d))
    (entry_hash e) (N.of_nat (length es)).

Lemma holds_appended d es rows raw row e : holds_snapshots d es -> holds_table (snapshot_file L) record_file d rows ->
  Forall2 (fun r row => encode_record L r = Ok row) (map fst es) rows -> encode_snapshot_record L (fst e) = Ok row ->
  length row = SNAPSHOT_RECORD_SIZE -> (entry_hash e < 2 ^ 48)%N -> Forall (fun e => (entry_hash e < 2 ^ 48)%N) es ->
  payload_stored (payload_data d ++ raw) e -> (N.of_nat (length es) < u32_max)%N -> (N.of_nat (length (payload_data d ++ raw)) <= usize_max)%N ->
  holds_snapshots (appended d es rows raw row e) (es ++ [e]) /\ payload_data (appended d es rows raw row e) = payload_data d ++ raw /\
  (forall path, path <> record_file -> path <> payload_file -> path <> index_file -> appended d es rows raw row e !! path = d !! path).
Proof.
  intros Hd Ht Hall Henc Hrow Hh Hhs Hstored Hcount Hspace. destruct distinct_files as (Hrp & Hri & Hpi).
  destruct (hs_index Hd) as (m & Hm & Hpos). pose proof (hs_header Hd) as [Hhead Hlayout].
  assert (payload_data (appended d es rows raw row e) = payload_data d ++ raw /\ is_Some (appended d es rows raw row e !! payload_file)) as [Hdata Hsome].
  { unfold payload_data at 1, payload_contents at 1, appended, indexed. rewrite lookup_insert_ne, lookup_insert_ne, lookup_insert_eq by done. split; [done|by eexists]. }
  split_and!; [|exact Hdata|intros path H1 H2 H3; unfold appended, indexed; by rewrite !lookup_insert_ne]. split; rewrite ?Hdata.
  - exists (rows ++ [row]). split.
    + destruct Ht as [Hs _]. split; [by apply Forall_app; split; [|apply Forall_singleton; rewrite Hrow]|].
      left. unfold appended, indexed. rewrite lookup_insert_ne by done. apply lookup_insert_eq.
    + rewrite map_app. apply Forall2_app; [done|]. by constructor.
  - rewrite length_app. cbn [length]. lia.
  - split; [rewrite length_app; lia|]. by rewrite take_app_le by done.
  - done.
  - apply Forall_app. split; [|by apply Forall_singleton].
    eapply Forall_impl; [exact (hs_payloads Hd)|]. intros e' [_ (H1 & H2 & H3)]. split; [done|]. split_and!; [done|rewrite length_app; lia|].
    rewrite <- H3. f_equal. rewrite drop_app_le by lia. apply take_app_le. rewrite length_drop. lia.
  - eexists. split.
    { refine (proj2 (works_append_candidate _ m _ _ _ Hcount)). apply (index_content_other d); [by rewrite !lookup_insert_ne by done|exact Hm]. }
    intros h Hlt. rewrite push_candidate_lookup, positions_snoc, Hpos by done. destruct (decide (entry_hash e = h)) as [He|Hne].
    + rewrite !bool_decide_eq_true_2 by (by rewrite ?He). done.
    + rewrite !bool_decide_eq_false_2; [by rewrite app_nil_r|done|]. intros Heq%to_le_bytes_inj; [done|..].
      all: change (256 ^ N.of_nat 8)%N with 18446744073709551616%N; change (2 ^ 48)%N with 281474976710656%N in *; lia.
Qed.

Lemma stored_entry_payload d r p raw : payload_ok (negb (bool_decide (line_name p = EmptyString))) p -> encode_payload L p = Ok raw ->
  4 <= length (payload_data d) -> length raw = payload_size p /\
  payload_stored (payload_data d ++ raw) (stored_entry (N.of_nat (length (payload_data d))) r p).
Proof.
  intros Hp Hraw Hhead. destruct (payload_encodes _ p Hp) as (raw' & Hraw' & Hlen & _ & Hdec). rewrite Hraw in Hraw'. injection Hraw' as <-.
  change (length raw = payload_size p) in Hlen. split; [done|].
  destruct (place_payload_flags r p (N.of_nat (length (payload_data d))) (N.of_nat (payload_size p))) as (Hf1 & Hf2 & _).
  unfold payload_stored, stored_entry. cbn [fst snd]. rewrite Hf1, Hf2. cbn [place_payload payload_offset payload_len].
  split_and!; [lia|rewrite length_app; lia|]. rewrite !Nat2N.id, drop_app_length, <- Hlen, firstn_all. exact Hdec.
Qed.

(** An append in an open transaction: the index it returns is the place of the
    new entry, the files hold the longer log, and no other file is touched. *)
Lemma append_snapshot_works d es r p : holds_snapshots d es -> log_ok es -> input_ok es r p ->
  (N.of_nat (length es) < u32_max)%N -> (N.of_nat (length (payload_data d)) + 65535 <= usize_max)%N ->
  let e := stored_entry (N.of_nat (length (payload_data d))) r p in
  exists d', works d (append_snapshot_with_id_index fs L r p) (N.of_nat (length es), entry_name e, fst e) d' /\
    holds_snapshots d' (es ++ [e]) /\ log_ok (es ++ [e]) /\ length (payload_data d') = length (payload_data d) + payload_size p /\
    (forall path, path <> record_file -> path <> payload_file -> path <> index_file -> d' !! path = d !! path).
Proof.
  intros Hd Hok Hin Hcount Hspace e. pose proof Hin as [Hpay' Hrec' Hlive Hnew Hnd Hear]. pose proof (hs_header Hd) as [Hhead _].
  destruct (payload_encodes _ p Hpay') as (raw & Hraw & _ & _ & _).
  destruct (stored_entry_payload d r p raw Hpay' Hraw Hhead) as [Hlen Hstored]. fold e in Hstored.
  assert (2 <= payload_size p /\ (N.of_nat (payload_size p) <= 65535)%N) as [Hmin Hmax].
  { destruct Hpay' as [_ _ _ _ _ Hsize]. unfold payload_size. lia. }
  assert (log_ok (es ++ [e])) as Hok'.
  { apply log_ok_snoc; [done|done|lia|]. unfold fits. change (256 ^ N.of_nat 8)%N with 18446744073709551616%N. unfold usize_max in Hspace. lia. }
  assert ((es ++ [e]) !! length es = Some e) as Hlast by (by apply list_lookup_middle).
  destruct (hs_records Hd) as (rows & Ht & Hall). pose proof (Forall2_length _ _ _ Hall) as Hrows. rewrite length_map in Hrows.
  destruct (encode_decode L (fst e)) as (row & Hrow & Hrowlen & _); [reflexivity|exact (record_ok_entry _ Hok' _ _ Hlast)|].
  change (encode_snapshot_record L (fst e) = Ok row) in Hrow. change (length row = SNAPSHOT_RECORD_SIZE) in Hrowlen.
  destruct (holds_appended d es rows raw row e Hd Ht Hall Hrow Hrowlen) as (Hheld & Hdata & Hother); [..|done|done| |].
  { by eapply (entry_hash_lt (es ++ [e]) Hok'). }
  { apply Forall_lookup_2. intros i e' He'. by apply (entry_hash_lt es Hok i). }
  { rewrite length_app. lia. }
  exists (appended d es rows raw row e). split_and!; [|exact Hheld|exact Hok'|by rewrite Hdata, length_app, Hlen|exact Hother].
  destruct distinct_files as (Hrp & Hri & Hpi). set (d1 := <[payload_file := payload_data d ++ raw]> d).
  set (d2 := <[record_file := table_bytes (snapshot_file L) (rows ++ [row])]> d1). destruct (hs_index Hd) as (m & Hm & _).
  apply (works_bind _ _ _ d2 _ _ _ (N.of_nat (length es), entry_name e, fst e)).
  - apply (works_bind _ _ _ d1 _ _ _ (mkPayloadRange (N.of_nat (length (payload_data d))) (N.of_nat (length raw)))).
    + eapply works_bind; [apply works_lift; by rewrite Hraw|]. apply (works_append_payload d es); [done|intros ->; cbn in Hlen; lia|unfold u32_max; lia].
    + eapply works_bind; [apply (works_lift _ _ _ _ tt); apply fail_if_Ok; apply negb_false_iff, N.leb_le; cbn; lia|].
      cbn [payload_range_offset payload_range_len]. rewrite Hlen.
      change (place_payload r p (N.of_nat (length (payload_data d))) (N.of_nat (payload_size p))) with (fst e).
      apply (works_bind _ _ _ d2 _ _ _ (N.of_nat (length es))); [|apply works_ret].
      eapply works_bind; [apply works_lift; by rewrite Hrow|]. rewrite Hrows. apply works_append_record; [|lia|done].
      destruct Ht as [Hs Ht]. split; [done|]. unfold d1. by rewrite lookup_insert_ne by done.
  - eapply (works_bind _ _ _ (appended d es rows raw row e) _ _ _ tt); [|apply works_ret]. unfold append_snapshot_id_index.
    eapply works_bind; [apply works_lift; unfold snapshot_id_index_key; rewrite (entry_name_hash _ Hok' _ _ Hlast); done|].
    apply (works_append_candidate d2 m); [|done]. apply (index_content_other d); [|done]. unfold d2, d1. by rewrite !lookup_insert_ne by done.
Qed.

(** *** A history in one transaction *)

Lemma snapshot_files_there d es : holds_snapshots d es -> log_ok es -> es <> [] -> forall p, p ∈ paths -> is_Some (d !! p).
Proof.
  intros Hd Hok Hne p Hp. destruct es as [|e es]; [done|]. destruct Hd as [Hrecs _ _ _ Hpays Hindex].
  rewrite !elem_of_cons in Hp. destruct Hp as [->|[->|[->|Hp%elem_of_nil]]]; [| | |done].
  - destruct Hrecs as (rows & [_ [->|[_ ->]]] & Hall); [by eexists|by inversion Hall].
  - by apply Forall_cons in Hpays as [[? _] _].
  - destruct Hindex as (m & (data & Hdata & Hm) & Hpos). unfold index_data in Hdata. destruct (d !! index_file); [by eexists|].
    injection Hdata as <-. injection Hm as <-. specialize (Hpos (entry_hash e) (entry_hash_lt _ Hok 0 e eq_refl)).
    cbn [positions] in Hpos. by rewrite lookup_empty, N.eqb_refl in Hpos.
Qed.

(** Appending the snapshots of a history, oldest first. *)
Definition append_history (inputs : list (BinarySnapshotRecord * BinarySnapshotPayload)) : txn unit :=
  for_each (fun input => _ ← append_snapshot_with_id_index fs L (fst input) (snd input); mret tt) inputs.

(** The entries they become behind a payload file of [off] bytes. *)
Fixpoint stored_entries (off : N) (inputs : list (BinarySnapshotRecord * BinarySnapshotPayload)) : list entry :=
  match inputs with
  | [] => []
  | (r, p) :: inputs => stored_entry off r p :: stored_entries (off + N.of_nat (payload_size p)) inputs
  end.

Fixpoint inputs_ok (es : list entry) (off : N) (inputs : list (BinarySnapshotRecord * BinarySnapshotPayload)) : Prop :=
  match inputs with
  | [] => True
  | (r, p) :: inputs => input_ok es r p /\ inputs_ok (es ++ [stored_entry off r p]) (off + N.of_nat (payload_size p)) inputs
  end.

Lemma append_history_works d es inputs : let off := N.of_nat (length (payload_data d)) in
  holds_snapshots d es -> log_ok es -> inputs_ok es off inputs -> (N.of_nat (length es + length inputs) <= u32_max)%N ->
  (off + 65535 * N.of_nat (length inputs) <= usize_max)%N ->
  exists d', works d (append_history inputs) tt d' /\ holds_snapshots d' (es ++ stored_entries off inputs) /\ log_ok (es ++ stored_entries off inputs) /\
    (forall path, path <> record_file -> path <> payload_file -> path <> index_file -> d' !! path = d !! path).
Proof.
  intros off. unfold off. clear off. revert d es. induction inputs as [|[r p] inputs IH]; intros d es Hd Hok Hin Hcount Hspace.
  - exists d. cbn [stored_entries]. rewrite app_nil_r. split_and!; [apply works_ret|done..].
  - cbn [inputs_ok stored_entries length] in *. destruct Hin as [Hin Hrest].
    destruct (append_snapshot_works d es r p Hd Hok Hin) as (d1 & Hworks & Hd1 & Hok1 & Hlen1 & Hother1); [lia|lia|].
    assert (N.of_nat (length (payload_data d1)) = (N.of_nat (length (payload_data d)) + N.of_nat (payload_size p))%N) as Hoff by lia.
    assert (N.of_nat (payload_size p) <= 65535)%N as Hsize.
    { destruct Hin as [[_ _ _ _ _ Hsize] _ _ _ _ _]. unfold payload_size. lia. }
    rewrite <- Hoff in *. destruct (IH d1 _ Hd1 Hok1 Hrest) as (d' & Hw & Hd' & Hok' & Hother'); [rewrite length_app; cbn [length]; lia|lia|].
    rewrite <- app_assoc in Hd', Hok'. exists d'. split_and!; [|exact Hd'|exact Hok'|].
    + unfold append_history. cbn [for_each fst snd]. eapply works_bind; [|exact Hw]. eapply works_bind; [exact Hworks|apply works_ret].
    + intros path H1 H2 H3. by rewrite Hother', Hother1.
Qed.

Lemma holds_nothing d : d !! record_file = None -> d !! payload_file = None -> d !! index_file = None -> holds_snapshots d [].
Proof.
  intros H1 H2 H3. split.
  - exists []. split; [split; [constructor|by right]|constructor].
  - by vm_compute.
  - unfold payload_data, payload_contents. rewrite H2. split; [done|]. by vm_compute.
  - unfold payload_data, payload_contents. rewrite H2. by vm_compute.
  - constructor.
  - exists ∅. split; [|done]. exists None. split; [unfold index_data; by rewrite H3|done].
Qed.

Lemma log_nothing : log_ok [].
Proof. split; [constructor|intros i e; by rewrite lookup_nil|intros i j e e'; by rewrite lookup_nil]. Qed.

(** C8. A history is written by one transaction: on files that hold a log, a
    transaction of a command for snapshots that appends the snapshots of a
    history, oldest first, and commits, succeeds; afterwards the files hold the
    log with the new entries behind the old ones, every new snapshot at the
    index where its children look for it, and no other file has changed. *)
Theorem history_written d es inputs locks : let off := N.of_nat (length (payload_data d)) in
  holds_snapshots d es -> log_ok es -> inputs_ok es off inputs -> es ++ inputs <> [] ->
  (N.of_nat (length es + length inputs) <= u32_max)%N -> (off + 65535 * N.of_nat (length inputs) <= usize_max)%N ->
  exists o t', (_ ← append_history inputs; commit) (begin SnapshotWrite locks (mkIo du d [])) = (Ok o, t') /\ finished t' = true /\
    holds_snapshots (disk (files t')) (es ++ stored_entries off inputs) /\ log_ok (es ++ stored_entries off inputs) /\
    (forall path, path <> record_file -> path <> payload_file -> path <> index_file -> disk (files t') !! path = d !! path).
Proof.
  intros off Hd Hok Hin Hne Hcount Hspace. destruct (append_history_works d es inputs Hd Hok Hin Hcount Hspace) as (d' & Hw & Hd' & Hok' & Hother).
  destruct (begin_calm paths indexes (du := du) SnapshotWrite locks d eq_refl) as [Hcalm _]. destruct (Hw _ Hcalm) as (t1 & Hrun & Ht1).
  destruct (commit_quiet paths indexes t1 d' Ht1) as (o & t' & du' & Hcommit & Hfiles & Hfin).
  { apply (snapshot_files_there d' _ Hd' Hok'). intros [-> Hnil]%app_eq_nil. destruct inputs as [|[r p] inputs]; [done|]. discriminate. }
  exists o, t'. rewrite Hfiles. split_and!; [by erewrite bind_run by exact Hrun|done..].
Qed.
End Append.

(** ** An example *)

Section Example_history.

Definition example_db : LocalBinaryDbFs := mkDb [RootDir; Normal "db"%string] None None None.
Definition example_file (name : string) : PathBuf := [RootDir; Normal "db"%string; Normal name].

Definition example_record (hash parent_plus1 : N) : BinarySnapshotRecord :=
  mkSnapshotRecord 0 0 0 0 hash parent_plus1 0 0 0 (replicate 32 Byte.x00) 1 20 1700000000.

(** A root, two snapshots on it, and their merge. *)
Definition example_inputs : list (BinarySnapshotRecord * BinarySnapshotPayload) :=
  [(example_record 10 0, mkPayload "main" (Some "root"%string) []);
   (example_record 11 1, mkPayload "main" None []);
   (example_record 12 1, mkPayload "topic" (Some ""%string) []);
   (example_record 13 2, mkPayload "main" (Some "merge"%string) [2%N])].

(** Only finitely many entries can stand in the way. *)
Lemma new_hash (es : list entry) r : Forall (fun e => entry_hash e <> snapshot_hash48 r) es ->
  forall i e, es !! i = Some e -> entry_live e = true -> entry_hash e <> snapshot_hash48 r.
Proof. intros H i e He _. exact (Forall_lookup_1 _ _ _ _ H He). Qed.

Lemma example_inputs_ok : inputs_ok [] 4 example_inputs.
Proof.
  cbn [inputs_ok example_inputs app].
  split_and!; try exact I; (split;
    [split; cbn [line_name message additional_parent_snapshot_indices]; [reflexivity|discriminate|by intros m [= <-]|by repeat constructor|reflexivity|by vm_compute]
    |unfold record_ok, snapshot_codec, fits; split_and!; by vm_compute
    |reflexivity
    |apply new_hash; repeat constructor; by vm_compute
    |vm_compute; repeat constructor; set_solver
    |vm_compute; repeat constructor; by eexists]).
Qed.

(** The example history of [example_inputs], written to an empty directory. *)
Lemma example_repository : exists d, holds_snapshots (example_file SNAPSHOT_BIN) (example_file SNAPSHOT_PAYLOAD_BIN) (example_file SNAPSHOT_ID_IDX) d (stored_entries 4 example_inputs) /\
  log_ok (stored_entries 4 example_inputs).
Proof.
  destruct (append_history_works example_db (example_file SNAPSHOT_BIN) (example_file SNAPSHOT_PAYLOAD_BIN) (example_file SNAPSHOT_ID_IDX) eq_refl eq_refl eq_refl (du := ∅) ∅ [] example_inputs)
    as (d & _ & Hd & Hok & _).
  - apply holds_nothing; reflexivity.
  - apply log_nothing.
  - exact example_inputs_ok.
  - by vm_compute.
  - by vm_compute.
  - by exists d.
Qed.

Lemma history_written_witness :
  exists o t', (_ ← append_history example_db example_inputs; commit) (begin SnapshotWrite (mkLocks [false; false] false) (mkIo ∅ ∅ [])) = (Ok o, t') /\
    finished t' = true /\
    holds_snapshots (example_file SNAPSHOT_BIN) (example_file SNAPSHOT_PAYLOAD_BIN) (example_file SNAPSHOT_ID_IDX) (disk (files t')) (stored_entries 4 example_inputs).
Proof.
  destruct (history_written example_db (example_file SNAPSHOT_BIN) (example_file SNAPSHOT_PAYLOAD_BIN) (example_file SNAPSHOT_ID_IDX)
    eq_refl eq_refl eq_refl (du := ∅) ∅ [] example_inputs (mkLocks [false; false] false)) as (o & t' & Hrun & Hfin & Hholds & _).
  - apply holds_nothing; reflexivity.
  - apply log_nothing.
  - exact example_inputs_ok.
  - discriminate.
  - by vm_compute.
  - by vm_compute.
  - exists o, t'. split; [exact Hrun|]. split; [exact Hfin|]. exact Hholds.
Defined.
End Example_history.
