(* ===== verification/SnapshotKind.v ===== *)
(** * Changing the kind of a snapshot

    [update_snapshot_kind] of [ContentStore] on the log of [SnapshotLog]: the
    record of the newest live snapshot with the name is overwritten in place. *)

From Stdlib Require Import NArith Lia.
From Stdlib Require Strings.Byte.
From stdpp Require Import base numbers strings gmap list sorting.
From S2P Require Import Prelude Codec SnapshotStore FileStore BinaryDb RecordTable BinaryIndex ReadTxn WriteTxn PayloadFile QuietTxn ContentIds ContentCodec ContentStore.
From S2P Require Import SnapshotLog SnapshotAppend.

Local Abbreviation L := BINARY_DB_CONTENT_LAYOUT_ID.
Implicit Types (es : list entry) (e : entry).

(** ** The bits of a kind *)

Lemma has_bits_kind r bits mask : (bits < 2)%N -> N.land mask META_KIND_MASK = 0%N ->
  has_bits (N.lor (N.ldiff (snapshot_meta r) META_KIND_MASK) bits) mask = has_bits (snapshot_meta r) mask.
Proof.
  intros Hbits Hmask. unfold has_bits. do 2 f_equal. apply N.bits_inj_iff. intros j.
  assert (N.testbit mask j && N.testbit META_KIND_MASK j = false) as Hj by (by rewrite <- N.land_spec, Hmask, N.bits_0).
  assert (N.testbit mask j = true -> N.testbit bits j = false) as Hb.
  { intros Hm. rewrite Hm in Hj. cbn [andb] in Hj. destruct (N.eq_dec j 0%N) as [->|Hne]; [by vm_compute in Hj|].
    apply N.bits_above_log2. destruct (N.eq_dec bits 0%N) as [->|]; [cbn; lia|]. assert (bits = 1%N) as -> by lia. cbn. lia. }
  rewrite !N.land_spec, N.lor_spec, N.ldiff_spec. destruct (N.testbit mask j) eqn:Hm; [|by rewrite !andb_false_r].
  rewrite (Hb eq_refl). cbn [andb] in Hj. rewrite Hj. cbn [negb]. by rewrite !andb_true_r, orb_false_r.
Qed.

Lemma with_kind_meta_fits r bits : fits 1 (snapshot_meta r) -> (bits < 2)%N -> fits 1 (snapshot_meta (with_kind r bits)).
Proof.
  unfold fits. cbn [with_kind snapshot_meta]. change (256 ^ N.of_nat 1)%N with (2 ^ 8)%N. intros Hm Hb.
  assert (forall a, (forall j, (8 <= j)%N -> N.testbit a j = false) -> (a < 2 ^ 8)%N) as Hlt.
  { intros a Ha. destruct (N.lt_ge_cases a (2 ^ 8)%N) as [|Hge]; [done|]. assert (a <> 0)%N as Hne by (intros ->; by vm_compute in Hge).
    specialize (Ha (N.log2 a)). rewrite N.bit_log2 in Ha by done. discriminate Ha. change 8%N with (N.log2 (2 ^ 8)%N). by apply N.log2_le_mono. }
  apply Hlt. intros j Hj. assert (forall a, (a < 2 ^ 8)%N -> N.testbit a j = false) as Hhigh.
  { intros a Ha. destruct (N.eq_dec a 0%N) as [->|Hne]; [apply N.bits_0|]. apply N.bits_above_log2.
    apply N.lt_le_trans with 8%N; [|done]. apply N.log2_lt_pow2; lia. }
  rewrite N.lor_spec, N.ldiff_spec, (Hhigh _ Hm), (Hhigh bits); [done|]. change (2 ^ 8)%N with 256%N. lia.
Qed.

Lemma with_kind_record_ok r bits : record_ok L r -> (bits < 2)%N -> record_ok L (with_kind r bits).
Proof.
  intros (H1 & H2 & H3 & H4 & H5 & H6 & H7 & H8 & H9 & H10 & H11 & H12 & H13 & Hv) Hb.
  cbn [record_ok snapshot_codec]. split_and!; try done; [by apply with_kind_meta_fits|].
  rewrite <- Hv. unfold validate_snapshot_record, has_additional_parents, is_remote_head_history_boundary, has_root_locator, parent_snapshot_index.
  cbn [with_kind snapshot_meta history_flags snapshot_hash48 payload_len payload_offset parent_snapshot_index_plus1 root_tree_pack_index_plus1].
  by rewrite !has_bits_kind by done.
Qed.

(** The entry with another kind: its name, payload and parents stay. *)
Definition with_entry_kind (bits : N) (e : entry) : entry := (with_kind (fst e) bits, snd e).

Lemma with_kind_same e bits : (bits < 2)%N ->
  entry_live (with_entry_kind bits e) = entry_live e /\ entry_hash (with_entry_kind bits e) = entry_hash e /\
  parent_indices (with_entry_kind bits e) = parent_indices e /\ entry_name (with_entry_kind bits e) = entry_name e /\
  has_additional_parents (fst (with_entry_kind bits e)) = has_additional_parents (fst e) /\
  has_line_name_payload (fst (with_entry_kind bits e)) = has_line_name_payload (fst e).
Proof.
  intros Hb. unfold entry_live, snapshot_is_tombstone, has_additional_parents, has_line_name_payload, with_entry_kind. cbn [fst snapshot_meta with_kind].
  by rewrite !has_bits_kind by done.
Qed.

Lemma kind_bits_lt kind bits : kind_bits kind = Ok bits -> (bits < 2)%N.
Proof. unfold kind_bits. destruct (bool_decide _); [by intros [= <-]|]. destruct (bool_decide _); [by intros [= <-]|done]. Qed.

Lemma lookup_kind (es : list entry) i e bits k x : es !! i = Some e -> <[i := with_entry_kind bits e]> es !! k = Some x ->
  exists y, es !! k = Some y /\ (x = y \/ k = i /\ x = with_entry_kind bits y).
Proof.
  intros He Hk. destruct (decide (k = i)) as [->|Hne].
  - pose proof (lookup_lt_Some _ _ _ He). rewrite list_lookup_insert_eq in Hk by done. injection Hk as <-. exists e. by split; [|right].
  - rewrite list_lookup_insert_ne in Hk by done. exists x. by split; [|left].
Qed.

Lemma log_ok_kind es i e bits : log_ok es -> es !! i = Some e -> (bits < 2)%N -> log_ok (<[i := with_entry_kind bits e]> es).
Proof.
  intros [Hr Hl Hh] He Hb.
  assert (forall k x, <[i := with_entry_kind bits e]> es !! k = Some x ->
    exists y, es !! k = Some y /\ entry_live x = entry_live y /\ entry_hash x = entry_hash y /\ parent_indices x = parent_indices y /\
      has_additional_parents (fst x) = has_additional_parents (fst y) /\ snd x = snd y) as Hsame.
  { intros k x Hk. destruct (lookup_kind es i e bits k x He Hk) as (y & Hy & [->|[-> ->]]); exists y; [done|].
    destruct (with_kind_same y bits Hb) as (H1 & H2 & H3 & _ & H4 & _). by split_and!. }
  assert (forall q y, es !! q = Some y -> entry_live y = true -> exists x, <[i := with_entry_kind bits e]> es !! q = Some x /\ entry_live x = true) as Hkeep.
  { intros q y Hq Hy. destruct (decide (q = i)) as [->|Hne].
    - exists (with_entry_kind bits e). pose proof (lookup_lt_Some _ _ _ He). rewrite list_lookup_insert_eq by done. split; [done|].
      destruct (with_kind_same e bits Hb) as [-> _]. congruence.
    - exists y. by rewrite list_lookup_insert_ne. }
  split.
  - apply Forall_insert; [done|]. apply with_kind_record_ok; [|done]. exact (Forall_lookup_1 _ _ _ _ Hr He).
  - intros k x Hk Hlive. destruct (Hsame k x Hk) as (y & Hy & H1 & H2 & H3 & H4 & H5). rewrite H1 in Hlive.
    destruct (Hl k y Hy Hlive) as [E1 E2 E3 E4]. split; rewrite ?H3; [by rewrite H4, E1; unfold has_parents; rewrite H5|done|done|].
    eapply Forall_impl; [exact E4|]. intros q (Hlt & y' & Hq & Hy'). split; [done|]. by apply (Hkeep _ y').
  - intros k k' x x' Hk Hk' Hx Hx' Heq. destruct (Hsame k x Hk) as (y & Hy & H1 & H2 & _), (Hsame k' x' Hk') as (y' & Hy' & H1' & H2' & _).
    rewrite H1 in Hx. rewrite H1' in Hx'. apply (Hh k k' y y'); congruence.
Qed.

Lemma positions_kind h es i e bits n : es !! i = Some e -> (bits < 2)%N -> positions h n (<[i := with_entry_kind bits e]> es) = positions h n es.
Proof.
  intros He Hb. revert i n He. induction es as [|e0 es IH]; intros i n He; [done|]. destruct i as [|i]; cbn in He.
  - injection He as ->. done.
  - change (<[S i := with_entry_kind bits e]> (e0 :: es)) with (e0 :: <[i := with_entry_kind bits e]> es). cbn [positions]. by rewrite (IH i).
Qed.

(** ** The transaction *)

Section Kind.
Context (fs : LocalBinaryDbFs) (record_file payload_file index_file : PathBuf).
Context (Hrec : file_path_for fs SNAPSHOT_BIN = Ok record_file).
Context (Hpay : file_path_for fs SNAPSHOT_PAYLOAD_BIN = Ok payload_file).
Context (Hidx : file_path_for fs SNAPSHOT_ID_IDX = Ok index_file).
Context {du : gmap PathBuf bytes}.
Implicit Types d : gmap PathBuf bytes.

Local Abbreviation holds_snapshots := (holds_snapshots record_file payload_file index_file).
Local Abbreviation paths := [record_file; payload_file; index_file].
Local Abbreviation indexes := [(snapshot_id_index L, index_file)].
Local Abbreviation unwritten := (unwritten paths indexes (du := du)).
Local Abbreviation txn_record rows i := (match rows !! N.to_nat i with Some row => Ok row | None => Err MissingData end).

Lemma works_overwrite_snapshot d rows i row new : holds_table (snapshot_file L) record_file d rows -> (N.of_nat (length rows) <= u32_max)%N ->
  rows !! N.to_nat i = Some row -> length new = SNAPSHOT_RECORD_SIZE ->
  works paths indexes (du := du) d (txn_overwrite_record fs (snapshot_file L) i new) tt
    (<[record_file := table_bytes (snapshot_file L) (<[N.to_nat i := new]> rows)]> d).
Proof.
  intros Ht Hcount Hrow Hnew. destruct (distinct_files fs record_file payload_file index_file Hrec Hpay Hidx) as (_ & Hri & _).
  eapply works_overwrite; [done|done|by split|done|set_solver|set_solver|done|done|done|by rewrite Hnew].
Qed.

Lemma answers_snapshot d was rows i : holds_table (snapshot_file L) record_file d rows -> (N.of_nat (length rows) <= u32_max)%N ->
  answers (unwritten d was) (txn_read_record fs (snapshot_file L) i) (txn_record rows i).
Proof. intros Ht Hcount. apply (answers_record fs paths indexes (du := du) d was (snapshot_file L) record_file); [done|by split|done|done|done]. Qed.

Lemma holds_kind d es rows i e bits new : holds_snapshots d es -> holds_table (snapshot_file L) record_file d rows ->
  Forall2 (fun r row => encode_record L r = Ok row) (map fst es) rows -> es !! i = Some e -> (bits < 2)%N ->
  encode_snapshot_record L (with_kind (fst e) bits) = Ok new -> length new = SNAPSHOT_RECORD_SIZE ->
  holds_snapshots (<[record_file := table_bytes (snapshot_file L) (<[i := new]> rows)]> d) (<[i := with_entry_kind bits e]> es).
Proof.
  intros Hd [Hs Ht] Hall He Hb Henc Hnew. destruct (distinct_files fs record_file payload_file index_file Hrec Hpay Hidx) as (Hrp & Hri & _).
  assert (payload_data payload_file (<[record_file := table_bytes (snapshot_file L) (<[i := new]> rows)]> d) = payload_data payload_file d) as Hdata
    by (unfold payload_data; apply contents_other; by rewrite lookup_insert_ne).
  destruct Hd as [_ Hcount Hhead Hspace Hpays (m & Hm & Hpos)]. split; rewrite ?Hdata, ?length_insert; [|done..| |].
  - exists (<[i := new]> rows). split; [split; [|left; apply lookup_insert_eq]|].
    + apply Forall_insert; [done|]. by rewrite Hnew.
    + change (map fst (<[i := with_entry_kind bits e]> es)) with (fst <$> <[i := with_entry_kind bits e]> es).
      rewrite list_fmap_insert. apply Forall2_insert; [exact Hall|exact Henc].
  - rewrite lookup_insert_ne by done. apply Forall_insert; [done|]. destruct (Forall_lookup_1 _ _ _ _ Hpays He) as [Hsome (H1 & H2 & H3)].
    split; [done|]. destruct (with_kind_same e bits Hb) as (_ & _ & _ & _ & H4 & H5). split_and!; [done|done|]. rewrite H4, H5. exact H3.
  - exists m. split; [apply (index_content_other index_file d); [by apply lookup_insert_ne|done]|]. intros h Hh. rewrite (positions_kind h es i e bits) by done. by apply Hpos.
Qed.

(** The first candidate that counts, as the transaction finds it. *)
Lemma update_first_step d was es id bits k candidates t : holds_snapshots d es -> log_ok es -> unwritten d was t -> N.to_nat k < length es ->
  exists e t', es !! N.to_nat k = Some e /\ unwritten d was t' /\
    update_first fs L id bits (k :: candidates) t =
      (if eq_ignore_ascii_case (entry_name e) id && entry_live e then
         encoded ← lift (map_err content_error_kind (encode_snapshot_record L (with_kind (fst e) bits)));
         _ ← txn_overwrite_record fs (snapshot_file L) k encoded; _ ← commit; mret 1%N
       else update_first fs L id bits candidates) t'.
Proof.
  intros Hd Hok Ht Hk. destruct (hs_records Hd) as (rows & Hrows & Hall). pose proof (Forall2_length _ _ _ Hall) as Hlen.
  rewrite length_map in Hlen. pose proof (hs_count Hd) as Hcount. destruct (lookup_lt_is_Some_2 rows (N.to_nat k)) as [row Hrow]; [lia|].
  destruct (Forall2_lookup_r _ _ _ _ _ Hall Hrow) as (r & Hr & Henc). change (map fst es) with (fst <$> es) in Hr.
  rewrite list_lookup_fmap in Hr. apply fmap_Some in Hr as (e & He & ->).
  destruct (answers_snapshot d was rows k Hrows ltac:(lia) t Ht) as (t' & Hrun & Ht'). rewrite Hrow in Hrun. exists e, t'. split; [done|]. split; [done|].
  destruct (snapshot_encoded (fst e) row (record_ok_entry es Hok _ _ He) Henc) as [_ Hdec]. cbn [update_first].
  erewrite bind_run by exact Hrun. erewrite bind_run by (by rewrite Hdec). fold (entry_name e).
  unfold entry_live. by destruct (snapshot_is_tombstone (fst e)), (eq_ignore_ascii_case (entry_name e) id).
Qed.

Lemma update_first_found d was es id bits candidates i e t : holds_snapshots d es -> log_ok es -> unwritten d was t -> (bits < 2)%N ->
  Forall (fun k => N.to_nat k < length es) candidates -> find_snapshot es id candidates = Some (N.of_nat i, fst e) -> es !! i = Some e ->
  exists t', update_first fs L id bits candidates t = (Ok 1%N, t') /\ finished t' = true /\
    holds_snapshots (disk (files t')) (<[i := with_entry_kind bits e]> es) /\ (forall path, path <> record_file -> disk (files t') !! path = d !! path).
Proof.
  intros Hd Hok Ht Hb Hcand Hfind He. revert t Ht. induction candidates as [|k candidates IH]; intros t Ht; [done|].
  apply Forall_cons in Hcand as [Hk Hcand]. cbn [find_snapshot] in Hfind.
  destruct (update_first_step d was es id bits k candidates t Hd Hok Ht Hk) as (e' & t1 & He' & Ht1 & ->). rewrite He' in Hfind.
  destruct (eq_ignore_ascii_case (entry_name e') id && entry_live e'); [|by apply IH].
  apply Some_inj, pair_equal_spec in Hfind as [-> _]. rewrite Nat2N.id in He'. assert (e' = e) as -> by congruence. clear IH He' Hk.
  destruct (hs_records Hd) as (rows & Hrows & Hall). pose proof (Forall2_length _ _ _ Hall) as Hlen. rewrite length_map in Hlen.
  pose proof (hs_count Hd) as Hcount. pose proof (lookup_lt_Some _ _ _ He) as Hlt. destruct (lookup_lt_is_Some_2 rows i) as [row Hrow]; [lia|].
  destruct (encode_decode L (with_kind (fst e) bits)) as (new & Hnew & Hnewlen & _);
    [reflexivity|apply with_kind_record_ok; [exact (record_ok_entry es Hok _ _ He)|done]|].
  change (encode_snapshot_record L (with_kind (fst e) bits) = Ok new) in Hnew. erewrite bind_run by (by rewrite Hnew).
  destruct (works_overwrite_snapshot d rows (N.of_nat i) row new Hrows ltac:(lia) ltac:(by rewrite Nat2N.id) Hnewlen t1 (proj1 Ht1)) as (t2 & Hover & Hcalm2).
  erewrite bind_run by exact Hover. rewrite Nat2N.id in Hcalm2.
  pose proof (holds_kind d es rows i e bits new Hd Hrows Hall He Hb Hnew Hnewlen) as Hd2.
  destruct (commit_quiet _ _ t2 _ Hcalm2) as (o & t' & du' & Hcommit & Hfiles & Hfin).
  { apply (snapshot_files_there _ _ _ _ _ Hd2 (log_ok_kind es i e bits Hok He Hb)). intros Hnil. apply (f_equal length) in Hnil. rewrite length_insert in Hnil. cbn in Hnil. lia. }
  exists t'. rewrite Hfiles. split_and!; [by erewrite bind_run by exact Hcommit|done|done|by intros; apply lookup_insert_ne].
Qed.

Lemma update_first_absent d es id bits candidates t : holds_snapshots d es -> log_ok es -> unwritten d ([], []) t ->
  Forall (fun k => N.to_nat k < length es) candidates -> find_snapshot es id candidates = None ->
  exists t', update_first fs L id bits candidates t = (Ok 0%N, t') /\ finished t' = true /\ disk (files t') = d.
Proof.
  intros Hd Hok Ht Hcand Hfind. revert t Ht. induction candidates as [|k candidates IH]; intros t Ht.
  - pose proof Ht as [Hcalm [= H1 H2]]. destruct (abort_untouched fs t d (ca_files _ _ _ _ Hcalm) (ca_open _ _ _ _ Hcalm) H1 H2) as (t' & Hrun & Hfin & Hfiles).
    exists t'. rewrite Hfiles. cbn [update_first]. by erewrite bind_run by exact Hrun.
  - apply Forall_cons in Hcand as [Hk Hcand]. cbn [find_snapshot] in Hfind.
    destruct (update_first_step d _ es id bits k candidates t Hd Hok Ht Hk) as (e' & t1 & He' & Ht1 & ->). rewrite He' in Hfind.
    destruct (eq_ignore_ascii_case (entry_name e') id && entry_live e'); [done|by apply IH].
Qed.

(** Changing the kind of a snapshot. For the name of a live snapshot and a
    known kind the call reports one change; afterwards the files hold the same
    log, except that the record of that snapshot has the bits of the kind, and
    the log is still valid, so that names, payloads, parents and chains are as
    before. For a name that no live snapshot has it reports none, and for an
    unknown kind it fails; then no file changes. *)
Theorem update_snapshot_kind_spec d es h kind locks : holds_snapshots d es -> log_ok es -> (h < 2 ^ 48)%N ->
  match kind_bits kind with
  | Err err => update_snapshot_kind fs L (snapshot_id_from_hash48 h) kind locks (mkIo du d []) = (Err err, mkIo du d [])
  | Ok bits =>
      (forall i e, es !! i = Some e -> entry_live e = true -> entry_hash e = h ->
        exists s', update_snapshot_kind fs L (snapshot_id_from_hash48 h) kind locks (mkIo du d []) = (Ok 1%N, s') /\
          holds_snapshots (disk s') (<[i := with_entry_kind bits e]> es) /\ log_ok (<[i := with_entry_kind bits e]> es) /\
          forall path, path <> record_file -> disk s' !! path = d !! path) /\
      ((forall i e, es !! i = Some e -> entry_live e = true -> entry_hash e <> h) ->
        exists s', update_snapshot_kind fs L (snapshot_id_from_hash48 h) kind locks (mkIo du d []) = (Ok 0%N, s') /\ disk s' = d)
  end.
Proof.
  intros Hd Hok Hh. unfold update_snapshot_kind.
  assert (require_non_empty (snapshot_id_from_hash48 h) = Ok tt) as -> by (unfold require_non_empty; by rewrite snapshot_id_trim, bool_decide_eq_false_2).
  cbn [mbind result_bind]. destruct (kind_bits kind) as [bits|err] eqn:Hbits; [|done]. apply kind_bits_lt in Hbits.
  destruct (hs_index Hd) as (m & Hm & Hpos). set (t := begin ContentWrite locks (mkIo du d [])).
  pose proof (begin_calm paths indexes (du := du) ContentWrite locks d eq_refl) as Ht. fold t in Ht.
  destruct (answers_lookup fs paths indexes (indexes_named fs index_file Hidx) (indexes_apart index_file) (du := du) d _ (snapshot_id_index L) index_file m (to_le_bytes 8 h)
    ltac:(set_solver) Hm ltac:(intros k [= <-]; by rewrite length_to_le_bytes) t Ht) as (t1 & Hrun & Ht1).
  assert (update_kind_body fs L (snapshot_id_from_hash48 h) bits t = update_first fs L (snapshot_id_from_hash48 h) bits (rev (positions h 0 es)) t1) as ->.
  { unfold update_kind_body. erewrite bind_run by (unfold snapshot_id_index_key; rewrite snapshot_id_roundtrip by done; done).
    erewrite bind_run by exact Hrun. rewrite Hpos, newest_first_increasing by (done || apply positions_sorted). done. }
  assert (Forall (fun k => N.to_nat k < length es) (rev (positions h 0 es))) as Hcand.
  { apply Forall_forall. intros k Hk. rewrite elem_of_rev in Hk. by eapply positions_lt. }
  split.
  - intros i e He Hl <-. destruct (update_first_found d _ es (entry_name e) bits _ i e t1 Hd Hok Ht1 Hbits Hcand) as (t' & Hup & Hfin & Hheld & Hother);
      [by apply find_live|done|]. exists (files t'). unfold entry_name, snapshot_name, entry_hash in *. rewrite Hup. unfold drop_txn. rewrite Hfin.
    split_and!; [done|exact Hheld|by apply log_ok_kind|exact Hother].
  - intros Hno. destruct (update_first_absent d es (snapshot_id_from_hash48 h) bits _ t1 Hd Hok Ht1 Hcand) as (t' & Hup & Hfin & Hdisk);
      [by apply find_absent|]. exists (files t'). rewrite Hup. unfold drop_txn. by rewrite Hfin.
Qed.
End Kind.

(** ** An example *)

(** The second snapshot of the example becomes a stash. *)
Lemma update_snapshot_kind_spec_witness : exists d s', 
  update_snapshot_kind example_db L "SNP-00000000000B" "stash" (mkLocks [false; false] false) (mkIo ∅ d []) = (Ok 1%N, s') /\
  exists e, holds_snapshots (example_file SNAPSHOT_BIN) (example_file SNAPSHOT_PAYLOAD_BIN) (example_file SNAPSHOT_ID_IDX) (disk s') (<[1 := e]> (stored_entries 4 example_inputs)).
Proof.
  destruct example_repository as (d & Hd & Hok). exists d.
  destruct (update_snapshot_kind_spec example_db (example_file SNAPSHOT_BIN) (example_file SNAPSHOT_PAYLOAD_BIN) (example_file SNAPSHOT_ID_IDX)
    eq_refl eq_refl eq_refl (du := ∅) d _ 11 "stash" (mkLocks [false; false] false) Hd Hok eq_refl) as [Hfound _].
  destruct (Hfound 1 _ eq_refl eq_refl eq_refl) as (s' & Hrun & Hheld & _). exists s'. split; [exact Hrun|]. by eexists.
Defined.
