(* ===== verification/SnapshotGraph.v ===== *)
(** * The snapshot store as a graph

    The store of [ContentStore] implements the interface of [SnapshotStore]: the
    log of [SnapshotLog] is a well-formed history, and the links that the store
    serves are those of its graph, so that everything proved of lawful stores
    holds of the files of a repository. *)

From Stdlib Require Import NArith Lia.
From Stdlib Require Strings.Byte.
From stdpp Require Import base numbers strings gmap list sorting.
From S2P Require Import Prelude Codec SnapshotStore SnapshotDag TopoOrder StoreClosure MergeBases.
From S2P Require Import FileStore BinaryDb RecordTable BinaryIndex ReadTxn WriteTxn ContentIds ContentCodec ContentStore SnapshotLog SnapshotAppend.

(** ** The implementation of the trait *)

Record BinaryDbSnapshotStore : Type := mkSnapshotStore { store_db : LocalBinaryDbFs; store_files : io_state }.

(** A method begins a transaction of its own, whose cache is empty; the text of
    an error is left out. *)
Definition in_read_txn {A : Type} (store : BinaryDbSnapshotStore) (m : LocalBinaryDbFs -> cached A) : result snapshot_error A :=
  map_err (fun _ => StoreFailure EmptyString) (fst (m (store_db store) (empty_cache, store_files store))).

#[export] Instance binary_snapshot_store : SnapshotStore BinaryDbSnapshotStore := {
  snapshot_parent_link store snapshot_id := in_read_txn store (fun fs => binary_parent_link fs snapshot_id);
  snapshot_parent_links store snapshot_ids := in_read_txn store (fun fs => parent_links_of fs snapshot_ids);
  snapshot_parent_link_page store cursor limit := in_read_txn store (fun fs => parent_link_page fs cursor limit)
}.

Definition store_snapshot_exists (store : BinaryDbSnapshotStore) (snapshot_id : string) : result snapshot_error bool :=
  in_read_txn store (fun fs => binary_snapshot_exists fs snapshot_id).
Definition store_snapshot_chain (store : BinaryDbSnapshotStore) (snapshot_id : string) : result snapshot_error (list string) :=
  in_read_txn store (fun fs => binary_snapshot_chain fs snapshot_id).

(** ** The graph of a log *)

Definition snapshot_graph (es : list entry) : gmap string (list string) :=
  list_to_map (map (fun e => (entry_name e, parent_names es e)) (filter (fun e => entry_live e = true) es)).

Section Graph.
Context (es : list entry) (Hok : log_ok es).
Implicit Types e : entry.

Lemma live_hash i j e e' : es !! i = Some e -> es !! j = Some e' -> entry_live e = true -> entry_live e' = true ->
  to_ascii_lowercase (entry_name e) = to_ascii_lowercase (entry_name e') -> i = j.
Proof.
  intros He He' Hl Hl' Heq. apply (lo_hashes es Hok i j e e'); try done. apply (snapshot_id_eq_ignore_case (entry_hash e) (entry_hash e')).
  - by eapply entry_hash_lt.
  - unfold eq_ignore_ascii_case. by apply bool_decide_eq_true_2.
  - by eapply entry_hash_lt.
Qed.

Lemma graph_lookup id ps : snapshot_graph es !! id = Some ps <->
  exists i e, es !! i = Some e /\ entry_live e = true /\ id = entry_name e /\ ps = parent_names es e.
Proof.
  unfold snapshot_graph. split.
  - intros H%elem_of_list_to_map_2. apply list_elem_of_fmap in H as (e & [= -> ->] & He).
    apply list_elem_of_filter in He as [Hl [i Hi]%list_elem_of_lookup]. by exists i, e.
  - intros (i & e & He & Hl & -> & ->). apply elem_of_list_to_map_1'.
    + intros ps' Hin. apply list_elem_of_fmap in Hin as (e' & Heq & He'). apply pair_equal_spec in Heq as [Hn ->]. apply list_elem_of_filter in He' as [Hl' [j Hj]%list_elem_of_lookup].
      assert (i = j) as -> by (apply (live_hash i j e e'); [done..|by rewrite Hn]). congruence.
    + apply list_elem_of_fmap. exists e. split; [done|]. apply list_elem_of_filter. split; [done|]. by eapply list_elem_of_lookup_2.
Qed.

(** A parent is the name of an earlier live entry. *)
Lemma elem_of_parent_names i e p : es !! i = Some e -> entry_live e = true ->
  p ∈ parent_names es e <-> exists q e', q ∈ parent_indices e /\ N.to_nat q < i /\ es !! N.to_nat q = Some e' /\ entry_live e' = true /\ p = entry_name e'.
Proof.
  intros He Hl. destruct (lo_live es Hok i e He Hl) as [_ _ _ Hear]. rewrite Forall_forall in Hear. unfold parent_names, parents_of.
  rewrite list_elem_of_fmap. split.
  - intros ([q r] & -> & Hin). apply list_elem_of_omap in Hin as (q' & Hq & Hr). apply fmap_Some in Hr as (e' & He' & [= -> ->]).
    destruct (Hear q' Hq) as (Hlt & e2 & He2 & Hl2). exists q', e'. split_and!; try done. congruence.
  - intros (q & e' & Hq & _ & He' & _ & ->). exists (q, fst e'). split; [done|]. apply list_elem_of_omap. exists q. by rewrite He'.
Qed.

Lemma parent_edge_places p id : parent_edge (snapshot_graph es) ∅ p id ->
  exists i j e e', es !! i = Some e /\ es !! j = Some e' /\ entry_live e = true /\ entry_live e' = true /\ p = entry_name e /\ id = entry_name e' /\ i < j.
Proof.
  unfold parent_edge, internal_parents. intros [_ H]%list_elem_of_filter. destruct (snapshot_graph es !! id) as [ps|] eqn:Hg; [|by apply elem_of_nil in H].
  apply graph_lookup in Hg as (j & e' & He' & Hl' & -> & ->). cbn [default from_option id] in H.
  apply (elem_of_parent_names j e') in H as (q & e & _ & Hlt & He & Hl & ->); [|done..]. by exists (N.to_nat q), j, e, e'.
Qed.

Lemma graph_acyclic : acyclic (snapshot_graph es) ∅.
Proof.
  assert (forall p id, tc (parent_edge (snapshot_graph es) ∅) p id -> exists i j e e', es !! i = Some e /\ es !! j = Some e' /\
    entry_live e = true /\ entry_live e' = true /\ p = entry_name e /\ id = entry_name e' /\ i < j) as H.
  { intros p id Htc. induction Htc as [p id Hedge|p m id Hedge _ IH]; [by apply parent_edge_places|].
    apply parent_edge_places in Hedge as (i & j & e & e' & He & He' & Hl & Hl' & -> & -> & Hlt).
    destruct IH as (j' & k & e2 & e3 & He2 & He3 & Hl2 & Hl3 & Hm & -> & Hlt').
    assert (j = j') as -> by (apply (live_hash j j' e' e2); [done..|by rewrite Hm]). exists i, k, e, e3. split_and!; try done. lia. }
  intros id Htc. destruct (H id id Htc) as (i & j & e & e' & He & He' & Hl & Hl' & -> & Hn & Hlt).
  assert (i = j) by (apply (live_hash i j e e'); [done..|by rewrite Hn]). lia.
Qed.

Lemma graph_closed : closed_map (snapshot_graph es) ∅.
Proof.
  intros id p (i & j & e & e' & He & _ & Hl & _ & -> & _)%parent_edge_places. exists (parent_names es e). apply graph_lookup. by exists i, e.
Qed.

Lemma parents_of_lookups i e : es !! i = Some e -> entry_live e = true ->
  Forall2 (fun q n => exists e', es !! N.to_nat q = Some e' /\ entry_live e' = true /\ n = entry_name e') (parent_indices e) (parent_names es e).
Proof.
  intros He Hl. destruct (lo_live es Hok i e He Hl) as [_ _ _ Hear]. unfold parent_names, parents_of.
  induction Hear as [|q ps (_ & e' & He' & Hl') _ IH]; [constructor|]. cbn [omap list_omap]. rewrite He'. cbn [fmap option_fmap option_map map].
  constructor; [by exists e'|exact IH].
Qed.

Lemma graph_valid : valid_parent_map (snapshot_graph es).
Proof.
  intros id ps (i & e & He & Hl & -> & ->)%graph_lookup. destruct (lo_live es Hok i e He Hl) as [_ Hcount Hnd Hear].
  pose proof (parents_of_lookups i e He Hl) as Hall. unfold valid_parent_set. split_and!.
  - by rewrite <- (Forall2_length _ _ _ Hall).
  - apply Forall_forall. intros p Hp. apply (elem_of_parent_names i e) in Hp as (q & e' & _ & _ & _ & _ & ->); [|done..]. apply snapshot_id_canonical.
  - intros child [= <-]. apply Forall_forall. intros p Hp. apply (elem_of_parent_names i e) in Hp as (q & e' & _ & Hlt & He' & Hl' & ->); [|done..].
    intros Heq. assert (i = N.to_nat q) by (by apply (live_hash i (N.to_nat q) e e')). lia.
  - clear Hcount Hear. induction Hall as [|q n qs ns (e1 & He1 & Hl1 & ->) Hall IH]; [constructor|]. apply NoDup_cons in Hnd as [Hq Hnd].
    cbn [map]. apply NoDup_cons. split; [|by apply IH]. intros Hin. apply list_elem_of_fmap in Hin as (n & Heq & [k Hk]%list_elem_of_lookup).
    destruct (Forall2_lookup_r _ _ _ _ _ Hall Hk) as (q' & Hq' & e2 & He2 & Hl2 & ->).
    assert (N.to_nat q = N.to_nat q') as Hqq by (by apply (live_hash _ _ e1 e2)). apply Hq. assert (q = q') as -> by lia.
    by eapply list_elem_of_lookup_2.
Qed.

Lemma graph_well_formed : well_formed (snapshot_graph es).
Proof. split; [apply graph_valid|split; [apply graph_closed|apply graph_acyclic]]. Qed.
End Graph.

(** ** The store is lawful *)

Section Store.
Context (fs : LocalBinaryDbFs) (record_file payload_file index_file : PathBuf).
Context (Hrec : file_path_for fs SNAPSHOT_BIN = Ok record_file).
Context (Hpay : file_path_for fs SNAPSHOT_PAYLOAD_BIN = Ok payload_file).
Context (Hidx : file_path_for fs SNAPSHOT_ID_IDX = Ok index_file).
Context (du d : gmap PathBuf bytes) (es : list entry) (Hd : holds_snapshots record_file payload_file index_file d es) (Hok : log_ok es).

Let store := mkSnapshotStore fs (mkIo du d []).

Lemma in_read_txn_Ok {A : Type} (m : LocalBinaryDbFs -> cached A) a : reads fs (du := du) d (m fs) (Ok a) -> in_read_txn store m = Ok a.
Proof.
  intros H. destruct (H empty_cache (empty_coherent fs d)) as (c' & Hrun & _). unfold in_read_txn, store. cbn [store_db store_files].
  by rewrite Hrun.
Qed.

Lemma reads_links ids : (forall id, id ∈ ids -> is_Some (snapshot_graph es !! id)) ->
  reads fs (du := du) d (parent_links_of fs ids) (Ok (map (fun id => link_of id <$> snapshot_graph es !! id) ids)).
Proof.
  induction ids as [|id ids IH]; intros Hids; cbn [parent_links_of map]; [apply reads_ret|].
  destruct (Hids id) as [ps Hps]; [by left|]. pose proof Hps as (i & e & He & Hl & -> & ->)%graph_lookup; [|done].
  eapply reads_step; [by eapply reads_link_of|]. eapply reads_step; [apply IH; intros x Hx; apply Hids; by right|].
  rewrite Hps. apply reads_ret.
Qed.

Lemma binary_store_lawful : LawfulSnapshotStore BinaryDbSnapshotStore store (snapshot_graph es).
Proof.
  split.
  - intros id Hid. apply in_read_txn_Ok. unfold binary_parent_link. apply (reads_step _ _ _ _ tt).
    { destruct Hid as [ps (i & e & _ & _ & -> & _)%graph_lookup]; [|done]. rewrite entry_name_solid. apply reads_lift. }
    eapply reads_step; [apply reads_links; by intros x ->%list_elem_of_singleton|]. apply reads_lift.
  - intros ids Hids. by apply in_read_txn_Ok, reads_links.
Qed.

(** C7. The files of a repository serve a history. On files that hold a valid log,
    the store answers every name of a live snapshot with its link - one name or
    many at a time -, knows exactly the names of live snapshots among the names
    of snapshots, returns the chain of primary parents from the root to a
    snapshot, and serves its pages in order; and the links are those of a
    well-formed history: valid parent sets, closed and acyclic. *)
Theorem binary_store_serves_graph :
  well_formed (snapshot_graph es) /\ LawfulSnapshotStore BinaryDbSnapshotStore store (snapshot_graph es) /\
  (forall h, (h < 2 ^ 48)%N -> store_snapshot_exists store (snapshot_id_from_hash48 h) = Ok (bool_decide (is_Some (snapshot_graph es !! snapshot_id_from_hash48 h)))) /\
  (forall i e, es !! i = Some e -> entry_live e = true ->
    exists ids, store_snapshot_chain store (entry_name e) = Ok ids /\ primary_chain es i ids) /\
  (forall cursor limit, (0 < limit)%N -> (cursor <= N.of_nat (length es))%N ->
    let end_ := N.min (cursor + limit) (N.of_nat (length es)) in
    snapshot_parent_link_page store cursor limit =
      Ok (mkPage (page_of es (N.to_nat cursor) (N.to_nat end_)) (if (end_ <? N.of_nat (length es))%N then Some end_ else None))).
Proof.
  split; [by apply graph_well_formed|]. split; [exact binary_store_lawful|]. split_and!.
  - intros h Hh. apply in_read_txn_Ok. unfold binary_snapshot_exists. apply (reads_step _ _ _ _ tt).
    { unfold require_non_empty. rewrite snapshot_id_trim, bool_decide_eq_false_2 by done. apply reads_lift. }
    eapply reads_step; [eapply reads_by_id; [done..|]; by apply snapshot_id_roundtrip|].
    destruct (decide (is_Some (snapshot_graph es !! snapshot_id_from_hash48 h))) as [Hin|Hout].
    + rewrite bool_decide_eq_true_2 by done. destruct Hin as [ps (i & e & He & Hl & Hn & _)%graph_lookup]; [|done].
      assert (h = entry_hash e) as ->.
      { apply snapshot_id_eq_ignore_case; [done| |by eapply entry_hash_lt]. unfold eq_ignore_ascii_case. apply bool_decide_eq_true_2. by rewrite Hn. }
      change (snapshot_id_from_hash48 (entry_hash e)) with (entry_name e). rewrite (find_live es Hok i e He Hl). apply reads_ret.
    + rewrite bool_decide_eq_false_2 by done. rewrite find_absent; [apply reads_ret|]. intros i e He Hl <-. apply Hout.
      exists (parent_names es e). apply graph_lookup; [done|]. by exists i, e.
  - intros i e He Hl. destruct (reads_chain fs record_file payload_file index_file Hrec (du := du) d es Hd Hok i i e ∅ [] He Hl) as (ids & Hids & Hrun);
      [lia|by intros j ?%not_elem_of_empty|]. rewrite app_nil_r in Hrun. exists ids. split; [|done]. apply in_read_txn_Ok. unfold binary_snapshot_chain.
    apply (reads_step _ _ _ _ tt); [rewrite entry_name_solid; apply reads_lift|].
    eapply reads_step; [eapply reads_by_id; [done..|]; by eapply entry_name_hash|]. rewrite (find_live es Hok i e He Hl).
    eapply reads_step; [apply reads_lift|]. cbn beta iota. rewrite Nat2N.id. exact Hrun.
  - intros cursor limit Hlimit Hcursor. apply in_read_txn_Ok. by eapply reads_page.
Qed.

(** C6. Merge bases of a repository: for two live snapshots of a valid log, the
    computation over the files succeeds under ample limits and returns, nearest
    first, exactly the maximal common ancestors in the graph of the log. *)
Theorem repository_merge_bases i j l r limits : es !! i = Some l -> es !! j = Some r -> entry_live l = true -> entry_live r = true ->
  ample_limits (snapshot_graph es) limits ->
  exists bases, snapshot_merge_bases store (entry_name l) (entry_name r) limits = Ok bases /\
    merge_bases_spec (snapshot_graph es) (entry_name l) (entry_name r) bases /\
    (bases = [] <-> ~ exists x, common_ancestor (snapshot_graph es) (entry_name l) (entry_name r) x).
Proof.
  intros Hi Hj Hl Hr Hlimits. pose proof (graph_well_formed es Hok) as Hwf. apply store_merge_bases; [exact binary_store_lawful|done|done|].
  intros x Hx. assert (exists k e, es !! k = Some e /\ entry_live e = true /\ x = entry_name e) as (k & e & Hk & He & ->).
  { apply elem_of_cons in Hx as [->|Hx]; [by exists i, l|]. apply list_elem_of_singleton in Hx as ->. by exists j, r. }
  split; [apply snapshot_id_canonical|]. exists (parent_names es e). apply graph_lookup; [done|]. by exists k, e.
Qed.
End Store.

(** ** An example *)

Section Example_repository.

Let db := example_db.
Let record_file := example_file SNAPSHOT_BIN.
Let payload_file := example_file SNAPSHOT_PAYLOAD_BIN.
Let index_file := example_file SNAPSHOT_ID_IDX.

Lemma binary_store_serves_graph_witness : exists d, let store := mkSnapshotStore db (mkIo ∅ d []) in
  store_snapshot_exists store "SNP-00000000000B" = Ok true /\ store_snapshot_exists store "SNP-0000000000AB" = Ok false.
Proof.
  destruct example_repository as (d & Hd & Hok). exists d.
  destruct (binary_store_serves_graph db record_file payload_file index_file eq_refl eq_refl eq_refl ∅ d _ Hd Hok) as (_ & _ & Hexists & _).
  split; [specialize (Hexists 11%N)|specialize (Hexists 171%N)]; (etransitivity; [apply Hexists; reflexivity|vm_compute; reflexivity]).
Defined.

Lemma repository_merge_bases_witness : exists d bases, let store := mkSnapshotStore db (mkIo ∅ d []) in
  snapshot_merge_bases store "SNP-00000000000B" "SNP-00000000000C" (mkLimits 4 4 2 LimitError) = Ok bases /\
  merge_bases_spec (snapshot_graph (stored_entries 4 example_inputs)) "SNP-00000000000B" "SNP-00000000000C" bases.
Proof.
  destruct example_repository as (d & Hd & Hok). exists d.
  destruct (repository_merge_bases db record_file payload_file index_file eq_refl eq_refl eq_refl ∅ d _ Hd Hok 1 2 _ _ (mkLimits 4 4 2 LimitError)
    eq_refl eq_refl eq_refl eq_refl) as (bases & Hrun & Hspec & _).
  - repeat split; by vm_compute.
  - exists bases. split; [exact Hrun|exact Hspec].
Defined.
End Example_repository.
