(* ===== verification/LineStore.v ===== *)
(** * The line store

    [ait-core/src/line_binary_db/mod.rs] behind the trait of [line_store.rs]: the
    lines of development, each with a name, a status, times and a head snapshot,
    in a record file, a payload file of names and an index of name hashes. Lines
    are changed in write transactions and read in either kind of transaction. *)

From Stdlib Require Import NArith ZArith Lia.
From Stdlib Require Strings.Byte.
From stdpp Require Import base numbers strings gmap list.
From S2P Require Import Prelude Codec FileStore BinaryDb BinaryIndex ReadTxn WriteTxn ContentCodec ContentIds ContentStore Json.

Definition BINARY_DB_LINE_LAYOUT_ID : N := 1%N.
Definition LINE_RECORD_SIZE : nat := 40.
Definition LINE_BIN : string := "line.bin".
Definition LINE_NAME_PAYLOAD_BIN : string := "line_name_payload.bin".
Definition LINE_NAME_IDX : string := "line_name.idx".

(** ** Records *)

Record BinaryLineRecord : Type := mkLineRecord {
  line_meta : N;
  line_reserved0 : N;
  line_name_len : N;
  line_name_offset : N;
  head_snapshot_index_plus1 : N;
  line_created_at_s : N;
  line_updated_at_s : N;
  line_archived_at_s : N
}.

Definition META_ARCHIVED : N := 1%N.
Definition LINE_META_TOMBSTONE : N := 2%N.
Definition LINE_META_KNOWN : N := N.lor META_ARCHIVED LINE_META_TOMBSTONE.

Definition line_is_archived (r : BinaryLineRecord) : bool := has_bits (line_meta r) META_ARCHIVED.
Definition line_is_tombstone (r : BinaryLineRecord) : bool := has_bits (line_meta r) LINE_META_TOMBSTONE.
Definition head_snapshot_index (r : BinaryLineRecord) : option N := minus_one (head_snapshot_index_plus1 r).

(** [impl From<&str> for BinaryDbError] makes the kind [Other]. *)
Definition require_supported_line_layout (layout : N) : result BinaryDbErrorKind unit :=
  fail_if (negb (layout =? BINARY_DB_LINE_LAYOUT_ID)%N) Other.

Definition validate_line_record (r : BinaryLineRecord) : result BinaryDbErrorKind unit :=
  _ ← fail_if (has_bits (line_meta r) (255 - LINE_META_KNOWN)) Other;
  _ ← fail_if (negb (line_reserved0 r =? 0)%N) Other;
  _ ← fail_if (line_name_len r =? 0)%N Other;
  _ ← fail_if (line_name_offset r <? 4)%N Other;
  fail_if (negb (eqb (line_is_archived r) (negb (line_archived_at_s r =? 0)%N))) Other.

Definition encode_line_record (layout : N) (r : BinaryLineRecord) : result BinaryDbErrorKind bytes :=
  _ ← require_supported_line_layout layout;
  _ ← validate_line_record r;
  let out := push_u8 [] (line_meta r) in
  let out := push_u8 out (line_reserved0 r) in
  let out := push_u16 out (line_name_len r) in
  let out := push_u64 out (line_name_offset r) in
  let out := push_u32 out (head_snapshot_index_plus1 r) in
  let out := push_u64 out (line_created_at_s r) in
  let out := push_u64 out (line_updated_at_s r) in
  let out := push_u64 out (line_archived_at_s r) in
  _ ← fail_if (negb (Nat.eqb (length out) LINE_RECORD_SIZE)) Other;
  Ok out.

(** [from_le_bytes(raw[from..to].try_into().unwrap())] *)
Definition le_field (raw : bytes) (from to : nat) : N := from_le_bytes (take (to - from) (drop from raw)).

Definition decode_line_record (layout : N) (raw : bytes) : result BinaryDbErrorKind BinaryLineRecord :=
  _ ← require_supported_line_layout layout;
  _ ← fail_if (negb (Nat.eqb (length raw) LINE_RECORD_SIZE)) Other;
  let record := mkLineRecord (le_field raw 0 1) (le_field raw 1 2) (le_field raw 2 4) (le_field raw 4 12) (le_field raw 12 16)
    (le_field raw 16 24) (le_field raw 24 32) (le_field raw 32 40) in
  _ ← validate_line_record record;
  Ok record.

#[export] Instance line_codec : RecordCodec BinaryDbErrorKind BinaryLineRecord := {
  supported_layout layout := (layout =? BINARY_DB_LINE_LAYOUT_ID)%N;
  codec_size _ := LINE_RECORD_SIZE;
  record_ok _ r := fits 1 (line_meta r) /\ fits 1 (line_reserved0 r) /\ fits 2 (line_name_len r) /\ fits 8 (line_name_offset r) /\
    fits 4 (head_snapshot_index_plus1 r) /\ fits 8 (line_created_at_s r) /\ fits 8 (line_updated_at_s r) /\ fits 8 (line_archived_at_s r) /\
    validate_line_record r = Ok tt;
  encode_record := encode_line_record;
  decode_record := decode_line_record
}.

(** ** Files *)

Definition line_file (layout : N) : BinaryFileId := mkFileId LINE_BIN layout (N.of_nat LINE_RECORD_SIZE).
Definition line_name_payload_file (layout : N) : BinaryPayloadFileId := mkPayloadFileId LINE_NAME_PAYLOAD_BIN layout.
Definition line_name_index (layout : N) : BinaryIndexId := mkIndexId LINE_NAME_IDX layout (Some 8%N) false.

Definition require_supported_persisted_line_layout (layout : N) : result BinaryDbErrorKind unit :=
  fail_if (negb (layout =? BINARY_DB_LINE_LAYOUT_ID)%N) LayoutMismatch.

Definition line_record_file_for_layout (layout : N) : result BinaryDbErrorKind BinaryFileId :=
  _ ← require_supported_persisted_line_layout layout; Ok (line_file layout).
Definition line_payload_file_for_layout (layout : N) : result BinaryDbErrorKind BinaryPayloadFileId :=
  _ ← require_supported_persisted_line_layout layout; Ok (line_name_payload_file layout).
Definition line_index_for_layout (layout : N) : result BinaryDbErrorKind BinaryIndexId :=
  _ ← require_supported_persisted_line_layout layout; Ok (line_name_index layout).

(** The other arm of the match is unreachable. *)
Definition decode_line_record_for_layout (layout : N) (raw : bytes) : result BinaryDbErrorKind BinaryLineRecord :=
  if (layout =? BINARY_DB_LINE_LAYOUT_ID)%N then decode_line_record BINARY_DB_LINE_LAYOUT_ID raw
  else _ ← require_supported_persisted_line_layout layout; Err Other.

(** FNV-1a; multiplication wraps. *)
Definition line_name_hash64 (data : bytes) : N :=
  foldl (fun hash byte => (N.lxor hash (Byte.to_N byte) * 1099511628211) mod 2 ^ 64)%N 14695981039346656037%N data.

(** ** Errors *)

Inductive line_error : Type :=
| LineStoreError (kind : BinaryDbErrorKind)
| LineNameEmpty
| LineNameTooLong
| LineAlreadyExists (line_name : string)
| UnknownLine (line_name : string)
| SameLineNames
| HeadMismatch (expected actual : option string)
| HeadTombstoned (snapshot_index : N)
| UnknownLineSnapshot (snapshot_id : string)
| SnapshotIndexOverflow
| TimestampMissing
| TimestampInvalid
| TimestampBeforeEpoch
| TimestampOutOfRange
| UnsupportedLineStatus
| ActiveLineArchivedAt
| ArchivedLineWithoutTime.

(** [?] on a [StoreResult]. *)
Definition stored {S A} (m : stateful S BinaryDbErrorKind A) : stateful S line_error A := map_error LineStoreError m.

(** ** Times *)

(** What [chrono] does: the UTC seconds of an RFC 3339 text, and the text for
    seconds since the epoch, where its range allows it. *)
Class Chrono : Type := {
  parse_from_rfc3339 : string -> option Z;
  rfc3339_seconds : N -> option string
}.

Section Times.
Context {C : Chrono}.

(** [value.map(str::trim).filter(|value| !value.is_empty())] *)
Definition trimmed_text (value : option string) : option string :=
  v ← value; if bool_decide (trim v = EmptyString) then None else Some (trim v).

Definition parse_epoch_seconds (value : option string) : result line_error N :=
  match trimmed_text value with
  | None => Ok 0%N
  | Some value =>
      match parse_u64 value with
      | Some seconds => Ok seconds
      | None =>
          timestamp ← ok_or (parse_from_rfc3339 value) TimestampInvalid;
          _ ← fail_if (timestamp <? 0)%Z TimestampBeforeEpoch;
          Ok (Z.to_N timestamp)
      end
  end.

Definition parse_required_epoch_seconds (value : string) : result line_error N :=
  parsed ← parse_epoch_seconds (Some value);
  _ ← fail_if (parsed =? 0)%N TimestampMissing;
  Ok parsed.

Definition i64_max : N := 9223372036854775807%N.

Definition format_epoch_seconds (value : N) : result line_error (option string) :=
  if (value =? 0)%N then Ok None
  else
    _ ← fail_if (i64_max <? value)%N TimestampOutOfRange;
    text ← ok_or (rfc3339_seconds value) TimestampOutOfRange;
    Ok (Some text).

Definition normalize_line_name (line_name : string) : result line_error string :=
  let line_name := trim line_name in
  if bool_decide (line_name = EmptyString) then Err LineNameEmpty else Ok line_name.

Definition status_fields (status : string) (archived_at : option string) : result line_error (N * N) :=
  let status := trim status in
  if bool_decide (status = EmptyString) || bool_decide (status = "active"%string) then
    seconds ← parse_epoch_seconds archived_at;
    _ ← fail_if (negb (seconds =? 0)%N) ActiveLineArchivedAt;
    Ok (0%N, 0%N)
  else if bool_decide (status = "archived"%string) then
    archived_at_s ← parse_epoch_seconds archived_at;
    _ ← fail_if (archived_at_s =? 0)%N ArchivedLineWithoutTime;
    Ok (META_ARCHIVED, archived_at_s)
  else Err UnsupportedLineStatus.
End Times.

(** ** Reading in either kind of transaction *)

Class LineReadAccess (S : Type) : Type := {
  access_record : LocalBinaryDbFs -> BinaryFileId -> N -> stateful S BinaryDbErrorKind bytes;
  access_payload : LocalBinaryDbFs -> BinaryPayloadFileId -> N -> N -> stateful S BinaryDbErrorKind bytes;
  access_lookup : LocalBinaryDbFs -> BinaryIndexId -> bytes -> stateful S BinaryDbErrorKind (list N)
}.
#[export] Instance read_txn_access : LineReadAccess (BinaryDbReadCache * io_state) := {
  access_record := read_record_in_read_txn;
  access_payload := read_txn_payload;
  access_lookup := lookup_index_in_read_txn
}.
#[export] Instance write_txn_access : LineReadAccess BinaryDbWriteTxn := {
  access_record := txn_read_record;
  access_payload := txn_read_payload;
  access_lookup := txn_lookup_index
}.

(** [LineRecord] of the trait. *)
Record LineRecord : Type := mkLineView {
  line_id : string;
  line_name_text : string;
  line_status : string;
  archived_at : option string;
  created_at : option string;
  updated_at : option string;
  head_snapshot_id : option string
}.

Definition line_identity_from_index (line_index : N) : string :=
  ("LNE-" ++ string_of_bytes (hex_padded 8 (N.min (line_index + 1) u32_max)))%string.

Section Access.
Context {S : Type} {A : LineReadAccess S} {C : Chrono} (fs : LocalBinaryDbFs).

Definition read_line_name_for_layout (record : BinaryLineRecord) (layout : N) : stateful S BinaryDbErrorKind string :=
  file ← lift (line_payload_file_for_layout layout);
  raw ← access_payload fs file (line_name_offset record) (line_name_len record);
  _ ← lift (fail_if (negb (valid_utf8 raw)) Other);
  mret (string_of_bytes raw).

(** The loop of [find_line_for_layout]. *)
Fixpoint first_line (layout : N) (line_name : string) (candidates : list N) : stateful S BinaryDbErrorKind (option (N * BinaryLineRecord)) :=
  match candidates with
  | [] => mret None
  | line_index :: candidates =>
      file ← lift (line_record_file_for_layout layout);
      raw ← access_record fs file line_index;
      record ← lift (decode_line_record_for_layout layout raw);
      if line_is_tombstone record then first_line layout line_name candidates
      else
        stored_name ← read_line_name_for_layout record layout;
        if bool_decide (stored_name = line_name) then mret (Some (line_index, record)) else first_line layout line_name candidates
  end.

Definition line_name_key (line_name : string) : bytes := to_le_bytes 8 (line_name_hash64 (bytes_of_string line_name)).

Definition find_line_for_layout (line_name : string) (layout : N) : stateful S BinaryDbErrorKind (option (N * BinaryLineRecord)) :=
  let line_name := trim line_name in
  if bool_decide (line_name = EmptyString) then mret None
  else
    index ← lift (line_index_for_layout layout);
    candidates ← access_lookup fs index (line_name_key line_name);
    first_line layout line_name candidates.

Definition find_line (line_name : string) : stateful S BinaryDbErrorKind (option (N * BinaryLineRecord)) :=
  find_line_for_layout line_name BINARY_DB_LINE_LAYOUT_ID.

Definition snapshot_id_at (index : N) : stateful S line_error string :=
  raw ← stored (access_record fs (snapshot_file 1) index);
  record ← stored (lift (map_err content_error_kind (decode_snapshot_record 1 raw)));
  _ ← lift (fail_if (snapshot_is_tombstone record) (HeadTombstoned index));
  mret (snapshot_id_from_hash48 (snapshot_hash48 record)).

Definition line_status_of (record : BinaryLineRecord) : string :=
  if line_is_tombstone record then "deleted" else if line_is_archived record then "archived" else "active".

Definition line_record_view_for_layout (line_index : N) (record : BinaryLineRecord) (layout : N) : stateful S line_error LineRecord :=
  line_name ← stored (read_line_name_for_layout record layout);
  archived_at ← lift (format_epoch_seconds (line_archived_at_s record));
  created_at ← lift (format_epoch_seconds (line_created_at_s record));
  updated_at ← lift (format_epoch_seconds (line_updated_at_s record));
  head_snapshot_id ← (match head_snapshot_index record with None => mret None | Some index => id ← snapshot_id_at index; mret (Some id) end);
  mret (mkLineView (line_identity_from_index line_index) line_name (line_status_of record) archived_at created_at updated_at head_snapshot_id).

Definition line_record_view (line_index : N) (record : BinaryLineRecord) : stateful S line_error LineRecord :=
  line_record_view_for_layout line_index record BINARY_DB_LINE_LAYOUT_ID.

(** The loop of [resolve_snapshot_index_plus1]. *)
Fixpoint first_head (snapshot_id : string) (candidates : list N) : stateful S line_error N :=
  match candidates with
  | [] => lift (Err (UnknownLineSnapshot snapshot_id))
  | index :: candidates =>
      id ← snapshot_id_at index;
      if eq_ignore_ascii_case id snapshot_id then
        _ ← lift (fail_if (u32_max <=? index)%N SnapshotIndexOverflow); mret (index + 1)%N
      else first_head snapshot_id candidates
  end.

Definition resolve_snapshot_index_plus1 (snapshot_id : option string) : stateful S line_error N :=
  match trimmed_text snapshot_id with
  | None => mret 0%N
  | Some snapshot_id =>
      key ← lift (map_err (fun e => LineStoreError (id_error_kind e)) (snapshot_id_index_key snapshot_id));
      candidates ← stored (access_lookup fs (snapshot_id_index 1) key);
      first_head snapshot_id candidates
  end.
End Access.

(** ** Read transactions *)

Section Reads.
Context {C : Chrono} (fs : LocalBinaryDbFs).

Abbreviation read_line := (stateful (BinaryDbReadCache * io_state) line_error).

Definition persisted_line_layout : cached (option N) :=
  layout ← unless_missing (read_txn_layout_id fs (line_file BINARY_DB_LINE_LAYOUT_ID));
  match layout with
  | None => mret None
  | Some layout => _ ← lift (require_supported_persisted_line_layout layout); mret (Some layout)
  end.

(** The loops over [0..count] read one record per round. *)
Fixpoint lines_from (layout : N) (file : BinaryFileId) (rounds : nat) (line_index : N) : read_line (list LineRecord) :=
  match rounds with
  | O => mret []
  | Datatypes.S rounds =>
      raw ← stored (read_record_in_read_txn fs file line_index);
      record ← stored (lift (decode_line_record_for_layout layout raw));
      if line_is_tombstone record then lines_from layout file rounds (line_index + 1)
      else
        line ← line_record_view_for_layout fs line_index record layout;
        lines ← lines_from layout file rounds (line_index + 1);
        mret (line :: lines)
  end.

Definition list_lines_with_read : read_line (list LineRecord) :=
  layout ← stored persisted_line_layout;
  match layout with
  | None => mret []
  | Some layout =>
      file ← stored (lift (line_record_file_for_layout layout));
      count ← stored (read_txn_record_count fs file);
      lines_from layout file (N.to_nat count) 0
  end.

Fixpoint live_lines (layout : N) (file : BinaryFileId) (rounds : nat) (line_index logical_count : N) : read_line N :=
  match rounds with
  | O => mret logical_count
  | Datatypes.S rounds =>
      raw ← stored (read_record_in_read_txn fs file line_index);
      record ← stored (lift (decode_line_record_for_layout layout raw));
      live_lines layout file rounds (line_index + 1) (if line_is_tombstone record then logical_count else logical_count + 1)
  end.

Definition line_count_with_read : read_line N :=
  layout ← stored persisted_line_layout;
  match layout with
  | None => mret 0%N
  | Some layout =>
      file ← stored (lift (line_record_file_for_layout layout));
      count ← stored (read_txn_record_count fs file);
      live_lines layout file (N.to_nat count) 0 0
  end.

Definition find_line_with_persisted_layout (line_name : string) : cached (option (N * BinaryLineRecord)) :=
  layout ← persisted_line_layout;
  match layout with None => mret None | Some layout => find_line_for_layout fs line_name layout end.

Definition line_index_by_name_with_read (line_name : string) : read_line (option N) :=
  found ← stored (find_line_with_persisted_layout line_name); mret (fst <$> found).

Definition line_by_name_with_read (line_name : string) : read_line (option LineRecord) :=
  layout ← stored persisted_line_layout;
  match layout with
  | None => mret None
  | Some layout =>
      found ← stored (find_line_for_layout fs line_name layout);
      match found with
      | None => mret None
      | Some (line_index, record) => line ← line_record_view_for_layout fs line_index record layout; mret (Some line)
      end
  end.

Definition binary_line_index_by_name (line_name : string) : cached (option N) :=
  found ← find_line_with_persisted_layout line_name; mret (fst <$> found).

Definition binary_line_name_at (line_index : N) : cached string :=
  layout ← persisted_line_layout;
  layout ← lift (ok_or layout MissingData);
  file ← lift (line_record_file_for_layout layout);
  raw ← read_record_in_read_txn fs file line_index;
  record ← lift (decode_line_record_for_layout layout raw);
  read_line_name_for_layout fs record layout.

(** A method of the store, which opens a read transaction of its own. *)
Definition with_read {A} (m : read_line A) (s : io_state) : result line_error A := fst (m (empty_cache, s)).

Definition list_lines (s : io_state) : result line_error (list LineRecord) := with_read list_lines_with_read s.
Definition line_count (s : io_state) : result line_error N := with_read line_count_with_read s.
Definition line_by_name (line_name : string) (s : io_state) : result line_error (option LineRecord) := with_read (line_by_name_with_read line_name) s.
Definition line_updated_at (line_name : string) (s : io_state) : result line_error (option string) :=
  line ← line_by_name line_name s; Ok (line ≫= updated_at).
End Reads.

(** ** Write transactions *)

Section Writes.
Context {C : Chrono} (fs : LocalBinaryDbFs) (write_layout : N) (lock : lock_set).

Abbreviation write_line := (stateful BinaryDbWriteTxn line_error).

(** A method of the store that opens a transaction for content; it is dropped at
    the end, and undone when it was not committed. *)
Definition in_write_txn {A} (body : write_line A) (s : io_state) : result line_error A * io_state :=
  let '(r, t) := body (begin ContentWrite lock s) in (r, files (drop_txn fs t)).

Definition append_line_in_txn (line_name : string) (meta created_at_s updated_at_s archived_at_s head_plus1 : N) : write_line (N * BinaryLineRecord) :=
  let line_name_bytes := bytes_of_string line_name in
  _ ← lift (fail_if (65535 <? N.of_nat (length line_name_bytes))%N LineNameTooLong);
  range ← stored (txn_append_payload fs (line_name_payload_file write_layout) line_name_bytes);
  let record := mkLineRecord meta 0 (N.of_nat (length line_name_bytes)) (payload_range_offset range) head_plus1 created_at_s updated_at_s archived_at_s in
  encoded ← stored (lift (encode_line_record write_layout record));
  line_index ← stored (txn_append_record fs (line_file write_layout) encoded);
  _ ← stored (txn_append_index_candidate fs (line_name_index write_layout) (line_name_key line_name) line_index);
  mret (line_index, record).

Definition mutate_line (line_index : N) (record : BinaryLineRecord) : write_line unit :=
  encoded ← stored (lift (encode_line_record write_layout record));
  stored (txn_overwrite_record fs (line_file write_layout) line_index encoded).

Definition require_absent (line_name : string) : write_line unit :=
  found ← stored (find_line fs line_name);
  lift (fail_if (is_some found) (LineAlreadyExists line_name)).

Definition require_line (line_name : string) : write_line (N * BinaryLineRecord) :=
  found ← stored (find_line fs line_name);
  lift (ok_or found (UnknownLine line_name)).

(** [mutate_line], the view of the new record, and [tx.commit()]. *)
Definition mutate_view_commit (line_index : N) (record : BinaryLineRecord) : write_line LineRecord :=
  _ ← mutate_line line_index record;
  view ← line_record_view fs line_index record;
  _ ← stored commit;
  mret view.

Definition binary_line_index_by_name_in_write (line_name : string) : stateful BinaryDbWriteTxn BinaryDbErrorKind (option N) :=
  found ← find_line fs line_name; mret (fst <$> found).

(** The arguments of a method, checked before its transaction begins. *)
Definition checked {A B} (args : result line_error A) (method : A -> io_state -> result line_error B * io_state) (s : io_state) : result line_error B * io_state :=
  match (_ ← map_err LineStoreError (require_supported_line_layout write_layout); args) with
  | Err e => (Err e, s)
  | Ok a => method a s
  end.

Definition create_line (line_name : string) (head_snapshot_id : option string) (created_at : string) : io_state -> result line_error LineRecord * io_state :=
  checked (line_name ← normalize_line_name line_name; created_at_s ← parse_required_epoch_seconds created_at; Ok (line_name, created_at_s))
    (fun '(line_name, created_at_s) => in_write_txn (
      _ ← require_absent line_name;
      head_plus1 ← resolve_snapshot_index_plus1 fs head_snapshot_id;
      '(line_index, record) ← append_line_in_txn line_name 0 created_at_s created_at_s 0 head_plus1;
      view ← line_record_view fs line_index record;
      _ ← stored commit;
      mret view)).

Definition append_line_for_bootstrap (line_name status : string) (created_at updated_at archived_at head_snapshot_id : option string)
  : io_state -> result line_error N * io_state :=
  checked (normalize_line_name line_name)
    (fun line_name => in_write_txn (
      _ ← require_absent line_name;
      '(meta, archived_at_s) ← lift (status_fields status archived_at);
      created_at_s ← lift (parse_epoch_seconds created_at);
      updated_at_s ← lift (parse_epoch_seconds updated_at);
      head_plus1 ← resolve_snapshot_index_plus1 fs head_snapshot_id;
      '(line_index, _) ← append_line_in_txn line_name meta created_at_s updated_at_s archived_at_s head_plus1;
      _ ← stored commit;
      mret line_index)).

(** Assignments to fields of a record. *)
Definition archived_record (r : BinaryLineRecord) (seconds : N) : BinaryLineRecord :=
  mkLineRecord (N.lor (line_meta r) META_ARCHIVED) (line_reserved0 r) (line_name_len r) (line_name_offset r) (head_snapshot_index_plus1 r)
    (line_created_at_s r) seconds seconds.
Definition deleted_record (r : BinaryLineRecord) (seconds : N) : BinaryLineRecord :=
  mkLineRecord (N.lor (line_meta r) (N.lor LINE_META_TOMBSTONE META_ARCHIVED)) (line_reserved0 r) (line_name_len r) (line_name_offset r)
    (head_snapshot_index_plus1 r) (line_created_at_s r) seconds seconds.
Definition renamed_record (r : BinaryLineRecord) (len offset seconds : N) : BinaryLineRecord :=
  mkLineRecord (line_meta r) (line_reserved0 r) len offset (head_snapshot_index_plus1 r) (line_created_at_s r) seconds (line_archived_at_s r).
Definition headed_record (r : BinaryLineRecord) (head_plus1 seconds : N) : BinaryLineRecord :=
  mkLineRecord (line_meta r) (line_reserved0 r) (line_name_len r) (line_name_offset r) head_plus1 (line_created_at_s r) seconds (line_archived_at_s r).
Definition touched_record (r : BinaryLineRecord) (seconds : N) : BinaryLineRecord :=
  mkLineRecord (line_meta r) (line_reserved0 r) (line_name_len r) (line_name_offset r) (head_snapshot_index_plus1 r) (line_created_at_s r) seconds
    (line_archived_at_s r).

Definition name_and_time (line_name time : string) : result line_error (string * N) :=
  line_name ← normalize_line_name line_name; seconds ← parse_required_epoch_seconds time; Ok (line_name, seconds).

Definition archive_line (line_name archived_at : string) : io_state -> result line_error LineRecord * io_state :=
  checked (name_and_time line_name archived_at)
    (fun '(line_name, archived_at_s) => in_write_txn (
      '(line_index, record) ← require_line line_name;
      if line_is_archived record then line_record_view fs line_index record
      else mutate_view_commit line_index (archived_record record archived_at_s))).

Definition rename_line (old_line_name new_line_name updated_at : string) : io_state -> result line_error LineRecord * io_state :=
  checked (old_line_name ← normalize_line_name old_line_name;
           new_line_name ← normalize_line_name new_line_name;
           _ ← fail_if (bool_decide (old_line_name = new_line_name)) SameLineNames;
           updated_at_s ← parse_required_epoch_seconds updated_at;
           Ok (old_line_name, new_line_name, updated_at_s))
    (fun '(old_line_name, new_line_name, updated_at_s) => in_write_txn (
      _ ← require_absent new_line_name;
      '(line_index, record) ← require_line old_line_name;
      let new_name_bytes := bytes_of_string new_line_name in
      _ ← lift (fail_if (65535 <? N.of_nat (length new_name_bytes))%N LineNameTooLong);
      range ← stored (txn_append_payload fs (line_name_payload_file write_layout) new_name_bytes);
      let record := renamed_record record (N.of_nat (length new_name_bytes)) (payload_range_offset range) updated_at_s in
      _ ← mutate_line line_index record;
      candidates ← stored (txn_lookup_index fs (line_name_index write_layout) (line_name_key new_line_name));
      _ ← (if bool_decide (line_index ∈ candidates) then mret tt
           else stored (txn_append_index_candidate fs (line_name_index write_layout) (line_name_key new_line_name) line_index));
      view ← line_record_view fs line_index record;
      _ ← stored commit;
      mret view)).

Definition delete_line (line_name deleted_at : string) : io_state -> result line_error LineRecord * io_state :=
  checked (name_and_time line_name deleted_at)
    (fun '(line_name, deleted_at_s) => in_write_txn (
      '(line_index, record) ← require_line line_name;
      mutate_view_commit line_index (deleted_record record deleted_at_s))).

Definition set_line_head (line_name : string) (head_snapshot_id : option string) (updated_at : string) : io_state -> result line_error LineRecord * io_state :=
  checked (name_and_time line_name updated_at)
    (fun '(line_name, updated_at_s) => in_write_txn (
      '(line_index, record) ← require_line line_name;
      head_plus1 ← resolve_snapshot_index_plus1 fs head_snapshot_id;
      mutate_view_commit line_index (headed_record record head_plus1 updated_at_s))).

Definition compare_and_swap_line_head (line_name : string) (expected_head_snapshot_id head_snapshot_id : option string) (updated_at : string)
  : io_state -> result line_error LineRecord * io_state :=
  checked (name_and_time line_name updated_at)
    (fun '(line_name, updated_at_s) => in_write_txn (
      '(line_index, record) ← require_line line_name;
      current ← line_record_view fs line_index record;
      if bool_decide (LineStore.head_snapshot_id current = expected_head_snapshot_id) then
        head_plus1 ← resolve_snapshot_index_plus1 fs head_snapshot_id;
        mutate_view_commit line_index (headed_record record head_plus1 updated_at_s)
      else
        _ ← stored (abort fs);
        lift (Err (HeadMismatch expected_head_snapshot_id (LineStore.head_snapshot_id current))))).

Definition set_line_updated_at (line_name : string) (updated_at : option string) : io_state -> result line_error unit * io_state :=
  checked (line_name ← normalize_line_name line_name; updated_at_s ← parse_epoch_seconds updated_at; Ok (line_name, updated_at_s))
    (fun '(line_name, updated_at_s) => in_write_txn (
      '(line_index, record) ← require_line line_name;
      _ ← mutate_line line_index (touched_record record updated_at_s);
      _ ← stored commit;
      mret tt)).

Definition touch_line_updated_at (line_name updated_at : string) (s : io_state) : result line_error unit * io_state :=
  match parse_required_epoch_seconds updated_at with
  | Err e => (Err e, s)
  | Ok _ => set_line_updated_at line_name (Some updated_at) s
  end.
End Writes.
