(* ===== verification/LineLog.v ===== *)
(** * The lines that the files hold

    The three files of [LineStore] hold a list of lines, in the order of their
    creation. Looking a line up by its name, showing it, resolving the snapshot it
    is to point at and listing all lines are functions of that list and of the log
    of snapshots, in either kind of transaction. *)

From Stdlib Require Import NArith ZArith Lia.
From Stdlib Require Strings.Byte.
From stdpp Require Import base numbers strings gmap list.
From S2P Require Import Prelude Text Codec FileStore BinaryDb RecordTable BinaryIndex ReadTxn WriteTxn PayloadFile QuietTxn ContentIds ContentCodec ContentStore.
From S2P Require Import SnapshotLog LineStore.

Local Abbreviation L := BINARY_DB_LINE_LAYOUT_ID.

(** ** The record codec is exact *)

Lemma le_field_at pre w n post from to : length pre = from -> to = from + w -> (n < 256 ^ N.of_nat w)%N ->
  le_field (pre ++ to_le_bytes w n ++ post) from to = n.
Proof.
  intros <- -> Hn. unfold le_field. rewrite drop_app_length. replace (length pre + w - length pre) with w by lia.
  rewrite take_app_le, firstn_all2 by (by rewrite length_to_le_bytes). by apply from_to_le_bytes.
Qed.

Lemma field_bytes raw from w : from + w <= length raw -> to_le_bytes w (le_field raw from (from + w)) = take w (drop from raw) /\ fits w (le_field raw from (from + w)).
Proof.
  intros Hlen. unfold le_field. replace (from + w - from) with w by lia. assert (length (take w (drop from raw)) = w) as Hw by (rewrite length_take, length_drop; lia).
  split; [rewrite <- Hw at 1; apply to_from_le_bytes|]. unfold fits. rewrite <- Hw at 2. apply from_le_bytes_lt.
Qed.

Lemma cut_field (raw : bytes) from to w : to = from + w -> to <= length raw -> drop from raw = take w (drop from raw) ++ drop to raw.
Proof. intros -> H. by rewrite <- (take_drop w (drop from raw)) at 1; rewrite drop_drop. Qed.

#[export] Instance line_codec_lawful : LawfulRecordCodec BinaryDbErrorKind BinaryLineRecord.
Proof.
  split; cbn [supported_layout codec_size encode_record decode_record record_ok line_codec]; unfold encode_line_record, decode_line_record.
  - intros layout r Hl (H1 & H2 & H3 & H4 & H5 & H6 & H7 & H8 & Hv). unfold require_supported_line_layout. rewrite Hl. cbn [negb fail_if mbind result_bind].
    rewrite Hv. cbn [mbind result_bind]. unfold push_u8, push_u16, push_u32, push_u64.
    rewrite !length_app, !length_to_le_bytes. cbn [length Nat.add Nat.eqb LINE_RECORD_SIZE negb fail_if mbind result_bind].
    eexists. split; [done|]. rewrite app_nil_l, !length_app, !length_to_le_bytes. split; [done|]. cbn [Nat.add Nat.eqb LINE_RECORD_SIZE negb fail_if mbind result_bind].
    rewrite <- !app_assoc. set (raw := to_le_bytes 1 (line_meta r) ++ _).
    assert (mkLineRecord (le_field raw 0 1) (le_field raw 1 2) (le_field raw 2 4) (le_field raw 4 12) (le_field raw 12 16)
      (le_field raw 16 24) (le_field raw 24 32) (le_field raw 32 40) = r) as ->; [|by rewrite Hv].
    destruct r as [meta reserved len off head created updated archived]. cbn in H1, H2, H3, H4, H5, H6, H7, H8. unfold raw. cbn [line_meta line_reserved0 line_name_len
      line_name_offset head_snapshot_index_plus1 line_created_at_s line_updated_at_s line_archived_at_s]. f_equal.
    + by apply (le_field_at [] 1).
    + by apply (le_field_at (to_le_bytes 1 meta) 1).
    + rewrite (app_assoc (to_le_bytes 1 meta)). by apply le_field_at.
    + rewrite !(app_assoc (to_le_bytes 1 meta)), (app_assoc (_ ++ _) (to_le_bytes 2 len)). by apply le_field_at.
    + rewrite !(app_assoc (to_le_bytes 1 meta)), (app_assoc (_ ++ _) (to_le_bytes 2 len)), (app_assoc (_ ++ _) (to_le_bytes 8 off)). by apply le_field_at.
    + rewrite !(app_assoc (to_le_bytes 1 meta)), (app_assoc (_ ++ _) (to_le_bytes 2 len)), (app_assoc (_ ++ _) (to_le_bytes 8 off)), (app_assoc (_ ++ _) (to_le_bytes 4 head)).
      by apply le_field_at.
    + rewrite !(app_assoc (to_le_bytes 1 meta)), (app_assoc (_ ++ _) (to_le_bytes 2 len)), (app_assoc (_ ++ _) (to_le_bytes 8 off)), (app_assoc (_ ++ _) (to_le_bytes 4 head)),
        (app_assoc (_ ++ _) (to_le_bytes 8 created)). by apply le_field_at.
    + rewrite !(app_assoc (to_le_bytes 1 meta)), (app_assoc (_ ++ _) (to_le_bytes 2 len)), (app_assoc (_ ++ _) (to_le_bytes 8 off)), (app_assoc (_ ++ _) (to_le_bytes 4 head)),
        (app_assoc (_ ++ _) (to_le_bytes 8 created)), (app_assoc (_ ++ _) (to_le_bytes 8 updated)), <- (app_nil_r (to_le_bytes 8 archived)). by apply le_field_at.
  - intros layout raw r H. unfold require_supported_line_layout in *. apply bind_Ok in H as (u1 & Hl%fail_if_Ok & H).
    apply bind_Ok in H as (u2 & Hlen%fail_if_Ok%negb_false_iff%Nat.eqb_eq & H). change LINE_RECORD_SIZE with 40 in *. cbv zeta in H. apply bind_Ok in H as ([] & Hv & [= <-]).
    destruct (field_bytes raw 0 1) as [E1 F1]; [lia|]. destruct (field_bytes raw 1 1) as [E2 F2]; [lia|]. destruct (field_bytes raw 2 2) as [E3 F3]; [lia|].
    destruct (field_bytes raw 4 8) as [E4 F4]; [lia|]. destruct (field_bytes raw 12 4) as [E5 F5]; [lia|]. destruct (field_bytes raw 16 8) as [E6 F6]; [lia|].
    destruct (field_bytes raw 24 8) as [E7 F7]; [lia|]. destruct (field_bytes raw 32 8) as [E8 F8]; [lia|]. cbn [Nat.add] in *.
    split; [by split_and!|]. split; [done|]. rewrite Hl. cbn [fail_if mbind result_bind]. rewrite Hv. cbn [mbind result_bind].
    cbn [line_meta line_reserved0 line_name_len line_name_offset head_snapshot_index_plus1 line_created_at_s line_updated_at_s line_archived_at_s].
    unfold push_u8, push_u16, push_u32, push_u64. rewrite E1, E2, E3, E4, E5, E6, E7, E8, app_nil_l, <- !app_assoc.
    assert (take 1 (drop 0 raw) ++ take 1 (drop 1 raw) ++ take 2 (drop 2 raw) ++ take 8 (drop 4 raw) ++ take 4 (drop 12 raw) ++ take 8 (drop 16 raw) ++
      take 8 (drop 24 raw) ++ take 8 (drop 32 raw) = raw) as ->; [|by rewrite Hlen].
    assert (drop 40 raw = []) as Hend by (apply drop_ge; lia). rewrite <- (app_nil_r (take 8 (drop 32 raw))), <- Hend.
    rewrite <- (cut_field raw 32 40), <- (cut_field raw 24 32), <- (cut_field raw 16 24), <- (cut_field raw 12 16), <- (cut_field raw 4 12), <- (cut_field raw 2 4),
      <- (cut_field raw 1 2), <- (cut_field raw 0 1) by lia. done.
  - intros layout Hl. unfold require_supported_line_layout. rewrite Hl. by split.
Qed.

(** ** Lines *)

(** A line, without the place of its name. *)
Record line : Type := mkLine {
  ln_name : string;
  ln_archived : bool;
  ln_deleted : bool;
  ln_head : option N;
  ln_created : N;
  ln_updated : N;
  ln_archived_at : N
}.

Definition ln_live (l : line) : bool := negb (ln_deleted l).
Definition name_length (l : line) : N := N.of_nat (length (bytes_of_string (ln_name l))).
Definition plus_one (i : option N) : N := match i with Some i => (i + 1)%N | None => 0%N end.
Definition line_bits (l : line) : N := N.lor (if ln_archived l then META_ARCHIVED else 0%N) (if ln_deleted l then LINE_META_TOMBSTONE else 0%N).

(** The record of a line whose name is at [offset]. *)
Definition line_record (offset : N) (l : line) : BinaryLineRecord :=
  mkLineRecord (line_bits l) 0 (name_length l) offset (plus_one (ln_head l)) (ln_created l) (ln_updated l) (ln_archived_at l).

Lemma line_record_flags offset l : line_is_archived (line_record offset l) = ln_archived l /\ line_is_tombstone (line_record offset l) = ln_deleted l /\
  head_snapshot_index (line_record offset l) = ln_head l.
Proof.
  split_and!; [by destruct l as [? [] [] ? ? ? ?]..|]. unfold head_snapshot_index, minus_one. cbn. destruct (ln_head l) as [i|]; [|done]. cbn.
  rewrite (proj2 (N.eqb_neq _ _)) by lia. f_equal. lia.
Qed.

(** The abstract changes of a line. *)
Definition archived (seconds : N) (l : line) : line := mkLine (ln_name l) true (ln_deleted l) (ln_head l) (ln_created l) seconds seconds.
Definition deleted (seconds : N) (l : line) : line := mkLine (ln_name l) true true (ln_head l) (ln_created l) seconds seconds.
Definition renamed (name : string) (seconds : N) (l : line) : line :=
  mkLine name (ln_archived l) (ln_deleted l) (ln_head l) (ln_created l) seconds (ln_archived_at l).
Definition headed (head : option N) (seconds : N) (l : line) : line :=
  mkLine (ln_name l) (ln_archived l) (ln_deleted l) head (ln_created l) seconds (ln_archived_at l).
Definition touched (seconds : N) (l : line) : line :=
  mkLine (ln_name l) (ln_archived l) (ln_deleted l) (ln_head l) (ln_created l) seconds (ln_archived_at l).

(** They are what the methods assign to the fields of the record. *)
Lemma changed_records offset offset' name seconds head l :
  archived_record (line_record offset l) seconds = line_record offset (archived seconds l) /\
  deleted_record (line_record offset l) seconds = line_record offset (deleted seconds l) /\
  renamed_record (line_record offset l) (N.of_nat (length (bytes_of_string name))) offset' seconds = line_record offset' (renamed name seconds l) /\
  headed_record (line_record offset l) (plus_one head) seconds = line_record offset (headed head seconds l) /\
  touched_record (line_record offset l) seconds = line_record offset (touched seconds l).
Proof. unfold archived_record, deleted_record. split_and!; [by destruct l as [? [] [] ? ? ? ?]..|done|done|done]. Qed.

Section Lines.
Context {C : Chrono} (es : list entry).

(** A time that can be shown. *)
Definition shows (seconds : N) : Prop := is_ok (format_epoch_seconds seconds) = true.
Definition shown (seconds : N) : option string := match format_epoch_seconds seconds with Ok text => text | Err _ => None end.

Lemma shows_format seconds : shows seconds -> format_epoch_seconds seconds = Ok (shown seconds).
Proof. unfold shows, shown. by destruct (format_epoch_seconds seconds). Qed.

Lemma shows_zero : shows 0.
Proof. done. Qed.

Lemma shows_fits seconds : shows seconds -> fits 8 seconds.
Proof.
  unfold shows, format_epoch_seconds, fits. change (256 ^ N.of_nat 8)%N with 18446744073709551616%N. destruct (N.eqb_spec seconds 0) as [->|_]; [by intros _|].
  destruct (N.ltb_spec i64_max seconds) as [|H]; [done|]. intros _. unfold i64_max in H. lia.
Qed.

(** Names that [normalize_line_name] gives for texts, and that a record can hold. *)
Record name_ok (name : string) : Prop := {
  no_solid : name <> EmptyString;
  no_length : (N.of_nat (length (bytes_of_string name)) <= 65535)%N;
  no_trim : trim name = name;
  no_utf8 : utf8_string name
}.

(** The snapshot that a head points at is a live one of the log. *)
Definition head_ok (head : option N) : Prop := match head with None => True | Some i => exists e, es !! N.to_nat i = Some e /\ entry_live e = true end.

Record line_ok (l : line) : Prop := {
  lo_name : name_ok (ln_name l);
  lo_archived : ln_archived l = negb (ln_archived_at l =? 0)%N;
  lo_created : shows (ln_created l);
  lo_updated : shows (ln_updated l);
  lo_archived_at : shows (ln_archived_at l);
  lo_head : head_ok (ln_head l)
}.

(** Live lines have different names. *)
Record lines_ok (ls : list line) : Prop := {
  ls_lines : Forall line_ok ls;
  ls_names : forall i j l l', ls !! i = Some l -> ls !! j = Some l' -> ln_live l = true -> ln_live l' = true -> ln_name l = ln_name l' -> i = j
}.

Lemma name_length_pos name : name_ok name -> (0 < N.of_nat (length (bytes_of_string name)))%N.
Proof.
  intros [H _ _ _]. destruct (bytes_of_string name) eqn:Hn; [|cbn; lia]. destruct H. rewrite <- (string_of_bytes_of_string name), Hn. done.
Qed.

Lemma line_record_ok offset l : (N.of_nat (length es) <= u32_max)%N -> line_ok l -> (4 <= offset)%N -> fits 8 offset -> record_ok L (line_record offset l).
Proof.
  intros Hcount [Hname Harch H1 H2 H3 Hhead] Hoff Hfit. pose proof (name_length_pos _ Hname) as Hpos. destruct Hname as [_ Hlen _ _].
  cbn [record_ok line_codec]. unfold line_record. cbn [line_meta line_reserved0 line_name_len line_name_offset head_snapshot_index_plus1 line_created_at_s line_updated_at_s line_archived_at_s].
  split_and!; try by apply shows_fits.
  - unfold line_bits. by destruct (ln_archived l), (ln_deleted l).
  - done.
  - unfold fits, name_length. change (256 ^ N.of_nat 2)%N with 65536%N. lia.
  - done.
  - unfold fits. change (256 ^ N.of_nat 4)%N with 4294967296%N. unfold plus_one, u32_max, head_ok in *. destruct (ln_head l) as [i|]; [|lia].
    destruct Hhead as (e & He%lookup_lt_Some & _). lia.
  - unfold validate_line_record. change (mkLineRecord _ _ _ _ _ _ _ _) with (line_record offset l). destruct (line_record_flags offset l) as (-> & _ & _).
    cbn [line_record line_meta line_reserved0 line_name_len line_name_offset line_archived_at_s].
    assert (has_bits (line_bits l) (255 - LINE_META_KNOWN) = false) as -> by (unfold line_bits; by destruct (ln_archived l), (ln_deleted l)).
    unfold name_length. rewrite (proj2 (N.eqb_neq (N.of_nat (length (bytes_of_string (ln_name l)))) 0)), (proj2 (N.ltb_ge offset 4)) by lia. cbn [fail_if mbind result_bind N.eqb negb]. rewrite Harch. by destruct (negb _).
Qed.

(** ** Finding a line *)

(** The first live line with the name, with its index. *)
Definition find_name (name : string) (ls : list line) : option (nat * line) := list_find (fun l => ln_live l = true /\ ln_name l = name) ls.

Lemma find_name_Some name ls i l : lines_ok ls -> find_name name ls = Some (i, l) <-> ls !! i = Some l /\ ln_live l = true /\ ln_name l = name.
Proof.
  intros Hok. unfold find_name. split; [by intros (? & [? ?] & _)%list_find_Some|]. intros (Hi & Hl & Hn). apply list_find_Some. split_and!; [done|done|done|].
  intros j l' Hj Hlt [Hl' Hn']. assert (j = i) by (apply (ls_names _ Hok j i l' l); congruence). lia.
Qed.

Lemma find_name_None name ls : find_name name ls = None <-> forall i l, ls !! i = Some l -> ln_live l = true -> ln_name l <> name.
Proof.
  unfold find_name. rewrite list_find_None, Forall_lookup. split.
  - intros H i l Hi Hl Hn. by apply (H i l Hi).
  - intros H i l Hi [Hl Hn]. by apply (H i l Hi).
Qed.

(** The name of the head, for a log that has it. *)
Definition head_name (head : option N) : option string := i ← head; e ← es !! N.to_nat i; Some (entry_name e).

(** How a line is shown. *)
Definition view_of (i : nat) (l : line) : LineRecord :=
  mkLineView (line_identity_from_index (N.of_nat i)) (ln_name l) (if ln_deleted l then "deleted" else if ln_archived l then "archived" else "active")
    (shown (ln_archived_at l)) (shown (ln_created l)) (shown (ln_updated l)) (head_name (ln_head l)).

(** The snapshot a new head resolves to: the oldest record with its hash, unless
    that one is a tombstone. *)
Definition resolve_head (snapshot_id : option string) : result line_error (option N) :=
  match trimmed_text snapshot_id with
  | None => Ok None
  | Some id =>
      h ← map_err (fun e => LineStoreError (id_error_kind e)) (snapshot_hash48_from_id id);
      match positions h 0 es with
      | [] => Err (UnknownLineSnapshot id)
      | i :: _ => _ ← fail_if (negb (default false (entry_live <$> es !! N.to_nat i))) (HeadTombstoned i); Ok (Some i)
      end
  end.

Lemma resolve_head_ok id head : resolve_head id = Ok head -> head_ok head.
Proof.
  unfold resolve_head. destruct (trimmed_text id) as [v|]; [|by intros [= <-]]. intros (h & Hh & H)%bind_Ok. destruct (positions h 0 es) as [|i ps]; [done|].
  apply bind_Ok in H as (u & Hl%fail_if_Ok%negb_false_iff & [= <-]). cbn. destruct (es !! N.to_nat i) as [e|]; [|done]. by exists e.
Qed.
End Lines.

(** ** Reading access that tells the truth *)

(** What an access returns, in states that are [good], is what the files [d]
    say. *)
Class TrueAccess {S : Type} {A : LineReadAccess S} (fs : LocalBinaryDbFs) (indexes : list (BinaryIndexId * PathBuf)) (d : gmap PathBuf bytes)
  (good : S -> Prop) : Prop := {
  true_record : forall file path rows i, file_path_for fs (relative_path file) = Ok path -> (0 < record_size file <= u32_max)%N ->
    (file_layout_id file <= u32_max)%N -> holds_table file path d rows -> (N.of_nat (length rows) <= u32_max)%N -> (i <= u32_max)%N ->
    answers good (access_record fs file i) (match rows !! N.to_nat i with Some row => Ok row | None => Err MissingData end);
  true_payload : forall file path offset len, file_path_for fs (payload_path file) = Ok path -> holds_payload file path d -> is_Some (d !! path) ->
    (4 <= offset)%N -> (offset + len <= N.of_nat (length (payload_contents file path d)))%N ->
    answers good (access_payload fs file offset len) (Ok (take (N.to_nat len) (drop (N.to_nat offset) (payload_contents file path d))));
  true_lookup : forall index path m key, (index, path) ∈ indexes -> index_content index path d m -> key_fits index key ->
    answers good (access_lookup fs index key) (Ok (default [] (m !! key)))
}.

(** A read transaction on these files. *)
Definition reading (fs : LocalBinaryDbFs) {du : gmap PathBuf bytes} (d : gmap PathBuf bytes) (s : BinaryDbReadCache * io_state) : Prop :=
  coherent fs d (fst s) /\ snd s = mkIo du d [].

Lemma reads_answers {A : Type} fs du d (m : cached A) r : reads fs (du := du) d m r <-> answers (reading fs (du := du) d) m r.
Proof.
  split.
  - intros H [c s] [Hc Hs]. cbn in *. subst s. destruct (H c Hc) as (c' & Hrun & Hc'). exists (c', mkIo du d []). split; [exact Hrun|]. split; [exact Hc'|done].
  - intros H c Hc. destruct (H (c, mkIo du d [])) as ([c' s'] & Hrun & Hc' & Hs'); [by split|]. cbn in *. subst s'. by exists c'.
Qed.

Lemma reads_row fs du d file path rows i : file_path_for fs (relative_path file) = Ok path -> (0 < record_size file <= u32_max)%N ->
  (file_layout_id file <= u32_max)%N -> holds_table file path d rows -> (N.of_nat (length rows) <= u32_max)%N -> (i <= u32_max)%N ->
  reads fs (du := du) d (read_record_in_read_txn fs file i) (match rows !! N.to_nat i with Some row => Ok row | None => Err MissingData end).
Proof.
  intros Hp [Hs1 Hs2] Hl Ht Hcount Hi.
  pose proof (read_record_run (du := du) fs file path Hp Hs1 Hs2 Hl d rows i Ht Hcount) as Hrun.
  rewrite (read_record_pure fs d file path i Hp) in Hrun. apply pair_equal_spec in Hrun as [Hrun _]. rewrite <- Hrun.
  rewrite <- record_of_file; [by apply reads_record|done|done|]. intros data n Hdata Hn.
  destruct Ht as [Hrows [Hd|[Hd ->]]]; [|congruence]. apply rows_sized in Hrows; [|done..].
  pose proof (valid_run (du := du) file path Hs1 Hs2 Hl d rows Hd Hrows) as Hv. rewrite rows_pure, Hd in Hv. cbn [ok_or mbind result_bind] in Hv. injection Hv as Hv.
  assert (data = table_bytes file rows) as -> by congruence. assert (n = N.of_nat (length rows)) as -> by congruence. done.
Qed.

#[export] Instance read_txn_true fs indexes du d : Forall (fun ip => file_path_for fs (index_path (fst ip)) = Ok (snd ip)) indexes ->
  TrueAccess fs indexes d (reading fs (du := du) d).
Proof.
  intros Hindexes. split.
  - intros file path rows i Hp Hs Hl Ht Hcount Hi. by eapply reads_answers, reads_row.
  - intros file path offset len Hp Hd Hsome Hoff Hend. apply reads_answers, reads_uncached. by apply read_payload_at.
  - intros index path m key Hix Hm Hkey. rewrite Forall_forall in Hindexes. apply reads_answers. by apply (reads_lookup fs d index path m key (Hindexes _ Hix)).
Qed.

#[export] Instance write_txn_true fs paths indexes du d was : Forall (fun ip => file_path_for fs (index_path (fst ip)) = Ok (snd ip)) indexes ->
  NoDup (map snd indexes) -> TrueAccess fs indexes d (unwritten paths indexes (du := du) d was).
Proof.
  intros Hindexes Hapart. split.
  - intros file path rows i Hp Hs Hl Ht Hcount _. by apply (answers_record fs paths indexes d was file path).
  - intros file path offset len Hp Hd Hsome Hoff Hend. by apply answers_payload.
  - intros index path m key Hix Hm Hkey. by apply (answers_lookup fs paths indexes Hindexes Hapart d was index path).
Qed.

(** ** The files *)

Section Files.
Context {C : Chrono} (fs : LocalBinaryDbFs) (snapshots snapshot_texts snapshot_ids line_rows line_names line_ids : PathBuf).
Context (Hsnapshots : file_path_for fs SNAPSHOT_BIN = Ok snapshots) (Hsnapshot_ids : file_path_for fs SNAPSHOT_ID_IDX = Ok snapshot_ids).
Context (Hrows : file_path_for fs LINE_BIN = Ok line_rows) (Hnames : file_path_for fs LINE_NAME_PAYLOAD_BIN = Ok line_names).
Context (Hids : file_path_for fs LINE_NAME_IDX = Ok line_ids).
Context {du : gmap PathBuf bytes}.
Implicit Types (d : gmap PathBuf bytes) (es : list entry) (l : line) (ls : list line) (ps : list (line * N)).

Definition store_indexes : list (BinaryIndexId * PathBuf) := [(snapshot_id_index 1, snapshot_ids); (line_name_index L, line_ids)].
Definition names_data (d : gmap PathBuf bytes) : bytes := payload_contents (line_name_payload_file L) line_names d.

(** The name of a line lies in the payload file, behind its header. *)
Definition name_stored (data : bytes) (p : line * N) : Prop :=
  (4 <= snd p)%N /\ (snd p + name_length (fst p) <= N.of_nat (length data))%N /\
  take (N.to_nat (name_length (fst p))) (drop (N.to_nat (snd p)) data) = bytes_of_string (ln_name (fst p)).

(** The index has every live line among the candidates of its name, and maybe
    lines that had the name or have another one with the same hash. *)
Record indexes_lines (m : candidate_map) (ls : list line) : Prop := {
  il_live : forall i l, ls !! i = Some l -> ln_live l = true -> N.of_nat i ∈ default [] (m !! line_name_key (ln_name l));
  il_known : forall key i, i ∈ default [] (m !! key) -> N.to_nat i < length ls
}.

(** The files hold the lines, with the places of their names. *)
Record holds_placed (d : gmap PathBuf bytes) (ps : list (line * N)) : Prop := {
  hl_records : holds_records (line_file L) line_rows d (map (fun p => line_record (snd p) (fst p)) ps);
  hl_count : (N.of_nat (length ps) <= u32_max)%N;
  hl_payload : holds_payload (line_name_payload_file L) line_names d;
  hl_names : Forall (fun p => is_Some (d !! line_names) /\ name_stored (names_data d) p) ps;
  hl_index : exists m, index_content (line_name_index L) line_ids d m /\ indexes_lines m (map fst ps);
  hl_there : ps <> [] -> is_Some (d !! line_ids)
}.

Definition holds_lines (d : gmap PathBuf bytes) (ls : list line) : Prop := exists ps, map fst ps = ls /\ holds_placed d ps.

(** The whole store: the log of snapshots and the lines that point into it. *)
Record holds_store (d : gmap PathBuf bytes) (es : list entry) (ls : list line) : Prop := {
  hs_snapshots : holds_snapshots snapshots snapshot_texts snapshot_ids d es;
  hs_log : log_ok es;
  hs_lines : holds_lines d ls;
  hs_lines_ok : lines_ok es ls
}.

(** ** What the reads return *)

Section Serving.
Context {S : Type} {A : LineReadAccess S} {good : S -> Prop} (d : gmap PathBuf bytes) {T : TrueAccess fs store_indexes d good}.

Local Abbreviation answers_ m r := (answers good m r).

(** *** Records and names *)

Lemma answers_line ps i p : holds_placed d ps -> (forall p, p ∈ ps -> record_ok L (line_record (snd p) (fst p))) -> ps !! N.to_nat i = Some p ->
  exists row, answers_ (access_record fs (line_file L) i) (Ok row) /\ decode_line_record L row = Ok (line_record (snd p) (fst p)).
Proof.
  intros Hd Hok Hi. destruct (hl_records d ps Hd) as (rows & Ht & Hall). pose proof (Forall2_length _ _ _ Hall) as Hlen. rewrite length_map in Hlen.
  pose proof (hl_count d ps Hd) as Hcount. pose proof (lookup_lt_Some _ _ _ Hi) as Hlt.
  destruct (lookup_lt_is_Some_2 rows (N.to_nat i)) as [row Hrow]; [lia|]. exists row.
  assert (decode_line_record L row = Ok (line_record (snd p) (fst p))) as Hdec.
  { destruct (Forall2_lookup_r _ _ _ _ _ Hall Hrow) as (r & Hr & Henc). change (map (fun p => line_record (snd p) (fst p)) ps) with ((fun p => line_record (snd p) (fst p)) <$> ps) in Hr.
    rewrite list_lookup_fmap, Hi in Hr. injection Hr as <-. destruct (encode_decode L (line_record (snd p) (fst p))) as (raw & H1 & _ & H3); [reflexivity|apply Hok; by eapply list_elem_of_lookup_2|].
    change (encode_line_record L (line_record (snd p) (fst p)) = Ok row) in Henc. change (encode_line_record L (line_record (snd p) (fst p)) = Ok raw) in H1.
    change (decode_line_record L raw = Ok (line_record (snd p) (fst p))) in H3. rewrite Henc in H1. by injection H1 as ->. }
  split; [|exact Hdec]. pose proof (true_record (line_file L) line_rows rows i Hrows ltac:(by split) ltac:(by vm_compute) Ht ltac:(lia) ltac:(lia)) as H. by rewrite Hrow in H.
Qed.

Lemma answers_name ps p : holds_placed d ps -> p ∈ ps -> utf8_string (ln_name (fst p)) ->
  answers_ (read_line_name_for_layout fs (line_record (snd p) (fst p)) L) (Ok (ln_name (fst p))).
Proof.
  intros Hd Hin Hutf. pose proof (hl_names d ps Hd) as Hn. rewrite Forall_forall in Hn. destruct (Hn p Hin) as (Hsome & Hoff & Hend & Hname).
  unfold read_line_name_for_layout. eapply answers_step; [apply (answers_lift good (Ok (line_name_payload_file L)))|]. eapply answers_step.
  { apply (true_payload (line_name_payload_file L) line_names (snd p) (name_length (fst p)) Hnames (hl_payload d ps Hd) Hsome Hoff Hend). }
  unfold names_data in Hname. rewrite Hname. unfold utf8_string in Hutf. rewrite Hutf. eapply answers_step; [apply (answers_lift good (Ok tt))|].
  rewrite string_of_bytes_of_string. apply answers_ret.
Qed.

(** *** Finding *)

(** The first of the candidates that is live and has the name. *)
Fixpoint pick_line (ps : list (line * N)) (name : string) (candidates : list N) : option (N * BinaryLineRecord) :=
  match candidates with
  | [] => None
  | i :: candidates =>
      match ps !! N.to_nat i with
      | Some p => if ln_live (fst p) && bool_decide (ln_name (fst p) = name) then Some (i, line_record (snd p) (fst p)) else pick_line ps name candidates
      | None => None
      end
  end.

Lemma answers_first_line ps name candidates : holds_placed d ps -> (forall p, p ∈ ps -> record_ok L (line_record (snd p) (fst p)) /\ utf8_string (ln_name (fst p))) ->
  Forall (fun i => N.to_nat i < length ps) candidates -> answers_ (first_line fs L name candidates) (Ok (pick_line ps name candidates)).
Proof.
  intros Hd Hok Hcand. induction Hcand as [|i candidates Hi Hcand IH]; cbn [first_line pick_line]; [apply answers_ret|].
  destruct (lookup_lt_is_Some_2 ps (N.to_nat i) Hi) as [p Hp]. rewrite Hp. pose proof (list_elem_of_lookup_2 _ _ _ Hp) as Hin.
  eapply answers_step; [apply (answers_lift good (Ok (line_file L)))|].
  destruct (answers_line ps i p Hd (fun p H => proj1 (Hok p H)) Hp) as (row & Hrow & Hdec). eapply answers_step; [exact Hrow|].
  eapply answers_step; [change (decode_line_record_for_layout L row) with (decode_line_record L row); rewrite Hdec; apply answers_lift|].
  destruct (line_record_flags (snd p) (fst p)) as (_ & -> & _). unfold ln_live. destruct (ln_deleted (fst p)); cbn [negb andb]; [exact IH|].
  eapply answers_step; [by apply (answers_name ps p Hd Hin), Hok|]. case_bool_decide; [apply answers_ret|exact IH].
Qed.

Lemma pick_line_spec ps name candidates i r : pick_line ps name candidates = Some (i, r) ->
  i ∈ candidates /\ exists p, ps !! N.to_nat i = Some p /\ ln_live (fst p) = true /\ ln_name (fst p) = name /\ r = line_record (snd p) (fst p).
Proof.
  induction candidates as [|j candidates IH]; cbn; [done|]. destruct (ps !! N.to_nat j) as [p|] eqn:Hp; [|done].
  destruct (ln_live (fst p) && bool_decide (ln_name (fst p) = name)) eqn:Hmatch.
  - intros [= <- <-]. apply andb_true_iff in Hmatch as [Hl Hn%bool_decide_eq_true]. split; [left|]. by exists p.
  - intros H%IH. destruct H as [Hin H]. split; [by right|done].
Qed.

Lemma pick_line_none ps name candidates i p : Forall (fun i => N.to_nat i < length ps) candidates -> pick_line ps name candidates = None ->
  i ∈ candidates -> ps !! N.to_nat i = Some p -> ln_live (fst p) = true -> ln_name (fst p) <> name.
Proof.
  intros Hcand Hnone Hin Hp Hl Hn. induction Hcand as [|j candidates Hj Hcand IH]; [by apply elem_of_nil in Hin|]. cbn in Hnone.
  destruct (lookup_lt_is_Some_2 ps (N.to_nat j) Hj) as [q Hq]. rewrite Hq in Hnone.
  destruct (ln_live (fst q) && bool_decide (ln_name (fst q) = name)) eqn:Hmatch; [done|]. apply elem_of_cons in Hin as [<-|Hin]; [|by apply IH].
  rewrite Hp in Hq. injection Hq as <-. rewrite Hl, bool_decide_eq_true_2 in Hmatch by done. done.
Qed.

Section Store.
Context (es : list entry) (ps : list (line * N)) (Hs : holds_snapshots snapshots snapshot_texts snapshot_ids d es) (Hlog : log_ok es).
Context (Hd : holds_placed d ps) (Hok : lines_ok es (map fst ps)).

Lemma placed_ok p : p ∈ ps -> record_ok L (line_record (snd p) (fst p)) /\ utf8_string (ln_name (fst p)).
Proof.
  intros Hin. assert (line_ok es (fst p)) as Hl.
  { pose proof (ls_lines es _ Hok) as H. rewrite Forall_forall in H. apply H. apply list_elem_of_fmap. by exists p. }
  split; [|apply (lo_name es _ Hl)]. pose proof (hl_names d ps Hd) as Hn. rewrite Forall_forall in Hn. destruct (Hn p Hin) as (_ & Hoff & Hend & _).
  pose proof (hp_space _ _ _ (hl_payload d ps Hd)) as Hspace. apply (line_record_ok es); [exact (hs_count Hs)|done|done|].
  unfold fits. change (256 ^ N.of_nat 8)%N with 18446744073709551616%N. unfold names_data, usize_max in *. lia.
Qed.

(** The line with a name, as either kind of transaction finds it. *)
Lemma answers_find_line name : trim name = name -> name <> EmptyString ->
  match find_name name (map fst ps) with
  | Some (i, l) => exists offset, ps !! i = Some (l, offset) /\ answers_ (find_line fs name) (Ok (Some (N.of_nat i, line_record offset l)))
  | None => answers_ (find_line fs name) (Ok None)
  end.
Proof.
  intros Htrim Hne. destruct (hl_index d ps Hd) as (m & Hm & [Hlive Hknown]). set (candidates := default [] (m !! line_name_key name)).
  assert (Forall (fun i => N.to_nat i < length ps) candidates) as Hcand.
  { apply Forall_forall. intros i Hi. rewrite <- (length_map fst). by eapply Hknown. }
  assert (answers_ (find_line fs name) (Ok (pick_line ps name candidates))) as Hrun.
  { unfold find_line, find_line_for_layout. rewrite Htrim, bool_decide_eq_false_2 by done. eapply answers_step; [apply (answers_lift good (Ok (line_name_index L)))|].
    eapply answers_step; [apply (true_lookup (line_name_index L) line_ids m); [right; left|exact Hm|intros k [= <-]; unfold line_name_key; by rewrite length_to_le_bytes]|].
    apply answers_first_line; [done|exact placed_ok|done]. }
  destruct (find_name name (map fst ps)) as [[i l]|] eqn:Hfind.
  - apply (find_name_Some es) in Hfind as (Hi & Hl & Hn); [|done]. change (map fst ps) with (fst <$> ps) in Hi. rewrite list_lookup_fmap in Hi.
    apply fmap_Some in Hi as ([l' offset] & Hi & ->). exists offset. split; [exact Hi|]. cbn [fst] in *.
    assert (N.of_nat i ∈ candidates) as Hin.
    { unfold candidates. rewrite <- Hn. apply Hlive; [|done]. change (map fst ps) with (fst <$> ps). by rewrite list_lookup_fmap, Hi. }
    destruct (pick_line ps name candidates) as [[j r]|] eqn:Hpick.
    + apply pick_line_spec in Hpick as (_ & [l2 offset2] & Hj & Hl2 & Hn2 & ->). cbn [fst snd] in *.
      assert (N.to_nat j = i) as Hji by (apply (ls_names es _ Hok (N.to_nat j) i l2 l'); [change (map fst ps) with (fst <$> ps); by rewrite list_lookup_fmap, ?Hj, ?Hi..|done|done|congruence]).
      rewrite Hji in Hj. rewrite Hi in Hj. injection Hj as <- <-. rewrite <- Hji, N2Nat.id. exact Hrun.
    + destruct (pick_line_none ps name candidates (N.of_nat i) (l', offset) Hcand Hpick Hin); [by rewrite Nat2N.id|done|done].
  - pose proof (proj1 (find_name_None name (map fst ps)) Hfind) as Hno. destruct (pick_line ps name candidates) as [[j r]|] eqn:Hpick; [|exact Hrun].
    apply pick_line_spec in Hpick as (_ & p & Hj & Hl & Hn & _). destruct (Hno (N.to_nat j) (fst p)); [|done|done].
    change (map fst ps) with (fst <$> ps). by rewrite list_lookup_fmap, Hj.
Qed.

(** *** Heads *)

Lemma answers_snapshot_id i e : es !! N.to_nat i = Some e ->
  answers_ (snapshot_id_at fs i) (if entry_live e then Ok (entry_name e) else Err (HeadTombstoned i)).
Proof.
  intros He. destruct (hs_records Hs) as (rows & Ht & Hall). pose proof (Forall2_length _ _ _ Hall) as Hlen. rewrite length_map in Hlen.
  pose proof (hs_count Hs) as Hcount. pose proof (lookup_lt_Some _ _ _ He) as Hlt. destruct (lookup_lt_is_Some_2 rows (N.to_nat i)) as [row Hrow]; [lia|].
  destruct (Forall2_lookup_r _ _ _ _ _ Hall Hrow) as (r & Hr & Henc). change (map fst es) with (fst <$> es) in Hr. rewrite list_lookup_fmap, He in Hr. injection Hr as <-.
  destruct (snapshot_encoded (fst e) row (record_ok_entry es Hlog _ _ He) Henc) as [_ Hdec].
  pose proof (true_record (snapshot_file 1) snapshots rows i Hsnapshots ltac:(by split) ltac:(by vm_compute) Ht ltac:(lia) ltac:(lia)) as Hread. rewrite Hrow in Hread.
  unfold snapshot_id_at, stored. eapply answers_step; [exact (answers_map_error good LineStoreError _ _ Hread)|].
  change BINARY_DB_CONTENT_LAYOUT_ID with 1%N in Hdec. eapply answers_step; [rewrite Hdec; exact (answers_map_error good LineStoreError _ _ (answers_lift good (Ok (fst e))))|].
  unfold entry_live. destruct (snapshot_is_tombstone (fst e)); cbn [negb fail_if].
  - eapply answers_bind; [apply answers_lift|done].
  - eapply answers_step; [apply answers_lift|apply answers_ret].
Qed.

Lemma answers_view i l offset : ps !! i = Some (l, offset) -> answers_ (line_record_view fs (N.of_nat i) (line_record offset l)) (Ok (view_of es i l)).
Proof.
  intros Hi. pose proof (list_elem_of_lookup_2 _ _ _ Hi) as Hin. assert (line_ok es l) as [Hname Harch H1 H2 H3 Hhead].
  { pose proof (ls_lines es _ Hok) as H. rewrite Forall_forall in H. apply H. apply list_elem_of_fmap. by exists (l, offset). }
  unfold line_record_view, line_record_view_for_layout, stored.
  eapply answers_step; [exact (answers_map_error good LineStoreError _ _ (answers_name ps (l, offset) Hd Hin (no_utf8 _ Hname)))|].
  eapply answers_step; [cbn [line_record line_archived_at_s]; rewrite (shows_format _ H3); apply answers_lift|].
  eapply answers_step; [cbn [line_record line_created_at_s]; rewrite (shows_format _ H1); apply answers_lift|].
  eapply answers_step; [cbn [line_record line_updated_at_s]; rewrite (shows_format _ H2); apply answers_lift|].
  destruct (line_record_flags offset l) as (Ea & Ed & ->). unfold line_status_of. rewrite Ea, Ed.
  apply (answers_step good _ _ (head_name es (ln_head l))); [|apply answers_ret].
  unfold head_name, head_ok in *. destruct (ln_head l) as [j|]; [|apply answers_ret]. destruct Hhead as (e & He & Hl). cbn [mbind option_bind]. rewrite He.
  pose proof (answers_snapshot_id j e He) as Hsnap. rewrite Hl in Hsnap. eapply answers_step; [exact Hsnap|apply answers_ret].
Qed.

Lemma answers_resolve sid : answers_ (resolve_snapshot_index_plus1 fs sid) (plus_one <$> resolve_head es sid).
Proof.
  unfold resolve_snapshot_index_plus1, resolve_head. destruct (trimmed_text sid) as [v|] eqn:Hv; [|apply answers_ret].
  assert (trim v = v) as Htrim by (unfold trimmed_text in Hv; destruct sid; cbn in Hv; [|done]; case_bool_decide; [done|]; injection Hv as <-; apply trim_trim).
  unfold snapshot_id_index_key. destruct (snapshot_hash48_from_id v) as [h|e] eqn:Hh; cbn [fmap result_fmap map_err mbind result_bind].
  2: { eapply answers_bind; [apply answers_lift|done]. }
  eapply answers_step; [apply answers_lift|]. apply snapshot_hash48_spec in Hh as [Hlt Heq]. rewrite Htrim in Heq.
  destruct (hs_index Hs) as (m & Hm & Hpos). unfold stored. eapply answers_step.
  { apply (answers_map_error good LineStoreError _ (Ok (positions h 0 es))). rewrite <- (Hpos h Hlt).
    apply (true_lookup (snapshot_id_index 1) snapshot_ids m); [left|exact Hm|intros k [= <-]; by rewrite length_to_le_bytes]. }
  destruct (positions h 0 es) as [|i rest] eqn:Hps; cbn [first_head]; [apply answers_lift|].
  assert (exists e, es !! N.to_nat i = Some e /\ entry_hash e = h) as (e & He & Hhash).
  { assert (i ∈ positions h 0 es) as (k & e & -> & Hk & Hhash)%elem_of_positions by (rewrite Hps; left). exists e. by replace (N.to_nat (0 + N.of_nat k)) with k by lia. }
  rewrite He. cbn [fmap option_fmap option_map default from_option id]. pose proof (answers_snapshot_id i e He) as Hsnap.
  destruct (entry_live e); cbn [negb fail_if mbind result_bind]; [|by eapply answers_bind; [exact Hsnap|]].
  eapply answers_step; [exact Hsnap|].
  assert (eq_ignore_ascii_case (entry_name e) v = true) as ->.
  { unfold eq_ignore_ascii_case in *. apply bool_decide_eq_true in Heq. apply bool_decide_eq_true. unfold entry_name, snapshot_name. unfold entry_hash in Hhash. by rewrite Hhash. }
  pose proof (hs_count Hs) as Hcount. pose proof (lookup_lt_Some _ _ _ He). rewrite (proj2 (N.leb_gt _ _)) by lia.
  eapply answers_step; [apply (answers_lift good (Ok tt))|apply answers_ret].
Qed.
End Store.
End Serving.

(** *** The methods of a read transaction *)

Lemma store_indexes_named : Forall (fun ip => file_path_for fs (index_path (fst ip)) = Ok (snd ip)) store_indexes.
Proof. by repeat constructor. Qed.

Lemma store_indexes_apart : NoDup (map snd store_indexes).
Proof. apply NoDup_cons. split; [|apply NoDup_singleton]. intros H%list_elem_of_singleton. revert H. by eapply names_apart. Qed.

Lemma table_layout d file path rows : (file_layout_id file <= u32_max)%N -> holds_table file path d rows ->
  layout_of path d = match d !! path with Some _ => Ok (file_layout_id file) | None => Err MissingData end.
Proof.
  intros Hl [_ [Hd|[Hd _]]]; unfold layout_of; rewrite Hd; [|done]. cbn [ok_or mbind result_bind]. unfold table_bytes.
  rewrite (proj2 (Nat.ltb_ge _ _)) by (rewrite length_app, length_to_le_bytes; lia). cbn [fail_if mbind result_bind]. f_equal.
  rewrite take_app_le, firstn_all2 by (by rewrite length_to_le_bytes). apply from_to_le_bytes. change (256 ^ N.of_nat 4)%N with 4294967296%N. unfold u32_max in Hl. lia.
Qed.

(** The live lines from place [i] on, as they are shown. *)
Fixpoint list_views (es : list entry) (i : nat) (ls : list line) : list LineRecord :=
  match ls with
  | [] => []
  | l :: ls => if ln_live l then view_of es i l :: list_views es (Datatypes.S i) ls else list_views es (Datatypes.S i) ls
  end.

Section Reading.
Context (d : gmap PathBuf bytes) (es : list entry) (ls : list line) (H : holds_store d es ls).

Local Abbreviation reading_ := (reading fs (du := du) d).
Local Abbreviation reads_ m r := (answers reading_ m r).

#[local] Instance reading_true : TrueAccess fs store_indexes d reading_.
Proof. apply read_txn_true, store_indexes_named. Qed.

(** The record file is missing only while there are no lines. *)
Lemma reads_line_layout : reads_ (persisted_line_layout fs) (Ok (match d !! line_rows with Some _ => Some L | None => None end)) /\ (d !! line_rows = None -> ls = []).
Proof.
  destruct (hs_lines d es ls H) as (ps & <- & Hd). destruct (hl_records d ps Hd) as (rows & Ht & Hall). split.
  - unfold persisted_line_layout. apply (answers_step reading_ _ _ (match d !! line_rows with Some _ => Some L | None => None end)).
    + intros [c s] [Hc Hs]. cbn in Hc, Hs. subst s. destruct (reads_layout fs (du := du) d (line_file L) line_rows Hrows c Hc) as (c' & Hrun & Hc').
      exists (c', mkIo du d []). split; [|by split]. unfold unless_missing. change (line_file BINARY_DB_LINE_LAYOUT_ID) with (line_file L). rewrite Hrun.
      rewrite (table_layout d (line_file L) line_rows rows) by done. by destruct (d !! line_rows).
    + destruct (d !! line_rows) as [data|]; [|apply answers_ret]. eapply answers_step; [apply (answers_lift reading_ (Ok tt))|apply answers_ret].
  - intros Hnone. destruct Ht as [_ [Hd'|[_ ->]]]; [congruence|]. apply Forall2_nil_inv_r in Hall. by destruct ps.
Qed.

Lemma reads_line_count ps : map fst ps = ls -> holds_placed d ps -> reads_ (stored (read_txn_record_count fs (line_file L))) (Ok (N.of_nat (length ls))).
Proof.
  intros <- Hd. destruct (hl_records d ps Hd) as (rows & Ht & Hall). pose proof (Forall2_length _ _ _ Hall) as Hlen. rewrite length_map in *.
  apply (answers_map_error reading_ LineStoreError _ (Ok (N.of_nat (length ps)))). apply reads_answers, reads_uncached. rewrite Hlen.
  apply (count_run fs (line_file L) line_rows Hrows); [done|by vm_compute|by vm_compute|done|]. rewrite <- Hlen. exact (hl_count d ps Hd).
Qed.

Lemma reads_lines_from ps n i : map fst ps = ls -> holds_placed d ps -> length ls = i + n ->
  reads_ (lines_from fs L (line_file L) n (N.of_nat i)) (Ok (list_views es i (drop i ls))) /\
  forall k, reads_ (live_lines fs L (line_file L) n (N.of_nat i) k) (Ok (k + N.of_nat (length (filter (fun l => ln_live l = true) (drop i ls)))))%N.
Proof.
  intros Hps Hd. revert i. induction n as [|n IH]; intros i Hlen; cbn [lines_from live_lines].
  - rewrite drop_ge by lia. cbn [list_views length]. split; [apply answers_ret|]. intros k. rewrite N.add_0_r. apply answers_ret.
  - destruct H as [Hs Hlog _ Hok]. destruct (lookup_lt_is_Some_2 ps i) as [[l offset] Hi]; [rewrite <- (length_map fst), Hps; lia|].
    assert (ls !! i = Some l) as Hl by (rewrite <- Hps; change (map fst ps) with (fst <$> ps); by rewrite list_lookup_fmap, Hi).
    rewrite (drop_S ls l i Hl). rewrite <- Hps in Hok. pose proof (placed_ok d es ps Hs Hd Hok) as Hpok.
    destruct (answers_line d ps (N.of_nat i) (l, offset) Hd (fun p Hp => proj1 (Hpok p Hp)) ltac:(by rewrite Nat2N.id)) as (row & Hrow & Hdec).
    cbn [fst snd] in *. destruct (line_record_flags offset l) as (_ & Edel & _). replace (N.of_nat i + 1)%N with (N.of_nat (Datatypes.S i)) by lia.
    destruct (IH (Datatypes.S i)) as [IH1 IH2]; [lia|].
    assert (reads_ (stored (lift (decode_line_record_for_layout L row))) (Ok (line_record offset l))) as Hread.
    { unfold stored. change (decode_line_record_for_layout L row) with (decode_line_record L row). rewrite Hdec.
      exact (answers_map_error reading_ LineStoreError _ _ (answers_lift reading_ (Ok (line_record offset l)))). }
    split; [|intros k].
    + eapply answers_step; [exact (answers_map_error reading_ LineStoreError _ _ Hrow)|]. eapply answers_step; [exact Hread|]. rewrite Edel. cbn [list_views]. unfold ln_live at 1.
      destruct (ln_deleted l); cbn [negb]; [exact IH1|]. eapply answers_step; [exact (answers_view d es ps Hs Hlog Hd Hok i l offset Hi)|].
      eapply answers_step; [exact IH1|apply answers_ret].
    + eapply answers_step; [exact (answers_map_error reading_ LineStoreError _ _ Hrow)|]. eapply answers_step; [exact Hread|]. rewrite Edel, filter_cons.
      assert (ln_live l = negb (ln_deleted l)) as Elive by done. destruct (ln_deleted l); cbn [negb] in Elive.
      { rewrite decide_False by congruence. apply IH2. }
      rewrite decide_True by exact Elive.
      cbn [length]. replace (k + N.of_nat (Datatypes.S (length (filter (fun l => ln_live l = true) (drop (Datatypes.S i) ls)))))%N
        with (k + 1 + N.of_nat (length (filter (fun l => ln_live l = true) (drop (Datatypes.S i) ls))))%N by lia. apply IH2.
Qed.

Lemma find_name_empty : find_name EmptyString ls = None.
Proof.
  apply find_name_None. intros i l Hi _ Hn. pose proof (ls_lines es _ (hs_lines_ok d es ls H)) as Hall. destruct (lo_name es _ (Forall_lookup_1 _ _ _ _ Hall Hi)) as [Hsolid _ _ _]. done.
Qed.

Lemma reads_find name ps : map fst ps = ls -> holds_placed d ps ->
  match find_name (trim name) ls with
  | Some (i, l) => exists offset, ps !! i = Some (l, offset) /\ reads_ (find_line fs name) (Ok (Some (N.of_nat i, line_record offset l)))
  | None => reads_ (find_line fs name) (Ok None)
  end.
Proof.
  intros Hps Hd. destruct (decide (trim name = EmptyString)) as [He|Hne].
  - rewrite He, find_name_empty. unfold find_line, find_line_for_layout. rewrite bool_decide_eq_true_2 by done. apply answers_ret.
  - assert (find_line (S := BinaryDbReadCache * io_state) fs name = find_line fs (trim name)) as -> by (unfold find_line, find_line_for_layout; by rewrite trim_trim).
    destruct H as [Hs Hlog _ Hok]. subst ls. apply (answers_find_line d es ps Hs Hd Hok); [apply trim_trim|done].
Qed.

Lemma reads_line_by_name name : reads_ (line_by_name_with_read fs name) (Ok (il ← find_name (trim name) ls; Some (view_of es (fst il) (snd il)))).
Proof.
  destruct reads_line_layout as [Hlayout Hnone]. unfold line_by_name_with_read. eapply answers_step; [exact (answers_map_error reading_ LineStoreError _ _ Hlayout)|].
  destruct (d !! line_rows) as [data|]; [|rewrite (Hnone eq_refl); apply answers_ret]. destruct (hs_lines d es ls H) as (ps & Hps & Hd). pose proof (reads_find name ps Hps Hd) as Hfind.
  destruct (find_name (trim name) ls) as [[i l]|].
  - destruct Hfind as (offset & Hi & Hfind). eapply answers_step; [exact (answers_map_error reading_ LineStoreError _ _ Hfind)|].
    destruct H as [Hs Hlog _ Hok]. rewrite <- Hps in Hok. eapply answers_step; [exact (answers_view d es ps Hs Hlog Hd Hok i l offset Hi)|apply answers_ret].
  - eapply answers_step; [exact (answers_map_error reading_ LineStoreError _ _ Hfind)|apply answers_ret].
Qed.

Lemma with_read_answer {A : Type} (m : stateful (BinaryDbReadCache * io_state) line_error A) r : reads_ m r -> with_read m (mkIo du d []) = r.
Proof. intros Hm. destruct (Hm (empty_cache, mkIo du d [])) as (s' & Hrun & _); [split; [apply empty_coherent|done]|]. unfold with_read. by rewrite Hrun. Qed.

Lemma reads_name_at i : (i <= u32_max)%N -> reads_ (binary_line_name_at fs i) (ok_or (ln_name <$> ls !! N.to_nat i) MissingData).
Proof.
  intros Hi32. destruct reads_line_layout as [Hlayout Hnone]. unfold binary_line_name_at. eapply answers_step; [exact Hlayout|].
  destruct (d !! line_rows) as [data|]; [|rewrite (Hnone eq_refl); eapply answers_bind; [apply answers_lift|done]].
  eapply answers_step; [apply (answers_lift reading_ (Ok L))|]. eapply answers_step; [apply (answers_lift reading_ (Ok (line_file L)))|].
  destruct H as [Hs Hlog (ps & <- & Hd) Hok]. pose proof (placed_ok d es ps Hs Hd Hok) as Hpok.
  change (map fst ps) with (fst <$> ps). rewrite list_lookup_fmap. destruct (ps !! N.to_nat i) as [p|] eqn:Hi; cbn [fmap option_fmap option_map ok_or].
  - destruct (answers_line d ps i p Hd (fun p Hp => proj1 (Hpok p Hp)) Hi) as (row & Hrow & Hdec). eapply answers_step; [exact Hrow|].
    change (decode_line_record_for_layout L row) with (decode_line_record L row). eapply answers_step; [rewrite Hdec; apply answers_lift|].
    pose proof (list_elem_of_lookup_2 _ _ _ Hi) as Hin. by apply (answers_name d ps p Hd Hin), Hpok.
  - destruct (hl_records d ps Hd) as (rows & Ht & Hall). pose proof (Forall2_length _ _ _ Hall) as Hlen. rewrite length_map in Hlen. pose proof (hl_count d ps Hd) as Hcount.
    pose proof (true_record (line_file L) line_rows rows i Hrows ltac:(by split) ltac:(by vm_compute) Ht ltac:(lia) Hi32) as Hread.
    apply lookup_ge_None in Hi. rewrite (lookup_ge_None_2 rows) in Hread by lia. by eapply answers_bind; [exact Hread|].
Qed.
End Reading.

(** C10. What the line store answers. Over files that hold a log of snapshots and
    lines that are in order, the methods that read list the live lines as they
    are, in the order of their creation, count them, and find a line by its name
    exactly when it is live; white space around a name does not matter. A deleted
    line is never listed, but its name can still be read at its index. *)
Theorem line_reads_agree d es ls : holds_store d es ls ->
  list_lines fs (mkIo du d []) = Ok (list_views es 0 ls) /\
  line_count fs (mkIo du d []) = Ok (N.of_nat (length (filter (fun l => ln_live l = true) ls))) /\
  (forall name, line_by_name fs name (mkIo du d []) = Ok (il ← find_name (trim name) ls; Some (view_of es (fst il) (snd il)))) /\
  (forall name, line_updated_at fs name (mkIo du d []) = Ok (il ← find_name (trim name) ls; shown (ln_updated (snd il)))) /\
  (forall i, (i <= u32_max)%N -> fst (binary_line_name_at fs i (empty_cache, mkIo du d [])) = ok_or (ln_name <$> ls !! N.to_nat i) MissingData).
Proof.
  intros H. destruct (reads_line_layout d es ls H) as [Hlayout Hnone]. destruct (hs_lines d es ls H) as (ps & Hps & Hd).
  assert (forall name, line_by_name fs name (mkIo du d []) = Ok (il ← find_name (trim name) ls; Some (view_of es (fst il) (snd il)))) as Hname
    by (intros name; by eapply with_read_answer, reads_line_by_name).
  destruct (reads_lines_from d es ls H ps (length ls) 0 Hps Hd eq_refl) as [Hlist Hcount]. specialize (Hcount 0%N). rewrite drop_0 in *.
  pose proof (reads_line_count d es ls H ps Hps Hd) as Hn. change (N.of_nat 0) with 0%N in *. split_and!.
  - eapply with_read_answer. unfold list_lines_with_read. eapply answers_step; [exact (answers_map_error _ LineStoreError _ _ Hlayout)|].
    destruct (d !! line_rows) as [data|]; [|rewrite (Hnone eq_refl); apply answers_ret].
    eapply answers_step; [exact (answers_map_error _ LineStoreError _ _ (answers_lift _ (Ok (line_file L))))|]. eapply answers_step; [exact Hn|]. rewrite Nat2N.id. exact Hlist.
  - eapply with_read_answer. unfold line_count_with_read. eapply answers_step; [exact (answers_map_error _ LineStoreError _ _ Hlayout)|].
    destruct (d !! line_rows) as [data|]; [|rewrite (Hnone eq_refl); apply answers_ret].
    eapply answers_step; [exact (answers_map_error _ LineStoreError _ _ (answers_lift _ (Ok (line_file L))))|]. eapply answers_step; [exact Hn|]. rewrite Nat2N.id. exact Hcount.
  - exact Hname.
  - intros name. unfold line_updated_at. rewrite Hname. by destruct (find_name (trim name) ls) as [[i l]|].
  - intros i Hi. pose proof (reads_name_at d es ls H i Hi) as Hread.
    destruct (Hread (empty_cache, mkIo du d [])) as (s' & Hrun & _); [split; [apply empty_coherent|done]|]. by rewrite Hrun.
Qed.
End Files.
