(* ===== verification/LineSpec.v ===== *)
(** * Changing lines: the specification

    The methods of [LineStore] that change lines, as one command each, and what
    they do to the list of lines that [LineLog] finds in the files. *)

From Stdlib Require Import NArith ZArith Lia.
From Stdlib Require Strings.Byte.
From stdpp Require Import base numbers strings gmap list.
From S2P Require Import Prelude Text Codec FileStore BinaryDb RecordTable BinaryIndex ReadTxn WriteTxn PayloadFile QuietTxn ContentIds ContentCodec ContentStore.
From S2P Require Import SnapshotLog SnapshotAppend LineStore LineLog.

Local Abbreviation L := BINARY_DB_LINE_LAYOUT_ID.

(** ** Commands *)

Inductive line_command : Type :=
| CreateLine (line_name : string) (head_snapshot_id : option string) (created_at : string)
| BootstrapLine (line_name status : string) (created_at updated_at archived_at head_snapshot_id : option string)
| ArchiveLine (line_name archived_at : string)
| RenameLine (old_line_name new_line_name updated_at : string)
| DeleteLine (line_name deleted_at : string)
| SetLineHead (line_name : string) (head_snapshot_id : option string) (updated_at : string)
| CompareAndSwapHead (line_name : string) (expected head_snapshot_id : option string) (updated_at : string)
| SetUpdatedAt (line_name : string) (updated_at : option string)
| TouchUpdatedAt (line_name updated_at : string).

Inductive line_answer : Type := Shown (view : LineRecord) | AtIndex (line_index : N) | Done.

Section Commands.
Context {C : Chrono} (fs : LocalBinaryDbFs) (lock : lock_set).

Definition answer_as {A} (f : A -> line_answer) (r : result line_error A * io_state) : result line_error line_answer * io_state := (f <$> fst r, snd r).

Definition run_command (command : line_command) (s : io_state) : result line_error line_answer * io_state :=
  match command with
  | CreateLine name head created_at => answer_as Shown (create_line fs L lock name head created_at s)
  | BootstrapLine name status created_at updated_at archived_at head =>
      answer_as AtIndex (append_line_for_bootstrap fs L lock name status created_at updated_at archived_at head s)
  | ArchiveLine name archived_at => answer_as Shown (archive_line fs L lock name archived_at s)
  | RenameLine old new updated_at => answer_as Shown (rename_line fs L lock old new updated_at s)
  | DeleteLine name deleted_at => answer_as Shown (delete_line fs L lock name deleted_at s)
  | SetLineHead name head updated_at => answer_as Shown (set_line_head fs L lock name head updated_at s)
  | CompareAndSwapHead name expected head updated_at => answer_as Shown (compare_and_swap_line_head fs L lock name expected head updated_at s)
  | SetUpdatedAt name updated_at => answer_as (fun _ => Done) (set_line_updated_at fs L lock name updated_at s)
  | TouchUpdatedAt name updated_at => answer_as (fun _ => Done) (touch_line_updated_at fs L lock name updated_at s)
  end.

Fixpoint run_commands (commands : list line_command) (s : io_state) : list (result line_error line_answer) * io_state :=
  match commands with
  | [] => ([], s)
  | command :: commands =>
      let '(r, s) := run_command command s in
      let '(rs, s) := run_commands commands s in
      (r :: rs, s)
  end.
End Commands.

(** ** The specification *)

Section Spec.
Context {C : Chrono} (es : list entry).

Definition existing (name : string) (ls : list line) : result line_error (nat * line) := ok_or (find_name name ls) (UnknownLine name).
Definition absent (name : string) (ls : list line) : result line_error unit := fail_if (is_some (find_name name ls)) (LineAlreadyExists name).
Definition short_name (name : string) : result line_error unit := fail_if (65535 <? N.of_nat (length (bytes_of_string name)))%N LineNameTooLong.

(** The line at [i] becomes [l], and is shown. *)
Definition change (ls : list line) (i : nat) (l : line) : result line_error (line_answer * list line) := Ok (Shown (view_of es i l), <[i := l]> ls).

(** What a command answers and what it makes of the lines; an error changes
    nothing. The methods do the same for the commands that [command_ok] describes:
    of a time that cannot be shown the specification does not know that the
    answer fails after the commit. *)
Definition touch_spec (name : string) (updated_at : option string) (ls : list line) : result line_error (line_answer * list line) :=
  name ← normalize_line_name name;
  seconds ← parse_epoch_seconds updated_at;
  '(i, l) ← existing name ls;
  Ok (Done, <[i := touched seconds l]> ls).

Definition line_spec (command : line_command) (ls : list line) : result line_error (line_answer * list line) :=
  match command with
  | CreateLine name head created_at =>
      '(name, seconds) ← name_and_time name created_at;
      _ ← absent name ls;
      head ← resolve_head es head;
      _ ← short_name name;
      let l := mkLine name false false head seconds seconds 0 in
      Ok (Shown (view_of es (length ls) l), ls ++ [l])
  | BootstrapLine name status created_at updated_at archived_at head =>
      name ← normalize_line_name name;
      _ ← absent name ls;
      '(meta, archived) ← status_fields status archived_at;
      created ← parse_epoch_seconds created_at;
      updated ← parse_epoch_seconds updated_at;
      head ← resolve_head es head;
      _ ← short_name name;
      Ok (AtIndex (N.of_nat (length ls)), ls ++ [mkLine name (negb (archived =? 0)%N) false head created updated archived])
  | ArchiveLine name archived_at =>
      '(name, seconds) ← name_and_time name archived_at;
      '(i, l) ← existing name ls;
      if ln_archived l then Ok (Shown (view_of es i l), ls) else change ls i (archived seconds l)
  | RenameLine old new updated_at =>
      old ← normalize_line_name old;
      new ← normalize_line_name new;
      _ ← fail_if (bool_decide (old = new)) SameLineNames;
      seconds ← parse_required_epoch_seconds updated_at;
      _ ← absent new ls;
      '(i, l) ← existing old ls;
      _ ← short_name new;
      change ls i (renamed new seconds l)
  | DeleteLine name deleted_at =>
      '(name, seconds) ← name_and_time name deleted_at;
      '(i, l) ← existing name ls;
      change ls i (deleted seconds l)
  | SetLineHead name head updated_at =>
      '(name, seconds) ← name_and_time name updated_at;
      '(i, l) ← existing name ls;
      head ← resolve_head es head;
      change ls i (headed head seconds l)
  | CompareAndSwapHead name expected head updated_at =>
      '(name, seconds) ← name_and_time name updated_at;
      '(i, l) ← existing name ls;
      _ ← fail_if (negb (bool_decide (head_name es (ln_head l) = expected))) (HeadMismatch expected (head_name es (ln_head l)));
      head ← resolve_head es head;
      change ls i (headed head seconds l)
  | SetUpdatedAt name updated_at => touch_spec name updated_at ls
  | TouchUpdatedAt name updated_at => _ ← parse_required_epoch_seconds updated_at; touch_spec name (Some updated_at) ls
  end.

Definition line_step (command : line_command) (ls : list line) : result line_error line_answer * list line :=
  match line_spec command ls with Ok (answer, ls') => (Ok answer, ls') | Err e => (Err e, ls) end.

Fixpoint line_steps (commands : list line_command) (ls : list line) : list (result line_error line_answer) * list line :=
  match commands with
  | [] => ([], ls)
  | command :: commands =>
      let '(r, ls) := line_step command ls in
      let '(rs, ls) := line_steps commands ls in
      (r :: rs, ls)
  end.

(** A time that, if it is one, can be shown. *)
Definition time_ok (value : option string) : Prop := forall seconds, parse_epoch_seconds value = Ok seconds -> shows seconds.

(** The texts of a command: names are UTF-8, times are in the range that can be
    shown. *)
Definition command_ok (command : line_command) : Prop :=
  match command with
  | CreateLine name _ created_at => utf8_string name /\ time_ok (Some created_at)
  | BootstrapLine name _ created_at updated_at archived_at _ => utf8_string name /\ time_ok created_at /\ time_ok updated_at /\ time_ok archived_at
  | ArchiveLine _ time | DeleteLine _ time | SetLineHead _ _ time | CompareAndSwapHead _ _ _ time | TouchUpdatedAt _ time => time_ok (Some time)
  | RenameLine _ new time => utf8_string new /\ time_ok (Some time)
  | SetUpdatedAt _ time => time_ok time
  end.

(** ** The specification keeps lines in order *)

Lemma lines_ok_nil : lines_ok es [].
Proof. split; [constructor|]. intros i j l l' H. by rewrite lookup_nil in H. Qed.

Lemma lines_ok_snoc ls l : lines_ok es ls -> line_ok es l -> find_name (ln_name l) ls = None -> lines_ok es (ls ++ [l]).
Proof.
  intros [H1 H2] Hl Hno. rewrite find_name_None in Hno. split; [by apply Forall_app; split; [|apply Forall_singleton]|].
  assert (forall i x, (ls ++ [l]) !! i = Some x -> ls !! i = Some x \/ i = length ls /\ x = l) as Hcase.
  { intros i x [H|[Hi H]]%lookup_app_Some; [by left|]. right. destruct (i - length ls) as [|k] eqn:Hk; [|done]. injection H as <-. split; [lia|done]. }
  intros i j x y Hi Hj Hx Hy Hn. destruct (Hcase i x Hi) as [Hi'|[-> ->]], (Hcase j y Hj) as [Hj'|[-> ->]]; [by apply (H2 i j x y)| | |done].
  - by destruct (Hno i x Hi' Hx).
  - by destruct (Hno j y Hj' Hy).
Qed.

(** A change that keeps the name, or takes one that no live line has. *)
Lemma lines_ok_change ls i l l' : lines_ok es ls -> ls !! i = Some l -> line_ok es l' ->
  (ln_live l' = true -> ln_live l = true /\ ln_name l' = ln_name l \/ find_name (ln_name l') ls = None) -> lines_ok es (<[i := l']> ls).
Proof.
  intros [H1 H2] Hi Hl' Hname. split; [by apply Forall_insert|].
  assert (forall j x, <[i := l']> ls !! j = Some x -> j = i /\ x = l' \/ j <> i /\ ls !! j = Some x) as Hcase.
  { intros j x Hj. destruct (decide (j = i)) as [->|Hne]; [|right; by rewrite list_lookup_insert_ne in Hj].
    left. rewrite list_lookup_insert_eq in Hj by (by eapply lookup_lt_Some). injection Hj as <-. done. }
  assert (forall j y, j <> i -> ls !! j = Some y -> ln_live y = true -> ln_live l' = true -> ln_name y <> ln_name l') as Hother.
  { intros j y Hne Hj Hy Hlive Heq. destruct (Hname Hlive) as [[Hl Hn]|Hno]; [|by rewrite find_name_None in Hno; apply (Hno j y)].
    apply Hne, (H2 j i y l); [done|done|done|done|congruence]. }
  intros j k x y Hj Hk Hx Hy Hn. destruct (Hcase j x Hj) as [[-> ->]|[Hnj Hj']], (Hcase k y Hk) as [[-> ->]|[Hnk Hk']]; [done| | |by apply (H2 j k x y)].
  - by destruct (Hother k y Hnk Hk' Hy Hx).
  - by destruct (Hother j x Hnj Hj' Hx Hy).
Qed.

Lemma normalized name n : normalize_line_name name = Ok n -> n = trim name /\ trim n = n /\ n <> EmptyString.
Proof. unfold normalize_line_name. case_bool_decide; [done|]. intros [= <-]. by rewrite trim_trim. Qed.

Lemma normalized_ok name n : utf8_string name -> normalize_line_name name = Ok n -> short_name n = Ok tt -> name_ok n.
Proof.
  intros Hutf (-> & Ht & Hne)%normalized Hs%fail_if_Ok%N.ltb_ge. split; [done|done|done|by apply trim_utf8].
Qed.

Lemma required_time value seconds : time_ok (Some value) -> parse_required_epoch_seconds value = Ok seconds -> shows seconds /\ seconds <> 0%N.
Proof.
  intros Ht H. unfold parse_required_epoch_seconds in H. apply bind_Ok in H as (s & Hs & H). apply bind_Ok in H as (u & Hz%fail_if_Ok%N.eqb_neq & [= <-]).
  split; [by apply Ht|done].
Qed.

Lemma existing_Ok name ls i l : lines_ok es ls -> existing name ls = Ok (i, l) -> find_name name ls = Some (i, l) /\ ls !! i = Some l /\ ln_live l = true /\ ln_name l = name /\ line_ok es l.
Proof.
  intros Hok H. unfold existing, ok_or in H. destruct (find_name name ls) as [[j x]|] eqn:Hf; [|done]. injection H as <- <-.
  split; [done|]. apply (find_name_Some es) in Hf as (Hi & Hl & Hn); [|done]. split_and!; try done. exact (Forall_lookup_1 _ _ _ _ (ls_lines es _ Hok) Hi).
Qed.

Lemma absent_Ok name ls u : absent name ls = Ok u <-> find_name name ls = None.
Proof. unfold absent. rewrite fail_if_Ok. by destruct (find_name name ls). Qed.

Lemma archived_ok l seconds : line_ok es l -> shows seconds -> seconds <> 0%N -> line_ok es (archived seconds l).
Proof. intros [H1 H2 H3 H4 H5 H6] Hs Hne%N.eqb_neq. split; cbn; by rewrite ?Hne. Qed.
Lemma deleted_ok l seconds : line_ok es l -> shows seconds -> seconds <> 0%N -> line_ok es (deleted seconds l).
Proof. intros [H1 H2 H3 H4 H5 H6] Hs Hne%N.eqb_neq. split; cbn; by rewrite ?Hne. Qed.
Lemma touched_ok l seconds : line_ok es l -> shows seconds -> line_ok es (touched seconds l).
Proof. intros [H1 H2 H3 H4 H5 H6] Hs. by split. Qed.
Lemma headed_ok l head seconds : line_ok es l -> shows seconds -> head_ok es head -> line_ok es (headed head seconds l).
Proof. intros [H1 H2 H3 H4 H5 H6] Hs Hh. by split. Qed.
Lemma renamed_ok l name seconds : line_ok es l -> shows seconds -> name_ok name -> line_ok es (renamed name seconds l).
Proof. intros [H1 H2 H3 H4 H5 H6] Hs Hn. by split. Qed.

Lemma named_time name time n seconds : name_and_time name time = Ok (n, seconds) -> normalize_line_name name = Ok n /\ parse_required_epoch_seconds time = Ok seconds.
Proof. unfold name_and_time. intros (n' & -> & H)%bind_Ok. by apply bind_Ok in H as (s & -> & [= -> ->]). Qed.

Lemma same_name_change ls i l l' : lines_ok es ls -> ls !! i = Some l -> ln_live l = true -> ln_name l' = ln_name l -> line_ok es l' -> lines_ok es (<[i := l']> ls).
Proof. intros Hok Hi Hl Hn Hl'. apply (lines_ok_change ls i l l' Hok Hi Hl'). intros _. by left. Qed.

Lemma status_archived status archived_at meta seconds : status_fields status archived_at = Ok (meta, seconds) ->
  meta = (if negb (seconds =? 0)%N then META_ARCHIVED else 0%N) /\ (parse_epoch_seconds archived_at = Ok seconds \/ seconds = 0%N).
Proof.
  unfold status_fields. destruct (_ || _).
  - intros (s & Hs & H)%bind_Ok. apply bind_Ok in H as (u & _ & [= <- <-]). split; [done|by right].
  - destruct (bool_decide _); [|done]. intros (s & Hs & H)%bind_Ok. apply bind_Ok in H as (u & Hz%fail_if_Ok & [= <- <-]). rewrite Hz. split; [done|by left].
Qed.

Lemma touch_spec_ok name time ls a ls' : time_ok time -> lines_ok es ls -> touch_spec name time ls = Ok (a, ls') -> lines_ok es ls'.
Proof.
  intros Ht Hok H. unfold touch_spec in H. apply bind_Ok in H as (n & _ & H). apply bind_Ok in H as (seconds & Hs & H). apply bind_Ok in H as ([i l] & Hl & [= _ <-]).
  apply existing_Ok in Hl as (_ & Hi & Hl & _ & Hline); [|done]. apply (same_name_change ls i l); [done|done|done|done|]. apply touched_ok; [done|by apply Ht].
Qed.

(** Every command leaves the lines in order. *)
Lemma line_spec_ok command ls a ls' : command_ok command -> lines_ok es ls -> line_spec command ls = Ok (a, ls') -> lines_ok es ls'.
Proof.
  intros Hc Hok H. destruct command as [name head time|name status created updated time head|name time|old new time|name time|name head time|name expected head time|name time|name time];
    cbn [line_spec command_ok] in *; unfold change in H.
  - destruct Hc as [Hutf Ht]. apply bind_Ok in H as ([n seconds] & (Hn & Hs)%named_time & H).
    apply bind_Ok in H as (u & Habs%absent_Ok & H). apply bind_Ok in H as (h & Hh & H). apply bind_Ok in H as ([] & Hshort & [= _ <-]).
    destruct (required_time time seconds Ht Hs) as [Hshow Hne]. apply lines_ok_snoc; [done| |done]. split; cbn; [by eapply normalized_ok|done|done|done|done|by eapply resolve_head_ok].
  - destruct Hc as (Hutf & Ht1 & Ht2 & Ht3). apply bind_Ok in H as (n & Hn & H). apply bind_Ok in H as (u & Habs%absent_Ok & H). apply bind_Ok in H as ([meta at_] & Hst & H).
    apply bind_Ok in H as (c & Hcr & H). apply bind_Ok in H as (up & Hup & H). apply bind_Ok in H as (h & Hh & H). apply bind_Ok in H as ([] & Hshort & [= _ <-]).
    apply status_archived in Hst as [_ Hat]. apply lines_ok_snoc; [done| |done].
    split; cbn; [by eapply normalized_ok|done|by apply Ht1|by apply Ht2|destruct Hat as [Hat| ->]; [by apply Ht3|done]|by eapply resolve_head_ok].
  - apply bind_Ok in H as ([n seconds] & (Hn & Hs)%named_time & H).
    apply bind_Ok in H as ([i l] & Hl & H). apply existing_Ok in Hl as (_ & Hi & Hl & _ & Hline); [|done]. destruct (required_time time seconds Hc Hs) as [Hshow Hne].
    destruct (ln_archived l); injection H as _ <-; [done|]. apply (same_name_change ls i l); [done|done|done|done|]. by apply archived_ok.
  - destruct Hc as [Hutf Ht]. apply bind_Ok in H as (o & Ho & H). apply bind_Ok in H as (n & Hn & H). apply bind_Ok in H as (u & Hdiff & H). apply bind_Ok in H as (seconds & Hs & H).
    apply bind_Ok in H as (u2 & Habs%absent_Ok & H). apply bind_Ok in H as ([i l] & Hl & H). apply bind_Ok in H as ([] & Hshort & [= _ <-]).
    apply existing_Ok in Hl as (_ & Hi & Hl & _ & Hline); [|done]. destruct (required_time time seconds Ht Hs) as [Hshow _].
    apply (lines_ok_change ls i l); [done|done|apply renamed_ok; [done|done|by eapply normalized_ok]|]. intros _. by right.
  - apply bind_Ok in H as ([n seconds] & (Hn & Hs)%named_time & H).
    apply bind_Ok in H as ([i l] & Hl & H). injection H as _ <-. apply existing_Ok in Hl as (_ & Hi & Hl & _ & Hline); [|done]. destruct (required_time time seconds Hc Hs) as [Hshow Hne].
    apply (same_name_change ls i l); [done|done|done|done|]. by apply deleted_ok.
  - apply bind_Ok in H as ([n seconds] & (Hn & Hs)%named_time & H).
    apply bind_Ok in H as ([i l] & Hl & H). apply bind_Ok in H as (h & Hh & [= _ <-]). apply existing_Ok in Hl as (_ & Hi & Hl & _ & Hline); [|done].
    destruct (required_time time seconds Hc Hs) as [Hshow Hne]. apply (same_name_change ls i l); [done|done|done|done|]. apply headed_ok; [done|done|by eapply resolve_head_ok].
  - apply bind_Ok in H as ([n seconds] & (Hn & Hs)%named_time & H).
    apply bind_Ok in H as ([i l] & Hl & H). apply bind_Ok in H as (u & _ & H). apply bind_Ok in H as (h & Hh & [= _ <-]). apply existing_Ok in Hl as (_ & Hi & Hl & _ & Hline); [|done].
    destruct (required_time time seconds Hc Hs) as [Hshow Hne]. apply (same_name_change ls i l); [done|done|done|done|]. apply headed_ok; [done|done|by eapply resolve_head_ok].
  - by eapply touch_spec_ok.
  - apply bind_Ok in H as (seconds & _ & H). by eapply touch_spec_ok.
Qed.
End Spec.
