(* ===== verification/LineCommands.v ===== *)
(** * Changing lines

    The methods of [LineStore] that change lines do what [LineSpec] says, in every
    sequence; a head is swapped once; and an example of a time that the store
    takes and cannot show. *)

From Stdlib Require Import NArith ZArith Lia.
From Stdlib Require Strings.Byte.
From stdpp Require Import base numbers strings gmap list.
From S2P Require Import Prelude Text Codec FileStore BinaryDb RecordTable BinaryIndex ReadTxn WriteTxn PayloadFile QuietTxn ContentIds ContentCodec ContentStore.
From S2P Require Import SnapshotLog SnapshotAppend LineStore LineLog LineSpec.

Local Abbreviation L := BINARY_DB_LINE_LAYOUT_ID.

(** ** The transactions *)

Section Writing.
Context {C : Chrono} (fs : LocalBinaryDbFs) (snapshots snapshot_texts snapshot_ids line_rows line_names line_ids : PathBuf).
Context (Hsnapshots : file_path_for fs SNAPSHOT_BIN = Ok snapshots) (Hsnapshot_texts : file_path_for fs SNAPSHOT_PAYLOAD_BIN = Ok snapshot_texts).
Context (Hsnapshot_ids : file_path_for fs SNAPSHOT_ID_IDX = Ok snapshot_ids).
Context (Hrows : file_path_for fs LINE_BIN = Ok line_rows) (Hnames : file_path_for fs LINE_NAME_PAYLOAD_BIN = Ok line_names).
Context (Hids : file_path_for fs LINE_NAME_IDX = Ok line_ids).
Context {du : gmap PathBuf bytes}.
Implicit Types (d : gmap PathBuf bytes) (es : list entry) (l : line) (ls : list line) (ps : list (line * N)).

Local Abbreviation paths := [line_rows; line_names; line_ids].
Local Abbreviation indexes := (store_indexes snapshot_ids line_ids).
Local Abbreviation holds_placed := (holds_placed line_rows line_names line_ids).
Local Abbreviation holds_store := (holds_store snapshots snapshot_texts snapshot_ids line_rows line_names line_ids).
Local Abbreviation names_data := (names_data line_names).
Local Abbreviation calm := (calm paths indexes (du := du)).
Local Abbreviation works := (works paths indexes (du := du)).
Local Abbreviation unwritten := (unwritten paths indexes (du := du)).
Local Abbreviation fresh d := (unwritten d ([], [])).

Lemma files_apart : line_rows <> line_names /\ line_rows <> line_ids /\ line_names <> line_ids /\ line_rows ∉ map snd indexes /\ line_names ∉ map snd indexes.
Proof.
  assert (line_rows <> line_names /\ line_rows <> line_ids /\ line_names <> line_ids /\ line_rows <> snapshot_ids /\ line_names <> snapshot_ids) as (H1 & H2 & H3 & H4 & H5)
    by (split_and!; by eapply names_apart).
  split_and!; [done|done|done|..]; cbn; rewrite !not_elem_of_cons; (split_and!; [done|done|apply not_elem_of_nil]).
Qed.

Lemma snapshots_apart p : p ∈ paths -> p <> snapshots /\ p <> snapshot_texts /\ p <> snapshot_ids.
Proof. rewrite !elem_of_cons. intros [->|[->|[->|H%elem_of_nil]]]; [..|done]; split_and!; by eapply names_apart. Qed.

Lemma line_indexes : Forall (fun ip => file_path_for fs (index_path (fst ip)) = Ok (snd ip)) indexes /\ NoDup (map snd indexes).
Proof. split; [by apply store_indexes_named|by eapply store_indexes_apart]. Qed.

#[local] Instance unwritten_true d was : TrueAccess fs indexes d (unwritten d was).
Proof. destruct line_indexes as [H1 H2]. by apply write_txn_true. Qed.

(** The files of the snapshots are not written. *)
Lemma snapshots_other d d' es : (forall p, p ∉ paths -> d' !! p = d !! p) -> holds_snapshots snapshots snapshot_texts snapshot_ids d es ->
  holds_snapshots snapshots snapshot_texts snapshot_ids d' es.
Proof.
  intros Hother. assert (d' !! snapshots = d !! snapshots /\ d' !! snapshot_texts = d !! snapshot_texts /\ d' !! snapshot_ids = d !! snapshot_ids) as (E1 & E2 & E3).
  { split_and!; apply Hother; intros H; apply snapshots_apart in H; tauto. }
  intros [H1 H2 H3 H4 H5 H6]. assert (payload_data snapshot_texts d' = payload_data snapshot_texts d) as Ed by (unfold payload_data; by apply contents_other).
  split; rewrite ?Ed; [|done..| |].
  - destruct H1 as (rows & [Hs Ht] & Hall). exists rows. split; [split; [done|by rewrite E1]|done].
  - by rewrite E2.
  - destruct H6 as (m & Hm & Hpos). exists m. split; [|done]. unfold index_content, index_data in *. by rewrite E3.
Qed.

Lemma placed_there d ps : holds_placed d ps -> ps <> [] -> forall p, p ∈ paths -> is_Some (d !! p).
Proof.
  intros [[rows [[_ Ht] Hall]] _ _ Hn _ Hids'] Hne p. rewrite !elem_of_cons. intros [->|[->|[->|H%elem_of_nil]]]; [| | |done].
  - destruct Ht as [->|[_ ->]]; [by eexists|]. apply Forall2_nil_inv_r in Hall. by destruct ps.
  - destruct ps as [|q ps]; [done|]. apply Forall_cons in Hn as [[Hsome _] _]. exact Hsome.
  - by apply Hids'.
Qed.

(** *** The index *)

Lemma line_candidate_bytes name i : candidate_bytes (line_name_index L) (line_name_key name) i = Ok (line_name_key name ++ to_le_bytes 4 i).
Proof. unfold candidate_bytes, line_name_key. cbn [line_name_index fixed_key_size stores_record_index_plus_one]. by rewrite length_to_le_bytes. Qed.

(** The files with one more candidate for a name. *)
Definition named (d : gmap PathBuf bytes) (name : string) (i : N) : gmap PathBuf bytes :=
  with_entry (line_name_index L) line_ids (line_name_key name ++ to_le_bytes 4 i) d.

Lemma works_name d m name i : index_content (line_name_index L) line_ids d m -> (i <= u32_max)%N ->
  works d (txn_append_index_candidate fs (line_name_index L) (line_name_key name) i) tt (named d name i) /\
    index_content (line_name_index L) line_ids (named d name i) (push_candidate (line_name_key name) i m).
Proof.
  intros Hm Hi. destruct line_indexes as [H1 H2]. apply (works_candidate fs paths indexes H1 H2 d (line_name_index L)); [right; left|done|set_solver|done|done|done|].
  apply line_candidate_bytes.
Qed.

Lemma named_other d name i p : p <> line_ids -> named d name i !! p = d !! p.
Proof. intros H. unfold named, with_entry. by rewrite lookup_insert_ne. Qed.

Lemma push_known key i m key' j : j ∈ default [] (push_candidate key i m !! key') <-> j ∈ default [] (m !! key') \/ key' = key /\ j = i.
Proof.
  rewrite push_candidate_lookup. case_bool_decide as Hk; [subst|].
  - rewrite elem_of_app, list_elem_of_singleton. naive_solver.
  - naive_solver.
Qed.

(** A line takes the place [i]; the index has the place for its name. *)
Lemma indexes_insert m ls i l' : indexes_lines m ls -> i < length ls -> (ln_live l' = true -> N.of_nat i ∈ default [] (m !! line_name_key (ln_name l'))) ->
  indexes_lines m (<[i := l']> ls).
Proof.
  intros [H1 H2] Hi Hl'. split; [|intros key j Hj; rewrite length_insert; by eapply H2]. intros j x Hj Hx.
  destruct (decide (j = i)) as [->|Hne]; [|by apply H1; [rewrite list_lookup_insert_ne in Hj|]].
  rewrite list_lookup_insert_eq in Hj by done. injection Hj as <-. by apply Hl'.
Qed.

Lemma indexes_push m ls key i : indexes_lines m ls -> N.to_nat i < length ls -> indexes_lines (push_candidate key i m) ls.
Proof.
  intros [H1 H2] Hi. split; [intros j x Hj Hx; apply push_known; left; by apply H1|]. intros key' j [Hj|[_ ->]]%push_known; [by eapply H2|done].
Qed.

Lemma indexes_snoc m ls l : indexes_lines m ls -> indexes_lines (push_candidate (line_name_key (ln_name l)) (N.of_nat (length ls)) m) (ls ++ [l]).
Proof.
  intros [H1 H2]. split.
  - intros j x [Hj|[Hge Hj]]%lookup_app_Some Hx; apply push_known; [left; by apply H1|]. right. destruct (j - length ls) as [|k] eqn:Hk; [|done]. injection Hj as <-.
    split; [done|]. f_equal. lia.
  - intros key j. rewrite length_app. cbn [length]. intros [Hj|[_ ->]]%push_known; [|lia]. apply H2 in Hj. lia.
Qed.

(** *** Records *)

Lemma encoded_line r : record_ok L r -> exists row, encode_line_record L r = Ok row /\ length row = LINE_RECORD_SIZE.
Proof. intros Hr. destruct (encode_decode L r) as (row & H1 & H2 & _); [reflexivity|exact Hr|]. by exists row. Qed.

(** The name of a line, written behind the other names. *)
Lemma works_line_name d ps name : holds_placed d ps -> name <> EmptyString -> (N.of_nat (length (bytes_of_string name)) <= 65535)%N ->
  (N.of_nat (length (names_data d)) + 65535 <= usize_max)%N ->
  let d' := <[line_names := names_data d ++ bytes_of_string name]> d in
  works d (txn_append_payload fs (line_name_payload_file L) (bytes_of_string name))
    (mkPayloadRange (N.of_nat (length (names_data d))) (N.of_nat (length (bytes_of_string name)))) d' /\
  holds_placed d' ps /\ names_data d' = names_data d ++ bytes_of_string name.
Proof.
  intros Hd Hne Hlen Hspace d'. destruct files_apart as (Hrn & _ & Hni & _ & Hout). pose proof Hd as [Hr Hc Hp Hn (m & Hm & Hil) Ht].
  assert (names_data d' = names_data d ++ bytes_of_string name) as Hdata by apply contents_appended.
  assert (d' !! line_rows = d !! line_rows) as Er by (by apply lookup_insert_ne). assert (d' !! line_ids = d !! line_ids) as Ei by (by apply lookup_insert_ne).
  split; [|split; [|exact Hdata]].
  - apply works_payload; [done|done|set_solver|done|done| |unfold u32_max; lia]. intros Hnil. destruct Hne. by rewrite <- (string_of_bytes_of_string name), Hnil.
  - split; [|done| | | |by rewrite Ei].
    + destruct Hr as (rows & [Hs Hrow] & Hall). exists rows. split; [split; [done|by rewrite Er]|done].
    + apply payload_appended; [done|]. rewrite length_app. unfold names_data in *. lia.
    + apply Forall_forall. intros p Hin. rewrite Forall_forall in Hn. destruct (Hn p Hin) as (_ & H1 & H2 & H3). split; [unfold d'; rewrite lookup_insert_eq; by eexists|].
      rewrite Hdata. split; [done|]. split; [rewrite length_app; lia|]. unfold names_data in *. by rewrite slice_appended.
    + exists m. split; [|done]. unfold index_content, index_data in *. by rewrite Ei.
Qed.

Lemma appended_name_stored data l : 4 <= length data -> name_stored (data ++ bytes_of_string (ln_name l)) (l, N.of_nat (length data)).
Proof.
  intros H. unfold name_stored, name_length. cbn [fst snd]. split; [lia|]. split; [rewrite length_app; lia|].
  by rewrite !Nat2N.id, drop_app_length, firstn_all.
Qed.

(** A row changes; the names and the index fit the new lines. *)
Lemma works_mutate d ps i p p' : holds_placed d ps -> ps !! i = Some p -> record_ok L (line_record (snd p') (fst p')) -> name_stored (names_data d) p' ->
  exists d1, works d (mutate_line fs L (N.of_nat i) (line_record (snd p') (fst p'))) tt d1 /\ (forall q, q <> line_rows -> d1 !! q = d !! q) /\
    forall d2 m, d2 !! line_rows = d1 !! line_rows -> d2 !! line_names = d !! line_names -> index_content (line_name_index L) line_ids d2 m ->
      is_Some (d2 !! line_ids) -> indexes_lines m (map fst (<[i := p']> ps)) -> holds_placed d2 (<[i := p']> ps).
Proof.
  intros Hd Hi Hok Hname. destruct files_apart as (Hrn & Hri & Hni & Hout & _). pose proof Hd as [(rows & Ht & Hall) Hc Hp Hn Hix Hthere].
  pose proof (Forall2_length _ _ _ Hall) as Hlen. rewrite length_map in Hlen. pose proof (lookup_lt_Some _ _ _ Hi) as Hlt.
  destruct (lookup_lt_is_Some_2 rows i) as [old Hold]; [lia|]. destruct (encoded_line _ Hok) as (row & Hrow & Hrowlen).
  exists (<[line_rows := table_bytes (line_file L) (<[i := row]> rows)]> d). split_and!.
  - unfold mutate_line, stored. eapply works_bind; [apply works_map_error, works_lift; by rewrite Hrow|]. apply works_map_error. rewrite <- (Nat2N.id i) at 2.
    eapply works_overwrite; [done|done|by split|done|set_solver|done|done|lia|by rewrite Nat2N.id|by rewrite Hrowlen].
  - intros q Hq. by apply lookup_insert_ne.
  - intros d2 m Er En Hm Hsome Hil. rewrite lookup_insert_eq in Er. assert (names_data d2 = names_data d) as Edata by (by apply contents_other).
    split; [|by rewrite length_insert|by apply (payload_other _ _ d)| |by exists m|done].
    + exists (<[i := row]> rows). split.
      * destruct Ht as [Hs _]. split; [apply Forall_insert; [done|by rewrite Hrowlen]|by left].
      * change (map (fun p => line_record (snd p) (fst p)) (<[i := p']> ps)) with ((fun p => line_record (snd p) (fst p)) <$> <[i := p']> ps).
        rewrite list_fmap_insert. apply Forall2_insert; [exact Hall|exact Hrow].
    + rewrite En, Edata. apply Forall_insert; [exact Hn|]. split; [|exact Hname]. rewrite Forall_forall in Hn. by apply (Hn p), list_elem_of_lookup_2 with i.
Qed.

(** A change of a line that keeps its place and, while it is live, its name. *)
Lemma works_change d es ps i l l' offset : holds_snapshots snapshots snapshot_texts snapshot_ids d es -> lines_ok es (map fst ps) -> holds_placed d ps ->
  ps !! i = Some (l, offset) -> ln_live l = true -> ln_name l' = ln_name l -> line_ok es l' ->
  exists d1, works d (mutate_line fs L (N.of_nat i) (line_record offset l')) tt d1 /\ holds_placed d1 (<[i := (l', offset)]> ps) /\
    (forall q, q ∉ paths -> d1 !! q = d !! q) /\ length (names_data d1) = length (names_data d).
Proof.
  intros Hs Hok Hd Hi Hl Hn Hl'. destruct files_apart as (Hrn & Hri & Hni & Hout & _). pose proof Hd as [_ _ Hp Hnames' (m & Hm & Hil) Hthere].
  assert (name_stored (names_data d) (l', offset)) as Hname.
  { rewrite Forall_forall in Hnames'. destruct (Hnames' (l, offset)) as [_ H]; [by eapply list_elem_of_lookup_2|]. unfold name_stored, name_length in *. cbn [fst snd] in *. by rewrite Hn. }
  assert (record_ok L (line_record offset l')) as Hrec.
  { destruct Hname as (Hoff & Hend & _). cbn [fst snd] in *. pose proof (hp_space _ _ _ Hp) as Hspace. apply (line_record_ok es); [exact (hs_count Hs)|done|done|].
    unfold fits. change (256 ^ N.of_nat 8)%N with 18446744073709551616%N. unfold LineLog.names_data, usize_max in *. lia. }
  destruct (works_mutate d ps i (l, offset) (l', offset) Hd Hi Hrec Hname) as (d1 & Hw & Hother & Hheld). exists d1. split; [exact Hw|].
  assert (d1 !! line_names = d !! line_names /\ d1 !! line_ids = d !! line_ids) as [En Ei] by (split; apply Hother; congruence). split_and!.
  - apply (Hheld d1 m); [done|done|unfold index_content, index_data in *; by rewrite Ei|rewrite Ei; apply Hthere; by destruct ps|].
    change (map fst (<[i := (l', offset)]> ps)) with (fst <$> <[i := (l', offset)]> ps). rewrite list_fmap_insert.
    apply indexes_insert; [done|rewrite length_fmap; by eapply lookup_lt_Some|]. intros _. cbn [fst]. rewrite Hn. apply (il_live _ _ Hil); [|done].
    change (map fst ps) with (fst <$> ps). by rewrite list_lookup_fmap, Hi.
  - intros q Hq. apply Hother. intros ->. apply Hq. left.
  - unfold LineLog.names_data. f_equal. by apply contents_other.
Qed.

(** A new line. *)
Lemma works_append_line d es ps l : holds_snapshots snapshots snapshot_texts snapshot_ids d es -> holds_placed d ps -> line_ok es l ->
  (N.of_nat (length ps) < u32_max)%N -> (N.of_nat (length (names_data d)) + 65535 <= usize_max)%N ->
  let offset := N.of_nat (length (names_data d)) in
  exists d', works d (append_line_in_txn fs L (ln_name l) (line_bits l) (ln_created l) (ln_updated l) (ln_archived_at l) (plus_one (ln_head l)))
      (N.of_nat (length ps), line_record offset l) d' /\
    holds_placed d' (ps ++ [(l, offset)]) /\ (forall q, q ∉ paths -> d' !! q = d !! q) /\ (N.of_nat (length (names_data d')) <= N.of_nat (length (names_data d)) + 65535)%N.
Proof.
  intros Hs Hd Hl Hcount Hspace offset. destruct files_apart as (Hrn & Hri & Hni & Hout & _). pose proof (lo_name es l Hl) as [Hne Hlen _ _].
  destruct (works_line_name d ps (ln_name l) Hd Hne Hlen Hspace) as (Hw1 & Hd1 & Hdata1). set (d1 := <[line_names := _]> d) in *.
  pose proof (hp_length _ _ _ (hl_payload _ _ _ d ps Hd)) as Hhead.
  assert (record_ok L (line_record offset l)) as Hrec.
  { apply (line_record_ok es); [exact (hs_count Hs)|done|unfold offset, LineLog.names_data; lia|]. unfold fits. change (256 ^ N.of_nat 8)%N with 18446744073709551616%N. unfold offset, usize_max in *. lia. }
  destruct (encoded_line _ Hrec) as (row & Hrow & Hrowlen). pose proof Hd1 as [(rows & Ht & Hall) _ Hp1 Hn1 (m & Hm & Hil) _].
  pose proof (Forall2_length _ _ _ Hall) as Hlr. rewrite length_map in Hlr. set (d2 := <[line_rows := table_bytes (line_file L) (rows ++ [row])]> d1).
  assert (index_content (line_name_index L) line_ids d2 m) as Hm2 by (unfold index_content, index_data, d2 in *; by rewrite lookup_insert_ne).
  destruct (works_name d2 m (ln_name l) (N.of_nat (length ps)) Hm2) as [Hw3 Hm3]; [lia|].
  assert (names_data (named d2 (ln_name l) (N.of_nat (length ps))) = names_data d ++ bytes_of_string (ln_name l)) as Hdata.
  { rewrite <- Hdata1. apply contents_other. unfold d2. by rewrite named_other, lookup_insert_ne. }
  exists (named d2 (ln_name l) (N.of_nat (length ps))). split_and!.
  - unfold append_line_in_txn. eapply works_bind; [apply (works_lift _ _ _ _ tt); apply fail_if_Ok, N.ltb_ge; done|].
    eapply works_bind; [apply works_map_error; exact Hw1|]. cbn [payload_range_offset]. change (mkLineRecord _ _ _ _ _ _ _ _) with (line_record offset l).
    unfold stored. eapply works_bind; [apply works_map_error, works_lift; by rewrite Hrow|].
    eapply works_bind; [apply works_map_error, (works_record fs paths indexes (du := du) d1 (line_file L) line_rows rows row); [done|done|by split|done|set_solver|done|exact Ht|lia|by rewrite Hrowlen]|].
    rewrite <- Hlr. eapply works_bind; [apply works_map_error; exact Hw3|apply works_ret].
  - split.
    + exists (rows ++ [row]). split; [split; [apply Forall_app; split; [apply Ht|apply Forall_singleton; by rewrite Hrowlen]|left; unfold d2; rewrite named_other by done; apply lookup_insert_eq]|].
      rewrite map_app. apply Forall2_app; [done|]. by constructor.
    + rewrite length_app. cbn [length]. lia.
    + apply (payload_other _ _ d1); [unfold d2; by rewrite named_other, lookup_insert_ne|done].
    + rewrite Hdata, named_other by done. unfold d2. rewrite lookup_insert_ne by done. rewrite Hdata1 in Hn1. apply Forall_app. split; [exact Hn1|]. apply Forall_singleton.
      split; [unfold d1; rewrite lookup_insert_eq; by eexists|]. by apply appended_name_stored.
    + exists (push_candidate (line_name_key (ln_name l)) (N.of_nat (length ps)) m). split; [exact Hm3|]. rewrite map_app. rewrite <- (length_map fst ps). by apply indexes_snoc.
    + intros _. unfold named, with_entry. rewrite lookup_insert_eq. by eexists.
  - intros q Hq. rewrite !not_elem_of_cons in Hq. destruct Hq as (Hq1 & Hq2 & Hq3 & _). rewrite named_other by done. unfold d2, d1. by rewrite !lookup_insert_ne.
  - rewrite Hdata, length_app. lia.
Qed.

(** *** Methods *)

Lemma in_write_concludes {A : Type} lock (body : stateful BinaryDbWriteTxn line_error A) r d d' : concludes fs (fresh d) body r d' ->
  exists du', in_write_txn fs lock body (mkIo du d []) = (r, mkIo du' d' []).
Proof.
  intros H. destruct (H (begin ContentWrite lock (mkIo du d []))) as (t' & du' & Hrun & Hf); [by apply begin_calm|].
  exists du'. unfold in_write_txn. by rewrite Hrun, Hf.
Qed.

(** The files after a transaction hold the lines [ls], and no others changed. *)
Definition after (d d' : gmap PathBuf bytes) (ls : list line) : Prop :=
  (exists ps, map fst ps = ls /\ holds_placed d' ps) /\ (forall q, q ∉ paths -> d' !! q = d !! q) /\
  (N.of_nat (length (names_data d')) <= N.of_nat (length (names_data d)) + 65535)%N.

Section Store.
Context (d : gmap PathBuf bytes) (es : list entry) (ps : list (line * N)).
Context (Hs : holds_snapshots snapshots snapshot_texts snapshot_ids d es) (Hlog : log_ok es) (Hd : holds_placed d ps) (Hok : lines_ok es (map fst ps)).
Context (Hcount : (N.of_nat (length ps) < u32_max)%N) (Hspace : (N.of_nat (length (names_data d)) + 65535 <= usize_max)%N).

(** The transaction [body] does what [spec] says of the lines. *)
Definition implements {A} (f : A -> line_answer) (body : stateful BinaryDbWriteTxn line_error A) (spec : result line_error (line_answer * list line)) : Prop :=
  exists r d', concludes fs (fresh d) body r d' /\
    match spec with Ok (a, ls) => (exists x, r = Ok x /\ f x = a) /\ after d d' ls | Err e => r = Err e /\ d' = d end.

Lemma implements_answer {A B : Type} (f : B -> line_answer) m (k : A -> stateful BinaryDbWriteTxn line_error B) (r : result line_error A) spec :
  answers (fresh d) m r -> match r with Ok a => implements f (k a) spec | Err e => spec = Err e end -> implements f (m ≫= k) spec.
Proof.
  intros Hm H. destruct r as [a|e].
  - destruct H as (r & d' & Hk & H). exists r, d'. split; [by eapply concludes_answers|done].
  - subst spec. exists (Err e), d. split; [by apply (concludes_fail fs paths indexes)|done].
Qed.

Lemma implements_check {A B : Type} (f : B -> line_answer) (m : result line_error A) (k : A -> stateful BinaryDbWriteTxn line_error B) spec :
  (forall a, m = Ok a -> implements f (k a) (spec a)) -> implements f (lift m ≫= k) (m ≫= spec).
Proof. intros H. eapply implements_answer; [apply answers_lift|]. destruct m as [a|e]; [by apply H|done]. Qed.

Lemma finds_line name : trim name = name -> name <> EmptyString ->
  match find_name name (map fst ps) with
  | Some (i, l) => exists offset, ps !! i = Some (l, offset) /\ answers (fresh d) (find_line fs name) (Ok (Some (N.of_nat i, line_record offset l)))
  | None => answers (fresh d) (find_line fs name) (Ok None)
  end.
Proof. intros Ht Hne. by apply (answers_find_line fs snapshots snapshot_texts snapshot_ids line_rows line_names line_ids Hrows Hnames d es). Qed.

Lemma implements_absent {A : Type} (f : A -> line_answer) name (k : unit -> stateful BinaryDbWriteTxn line_error A) spec : trim name = name -> name <> EmptyString ->
  (find_name name (map fst ps) = None -> implements f (k tt) (spec tt)) -> implements f (require_absent fs name ≫= k) (absent name (map fst ps) ≫= spec).
Proof.
  intros Ht Hne H. pose proof (finds_line name Ht Hne) as Hfind. unfold require_absent, absent. destruct (find_name name (map fst ps)) as [[i l]|].
  - destruct Hfind as (offset & _ & Hfind). apply (implements_answer f _ k (Err (LineAlreadyExists name))); [|done].
    eapply answers_step; [exact (answers_map_error _ LineStoreError _ _ Hfind)|apply answers_lift].
  - apply (implements_answer f _ k (Ok tt)); [|by apply H].
    eapply answers_step; [exact (answers_map_error _ LineStoreError _ _ Hfind)|apply answers_lift].
Qed.

Lemma implements_line {A : Type} (f : A -> line_answer) name (k : N * BinaryLineRecord -> stateful BinaryDbWriteTxn line_error A) spec : trim name = name -> name <> EmptyString ->
  (forall i l offset, ps !! i = Some (l, offset) -> ln_live l = true -> ln_name l = name -> line_ok es l -> implements f (k (N.of_nat i, line_record offset l)) (spec (i, l))) ->
  implements f (require_line fs name ≫= k) (existing name (map fst ps) ≫= spec).
Proof.
  intros Ht Hne H. pose proof (finds_line name Ht Hne) as Hfind. unfold require_line, existing. destruct (find_name name (map fst ps)) as [[i l]|] eqn:Hname; cbn [ok_or].
  - destruct Hfind as (offset & Hi & Hfind). apply (implements_answer f _ k (Ok (N.of_nat i, line_record offset l))).
    + eapply answers_step; [exact (answers_map_error _ LineStoreError _ _ Hfind)|apply answers_lift].
    + destruct (existing_Ok es name (map fst ps) i l Hok) as (_ & _ & Hl & Hn & Hline); [unfold existing; by rewrite Hname|]. by apply H.
  - apply (implements_answer f _ k (Err (UnknownLine name))); [|done].
    eapply answers_step; [exact (answers_map_error _ LineStoreError _ _ Hfind)|apply answers_lift].
Qed.

Lemma implements_head {A : Type} (f : A -> line_answer) id (k : N -> stateful BinaryDbWriteTxn line_error A) spec :
  (forall head, resolve_head es id = Ok head -> implements f (k (plus_one head)) (spec head)) ->
  implements f (resolve_snapshot_index_plus1 fs id ≫= k) (resolve_head es id ≫= spec).
Proof.
  intros H. eapply implements_answer; [by apply (answers_resolve fs snapshots snapshot_texts snapshot_ids line_ids Hsnapshots d es Hs Hlog)|].
  destruct (resolve_head es id) as [head|e]; [by apply H|done].
Qed.

(** A view of a line, in any state of the transaction. *)
Lemma works_view d1 ps1 i l offset : (forall q, q ∉ paths -> d1 !! q = d !! q) -> holds_placed d1 ps1 -> lines_ok es (map fst ps1) -> ps1 !! i = Some (l, offset) ->
  works d1 (line_record_view fs (N.of_nat i) (line_record offset l)) (view_of es i l) d1.
Proof.
  intros Hother Hd1 Hok1 Hi. apply works_answers. intros was.
  apply (answers_view fs snapshots snapshot_texts snapshot_ids line_rows line_names line_ids Hsnapshots Hnames d1 es ps1); [by eapply snapshots_other|done|done|done|done].
Qed.

(** The line at [i] becomes [l']. *)
Lemma implements_change i l l' offset : ps !! i = Some (l, offset) -> ln_live l = true -> ln_name l' = ln_name l -> line_ok es l' ->
  implements Shown (mutate_view_commit fs L (N.of_nat i) (line_record offset l')) (change es (map fst ps) i l').
Proof.
  intros Hi Hl Hn Hl'. destruct (works_change d es ps i l l' offset Hs Hok Hd Hi Hl Hn Hl') as (d1 & Hw & Hd1 & Hother & Hlen).
  assert (map fst (<[i := (l', offset)]> ps) = <[i := l']> (map fst ps)) as Hmap by apply list_fmap_insert.
  assert (ps !! i <> None) as Hsome by (by rewrite Hi). pose proof (lookup_lt_Some _ _ _ Hi) as Hlt.
  exists (Ok (view_of es i l')), d1. split; [|split; [by eexists|]].
  - unfold mutate_view_commit. eapply concludes_works; [exact Hw|]. eapply concludes_calm.
    + apply (works_view d1 (<[i := (l', offset)]> ps)); [done|done|rewrite Hmap|by apply list_lookup_insert_eq].
      apply (same_name_change es (map fst ps) i l); [done| |done|done|done]. change (map fst ps) with (fst <$> ps). by rewrite list_lookup_fmap, Hi.
    + apply concludes_commit. apply (placed_there d1 _ Hd1). intros Hnil. apply (f_equal length) in Hnil. rewrite length_insert in Hnil. cbn in Hnil. lia.
  - split; [by exists (<[i := (l', offset)]> ps)|]. split; [done|]. lia.
Qed.

(** A new line behind the others, and what is left of the method. *)
Lemma implements_append {A : Type} (f : A -> line_answer) l a (k : N * BinaryLineRecord -> stateful BinaryDbWriteTxn line_error A) :
  ln_name l <> EmptyString -> (short_name (ln_name l) = Ok tt -> line_ok es l) ->
  (forall d1 offset, (forall q, q ∉ paths -> d1 !! q = d !! q) -> holds_placed d1 (ps ++ [(l, offset)]) -> line_ok es l ->
    exists x, f x = a /\ concludes fs (calm d1) (k (N.of_nat (length ps), line_record offset l)) (Ok x) d1) ->
  implements f (append_line_in_txn fs L (ln_name l) (line_bits l) (ln_created l) (ln_updated l) (ln_archived_at l) (plus_one (ln_head l)) ≫= k)
    (_ ← short_name (ln_name l); Ok (a, map fst ps ++ [l])).
Proof.
  intros Hne Hline Hk. destruct (short_name (ln_name l)) as [[]|e] eqn:Hshort.
  - specialize (Hline eq_refl). destruct (works_append_line d es ps l Hs Hd Hline Hcount Hspace) as (d1 & Hw & Hd1 & Hother & Hlen).
    destruct (Hk d1 _ Hother Hd1 Hline) as (x & Hx & Hend). exists (Ok x), d1. split; [by eapply concludes_works|]. split; [by exists x|].
    split; [|by split]. eexists. split; [|exact Hd1]. by rewrite map_app.
  - exists (Err e), d. split; [|done]. apply (concludes_fail fs paths indexes). eapply answers_bind; [apply answers_lift|].
    fold (short_name (ln_name l)). rewrite Hshort. done.
Qed.

Lemma concludes_placed {A : Type} d1 ps1 (x : A) : holds_placed d1 ps1 -> ps1 <> [] -> concludes fs (calm d1) (_ ← stored commit; mret x) (Ok x) d1.
Proof. intros Hd1 Hne. apply concludes_commit. by eapply placed_there. Qed.

Lemma snoc_not_nil {A : Type} (xs : list A) x : xs ++ [x] <> [].
Proof. by destruct xs. Qed.

Lemma snoc_placed l offset : (ps ++ [(l, offset)]) !! length ps = Some (l, offset).
Proof. by rewrite lookup_app_r, Nat.sub_diag by lia. Qed.

Lemma implements_create name head seconds : name_ok name \/ short_name name <> Ok tt -> trim name = name -> name <> EmptyString -> shows seconds ->
  implements Shown (
      _ ← require_absent fs name;
      head_plus1 ← resolve_snapshot_index_plus1 fs head;
      '(line_index, record) ← append_line_in_txn fs L name 0 seconds seconds 0 head_plus1;
      view ← line_record_view fs line_index record;
      _ ← stored commit;
      mret view)
    (_ ← absent name (map fst ps); head ← resolve_head es head; _ ← short_name name;
     let l := mkLine name false false head seconds seconds 0 in Ok (Shown (view_of es (length (map fst ps)) l), map fst ps ++ [l])).
Proof.
  intros Hname Ht Hne Hshow. apply implements_absent; [done|done|]. intros Habs. apply implements_head. intros h Hh%resolve_head_ok. cbv zeta.
  set (l := mkLine name false false h seconds seconds 0). rewrite length_map.
  assert (short_name name = Ok tt -> line_ok es l) as Hline by (intros Hshort; destruct Hname as [Hname|]; [by split|done]).
  apply (implements_append Shown l); [done|exact Hline|]. intros d1 offset Hother Hd1 Hl. eexists. split; [reflexivity|]. cbn beta iota.
  eapply concludes_calm; [|by eapply concludes_placed, snoc_not_nil]. eapply works_view; [done|exact Hd1| |apply snoc_placed].
  rewrite map_app. by apply lines_ok_snoc.
Qed.

Lemma implements_bootstrap name status created updated archived head : (short_name name = Ok tt -> name_ok name) -> trim name = name -> name <> EmptyString ->
  time_ok created -> time_ok updated -> time_ok archived ->
  implements AtIndex (
      _ ← require_absent fs name;
      '(meta, archived_at_s) ← lift (status_fields status archived);
      created_at_s ← lift (parse_epoch_seconds created);
      updated_at_s ← lift (parse_epoch_seconds updated);
      head_plus1 ← resolve_snapshot_index_plus1 fs head;
      '(line_index, _) ← append_line_in_txn fs L name meta created_at_s updated_at_s archived_at_s head_plus1;
      _ ← stored commit;
      mret line_index)
    (_ ← absent name (map fst ps);
     '(meta, archived) ← status_fields status archived;
     created ← parse_epoch_seconds created;
     updated ← parse_epoch_seconds updated;
     head ← resolve_head es head;
     _ ← short_name name;
     Ok (AtIndex (N.of_nat (length (map fst ps))), map fst ps ++ [mkLine name (negb (archived =? 0)%N) false head created updated archived])).
Proof.
  intros Hname Ht Hne Hc Hu Ha. apply implements_absent; [done|done|]. intros Habs. apply implements_check. intros [meta a] [-> Harch]%status_archived.
  apply implements_check. intros c Hcreated. apply implements_check. intros u Hupdated. apply implements_head. intros h Hh%resolve_head_ok. rewrite length_map.
  set (l := mkLine name (negb (a =? 0)%N) false h c u a).
  assert (short_name name = Ok tt -> line_ok es l) as Hline.
  { intros Hshort%Hname. split; [done|done|by apply Hc|by apply Hu| |done]. destruct Harch as [Harch| ->]; [by apply Ha|apply shows_zero]. }
  replace (if negb (a =? 0)%N then META_ARCHIVED else 0%N) with (line_bits l) by (unfold line_bits; cbn; by destruct (a =? 0)%N).
  apply (implements_append AtIndex l); [done|exact Hline|]. intros d1 offset _ Hd1 _. eexists. split; [reflexivity|]. by eapply concludes_placed, snoc_not_nil.
Qed.

Lemma implements_archive name seconds : trim name = name -> name <> EmptyString -> shows seconds -> seconds <> 0%N ->
  implements Shown (
      '(line_index, record) ← require_line fs name;
      if line_is_archived record then line_record_view fs line_index record
      else mutate_view_commit fs L line_index (archived_record record seconds))
    ('(i, l) ← existing name (map fst ps);
     if ln_archived l then Ok (Shown (view_of es i l), map fst ps) else change es (map fst ps) i (archived seconds l)).
Proof.
  intros Ht Hne Hshow Hz. apply implements_line; [done|done|]. intros i l offset Hi Hl Hn Hline. cbn beta iota.
  destruct (line_record_flags offset l) as (-> & _ & _). destruct (changed_records offset 0 EmptyString seconds None l) as (-> & _).
  destruct (ln_archived l); [|by apply (implements_change i l); [done|done|done|apply archived_ok]].
  exists (Ok (view_of es i l)), d. split; [|split; [by eexists|split; [by exists ps|split; [done|lia]]]]. apply (concludes_unwritten fs paths indexes).
  by apply (answers_view fs snapshots snapshot_texts snapshot_ids line_rows line_names line_ids Hsnapshots Hnames d es ps).
Qed.

Lemma implements_delete name seconds : trim name = name -> name <> EmptyString -> shows seconds -> seconds <> 0%N ->
  implements Shown ('(line_index, record) ← require_line fs name; mutate_view_commit fs L line_index (deleted_record record seconds))
    ('(i, l) ← existing name (map fst ps); change es (map fst ps) i (deleted seconds l)).
Proof.
  intros Ht Hne Hshow Hz. apply implements_line; [done|done|]. intros i l offset Hi Hl Hn Hline. cbn beta iota.
  destruct (changed_records offset 0 EmptyString seconds None l) as (_ & -> & _). apply (implements_change i l); [done|done|done|by apply deleted_ok].
Qed.

Lemma implements_set_head name head seconds : trim name = name -> name <> EmptyString -> shows seconds ->
  implements Shown ('(line_index, record) ← require_line fs name;
      head_plus1 ← resolve_snapshot_index_plus1 fs head;
      mutate_view_commit fs L line_index (headed_record record head_plus1 seconds))
    ('(i, l) ← existing name (map fst ps); head ← resolve_head es head; change es (map fst ps) i (headed head seconds l)).
Proof.
  intros Ht Hne Hshow. apply implements_line; [done|done|]. intros i l offset Hi Hl Hn Hline. cbn beta iota. apply implements_head. intros h Hh%resolve_head_ok.
  destruct (changed_records offset 0 EmptyString seconds h l) as (_ & _ & _ & -> & _). apply (implements_change i l); [done|done|done|by apply headed_ok].
Qed.

Lemma implements_swap name expected head seconds : trim name = name -> name <> EmptyString -> shows seconds ->
  implements Shown ('(line_index, record) ← require_line fs name;
      current ← line_record_view fs line_index record;
      if bool_decide (head_snapshot_id current = expected) then
        head_plus1 ← resolve_snapshot_index_plus1 fs head;
        mutate_view_commit fs L line_index (headed_record record head_plus1 seconds)
      else
        _ ← stored (abort fs);
        lift (Err (HeadMismatch expected (head_snapshot_id current))))
    ('(i, l) ← existing name (map fst ps);
     _ ← fail_if (negb (bool_decide (head_name es (ln_head l) = expected))) (HeadMismatch expected (head_name es (ln_head l)));
     head ← resolve_head es head;
     change es (map fst ps) i (headed head seconds l)).
Proof.
  intros Ht Hne Hshow. apply implements_line; [done|done|]. intros i l offset Hi Hl Hn Hline. cbn beta iota.
  eapply implements_answer; [by apply (answers_view fs snapshots snapshot_texts snapshot_ids line_rows line_names line_ids Hsnapshots Hnames d es ps)|].
  cbv beta iota. change (head_snapshot_id (view_of es i l)) with (head_name es (ln_head l)). case_bool_decide as He; cbn [negb fail_if mbind result_bind].
  - apply implements_head. intros h Hh%resolve_head_ok.
    destruct (changed_records offset 0 EmptyString seconds h l) as (_ & _ & _ & -> & _). apply (implements_change i l); [done|done|done|by apply headed_ok].
  - exists (Err (HeadMismatch expected (head_name es (ln_head l)))), d. split; [apply concludes_abort|done].
Qed.

Lemma implements_touch name seconds : trim name = name -> name <> EmptyString -> shows seconds ->
  implements (fun _ => Done) ('(line_index, record) ← require_line fs name;
      _ ← mutate_line fs L line_index (touched_record record seconds);
      _ ← stored commit;
      mret tt)
    ('(i, l) ← existing name (map fst ps); Ok (Done, <[i := touched seconds l]> (map fst ps))).
Proof.
  intros Ht Hne Hshow. apply implements_line; [done|done|]. intros i l offset Hi Hl Hn Hline. cbn beta iota.
  destruct (changed_records offset 0 EmptyString seconds None l) as (_ & _ & _ & _ & ->).
  destruct (works_change d es ps i l (touched seconds l) offset Hs Hok Hd Hi Hl) as (d1 & Hw & Hd1 & Hother & Hlen); [done|by apply touched_ok|].
  exists (Ok tt), d1. split; [|split; [by exists tt|split; [|split; [done|lia]]]].
  - eapply concludes_works; [exact Hw|]. apply (concludes_placed d1 _ tt Hd1). intros Hnil%(f_equal length). rewrite length_insert in Hnil. apply lookup_lt_Some in Hi. cbn in Hnil. lia.
  - exists (<[i := (touched seconds l, offset)]> ps). split; [by rewrite list_fmap_insert|done].
Qed.

(** The index has a candidate for the new name: an old one, or one more. *)
Lemma works_named_line d1 m name i : index_content (line_name_index L) line_ids d1 m -> is_Some (d1 !! line_ids) -> indexes_lines m (map fst ps) -> i < length ps ->
  exists d2 m2, works d1 (
      candidates ← stored (txn_lookup_index fs (line_name_index L) (line_name_key name));
      if bool_decide (N.of_nat i ∈ candidates) then mret tt
      else stored (txn_append_index_candidate fs (line_name_index L) (line_name_key name) (N.of_nat i))) tt d2 /\
    (forall q, q <> line_ids -> d2 !! q = d1 !! q) /\ index_content (line_name_index L) line_ids d2 m2 /\ is_Some (d2 !! line_ids) /\
    indexes_lines m2 (map fst ps) /\ N.of_nat i ∈ default [] (m2 !! line_name_key name).
Proof.
  intros Hm Hthere Hil Hi. destruct line_indexes as [H1 H2].
  assert (works d1 (stored (txn_lookup_index fs (line_name_index L) (line_name_key name))) (default [] (m !! line_name_key name)) d1) as Hlookup.
  { apply works_map_error, works_answers. intros was. apply (answers_lookup fs paths indexes H1 H2 d1 was (line_name_index L) line_ids); [right; left|done|].
    intros k [= <-]. unfold line_name_key. by rewrite length_to_le_bytes. }
  destruct (decide (N.of_nat i ∈ default [] (m !! line_name_key name))) as [Hin|Hout].
  - exists d1, m. split; [|done]. eapply works_bind; [exact Hlookup|]. rewrite bool_decide_eq_true_2 by done. apply works_ret.
  - destruct (works_name d1 m name (N.of_nat i) Hm) as [Hw Hm2]; [lia|]. eexists _, _. split; [eapply works_bind; [exact Hlookup|]; rewrite bool_decide_eq_false_2 by done; by apply works_map_error|].
    split; [intros q Hq; by apply named_other|]. split; [exact Hm2|]. split; [unfold named, with_entry; rewrite lookup_insert_eq; by eexists|].
    split; [apply indexes_push; [done|rewrite Nat2N.id, length_map; done]|]. apply push_known. by right.
Qed.

Lemma implements_rename old new seconds : trim old = old -> old <> EmptyString -> trim new = new -> new <> EmptyString -> shows seconds ->
  (short_name new = Ok tt -> name_ok new) ->
  implements Shown (
      _ ← require_absent fs new;
      '(line_index, record) ← require_line fs old;
      let new_name_bytes := bytes_of_string new in
      _ ← lift (fail_if (65535 <? N.of_nat (length new_name_bytes))%N LineNameTooLong);
      range ← stored (txn_append_payload fs (line_name_payload_file L) new_name_bytes);
      let record := renamed_record record (N.of_nat (length new_name_bytes)) (payload_range_offset range) seconds in
      _ ← mutate_line fs L line_index record;
      candidates ← stored (txn_lookup_index fs (line_name_index L) (line_name_key new));
      _ ← (if bool_decide (line_index ∈ candidates) then mret tt
           else stored (txn_append_index_candidate fs (line_name_index L) (line_name_key new) line_index));
      view ← line_record_view fs line_index record;
      _ ← stored commit;
      mret view)
    (_ ← absent new (map fst ps); '(i, l) ← existing old (map fst ps); _ ← short_name new; change es (map fst ps) i (renamed new seconds l)).
Proof.
  intros Ht Hne Htn Hnen Hshow Hname. apply implements_absent; [done|done|]. intros Habs. apply implements_line; [done|done|]. intros i l offset Hi Hl Hn Hline. cbn beta iota zeta.
  apply implements_check. intros [] Hshort%Hname. pose proof (no_length _ Hshort) as Hlen.
  destruct (works_line_name d ps new Hd Hnen Hlen Hspace) as (Hw1 & Hd1 & Hdata1). set (d1 := <[line_names := _]> d) in *.
  set (offset' := N.of_nat (length (names_data d))). pose proof (hp_length _ _ _ (hl_payload _ _ _ d ps Hd)) as Hhead.
  assert (line_ok es (renamed new seconds l)) as Hline' by (by apply renamed_ok). pose proof (lookup_lt_Some _ _ _ Hi) as Hlt. assert (ps <> []) as Hps by (by intros ->).
  assert (record_ok L (line_record offset' (renamed new seconds l))) as Hrec.
  { apply (line_record_ok es); [exact (hs_count Hs)|done|unfold offset', LineLog.names_data; lia|]. unfold fits. change (256 ^ N.of_nat 8)%N with 18446744073709551616%N. unfold offset', usize_max in *. lia. }
  destruct (works_mutate d1 ps i (l, offset) (renamed new seconds l, offset') Hd1 Hi Hrec) as (d2 & Hw2 & Hother2 & Hheld);
    [rewrite Hdata1; apply (appended_name_stored (names_data d) (renamed new seconds l)); unfold LineLog.names_data; lia|].
  destruct files_apart as (Hrn & Hri & Hni & _). pose proof Hd1 as [_ _ _ _ (m & Hm & Hil) Hthere]. assert (d2 !! line_ids = d1 !! line_ids) as Ei by (by apply Hother2).
  destruct (works_named_line d2 m new i) as (d3 & m3 & Hw3 & Hother3 & Hm3 & Hthere3 & Hil3 & Hin); [unfold index_content, index_data in *; by rewrite Ei|rewrite Ei; by apply Hthere|done|done|].
  assert (holds_placed d3 (<[i := (renamed new seconds l, offset')]> ps)) as Hd3.
  { apply (Hheld d3 m3); [by apply Hother3|rewrite Hother3 by done; by apply Hother2|done|done|].
    change (map fst (<[i := (renamed new seconds l, offset')]> ps)) with (fst <$> (<[i := (renamed new seconds l, offset')]> ps)). rewrite list_fmap_insert.
    apply indexes_insert; [done|by rewrite length_fmap|]. by intros _. }
  assert (forall q, q ∉ paths -> d3 !! q = d !! q) as Hother.
  { intros q. rewrite !not_elem_of_cons. intros (Hq1 & Hq2 & Hq3 & _). rewrite Hother3, Hother2 by done. by apply lookup_insert_ne. }
  assert (map fst (<[i := (renamed new seconds l, offset')]> ps) = <[i := renamed new seconds l]> (map fst ps)) as Hmap by exact (list_fmap_insert fst ps i (renamed new seconds l, offset')).
  assert (map fst ps !! i = Some l) as Hi' by (change (map fst ps) with (fst <$> ps); by rewrite list_lookup_fmap, Hi).
  exists (Ok (view_of es i (renamed new seconds l))), d3. split; [|split; [by eexists|split; [by eexists|split; [done|]]]].
  - eapply concludes_works; [apply works_map_error; exact Hw1|]. cbn [payload_range_offset]. fold offset'.
    destruct (changed_records offset offset' new seconds None l) as (_ & _ & -> & _). eapply concludes_calm; [exact Hw2|].
    intros t Hcalm. destruct (Hw3 t Hcalm) as (t3 & Hrun3 & Hcalm3).
    assert (concludes fs (calm d3) (view ← line_record_view fs (N.of_nat i) (line_record offset' (renamed new seconds l)); _ ← stored commit; mret view)
      (Ok (view_of es i (renamed new seconds l))) d3) as Hend.
    { eapply concludes_calm; [|eapply concludes_placed; [exact Hd3|]].
      - eapply works_view; [done|exact Hd3|rewrite Hmap; apply (lines_ok_change es (map fst ps) i l); [done|done|done|by right]|by apply list_lookup_insert_eq].
      - intros Hnil%(f_equal length). rewrite length_insert in Hnil. cbn in Hnil. lia. }
    destruct (Hend t3 Hcalm3) as (t4 & du4 & Hrun4 & Hf). exists t4, du4. split; [|exact Hf]. rewrite <- Hrun4.
    unfold mbind, stateful_bind in Hrun3 |- *. destruct (stored (txn_lookup_index fs (line_name_index L) (line_name_key new)) t) as [[candidates|e] t1]; [|done]. by rewrite Hrun3.
  - unfold LineLog.names_data at 1. assert (payload_contents (line_name_payload_file L) line_names d3 = names_data d1) as ->.
    { apply contents_other. rewrite Hother3 by done. by apply Hother2. }
    rewrite Hdata1, length_app. lia.
Qed.

(** *** Commands *)

(** The method ran as [spec] says. *)
Definition performs (run : result line_error line_answer * io_state) (spec : result line_error (line_answer * list line)) : Prop :=
  exists du' d', run = (fst <$> spec, mkIo du' d' []) /\ match spec with Ok (_, ls) => after d d' ls | Err _ => d' = d end.

Lemma implements_performs {A : Type} (f : A -> line_answer) lock body spec : implements f body spec ->
  performs (answer_as f (in_write_txn fs lock body (mkIo du d []))) spec.
Proof.
  intros (r & d' & Hrun & Hspec). destruct (in_write_concludes lock body r d d' Hrun) as [du' Hin]. exists du', d'. unfold answer_as. rewrite Hin. cbn [fst snd].
  destruct spec as [[a ls]|e]; [|by destruct Hspec as [-> ->]]. by destruct Hspec as [(x & -> & <-) Hafter].
Qed.

Lemma checked_performs {A B : Type} (f : B -> line_answer) args (method : A -> io_state -> result line_error B * io_state) spec :
  (forall a, args = Ok a -> performs (answer_as f (method a (mkIo du d []))) (spec a)) ->
  performs (answer_as f (checked L args method (mkIo du d []))) (args ≫= spec).
Proof. intros H. unfold checked. cbn [mbind result_bind map_err]. destruct args as [a|e]; [by apply H|]. by exists du, d. Qed.

Lemma named_args name time n seconds : time_ok (Some time) -> name_and_time name time = Ok (n, seconds) ->
  trim n = n /\ n <> EmptyString /\ shows seconds /\ seconds <> 0%N.
Proof. intros Ht [(_ & H1 & H2)%normalized Hsec]%named_time. destruct (required_time _ _ Ht Hsec) as [H3 H4]. done. Qed.

Lemma touch_performs lock name time : time_ok time ->
  performs (answer_as (fun _ => Done) (set_line_updated_at fs L lock name time (mkIo du d []))) (touch_spec name time (map fst ps)).
Proof.
  intros Ht. assert (touch_spec name time (map fst ps) =
    ('(n, seconds) ← (n ← normalize_line_name name; seconds ← parse_epoch_seconds time; Ok (n, seconds));
     '(i, l) ← existing n (map fst ps); Ok (Done, <[i := touched seconds l]> (map fst ps)))) as ->.
  { unfold touch_spec. destruct (normalize_line_name name) as [n|e]; [|done]. cbn [mbind result_bind]. by destruct (parse_epoch_seconds time). }
  apply checked_performs. intros [n seconds] H. apply bind_Ok in H as (n' & (_ & Hn & Hne)%normalized & H). apply bind_Ok in H as (s & Hsec & [= -> ->]).
  apply implements_performs, implements_touch; [done|done|by apply Ht].
Qed.

Lemma rename_performs lock old new time : utf8_string new -> time_ok (Some time) ->
  performs (answer_as Shown (rename_line fs L lock old new time (mkIo du d []))) (line_spec es (RenameLine old new time) (map fst ps)).
Proof.
  intros Hutf Ht. assert (line_spec es (RenameLine old new time) (map fst ps) =
    ('(old, new, seconds) ← (old ← normalize_line_name old; new ← normalize_line_name new; _ ← fail_if (bool_decide (old = new)) SameLineNames;
       seconds ← parse_required_epoch_seconds time; Ok (old, new, seconds));
     _ ← absent new (map fst ps); '(i, l) ← existing old (map fst ps); _ ← short_name new; change es (map fst ps) i (renamed new seconds l))) as ->.
  { cbn [line_spec]. destruct (normalize_line_name old) as [o|e]; [|done]. destruct (normalize_line_name new) as [n|e]; [|done]. cbn [mbind result_bind].
    destruct (fail_if _ SameLineNames); [|done]. cbn [mbind result_bind]. by destruct (parse_required_epoch_seconds time). }
  apply checked_performs. intros [[o n] seconds] H. apply bind_Ok in H as (o' & (_ & Ho & Hoe)%normalized & H). apply bind_Ok in H as (n' & Hn & H).
  apply bind_Ok in H as (u & _ & H). apply bind_Ok in H as (s & Hsec & [= -> -> ->]). pose proof (normalized _ _ Hn) as (_ & Htn & Hne).
  destruct (required_time _ _ Ht Hsec) as [Hshow _]. apply implements_performs, implements_rename; [done..|]. by apply (normalized_ok new).
Qed.

Lemma command_performs lock command : command_ok command -> performs (run_command fs lock command (mkIo du d [])) (line_spec es command (map fst ps)).
Proof.
  intros Hc. destruct command as [name head time|name status created updated time head|name time|old new time|name time|name head time|name expected head time|name time|name time];
    cbn [command_ok] in Hc; cbn [run_command].
  - destruct Hc as [Hutf Ht]. apply checked_performs. intros [n seconds] H. pose proof (named_args _ _ _ _ Ht H) as (Hn & Hne & Hshow & Hz).
    apply implements_performs, implements_create; [|done|done|done]. apply named_time in H as [H _].
    destruct (short_name n) as [[]|e] eqn:Hshort; [left; by eapply normalized_ok|by right].
  - destruct Hc as (Hutf & Ht1 & Ht2 & Ht3). apply checked_performs. intros n Hn. pose proof (normalized _ _ Hn) as (_ & Htn & Hne).
    apply implements_performs, implements_bootstrap; [|done..]. by apply (normalized_ok name).
  - apply checked_performs. intros [n seconds] H. pose proof (named_args _ _ _ _ Hc H) as (Hn & Hne & Hshow & Hz). by apply implements_performs, implements_archive.
  - destruct Hc. by apply rename_performs.
  - apply checked_performs. intros [n seconds] H. pose proof (named_args _ _ _ _ Hc H) as (Hn & Hne & Hshow & Hz). by apply implements_performs, implements_delete.
  - apply checked_performs. intros [n seconds] H. pose proof (named_args _ _ _ _ Hc H) as (Hn & Hne & Hshow & Hz). by apply implements_performs, implements_set_head.
  - apply checked_performs. intros [n seconds] H. pose proof (named_args _ _ _ _ Hc H) as (Hn & Hne & Hshow & Hz). by apply implements_performs, implements_swap.
  - by apply touch_performs.
  - cbn [line_spec]. unfold touch_line_updated_at. destruct (parse_required_epoch_seconds time); cbn [mbind result_bind]; [by apply touch_performs|]. by exists du, d.
Qed.
End Store.
End Writing.

(** ** Histories *)

(** A command makes at most one line. *)
Lemma line_spec_length {C : Chrono} es command ls a ls' : line_spec es command ls = Ok (a, ls') -> length ls <= length ls' <= S (length ls).
Proof.
  intros H. destruct command; cbn [line_spec] in H; unfold touch_spec, change in H;
    repeat (inv_ok; match goal with
      | H : match ?p with (_, _) => _ end = Ok _ |- _ => destruct p
      | H : (if ?b then _ else _) = Ok _ |- _ => destruct b
      | H : Ok (_, _) = Ok (_, _) |- _ => injection H as <- <-
      end); inv_ok; rewrite ?length_app, ?length_insert; cbn [length]; lia.
Qed.

Section Histories.
Context {C : Chrono} (fs : LocalBinaryDbFs) (snapshots snapshot_texts snapshot_ids line_rows line_names line_ids : PathBuf).
Context (Hsnapshots : file_path_for fs SNAPSHOT_BIN = Ok snapshots) (Hsnapshot_texts : file_path_for fs SNAPSHOT_PAYLOAD_BIN = Ok snapshot_texts).
Context (Hsnapshot_ids : file_path_for fs SNAPSHOT_ID_IDX = Ok snapshot_ids).
Context (Hrows : file_path_for fs LINE_BIN = Ok line_rows) (Hnames : file_path_for fs LINE_NAME_PAYLOAD_BIN = Ok line_names).
Context (Hids : file_path_for fs LINE_NAME_IDX = Ok line_ids).
Implicit Types (d du : gmap PathBuf bytes) (es : list entry) (ls : list line).

Local Abbreviation paths := [line_rows; line_names; line_ids].
Local Abbreviation holds_store := (holds_store snapshots snapshot_texts snapshot_ids line_rows line_names line_ids).

(** Room for [n] more lines and names. *)
Definition room (n : nat) d ls : Prop :=
  (N.of_nat (length ls) + N.of_nat n <= u32_max)%N /\ (N.of_nat (length (names_data line_names d)) + 65535 * N.of_nat n <= usize_max)%N.

Lemma command_refines lock command du d es ls n : holds_store d es ls -> command_ok command -> room (S n) d ls ->
  exists du' d', run_command fs lock command (mkIo du d []) = (fst (line_step es command ls), mkIo du' d' []) /\
    holds_store d' es (snd (line_step es command ls)) /\ (forall q, q ∉ paths -> d' !! q = d !! q) /\ room n d' (snd (line_step es command ls)).
Proof.
  intros [Hs Hlog (ps & <- & Hd) Hok] Hc [Hroom1 Hroom2]. rewrite length_map in Hroom1.
  destruct (command_performs fs snapshots snapshot_texts snapshot_ids line_rows line_names line_ids Hsnapshots Hsnapshot_texts Hsnapshot_ids Hrows Hnames Hids (du := du)
    d es ps Hs Hlog Hd Hok ltac:(lia) ltac:(lia) lock command Hc) as (du' & d' & Hrun & Hafter). exists du', d'. rewrite Hrun. unfold line_step.
  destruct (line_spec es command (map fst ps)) as [[a ls]|e] eqn:Hspec; cbn [fst snd fmap result_fmap].
  - destruct Hafter as (Hlines & Hother & Hlen). pose proof (line_spec_length es command _ _ _ Hspec) as Hcount. rewrite length_map in Hcount.
    split; [done|]. split; [|split; [done|split; lia]]. split; [|done|done|by eapply line_spec_ok].
    by apply (snapshots_other fs snapshots snapshot_texts snapshot_ids line_rows line_names line_ids Hsnapshots Hsnapshot_texts Hsnapshot_ids Hrows Hnames Hids d).
  - subst d'. split; [done|]. split; [by split; [|done|exists ps|]|]. split; [done|]. split; rewrite ?length_map; lia.
Qed.

(** C9. The line store is a list of lines. Any sequence of the methods that change
    lines - create, bootstrap, archive, rename, delete, set head, compare and swap
    head, set and touch the time - answers, command by command, what the
    specification on the list of lines says, errors included; afterwards the files
    hold the lines of the specification, and no file of another store changed. This
    is so on files that hold lines and snapshots, when no call fails, when there is
    room for the rows and the names that the commands may add, when the names
    of new lines are UTF-8, and when every time of a command that can be parsed
    can also be shown. Without the last condition a method can commit a time with
    which the lines cannot be listed any more ([unshowable_time]). *)
Theorem line_store_refines lock commands du d es ls : holds_store d es ls -> Forall command_ok commands -> room (length commands) d ls ->
  exists du' d', run_commands fs lock commands (mkIo du d []) = (fst (line_steps es commands ls), mkIo du' d' []) /\
    holds_store d' es (snd (line_steps es commands ls)) /\ (forall q, q ∉ paths -> d' !! q = d !! q).
Proof.
  intros Hd Hok. revert du d ls Hd. induction Hok as [|command commands Hc _ IH]; intros du d ls Hd Hroom; [by exists du, d|].
  destruct (command_refines lock command du d es ls (length commands) Hd Hc Hroom) as (du1 & d1 & Hrun & Hd1 & Hother1 & Hroom1).
  cbn [run_commands line_steps]. rewrite Hrun. destruct (line_step es command ls) as [r ls1]. cbn [fst snd] in *.
  destruct (IH du1 d1 ls1 Hd1 Hroom1) as (du2 & d2 & Hrun2 & Hd2 & Hother2). rewrite Hrun2. destruct (line_steps es commands ls1) as [rs ls2]. cbn [fst snd] in *.
  exists du2, d2. split; [done|]. split; [done|]. intros q Hq. by rewrite Hother2, Hother1.
Qed.

Lemma line_step_Ok es command ls a ls' : line_step es command ls = (Ok a, ls') -> line_spec es command ls = Ok (a, ls').
Proof. unfold line_step. by destruct (line_spec es command ls) as [[? ?]|]; intros [= -> ->]. Qed.

(** What a swap that succeeded did. *)
Lemma swap_Ok es name expected head time ls a ls' : lines_ok es ls -> command_ok (CompareAndSwapHead name expected head time) ->
  line_spec es (CompareAndSwapHead name expected head time) ls = Ok (a, ls') ->
  exists i l, normalize_line_name name = Ok (trim name) /\ find_name (trim name) ls' = Some (i, l) /\ a = Shown (view_of es i l).
Proof.
  intros Hok Hc Hspec. assert (lines_ok es ls') as Hok' by (by eapply line_spec_ok). cbn [line_spec] in Hspec.
  apply bind_Ok in Hspec as ([n seconds] & [Hn _]%named_time & H). apply bind_Ok in H as ([i l] & Hl & H). apply bind_Ok in H as (u & _ & H). apply bind_Ok in H as (h & _ & [= <- <-]).
  apply (existing_Ok es) in Hl as (_ & Hi & Hl & Hname & _); [|done]. pose proof (normalized _ _ Hn) as (-> & _). exists i, (headed h seconds l). split; [done|]. split; [|done].
  apply (find_name_Some es); [done|]. split; [by apply list_lookup_insert_eq, lookup_lt_Some with l|done].
Qed.

Lemma swap_refused es name expected head time ls i l : normalize_line_name name = Ok (trim name) -> is_ok (parse_required_epoch_seconds time) = true ->
  find_name (trim name) ls = Some (i, l) -> head_name es (ln_head l) <> expected ->
  line_step es (CompareAndSwapHead name expected head time) ls = (Err (HeadMismatch expected (head_name es (ln_head l))), ls).
Proof.
  intros Hn Ht Hfind Hhead. unfold line_step. cbn [line_spec]. unfold name_and_time. rewrite Hn. cbn [mbind result_bind].
  destruct (parse_required_epoch_seconds time) as [seconds|e]; [|done]. cbn [mbind result_bind]. unfold existing. rewrite Hfind. cbn [ok_or mbind result_bind].
  by rewrite bool_decide_eq_false_2.
Qed.

Lemma line_found du d es ls name i l : holds_store d es ls -> find_name (trim name) ls = Some (i, l) -> line_by_name fs name (mkIo du d []) = Ok (Some (view_of es i l)).
Proof.
  intros Hd Hfind. assert (Ok (Some (view_of es i l)) = Ok (il ← find_name (trim name) ls; Some (view_of es (fst il) (snd il))) :> result line_error _) as -> by (by rewrite Hfind).
  unfold line_by_name. eapply with_read_answer. by eapply reads_line_by_name.
Qed.

(** C11. A head is swapped once. When two callers move the head of a line from the
    same expected snapshot and the first succeeds with another head, the second is
    told the head it lost to, and changes nothing: the line keeps the head, and
    the time, of the first. This is so when the times of both can be shown, that of
    the second can be parsed, there is room for two more rows, and no call fails. *)
Theorem compare_and_swap_exclusive lock name expected head head' time time' du d es ls view r s :
  holds_store d es ls -> command_ok (CompareAndSwapHead name expected head time) -> command_ok (CompareAndSwapHead name expected head' time') ->
  is_ok (parse_required_epoch_seconds time') = true -> room 2 d ls ->
  run_commands fs lock [CompareAndSwapHead name expected head time; CompareAndSwapHead name expected head' time'] (mkIo du d []) = ([Ok (Shown view); r], s) ->
  head_snapshot_id view <> expected ->
  r = Err (HeadMismatch expected (head_snapshot_id view)) /\ line_by_name fs name s = Ok (Some view).
Proof.
  intros Hd Hc1 Hc2 Htime Hroom Hrun Hhead. pose proof (hs_lines_ok _ _ _ _ _ _ d es ls Hd) as Hok.
  destruct (command_refines lock _ du d es ls 1 Hd Hc1 Hroom) as (du1 & d1 & Hrun1 & Hd1 & _ & Hroom1).
  destruct (command_refines lock _ du1 d1 es _ 0 Hd1 Hc2 Hroom1) as (du2 & d2 & Hrun2 & Hd2 & _).
  cbn [run_commands] in Hrun. rewrite Hrun1, Hrun2 in Hrun. destruct (line_step es _ ls) as [r1 ls1] eqn:Hstep. cbn [fst snd] in *.
  injection Hrun as -> <- <-. apply line_step_Ok in Hstep. destruct (swap_Ok es name expected head time ls _ ls1 Hok Hc1 Hstep) as (i & l & Hn & Hfind & [= ->]).
  cbn [head_snapshot_id view_of] in Hhead. rewrite (swap_refused es name expected head' time' ls1 i l Hn Htime Hfind Hhead) in *. split; [done|by eapply line_found].
Qed.
End Histories.

(** ** An example *)

(** A clock that shows seconds as their digits, in the range of [chrono]. *)
Fixpoint digits (fuel : nat) (n : N) : string :=
  match fuel with
  | O => EmptyString
  | S fuel => (if (n <? 10)%N then EmptyString else digits fuel (n / 10)) +:+ string_of_bytes [default Byte.x30 (Byte.of_N (48 + n mod 10))]
  end.

Definition example_clock : Chrono := {|
  parse_from_rfc3339 _ := None;
  rfc3339_seconds n := if (n <=? 8210266876799)%N then Some (digits 20 n) else None
|}.

Lemma no_lines snapshots snapshot_texts snapshot_ids line_rows line_names line_ids {C : Chrono} d es :
  holds_snapshots snapshots snapshot_texts snapshot_ids d es -> log_ok es -> Forall (fun p => d !! p = None) [line_rows; line_names; line_ids] ->
  holds_store snapshots snapshot_texts snapshot_ids line_rows line_names line_ids d es [].
Proof.
  intros Hs Hlog Hnone. rewrite !Forall_cons in Hnone. destruct Hnone as (H1 & H2 & H3 & _). split; [done|done| |apply lines_ok_nil].
  exists []. split; [done|]. split; [|done|by apply payload_missing|constructor| |done].
  - exists []. split; [split; [constructor|by right]|constructor].
  - exists ∅. split; [exists None; split; [unfold index_data; by rewrite H3|done]|]. split; [intros i l Hi; by destruct i|]. intros key i. rewrite lookup_empty. by intros ?%elem_of_nil.
Qed.

(** The history of [example_repository] in a directory without lines. *)
Lemma example_store {C : Chrono} : exists d, holds_store (example_file SNAPSHOT_BIN) (example_file SNAPSHOT_PAYLOAD_BIN) (example_file SNAPSHOT_ID_IDX)
    (example_file LINE_BIN) (example_file LINE_NAME_PAYLOAD_BIN) (example_file LINE_NAME_IDX) d (stored_entries 4 example_inputs) [] /\
  length (names_data (example_file LINE_NAME_PAYLOAD_BIN) d) = 4.
Proof.
  destruct (append_history_works example_db (example_file SNAPSHOT_BIN) (example_file SNAPSHOT_PAYLOAD_BIN) (example_file SNAPSHOT_ID_IDX) eq_refl eq_refl eq_refl (du := ∅) ∅ [] example_inputs)
    as (d & _ & Hd & Hok & Hother); [apply holds_nothing; reflexivity|apply log_nothing|exact example_inputs_ok|by vm_compute|by vm_compute|].
  assert (forall p, p ∈ [example_file LINE_BIN; example_file LINE_NAME_PAYLOAD_BIN; example_file LINE_NAME_IDX] -> d !! p = None) as Hnone.
  { intros p Hp. rewrite Hother; [apply lookup_empty|..]; rewrite !elem_of_cons, elem_of_nil in Hp; by destruct Hp as [->|[->|[->|[]]]]. }
  exists d. split; [apply no_lines; [exact Hd|exact Hok|]; repeat constructor; apply Hnone; set_solver|].
  unfold names_data, payload_contents. rewrite Hnone by set_solver. done.
Qed.

Definition example_lock : lock_set := mkLocks [false; false] false.

Definition example_commands : list line_command :=
  [CreateLine " main " (Some "SNP-00000000000A") "100"; CreateLine "main" None "101"; CompareAndSwapHead "main" (Some "SNP-00000000000A") (Some "SNP-00000000000B") "102";
   RenameLine "main" "trunk" "103"; CreateLine "main" None "104"; DeleteLine "main" "105"; ArchiveLine "trunk" "0"]%string.

Local Abbreviation in_example f := (f example_clock example_db (example_file SNAPSHOT_BIN) (example_file SNAPSHOT_PAYLOAD_BIN) (example_file SNAPSHOT_ID_IDX)
  (example_file LINE_BIN) (example_file LINE_NAME_PAYLOAD_BIN) (example_file LINE_NAME_IDX) eq_refl eq_refl eq_refl eq_refl eq_refl eq_refl).

Lemma example_commands_ok : Forall (command_ok (C := example_clock)) example_commands.
Proof.
  assert (forall v, (match parse_epoch_seconds (C := example_clock) v with Ok s => is_ok (format_epoch_seconds (C := example_clock) s) | Err _ => true end) = true -> time_ok (C := example_clock) v) as Ht.
  { intros v H s Hs. rewrite Hs in H. exact H. }
  repeat constructor; by apply Ht.
Qed.

Lemma line_store_refines_witness : exists d du' d',
  fst <$> [run_commands (C := example_clock) example_db example_lock example_commands (mkIo ∅ d [])] = [fst (line_steps (C := example_clock) (stored_entries 4 example_inputs) example_commands [])] /\
  disk (snd (run_commands (C := example_clock) example_db example_lock example_commands (mkIo ∅ d []))) = d' /\
  durable (snd (run_commands (C := example_clock) example_db example_lock example_commands (mkIo ∅ d []))) = du' /\
  holds_store (C := example_clock) (example_file SNAPSHOT_BIN) (example_file SNAPSHOT_PAYLOAD_BIN) (example_file SNAPSHOT_ID_IDX)
    (example_file LINE_BIN) (example_file LINE_NAME_PAYLOAD_BIN) (example_file LINE_NAME_IDX) d' (stored_entries 4 example_inputs)
    [mkLine "trunk" false false (Some 1%N) 100 103 0; mkLine "main" true true None 104 105 105].
Proof.
  destruct (example_store (C := example_clock)) as (d & Hd & Hlen). exists d.
  destruct ((in_example (@line_store_refines)) example_lock example_commands ∅ d _ [] Hd)
    as (du' & d' & Hrun & Hd' & _).
  - exact example_commands_ok.
  - unfold room. rewrite Hlen. by vm_compute.
  - exists du', d'. rewrite Hrun. split_and!; [done|done|done|exact Hd'].
Defined.

Lemma compare_and_swap_exclusive_witness : exists d d1 du1 view s,
  let swap head := CompareAndSwapHead "main" None (Some head) "200" in
  run_commands (C := example_clock) example_db example_lock [swap "SNP-00000000000A"; swap "SNP-00000000000B"]%string (mkIo du1 d1 []) =
    ([Ok (Shown view); Err (HeadMismatch None (Some "SNP-00000000000A"%string))], s) /\
  line_by_name (C := example_clock) example_db "main" s = Ok (Some view) /\ holds_store (C := example_clock) (example_file SNAPSHOT_BIN) (example_file SNAPSHOT_PAYLOAD_BIN) (example_file SNAPSHOT_ID_IDX)
    (example_file LINE_BIN) (example_file LINE_NAME_PAYLOAD_BIN) (example_file LINE_NAME_IDX) d (stored_entries 4 example_inputs) [].
Proof.
  destruct (example_store (C := example_clock)) as (d & Hd & Hlen).
  assert (forall time, parse_epoch_seconds (C := example_clock) (Some time) = Ok 200%N -> time_ok (C := example_clock) (Some time)) as Ht
    by (intros time Hs seconds; rewrite Hs; by intros [= <-]).
  destruct ((in_example (@command_refines)) example_lock (CreateLine "main" None "200") ∅ d _ [] 2 Hd)
    as (du1 & d1 & _ & Hd1 & _ & Hroom); [split; [done|by apply Ht]|unfold room; rewrite Hlen; by vm_compute|].
  destruct ((in_example (@command_refines)) example_lock
    (CompareAndSwapHead "main" None (Some "SNP-00000000000A"%string) "200") du1 d1 _ _ 1 Hd1) as (du2 & d2 & Hrun2 & Hd2 & _ & Hroom2); [by apply Ht|exact Hroom|].
  destruct ((in_example (@command_refines)) example_lock
    (CompareAndSwapHead "main" None (Some "SNP-00000000000B"%string) "200") du2 d2 _ _ 0 Hd2) as (du3 & d3 & Hrun3 & _ & _ & _); [by apply Ht|exact Hroom2|].
  assert (exists view r, run_commands (C := example_clock) example_db example_lock [CompareAndSwapHead "main" None (Some "SNP-00000000000A"%string) "200";
    CompareAndSwapHead "main" None (Some "SNP-00000000000B"%string) "200"] (mkIo du1 d1 []) = ([Ok (Shown view); r], mkIo du3 d3 []) /\
    head_snapshot_id view = Some "SNP-00000000000A"%string) as (view & r & Hrun & Hview).
  { cbn [run_commands]. rewrite Hrun2, Hrun3. exists (mkLineView "LNE-00000001" "main" "active" None (Some "200") (Some "200") (Some "SNP-00000000000A"))%string. eexists.
    split; [|done]. by do 2 f_equal. }
  destruct ((in_example (@compare_and_swap_exclusive)) example_lock
    "main" None (Some "SNP-00000000000A"%string) (Some "SNP-00000000000B"%string) "200" "200" du1 d1 _ _ view r (mkIo du3 d3 []) Hd1) as [Hr Hline];
    [by apply Ht|by apply Ht|done|exact Hroom|exact Hrun|by rewrite Hview|].
  exists d, d1, du1, view, (mkIo du3 d3 []). cbv beta zeta. rewrite Hrun, Hr, Hview. split; [exact eq_refl|split; [exact Hline|exact Hd]].
Defined.

Lemma line_reads_agree_witness : exists d, list_lines (C := example_clock) example_db (mkIo ∅ d []) =
    Ok [mkLineView "LNE-00000001" "main" "active" None (Some "200") (Some "200") (Some "SNP-00000000000C")]%string /\
  line_by_name (C := example_clock) example_db " main " (mkIo ∅ d []) =
    Ok (Some (mkLineView "LNE-00000001" "main" "active" None (Some "200") (Some "200") (Some "SNP-00000000000C"))%string) /\
  line_by_name (C := example_clock) example_db "topic" (mkIo ∅ d []) = Ok None.
Proof.
  destruct (example_store (C := example_clock)) as (d & Hd & Hlen).
  destruct ((in_example (@command_refines)) example_lock
    (CreateLine "main" (Some "SNP-00000000000C"%string) "200") ∅ d _ [] 0 Hd) as (du1 & d1 & _ & Hd1 & _ & _).
  - split; [done|]. intros seconds. change (parse_epoch_seconds (C := example_clock) (Some "200"%string)) with (Ok (E := line_error) 200%N). by intros [= <-].
  - unfold room. rewrite Hlen. by vm_compute.
  - destruct (line_reads_agree (C := example_clock) example_db _ _ _ _ _ _ eq_refl eq_refl eq_refl eq_refl eq_refl (du := ∅) d1 _ _ Hd1) as (H1 & _ & H2 & _).
    exists d1. by rewrite H1, !H2.
Defined.

(** ** A time that cannot be shown *)

(** A number of seconds is taken as a time without a look at the range that can
    be shown. Such a time is written and committed, and from then on the lines of
    the repository cannot be listed. *)
Example unshowable_time {C : Chrono} :
  let '(answers, s) := run_commands example_db example_lock
    [BootstrapLine "main" "active" None None None None; SetUpdatedAt "main" (Some "18446744073709551615")]%string (mkIo ∅ ∅ []) in
  answers = [Ok (AtIndex 0); Ok Done] /\ list_lines example_db s = Err TimestampOutOfRange /\ line_by_name example_db "main" s = Err TimestampOutOfRange.
Proof. vm_compute. by split_and!. Qed.
