(* ===== verification/TreeStore.v ===== *)
(** * The tree store of the content database

    [ait-core/src/content_binary_db/read/surface/tree_surface.rs] and the tree
    packs of [pack_surface.rs]: the views of trees and tree packs, the search for the
    pack of a tree, the entries of a tree read from its pack, what a reader
    remembers of all this, and the manifest of a tree. *)

From Stdlib Require Import NArith Lia.
From Stdlib Require Strings.Byte.
From stdpp Require Import base numbers strings gmap list sorting.
From S2P Require Import Prelude Codec FileStore BinaryDb BinaryIndex ReadTxn WriteTxn ContentCodec ContentIds ContentStore.
From S2P Require Import Json ChunkLayout PackIndex PackContainer TreePack.

Definition TREE_PACK_BIN : string := "tree_pack.bin".
Definition TREE_BIN : string := "tree.bin".
Definition TREE_ID_IDX : string := "tree_id.idx".
Definition TREE_PACK_ID_IDX : string := "tree_pack_id.idx".

(** ** Views *)

Record BinaryTreePackView : Type := mkTreePackView {
  tpv_tree_pack_index : N;
  tpv_record : BinaryTreePackRecord;
  tpv_pack_id : string;
  tpv_pack_path : string;
  tpv_pack_format : string
}.

Record BinaryTreeView : Type := mkTreeView {
  tv_tree_index : N;
  tv_record : BinaryTreeRecord;
  tv_tree_id : string;
  tv_tree_pack_id : option string
}.

Record BinaryTreeEntryView : Type := mkEntryView {
  tev_entry_ordinal : N;
  tev_entry_name : string;
  tev_entry_type : string;
  tev_target_id : string;
  tev_size_bytes : option N;
  tev_mode : option string
}.

(** ** Paths of packs *)

Definition tree_pack_format_name (kind : BinaryTreePackFormatKind) : result BinaryDbErrorKind string :=
  match kind with
  | ContentCodec.ZstdChunkedTreeV1 => Ok TREE_PACK_FORMAT_ZSTD_CHUNKED_V1
  | ReservedTreeFormat _ => Err Other
  end.

Definition ZSTD_CHUNKED_PACK_SUFFIX : string := ".zstpack".
Definition default_tree_pack_relative_path (pack_id : string) : string :=
  (".ait/objects/tree-packs/" ++ pack_id ++ ZSTD_CHUNKED_PACK_SUFFIX)%string.
Definition tree_pack_relative_path (pack_id pack_format : string) : result BinaryDbErrorKind string :=
  if bool_decide (pack_format = TREE_PACK_FORMAT_ZSTD_CHUNKED_V1) then Ok (default_tree_pack_relative_path pack_id) else Err Other.

Definition escapes (c : Component) : bool := match c with ParentDir | RootDir => true | _ => false end.
Definition absolute_repo_path (repo_root : PathBuf) (relative_path : string) : result BinaryDbErrorKind PathBuf :=
  let path := components relative_path in
  _ ← fail_if (bool_decide (head path = Some RootDir)) Other;
  _ ← fail_if (existsb escapes path) Other;
  Ok (join repo_root path).

(** [path_to_str]: strings are UTF-8 here. *)
Definition component_text (c : Component) : string :=
  match c with RootDir => EmptyString | CurDir => "." | ParentDir => ".." | Normal name => name end.
Definition path_to_str (path : PathBuf) : string :=
  match path with [RootDir] => "/" | _ => String.concat "/" (map component_text path) end.

(** ** What a reader remembers *)

(** How much memory the allocator gives a value, which only the budgets of
    the cache see: the capacities of owned strings, vectors and chunks, and the
    sizes of the types. *)
Class Allocation : Type := {
  str_capacity : string -> N;
  bytes_capacity : bytes -> N;
  chunks_capacity : list ZstdChunkedChunkIndex -> N;
  members_capacity : list ZstdChunkedMemberIndex -> N;
  size_of_archive : N;
  size_of_chunk_index : N;
  size_of_member_index : N;
  size_of_entry_view : N
}.

(** A [TreePackEntryArchive] reads its file again, by its path, for every chunk
    that it has not cached. *)
Record open_archive : Type := mkOpenArchive { oa_path : PathBuf; oa_archive : TreePackEntryArchive }.

Record BinaryDbTreeReadCache : Type := mkTreeCache {
  archives : gmap string open_archive;
  tree_entries : gmap N (list BinaryTreeEntryView);
  tree_pack_views : list BinaryTreePackView;
  tree_pack_for_tree_index : list (option nat);
  tree_pack_index_loaded : bool;
  admission_budget : option N;
  entry_bytes : N;
  entry_sizes : gmap N N;
  entry_used : gmap N N;
  archive_used : gmap string N;
  clock : N;
  admission_stamps : gmap PathBuf (N * option N)
}.

Definition with_budget (budget : option N) : BinaryDbTreeReadCache := mkTreeCache ∅ ∅ [] [] false budget 0 ∅ ∅ ∅ 0 ∅.
Definition default_tree_cache : BinaryDbTreeReadCache := with_budget None.
Definition for_git_admission : BinaryDbTreeReadCache := with_budget (Some (16 * 1024 * 1024)%N).

(** The parts of the cache that change together. *)
Definition set_entries (entries : gmap N (list BinaryTreeEntryView)) (bytes : N) (sizes used : gmap N N) (c : BinaryDbTreeReadCache) : BinaryDbTreeReadCache :=
  mkTreeCache (archives c) entries (tree_pack_views c) (tree_pack_for_tree_index c) (tree_pack_index_loaded c) (admission_budget c) bytes sizes used
    (archive_used c) (clock c) (admission_stamps c).
Definition set_archives (archives : gmap string open_archive) (used : gmap string N) (c : BinaryDbTreeReadCache) : BinaryDbTreeReadCache :=
  mkTreeCache archives (tree_entries c) (tree_pack_views c) (tree_pack_for_tree_index c) (tree_pack_index_loaded c) (admission_budget c) (entry_bytes c)
    (entry_sizes c) (entry_used c) used (clock c) (admission_stamps c).
Definition set_locators (views : list BinaryTreePackView) (locators : list (option nat)) (c : BinaryDbTreeReadCache) : BinaryDbTreeReadCache :=
  mkTreeCache (archives c) (tree_entries c) views locators true (admission_budget c) (entry_bytes c) (entry_sizes c) (entry_used c) (archive_used c)
    (clock c) (admission_stamps c).
Definition set_clock (clock : N) (c : BinaryDbTreeReadCache) : BinaryDbTreeReadCache :=
  mkTreeCache (archives c) (tree_entries c) (tree_pack_views c) (tree_pack_for_tree_index c) (tree_pack_index_loaded c) (admission_budget c) (entry_bytes c)
    (entry_sizes c) (entry_used c) (archive_used c) clock (admission_stamps c).
Definition set_stamp (path : PathBuf) (stamp : N * option N) (c : BinaryDbTreeReadCache) : BinaryDbTreeReadCache :=
  mkTreeCache (archives c) (tree_entries c) (tree_pack_views c) (tree_pack_for_tree_index c) (tree_pack_index_loaded c) (admission_budget c) (entry_bytes c)
    (entry_sizes c) (entry_used c) (archive_used c) (clock c) (<[path := stamp]> (admission_stamps c)).

Definition clear_tree_entries (c : BinaryDbTreeReadCache) : BinaryDbTreeReadCache := set_entries ∅ 0 ∅ ∅ c.
Definition clear_archives (c : BinaryDbTreeReadCache) : BinaryDbTreeReadCache := set_archives ∅ ∅ c.

(** [tick]; the clock is a [u64]. *)
Definition tick (c : BinaryDbTreeReadCache) : BinaryDbTreeReadCache := set_clock (N.min (clock c + 1) (u64_modulus - 1)) c.

(** [iter().min_by_key(|(_, used)| **used)]: the first least use, in key order. *)
Fixpoint least {K : Type} (best : option (K * N)) (items : list (K * N)) : option K :=
  match items with
  | [] => fst <$> best
  | (key, used) :: items =>
      match best with
      | Some (_, least_used) => least (if (used <? least_used)%N then Some (key, used) else best) items
      | None => least (Some (key, used)) items
      end
  end.
Definition index_items (m : gmap N N) : list (N * N) := omap (fun k => pair k <$> m !! k) (merge_sort N.le (elements (dom m))).

(** The loop of [reserve_entry]; every round removes a key, so that the number
    of keys is fuel enough. *)
Fixpoint evict_entries (fuel : nat) (bytes budget : N) (c : BinaryDbTreeReadCache) : BinaryDbTreeReadCache :=
  if (budget <? saturating_add (entry_bytes c) bytes)%N then
    match fuel, least None (index_items (entry_used c)) with
    | S fuel, Some index =>
        evict_entries fuel bytes budget
          (set_entries (delete index (tree_entries c)) (entry_bytes c - default 0%N (entry_sizes c !! index))
            (delete index (entry_sizes c)) (delete index (entry_used c)) c)
    | _, _ => c
    end
  else c.
Definition reserve_entry (bytes budget : N) (c : BinaryDbTreeReadCache) : BinaryDbTreeReadCache := evict_entries (size (entry_used c)) bytes budget c.

Section Sizes.
Context {A : Allocation}.

Definition sum_of {X : Type} (f : X -> N) (l : list X) : N := foldr (fun x n => (f x + n)%N) 0%N l.
Definition opt_capacity (s : option string) : N := match s with Some s => str_capacity s | None => 0%N end.

Definition retained_reader_bytes (o : open_archive) : N :=
  let index := ta_index (oa_archive o) in
  (size_of_archive + str_capacity (path_to_str (oa_path o)) + str_capacity (px_pack_format index) + str_capacity (px_pack_id index) +
   str_capacity (px_created_at index) + str_capacity (px_index_entry_name index) + chunks_capacity (px_chunks index) * size_of_chunk_index +
   sum_of (fun c => str_capacity (ck_checksum c)) (px_chunks index) + members_capacity (px_members index) * size_of_member_index +
   sum_of (fun m => str_capacity (mb_entry_name m) + str_capacity (mb_content_id m) + str_capacity (mb_entry_type m) + str_capacity (mb_checksum m) +
     opt_capacity (mb_base_content_id m) + opt_capacity (mb_delta_algorithm m)) (px_members index) +
   sum_of (fun kv => bytes_capacity (snd kv) + 128) (map_to_list (ta_cache (oa_archive o))))%N.

Definition retained_archive_bytes (c : BinaryDbTreeReadCache) : N :=
  sum_of (fun kv => (str_capacity (fst kv) + 128 + retained_reader_bytes (snd kv))%N) (map_to_list (archives c)).

(** The loop of [trim_archives], with the number of keys as fuel again. *)
Fixpoint evict_archives (fuel : nat) (budget : N) (c : BinaryDbTreeReadCache) : BinaryDbTreeReadCache :=
  if (budget <? retained_archive_bytes c)%N then
    match fuel, least None (sorted_entries (archive_used c)) with
    | S fuel, Some key => evict_archives fuel budget (set_archives (delete key (archives c)) (delete key (archive_used c)) c)
    | _, _ => c
    end
  else c.
Definition trim_archives (c : BinaryDbTreeReadCache) : BinaryDbTreeReadCache :=
  match admission_budget c with None => c | Some budget => evict_archives (size (archive_used c)) budget c end.

(** [128 + entries.len() * size_of::<BinaryTreeEntryView>() + ..] *)
Definition entries_size (entries : list BinaryTreeEntryView) : N :=
  (128 + N.of_nat (length entries) * size_of_entry_view +
   sum_of (fun e => str_capacity (tev_entry_name e) + str_capacity (tev_entry_type e) + str_capacity (tev_target_id e) + opt_capacity (tev_mode e)) entries)%N.
End Sizes.

(** ** Payloads *)

Definition without_tree_id (entry : JsonValue) : JsonValue := match entry with JObject m => JObject (map_remove "tree_id" m) | _ => entry end.
Definition array_of (v : JsonValue) : option (list JsonValue) := match v with JArray l => Some l | _ => None end.

(** [get("entries").or_else(|| get("rows"))] *)
Definition rows_field (object : Map) : option JsonValue :=
  match map_get "entries" object with Some rows => Some rows | None => map_get "rows" object end.

Definition normalize_tree_payload (expected_tree_id : string) (payload : JsonValue) : result BinaryDbErrorKind JsonValue :=
  match payload with
  | JArray rows => Ok (json_object [("tree_id", JString expected_tree_id); ("entries", JArray rows)]%string)
  | JObject object =>
      let tree_id := default expected_tree_id (map_get "tree_id" object ≫= as_str) in
      rows ← ok_or (rows_field object) Corruption;
      '(tree_id, entries) ←
        match rows with
        | JArray entries => Ok (tree_id, entries)
        | JObject nested =>
            entries ← ok_or (rows_field nested ≫= array_of) Corruption;
            Ok (default tree_id (map_get "tree_id" nested ≫= as_str), entries)
        | _ => Err Corruption
        end;
      Ok (json_object [("tree_id", JString tree_id); ("entries", JArray (map without_tree_id entries))]%string)
  | _ => Err Corruption
  end.

Definition contains_byte (b : Byte.byte) (name : string) : bool := existsb (fun c => bool_decide (c = b)) (bytes_of_string name).
Definition validate_tree_entry_name (name : string) : result BinaryDbErrorKind unit :=
  _ ← fail_if (bool_decide (name = EmptyString)) Other;
  _ ← fail_if (bool_decide (name = "."%string) || bool_decide (name = ".."%string)) Other;
  fail_if (contains_byte Byte.x2f name || contains_byte Byte.x5c name || contains_byte Byte.x00 name) Other.

Definition text_entry (object : Map) (name : string) : result BinaryDbErrorKind string := ok_or (map_get name object ≫= as_str) Corruption.

Definition tree_entry_view_from_json (ordinal : N) (row : JsonValue) : result BinaryDbErrorKind BinaryTreeEntryView :=
  object ← match row with JObject object => Ok object | _ => Err Corruption end;
  entry_name ← text_entry object "entry_name";
  _ ← validate_tree_entry_name entry_name;
  entry_type ← text_entry object "entry_type";
  target_id ← text_entry object "target_id";
  _ ←
    (if bool_decide (entry_type = "blob"%string) then map_err id_error_kind (blob_id_index_key target_id)
     else if bool_decide (entry_type = "tree"%string) then map_err id_error_kind (tree_id_index_key target_id)
     else Err Corruption);
  let size_bytes := map_get "size_bytes" object ≫= as_u64 in
  let mode := map_get "mode" object ≫= as_str in
  _ ← fail_if (u32_max <? ordinal)%N Corruption;
  Ok (mkEntryView ordinal entry_name entry_type target_id size_bytes mode).

(** [iter().enumerate().map(..).collect()] *)
Fixpoint entry_views (ordinal : N) (rows : list JsonValue) : result BinaryDbErrorKind (list BinaryTreeEntryView) :=
  match rows with
  | [] => Ok []
  | row :: rows =>
      view ← tree_entry_view_from_json ordinal row;
      views ← entry_views (ordinal + 1) rows;
      Ok (view :: views)
  end.

Definition tree_entry_views_from_payload (payload : JsonValue) : result BinaryDbErrorKind (list BinaryTreeEntryView) :=
  entries ← ok_or (value_get "entries" payload ≫= array_of) Corruption;
  views ← entry_views 0 entries;
  Ok (sort_by_key tev_entry_name views).

(** What [read_tree_pack_payload_for_record] requires of the record before it
    opens the pack. *)
Definition check_tree_locator (tree_index : N) (tree : BinaryTreeRecord) (pack : BinaryTreePackView) : result BinaryDbErrorKind unit :=
  if has_sparse_physical_ordinals (tpv_record pack) then Ok tt
  else
    _ ← fail_if (tree_count (tpv_record pack) <=? pack_entry_ordinal tree)%N Corruption;
    _ ← fail_if (tree_index <? first_tree_index (tpv_record pack))%N Corruption;
    fail_if (negb (pack_entry_ordinal tree =? tree_index - first_tree_index (tpv_record pack))%N) Corruption.

(** What it requires of the payload. *)
Definition check_payload_of (tree : BinaryTreeRecord) (payload : JsonValue) : result BinaryDbErrorKind JsonValue :=
  let tree_id := tree_id_from_hash80 (tree_hash80 tree) in
  normalized ← normalize_tree_payload tree_id payload;
  actual_tree_id ← ok_or (value_get "tree_id" normalized ≫= as_str) Corruption;
  _ ← fail_if (negb (eq_ignore_ascii_case actual_tree_id tree_id)) Corruption;
  entries ← ok_or (value_get "entries" normalized ≫= array_of) Corruption;
  _ ← fail_if (negb (N.of_nat (length entries) =? entry_count tree)%N) Corruption;
  Ok normalized.

(** Reading from an open archive, when its file has the contents [file] now: a
    file that is gone only fails for a chunk that is not cached. *)
Definition chunk_held (archive : TreePackEntryArchive) (entry_ordinal : N) : bool :=
  match with_ordinal (ta_index archive) entry_ordinal with
  | Ok member => is_some (ta_cache archive !! mb_chunk_ordinal member)
  | Err _ => false
  end.
Definition read_archive {P : PackPrimitives} (file : option bytes) (archive : TreePackEntryArchive) (entry_ordinal : N)
  : TreePackEntryArchive * result BinaryDbErrorKind JsonValue :=
  if is_some file || chunk_held archive entry_ordinal then
    let '(archive, r) := read_tree_by_ordinal (mkTreeArchive (default [] file) (ta_index archive) (ta_cache archive)) entry_ordinal in
    (archive, map_err (fun _ => Corruption) r)
  else (archive, Err Corruption).

(** ** Reading in a transaction *)

Abbreviation treed := (stateful (BinaryDbTreeReadCache * (BinaryDbReadCache * io_state)) BinaryDbErrorKind).

(** A read that does not use the cache of trees. *)
Definition in_read {A} (m : cached A) : treed A := fun '(c, s) => let '(r, s) := m s in (r, (c, s)).
Definition tree_cache : treed BinaryDbTreeReadCache := fun '(c, s) => (Ok c, (c, s)).
Definition change_cache (f : BinaryDbTreeReadCache -> BinaryDbTreeReadCache) : treed unit := modify (fun '(c, s) => (f c, s)).
(** The files as they are: the operating system's calls on pack files work. *)
Definition current_files : treed (gmap PathBuf bytes) := fun '(c, (t, s)) => (Ok (disk s), (c, (t, s))).

(** [Metadata::modified]: the time of the last change of a file. *)
Class FileTimes : Type := { modified : io_state -> PathBuf -> option N }.

Section Store.
Context {P : PackPrimitives} {A : Allocation} {T : FileTimes}.
Context (fs : LocalBinaryDbFs) (repo_root : PathBuf).

Definition read_tree_record_at (tree_index : N) : cached BinaryTreeRecord :=
  layout ← required_content_layout fs TREE_BIN TREE_RECORD_SIZE;
  file ← lift (content_record_file TREE_BIN TREE_RECORD_SIZE layout);
  raw ← read_record_in_read_txn fs file tree_index;
  lift (map_err content_error_kind (decode_tree_record layout raw)).

Definition read_tree_pack_record_at (tree_pack_index : N) : cached BinaryTreePackRecord :=
  layout ← required_content_layout fs TREE_PACK_BIN TREE_PACK_RECORD_SIZE;
  file ← lift (content_record_file TREE_PACK_BIN TREE_PACK_RECORD_SIZE layout);
  raw ← read_record_in_read_txn fs file tree_pack_index;
  lift (map_err content_error_kind (decode_tree_pack_record layout raw)).

Definition tree_pack_view (tree_pack_index : N) (record : BinaryTreePackRecord) : result BinaryDbErrorKind BinaryTreePackView :=
  let pack_id := tree_pack_id_from_hash48 (tree_pack_hash48 record) in
  pack_format ← tree_pack_format_name (tree_pack_format record);
  pack_path ← tree_pack_relative_path pack_id pack_format;
  Ok (mkTreePackView tree_pack_index record pack_id pack_path pack_format).
Definition tree_pack_view_at (tree_pack_index : N) : cached BinaryTreePackView :=
  record ← read_tree_pack_record_at tree_pack_index; lift (tree_pack_view tree_pack_index record).

Definition tree_pack_is_dead (view : BinaryTreePackView) : bool := tree_pack_is_tombstone (tpv_record view).

(** [first_tree_index.checked_add(tree_count)] *)
Definition range_end (view : BinaryTreePackView) (kind : BinaryDbErrorKind) : result BinaryDbErrorKind N :=
  let end_ := (first_tree_index (tpv_record view) + tree_count (tpv_record view))%N in
  _ ← fail_if (u32_max <? end_)%N kind; Ok end_.

(** *** The pack of a tree *)

(** The reverse scan of [tree_pack_view_for_tree_index]. *)
Fixpoint scan_back (count : nat) (tree_index : N) : cached (option BinaryTreePackView) :=
  match count with
  | O => mret None
  | S count =>
      view ← tree_pack_view_at (N.of_nat count);
      if tree_pack_is_dead view then scan_back count tree_index
      else
        end_ ← lift (range_end view Other);
        if (first_tree_index (tpv_record view) <=? tree_index)%N && (tree_index <? end_)%N then mret (Some view)
        else scan_back count tree_index
  end.
Definition tree_pack_view_for_tree_index (tree_index : N) : cached (option BinaryTreePackView) :=
  layout ← persisted_content_layout fs TREE_PACK_BIN TREE_PACK_RECORD_SIZE;
  match layout with
  | None => mret None
  | Some layout =>
      file ← lift (content_record_file TREE_PACK_BIN TREE_PACK_RECORD_SIZE layout);
      count ← read_txn_record_count fs file;
      scan_back (N.to_nat count) tree_index
  end.

(** [for locator in &mut locators[start..end] { *locator = Some(view_index) }] *)
Definition paint (start end_ : nat) (view_index : nat) (locators : list (option nat)) : list (option nat) :=
  take start locators ++ replicate (end_ - start) (Some view_index) ++ drop end_ locators.

(** The loop [for tree_pack_index in 0..pack_count], [rounds] before its end; an
    index fits a [usize]. *)
Fixpoint paint_packs (rounds : nat) (tree_pack_index : N) (views : list BinaryTreePackView) (locators : list (option nat))
  : cached (list BinaryTreePackView * list (option nat)) :=
  match rounds with
  | O => mret (views, locators)
  | S rounds =>
      view ← tree_pack_view_at tree_pack_index;
      if tree_pack_is_dead view then paint_packs rounds (tree_pack_index + 1) views locators
      else
        end_ ← lift (range_end view Corruption);
        _ ← require (end_ <=? N.of_nat (length locators))%N Corruption;
        paint_packs rounds (tree_pack_index + 1) (views ++ [view])
          (paint (N.to_nat (first_tree_index (tpv_record view))) (N.to_nat end_) (length views) locators)
  end.

(** What [tree_pack_view_for_tree_index_with_cache] builds on its first call;
    [None] without a file of packs. *)
Definition paint_all_packs (layout : N) : cached (list BinaryTreePackView * list (option nat)) :=
  tree_layout ← required_content_layout fs TREE_BIN TREE_RECORD_SIZE;
  tree_file ← lift (content_record_file TREE_BIN TREE_RECORD_SIZE tree_layout);
  tree_count ← read_txn_record_count fs tree_file;
  file ← lift (content_record_file TREE_PACK_BIN TREE_PACK_RECORD_SIZE layout);
  pack_count ← read_txn_record_count fs file;
  paint_packs (N.to_nat pack_count) 0 [] (replicate (N.to_nat tree_count) None).
Definition build_locators : cached (option (list BinaryTreePackView * list (option nat))) :=
  layout ← persisted_content_layout fs TREE_PACK_BIN TREE_PACK_RECORD_SIZE;
  match layout with
  | None => mret None
  | Some layout => built ← paint_all_packs layout; mret (Some built)
  end.

Definition located (views : list BinaryTreePackView) (locators : list (option nat)) (tree_index : N) : option BinaryTreePackView :=
  view_index ← mjoin (locators !! N.to_nat tree_index); views !! view_index.

Definition tree_pack_view_for_tree_index_with_cache (tree_index : N) : treed (option BinaryTreePackView) :=
  c ← tree_cache;
  if tree_pack_index_loaded c then mret (located (tree_pack_views c) (tree_pack_for_tree_index c) tree_index)
  else
    built ← in_read build_locators;
    match built with
    | None => _ ← change_cache (fun c => set_locators (tree_pack_views c) (tree_pack_for_tree_index c) c); mret None
    | Some (views, locators) => _ ← change_cache (set_locators views locators); mret (located views locators tree_index)
    end.

(** *** Views of trees *)

Definition tree_view (tree_index : N) (record : BinaryTreeRecord) (pack : option BinaryTreePackView) : BinaryTreeView :=
  mkTreeView tree_index record (tree_id_from_hash80 (tree_hash80 record)) (tpv_pack_id <$> pack).

Definition tree_view_at (tree_index : N) : cached BinaryTreeView :=
  record ← read_tree_record_at tree_index;
  pack ← tree_pack_view_for_tree_index tree_index;
  mret (tree_view tree_index record pack).
Definition tree_view_at_with_cache (tree_index : N) : treed BinaryTreeView :=
  record ← in_read (read_tree_record_at tree_index);
  pack ← tree_pack_view_for_tree_index_with_cache tree_index;
  mret (tree_view tree_index record pack).

Definition names_tree (tree_id : string) (view : BinaryTreeView) : bool :=
  eq_ignore_ascii_case (tv_tree_id view) tree_id && negb (tree_is_tombstone (tv_record view)).

(** The loop over the candidates, with the read that makes the view. *)
Fixpoint first_tree {S} (view_at : N -> stateful S BinaryDbErrorKind BinaryTreeView) (tree_id : string) (candidates : list N)
  : stateful S BinaryDbErrorKind (option BinaryTreeView) :=
  match candidates with
  | [] => mret None
  | index :: candidates =>
      view ← view_at index;
      if names_tree tree_id view then mret (Some view) else first_tree view_at tree_id candidates
  end.

Definition tree_candidates (tree_id : string) : cached (list N) :=
  key ← lift (map_err id_error_kind (tree_id_index_key tree_id));
  layout ← persisted_content_layout fs TREE_BIN TREE_RECORD_SIZE;
  match layout with
  | None => mret []
  | Some layout =>
      index ← lift (content_index TREE_ID_IDX layout (Some (10%N, true)));
      index_candidates fs index key
  end.
Definition get_tree_view_by_id (tree_id : string) : cached (option BinaryTreeView) :=
  candidates ← tree_candidates tree_id; first_tree tree_view_at tree_id candidates.
Definition get_tree_view_by_id_with_cache (tree_id : string) : treed (option BinaryTreeView) :=
  candidates ← in_read (tree_candidates tree_id); first_tree tree_view_at_with_cache tree_id candidates.

(** *** Payloads *)

(** [std::fs::metadata] *)
Definition file_stamp (path : PathBuf) : treed (N * option N) := fun '(c, (t, s)) =>
  (data ← ok_or (disk s !! path) Other; Ok (N.of_nat (length data), modified s path), (c, (t, s))).

Definition check_stamp (pack_path : PathBuf) : treed unit :=
  c ← tree_cache;
  if is_some (admission_budget c) then
    stamp ← file_stamp pack_path;
    _ ← require (match admission_stamps c !! pack_path with Some old => bool_decide (old = stamp) | None => true end) Corruption;
    change_cache (set_stamp pack_path stamp)
  else mret tt.

Definition archive_key (pack_path : PathBuf) (pack_format : string) : string := (path_to_str pack_path ++ "#" ++ pack_format)%string.

Definition use_archive (key : string) : treed unit :=
  c ← tree_cache;
  if is_some (admission_budget c) then
    _ ← change_cache tick;
    change_cache (fun c => set_archives (archives c) (<[key := clock c]> (archive_used c)) c)
  else mret tt.

Definition keep_archive (key : string) (o : open_archive) : treed unit :=
  change_cache (fun c => set_archives (<[key := o]> (archives c)) (archive_used c) c).

Definition select_archive (pack_path : PathBuf) (pack_format : string) : treed open_archive :=
  let key := archive_key pack_path pack_format in
  c ← tree_cache;
  match archives c !! key with
  | Some o => mret o
  | None =>
      files ← current_files;
      file ← lift (ok_or (files !! pack_path) Corruption);
      archive ← lift (map_err (fun _ => Corruption) (open_with_format file pack_format));
      _ ← keep_archive key (mkOpenArchive pack_path archive);
      mret (mkOpenArchive pack_path archive)
  end.

Definition read_open_archive (key : string) (o : open_archive) (entry_ordinal : N) : treed JsonValue :=
  files ← current_files;
  let '(archive, r) := read_archive (files !! oa_path o) (oa_archive o) entry_ordinal in
  _ ← keep_archive key (mkOpenArchive (oa_path o) archive);
  lift r.

Definition read_tree_pack_payload_for_record (tree_index : N) (tree : BinaryTreeRecord) (pack : BinaryTreePackView) : treed JsonValue :=
  _ ← lift (check_tree_locator tree_index tree pack);
  pack_path ← lift (absolute_repo_path repo_root (tpv_pack_path pack));
  _ ← check_stamp pack_path;
  let key := archive_key pack_path (tpv_pack_format pack) in
  _ ← use_archive key;
  o ← select_archive pack_path (tpv_pack_format pack);
  payload ← read_open_archive key o (pack_entry_ordinal tree);
  _ ← change_cache trim_archives;
  lift (check_payload_of tree payload).

Definition read_tree_pack_payload_at (tree_index : N) : treed JsonValue :=
  tree ← in_read (read_tree_record_at tree_index);
  pack ← tree_pack_view_for_tree_index_with_cache tree_index;
  pack ← lift (ok_or pack Corruption);
  read_tree_pack_payload_for_record tree_index tree pack.

(** *** Entries *)

Definition use_entries (tree_index : N) : treed unit :=
  c ← tree_cache;
  if is_some (admission_budget c) then
    _ ← change_cache tick;
    change_cache (fun c => set_entries (tree_entries c) (entry_bytes c) (entry_sizes c) (<[tree_index := clock c]> (entry_used c)) c)
  else mret tt.

(** The end of [list_tree_entry_views_at]: the entries are remembered, unless
    they are larger than the whole budget. *)
Definition remember_entries (tree_index : N) (entries : list BinaryTreeEntryView) : treed unit :=
  let bytes := entries_size entries in
  c ← tree_cache;
  let keep := change_cache (fun c =>
    set_entries (<[tree_index := entries]> (tree_entries c)) (saturating_add (entry_bytes c) bytes) (entry_sizes c) (entry_used c) c) in
  match admission_budget c with
  | Some budget =>
      if (budget <? bytes)%N then mret tt
      else
        _ ← change_cache (reserve_entry bytes budget);
        _ ← use_entries tree_index;
        _ ← change_cache (fun c => set_entries (tree_entries c) (entry_bytes c) (<[tree_index := bytes]> (entry_sizes c)) (entry_used c) c);
        keep
  | None => keep
  end.

Definition list_tree_entry_views_at (tree_index : N) : treed (list BinaryTreeEntryView) :=
  c ← tree_cache;
  match tree_entries c !! tree_index with
  | Some entries => _ ← use_entries tree_index; mret entries
  | None =>
      payload ← read_tree_pack_payload_at tree_index;
      entries ← lift (tree_entry_views_from_payload payload);
      _ ← remember_entries tree_index entries;
      mret entries
  end.

Definition required_tree_entries_with_cache (tree_id : string) : treed (list BinaryTreeEntryView) :=
  tree ← get_tree_view_by_id_with_cache tree_id;
  tree ← lift (ok_or tree MissingData);
  list_tree_entry_views_at (tv_tree_index tree).

Definition list_tree_entry_views_with_cache (tree_id : string) : treed (list BinaryTreeEntryView) :=
  tree ← get_tree_view_by_id_with_cache tree_id;
  match tree with
  | None => mret []
  | Some tree => list_tree_entry_views_at (tv_tree_index tree)
  end.

Definition list_tree_entry_views_for_record_in_pack_with_cache (tree_index : N) (tree : BinaryTreeRecord) (pack : BinaryTreePackView)
  : treed (list BinaryTreeEntryView) :=
  payload ← read_tree_pack_payload_for_record tree_index tree pack; lift (tree_entry_views_from_payload payload).

(** [let mut cache = BinaryDbTreeReadCache::default()] for one call. *)
Definition with_fresh_cache {X} (m : treed X) : cached X := fun s => let '(r, (_, s)) := m (default_tree_cache, s) in (r, s).

Definition list_tree_entry_views (tree_id : string) : cached (list BinaryTreeEntryView) := with_fresh_cache (list_tree_entry_views_with_cache tree_id).

(** [read_tree_payload_json] and [read_tree_payload_for_id] *)
Definition read_tree_payload_json (tree_id : string) : cached (option JsonValue) :=
  with_fresh_cache (
    tree ← get_tree_view_by_id_with_cache tree_id;
    match tree with
    | None => mret None
    | Some tree => payload ← read_tree_pack_payload_at (tv_tree_index tree); mret (Some payload)
    end).

Fixpoint collect_tree_ids (rounds : nat) (tree_index : N) (tree_ids : gset string) : treed (gset string) :=
  match rounds with
  | O => mret tree_ids
  | S rounds =>
      view ← tree_view_at_with_cache tree_index;
      collect_tree_ids rounds (tree_index + 1)
        (if negb (tree_is_tombstone (tv_record view)) && is_some (tv_tree_pack_id view) then {[tv_tree_id view]} ∪ tree_ids else tree_ids)
  end.
Definition existing_tree_ids : cached (gset string) :=
  layout ← persisted_content_layout fs TREE_BIN TREE_RECORD_SIZE;
  match layout with
  | None => mret ∅
  | Some layout =>
      file ← lift (content_record_file TREE_BIN TREE_RECORD_SIZE layout);
      count ← read_txn_record_count fs file;
      with_fresh_cache (collect_tree_ids (N.to_nat count) 0 ∅)
  end.

Fixpoint verify_stamps (stamps : list (PathBuf * (N * option N))) : treed unit :=
  match stamps with
  | [] => mret tt
  | (path, stamp) :: stamps =>
      current ← file_stamp path;
      _ ← require (bool_decide (current = stamp)) Corruption;
      verify_stamps stamps
  end.
(** [verify_admission_stamps]; the order of the paths only decides which error
    comes first. *)
Definition verify_admission_stamps : treed unit := c ← tree_cache; verify_stamps (map_to_list (admission_stamps c)).

(** *** Tree packs *)

Definition names_pack (pack_id : string) (view : BinaryTreePackView) : bool :=
  eq_ignore_ascii_case (tpv_pack_id view) pack_id && negb (tree_pack_is_dead view).
Fixpoint first_pack (pack_id : string) (candidates : list N) : cached (option BinaryTreePackView) :=
  match candidates with
  | [] => mret None
  | index :: candidates =>
      view ← tree_pack_view_at index;
      if names_pack pack_id view then mret (Some view) else first_pack pack_id candidates
  end.
Definition get_tree_pack_view_by_id (pack_id : string) : cached (option BinaryTreePackView) :=
  key ← lift (map_err id_error_kind (tree_pack_id_index_key pack_id));
  layout ← persisted_content_layout fs TREE_PACK_BIN TREE_PACK_RECORD_SIZE;
  match layout with
  | None => mret None
  | Some layout =>
      index ← lift (content_index TREE_PACK_ID_IDX layout (Some (8%N, true)));
      candidates ← index_candidates fs index key;
      first_pack pack_id candidates
  end.

Fixpoint live_pack_views (rounds : nat) (tree_pack_index : N) (views : list BinaryTreePackView) : cached (list BinaryTreePackView) :=
  match rounds with
  | O => mret views
  | S rounds =>
      view ← tree_pack_view_at tree_pack_index;
      live_pack_views rounds (tree_pack_index + 1) (if tree_pack_is_dead view then views else views ++ [view])
  end.
Definition list_tree_pack_views : cached (list BinaryTreePackView) :=
  layout ← persisted_content_layout fs TREE_PACK_BIN TREE_PACK_RECORD_SIZE;
  match layout with
  | None => mret []
  | Some layout =>
      file ← lift (content_record_file TREE_PACK_BIN TREE_PACK_RECORD_SIZE layout);
      count ← read_txn_record_count fs file;
      live_pack_views (N.to_nat count) 0 []
  end.

(** *** Manifests *)

(** The rows collected and the trees on the way down, over the cache. *)
Local Abbreviation manifest := (stateful ((Map * gset string) * (BinaryDbTreeReadCache * (BinaryDbReadCache * io_state))) BinaryDbErrorKind).

Definition in_trees {X} (m : treed X) : manifest X := fun '(files, s) => let '(r, s) := m s in (r, (files, s)).
Definition enter_tree (tree_id : string) : manifest unit := fun '((files, visited), s) =>
  if bool_decide (tree_id ∈ visited) then (Err Other, ((files, visited), s)) else (Ok tt, ((files, {[tree_id]} ∪ visited), s)).
(** [visited.remove(tree_id)] after the closure, whatever its result. *)
Definition then_leave {X} (tree_id : string) (m : manifest X) : manifest X := fun s =>
  let '(r, ((files, visited), s)) := m s in (r, ((files, visited ∖ {[tree_id]}), s)).

Definition join_path (prefix name : string) : string := if bool_decide (prefix = EmptyString) then name else (prefix ++ "/" ++ name)%string.

Definition mode_json (mode : option string) : JsonValue := match mode with Some mode => JString mode | None => JNull end.
Definition manifest_row (path : string) (entry : BinaryTreeEntryView) : JsonValue :=
  json_object [("path", JString path); ("blob_id", JString (tev_target_id entry)); ("size_bytes", size_json (tev_size_bytes entry));
               ("mode", mode_json (tev_mode entry))]%string.
Definition insert_file (path : string) (row : JsonValue) : manifest unit := fun '((files, visited), s) =>
  (fail_if (is_some (map_get path files)) Other, ((map_insert path row files, visited), s)).

(** Each tree on the way down is another one: the number of tree ids is fuel
    enough. *)
Fixpoint collect_manifest_rows_cached (fuel : nat) (tree_id prefix : string) : manifest unit :=
  match fuel with
  | O => lift (Err Other)
  | S fuel =>
      _ ← enter_tree tree_id;
      then_leave tree_id (
        tree ← in_trees (get_tree_view_by_id_with_cache tree_id);
        tree ← lift (ok_or tree MissingData);
        entries ← in_trees (list_tree_entry_views_at (tv_tree_index tree));
        for_each (fun entry =>
          let path := join_path prefix (tev_entry_name entry) in
          if bool_decide (tev_entry_type entry = "tree"%string) then collect_manifest_rows_cached fuel (tev_target_id entry) path
          else insert_file path (manifest_row path entry)) entries)
  end.
Definition collect_manifest_rows (fuel : nat) (tree_id prefix : string) (files : Map) (visited : gset string)
  : cached (Map * gset string) := fun s =>
  match collect_manifest_rows_cached fuel tree_id prefix ((files, visited), (default_tree_cache, s)) with
  | (Ok _, (files, (_, s))) => (Ok files, s)
  | (Err e, (_, (_, s))) => (Err e, s)
  end.

(** ** Writing in a transaction *)

Definition tree_file (layout : N) : BinaryFileId := mkFileId TREE_BIN layout (N.of_nat TREE_RECORD_SIZE).
Definition tree_pack_file (layout : N) : BinaryFileId := mkFileId TREE_PACK_BIN layout (N.of_nat TREE_PACK_RECORD_SIZE).
Definition tree_id_index (layout : N) : BinaryIndexId := mkIndexId TREE_ID_IDX layout (Some 10%N) true.
Definition tree_pack_id_index (layout : N) : BinaryIndexId := mkIndexId TREE_PACK_ID_IDX layout (Some 8%N) true.

Definition append_tree_record (layout : N) (record : BinaryTreeRecord) : txn N :=
  raw ← lift (map_err content_error_kind (encode_tree_record layout record));
  txn_append_record fs (tree_file layout) raw.
Definition append_tree_id_index (layout : N) (tree_id : string) (tree_index : N) : txn unit :=
  key ← lift (map_err id_error_kind (tree_id_index_key tree_id));
  txn_append_index_candidate fs (tree_id_index layout) key tree_index.
Definition append_tree_with_id_index (layout : N) (record : BinaryTreeRecord) : txn (N * string) :=
  index ← append_tree_record layout record;
  let tree_id := tree_id_from_hash80 (tree_hash80 record) in
  _ ← append_tree_id_index layout tree_id index;
  mret (index, tree_id).

Definition append_tree_pack_record (layout : N) (record : BinaryTreePackRecord) : txn N :=
  raw ← lift (map_err content_error_kind (encode_tree_pack_record layout record));
  txn_append_record fs (tree_pack_file layout) raw.
Definition append_tree_pack_id_index (layout : N) (pack_id : string) (tree_pack_index : N) : txn unit :=
  key ← lift (map_err id_error_kind (tree_pack_id_index_key pack_id));
  txn_append_index_candidate fs (tree_pack_id_index layout) key tree_pack_index.
Definition append_tree_pack_with_id_index (layout : N) (record : BinaryTreePackRecord) : txn (N * string) :=
  index ← append_tree_pack_record layout record;
  let pack_id := tree_pack_id_from_hash48 (tree_pack_hash48 record) in
  _ ← append_tree_pack_id_index layout pack_id index;
  mret (index, pack_id).
End Store.

(** ** The records of the trait *)

Record TreeRecord : Type := mkTreeStoreRecord {
  tsr_tree_id : string;
  tsr_entry_count : option N;
  tsr_tree_pack_id : option string;
  tsr_status : option string
}.
Definition tree_record_from_view (view : BinaryTreeView) : TreeRecord :=
  mkTreeStoreRecord (tv_tree_id view) (Some (entry_count (tv_record view))) (tv_tree_pack_id view)
    (Some (if tree_is_tombstone (tv_record view) then "tombstone" else "ready")%string).

Record TreePackRecord : Type := mkTreePackStoreRecord {
  tpr_pack_id : string;
  tpr_pack_path : string;
  tpr_pack_format : string;
  tpr_entry_count : option N;
  tpr_checksum : option string;
  tpr_status : option string
}.
Definition tree_pack_record_from_view (view : BinaryTreePackView) : TreePackRecord :=
  mkTreePackStoreRecord (tpv_pack_id view) (tpv_pack_path view) (tpv_pack_format view) (Some (tree_count (tpv_record view))) None
    (Some (if tree_pack_is_tombstone (tpv_record view) then "tombstone" else if tree_pack_is_ready (tpv_record view) then "ready" else "pending")%string).

Record TreeEntryRecord : Type := mkTreeEntryRecord {
  ter_path : string;
  ter_blob_id : option string;
  ter_tree_id : option string;
  ter_mode : option string;
  ter_size_bytes : option N
}.
Definition tree_entry_record_from_view (view : BinaryTreeEntryView) : result BinaryDbErrorKind TreeEntryRecord :=
  let when kind := if bool_decide (tev_entry_type view = kind) then Some (tev_target_id view) else None in
  _ ← fail_if (match tev_size_bytes view with Some size => (9223372036854775807 <? size)%N | None => false end) Other;
  Ok (mkTreeEntryRecord (tev_entry_name view) (when "blob"%string) (when "tree"%string) (tev_mode view) (tev_size_bytes view)).

(** [get_tree], [list_tree_entries], [get_tree_pack] *)
Section Trait.
Context {P : PackPrimitives} {A : Allocation} {T : FileTimes} (fs : LocalBinaryDbFs) (repo_root : PathBuf).

Definition get_tree (tree_id : string) : cached (option TreeRecord) :=
  view ← get_tree_view_by_id fs tree_id; mret (tree_record_from_view <$> view).
Definition list_tree_entries (tree_id : string) : cached (list TreeEntryRecord) :=
  views ← list_tree_entry_views fs repo_root tree_id; lift (mapM_result tree_entry_record_from_view views).
Definition get_tree_pack (pack_id : string) : cached (option TreePackRecord) :=
  view ← get_tree_pack_view_by_id fs pack_id; mret (tree_pack_record_from_view <$> view).
End Trait.
