(* ===== verification/BlobStore.v ===== *)
(** * The blob store of the content database

    [ait-core/src/content_binary_db/read/surface/blob_surface.rs] and the object
    packs of [pack_surface.rs]: the views of blobs, packs and members, and the
    bytes of a blob, resolved through its chain of bases in the packs, with what
    a session of reads remembers. *)

From Stdlib Require Import NArith Lia.
From Stdlib Require Strings.Byte.
From stdpp Require Import base numbers strings gmap list sorting pretty.
From S2P Require Import Prelude Codec FileStore BinaryDb BinaryIndex ReadTxn WriteTxn ContentCodec ContentIds ContentStore.
From S2P Require Import PackCodec ChunkLayout PackIndex PackContainer PackRead TreeStore.

Definition BLOB_BIN : string := "blob.bin".
Definition BLOB_ID_IDX : string := "blob_id.idx".
Definition OBJECT_PACK_BIN : string := "object_pack.bin".
Definition OBJECT_PACK_MEMBER_BIN : string := "object_pack_member.bin".
Definition OBJECT_PACK_ID_IDX : string := "object_pack_id.idx".

Definition blob_file (layout : N) : BinaryFileId := mkFileId BLOB_BIN layout (N.of_nat BLOB_RECORD_SIZE).
Definition object_pack_file (layout : N) : BinaryFileId := mkFileId OBJECT_PACK_BIN layout (N.of_nat OBJECT_PACK_RECORD_SIZE).
Definition object_pack_member_file (layout : N) : BinaryFileId := mkFileId OBJECT_PACK_MEMBER_BIN layout (N.of_nat OBJECT_PACK_MEMBER_RECORD_SIZE).
Definition blob_id_index (layout : N) : BinaryIndexId := mkIndexId BLOB_ID_IDX layout (Some 10%N) true.
Definition object_pack_id_index (layout : N) : BinaryIndexId := mkIndexId OBJECT_PACK_ID_IDX layout (Some 8%N) true.

(** ** Views *)

Record BinaryBlobView : Type := mkBlobView {
  bv_blob_index : N;
  bv_record : BinaryBlobRecord;
  bv_blob_id : string;
  bv_sha256 : string;
  bv_size_bytes : N;
  bv_pack_member_index : option N
}.

Record BinaryObjectPackView : Type := mkPackView {
  opv_pack_index : N;
  opv_record : BinaryObjectPackRecord;
  opv_pack_id : string;
  opv_pack_path : string;
  opv_pack_format : string
}.

Record BinaryObjectPackMemberView : Type := mkMemberView {
  omv_member_index : N;
  omv_record : BinaryObjectPackMemberRecord;
  omv_pack_id : string;
  omv_blob_id : string;
  omv_entry_name : string;
  omv_base_blob_id : option string
}.

Definition object_pack_format_name (kind : BinaryObjectPackFormatKind) : result BinaryDbErrorKind string :=
  match kind with
  | ContentCodec.ZstdChunkedV1 => Ok PACK_FORMAT_ZSTD_CHUNKED_V1
  | ReservedObjectFormat _ => Err Other
  end.
Definition default_object_pack_relative_path (pack_id : string) : string := (".ait/objects/packs/" ++ pack_id ++ ZSTD_CHUNKED_PACK_SUFFIX)%string.
Definition object_pack_relative_path (pack_id pack_format : string) : result BinaryDbErrorKind string :=
  if bool_decide (pack_format = PACK_FORMAT_ZSTD_CHUNKED_V1) then Ok (default_object_pack_relative_path pack_id) else Err Other.

Definition blob_view (blob_index : N) (record : BinaryBlobRecord) : BinaryBlobView :=
  mkBlobView blob_index record (blob_id_from_sha256 (sha256 record)) (hex_lower (sha256 record)) (size_bytes record) (pack_member_index record).

Definition object_pack_view (pack_index : N) (record : BinaryObjectPackRecord) : result BinaryDbErrorKind BinaryObjectPackView :=
  let pack_id := object_pack_id_from_hash48 (object_pack_hash48 record) in
  pack_format ← object_pack_format_name (object_pack_format record);
  pack_path ← object_pack_relative_path pack_id pack_format;
  Ok (mkPackView pack_index record pack_id pack_path pack_format).

Section Views.
Context (fs : LocalBinaryDbFs).

Definition read_blob_record (blob_index : N) : cached BinaryBlobRecord :=
  layout ← required_content_layout fs BLOB_BIN BLOB_RECORD_SIZE;
  file ← lift (content_record_file BLOB_BIN BLOB_RECORD_SIZE layout);
  raw ← read_record_in_read_txn fs file blob_index;
  lift (map_err content_error_kind (decode_blob_record layout raw)).
Definition blob_view_at (blob_index : N) : cached BinaryBlobView :=
  record ← read_blob_record blob_index; mret (blob_view blob_index record).

Definition read_object_pack_record_at (pack_index : N) : cached BinaryObjectPackRecord :=
  layout ← required_content_layout fs OBJECT_PACK_BIN OBJECT_PACK_RECORD_SIZE;
  file ← lift (content_record_file OBJECT_PACK_BIN OBJECT_PACK_RECORD_SIZE layout);
  raw ← read_record_in_read_txn fs file pack_index;
  lift (map_err content_error_kind (decode_object_pack_record layout raw)).
Definition object_pack_view_at (pack_index : N) : cached BinaryObjectPackView :=
  record ← read_object_pack_record_at pack_index; lift (object_pack_view pack_index record).

Definition read_object_pack_member_record_at (member_index : N) : cached BinaryObjectPackMemberRecord :=
  layout ← required_content_layout fs OBJECT_PACK_MEMBER_BIN OBJECT_PACK_MEMBER_RECORD_SIZE;
  file ← lift (content_record_file OBJECT_PACK_MEMBER_BIN OBJECT_PACK_MEMBER_RECORD_SIZE layout);
  raw ← read_record_in_read_txn fs file member_index;
  lift (map_err content_error_kind (decode_object_pack_member_record layout raw)).
Definition object_pack_member_view_at (member_index : N) : cached BinaryObjectPackMemberView :=
  record ← read_object_pack_member_record_at member_index;
  pack ← object_pack_view_at (pack_index record);
  blob ← blob_view_at (blob_index record);
  base_blob_id ← (match base_blob_index record with None => mret None | Some index => view ← blob_view_at index; mret (Some (bv_blob_id view)) end);
  mret (mkMemberView member_index record (opv_pack_id pack) (bv_blob_id blob) ("blobs/" ++ bv_blob_id blob)%string base_blob_id).

(** The loops over the candidates of an index. *)
Fixpoint first_blob (blob_id : string) (candidates : list N) : cached (option BinaryBlobView) :=
  match candidates with
  | [] => mret None
  | index :: candidates =>
      view ← blob_view_at index;
      if eq_ignore_ascii_case (bv_blob_id view) blob_id && negb (blob_is_tombstone (bv_record view)) then mret (Some view)
      else first_blob blob_id candidates
  end.
Definition get_blob_view_by_id (blob_id : string) : cached (option BinaryBlobView) :=
  key ← lift (map_err id_error_kind (blob_id_index_key blob_id));
  layout ← persisted_content_layout fs BLOB_BIN BLOB_RECORD_SIZE;
  match layout with
  | None => mret None
  | Some layout =>
      index ← lift (content_index BLOB_ID_IDX layout (Some (10%N, true)));
      candidates ← index_candidates fs index key;
      first_blob blob_id candidates
  end.

Fixpoint first_object_pack (pack_id : string) (candidates : list N) : cached (option BinaryObjectPackView) :=
  match candidates with
  | [] => mret None
  | index :: candidates =>
      view ← object_pack_view_at index;
      if eq_ignore_ascii_case (opv_pack_id view) pack_id && negb (object_pack_is_tombstone (opv_record view)) then mret (Some view)
      else first_object_pack pack_id candidates
  end.
Definition get_object_pack_view_by_id (pack_id : string) : cached (option BinaryObjectPackView) :=
  key ← lift (map_err id_error_kind (object_pack_id_index_key pack_id));
  layout ← persisted_content_layout fs OBJECT_PACK_BIN OBJECT_PACK_RECORD_SIZE;
  match layout with
  | None => mret None
  | Some layout =>
      index ← lift (content_index OBJECT_PACK_ID_IDX layout (Some (8%N, true)));
      candidates ← index_candidates fs index key;
      first_object_pack pack_id candidates
  end.

(** [for pack_index in 0..count] *)
Fixpoint object_packs_from (rounds : nat) (pack_index : N) : cached (list BinaryObjectPackView) :=
  match rounds with
  | O => mret []
  | S rounds =>
      view ← object_pack_view_at pack_index;
      views ← object_packs_from rounds (pack_index + 1);
      mret (if object_pack_is_tombstone (opv_record view) then views else view :: views)
  end.
Definition list_object_pack_views : cached (list BinaryObjectPackView) :=
  layout ← persisted_content_layout fs OBJECT_PACK_BIN OBJECT_PACK_RECORD_SIZE;
  match layout with
  | None => mret []
  | Some layout =>
      file ← lift (content_record_file OBJECT_PACK_BIN OBJECT_PACK_RECORD_SIZE layout);
      count ← read_txn_record_count fs file;
      object_packs_from (N.to_nat count) 0
  end.

(** [for offset in 0..member_count]; a member's index is a [u32]. *)
Fixpoint members_from (rounds : nat) (member_index : N) : cached (list BinaryObjectPackMemberView) :=
  match rounds with
  | O => mret []
  | S rounds =>
      _ ← require (member_index <=? u32_max)%N Other;
      view ← object_pack_member_view_at member_index;
      views ← members_from rounds (member_index + 1);
      mret (if member_is_tombstone (omv_record view) then views else view :: views)
  end.
Definition list_object_pack_member_views (pack_id : string) : cached (list BinaryObjectPackMemberView) :=
  pack ← get_object_pack_view_by_id pack_id;
  match pack with
  | None => mret []
  | Some pack => members_from (N.to_nat (member_count (opv_record pack))) (first_member_index (opv_record pack))
  end.
End Views.

(** ** Appending *)

Section Appends.
Context (fs : LocalBinaryDbFs) (write_layout : N).

Definition append_blob_record (record : BinaryBlobRecord) : stateful BinaryDbWriteTxn BinaryDbErrorKind N :=
  raw ← lift (map_err content_error_kind (encode_blob_record write_layout record));
  txn_append_record fs (blob_file write_layout) raw.
Definition append_blob_id_index (blob_id : string) (blob_index : N) : stateful BinaryDbWriteTxn BinaryDbErrorKind unit :=
  key ← lift (map_err id_error_kind (blob_id_index_key blob_id));
  txn_append_index_candidate fs (blob_id_index write_layout) key blob_index.
Definition append_blob_with_id_index (record : BinaryBlobRecord) : stateful BinaryDbWriteTxn BinaryDbErrorKind (N * string) :=
  index ← append_blob_record record;
  let blob_id := blob_id_from_sha256 (sha256 record) in
  _ ← append_blob_id_index blob_id index;
  mret (index, blob_id).

Definition append_object_pack_record (record : BinaryObjectPackRecord) : stateful BinaryDbWriteTxn BinaryDbErrorKind N :=
  raw ← lift (map_err content_error_kind (encode_object_pack_record write_layout record));
  txn_append_record fs (object_pack_file write_layout) raw.
Definition append_object_pack_member_record (record : BinaryObjectPackMemberRecord) : stateful BinaryDbWriteTxn BinaryDbErrorKind N :=
  raw ← lift (map_err content_error_kind (encode_object_pack_member_record write_layout record));
  txn_append_record fs (object_pack_member_file write_layout) raw.
Definition append_object_pack_id_index (pack_id : string) (pack_index : N) : stateful BinaryDbWriteTxn BinaryDbErrorKind unit :=
  key ← lift (map_err id_error_kind (object_pack_id_index_key pack_id));
  txn_append_index_candidate fs (object_pack_id_index write_layout) key pack_index.
Definition append_object_pack_with_id_index (record : BinaryObjectPackRecord) : stateful BinaryDbWriteTxn BinaryDbErrorKind (N * string) :=
  index ← append_object_pack_record record;
  let pack_id := object_pack_id_from_hash48 (object_pack_hash48 record) in
  _ ← append_object_pack_id_index pack_id index;
  mret (index, pack_id).
End Appends.

(** ** Open packs *)

(** [PackEntryArchive]: its file is read again, by its path, for every chunk
    that is not cached. *)
Record PackEntryArchive : Type := mkPackArchive { pa_path : PathBuf; pa_index : ZstdChunkedPackIndex; pa_cache : gmap N bytes }.

Definition cached_chunk_bytes (a : PackEntryArchive) : N := sum_of (fun kv => N.of_nat (length (snd kv))) (map_to_list (pa_cache a)).
Definition clear_cached_chunks (a : PackEntryArchive) : PackEntryArchive := mkPackArchive (pa_path a) (pa_index a) ∅.

Definition object_format_from_persisted (value : string) : result BinaryDbErrorKind unit :=
  let value := trim value in
  fail_if (negb (bool_decide (value = PACK_FORMAT_ZSTD_CHUNKED_V1) || bool_decide (value = "zstd_chunked_v1"%string))) Other.

(** [entries_by_name_from_validated_index]: which entries the archive lists. *)
Record PackIndexEntry : Type := mkIndexEntry {
  pe_entry_name : string;
  pe_blob_id : string;
  pe_entry_type : string;
  pe_byte_length : N;
  pe_uncompressed_byte_length : N;
  pe_base_blob_id : option string;
  pe_chain_depth : N;
  pe_checksum : string;
  pe_delta_algorithm : option string
}.
#[export] Instance index_entry_eq_dec : EqDecision PackIndexEntry.
Proof. solve_decision. Defined.

Definition required_entry (value : string) : result BinaryDbErrorKind string :=
  let value := trim value in _ ← fail_if (bool_decide (value = EmptyString)) Other; Ok value.
Definition optional_entry (value : option string) : option string :=
  v ← value; if bool_decide (trim v = EmptyString) then None else Some (trim v).

Definition list_entry (out : gmap string PackIndexEntry) (member : ZstdChunkedMemberIndex) : result BinaryDbErrorKind (gmap string PackIndexEntry) :=
  entry_name ← required_entry (mb_entry_name member);
  blob_id ← required_entry (mb_content_id member);
  entry_type ← required_entry (mb_entry_type member);
  checksum ← required_entry (mb_checksum member);
  let parsed := mkIndexEntry entry_name blob_id entry_type (mb_stored_len member) (mb_logical_len member)
    (optional_entry (mb_base_content_id member)) (mb_chain_depth member) checksum (optional_entry (mb_delta_algorithm member)) in
  match out !! entry_name with
  | Some existing => if bool_decide (existing = parsed) then Ok out else Err Other
  | None => Ok (<[entry_name := parsed]> out)
  end.
Definition entries_by_name_from_validated_index (index : ZstdChunkedPackIndex) : result BinaryDbErrorKind (gmap string PackIndexEntry) :=
  foldM list_entry ∅ (px_members index).

Section Archives.
Context {P : PackPrimitives}.

Definition open_pack_with_format (path : PathBuf) (file : bytes) (persisted_pack_format : string) : result BinaryDbErrorKind PackEntryArchive :=
  _ ← object_format_from_persisted persisted_pack_format;
  index ← map_err (fun _ => Other) (read_zstd_chunked_container_index file ZSTD_CHUNKED_INDEX_KIND_OBJECT PACK_FORMAT_ZSTD_CHUNKED_V1);
  _ ← entries_by_name_from_validated_index index;
  Ok (mkPackArchive path index ∅).

Definition read_pack_entry (file : bytes) (a : PackEntryArchive) (entry_name : string) (base_map : option (gmap string bytes)) (max_chain_depth : N)
  : PackEntryArchive * result BinaryDbErrorKind bytes :=
  let '(cache, r) := archive_read_entry file (pa_index a) (pa_cache a) entry_name base_map max_chain_depth in
  (mkPackArchive (pa_path a) (pa_index a) cache, map_err (fun _ => Other) r).
End Archives.

(** ** Sessions *)

Record BinaryBlobReadSession : Type := mkBlobSession {
  pack_readers : gmap string PackEntryArchive;
  resolved_blobs : gmap string bytes;
  resolving_blobs : gset string;
  reader_stamps : gmap string (N * option N);
  reader_used : gmap string N;
  session_clock : N;
  chunk_budget : option N;
  session_stamps : option (gmap string (N * option N))
}.

Definition new_session (budget : option N) (stamps : option (gmap string (N * option N))) : BinaryBlobReadSession :=
  mkBlobSession ∅ ∅ ∅ ∅ ∅ 0 budget stamps.
Definition default_session : BinaryBlobReadSession := new_session None None.
Definition session_for_git_admission : BinaryBlobReadSession := new_session (Some (256 * 1024 * 1024)%N) (Some ∅).
Definition session_for_git_alias_batch : BinaryBlobReadSession := new_session None (Some ∅).

Definition set_readers (readers : gmap string PackEntryArchive) (stamps : gmap string (N * option N)) (used : gmap string N) (s : BinaryBlobReadSession)
  : BinaryBlobReadSession :=
  mkBlobSession readers (resolved_blobs s) (resolving_blobs s) stamps used (session_clock s) (chunk_budget s) (session_stamps s).
Definition set_blobs (resolved : gmap string bytes) (resolving : gset string) (s : BinaryBlobReadSession) : BinaryBlobReadSession :=
  mkBlobSession (pack_readers s) resolved resolving (reader_stamps s) (reader_used s) (session_clock s) (chunk_budget s) (session_stamps s).
Definition set_session_stamps (stamps : option (gmap string (N * option N))) (s : BinaryBlobReadSession) : BinaryBlobReadSession :=
  mkBlobSession (pack_readers s) (resolved_blobs s) (resolving_blobs s) (reader_stamps s) (reader_used s) (session_clock s) (chunk_budget s) stamps.
Definition clear_logical_values (s : BinaryBlobReadSession) : BinaryBlobReadSession := set_blobs ∅ ∅ s.

(** [self.clock += 1; reader_used.insert(key, self.clock)]; the clock is a
    [u64]. *)
Definition use_reader (key : string) (s : BinaryBlobReadSession) : BinaryBlobReadSession :=
  let clock := wrapping_add (session_clock s) 1 in
  mkBlobSession (pack_readers s) (resolved_blobs s) (resolving_blobs s) (reader_stamps s) (<[key := clock]> (reader_used s)) clock (chunk_budget s) (session_stamps s).

Definition readers_bytes (readers : gmap string PackEntryArchive) : N := sum_of (fun kv => cached_chunk_bytes (snd kv)) (map_to_list readers).
Definition READER_CHUNK_BUDGET : N := (32 * 1024 * 1024)%N.
Definition session_budget (s : BinaryBlobReadSession) : N := default READER_CHUNK_BUDGET (chunk_budget s).

(** The loop of [trim_chunks]: the reader that was used least recently goes,
    never [current]; the last resort is to empty [current]. Every round removes
    a key of [reader_used], so that their number is fuel enough. *)
Fixpoint trim_rounds (fuel : nat) (current : string) (budget : N) (s : BinaryBlobReadSession) : BinaryBlobReadSession :=
  if (budget <? readers_bytes (pack_readers s))%N then
    match least None (filter (fun kv => fst kv <> current) (sorted_entries (reader_used s))), fuel with
    | Some key, S fuel =>
        trim_rounds fuel current budget (set_readers (delete key (pack_readers s)) (delete key (reader_stamps s)) (delete key (reader_used s)) s)
    | Some _, O => s
    | None, _ => set_readers (alter clear_cached_chunks current (pack_readers s)) (reader_stamps s) (reader_used s) s
    end
  else s.
Definition trim_chunks (current : string) (s : BinaryBlobReadSession) : BinaryBlobReadSession :=
  trim_rounds (size (reader_used s)) current (session_budget s) s.

(** ** The bytes of a blob *)

Abbreviation blobbed := (stateful (BinaryBlobReadSession * (BinaryDbReadCache * io_state)) BinaryDbErrorKind).

Definition in_db {A} (m : cached A) : blobbed A := fun '(c, s) => let '(r, s) := m s in (r, (c, s)).
Definition session : blobbed BinaryBlobReadSession := fun '(c, s) => (Ok c, (c, s)).
Definition change_session (f : BinaryBlobReadSession -> BinaryBlobReadSession) : blobbed unit := modify (fun '(c, s) => (f c, s)).
Definition settled {A} (m : blobbed A) : blobbed (result BinaryDbErrorKind A) := fun s => let '(r, s) := m s in (Ok r, s).

Section Blobs.
Context {P : PackPrimitives} {T : FileTimes}.
Context (fs : LocalBinaryDbFs) (repo_root : PathBuf) (legacy_blob_index_by_id : option (gmap string N)).

(** [std::fs::metadata]: the contents of the file, with its stamp. *)
Definition pack_with_stamp (path : PathBuf) : blobbed (bytes * (N * option N)) := fun '(c, (t, s)) =>
  (data ← ok_or (disk s !! path) Other; Ok (data, (N.of_nat (length data), modified s path)), (c, (t, s))).

Definition find_blob_view (blob_id : string) : blobbed (option BinaryBlobView) :=
  match legacy_blob_index_by_id with
  | Some indexes =>
      match indexes !! to_ascii_lowercase blob_id with
      | Some blob_index => view ← in_db (blob_view_at fs blob_index); mret (Some view)
      | None => mret None
      end
  | None => in_db (get_blob_view_by_id fs blob_id)
  end.

(** [verify_admission_stamps]: the path is what follows the first line of the key. *)
Fixpoint after_newline (key : string) : option string :=
  match key with
  | EmptyString => None
  | String c rest => if bool_decide (c = Ascii.ascii_of_byte Byte.x0a) then Some rest else after_newline rest
  end.
Definition verify_stamp (entry : string * (N * option N)) : blobbed unit :=
  path ← lift (ok_or (after_newline (fst entry)) Other);
  '(_, stamp) ← pack_with_stamp (components path);
  require (bool_decide (stamp = snd entry)) Other.
Definition verify_admission_stamps : blobbed unit :=
  s ← session;
  match session_stamps s with Some stamps => for_each verify_stamp (sorted_entries stamps) | None => mret tt end.

(** What a remembered blob must be to be returned. *)
Definition remembered_ok (view : BinaryBlobView) (data : bytes) : bool :=
  negb (blob_is_tombstone (bv_record view) || blob_is_pruned (bv_record view) || negb (N.of_nat (length data) =? bv_size_bytes view)%N ||
        negb (bool_decide (sha256_bytes data = sha256 (bv_record view)))).

(** The reader of a pack, opened when there is none or the file has changed. *)
Definition object_pack_reader (key : string) (path : PathBuf) (pack_format : string) (data : bytes) (stamp : N * option N) : blobbed unit :=
  _ ← change_session (fun s => if bool_decide (reader_stamps s !! key = Some stamp) then s
                               else set_readers (delete key (pack_readers s)) (reader_stamps s) (reader_used s) s);
  s ← session;
  match pack_readers s !! key with
  | Some _ => mret tt
  | None =>
      reader ← lift (open_pack_with_format path data pack_format);
      change_session (fun s => set_readers (<[key := reader]> (pack_readers s)) (<[key := stamp]> (reader_stamps s)) (reader_used s) s)
  end.

Definition admit_stamp (key : string) (stamp : N * option N) : blobbed unit :=
  s ← session;
  match session_stamps s with
  | None => mret tt
  | Some stamps =>
      _ ← change_session (set_session_stamps (Some (<[key := stamp]> stamps)));
      require (match stamps !! key with Some previous => bool_decide (previous = stamp) | None => true end) Other
  end.

Definition read_from_reader (key : string) (data : bytes) (entry_name : string) : blobbed bytes :=
  s ← session;
  reader ← lift (ok_or (pack_readers s !! key) Other);
  let '(reader, r) := read_pack_entry data reader entry_name (Some (resolved_blobs s)) MAX_DELTA_CHAIN_READ_DEPTH in
  _ ← change_session (fun s => set_readers (<[key := reader]> (pack_readers s)) (reader_stamps s) (reader_used s) s);
  lift r.

Definition resolve_blob_bytes_for_view (read_base : string -> blobbed (option bytes)) (view : BinaryBlobView) : blobbed bytes :=
  _ ← require (negb (blob_is_tombstone (bv_record view))) Other;
  _ ← require (negb (blob_is_pruned (bv_record view))) Other;
  member_index ← lift (ok_or (pack_member_index (bv_record view)) Other);
  member ← in_db (object_pack_member_view_at fs member_index);
  _ ← require (negb (member_is_tombstone (omv_record member))) Other;
  _ ← require (bool_decide (omv_blob_id member = bv_blob_id view)) Other;
  _ ← require (delta_chain_depth (omv_record member) <=? MAX_DELTA_CHAIN_READ_DEPTH)%N Other;
  pack ← in_db (object_pack_view_at fs (pack_index (omv_record member)));
  path ← lift (absolute_repo_path repo_root (opv_pack_path pack));
  let key := (opv_pack_format pack ++ string_of_bytes [Byte.x0a] ++ path_to_str path)%string in
  _ ← (match omv_base_blob_id member with
       | Some base_blob_id =>
           if bool_decide (base_blob_id = EmptyString) then mret tt else base ← read_base base_blob_id; _ ← lift (ok_or base Other); mret tt
       | None => mret tt
       end);
  '(file, stamp) ← pack_with_stamp path;
  _ ← object_pack_reader key path (opv_pack_format pack) file stamp;
  _ ← admit_stamp key stamp;
  _ ← change_session (use_reader key);
  data ← read_from_reader key file (omv_entry_name member);
  _ ← change_session (trim_chunks key);
  _ ← require (N.of_nat (length data) =? bv_size_bytes view)%N Other;
  _ ← require (bool_decide (sha256_bytes data = sha256 (bv_record view))) Other;
  mret data.

(** [read_blob_bytes_for_view_with_session]: the depth of the recursion is
    limited, so that one call more than [MAX_DELTA_CHAIN_READ_DEPTH + 1] is fuel
    enough. *)
Fixpoint read_blob_bytes_for_view_with_session (fuel : nat) (view : BinaryBlobView) (depth : N) : blobbed bytes :=
  match fuel with
  | O => lift (Err Other)
  | S fuel =>
      s ← session;
      match resolved_blobs s !! bv_blob_id view with
      | Some data => _ ← require (remembered_ok view data) Other; mret data
      | None =>
          _ ← require (depth <=? MAX_DELTA_CHAIN_READ_DEPTH)%N Other;
          _ ← require (bool_decide (bv_blob_id view ∉ resolving_blobs s)) Other;
          _ ← change_session (fun s => set_blobs (resolved_blobs s) ({[bv_blob_id view]} ∪ resolving_blobs s) s);
          resolved ← settled (resolve_blob_bytes_for_view (fun base_blob_id =>
            base ← find_blob_view base_blob_id;
            match base with
            | None => mret None
            | Some base => data ← read_blob_bytes_for_view_with_session fuel base (depth + 1); mret (Some data)
            end) view);
          _ ← change_session (fun s => set_blobs (resolved_blobs s) (resolving_blobs s ∖ {[bv_blob_id view]}) s);
          data ← lift resolved;
          _ ← change_session (fun s => set_blobs (<[bv_blob_id view := data]> (resolved_blobs s)) (resolving_blobs s) s);
          mret data
      end
  end.

Definition blob_fuel (depth : N) : nat := S (N.to_nat (MAX_DELTA_CHAIN_READ_DEPTH + 1 - depth)).

Definition read_blob_bytes_for_id_with_session (blob_id : string) (depth : N) : blobbed (option bytes) :=
  view ← find_blob_view blob_id;
  match view with
  | None => mret None
  | Some view => data ← read_blob_bytes_for_view_with_session (blob_fuel depth) view depth; mret (Some data)
  end.

(** The loop of [read_blob_bytes_batch]. *)
Fixpoint read_batch (blob_ids : list string) (payload : gmap string bytes) : blobbed (gmap string bytes) :=
  match blob_ids with
  | [] => mret payload
  | blob_id :: blob_ids =>
      if is_some (payload !! blob_id) then read_batch blob_ids payload
      else
        data ← read_blob_bytes_for_id_with_session blob_id 0;
        read_batch blob_ids (match data with Some data => <[blob_id := data]> payload | None => payload end)
  end.
End Blobs.

(** ** The traits *)

Record ObjectPackLocator : Type := mkLocator { locator_pack_id : string }.
Record BlobRecord : Type := mkBlobRow {
  br_blob_id : string;
  br_sha256 : string;
  br_size_bytes : N;
  br_object_pack_locator : option ObjectPackLocator;
  br_pack_entry_name : option string;
  br_base_blob_id : option string;
  br_pack_entry_type : option string;
  br_pack_chain_depth : option N
}.

(** [format!("reserved:{value}")]; the value has two bits. *)
Definition member_kind_name (kind : BinaryObjectPackMemberKind) : string :=
  match kind with
  | FullMember => "full"
  | DeltaMember => "delta"
  | ReservedMember value => "reserved:" ++ string_of_bytes [byte_of_N (48 + value)]
  end.

Section Traits.
Context {P : PackPrimitives} {T : FileTimes} (fs : LocalBinaryDbFs) (repo_root : PathBuf).

(** A new session, dropped at the end. *)
Definition with_session {A} (m : blobbed A) : cached A := fun s => let '(r, (_, s)) := m (default_session, s) in (r, s).

Definition read_blob_bytes_for_id (blob_id : string) : cached (option bytes) :=
  with_session (read_blob_bytes_for_id_with_session fs repo_root None blob_id 0).
Definition read_blob_bytes_for_view (view : BinaryBlobView) (depth : N) : cached bytes :=
  with_session (read_blob_bytes_for_view_with_session fs repo_root None (blob_fuel depth) view depth).

(** The methods open a read transaction of their own. *)
Definition in_new_read {A} (m : cached A) (s : io_state) : result BinaryDbErrorKind A := fst (m (empty_cache, s)).

(** [BlobReader] and [BlobStore] of [content_store.rs]. *)
Definition reader_read_blob_bytes (blob_id : string) (s : io_state) : result BinaryDbErrorKind (option bytes) := in_new_read (read_blob_bytes_for_id blob_id) s.
Definition read_blob_bytes_batch (blob_ids : list string) (s : io_state) : result BinaryDbErrorKind (gmap string bytes) :=
  in_new_read (with_session (read_batch fs repo_root None blob_ids ∅)) s.
Definition read_blob_bytes (blob_id : string) (s : io_state) : result BinaryDbErrorKind bytes :=
  data ← in_new_read (read_blob_bytes_for_id blob_id) s; ok_or data Other.

Definition blob_row (blob_id : string) : cached (option BlobRecord) :=
  view ← get_blob_view_by_id fs blob_id;
  match view with
  | None => mret None
  | Some view =>
      member ← (match bv_pack_member_index view with None => mret None | Some index => m ← object_pack_member_view_at fs index; mret (Some m) end);
      _ ← require (bv_size_bytes view <=? 9223372036854775807)%N Other;
      mret (Some (mkBlobRow (bv_blob_id view) (bv_sha256 view) (bv_size_bytes view) ((fun m => mkLocator (omv_pack_id m)) <$> member)
        (omv_entry_name <$> member) (member ≫= omv_base_blob_id) ((fun m => member_kind_name (member_kind (omv_record m))) <$> member)
        ((fun m => delta_chain_depth (omv_record m)) <$> member)))
  end.
Definition get_blob (blob_id : string) (s : io_state) : result BinaryDbErrorKind (option BlobRecord) := in_new_read (blob_row blob_id) s.

(** [ObjectPackStore]; [i64] keeps what fits. *)
Record ObjectPackRecord : Type := mkPackRow {
  opr_pack_id : string;
  opr_pack_path : string;
  opr_pack_format : string;
  opr_member_count : N;
  opr_total_bytes : N;
  opr_index_entry_name : option string;
  opr_index_checksum : option string;
  opr_created_at : option string;
  opr_status : option string
}.
Definition object_pack_record_from_view (view : BinaryObjectPackView) : result BinaryDbErrorKind ObjectPackRecord :=
  let record := opv_record view in
  let status := if object_pack_is_tombstone record then "tombstone" else if object_pack_is_ready record then "ready" else "pending" in
  _ ← fail_if (9223372036854775807 <? object_pack_total_bytes record)%N Other;
  Ok (mkPackRow (opv_pack_id view) (opv_pack_path view) (opv_pack_format view) (member_count record) (object_pack_total_bytes record) None None
    (if (object_pack_created_at_s record =? 0)%N then None else Some (pretty (object_pack_created_at_s record))) (Some status%string)).

Record ObjectPackMemberRecord : Type := mkMemberRow {
  omr_pack_id : string;
  omr_blob_id : string;
  omr_entry_name : string;
  omr_base_blob_id : option string
}.
Definition object_pack_member_record_from_view (view : BinaryObjectPackMemberView) : ObjectPackMemberRecord :=
  mkMemberRow (omv_pack_id view) (omv_blob_id view) (omv_entry_name view) (omv_base_blob_id view).

Definition get_object_pack (pack_id : string) (s : io_state) : result BinaryDbErrorKind (option ObjectPackRecord) :=
  view ← in_new_read (get_object_pack_view_by_id fs pack_id) s;
  match view with None => Ok None | Some view => record ← object_pack_record_from_view view; Ok (Some record) end.
Definition list_object_pack_ids (s : io_state) : result BinaryDbErrorKind (list string) :=
  views ← in_new_read (list_object_pack_views fs) s; Ok (map opv_pack_id views).
Definition list_referenced_object_pack_ids (s : io_state) : result BinaryDbErrorKind (list string) := list_object_pack_ids s.
Definition list_object_pack_members (pack_id : string) (s : io_state) : result BinaryDbErrorKind (list ObjectPackMemberRecord) :=
  views ← in_new_read (list_object_pack_member_views fs pack_id) s; Ok (map object_pack_member_record_from_view views).

(** [get_blobs] of the trait. *)
Fixpoint get_blobs (blob_ids : list string) (s : io_state) : result BinaryDbErrorKind (list BlobRecord) :=
  match blob_ids with
  | [] => Ok []
  | blob_id :: blob_ids =>
      record ← get_blob blob_id s;
      records ← get_blobs blob_ids s;
      Ok (match record with Some record => record :: records | None => records end)
  end.
End Traits.
