(* ===== verification/TreeReads.v ===== *)
(** * Reading trees through caches

    What [TreeStore] reads depends only on the files: what a reader remembers -
    records, indexes, the packs of trees, open archives and entries - changes no
    result. And the table of packs that a reader builds once finds the pack that
    the scan of all packs finds. *)

From Stdlib Require Import NArith Lia.
From Stdlib Require Strings.Byte.
From Stdlib Require Import Ascii.
From stdpp Require Import base numbers strings gmap list sorting.
From S2P Require Import Prelude Codec FileStore BinaryDb BinaryIndex ReadTxn WriteTxn ContentCodec ContentIds ContentStore.
From S2P Require Import Json ChunkLayout PackIndex PackContainer TreePack TreeArchive TreeStore.

(** ** Reads with one result *)

Section Stable.
Context (fs : LocalBinaryDbFs) {du : gmap PathBuf bytes} (d : gmap PathBuf bytes).

Local Abbreviation reads_ m r := (reads fs (du := du) d m r).

(** Whatever the transaction remembers, [m] gives the same result and leaves
    the files alone. *)
Definition stable {X : Type} (m : cached X) : Prop := exists r, reads_ m r.

(** The result in a new transaction. *)
Definition fresh {X : Type} (m : cached X) : result BinaryDbErrorKind X := fst (m (empty_cache, mkIo du d [])).

Lemma reads_fresh {X : Type} (m : cached X) r : reads_ m r -> fresh m = r.
Proof. intros H. destruct (H empty_cache (empty_coherent fs d)) as (c & Hrun & _). unfold fresh. by rewrite Hrun. Qed.

Lemma stable_reads {X : Type} (m : cached X) : stable m -> reads_ m (fresh m).
Proof. intros [r H]. by rewrite (reads_fresh m r H). Qed.

Lemma stable_ret {X : Type} (x : X) : stable (mret x).
Proof. eexists. apply reads_ret. Qed.
Lemma stable_lift {X : Type} (r : result BinaryDbErrorKind X) : stable (lift r).
Proof. eexists. apply reads_lift. Qed.

Lemma stable_bind {X Y : Type} (m : cached X) (k : X -> cached Y) : stable m -> (forall x, stable (k x)) -> stable (m ≫= k).
Proof.
  intros [r Hm] Hk. destruct r as [x|e].
  - destruct (Hk x) as [r Hr]. exists r. by apply (reads_step fs d m k x).
  - exists (Err e). by apply (reads_bind fs d m k (Err e)).
Qed.

Lemma fresh_bind {X Y : Type} (m : cached X) (k : X -> cached Y) : stable m -> (forall x, stable (k x)) -> fresh (m ≫= k) = (x ← fresh m; fresh (k x)).
Proof.
  intros Hm Hk. apply reads_fresh. apply (reads_bind fs d m k (fresh m)); [by apply stable_reads|].
  destruct (fresh m); [by apply stable_reads|done].
Qed.

Lemma reads_bind_Ok {X Y : Type} (m : cached X) (k : X -> cached Y) y : stable m -> (forall x, reads_ m (Ok x) -> stable (k x)) -> reads_ (m ≫= k) (Ok y) ->
  exists x, reads_ m (Ok x) /\ reads_ (k x) (Ok y).
Proof.
  intros [[x|e] Hm] Hk H.
  - exists x. split; [done|]. destruct (Hk x Hm) as [r Hr]. assert (reads_ (m ≫= k) r) as H' by (by apply (reads_step fs d m k x)).
    by rewrite <- (reads_fresh _ _ H), (reads_fresh _ _ H').
  - assert (reads_ (m ≫= k) (Err e)) as H' by (by apply (reads_bind fs d m k (Err e))). apply reads_fresh in H, H'. congruence.
Qed.

Lemma reads_lift_Ok {X : Type} (r : result BinaryDbErrorKind X) x : reads_ (lift r) (Ok x) -> r = Ok x.
Proof. intros H. by rewrite <- (reads_fresh _ _ H). Qed.

Lemma stable_unless_missing {X : Type} (m : cached X) : stable m -> stable (unless_missing m).
Proof.
  intros [r Hm]. exists (match r with Ok x => Ok (Some x) | Err MissingData => Ok None | Err e => Err e end). intros c Hc.
  destruct (Hm c Hc) as (c' & Hrun & Hc'). exists c'. split; [|done]. unfold unless_missing. rewrite Hrun. by destruct r as [x|[]].
Qed.

Lemma stable_layout file path : file_path_for fs (relative_path file) = Ok path -> stable (read_txn_layout_id fs file).
Proof. intros Hp. eexists. by eapply reads_layout. Qed.
Lemma stable_record file path i : file_path_for fs (relative_path file) = Ok path -> stable (read_record_in_read_txn fs file i).
Proof. intros Hp. eexists. by eapply reads_record. Qed.
Lemma stable_count file path : file_path_for fs (relative_path file) = Ok path -> stable (read_txn_record_count fs file).
Proof. intros Hp. eexists. apply reads_uncached. by rewrite (record_count_pure fs d file path). Qed.

Lemma stable_persisted name size path : file_path_for fs name = Ok path -> stable (persisted_content_layout fs name size).
Proof.
  intros Hp. apply stable_bind; [apply stable_unless_missing; by eapply stable_layout|]. intros [layout|]; [|apply stable_ret].
  apply stable_bind; [apply stable_lift|]. intros []. apply stable_ret.
Qed.
Lemma stable_required name size path : file_path_for fs name = Ok path -> stable (required_content_layout fs name size).
Proof. intros Hp. apply stable_bind; [by eapply stable_persisted|]. intros layout. apply stable_lift. Qed.

(** A lookup in an index that may be broken. *)
Lemma stable_lookup index key path : file_path_for fs (index_path index) = Ok path -> stable (lookup_index_in_read_txn fs index key).
Proof.
  intros Hp. destruct (match fixed_key_size index with Some key_size => (N.of_nat (length key) =? key_size)%N | None => true end) eqn:Hfit.
  2:{ exists (Err InvalidDomainData). intros c Hc. exists c. split; [|done]. unfold lookup_index_in_read_txn. erewrite bind_run by (by rewrite Hp).
      unfold require. rewrite Hfit. done. }
  assert (key_fits index key) as Hkey by (intros size Hs; rewrite Hs in Hfit; by apply N.eqb_eq).
  destruct (data ← index_data index path d; index_candidate_map_from_file_bytes index data) as [m|e] eqn:Hm.
  { apply bind_Ok in Hm as (data & Hd & Hm). eexists. apply (reads_lookup fs d index path m); [done|by exists data|done]. }
  exists (Err e). intros c Hc. destruct (co_indexes _ _ _ Hc _ _ Hp) as [Hfiles Hparsed]. unfold lookup_index_in_read_txn.
  assert (forall m', ~ index_content index path d m') as Hno by (intros m' (data & H1 & H2); rewrite H1 in Hm; cbn in Hm; congruence).
  erewrite bind_run by (by rewrite Hp). erewrite bind_run by (unfold require; by rewrite Hfit). erewrite bind_run by done.
  destruct (parsed_index_candidates c !! index_key index) as [m'|] eqn:Hpar; [by destruct (Hno m'); apply Hparsed|].
  destruct (index_files c !! index_key index) as [data|] eqn:Hf.
  - exists c. split; [|done]. rewrite (Hfiles data eq_refl) in Hm. cbn [mbind result_bind] in Hm. apply bind_run_Err.
    erewrite bind_run by done. erewrite bind_run by done. rewrite Hf. cbn [default from_option id]. apply bind_run_Err. by rewrite Hm.
  - destruct (index_data index path d) as [data|e'] eqn:Hdata.
    + cbn [mbind result_bind] in Hm. exists (remember_index_file index data c). split.
      * apply bind_run_Err. erewrite bind_run; [|unfold mbind, stateful_bind, uncached; rewrite (read_index_run fs index path Hp), Hdata; done].
        erewrite bind_run by done. cbn [index_files remember_index_file]. rewrite lookup_insert_eq. cbn [default from_option id]. apply bind_run_Err. by rewrite Hm.
      * apply (coherent_index fs d c _ index path); try done; [split|]; cbn.
        -- intros data'. rewrite lookup_insert_eq. by intros [= <-].
        -- intros m'. by rewrite Hpar.
        -- intros k Hk. by rewrite lookup_insert_ne.
    + injection Hm as ->. exists c. split; [|done]. apply bind_run_Err, bind_run_Err. unfold mbind, stateful_bind, uncached.
      by rewrite (read_index_run fs index path Hp), Hdata.
Qed.

Lemma stable_candidates index key path : file_path_for fs (index_path index) = Ok path -> stable (index_candidates fs index key).
Proof. intros Hp. apply stable_bind; [by eapply stable_lookup|]. intros rows. apply stable_ret. Qed.
End Stable.

(** ** The pack of a tree *)

Section Reads.
Context {P : PackPrimitives} {A : Allocation} {T : FileTimes}.
Context (fs : LocalBinaryDbFs) (repo_root : PathBuf) {du : gmap PathBuf bytes} (d : gmap PathBuf bytes).
Context (tree_path pack_path index_path : PathBuf).
Context (Htree : file_path_for fs TREE_BIN = Ok tree_path) (Hpack : file_path_for fs TREE_PACK_BIN = Ok pack_path).
Context (Hindex : file_path_for fs TREE_ID_IDX = Ok index_path).

Local Abbreviation stable := (stable fs (du := du) d).
Local Abbreviation fresh := (fresh (du := du) d).
Local Abbreviation reads_ m r := (reads fs (du := du) d m r).

Lemma content_file_path name size layout file : content_record_file name size layout = Ok file -> relative_path file = name.
Proof. intros H. unfold content_record_file in H. inv_ok. done. Qed.

(** A read of a record file by its name. *)
Lemma stable_in_file {X : Type} name size path (k : BinaryFileId -> cached X) layout : file_path_for fs name = Ok path ->
  (forall file, relative_path file = name -> stable (k file)) -> stable (file ← lift (content_record_file name size layout); k file).
Proof.
  intros Hp Hk. destruct (content_record_file name size layout) as [file|e] eqn:Hf; [|exists (Err e); by apply (reads_bind _ _ _ _ (Err e)); [apply reads_lift|]].
  apply content_file_path in Hf. destruct (Hk file Hf) as [r Hr]. exists r. apply (reads_step _ _ _ _ file); [apply reads_lift|done].
Qed.

(** Goes through a read step by step. *)
Ltac of_file := match goal with H : relative_path ?file = _ |- context [relative_path ?file] => rewrite H; eassumption end.
Ltac stability := repeat first
  [ solve [auto 2] | apply stable_ret | apply stable_lift | eapply stable_persisted; eassumption | eapply stable_required; eassumption
  | eapply stable_record; of_file | eapply stable_count; of_file
  | apply (stable_in_file _ _ _ _ _ Htree); intros ? ? | apply (stable_in_file _ _ _ _ _ Hpack); intros ? ? | apply stable_bind; [|intros ?]
  | match goal with |- context [match ?x with _ => _ end] => destruct x end ].

Lemma stable_tree_record i : stable (read_tree_record_at fs i).
Proof. unfold read_tree_record_at. stability. Qed.
Lemma stable_pack_view i : stable (tree_pack_view_at fs i).
Proof. unfold tree_pack_view_at, read_tree_pack_record_at. stability. Qed.
Lemma stable_scan count i : stable (scan_back fs count i).
Proof. pose proof stable_pack_view. induction count as [|count IH]; cbn [scan_back]; stability. Qed.
Lemma stable_locate i : stable (tree_pack_view_for_tree_index fs i).
Proof. pose proof stable_scan. unfold tree_pack_view_for_tree_index. stability. Qed.
Lemma stable_paint rounds i views locators : stable (paint_packs fs rounds i views locators).
Proof. pose proof stable_pack_view. revert i views locators. induction rounds as [|rounds IH]; intros; cbn [paint_packs]; stability. Qed.
Lemma stable_paint_all layout : stable (paint_all_packs fs layout).
Proof. pose proof stable_paint. unfold paint_all_packs. stability. Qed.
Lemma stable_build : stable (build_locators fs).
Proof. pose proof stable_paint_all. unfold build_locators. stability. Qed.
Lemma stable_tree_candidates tree_id : stable (tree_candidates fs tree_id).
Proof.
  apply stable_bind; [apply stable_lift|]. intros key. apply stable_bind; [by eapply stable_persisted|]. intros [layout|]; [|apply stable_ret].
  unfold content_index. destruct (require_supported_persisted_layout layout) as [[]|e].
  - destruct (stable_candidates fs (du := du) d (mkIndexId TREE_ID_IDX layout (Some 10%N) true) key index_path Hindex) as [r Hr].
    exists r. by eapply reads_step; [apply reads_lift|].
  - exists (Err e). by apply (reads_bind _ _ _ _ (Err e)); [apply reads_lift|].
Qed.

(** *** The table and the scan *)

(** The last of [views] that is alive and holds the tree. *)
Definition holds_tree (i : N) (view : BinaryTreePackView) : bool :=
  negb (tree_pack_is_dead view) && (first_tree_index (tpv_record view) <=? i)%N &&
  (i <? first_tree_index (tpv_record view) + tree_count (tpv_record view))%N.
Fixpoint last_holding (i : N) (views : list BinaryTreePackView) : option BinaryTreePackView :=
  match views with
  | [] => None
  | view :: views => match last_holding i views with Some found => Some found | None => if holds_tree i view then Some view else None end
  end.

Lemma last_holding_snoc i views view : last_holding i (views ++ [view]) = if holds_tree i view then Some view else last_holding i views.
Proof.
  induction views as [|v views IH]; cbn; [done|]. rewrite IH. by destruct (holds_tree i view).
Qed.

(** The views of the first packs, read without an error. *)
Definition pack_views (views : list BinaryTreePackView) : Prop := forall k view, views !! k = Some view ->
  reads_ (tree_pack_view_at fs (N.of_nat k)) (Ok view) /\ (tree_pack_is_dead view = true \/ forall kind, range_end view kind = Ok (first_tree_index (tpv_record view) + tree_count (tpv_record view))%N).

Lemma scan_found views i : pack_views views -> reads_ (scan_back fs (length views) i) (Ok (last_holding i views)).
Proof.
  induction views as [|view views IH] using rev_ind; intros Hv; [apply reads_ret|].
  rewrite length_app, Nat.add_1_r, last_holding_snoc. cbn [scan_back].
  destruct (Hv (length views) view) as [Hread Hend]; [by rewrite lookup_app_r, Nat.sub_diag by lia|].
  assert (pack_views views) as Hv' by (intros k v Hk; apply Hv; by apply lookup_app_l_Some). specialize (IH Hv').
  eapply reads_step; [exact Hread|]. unfold holds_tree. destruct (tree_pack_is_dead view); [done|].
  destruct Hend as [[=]|Hend]. eapply reads_step; [rewrite Hend; apply reads_lift|]. cbn [negb andb]. by destruct (_ && _); [apply reads_ret|].
Qed.

Lemma lookup_paint start end_ v (l : list (option nat)) i : start <= end_ -> end_ <= length l ->
  paint start end_ v l !! i = if Nat.leb start i && Nat.ltb i end_ then Some (Some v) else l !! i.
Proof.
  intros Hs He. unfold paint. destruct (Nat.leb_spec start i) as [H1|H1]; cbn [andb].
  - rewrite lookup_app_r by (rewrite length_take; lia). rewrite length_take, Nat.min_l by lia. destruct (Nat.ltb_spec i end_) as [H2|H2].
    + rewrite lookup_app_l by (rewrite length_replicate; lia). apply lookup_replicate. split; [done|lia].
    + rewrite lookup_app_r by (rewrite length_replicate; lia). rewrite length_replicate, lookup_drop. f_equal. lia.
  - rewrite lookup_app_l by (rewrite length_take; lia). apply lookup_take_lt. lia.
Qed.
Lemma length_paint start end_ v (l : list (option nat)) : start <= end_ -> end_ <= length l -> length (paint start end_ v l) = length l.
Proof. intros Hs He. unfold paint. rewrite !length_app, length_take, length_replicate, length_drop. lia. Qed.

(** The table says, for each tree, which view is the last that holds it. *)
Definition table_ok (seen views : list BinaryTreePackView) (locators : list (option nat)) : Prop :=
  (forall i v, mjoin (locators !! i) = Some v -> v < length views) /\
  forall i, located views locators i = last_holding i seen.

Lemma table_ok_empty n : table_ok [] [] (replicate n None).
Proof.
  split.
  - intros k v Hk. destruct (replicate _ None !! k) eqn:E in Hk; [|done]. apply lookup_replicate in E as [-> _]. done.
  - intros k. unfold located. cbn [last_holding]. destruct (replicate _ None !! _) eqn:E; [|done]. apply lookup_replicate in E as [-> _]. done.
Qed.

Lemma table_ok_dead seen views locators view : tree_pack_is_dead view = true -> table_ok seen views locators -> table_ok (seen ++ [view]) views locators.
Proof. intros Hdead [Hb Hl]. split; [done|]. intros i. rewrite last_holding_snoc. unfold holds_tree. rewrite Hdead. apply Hl. Qed.

Lemma table_ok_paint seen views locators view end_ : tree_pack_is_dead view = false ->
  end_ = (first_tree_index (tpv_record view) + tree_count (tpv_record view))%N -> (end_ <= N.of_nat (length locators))%N -> table_ok seen views locators ->
  table_ok (seen ++ [view]) (views ++ [view]) (paint (N.to_nat (first_tree_index (tpv_record view))) (N.to_nat end_) (length views) locators).
Proof.
  intros Hlive -> Hlen [Hb Hl]. split.
  - intros i v. rewrite lookup_paint, length_app by lia. cbn [length]. destruct (_ && _); [cbn; intros [= <-]; lia|]. intros Hi%Hb. lia.
  - intros i. rewrite last_holding_snoc, <- Hl. unfold located, holds_tree. rewrite lookup_paint by lia. rewrite Hlive. cbn [negb andb].
    set (f := first_tree_index _). set (n := tree_count _).
    replace (Nat.leb (N.to_nat f) (N.to_nat i)) with (f <=? i)%N by (destruct (N.leb_spec f i), (Nat.leb_spec (N.to_nat f) (N.to_nat i)); lia || done).
    replace (Nat.ltb (N.to_nat i) (N.to_nat (f + n))) with (i <? f + n)%N by (destruct (N.ltb_spec i (f + n)), (Nat.ltb_spec (N.to_nat i) (N.to_nat (f + n))); lia || done).
    destruct (_ && _); cbn.
    + by rewrite lookup_app_r, Nat.sub_diag by lia.
    + destruct (mjoin (locators !! N.to_nat i)) as [v|] eqn:Hv; [|done]. cbn. apply lookup_app_l. by eapply Hb.
Qed.

Lemma paint_table rounds seen views locators views' locators' : pack_views seen -> table_ok seen views locators ->
  reads_ (paint_packs fs rounds (N.of_nat (length seen)) views locators) (Ok (views', locators')) ->
  exists all, length all = length seen + rounds /\ pack_views all /\ table_ok all views' locators'.
Proof.
  revert seen views locators. induction rounds as [|rounds IH]; intros seen views locators Hseen Htable H; cbn [paint_packs] in H.
  { exists seen. apply reads_lift_Ok in H as [= <- <-]. by rewrite Nat.add_0_r. }
  apply reads_bind_Ok in H as (view & Hview & H); [|apply stable_pack_view|]; cycle 1.
  { intros view _. destruct (tree_pack_is_dead view); [apply stable_paint|]. apply stable_bind; [apply stable_lift|]. intros end_.
    apply stable_bind; [apply stable_lift|]. intros []. apply stable_paint. }
  assert (forall end_ok : tree_pack_is_dead view = true \/ forall kind, range_end view kind = Ok (first_tree_index (tpv_record view) + tree_count (tpv_record view))%N,
    pack_views (seen ++ [view])) as Hsnoc.
  { intros Hend k v [Hk|[Hk [Hz <-]%list_lookup_singleton_Some]]%lookup_app_Some; [by apply Hseen|].
    assert (k = length seen) as -> by lia. by split. }
  replace (N.of_nat (length seen) + 1)%N with (N.of_nat (length (seen ++ [view]))) in H by (rewrite length_app; cbn; lia).
  destruct (tree_pack_is_dead view) eqn:Hdead.
  - destruct (IH (seen ++ [view]) views locators) as (all & Hlen & Hall & Ht); [by apply Hsnoc; left|by apply table_ok_dead|done|].
    exists all. rewrite length_app in Hlen. cbn in Hlen. split; [lia|done].
  - apply reads_bind_Ok in H as (end_ & Hend%reads_lift_Ok & H); [|apply stable_lift|]; cycle 1.
    { intros end_ _. apply stable_bind; [apply stable_lift|]. intros []. apply stable_paint. }
    apply reads_bind_Ok in H as ([] & Hfit%reads_lift_Ok & H); [|apply stable_lift|intros [] _; apply stable_paint].
    apply fail_if_Ok, negb_false_iff, N.leb_le in Hfit. unfold range_end in Hend. apply bind_Ok in Hend as ([] & Hmax%fail_if_Ok & [= <-]).
    destruct (IH (seen ++ [view]) _ _ ltac:(apply Hsnoc; right; intros kind; unfold range_end; by rewrite Hmax)
      (table_ok_paint seen views locators view _ Hdead eq_refl Hfit Htable) H) as (all & Hlen & Hall & Ht).
    exists all. rewrite length_app in Hlen. cbn in Hlen. split; [lia|done].
Qed.

(** The table gives every tree the pack that the scan finds. *)
Definition in_table (built : option (list BinaryTreePackView * list (option nat))) (i : N) : option BinaryTreePackView :=
  match built with Some (views, locators) => located views locators i | None => None end.

Lemma in_file_Ok {X : Type} name size path (k : BinaryFileId -> cached X) layout y : file_path_for fs name = Ok path ->
  (forall file, relative_path file = name -> stable (k file)) -> reads_ (file ← lift (content_record_file name size layout); k file) (Ok y) ->
  exists file, content_record_file name size layout = Ok file /\ relative_path file = name /\ reads_ (k file) (Ok y).
Proof.
  intros Hp Hk H. apply reads_bind_Ok in H as (file & Hf%reads_lift_Ok & H); [|apply stable_lift|].
  - exists file. split; [done|]. split; [by eapply content_file_path|done].
  - intros file Hf%reads_lift_Ok. apply Hk. by eapply content_file_path.
Qed.

Lemma reads_live_views views rest acc rounds : length rest = rounds -> pack_views (views ++ rest) ->
  reads_ (live_pack_views fs rounds (N.of_nat (length views)) acc) (Ok (acc ++ filter (fun view => tree_pack_is_dead view = false) rest)).
Proof.
  revert views acc rest. induction rounds as [|rounds IH]; intros views acc rest Hlen Hall; (destruct rest as [|view rest]; [|try discriminate Hlen]); try discriminate Hlen.
  - rewrite app_nil_r. apply reads_ret.
  - injection Hlen as Hlen. cbn [live_pack_views]. destruct (Hall (length views) view) as [Hread _]; [by rewrite lookup_app_r, Nat.sub_diag by lia|].
    eapply reads_step; [exact Hread|]. replace (N.of_nat (length views) + 1)%N with (N.of_nat (length (views ++ [view]))) by (rewrite length_app; cbn; lia).
    rewrite filter_cons. specialize (IH (views ++ [view]) (if tree_pack_is_dead view then acc else acc ++ [view]) rest Hlen). rewrite <- app_assoc in IH.
    specialize (IH Hall). destruct (tree_pack_is_dead view); [by rewrite decide_False by done|]. rewrite decide_True by done. by rewrite <- app_assoc in IH.
Qed.

Lemma last_holding_filter i views : last_holding i views = last (filter (fun view => holds_tree i view = true) (filter (fun view => tree_pack_is_dead view = false) views)).
Proof.
  induction views as [|view views IH] using rev_ind; [done|]. rewrite last_holding_snoc, IH, (filter_snoc _ views).
  destruct (decide (tree_pack_is_dead view = false)) as [Hlive|Hdead].
  - rewrite filter_snoc. destruct (holds_tree i view); [by rewrite decide_True, last_snoc by done|by rewrite decide_False, app_nil_r by done].
  - assert (holds_tree i view = false) as -> by (unfold holds_tree; by destruct (tree_pack_is_dead view)). by rewrite app_nil_r.
Qed.

Lemma build_table built : reads_ (build_locators fs) (Ok built) ->
  exists all, pack_views all /\ (forall i, in_table built i = last_holding i all) /\
    (forall i, reads_ (tree_pack_view_for_tree_index fs i) (Ok (last_holding i all))) /\
    reads_ (list_tree_pack_views fs) (Ok (filter (fun view => tree_pack_is_dead view = false) all)).
Proof.
  pose proof stable_paint_all as Hpa. pose proof stable_paint as Hp. intros H. unfold build_locators in H. unfold tree_pack_view_for_tree_index.
  apply reads_bind_Ok in H as (layout & Hlayout & H); [|stability|intros; stability].
  destruct layout as [layout|].
  2:{ apply reads_lift_Ok in H as [= <-]. exists []. split; [intros k view Hk; by rewrite lookup_nil in Hk|]. split; [done|].
      split; [intros i|]; (eapply reads_step; [exact Hlayout|apply reads_ret]). }
  apply reads_bind_Ok in H as ([views locators] & H & [= <-]%reads_lift_Ok); [|stability|intros; stability]. cbn [in_table].
  unfold paint_all_packs in H. apply reads_bind_Ok in H as (tree_layout & _ & H); [|stability|intros; stability].
  apply (in_file_Ok _ _ _ _ _ _ Htree) in H as (tree_file & _ & Hf & H); [|intros; stability].
  apply reads_bind_Ok in H as (tree_count & _ & H); [|stability|intros; stability].
  apply (in_file_Ok _ _ _ _ _ _ Hpack) in H as (file & Hfile & Hf' & H); [|intros; stability].
  apply reads_bind_Ok in H as (pack_count & Hcount & H); [|stability|intros; stability].
  destruct (paint_table (N.to_nat pack_count) [] [] (replicate (N.to_nat tree_count) None) views locators) as (all & Hlen & Hall & _ & Hloc); [..|exact H|].
  - intros k view Hk. by rewrite lookup_nil in Hk.
  - apply table_ok_empty.
  - exists all. split; [done|]. split; [done|]. cbn in Hlen.
    split; [intros i|]; (eapply reads_step; [exact Hlayout|]; eapply reads_step; [rewrite Hfile; apply reads_lift|]; eapply reads_step; [exact Hcount|]).
    + rewrite <- Hlen. by apply scan_found.
    + by apply (reads_live_views [] all []).
Qed.

(** ** Where packs are *)

Definition pack_name (hash48 : N) : string := tree_pack_id_from_hash48 hash48 +:+ ZSTD_CHUNKED_PACK_SUFFIX.
Definition pack_directory : PathBuf := join repo_root [Normal ".ait"; Normal "objects"; Normal "tree-packs"].
Definition pack_file (hash48 : N) : PathBuf := pack_directory ++ [Normal (pack_name hash48)].

Lemma segments_name l : Forall (fun b => b <> Byte.x2f) l -> segments (string_of_bytes l) = [string_of_bytes l].
Proof.
  induction 1 as [|b l Hb Hl IH]; [done|].
  change (string_of_bytes (b :: l)) with (String (Ascii.ascii_of_byte b) (string_of_bytes l)). cbn [segments]. rewrite IH.
  rewrite bool_decide_eq_false_2; [done|]. intros Hc. apply Hb.
  rewrite <- (Stdlib.Strings.Ascii.byte_of_ascii_of_byte b), Hc. done.
Qed.

Lemma segments_slash a b : segments a = [a] -> segments (a +:+ String "/"%char b) = a :: segments b.
Proof.
  induction a as [|c a IH]; [done|]. change (String c a +:+ String "/"%char b) with (String c (a +:+ String "/"%char b)). cbn [segments].
  destruct (bool_decide (c = "/"%char)); [intros [=]|]. destruct (segments a) as [|x [|]] eqn:Ha; intros [= H1].
  - by subst.
  - subst x. by rewrite IH.
Qed.

Lemma hex_digits_plain upper k n : Forall (fun b => b <> Byte.x2f) (hex_digits upper k n).
Proof.
  induction k as [|k IH]; cbn [hex_digits]; constructor; [|done]. intros H.
  pose proof (hex_nibble_digit upper (n / 16 ^ N.of_nat k mod 16) ltac:(apply N.mod_lt; lia)) as Hn. by rewrite H in Hn.
Qed.

Lemma pack_name_bytes h : pack_name h = string_of_bytes (bytes_of_string "TPK-" ++ hex_padded 12 h ++ bytes_of_string ZSTD_CHUNKED_PACK_SUFFIX).
Proof.
  transitivity (string_of_bytes (bytes_of_string (pack_name h))); [by rewrite string_of_bytes_of_string|]. f_equal.
  unfold pack_name, tree_pack_id_from_hash48. change ("TPK-" ++ ?x)%string with ("TPK-" +:+ x).
  by rewrite !bytes_of_string_app, bytes_of_string_of_bytes, <- app_assoc.
Qed.

Lemma absolute_pack_file h : absolute_repo_path repo_root (default_tree_pack_relative_path (tree_pack_id_from_hash48 h)) = Ok (pack_file h).
Proof.
  unfold default_tree_pack_relative_path. change (tree_pack_id_from_hash48 h ++ _)%string with (pack_name h).
  assert (segments (pack_name h) = [pack_name h]) as Hseg.
  { rewrite pack_name_bytes. apply segments_name. repeat rewrite Forall_app. split_and!; [|apply hex_digits_plain|]; repeat constructor; discriminate. }
  assert (components (".ait/objects/tree-packs/" ++ pack_name h) = [Normal ".ait"; Normal "objects"; Normal "tree-packs"; Normal (pack_name h)]) as Hc.
  { assert (segments (".ait/objects/tree-packs/" ++ pack_name h) = [".ait"; "objects"; "tree-packs"; pack_name h]%string) as Hs.
    { rewrite <- Hseg. change (".ait/objects/tree-packs/" ++ pack_name h)%string with (".ait" +:+ String "/"%char ("objects" +:+ String "/"%char ("tree-packs" +:+ String "/"%char (pack_name h)))).
      by rewrite !segments_slash. }
    unfold components. rewrite Hs. done. }
  unfold absolute_repo_path. rewrite Hc. cbn [head existsb escapes orb]. rewrite bool_decide_eq_false_2 by done. cbn [fail_if mbind result_bind]. f_equal.
  unfold pack_file, pack_directory, join. destruct repo_root as [|c l]; [done|]. by rewrite <- app_assoc.
Qed.

Lemma concat_snoc sep l x : l <> [] -> String.concat sep (l ++ [x]) = String.concat sep l +:+ (sep +:+ x).
Proof.
  assert (forall a b c : string, (a +:+ b) +:+ c = a +:+ (b +:+ c)) as Hassoc.
  { intros a b c. induction a as [|y a IH]; [done|]. change (String y ((a +:+ b) +:+ c) = String y (a +:+ (b +:+ c))). by rewrite IH. }
  induction l as [|y [|z l] IH]; intros Hne; [done|done|]. change (String.concat sep ((y :: z :: l) ++ [x])) with (y +:+ (sep +:+ String.concat sep ((z :: l) ++ [x]))).
  rewrite IH by done. change (String.concat sep (y :: z :: l)) with (y +:+ (sep +:+ String.concat sep (z :: l))). by rewrite !Hassoc.
Qed.

Lemma pack_directory_cases : exists c l, pack_directory = c :: l.
Proof. unfold pack_directory, join. destruct repo_root; by eexists _, _. Qed.

Lemma path_text_name dir name : dir <> [] -> path_to_str (dir ++ [Normal name]) = String.concat "/" (map component_text dir) +:+ ("/" +:+ name).
Proof.
  intros Hdir. transitivity (String.concat "/" (map component_text (dir ++ [Normal name]))).
  - destruct dir as [|c l]; [done|]. unfold path_to_str. destruct c; [destruct l|..]; done.
  - rewrite map_app. change (map component_text [Normal name]) with [name]. rewrite concat_snoc; [done|]. by destruct dir.
Qed.

(** The key of an archive determines its file. *)
Lemma archive_key_pack h h' : archive_key (pack_file h) TREE_PACK_FORMAT_ZSTD_CHUNKED_V1 = archive_key (pack_file h') TREE_PACK_FORMAT_ZSTD_CHUNKED_V1 ->
  pack_file h = pack_file h'.
Proof.
  assert (pack_directory <> []) as Hdir by (by destruct pack_directory_cases as (c & l & ->)).
  unfold archive_key, pack_file. rewrite !path_text_name by done. intros H%(f_equal bytes_of_string).
  rewrite !bytes_of_string_app in H. apply app_inv_tail, app_inv_head, app_inv_head in H. apply (f_equal string_of_bytes) in H.
  rewrite !string_of_bytes_of_string in H. by rewrite H.
Qed.

(** A view of a pack that [tree_pack_view] makes. *)
Definition pack_view_ok (view : BinaryTreePackView) : Prop := exists index record, tree_pack_view index record = Ok view.

Lemma pack_view_file view : pack_view_ok view -> tpv_pack_format view = TREE_PACK_FORMAT_ZSTD_CHUNKED_V1 /\
  exists h, absolute_repo_path repo_root (tpv_pack_path view) = Ok (pack_file h).
Proof.
  intros (index & record & H). unfold tree_pack_view in H. apply bind_Ok in H as (fmt & Hfmt & H). apply bind_Ok in H as (path & Hpath & [= <-]). cbn.
  assert (fmt = TREE_PACK_FORMAT_ZSTD_CHUNKED_V1) as -> by (unfold tree_pack_format_name in Hfmt; destruct (tree_pack_format record); congruence). split; [done|].
  unfold tree_pack_relative_path in Hpath. rewrite bool_decide_eq_true_2 in Hpath by done. injection Hpath as <-. eexists. apply absolute_pack_file.
Qed.

Lemma last_holding_in i views view : last_holding i views = Some view -> view ∈ views.
Proof.
  induction views as [|v views IH]; cbn; [done|]. destruct (last_holding i views) as [w|]; [intros [= ->]; right; by apply IH|].
  destruct (holds_tree i v); [intros [= ->]; left|done].
Qed.

Lemma in_table_ok built i view : reads_ (build_locators fs) (Ok built) -> in_table built i = Some view -> pack_view_ok view.
Proof.
  intros (all & Hall & Hin & _)%build_table Hi. rewrite Hin in Hi. apply last_holding_in, list_elem_of_lookup in Hi as [k Hk].
  destruct (Hall k view Hk) as [Hread _]. unfold tree_pack_view_at in Hread.
  apply reads_bind_Ok in Hread as (record & _ & Hread%reads_lift_Ok); [by eexists _, record|unfold read_tree_pack_record_at; stability|intros; apply stable_lift].
Qed.

(** ** What a coherent cache holds *)

Context (admission : option N).

Definition stamp_of (path : PathBuf) : result BinaryDbErrorKind (N * option N) :=
  data ← ok_or (d !! path) Other; Ok (N.of_nat (length data), modified (mkIo du d []) path).

(** The payload of a tree, read from its pack without any cache. *)
Definition pack_contents (view : BinaryTreePackView) : result BinaryDbErrorKind bytes :=
  path ← absolute_repo_path repo_root (tpv_pack_path view);
  _ ← (if is_some admission then _ ← stamp_of path; Ok tt else Ok tt);
  file ← ok_or (d !! path) Corruption;
  _ ← map_err (fun _ => Corruption) (open_with_format file (tpv_pack_format view));
  Ok file.
Definition payload_of (i : N) (tree : BinaryTreeRecord) (view : BinaryTreePackView) : result BinaryDbErrorKind JsonValue :=
  _ ← check_tree_locator i tree view;
  file ← pack_contents view;
  payload ← map_err (fun _ => Corruption) (read_zstd_chunked_tree_pack_tree_by_ordinal file (pack_entry_ordinal tree));
  check_payload_of tree payload.
Definition payload_at (i : N) : result BinaryDbErrorKind JsonValue :=
  tree ← fresh (read_tree_record_at fs i);
  built ← fresh (build_locators fs);
  view ← ok_or (in_table built i) Corruption;
  payload_of i tree view.
Definition entries_at (i : N) : result BinaryDbErrorKind (list BinaryTreeEntryView) :=
  payload ← payload_at i; tree_entry_views_from_payload payload.

(** The archive is of [file], whose contents it reads again when it must. *)
Definition opened_on (file : bytes) (o : open_archive) : Prop :=
  archive_of file (mkTreeArchive file (ta_index (oa_archive o)) (ta_cache (oa_archive o))).

Record tree_coherent (c : BinaryDbTreeReadCache) : Prop := {
  tc_budget : admission_budget c = admission;
  tc_table : tree_pack_index_loaded c = true ->
    exists built, reads_ (build_locators fs) (Ok built) /\ forall i, located (tree_pack_views c) (tree_pack_for_tree_index c) i = in_table built i;
  tc_unloaded : tree_pack_index_loaded c = false -> forall i, located (tree_pack_views c) (tree_pack_for_tree_index c) i = None;
  tc_archives : forall key o, archives c !! key = Some o -> exists h file,
    key = archive_key (pack_file h) TREE_PACK_FORMAT_ZSTD_CHUNKED_V1 /\ oa_path o = pack_file h /\ d !! pack_file h = Some file /\ opened_on file o;
  tc_stamps : forall path stamp, admission_stamps c !! path = Some stamp -> stamp_of path = Ok stamp;
  tc_entries : forall i entries, tree_entries c !! i = Some entries -> entries_at i = Ok entries
}.

Lemma fresh_tree_coherent : tree_coherent (with_budget admission).
Proof. split; try done; intros *; cbn; rewrite lookup_empty; done. Qed.

(** Parts of a coherent cache may be forgotten, and what only the budgets see
    may change. *)
Lemma tree_coherent_weaken c c' : tree_coherent c -> admission_budget c' = admission_budget c -> tree_pack_views c' = tree_pack_views c ->
  tree_pack_for_tree_index c' = tree_pack_for_tree_index c -> tree_pack_index_loaded c' = tree_pack_index_loaded c ->
  admission_stamps c' = admission_stamps c -> archives c' ⊆ archives c -> tree_entries c' ⊆ tree_entries c -> tree_coherent c'.
Proof.
  intros [Hb Ht Hu Ha Hs He] Eb Ev El Ell Es Sa Se. split; rewrite ?Eb, ?Ev, ?El, ?Ell, ?Es; try done.
  - intros key o Hk. apply Ha. by eapply lookup_weaken.
  - intros i entries Hi. apply He. by eapply lookup_weaken.
Qed.

(** *** Computations over a coherent cache *)

(** From coherent caches, [m] ends with a result in [Q] and coherent caches. *)
Definition ends {X : Type} (m : treed X) (Q : result BinaryDbErrorKind X -> Prop) : Prop :=
  forall c t, tree_coherent c -> coherent fs d t ->
    exists r c' t', m (c, (t, mkIo du d [])) = (r, (c', (t', mkIo du d []))) /\ Q r /\ tree_coherent c' /\ coherent fs d t'.
Definition gives {X : Type} (m : treed X) (r : result BinaryDbErrorKind X) : Prop := ends m (eq r).

Lemma ends_lift {X : Type} (r : result BinaryDbErrorKind X) (Q : result BinaryDbErrorKind X -> Prop) : Q r -> ends (lift r) Q.
Proof. intros HQ c t Hc Ht. by exists r, c, t. Qed.
Lemma ends_bind {X Y : Type} (m : treed X) (k : X -> treed Y) Q Q' : ends m Q ->
  (forall r, Q r -> match r with Ok x => ends (k x) Q' | Err e => Q' (Err e) end) -> ends (m ≫= k) Q'.
Proof.
  intros Hm Hk c t Hc Ht. destruct (Hm c t Hc Ht) as (r & c1 & t1 & Hrun & HQ & Hc1 & Ht1). specialize (Hk r HQ).
  unfold mbind, stateful_bind. rewrite Hrun. destruct r as [x|e]; [by apply Hk|]. by exists (Err e), c1, t1.
Qed.
Lemma gives_ret {X : Type} (x : X) : gives (mret x) (Ok x).
Proof. intros c t Hc Ht. by exists (Ok x), c, t. Qed.
Lemma gives_lift {X : Type} (r : result BinaryDbErrorKind X) : gives (lift r) r.
Proof. by apply ends_lift. Qed.
Lemma gives_bind {X Y : Type} (m : treed X) (k : X -> treed Y) r (f : X -> result BinaryDbErrorKind Y) : gives m r ->
  (forall x, r = Ok x -> gives (k x) (f x)) -> gives (m ≫= k) (x ← r; f x).
Proof. intros Hm Hk. apply (ends_bind m k (eq r)); [done|]. intros _ <-. destruct r as [x|e]; [by apply Hk|done]. Qed.
Lemma gives_step {X Y : Type} (m : treed X) (k : X -> treed Y) x r : gives m (Ok x) -> gives (k x) r -> gives (m ≫= k) r.
Proof. intros Hm Hk. apply (ends_bind m k (eq (Ok x))); [done|]. by intros _ <-. Qed.
Lemma gives_read {X : Type} (m : cached X) r : reads_ m r -> gives (in_read m) r.
Proof.
  intros Hm c t Hc Ht. destruct (Hm t Ht) as (t' & Hrun & Ht'). exists r, c, t'. unfold in_read. by rewrite Hrun.
Qed.
Lemma ends_cache {Y : Type} (k : BinaryDbTreeReadCache -> treed Y) Q : (forall c, tree_coherent c -> ends (k c) Q) -> ends (c ← tree_cache; k c) Q.
Proof. intros Hk c t Hc Ht. by apply (Hk c). Qed.
Lemma gives_change f : (forall c, tree_coherent c -> tree_coherent (f c)) -> gives (change_cache f) (Ok tt).
Proof. intros Hf c t Hc Ht. exists (Ok tt), (f c), t. split_and!; auto. Qed.
Lemma gives_files : gives current_files (Ok d).
Proof. intros c t Hc Ht. by exists (Ok d), c, t. Qed.
Lemma gives_stamp path : gives (file_stamp path) (stamp_of path).
Proof. intros c t Hc Ht. by exists (stamp_of path), c, t. Qed.

Lemma gives_locate i : gives (tree_pack_view_for_tree_index_with_cache fs i) (built ← fresh (build_locators fs); Ok (in_table built i)).
Proof.
  unfold tree_pack_view_for_tree_index_with_cache. apply ends_cache. intros c Hc. destruct (tree_pack_index_loaded c) eqn:Hl.
  - destruct (tc_table _ Hc Hl) as (built & Hb & Hin). rewrite (reads_fresh _ _ _ _ Hb). cbn [mbind result_bind]. rewrite Hin. apply gives_ret.
  - apply gives_bind; [apply gives_read, stable_reads, stable_build|]. intros built Hb.
    assert (reads_ (build_locators fs) (Ok built)) as Hb' by (rewrite <- Hb; apply stable_reads, stable_build). destruct built as [[views locators]|].
    + eapply gives_step; [|apply gives_ret]. apply gives_change. intros c' [? ? ? ? ? ?]. split; try done. intros _. by exists (Some (views, locators)).
    + eapply gives_step; [|apply gives_ret]. apply gives_change. intros c' Hc'. pose proof Hc' as [? Htab ? ? ? ?]. split; try done. intros _. exists None.
      split; [done|]. cbn [tree_pack_views tree_pack_for_tree_index set_locators in_table]. destruct (tree_pack_index_loaded c') eqn:Hl'; [|by apply (tc_unloaded _ Hc')].
      destruct (Htab eq_refl) as (built & Hb2 & Hin). intros i'. rewrite Hin. apply reads_fresh in Hb2. rewrite Hb in Hb2. injection Hb2 as <-. done.
Qed.

Lemma gives_check_stamp path : gives (check_stamp path) (if is_some admission then _ ← stamp_of path; Ok tt else Ok tt).
Proof.
  unfold check_stamp. apply ends_cache. intros c Hc. rewrite (tc_budget _ Hc). destruct (is_some admission); [|apply gives_ret].
  apply gives_bind; [apply gives_stamp|]. intros stamp Hs. apply (gives_step _ _ tt).
  - unfold require. destruct (admission_stamps c !! path) as [old|] eqn:Hold; [|apply gives_lift].
    rewrite (tc_stamps _ Hc _ _ Hold) in Hs. injection Hs as ->. rewrite bool_decide_eq_true_2 by done. apply gives_lift.
  - apply gives_change. intros c' [? ? ? ? Hst ?]. split; try done. intros p s. cbn. destruct (decide (path = p)) as [<-|Hne].
    + rewrite lookup_insert_eq. by intros [= <-].
    + rewrite lookup_insert_ne by done. apply Hst.
Qed.

Lemma gives_use_archive key : gives (use_archive key) (Ok tt).
Proof.
  unfold use_archive. apply ends_cache. intros c _. destruct (is_some _); [|apply gives_ret].
  eapply gives_step; apply gives_change; intros c' Hc'; by apply (tree_coherent_weaken c').
Qed.
Lemma gives_use_entries i : gives (use_entries i) (Ok tt).
Proof.
  unfold use_entries. apply ends_cache. intros c _. destruct (is_some _); [|apply gives_ret].
  eapply gives_step; apply gives_change; intros c' Hc'; by apply (tree_coherent_weaken c').
Qed.

Lemma gives_keep_archive h file o : d !! pack_file h = Some file -> oa_path o = pack_file h -> opened_on file o ->
  gives (keep_archive (archive_key (pack_file h) TREE_PACK_FORMAT_ZSTD_CHUNKED_V1) o) (Ok tt).
Proof.
  intros Hd Hp Ho. apply gives_change. intros c' [? ? ? Harch ? ?]. split; try done. intros key o'. cbn.
  destruct (decide (archive_key (pack_file h) TREE_PACK_FORMAT_ZSTD_CHUNKED_V1 = key)) as [<-|Hne].
  - rewrite lookup_insert_eq. intros [= <-]. by exists h, file.
  - rewrite lookup_insert_ne by done. apply Harch.
Qed.

(** The file of a pack, and whether it can be opened. *)
Definition opened_file (h : N) : result BinaryDbErrorKind bytes :=
  file ← ok_or (d !! pack_file h) Corruption;
  _ ← map_err (fun _ => Corruption) (open_with_format file TREE_PACK_FORMAT_ZSTD_CHUNKED_V1); Ok file.

Lemma ends_select h : ends (select_archive (pack_file h) TREE_PACK_FORMAT_ZSTD_CHUNKED_V1) (fun r =>
  match opened_file h with
  | Ok file => exists o, r = Ok o /\ d !! pack_file h = Some file /\ oa_path o = pack_file h /\ opened_on file o
  | Err e => r = Err e
  end).
Proof.
  unfold select_archive. apply ends_cache. intros c Hc. unfold opened_file.
  destruct (archives c !! archive_key (pack_file h) TREE_PACK_FORMAT_ZSTD_CHUNKED_V1) as [o|] eqn:Ho.
  - destruct (tc_archives _ Hc _ _ Ho) as (h' & file & Hkey & Hp & Hd & Hopen). apply archive_key_pack in Hkey. rewrite <- Hkey in Hp, Hd.
    rewrite Hd. cbn [ok_or mbind result_bind]. unfold open_with_format. rewrite (proj1 (proj2 Hopen)). cbn [mbind result_bind map_err].
    apply ends_lift. by exists o.
  - eapply ends_bind; [apply gives_files|]. intros _ <-. destruct (d !! pack_file h) as [file|] eqn:Hd; cbn [ok_or mbind result_bind]; [|by apply (ends_bind _ _ (eq (Err Corruption))); [apply gives_lift|intros _ <-]].
    eapply ends_bind; [apply gives_lift|]. intros _ <-. eapply ends_bind; [apply gives_lift|]. intros _ <-.
    destruct (open_with_format file TREE_PACK_FORMAT_ZSTD_CHUNKED_V1) as [archive|e] eqn:Hopen; cbn [map_err mbind result_bind]; [|done].
    unfold open_with_format in Hopen. apply bind_Ok in Hopen as (kind & _ & Hopen). apply bind_Ok in Hopen as (index & Hindex' & [= <-]).
    assert (opened_on file (mkOpenArchive (pack_file h) (mkTreeArchive file index ∅))) as Hok.
    { split_and!; [done|done|]. intros k raw Hk. cbn in Hk. by rewrite lookup_empty in Hk. }
    eapply ends_bind; [by apply (gives_keep_archive h file)|]. intros _ <-. apply ends_lift. by eexists.
Qed.

Lemma gives_read_open h file o ordinal : d !! pack_file h = Some file -> oa_path o = pack_file h -> opened_on file o ->
  gives (read_open_archive (archive_key (pack_file h) TREE_PACK_FORMAT_ZSTD_CHUNKED_V1) o ordinal)
    (map_err (fun _ => Corruption) (read_zstd_chunked_tree_pack_tree_by_ordinal file ordinal)).
Proof.
  intros Hd Hp Ho. unfold read_open_archive. eapply gives_step; [apply gives_files|]. rewrite Hp, Hd. unfold read_archive. cbn [is_some orb default from_option id].
  destruct (tree_answer_direct file _ (ByOrdinal ordinal) Ho) as [Hr Ha]. cbn [tree_answer read_directly] in Hr, Ha.
  destruct (read_tree_by_ordinal (mkTreeArchive file _ _) ordinal) as [archive r]. cbn [fst snd] in Hr, Ha. subst r.
  eapply gives_step; [|apply gives_lift]. apply (gives_keep_archive h file); [done|done|]. destruct Ha as (Hf & Hi & Hch). by split_and!.
Qed.

Lemma coherent_evict_archives fuel budget c : tree_coherent c -> tree_coherent (evict_archives fuel budget c).
Proof.
  revert c. induction fuel as [|fuel IH]; intros c Hc; cbn [evict_archives]; [by destruct (_ <? _)%N|].
  destruct (_ <? _)%N; [|done]. destruct (least None _) as [key|]; [|done]. apply IH, (tree_coherent_weaken c); try done. apply delete_subseteq.
Qed.
Lemma coherent_trim c : tree_coherent c -> tree_coherent (trim_archives c).
Proof. intros Hc. unfold trim_archives. destruct (admission_budget c); [by apply coherent_evict_archives|done]. Qed.
Lemma coherent_evict_entries fuel bytes budget c : tree_coherent c -> tree_coherent (evict_entries fuel bytes budget c).
Proof.
  revert c. induction fuel as [|fuel IH]; intros c Hc; cbn [evict_entries]; [by destruct (_ <? _)%N|].
  destruct (_ <? _)%N; [|done]. destruct (least None _) as [index|]; [|done]. apply IH, (tree_coherent_weaken c); try done. apply delete_subseteq.
Qed.

Lemma gives_payload_for i tree view : pack_view_ok view -> gives (read_tree_pack_payload_for_record repo_root i tree view) (payload_of i tree view).
Proof.
  intros [Hfmt [h Hfile]]%pack_view_file. unfold read_tree_pack_payload_for_record, payload_of.
  apply gives_bind; [apply gives_lift|]. intros [] _. unfold pack_contents. rewrite Hfile, Hfmt.
  eapply gives_step; [apply gives_lift|]. cbn [mbind result_bind].
  eapply ends_bind; [apply gives_check_stamp|]. intros _ <-. destruct (if is_some admission then _ else _) as [[]|e]; cbn [mbind result_bind]; [|done].
  eapply gives_step; [apply gives_use_archive|]. eapply ends_bind; [apply ends_select|]. intros r Hr. cbn beta in Hr.
  change (file ← ok_or (d !! pack_file h) Corruption; _ ← _; Ok file) with (opened_file h). destruct (opened_file h) as [file|e]; [|by subst r].
  destruct Hr as (o & -> & Hd & Hp & Ho). cbn [mbind result_bind]. apply gives_bind; [by apply gives_read_open|]. intros payload _.
  eapply gives_step; [|apply gives_lift]. apply gives_change. apply coherent_trim.
Qed.

Lemma gives_payload i : gives (read_tree_pack_payload_at fs repo_root i) (payload_at i).
Proof.
  unfold read_tree_pack_payload_at, payload_at. apply gives_bind; [apply gives_read, stable_reads, stable_tree_record|]. intros tree _.
  eapply ends_bind; [apply gives_locate|]. intros _ <-. destruct (fresh (build_locators fs)) as [built|e] eqn:Hb; cbn [mbind result_bind]; [|done].
  apply gives_bind; [apply gives_lift|]. intros view Hview. apply gives_payload_for.
  apply (in_table_ok built i); [rewrite <- Hb; apply stable_reads, stable_build|]. by destruct (in_table built i); [injection Hview as ->|].
Qed.

Lemma gives_entries i : gives (list_tree_entry_views_at fs repo_root i) (entries_at i).
Proof.
  unfold list_tree_entry_views_at. apply ends_cache. intros c Hc. destruct (tree_entries c !! i) as [entries|] eqn:He.
  - rewrite (tc_entries _ Hc _ _ He). eapply gives_step; [apply gives_use_entries|apply gives_ret].
  - unfold entries_at. destruct (payload_at i) as [payload|e] eqn:Hpay; cbn [mbind result_bind].
    2:{ apply (ends_bind _ _ (eq (Err e))); [rewrite <- Hpay; apply gives_payload|]. by intros _ <-. }
    apply (ends_bind _ _ (eq (Ok payload))); [rewrite <- Hpay; apply gives_payload|]. intros _ <-. eapply ends_bind; [apply gives_lift|]. intros _ <-.
    destruct (tree_entry_views_from_payload payload) as [entries|e] eqn:Hviews; [|done].
    assert (entries_at i = Ok entries) as Hok by (unfold entries_at; by rewrite Hpay).
    eapply gives_step; [|apply gives_ret]. unfold remember_entries. apply ends_cache. intros c1 _.
    assert (gives (change_cache (fun c => set_entries (<[i := entries]> (tree_entries c)) (saturating_add (entry_bytes c) (entries_size entries)) (entry_sizes c) (entry_used c) c)) (Ok tt)) as Hkeep.
    { apply gives_change. intros c' [? ? ? ? ? Hents]. split; try done. intros j es. cbn. destruct (decide (i = j)) as [<-|Hne].
      - rewrite lookup_insert_eq. by intros [= <-].
      - rewrite lookup_insert_ne by done. apply Hents. }
    destruct (admission_budget c1) as [budget|]; [|exact Hkeep]. destruct (_ <? _)%N; [apply gives_ret|].
    eapply gives_step; [apply gives_change; intros c2 Hc2; by apply coherent_evict_entries|]. eapply gives_step; [apply gives_use_entries|].
    eapply gives_step; [|exact Hkeep]. apply gives_change. intros c' Hc'. by apply (tree_coherent_weaken c').
Qed.

(** ** Views of trees *)

Definition view_at (i : N) : result BinaryDbErrorKind BinaryTreeView :=
  record ← fresh (read_tree_record_at fs i);
  built ← fresh (build_locators fs);
  Ok (tree_view i record (in_table built i)).
Fixpoint first_view (tree_id : string) (candidates : list N) : result BinaryDbErrorKind (option BinaryTreeView) :=
  match candidates with
  | [] => Ok None
  | i :: candidates => view ← view_at i; if names_tree tree_id view then Ok (Some view) else first_view tree_id candidates
  end.
Definition view_of (tree_id : string) : result BinaryDbErrorKind (option BinaryTreeView) :=
  candidates ← fresh (tree_candidates fs tree_id); first_view tree_id candidates.

Lemma gives_view_at i : gives (tree_view_at_with_cache fs i) (view_at i).
Proof.
  unfold tree_view_at_with_cache, view_at. apply gives_bind; [apply gives_read, stable_reads, stable_tree_record|]. intros record _.
  eapply ends_bind; [apply gives_locate|]. intros _ <-. destruct (fresh (build_locators fs)); [apply gives_ret|done].
Qed.

Lemma gives_view_of tree_id : gives (get_tree_view_by_id_with_cache fs tree_id) (view_of tree_id).
Proof.
  unfold get_tree_view_by_id_with_cache, view_of. apply gives_bind; [apply gives_read, stable_reads, stable_tree_candidates|]. intros candidates _.
  induction candidates as [|i candidates IH]; cbn [first_tree first_view]; [apply gives_ret|].
  apply gives_bind; [apply gives_view_at|]. intros view _. destruct (names_tree tree_id view); [apply gives_ret|done].
Qed.
End Reads.

(** ** Sessions *)

(** What a caller may do with one cache. *)
Inductive tree_query : Type :=
| ViewAt (tree_index : N)
| ViewOf (tree_id : string)
| EntriesAt (tree_index : N)
| EntriesOf (tree_id : string)
| RequiredEntriesOf (tree_id : string)
| PayloadAt (tree_index : N)
| ClearEntries
| ClearArchives.
Inductive query_result : Type :=
| ResultView (view : BinaryTreeView)
| ResultFound (view : option BinaryTreeView)
| ResultEntries (entries : list BinaryTreeEntryView)
| ResultPayload (payload : JsonValue)
| ResultDone.

Section Session.
Context {P : PackPrimitives} {A : Allocation} {T : FileTimes} (fs : LocalBinaryDbFs) (repo_root : PathBuf).

Definition ask (query : tree_query) : treed query_result :=
  match query with
  | ViewAt i => view ← tree_view_at_with_cache fs i; mret (ResultView view)
  | ViewOf tree_id => view ← get_tree_view_by_id_with_cache fs tree_id; mret (ResultFound view)
  | EntriesAt i => entries ← list_tree_entry_views_at fs repo_root i; mret (ResultEntries entries)
  | EntriesOf tree_id => entries ← list_tree_entry_views_with_cache fs repo_root tree_id; mret (ResultEntries entries)
  | RequiredEntriesOf tree_id => entries ← required_tree_entries_with_cache fs repo_root tree_id; mret (ResultEntries entries)
  | PayloadAt i => payload ← read_tree_pack_payload_at fs repo_root i; mret (ResultPayload payload)
  | ClearEntries => _ ← change_cache clear_tree_entries; mret ResultDone
  | ClearArchives => _ ← change_cache clear_archives; mret ResultDone
  end.

(** A caller that goes on after an error. *)
Fixpoint cache_session (queries : list tree_query) (s : BinaryDbTreeReadCache * (BinaryDbReadCache * io_state)) : list (result BinaryDbErrorKind query_result) :=
  match queries with
  | [] => []
  | query :: queries => let '(r, s) := ask query s in r :: cache_session queries s
  end.

Context {du : gmap PathBuf bytes} (d : gmap PathBuf bytes) (tree_path pack_path index_path : PathBuf).
Context (Htree : file_path_for fs TREE_BIN = Ok tree_path) (Hpack : file_path_for fs TREE_PACK_BIN = Ok pack_path).
Context (Hindex : file_path_for fs TREE_ID_IDX = Ok index_path).

Definition entries_of (admission : option N) (tree_id : string) (absent : result BinaryDbErrorKind (list BinaryTreeEntryView))
  : result BinaryDbErrorKind (list BinaryTreeEntryView) :=
  view ← view_of fs (du := du) d tree_id;
  match view with None => absent | Some view => entries_at fs repo_root (du := du) d admission (tv_tree_index view) end.
Definition answer_of (admission : option N) (query : tree_query) : result BinaryDbErrorKind query_result :=
  match query with
  | ViewAt i => view ← view_at fs (du := du) d i; Ok (ResultView view)
  | ViewOf tree_id => view ← view_of fs (du := du) d tree_id; Ok (ResultFound view)
  | EntriesAt i => entries ← entries_at fs repo_root (du := du) d admission i; Ok (ResultEntries entries)
  | EntriesOf tree_id => entries ← entries_of admission tree_id (Ok []); Ok (ResultEntries entries)
  | RequiredEntriesOf tree_id => entries ← entries_of admission tree_id (Err MissingData); Ok (ResultEntries entries)
  | PayloadAt i => payload ← payload_at fs repo_root (du := du) d admission i; Ok (ResultPayload payload)
  | ClearEntries | ClearArchives => Ok ResultDone
  end.

Lemma gives_required_entries admission tree_id : gives fs repo_root (du := du) d admission (required_tree_entries_with_cache fs repo_root tree_id)
  (entries_of admission tree_id (Err MissingData)).
Proof.
  unfold required_tree_entries_with_cache, entries_of. apply gives_bind; [by eapply gives_view_of|].
  intros view _. eapply ends_bind; [apply gives_lift|]. intros _ <-. destruct view as [view|]; [by eapply gives_entries|done].
Qed.

Lemma gives_ask admission query : gives fs repo_root (du := du) d admission (ask query) (answer_of admission query).
Proof.
  destruct query as [i|tree_id|i|tree_id|tree_id|i| |]; cbn [ask answer_of].
  - apply gives_bind; [by eapply gives_view_at|]. intros; apply gives_ret.
  - apply gives_bind; [by eapply gives_view_of|]. intros; apply gives_ret.
  - apply gives_bind; [by eapply gives_entries|]. intros; apply gives_ret.
  - apply gives_bind; [|intros; apply gives_ret]. unfold list_tree_entry_views_with_cache, entries_of. apply gives_bind; [by eapply gives_view_of|].
    intros [view|] _; [by eapply gives_entries|apply gives_ret].
  - apply gives_bind; [apply gives_required_entries|]. intros; apply gives_ret.
  - apply gives_bind; [by eapply gives_payload|]. intros; apply gives_ret.
  - eapply gives_step; [|apply gives_ret]. apply gives_change. intros c Hc. apply (tree_coherent_weaken _ _ _ _ c); try done. apply map_empty_subseteq.
  - eapply gives_step; [|apply gives_ret]. apply gives_change. intros c Hc. apply (tree_coherent_weaken _ _ _ _ c); try done. apply map_empty_subseteq.
Qed.

Lemma session_answers admission queries c t : tree_coherent fs repo_root (du := du) d admission c -> coherent fs d t ->
  cache_session queries (c, (t, mkIo du d [])) = map (answer_of admission) queries.
Proof.
  revert c t. induction queries as [|query queries IH]; intros c t Hc Ht; [done|]. cbn [cache_session map].
  destruct (gives_ask admission query c t Hc Ht) as (r & c' & t' & Hrun & <- & Hc' & Ht'). rewrite Hrun. by rewrite IH.
Qed.

Lemma pack_contents_budget admission admission' view file :
  pack_contents repo_root (du := du) d admission view = Ok file -> pack_contents repo_root (du := du) d admission' view = Ok file.
Proof.
  unfold pack_contents. intros H. apply bind_Ok in H as (path & -> & H). apply bind_Ok in H as ([] & _ & H). cbn [mbind result_bind].
  apply bind_Ok in H as (data & Hd & H). unfold stamp_of. destruct (d !! path) as [x|]; [|done]. cbn in Hd. injection Hd as ->.
  destruct (is_some admission'); exact H.
Qed.
Lemma payload_budget admission admission' i payload :
  payload_at fs repo_root (du := du) d admission i = Ok payload -> payload_at fs repo_root (du := du) d admission' i = Ok payload.
Proof.
  unfold payload_at. intros H. apply bind_Ok in H as (tree & -> & H). apply bind_Ok in H as (built & -> & H). apply bind_Ok in H as (view & Hv & H).
  cbn [mbind result_bind]. rewrite Hv. cbn [mbind result_bind]. unfold payload_of in *. apply bind_Ok in H as ([] & -> & H).
  apply bind_Ok in H as (file & Hf & H). cbn [mbind result_bind]. by rewrite (pack_contents_budget admission admission' view file Hf).
Qed.
Lemma entries_budget admission admission' i entries :
  entries_at fs repo_root (du := du) d admission i = Ok entries -> entries_at fs repo_root (du := du) d admission' i = Ok entries.
Proof.
  unfold entries_at. intros (payload & Hp & H)%bind_Ok. by rewrite (payload_budget admission admission' i payload Hp).
Qed.
Lemma answer_budget admission admission' query answer : answer_of admission query = Ok answer -> answer_of admission' query = Ok answer.
Proof.
  assert (forall tree_id absent entries, entries_of admission tree_id absent = Ok entries -> entries_of admission' tree_id absent = Ok entries) as Hof.
  { intros tree_id absent entries. unfold entries_of. intros ([view|] & -> & H)%bind_Ok; cbn [mbind result_bind]; [by eapply entries_budget|done]. }
  destruct query as [i|tree_id|i|tree_id|tree_id|i| |]; cbn [answer_of]; try done; intros (x & Hx & H)%bind_Ok.
  - by rewrite (entries_budget admission admission' i x Hx).
  - by rewrite (Hof _ _ _ Hx).
  - by rewrite (Hof _ _ _ Hx).
  - by rewrite (payload_budget admission admission' i x Hx).
Qed.

(** C28. What a reader of trees remembers is not observable. Whatever is asked of
    one cache, in whatever order, with errors and evictions in between - views,
    entries and payloads of trees - the answers are those of readers that start
    with an empty cache and a new transaction for every question; and an answer
    without an error is the same whatever memory the reader may use. *)
Theorem tree_cache_transparent admission queries :
  cache_session queries (with_budget admission, (empty_cache, mkIo du d [])) =
    map (fun query => fst (ask query (with_budget admission, (empty_cache, mkIo du d [])))) queries /\
  (forall admission' query answer, fst (ask query (with_budget admission, (empty_cache, mkIo du d []))) = Ok answer ->
    fst (ask query (with_budget admission', (empty_cache, mkIo du d []))) = Ok answer).
Proof.
  assert (forall b query, fst (ask query (with_budget b, (empty_cache, mkIo du d []))) = answer_of b query) as Hask.
  { intros b query. destruct (gives_ask b query _ _ (fresh_tree_coherent fs repo_root d b) (empty_coherent fs d)) as (r & c' & t' & Hrun & <- & _). by rewrite Hrun. }
  split.
  - rewrite (session_answers admission) by (apply fresh_tree_coherent || apply empty_coherent). apply map_ext. intros query. by rewrite Hask.
  - intros admission' query answer. rewrite !Hask. apply answer_budget.
Qed.


(** C30. The table of packs finds what the scan finds. When a reader with an empty
    cache finds the pack of a tree, or finds that it has none, through the
    table, then the scan of all packs finds the same; and this is the last of the
    live packs whose range holds the tree. (The table also refuses files with
    a broken pack anywhere, where the scan stops at the first match.) *)
Theorem tree_locator_agrees admission i found :
  fst (tree_pack_view_for_tree_index_with_cache fs i (with_budget admission, (empty_cache, mkIo du d []))) = Ok found ->
  fst (tree_pack_view_for_tree_index fs i (empty_cache, mkIo du d [])) = Ok found /\
  exists views, fst (list_tree_pack_views fs (empty_cache, mkIo du d [])) = Ok views /\
    found = last (filter (fun view => first_tree_index (tpv_record view) <= i < first_tree_index (tpv_record view) + tree_count (tpv_record view))%N views).
Proof.
  destruct (gives_locate fs repo_root d tree_path pack_path Htree Hpack admission i _ _ (fresh_tree_coherent fs repo_root (du := du) d admission) (empty_coherent fs d))
    as (r & c' & t' & -> & <- & _). cbn [fst]. intros (built & Hb & [= <-])%bind_Ok.
  assert (reads fs (du := du) d (build_locators fs) (Ok built)) as Hb' by (rewrite <- Hb; apply stable_reads; by eapply stable_build).
  destruct (build_table fs d tree_path pack_path Htree Hpack built Hb') as (all & _ & Hin & Hscan & Hlist). rewrite Hin. split.
  - exact (reads_fresh _ _ _ _ (Hscan i)).
  - eexists. split; [exact (reads_fresh _ _ _ _ Hlist)|]. rewrite last_holding_filter. f_equal. apply list_filter_ext_in.
    intros view [Hlive _]%list_elem_of_filter. unfold holds_tree. rewrite Hlive. cbn [negb andb]. rewrite andb_true_iff, N.leb_le, N.ltb_lt. done.
Qed.
End Session.

(** ** An example *)

(** Three trees; the pack of the first two was replaced by one of the last two. *)
Definition example_fs : LocalBinaryDbFs := mkDb [RootDir] None None None.
Definition example_pack (hash first count : N) : BinaryTreePackRecord := mkTreePackRecord META_READY 1 0 hash first count 0 0.
Definition example_tree_record (b : Byte.byte) (ordinal entries : N) : BinaryTreeRecord := mkTreeRecord 0 0 ordinal entries (replicate 10 b).
Definition encoded_table (rows : list (result content_error bytes)) : bytes :=
  to_le_bytes 4 1 ++ concat (map (fun row => match row with Ok row => row | Err _ => [] end) rows).
Definition example_disk : gmap PathBuf bytes :=
  <[[RootDir; Normal "tree.bin"] := encoded_table (map (encode_tree_record 1) [example_tree_record Byte.x0a 0 0; example_tree_record Byte.x0b 1 0; example_tree_record Byte.x0c 1 0])]>
  (<[[RootDir; Normal "tree_pack.bin"] := encoded_table (map (encode_tree_pack_record 1) [example_pack 7 0 2; example_pack 8 1 2])]> ∅).

Definition toy_allocation : Allocation := {|
  str_capacity := fun s => N.of_nat (String.length s); bytes_capacity := fun data => N.of_nat (length data);
  chunks_capacity := fun chunks => N.of_nat (length chunks); members_capacity := fun members => N.of_nat (length members);
  size_of_archive := 192; size_of_chunk_index := 56; size_of_member_index := 240; size_of_entry_view := 120 |}%N.
Definition toy_times : FileTimes := {| modified := fun _ _ => None |}.

Lemma tree_locator_agrees_witness : exists view, tpv_pack_id view = "TPK-000000000008"%string /\
  fst (tree_pack_view_for_tree_index_with_cache example_fs 1 (with_budget None, (empty_cache, mkIo ∅ example_disk []))) = Ok (Some view) /\
  fst (tree_pack_view_for_tree_index example_fs 1 (empty_cache, mkIo ∅ example_disk [])) = Ok (Some view).
Proof.
  assert (exists view, fst (tree_pack_view_for_tree_index_with_cache example_fs 1 (with_budget None, (empty_cache, mkIo ∅ example_disk []))) = Ok (Some view) /\
    tpv_pack_id view = "TPK-000000000008"%string) as (view & H & Hid) by (eexists; split; vm_compute; reflexivity).
  exists view. split; [exact Hid|]. split; [exact H|].
  exact (proj1 (tree_locator_agrees (P := toy_primitives) example_fs [RootDir] (T := toy_times) (du := ∅) example_disk _ _ eq_refl eq_refl None 1 (Some view) H)).
Defined.

Lemma tree_cache_transparent_witness :
  cache_session (P := toy_primitives) (A := toy_allocation) (T := toy_times) example_fs [RootDir] [ViewAt 2; PayloadAt 2; ViewOf "TRE-0B0B0B0B0B0B0B0B0B0B"; ClearArchives; ViewAt 5]
      (with_budget None, (empty_cache, mkIo ∅ example_disk [])) =
    map (fun query => fst (ask (P := toy_primitives) (A := toy_allocation) (T := toy_times) example_fs [RootDir] query (with_budget None, (empty_cache, mkIo ∅ example_disk []))))
      [ViewAt 2; PayloadAt 2; ViewOf "TRE-0B0B0B0B0B0B0B0B0B0B"; ClearArchives; ViewAt 5].
Proof.
  exact (proj1 (tree_cache_transparent (P := toy_primitives) (A := toy_allocation) (T := toy_times) example_fs [RootDir] (du := ∅) example_disk _ _ _ eq_refl eq_refl eq_refl
    None [ViewAt 2; PayloadAt 2; ViewOf "TRE-0B0B0B0B0B0B0B0B0B0B"; ClearArchives; ViewAt 5])).
Defined.
