(* ===== verification/TreeCache.v ===== *)
(** * The memory of a reader of trees

    A cache of [TreeStore] with an admission budget keeps its accounts, and
    keeps within the budget, whatever is asked of it and whatever the files hold. *)

From Stdlib Require Import NArith Lia.
From Stdlib Require Strings.Byte.
From stdpp Require Import base numbers strings gmap fin_maps list sorting.
From S2P Require Import Prelude Codec FileStore BinaryDb BinaryIndex ReadTxn WriteTxn ContentCodec ContentIds ContentStore.
From S2P Require Import Json ChunkLayout PackIndex PackContainer TreePack TreeStore TreeReads.

(** ** Sums over maps *)

Lemma sum_of_perm {X : Type} (f : X -> N) (l l' : list X) : l ≡ₚ l' -> sum_of f l = sum_of f l'.
Proof. unfold sum_of. induction 1; cbn; lia. Qed.

Definition total (sizes : gmap N N) : N := sum_of snd (map_to_list sizes).

Lemma total_insert sizes k n : sizes !! k = None -> total (<[k := n]> sizes) = (n + total sizes)%N.
Proof. intros Hk. unfold total. by rewrite (sum_of_perm _ _ _ (map_to_list_insert sizes k n Hk)). Qed.
Lemma total_delete sizes k n : sizes !! k = Some n -> total sizes = (n + total (delete k sizes))%N.
Proof. intros Hk. unfold total. by rewrite <- (sum_of_perm _ _ _ (map_to_list_delete sizes k n Hk)). Qed.

(** ** The least recently used key *)

Lemma least_in {K : Type} (best : option (K * N)) items key : least best items = Some key -> fst <$> best = Some key \/ exists used, (key, used) ∈ items.
Proof.
  revert best. induction items as [|[k u] items IH]; intros best H; cbn [least] in H; [by left|].
  destruct best as [[k0 u0]|]; [destruct (u <? u0)%N|]; apply IH in H as [H|[used H]]; cbn in *; simplify_eq;
    try (by right; eexists; left); try (by right; eexists; right); by left.
Qed.
Lemma least_None {K : Type} (best : option (K * N)) items : least best items = None -> items = [].
Proof.
  revert best. induction items as [|[k u] items IH]; intros best H; [done|]. exfalso. cbn [least] in H.
  assert (forall l (b : K * N), least (Some b) l <> None) as Hsome.
  { clear. induction l as [|[k u] l IH]; intros [k0 u0]; cbn [least]; [done|]. destruct (u <? u0)%N; apply IH. }
  destruct best as [[k0 u0]|]; [destruct (u <? u0)%N|]; by eapply Hsome.
Qed.

Lemma index_items_in m k u : (k, u) ∈ index_items m -> m !! k = Some u.
Proof. unfold index_items. intros (k' & Hk & Hu)%list_elem_of_omap. destruct (m !! k') eqn:E; naive_solver. Qed.
Lemma index_items_nil m : index_items m = [] -> m = ∅.
Proof.
  intros H. apply map_empty. intros k. destruct (m !! k) as [u|] eqn:Hk; [|done]. exfalso.
  assert ((k, u) ∈ index_items m) as Hin; [|by rewrite H in Hin; apply elem_of_nil in Hin].
  unfold index_items. apply list_elem_of_omap. exists k. rewrite Hk. split; [|done].
  rewrite (merge_sort_Permutation N.le (elements (dom m))). apply elem_of_elements, elem_of_dom. by exists u.
Qed.

Lemma least_index m : match least None (index_items m) with Some k => is_Some (m !! k) | None => m = ∅ end.
Proof.
  destruct (least None (index_items m)) as [k|] eqn:Hl; [|by apply least_None, index_items_nil in Hl].
  apply least_in in Hl as [[=]|[u Hu%index_items_in]]. by exists u.
Qed.
Lemma least_key (m : gmap string N) : match least None (sorted_entries m) with Some k => is_Some (m !! k) | None => m = ∅ end.
Proof.
  destruct (least None (sorted_entries m)) as [k|] eqn:Hl.
  - apply least_in in Hl as [[=]|[u Hu%elem_of_sorted_entries]]. by exists u.
  - apply least_None in Hl. apply map_empty. intros k. destruct (m !! k) as [u|] eqn:Hk; [|done]. exfalso.
    apply elem_of_sorted_entries in Hk. rewrite Hl in Hk. by apply elem_of_nil in Hk.
Qed.

Section Cache.
Context {P : PackPrimitives} {A : Allocation} {T : FileTimes} (fs : LocalBinaryDbFs) (repo_root : PathBuf) (budget : N).
Context (Hbudget : (budget < usize_max)%N).

(** ** The invariant *)

(** The accounts of the entries: a size and a time of use for every remembered
    list, and their sum, which is within the budget; every open archive has a
    time of use. *)
Record within (c : BinaryDbTreeReadCache) : Prop := {
  wi_budget : admission_budget c = Some budget;
  wi_sizes : entry_sizes c = entries_size <$> tree_entries c;
  wi_used : dom (entry_used c) = dom (tree_entries c);
  wi_bytes : entry_bytes c = total (entry_sizes c);
  wi_bounded : (entry_bytes c <= budget)%N;
  wi_archives : dom (archives c) ⊆ dom (archive_used c)
}.

Lemma within_fresh : within (with_budget (Some budget)).
Proof.
  split; cbn; try done. apply N.le_0_l.
Qed.

(** *** Eviction *)

Lemma evict_entries_within fuel bytes c : within c -> size (entry_used c) <= fuel -> (bytes <= budget)%N ->
  within (evict_entries fuel bytes budget c) /\ (entry_bytes (evict_entries fuel bytes budget c) + bytes <= budget)%N /\
  tree_entries (evict_entries fuel bytes budget c) ⊆ tree_entries c.
Proof.
  revert c. induction fuel as [|fuel IH]; intros c Hc Hfuel Hbytes; cbn [evict_entries]; pose proof (wi_bounded _ Hc) as Hb;
    (destruct (N.ltb_spec budget (saturating_add (entry_bytes c) bytes)) as [Hlt|Hle]; [|split; [done|]; split; [unfold saturating_add in Hle; lia|done]]).
  - exfalso. assert (entry_used c = ∅) as Hu by (by apply map_size_empty_inv; lia).
    assert (entry_bytes c = 0%N) as Hz; [|unfold saturating_add in Hlt; lia].
    rewrite (wi_bytes _ Hc), (wi_sizes _ Hc). pose proof (wi_used _ Hc) as Hd. rewrite Hu, dom_empty_L in Hd.
    symmetry in Hd. apply dom_empty_inv_L in Hd. by rewrite Hd, fmap_empty.
  - pose proof (least_index (entry_used c)) as Hl. destruct (least None (index_items (entry_used c))) as [i|].
    + destruct Hl as [u Hu]. assert (i ∈ dom (tree_entries c)) as Hi by (rewrite <- (wi_used _ Hc); by apply elem_of_dom_2 in Hu).
      apply elem_of_dom in Hi as [es Hes]. assert (entry_sizes c !! i = Some (entries_size es)) as Hsz by (by rewrite (wi_sizes _ Hc), lookup_fmap, Hes).
      pose proof (total_delete _ _ _ Hsz) as Htot. rewrite Hsz. cbn [default from_option id].
      destruct (IH (set_entries (delete i (tree_entries c)) (entry_bytes c - entries_size es) (delete i (entry_sizes c)) (delete i (entry_used c)) c)) as (H1 & H2 & H3).
      * destruct Hc as [Hadm Hs Hd Hby Hle Ha]. split; cbn; [done| | | | |done].
        -- by rewrite Hs, fmap_delete.
        -- by rewrite !dom_delete_L, Hd.
        -- rewrite Hby. lia.
        -- lia.
      * cbn. rewrite map_size_delete_Some by by eexists. lia.
      * done.
      * split; [done|]. split; [done|]. etrans; [exact H3|]. apply delete_subseteq.
    + exfalso. assert (entry_bytes c = 0%N) as Hz; [|unfold saturating_add in Hlt; lia].
      rewrite (wi_bytes _ Hc), (wi_sizes _ Hc). pose proof (wi_used _ Hc) as Hd. rewrite Hl, dom_empty_L in Hd.
      symmetry in Hd. apply dom_empty_inv_L in Hd. by rewrite Hd, fmap_empty.
Qed.

Lemma evict_archives_within fuel c : dom (archives c) ⊆ dom (archive_used c) -> size (archive_used c) <= fuel ->
  (retained_archive_bytes (evict_archives fuel budget c) <= budget)%N.
Proof.
  assert (forall c, dom (archives c) ⊆ dom (archive_used c) -> archive_used c = ∅ -> retained_archive_bytes c = 0%N) as Hempty.
  { intros c' Ha Hu. rewrite Hu in Ha. assert (archives c' = ∅) as Hz by (apply dom_empty_inv_L; set_solver). unfold retained_archive_bytes. rewrite Hz. by rewrite map_to_list_empty. }
  revert c. induction fuel as [|fuel IH]; intros c Ha Hfuel; cbn [evict_archives]; (destruct (N.ltb_spec budget (retained_archive_bytes c)) as [Hlt|Hle]; [|done]).
  - rewrite Hempty; [lia|done|]. apply map_size_empty_inv. lia.
  - pose proof (least_key (archive_used c)) as Hl. destruct (least None (sorted_entries (archive_used c))) as [key|]; [|rewrite Hempty by done; lia].
    apply IH; cbn; [rewrite !dom_delete_L; set_solver|]. rewrite map_size_delete_Some by done. lia.
Qed.

(** *** What reading a payload leaves alone *)

Local Abbreviation cache_state := (BinaryDbTreeReadCache * (BinaryDbReadCache * io_state))%type.
Definition same_entries (s s' : cache_state) : Prop :=
  admission_budget (fst s') = admission_budget (fst s) /\ tree_entries (fst s') = tree_entries (fst s) /\ entry_sizes (fst s') = entry_sizes (fst s) /\
  entry_used (fst s') = entry_used (fst s) /\ entry_bytes (fst s') = entry_bytes (fst s) /\
  (admission_budget (fst s) = Some budget -> dom (archives (fst s)) ⊆ dom (archive_used (fst s)) -> dom (archives (fst s')) ⊆ dom (archive_used (fst s'))).

#[local] Instance same_entries_preorder : PreOrder same_entries.
Proof.
  split; [by intros s; repeat split|]. intros s1 s2 s3 (A1 & A2 & A3 & A4 & A5 & A6) (B1 & B2 & B3 & B4 & B5 & B6).
  split_and!; try congruence. intros Hb Ha. apply B6; [congruence|]. by apply A6.
Qed.

Lemma same_entries_within s s' : same_entries s s' -> within (fst s) -> within (fst s').
Proof.
  intros (A1 & A2 & A3 & A4 & A5 & A6) [? ? ? ? ? ?]. split; rewrite ?A1, ?A2, ?A3, ?A4, ?A5; auto.
Qed.

Local Abbreviation keeps m := (preserves same_entries m).

Lemma keeps_read {X : Type} (m : cached X) : keeps (in_read m).
Proof. intros [c s]. unfold in_read. destruct (m s). by repeat split. Qed.
Lemma keeps_cache : keeps tree_cache.
Proof. intros [c s]. by repeat split. Qed.
Lemma keeps_files : keeps current_files.
Proof. intros [c [t s]]. by repeat split. Qed.
Lemma keeps_stamp path : keeps (file_stamp path).
Proof. intros [c [t s]]. by repeat split. Qed.
Lemma keeps_change f : (forall c s, same_entries (c, s) (f c, s)) -> keeps (change_cache f).
Proof. intros Hf [c s]. exact (Hf c s). Qed.

Ltac keeping := repeat first
  [ apply preserves_lift; exact _ | apply preserves_ret; exact _ | apply keeps_read | apply keeps_cache | apply keeps_files | apply keeps_stamp
  | match goal with |- preserves same_entries (_ ≫= _) => apply preserves_bind; [exact _| |intros ?] end
  | match goal with |- context [match ?x with _ => _ end] => destruct x end ].

Lemma keeps_locate i : keeps (tree_pack_view_for_tree_index_with_cache fs i).
Proof. unfold tree_pack_view_for_tree_index_with_cache. keeping; apply keeps_change; by repeat split. Qed.
Lemma keeps_check_stamp path : keeps (check_stamp path).
Proof. unfold check_stamp, require. keeping. apply keeps_change. by repeat split. Qed.

Lemma keeps_use_archive key : keeps (use_archive key).
Proof.
  unfold use_archive. keeping; apply keeps_change; repeat split; cbn; intros _ Ha; rewrite ?dom_insert_L; set_solver.
Qed.

(** The archive that is opened has been given a time of use before. *)
Definition has_key (key : string) (c : BinaryDbTreeReadCache) : Prop := is_Some (archive_used c !! key) \/ admission_budget c <> Some budget.

Lemma evict_archives_same fuel c s : same_entries (c, s) (evict_archives fuel budget c, s).
Proof.
  revert c. induction fuel as [|fuel IH]; intros c; cbn [evict_archives]; [by destruct (_ <? _)%N; repeat split|].
  destruct (_ <? _)%N; [|by repeat split]. destruct (least None _) as [key|]; [|by repeat split]. etrans; [|apply IH].
  repeat split. cbn. rewrite !dom_delete_L. set_solver.
Qed.

Definition same_with_key (key : string) (s s' : cache_state) : Prop := has_key key (fst s) -> same_entries s s' /\ has_key key (fst s').
#[local] Instance same_with_key_preorder key : PreOrder (same_with_key key).
Proof.
  split; [by intros s; split|]. intros s1 s2 s3 H1 H2 Hk. destruct (H1 Hk) as [A1 Hk']. destruct (H2 Hk') as [A2 Hk'']. split; [by etrans|done].
Qed.

Lemma with_key_change key f : (forall c s, has_key key c -> same_entries (c, s) (f c, s) /\ has_key key (f c)) -> preserves (same_with_key key) (change_cache f).
Proof. intros Hf [c s]. exact (Hf c s). Qed.
Lemma with_key_same {X : Type} key (m : treed X) : (forall s, fst (snd (m s)) = fst s) -> preserves (same_with_key key) m.
Proof. intros Hm s Hk. unfold same_entries. rewrite Hm. by repeat split. Qed.

Lemma with_key_keep key o : preserves (same_with_key key) (keep_archive key o).
Proof.
  apply with_key_change. intros c s Hk. split; [|done]. repeat split. cbn. intros Hb Ha. rewrite dom_insert_L.
  destruct Hk as [[u Hu%elem_of_dom_2]|Hk]; [set_solver|done].
Qed.

Ltac keeping_key := repeat first
  [ apply preserves_lift; exact _ | apply preserves_ret; exact _ | apply with_key_keep | apply with_key_same; by intros [? [? ?]]
  | match goal with |- preserves _ (_ ≫= _) => apply preserves_bind; [exact _| |intros ?] end
  | match goal with |- context [match ?x with _ => _ end] => destruct x end ].

Lemma with_key_select path format : preserves (same_with_key (archive_key path format)) (select_archive path format).
Proof. unfold select_archive. keeping_key. Qed.
Lemma with_key_read key o ordinal : preserves (same_with_key key) (read_open_archive key o ordinal).
Proof. unfold read_open_archive. keeping_key. Qed.

Lemma use_archive_key key s : has_key key (fst (snd (use_archive key s))).
Proof.
  destruct s as [c s]. unfold use_archive, mbind, stateful_bind, tree_cache, change_cache, modify. cbn.
  destruct (admission_budget c) as [b|] eqn:Hb; cbn [is_some]; [|right; cbn; congruence].
  left. cbn. rewrite lookup_insert_eq. by eexists.
Qed.

(** The archive of [key] is chosen and read after [use_archive]. *)
Lemma keeps_with_key {X : Type} key (m : treed X) : preserves (same_with_key key) m -> keeps (_ ← use_archive key; m).
Proof.
  intros Hm s. pose proof (keeps_use_archive key s) as Hu. pose proof (use_archive_key key s) as Hk. unfold mbind, stateful_bind.
  destruct (use_archive key s) as [[[]|e] s1]; cbn [snd] in *; [|done]. destruct (Hm s1 Hk) as [Hs _]. by etrans.
Qed.

Lemma keeps_trim : keeps (change_cache trim_archives).
Proof.
  intros [c s]. cbn. unfold trim_archives. destruct (admission_budget c) as [b|] eqn:Hb; [|by repeat split].
  assert (forall fuel c, same_entries (c, s) (evict_archives fuel b c, s)) as H; [|apply H].
  induction fuel as [|fuel IH]; intros c'; cbn [evict_archives]; [by destruct (_ <? _)%N; repeat split|].
  destruct (_ <? _)%N; [|by repeat split]. destruct (least None _) as [key|]; [|by repeat split]. etrans; [|apply IH].
  repeat split. cbn. rewrite !dom_delete_L. set_solver.
Qed.

Lemma keeps_payload_for i tree view : keeps (read_tree_pack_payload_for_record repo_root i tree view).
Proof.
  unfold read_tree_pack_payload_for_record.
  apply preserves_bind; [exact _|apply preserves_lift; exact _|intros _]. apply preserves_bind; [exact _|apply preserves_lift; exact _|intros path].
  apply preserves_bind; [exact _|apply keeps_check_stamp|intros _].
  set (key := archive_key path (tpv_pack_format view)).
  assert (keeps (payload ← (_ ← use_archive key; o ← select_archive path (tpv_pack_format view); read_open_archive key o (pack_entry_ordinal tree));
    _ ← change_cache trim_archives; lift (check_payload_of tree payload))) as H.
  { apply preserves_bind; [exact _| |intros payload; apply preserves_bind; [exact _|apply keeps_trim|intros _; apply preserves_lift; exact _]].
    apply keeps_with_key. apply preserves_bind; [exact _|apply with_key_select|intros o; apply with_key_read]. }
  intros s. specialize (H s). unfold mbind, stateful_bind in *. destruct (use_archive key s) as [[[]|e] s1]; [|done].
  destruct (select_archive path (tpv_pack_format view) s1) as [[o|e] s2]; done.
Qed.
Lemma keeps_payload i : keeps (read_tree_pack_payload_at fs repo_root i).
Proof.
  unfold read_tree_pack_payload_at. apply preserves_bind; [exact _|apply keeps_read|intros tree]. apply preserves_bind; [exact _|apply keeps_locate|intros view].
  apply preserves_bind; [exact _|apply preserves_lift; exact _|intros v]. apply keeps_payload_for.
Qed.

(** *** Entries *)

Lemma use_entries_within i s : within (fst s) -> i ∈ dom (tree_entries (fst s)) -> within (fst (snd (use_entries i s))).
Proof.
  destruct s as [c s]. cbn [fst]. intros Hc Hi. unfold use_entries, mbind, stateful_bind, tree_cache, change_cache, modify. cbn.
  rewrite (wi_budget _ Hc). cbn [is_some]. cbn. destruct Hc as [? ? Hd ? ? ?]. split; try done. cbn. rewrite dom_insert_L, Hd. set_solver.
Qed.

Lemma remember_within i entries s : within (fst s) -> tree_entries (fst s) !! i = None -> within (fst (snd (remember_entries i entries s))).
Proof.
  destruct s as [c s]. cbn [fst]. intros Hc Hi. unfold remember_entries, use_entries, mbind, stateful_bind, tree_cache, change_cache, modify. cbn -[evict_entries].
  rewrite (wi_budget _ Hc). destruct (N.ltb_spec budget (entries_size entries)) as [Hlt|Hle]; [exact Hc|]. cbn -[evict_entries].
  destruct (evict_entries_within (size (entry_used c)) (entries_size entries) c Hc ltac:(done) Hle) as (Hw & Hfit & Hsub).
  unfold reserve_entry. set (c1 := evict_entries _ _ _ _) in *. rewrite (wi_budget _ Hw). cbn.
  assert (tree_entries c1 !! i = None) as Hi1 by (by eapply lookup_weaken_None). destruct Hw as [Hadm Hs Hd Hb Hle' Ha].
  assert (entry_sizes c1 !! i = None) as Hs1 by (by rewrite Hs, lookup_fmap, Hi1). unfold saturating_add. split; cbn; [done| | | | |done].
  - by rewrite Hs, fmap_insert.
  - by rewrite !dom_insert_L, Hd.
  - rewrite total_insert by done. lia.
  - lia.
Qed.

Lemma list_within i s : within (fst s) -> within (fst (snd (list_tree_entry_views_at fs repo_root i s))).
Proof.
  intros Hs. destruct s as [c s]. cbn [fst] in Hs. unfold list_tree_entry_views_at. erewrite bind_run by done. destruct (tree_entries c !! i) as [entries|] eqn:Hi.
  - pose proof (use_entries_within i (c, s) Hs ltac:(cbn; by eapply elem_of_dom_2)) as H. unfold mbind, stateful_bind. by destruct (use_entries i (c, s)) as [[[]|e] s'].
  - unfold mbind, stateful_bind. pose proof (keeps_payload i (c, s)) as Hk. destruct (read_tree_pack_payload_at fs repo_root i (c, s)) as [[payload|e] s1]; cbn [snd] in Hk.
    2:{ by apply (same_entries_within (c, s)). }
    unfold lift. destruct (tree_entry_views_from_payload payload) as [entries|e]; [|by apply (same_entries_within (c, s))].
    assert (within (fst s1)) as Hw by (by apply (same_entries_within (c, s))).
    pose proof (remember_within i entries s1 Hw) as H. destruct (remember_entries i entries s1) as [[[]|e] s2]; cbn [snd] in H; apply H;
      destruct Hk as (_ & -> & _); done.
Qed.

(** *** Every question *)

(** What keeps the entries keeps the invariant, and so does a sequence. *)
Definition sound {X : Type} (m : treed X) : Prop := forall s, within (fst s) -> within (fst (snd (m s))).

Lemma keeps_sound {X : Type} (m : treed X) : keeps m -> sound m.
Proof. intros Hm s. apply same_entries_within, Hm. Qed.
Lemma sound_bind {X Y : Type} (m : treed X) (k : X -> treed Y) : sound m -> (forall x, sound (k x)) -> sound (m ≫= k).
Proof. intros Hm Hk s Hs. specialize (Hm s Hs). unfold mbind, stateful_bind. destruct (m s) as [[x|e] s']; [by apply Hk|done]. Qed.
Lemma sound_ret {X : Type} (x : X) : sound (mret x).
Proof. by intros s. Qed.
Lemma sound_change f : (forall c, within c -> within (f c)) -> sound (change_cache f).
Proof. intros Hf [c s]. apply Hf. Qed.

Lemma keeps_view i : keeps (tree_view_at_with_cache fs i).
Proof. unfold tree_view_at_with_cache. keeping. apply keeps_locate. Qed.
Lemma keeps_view_of tree_id : keeps (get_tree_view_by_id_with_cache fs tree_id).
Proof.
  unfold get_tree_view_by_id_with_cache. apply preserves_bind; [exact _|apply keeps_read|]. intros candidates.
  induction candidates as [|i candidates IH]; cbn [first_tree]; keeping; [apply keeps_view|done].
Qed.

Lemma ask_within query : sound (ask fs repo_root query).
Proof.
  assert (forall i, sound (list_tree_entry_views_at fs repo_root i)) as Hlist by (intros i s; apply list_within).
  assert (forall tree_id, sound (get_tree_view_by_id_with_cache fs tree_id)) as Hfind by (intros; apply keeps_sound, keeps_view_of).
  destruct query as [i|tree_id|i|tree_id|tree_id|i| |]; cbn [ask]; (apply sound_bind; [|intros; apply sound_ret]).
  - apply keeps_sound, keeps_view.
  - done.
  - done.
  - apply sound_bind; [done|]. intros [view|]; [done|apply sound_ret].
  - apply sound_bind; [done|]. intros view. apply sound_bind; [by apply keeps_sound, preserves_lift; exact _|]. done.
  - apply keeps_sound, keeps_payload.
  - apply sound_change. intros c [? ? ? ? ? ?]. split; cbn; try done. apply N.le_0_l.
  - apply sound_change. intros c [? ? ? ? ? ?]. split; cbn; done.
Qed.

(** *** Archives *)

Lemma payload_for_trimmed i tree view s payload s' : within (fst s) ->
  read_tree_pack_payload_for_record repo_root i tree view s = (Ok payload, s') -> (retained_archive_bytes (fst s') <= budget)%N.
Proof.
  intros Hs H. assert (exists s1, same_entries s s1 /\ fst s' = trim_archives (fst s1)) as (s1 & Hs1 & ->).
  { unfold read_tree_pack_payload_for_record in H. apply bind_run_Ok in H as ([] & s1 & H1%lift_Ok & H). destruct H1 as [_ ->].
    apply bind_run_Ok in H as (path & s1 & H1%lift_Ok & H). destruct H1 as [_ ->]. apply bind_run_Ok in H as ([] & s1 & H1 & H).
    pose proof (keeps_check_stamp path s) as K1. rewrite H1 in K1. cbn [snd] in K1.
    set (key := archive_key path (tpv_pack_format view)) in *. apply bind_run_Ok in H as ([] & s2 & H2 & H). apply bind_run_Ok in H as (o & s3 & H3 & H).
    apply bind_run_Ok in H as (p & s4 & H4 & H). apply bind_run_Ok in H as ([] & s5 & H5 & H). apply lift_Ok in H as [_ ->]. exists s4.
    assert (fst s5 = trim_archives (fst s4)) as -> by (destruct s4; by injection H5 as <-). split; [|done]. etrans; [exact K1|].
    pose proof (keeps_with_key key (o ← select_archive path (tpv_pack_format view); read_open_archive key o (pack_entry_ordinal tree))
      ltac:(apply preserves_bind; [exact _|apply with_key_select|intros; apply with_key_read]) s1) as K2.
    erewrite bind_run in K2 by exact H2. erewrite bind_run in K2 by exact H3. rewrite H4 in K2. exact K2. }
  assert (within (fst s1)) as Hw by (by apply (same_entries_within s)). unfold trim_archives. rewrite (wi_budget _ Hw).
  apply evict_archives_within; [apply (wi_archives _ Hw)|done].
Qed.

(** C29. The cache of trees keeps its accounts and its budget. A new cache satisfies
    the invariant - the sizes and times of use of the remembered lists of entries
    are recorded for exactly these lists, their sum is right and within the
    budget - and every question keeps it, with any files, failing calls and
    errors, for every budget below the largest number of the machine. After every payload that is read the open archives are within the budget
    too. *)
Theorem tree_cache_bounded : within (with_budget (Some budget)) /\
  (forall query c s, within c -> within (fst (snd (ask fs repo_root query (c, s))))) /\
  (forall i c s payload c' s', within c -> read_tree_pack_payload_at fs repo_root i (c, s) = (Ok payload, (c', s')) ->
    (retained_archive_bytes c' <= budget)%N).
Proof.
  split; [apply within_fresh|]. split; [intros query c s Hc; by apply (ask_within query (c, s))|].
  intros i c s payload c' s' Hc H. unfold read_tree_pack_payload_at in H. apply bind_run_Ok in H as (tree & s1 & H1 & H).
  apply bind_run_Ok in H as (found & s2 & H2 & H). apply bind_run_Ok in H as (view & s3 & H3%lift_Ok & H). destruct H3 as [_ ->].
  apply (payload_for_trimmed i tree view s2 payload (c', s')); [|done]. apply (same_entries_within (c, s)); [|done].
  pose proof (keeps_read (read_tree_record_at fs i) (c, s)) as K1. rewrite H1 in K1. pose proof (keeps_locate i s1) as K2. rewrite H2 in K2. by etrans.
Qed.
End Cache.

(** The budget of an admission. *)
Lemma tree_cache_bounded_witness : (16 * 1024 * 1024 < usize_max)%N /\ within (A := toy_allocation) (16 * 1024 * 1024) for_git_admission.
Proof.
  assert (16 * 1024 * 1024 < usize_max)%N as H by reflexivity. split; [exact H|].
  exact (proj1 (tree_cache_bounded (P := toy_primitives) (A := toy_allocation) (T := toy_times) example_fs [RootDir] _ H)).
Defined.
