(* ===== verification/TreeEntries.v ===== *)
(** * Stored trees

    The tree store of [TreeStore] over files whose contents are known: the entries
    that are listed for a tree are the rows that were written into its pack. *)

From Stdlib Require Import NArith Lia.
From Stdlib Require Strings.Byte.
From stdpp Require Import base numbers strings gmap list sorting.
From S2P Require Import Prelude Codec FileStore BinaryDb RecordTable BinaryIndex ReadTxn WriteTxn ContentCodec ContentIds ContentStore.
From S2P Require Import Json ChunkLayout PackIndex PackContainer TreePack TreeArchive TreeStore TreeReads.

Local Abbreviation L := BINARY_DB_CONTENT_LAYOUT_ID.

(** ** Tables of records *)

Section Table.
Context {R : Type} {C : RecordCodec content_error R} {LC : LawfulRecordCodec content_error R}.
Context (fs : LocalBinaryDbFs) (name : string) (path : PathBuf) {du : gmap PathBuf bytes} (d : gmap PathBuf bytes).
Context (Hpath : file_path_for fs name = Ok path) (Hsupported : supported_layout L = true).
Context (Hpos : 0 < codec_size L) (Hmax : (N.of_nat (codec_size L) <= u32_max)%N).

Local Abbreviation file := (mkFileId name L (N.of_nat (codec_size L))).
Local Abbreviation reads_ m r := (reads fs (du := du) d m r).

(** The file at [path] is the table of the records. *)
Definition holds_records (rs : list R) : Prop := (N.of_nat (length rs) <= u32_max)%N /\ Forall (record_ok L) rs /\
  exists rows, d !! path = Some (table_bytes file rows) /\ Forall2 (fun r row => encode_record L r = Ok row) rs rows.

Lemma holds_rows rs : holds_records rs -> exists rows, d !! path = Some (table_bytes file rows) /\ length rows = length rs /\
  (forall i r, rs !! i = Some r -> exists row, rows !! i = Some row /\ decode_record L row = Ok r) /\
  ReadTxn.rows_of L (N.of_nat (codec_size L)) (table_bytes file rows) = Ok (N.of_nat (length rs)).
Proof.
  intros (_ & Hok & rows & Hd & Hrows). exists rows. pose proof (Forall2_length _ _ _ Hrows) as Hlen. split; [done|]. split; [done|].
  assert (forall i r row, rs !! i = Some r -> rows !! i = Some row -> length row = codec_size L /\ decode_record L row = Ok r) as Hrow.
  { intros i r row Hi Hj. pose proof (Forall2_lookup_lr _ _ _ _ _ _ Hrows Hi Hj) as Henc.
    destruct (encode_decode L r Hsupported (Forall_lookup_1 _ _ _ _ Hok Hi)) as (raw & H1 & H2 & H3). rewrite Henc in H1. by injection H1 as <-. }
  split.
  - intros i r Hi. destruct (Forall2_lookup_l _ _ _ _ _ Hrows Hi) as (row & Hj & _). exists row. split; [done|]. by apply (Hrow i).
  - assert (Forall (fun row => length row = codec_size L) rows) as Hsized.
    { apply Forall_lookup. intros i row Hj. destruct (Forall2_lookup_r _ _ _ _ _ Hrows Hj) as (r & Hi & _). by apply (Hrow i r). }
    pose proof (valid_run (du := du) file path ltac:(cbn; lia) Hmax ltac:(by vm_compute) d rows Hd ltac:(cbn; by rewrite Nat2N.id)) as Hv.
    rewrite rows_pure, Hd in Hv. cbn [ok_or mbind result_bind] in Hv. rewrite Hlen. by injection Hv as Hv.
Qed.

Lemma reads_table_layout rs : holds_records rs -> reads_ (persisted_content_layout fs name (codec_size L)) (Ok (Some L)).
Proof.
  intros (rows & Hd & _ & _ & Hn)%holds_rows. unfold persisted_content_layout. apply (reads_step _ _ _ _ (Some L)).
  - intros c Hc. destruct (reads_layout fs (du := du) d file path Hpath c Hc) as (c' & Hrun & Hc'). exists c'. split; [|done]. unfold unless_missing. rewrite Hrun.
    apply rows_of_length in Hn as (Hl & _ & Hlay). unfold layout_of. rewrite Hd. cbn [ok_or mbind result_bind].
    rewrite (proj2 (Nat.ltb_ge _ _)) by lia. cbn [fail_if mbind result_bind]. by rewrite Hlay.
  - apply (reads_step _ _ _ _ tt); [apply reads_lift|apply reads_ret].
Qed.
Lemma reads_table_required rs : holds_records rs -> reads_ (required_content_layout fs name (codec_size L)) (Ok L).
Proof. intros H. eapply reads_step; [by eapply reads_table_layout|apply reads_lift]. Qed.

Lemma reads_table_count rs : holds_records rs -> reads_ (read_txn_record_count fs file) (Ok (N.of_nat (length rs))).
Proof.
  intros H. pose proof H as (Hcount & _). destruct (holds_rows rs H) as (rows & Hd & _ & _ & Hn). apply reads_uncached. rewrite (record_count_pure fs d file path Hpath), Hd.
  cbn [file_layout_id record_size]. rewrite Hn. cbn [mbind result_bind]. by rewrite (proj2 (N.ltb_ge _ _)).
Qed.

Lemma reads_table_row rs i r : holds_records rs -> rs !! N.to_nat i = Some r ->
  exists row, reads_ (read_record_in_read_txn fs file i) (Ok row) /\ decode_record L row = Ok r.
Proof.
  intros H Hi. pose proof H as (Hcount & _). destruct (holds_rows rs H) as (rows & Hd & Hlen & Hrow & Hn). destruct (Hrow _ _ Hi) as (row & Hj & Hdec).
  exists row. split; [|done]. pose proof (lookup_lt_Some _ _ _ Hi) as Hlt.
  pose proof (reads_record fs (du := du) d file path i Hpath) as Hread. rewrite record_of_file in Hread; [|lia|exact Hmax|].
  - rewrite Hd in Hread. cbn [file_layout_id record_size] in Hread. rewrite Hn in Hread. cbn [mbind result_bind] in Hread.
    rewrite (proj2 (N.ltb_ge _ _)) in Hread by done. rewrite (proj2 (N.leb_gt _ _)) in Hread by lia. cbn [fail_if mbind result_bind] in Hread.
    enough (take (N.to_nat (N.of_nat (codec_size L))) (drop (N.to_nat (record_offset file i)) (table_bytes file rows)) = row) as <- by exact Hread.
    pose proof H as (_ & Hok & rows' & Hd' & Hrows). rewrite Hd in Hd'. injection Hd' as Ht.
    assert (Forall (fun row => length row = codec_size L) rows) as Hsized.
    { apply Forall_lookup. intros k row' Hk. destruct (lookup_lt_is_Some_2 rs k) as [r' Hr']; [rewrite <- Hlen; by eapply lookup_lt_Some|].
      destruct (Hrow k r' Hr') as (row2 & Hk2 & Hdec2). rewrite Hk in Hk2. injection Hk2 as <-. by apply decode_encode in Hdec2 as (_ & ? & _). }
    destruct (split_concat_rows (codec_size L) rows (N.to_nat i) row Hsized Hj) as (before & after & Hsplit & Hb & Hr & _).
    unfold table_bytes. cbn [file_layout_id]. rewrite Hsplit, Nat2N.id.
    replace (N.to_nat (record_offset file i)) with (length (to_le_bytes 4 L ++ before))
      by (rewrite length_app, length_to_le_bytes, Hb; unfold record_offset, BIN_FILE_HEADER_BYTES; cbn [record_size]; lia).
    rewrite app_assoc, drop_app_length, <- Hr. by rewrite take_app_length.
  - intros data n Hdata Hn'. rewrite Hd in Hdata. injection Hdata as <-. cbn [file_layout_id record_size] in Hn'. rewrite Hn in Hn'. by injection Hn' as <-.
Qed.
End Table.

(** The conditions on a codec, at the codecs of trees and packs. *)
Ltac codec_side := first [eassumption | exact (eq_refl true) | by vm_compute | cbv; lia].
Ltac table_read lemma := eapply lemma; codec_side.

(** ** Rows as entries *)

(** A row that the store accepts as an entry. *)
Definition entry_ok (r : tree_row) : Prop := validate_tree_entry_name (tr_entry_name r) = Ok tt /\
  (tr_entry_type r = "blob"%string /\ (exists key, blob_id_index_key (tr_target_id r) = Ok key) \/
   tr_entry_type r = "tree"%string /\ (exists key, tree_id_index_key (tr_target_id r) = Ok key)).
Definition entry_view (ordinal : N) (r : tree_row) : BinaryTreeEntryView :=
  mkEntryView ordinal (tr_entry_name r) (tr_entry_type r) (tr_target_id r) (tr_size_bytes r) (Some (tr_mode r)).
Fixpoint views_of (ordinal : N) (rows : list tree_row) : list BinaryTreeEntryView :=
  match rows with [] => [] | r :: rows => entry_view ordinal r :: views_of (ordinal + 1) rows end.

Lemma entry_view_read tree_id ordinal r : entry_ok r -> (ordinal <= u32_max)%N ->
  tree_entry_view_from_json ordinal (without_tree_id (row_json tree_id r)) = Ok (entry_view ordinal r).
Proof.
  intros [Hname Htype] Hord. assert (exists obj, without_tree_id (row_json tree_id r) = JObject obj /\ map_get "entry_name" obj = Some (JString (tr_entry_name r)) /\
    map_get "entry_type" obj = Some (JString (tr_entry_type r)) /\ map_get "target_id" obj = Some (JString (tr_target_id r)) /\
    map_get "size_bytes" obj = Some (size_json (tr_size_bytes r)) /\ map_get "mode" obj = Some (JString (tr_mode r))) as (obj & -> & H1 & H2 & H3 & H4 & H5)
    by (eexists; split_and!; reflexivity).
  unfold tree_entry_view_from_json, text_entry. cbn [mbind result_bind]. rewrite H1, H2, H3, H4, H5. cbn [mbind option_bind as_str ok_or result_bind].
  rewrite Hname. cbn [mbind result_bind]. rewrite (proj2 (N.ltb_ge _ _)) by done. unfold entry_view.
  assert ((Some (size_json (tr_size_bytes r)) ≫= as_u64) = tr_size_bytes r) as Hsize by (by destruct (tr_size_bytes r)). cbn [mbind option_bind] in Hsize. rewrite Hsize.
  destruct Htype as [[-> [key ->]]|[-> [key ->]]]; done.
Qed.

Lemma entry_views_read tree_id ordinal rows : Forall entry_ok rows -> (ordinal + N.of_nat (length rows) <= u32_max + 1)%N ->
  entry_views ordinal (map (fun r => without_tree_id (row_json tree_id r)) rows) = Ok (views_of ordinal rows).
Proof.
  intros Hrows. revert ordinal. induction Hrows as [|r rows Hr Hrows IH]; intros ordinal Hlen; [done|]. cbn [map entry_views views_of length] in *.
  rewrite entry_view_read by (done || lia). cbn [mbind result_bind]. by rewrite IH by lia.
Qed.

Lemma insert_by_least {X : Type} (key : X -> string) x l : Forall (fun y => String.le (key x) (key y)) l -> insert_by key x l = x :: l.
Proof. intros [|y l' Hle _]; [done|]. cbn. by rewrite bool_decide_eq_true_2. Qed.
Lemma sort_by_key_id {X : Type} (key : X -> string) l : StronglySorted (fun a b => String.le (key a) (key b)) l -> sort_by_key key l = l.
Proof.
  induction 1 as [|x l Hl IH Hx]; [done|]. change (insert_by key x (sort_by_key key l) = x :: l). rewrite IH. by apply insert_by_least.
Qed.

Lemma views_of_names ordinal rows : map tev_entry_name (views_of ordinal rows) = map tr_entry_name rows.
Proof. revert ordinal. induction rows as [|r rows IH]; intros ordinal; [done|]. cbn. by rewrite IH. Qed.

Lemma sorted_by_names {X Y : Type} (key : X -> string) (key' : Y -> string) l l' : map key l = map key' l' ->
  StronglySorted (fun a b => String.le (key' a) (key' b)) l' -> StronglySorted (fun a b => String.le (key a) (key b)) l.
Proof.
  intros Hmap Hl'. revert l Hmap. induction Hl' as [|y l' Hl' IH Hy]; intros [|x l] Hmap; try discriminate Hmap; [constructor|].
  injection Hmap as Hx Hmap. constructor; [by apply IH|]. rewrite Hx. clear IH Hl'. revert l Hmap. induction Hy as [|z l' Hz Hy IH]; intros [|w l] Hmap; try discriminate Hmap; [constructor|].
  injection Hmap as Hw Hmap. constructor; [by rewrite Hw|by apply IH].
Qed.

(** The payload of a tree that is read from its pack. *)
Definition stored_payload (tree_id : string) (ordinal : N) (rows : list tree_row) : JsonValue :=
  json_object [("tree_id", JString tree_id); ("entry_ordinal", JNumber (PosInt ordinal)); ("rows", JArray (map (row_json tree_id) rows))]%string.
Definition listed_payload (tree_id : string) (rows : list tree_row) : JsonValue :=
  json_object [("tree_id", JString tree_id); ("entries", JArray (map (fun r => without_tree_id (row_json tree_id r)) rows))]%string.

Lemma normalize_stored expected tree_id ordinal rows : normalize_tree_payload expected (stored_payload tree_id ordinal rows) = Ok (listed_payload tree_id rows).
Proof.
  transitivity (Ok (E := BinaryDbErrorKind) (json_object [("tree_id", JString tree_id); ("entries", JArray (map without_tree_id (map (row_json tree_id) rows)))]%string)); [reflexivity|].
  by rewrite map_map.
Qed.

Lemma listed_entries tree_id rows :
  (value_get "entries" (listed_payload tree_id rows) ≫= array_of) = Some (map (fun r => without_tree_id (row_json tree_id r)) rows).
Proof. reflexivity. Qed.

Lemma check_stored tree tree_id ordinal rows : eq_ignore_ascii_case tree_id (tree_id_from_hash80 (tree_hash80 tree)) = true ->
  entry_count tree = N.of_nat (length rows) -> check_payload_of tree (stored_payload tree_id ordinal rows) = Ok (listed_payload tree_id rows).
Proof.
  intros Hid Hcount. unfold check_payload_of. rewrite normalize_stored. cbn [mbind result_bind].
  assert ((value_get "tree_id" (listed_payload tree_id rows) ≫= as_str) = Some tree_id) as -> by reflexivity. cbn [ok_or mbind result_bind]. rewrite Hid.
  cbn [negb fail_if mbind result_bind]. rewrite listed_entries. cbn [ok_or mbind result_bind]. by rewrite length_map, Hcount, N.eqb_refl.
Qed.

Lemma listed_views tree_id rows : Forall entry_ok rows -> StronglySorted (fun a b => String.le (tr_entry_name a) (tr_entry_name b)) rows ->
  (N.of_nat (length rows) <= u32_max + 1)%N -> tree_entry_views_from_payload (listed_payload tree_id rows) = Ok (views_of 0 rows).
Proof.
  intros Hrows Hsorted Hlen. unfold tree_entry_views_from_payload.
  rewrite listed_entries.
  cbn [ok_or mbind result_bind]. rewrite entry_views_read by (done || lia). cbn [mbind result_bind]. f_equal.
  apply sort_by_key_id. by apply (sorted_by_names tev_entry_name tr_entry_name _ rows); [apply views_of_names|].
Qed.

(** ** Stored trees *)

Section Stored.
Context {P : PackPrimitives} {A : Allocation} {T : FileTimes} (fs : LocalBinaryDbFs) (repo_root : PathBuf).
Context {du : gmap PathBuf bytes} (d : gmap PathBuf bytes) (tree_path pack_path : PathBuf).
Context (Htree : file_path_for fs TREE_BIN = Ok tree_path) (Hpack : file_path_for fs TREE_PACK_BIN = Ok pack_path).
Context (ts : list BinaryTreeRecord) (ps : list BinaryTreePackRecord).
Context (Hts : holds_records TREE_BIN tree_path d ts) (Hps : holds_records TREE_PACK_BIN pack_path d ps).

Local Abbreviation reads_ m r := (reads fs (du := du) d m r).

(** The packs have the one format there is, and the live ones hold only trees
    that exist. *)
Definition pack_fits (p : BinaryTreePackRecord) : Prop :=
  tree_pack_format p = ContentCodec.ZstdChunkedTreeV1 /\ (tree_pack_is_tombstone p = true \/ (first_tree_index p + tree_count p <= N.of_nat (length ts))%N).
Context (Hfit : Forall pack_fits ps).

Definition pack_view_of (index : N) (p : BinaryTreePackRecord) : BinaryTreePackView :=
  let pack_id := tree_pack_id_from_hash48 (tree_pack_hash48 p) in
  mkTreePackView index p pack_id (default_tree_pack_relative_path pack_id) TREE_PACK_FORMAT_ZSTD_CHUNKED_V1.
Definition stored_views : list BinaryTreePackView := imap (fun k p => pack_view_of (N.of_nat k) p) ps.

Lemma reads_tree_record i t : ts !! N.to_nat i = Some t -> reads_ (read_tree_record_at fs i) (Ok t).
Proof.
  intros Hi. unfold read_tree_record_at. eapply reads_step; [table_read (reads_table_required (C := tree_codec) (du := du) fs TREE_BIN tree_path d)|].
  eapply reads_step; [apply reads_lift|].
  destruct (reads_table_row (C := tree_codec) (du := du) fs TREE_BIN tree_path d Htree eq_refl ltac:(codec_side) ltac:(codec_side) ts i t Hts Hi) as (row & Hrow & Hdec).
  eapply reads_step; [exact Hrow|]. change (decode_record L row) with (decode_tree_record L row) in Hdec. rewrite Hdec. apply reads_lift.
Qed.

Lemma reads_pack_view k p : ps !! k = Some p -> reads_ (tree_pack_view_at fs (N.of_nat k)) (Ok (pack_view_of (N.of_nat k) p)).
Proof.
  intros Hk. unfold tree_pack_view_at, read_tree_pack_record_at. apply (reads_step _ _ _ _ p).
  - eapply reads_step; [table_read (reads_table_required (C := tree_pack_codec) (du := du) fs TREE_PACK_BIN pack_path d)|].
    eapply reads_step; [apply reads_lift|].
    destruct (reads_table_row (C := tree_pack_codec) (du := du) fs TREE_PACK_BIN pack_path d Hpack eq_refl ltac:(codec_side) ltac:(codec_side) ps (N.of_nat k) p Hps) as (row & Hrow & Hdec); [by rewrite Nat2N.id|].
    eapply reads_step; [exact Hrow|]. change (decode_record L row) with (decode_tree_pack_record L row) in Hdec. rewrite Hdec. apply reads_lift.
  - unfold tree_pack_view. destruct (Forall_lookup_1 _ _ _ _ Hfit Hk) as [-> _]. cbn [tree_pack_format_name mbind result_bind].
    unfold tree_pack_relative_path. rewrite bool_decide_eq_true_2 by done. apply reads_lift.
Qed.

Lemma stored_pack_views : pack_views fs (du := du) d stored_views.
Proof.
  intros k view Hk. unfold stored_views in Hk. rewrite list_lookup_imap in Hk. apply fmap_Some in Hk as (p & Hp & ->). split; [by apply reads_pack_view|].
  destruct (Forall_lookup_1 _ _ _ _ Hfit Hp) as [_ [Hdead|Hle]]; [by left|right]. intros kind. unfold range_end. cbn [tpv_record pack_view_of].
  destruct Hts as [Hmax _]. by rewrite (proj2 (N.ltb_ge _ _)) by lia.
Qed.

(** Nothing stops the table of packs from being built. *)
Lemma paint_succeeds rest seen views locators : stored_views = seen ++ rest -> length locators = length ts ->
  exists built, reads_ (paint_packs fs (length rest) (N.of_nat (length seen)) views locators) (Ok built).
Proof.
  revert seen views locators. induction rest as [|view rest IH]; intros seen views locators Hall Hlen; cbn [length paint_packs]; [eexists; apply reads_ret|].
  assert (stored_views !! length seen = Some view) as Hv by (by rewrite Hall, lookup_app_r, Nat.sub_diag by lia).
  destruct (stored_pack_views _ _ Hv) as [Hread Hend]. unfold stored_views in Hv. rewrite list_lookup_imap in Hv. apply fmap_Some in Hv as (p & Hp & ->).
  destruct (Forall_lookup_1 _ _ _ _ Hfit Hp) as [_ Hdead].
  replace (N.of_nat (length seen) + 1)%N with (N.of_nat (length (seen ++ [pack_view_of (N.of_nat (length seen)) p]))) by (rewrite length_app; cbn; lia).
  assert (stored_views = (seen ++ [pack_view_of (N.of_nat (length seen)) p]) ++ rest) as Hall' by (by rewrite <- app_assoc).
  destruct (tree_pack_is_dead (pack_view_of (N.of_nat (length seen)) p)) eqn:Hd.
  - destruct (IH _ views locators Hall' Hlen) as [built Hbuilt]. exists built. eapply reads_step; [exact Hread|]. by rewrite Hd.
  - destruct Hdead as [Hdead|Hle]; [unfold tree_pack_is_dead in Hd; cbn in Hd; congruence|]. destruct Hend as [Hend|Hend]; [congruence|].
    set (view := pack_view_of (N.of_nat (length seen)) p) in *. set (end_ := (first_tree_index (tpv_record view) + tree_count (tpv_record view))%N).
    destruct (IH (seen ++ [view]) (views ++ [view]) (paint (N.to_nat (first_tree_index (tpv_record view))) (N.to_nat end_) (length views) locators) Hall') as [built Hbuilt].
    { unfold end_. cbn [tpv_record view pack_view_of]. by rewrite length_paint by lia. }
    exists built. eapply reads_step; [exact Hread|]. rewrite Hd. eapply reads_step; [rewrite Hend; apply reads_lift|]. fold end_. apply (reads_step _ _ _ _ tt); [|exact Hbuilt].
    unfold require, end_. cbn [tpv_record view pack_view_of]. rewrite (proj2 (N.leb_le _ _)) by lia. apply reads_lift.
Qed.

Lemma stored_table : exists built, reads_ (build_locators fs) (Ok built) /\ forall i, in_table built i = last_holding i stored_views.
Proof.
  assert (length stored_views = length ps) as Hlen by apply length_imap.
  destruct (paint_succeeds stored_views [] [] (replicate (length ts) None) eq_refl ltac:(apply length_replicate)) as [[views locators] Hpaint].
  assert (reads_ (build_locators fs) (Ok (Some (views, locators)))) as Hbuild.
  { unfold build_locators. eapply reads_step; [table_read (reads_table_layout (C := tree_pack_codec) (du := du) fs TREE_PACK_BIN pack_path d)|].
    eapply reads_step; [|apply reads_ret]. unfold paint_all_packs.
    eapply reads_step; [table_read (reads_table_required (C := tree_codec) (du := du) fs TREE_BIN tree_path d)|].
    eapply reads_step; [apply reads_lift|].
    eapply reads_step; [table_read (reads_table_count (C := tree_codec) (du := du) fs TREE_BIN tree_path d)|].
    eapply reads_step; [apply reads_lift|].
    eapply reads_step; [table_read (reads_table_count (C := tree_pack_codec) (du := du) fs TREE_PACK_BIN pack_path d)|].
    rewrite !Nat2N.id, <- Hlen. exact Hpaint. }
  eexists. split; [exact Hbuild|]. intros i.
  destruct (paint_table fs (du := du) d pack_path Hpack (length stored_views) [] [] (replicate (length ts) None) views locators) as (all & Hl & Hall & _ & Hloc); [| |exact Hpaint|].
  - intros k view Hk. by rewrite lookup_nil in Hk.
  - apply table_ok_empty.
  - cbn [in_table]. rewrite Hloc. f_equal. cbn in Hl. apply list_eq_same_length with (length stored_views); [done|done|].
    intros k v v' _ Hv Hv'. destruct (Hall _ _ Hv) as [H1%reads_fresh _], (stored_pack_views _ _ Hv') as [H2%reads_fresh _]. congruence.
Qed.

(** *** Entries *)

(** The contents of the pack [p]. *)
Definition pack_file_of (p : BinaryTreePackRecord) : PathBuf := pack_file repo_root (tree_pack_hash48 p).
(** The last live pack whose range holds the tree. *)
Definition pack_of (i : N) : option BinaryTreePackRecord := tpv_record <$> last_holding i stored_views.

(** The record says where in the pack the tree is. *)
Definition located_in (i : N) (t : BinaryTreeRecord) (p : BinaryTreePackRecord) : Prop :=
  has_sparse_physical_ordinals p = true \/
  (pack_entry_ordinal t < tree_count p)%N /\ (first_tree_index p <= i)%N /\ pack_entry_ordinal t = (i - first_tree_index p)%N.

Lemma stored_entries admission i t p file index es ids tree_id : ts !! N.to_nat i = Some t -> pack_of i = Some p -> located_in i t p ->
  d !! pack_file_of p = Some file -> holds_trees file index es ids -> NoDup ids -> ids !! N.to_nat (pack_entry_ordinal t) = Some tree_id ->
  eq_ignore_ascii_case tree_id (tree_id_from_hash80 (tree_hash80 t)) = true -> entry_count t = N.of_nat (length (TreePack.rows_of tree_id es)) ->
  Forall entry_ok (TreePack.rows_of tree_id es) -> (N.of_nat (length (TreePack.rows_of tree_id es)) <= u32_max)%N ->
  entries_at fs repo_root (du := du) d admission i = Ok (views_of 0 (TreePack.rows_of tree_id es)).
Proof.
  intros Ht Hp Hloc Hfile Hholds Hnd Hord Hid Hcount Hrows Hlen. unfold entries_at, payload_at. rewrite (reads_fresh _ _ _ _ (reads_tree_record i t Ht)).
  destruct stored_table as (built & Hbuild & Hin). rewrite (reads_fresh _ _ _ _ Hbuild). cbn [mbind result_bind]. rewrite Hin.
  unfold pack_of in Hp. destruct (last_holding i stored_views) as [view|] eqn:Hview; [|discriminate Hp]. injection Hp as <-. cbn [ok_or mbind result_bind].
  pose proof (in_table_ok fs d tree_path pack_path Htree Hpack built i view Hbuild ltac:(by rewrite Hin)) as Hok.
  assert (exists k p, view = pack_view_of k p) as (k & p & ->).
  { apply last_holding_in, list_elem_of_lookup in Hview as [k Hk]. unfold stored_views in Hk. rewrite list_lookup_imap in Hk. apply fmap_Some in Hk as (p & _ & ->). eauto. }
  cbn [tpv_record pack_view_of] in Hloc, Hfile. unfold payload_of.
  assert (check_tree_locator i t (pack_view_of k p) = Ok tt) as ->.
  { unfold check_tree_locator. cbn [tpv_record pack_view_of]. destruct Hloc as [->|(H1 & H2 & H3)]; [done|]. destruct (has_sparse_physical_ordinals p); [done|].
    rewrite (proj2 (N.leb_gt _ _)), (proj2 (N.ltb_ge _ _)) by done. cbn [fail_if mbind result_bind]. by rewrite <- H3, N.eqb_refl. }
  cbn [mbind result_bind]. destruct (holds_find _ _ _ _ _ _ Hholds Hnd Hord) as (e & He & Hnum & _ & _ & _ & Hwith & _ & _ & Hread). rewrite N2Nat.id in Hnum, Hwith.
  pose proof (ht_index _ _ _ _ Hholds) as Hindex.
  assert (pack_contents repo_root (du := du) d admission (pack_view_of k p) = Ok file) as ->.
  { unfold pack_contents. cbn [tpv_pack_path tpv_pack_format pack_view_of]. rewrite absolute_pack_file. cbn [mbind result_bind]. fold (pack_file_of p).
    unfold stamp_of. rewrite Hfile. destruct (is_some admission); cbn [ok_or mbind result_bind]; unfold open_with_format; by rewrite Hindex. }
  cbn [mbind result_bind]. unfold read_zstd_chunked_tree_pack_tree_by_ordinal. rewrite Hindex. cbn [mbind result_bind]. rewrite Hwith. cbn [mbind result_bind].
  rewrite Hread. cbn [mbind result_bind map_err]. unfold ordinal_json. rewrite He. fold (stored_payload tree_id (mb_member_ordinal e) (TreePack.rows_of tree_id es)).
  rewrite check_stored by done. cbn [mbind result_bind]. apply listed_views; [done|apply sort_by_key_sorted|lia].
Qed.
End Stored.

(** C32. What was written as a tree is listed as its entries. Let [file] be the pack
    that was built from the rows of trees, [entry_rows], and written; let the
    store hold tables of tree and pack records in which the record of the tree
    at [i] names [tree_id] and a pack whose file is [file]. Then a new reader, with whatever
    budget, that lists the tree at [i] finds the rows that were given for
    [tree_id], in the order of their names, numbered from zero, with their
    types, targets, sizes and modes. *)
Theorem stored_tree_listed {J : JsonText} {LJ : LawfulJsonText} {P : PackPrimitives} {LP : LawfulPrimitives} {A : Allocation} {T : FileTimes}
    (fs : LocalBinaryDbFs) (repo_root : PathBuf) (du d : gmap PathBuf bytes) (tree_path pack_path : PathBuf) (ts : list BinaryTreeRecord) (ps : list BinaryTreePackRecord)
    es ids tree_rows entry_rows members pack_id created_at persisted_pack_format (file : bytes) stats i t p tree_id admission :
  file_path_for fs TREE_BIN = Ok tree_path -> file_path_for fs TREE_PACK_BIN = Ok pack_path ->
  holds_records TREE_BIN tree_path d ts -> holds_records TREE_PACK_BIN pack_path d ps -> Forall (pack_fits ts) ps ->
  Forall2 row_describes entry_rows es -> Forall2 (tree_describes es) tree_rows ids ->
  Forall (fun e => row_ok (snd e) /\ entry_ok (snd e)) es -> Forall text_ok ids -> NoDup ids ->
  utf8_string pack_id -> utf8_string created_at -> (N.of_nat (length file) < u64_modulus)%N ->
  build_tree_pack_members (JArray tree_rows) (JArray entry_rows) = Ok members ->
  write_tree_pack_archive_with_format pack_id created_at members persisted_pack_format = Ok (file, stats) ->
  ts !! N.to_nat i = Some t -> pack_of ps i = Some p -> located_in i t p -> d !! pack_file_of repo_root p = Some file ->
  sort_by_key id ids !! N.to_nat (pack_entry_ordinal t) = Some tree_id -> eq_ignore_ascii_case tree_id (tree_id_from_hash80 (tree_hash80 t)) = true ->
  entry_count t = N.of_nat (length (TreePack.rows_of tree_id es)) -> (entry_count t <= u32_max)%N ->
  fst (list_tree_entry_views_at fs repo_root i (with_budget admission, (empty_cache, mkIo du d []))) = Ok (views_of 0 (TreePack.rows_of tree_id es)).
Proof.
  intros Htree Hpack Hts Hps Hfit Hrows Htrees Hes Hids Hnd Hp Hc Hlen Hbuild Hwrite Ht Hpk Hloc Hd Hord Hid Hcount Hmax.
  rewrite Forall_and in Hes. destruct Hes as [Hes Hentries].
  destruct (build_Ok es entry_rows tree_rows ids members) as (ms & -> & Hms); [done..|].
  unfold write_tree_pack_archive_with_format in Hwrite. apply bind_Ok in Hwrite as (kind & _ & Hwrite).
  destruct (archive_written es (sort_by_key id ids) ms pack_id created_at file stats) as (index & Hholds & _); [done|by rewrite sort_by_key_perm|done..|].
  destruct (gives_entries fs repo_root d tree_path pack_path Htree Hpack admission i _ _ (fresh_tree_coherent fs repo_root (du := du) d admission) (empty_coherent fs d))
    as (r & c' & t' & -> & <- & _). cbn [fst].
  eapply stored_entries; try eassumption.
  - by rewrite sort_by_key_perm.
  - apply Forall_forall. intros r Hr. unfold TreePack.rows_of in Hr. rewrite sort_by_key_perm in Hr. apply list_elem_of_fmap in Hr as (e & -> & [_ He]%list_elem_of_filter). exact (proj1 (Forall_forall _ _) Hentries _ He).
  - lia.
Qed.

(** ** An example *)

(** A tree with one subtree, which has two files; both are in one pack. *)
Definition tree_a : string := "TRE-0A0A0A0A0A0A0A0A0A0A".
Definition tree_b : string := "TRE-0B0B0B0B0B0B0B0B0B0B".
Definition blob (digit : string) : string := "BLB-000000000000000000" +:+ digit.
Definition forest_entries : list (string * tree_row) :=
  [(tree_b, example_row "b" (blob "02")); (tree_a, mkRow "sub" "tree" tree_b None "040000"); (tree_b, example_row "a" (blob "01"))]%string.
Definition forest_ids : list string := [tree_b; tree_a].
Definition forest_trees : list JsonValue := [example_tree tree_b 2; example_tree tree_a 1].
Definition forest_rows : list JsonValue := map (fun e => row_json (fst e) (snd e)) forest_entries.
Definition forest_members : result json_error JsonValue :=
  build_tree_pack_members (J := toy_json) (P := toy_primitives) (JArray forest_trees) (JArray forest_rows).
Definition forest_archive : result tree_pack_error (JsonValue * (bytes * JsonValue)) :=
  members ← from_json forest_members;
  written ← write_tree_pack_archive_with_format (J := toy_json) (P := toy_primitives) "TPK-000000000007" "1970-01-01T00:00:00Z" members "ait-tree-pack-v2-zstd-chunked";
  Ok (members, written).

Definition forest_records : list BinaryTreeRecord := [example_tree_record Byte.x0a 0 1; example_tree_record Byte.x0b 1 2].
Definition forest_packs : list BinaryTreePackRecord := [example_pack 7 0 2].
Definition forest_disk (file : bytes) : gmap PathBuf bytes :=
  <[[RootDir; Normal "tree.bin"%string] := encoded_table (map (encode_tree_record 1) forest_records)]>
  (<[[RootDir; Normal "tree_pack.bin"%string] := encoded_table (map (encode_tree_pack_record 1) forest_packs)]>
  (<[[RootDir; Normal "tree_id.idx"%string] := to_le_bytes 4 1 ++ replicate 10 Byte.x0a ++ to_le_bytes 4 1 ++ replicate 10 Byte.x0b ++ to_le_bytes 4 2]>
  (<[pack_file [RootDir] 7 := file]> ∅))).

Ltac one_by_one := repeat (apply Forall2_cons_2 || apply Forall_cons_2); [..|apply Forall2_nil_2 || apply Forall_nil_2].
Lemma forest_rows_described : Forall2 row_describes forest_rows forest_entries.
Proof. one_by_one; describe. Qed.
Lemma forest_trees_described : Forall2 (tree_describes forest_entries) forest_trees forest_ids.
Proof. one_by_one; describe. Qed.
Lemma forest_rows_ok : Forall (fun e => row_ok (snd e) /\ entry_ok (snd e)) forest_entries.
Proof.
  one_by_one; (split; [repeat split; vm_compute; reflexivity|split; [reflexivity|]]).
  - left. split; [done|]. eexists. vm_compute. reflexivity.
  - right. split; [done|]. eexists. vm_compute. reflexivity.
  - left. split; [done|]. eexists. vm_compute. reflexivity.
Qed.
Lemma forest_ids_ok : Forall text_ok forest_ids.
Proof. one_by_one; split; vm_compute; reflexivity. Qed.

Lemma forest_tables file : holds_records TREE_BIN [RootDir; Normal "tree.bin"%string] (forest_disk file) forest_records /\
  holds_records TREE_PACK_BIN [RootDir; Normal "tree_pack.bin"%string] (forest_disk file) forest_packs.
Proof.
  split; (split; [done|]).
  - split; [one_by_one; by vm_compute|]. eexists. split; [|one_by_one; vm_compute; reflexivity]. unfold forest_disk. rewrite lookup_insert_eq. vm_compute. reflexivity.
  - split; [one_by_one; by vm_compute|]. eexists. split; [|one_by_one; vm_compute; reflexivity].
    unfold forest_disk. rewrite lookup_insert_ne, lookup_insert_eq by done. vm_compute. reflexivity.
Qed.

Lemma stored_tree_listed_witness : exists members file stats, forest_archive = Ok (members, (file, stats)) /\
  fst (list_tree_entry_views_at (P := toy_primitives) (A := toy_allocation) (T := toy_times) example_fs [RootDir] 1 (with_budget None, (empty_cache, mkIo ∅ (forest_disk file) []))) =
    Ok [entry_view 0 (example_row "a" (blob "01")); entry_view 1 (example_row "b" (blob "02"))].
Proof.
  assert (match forest_archive with Ok (_, (file, _)) => (N.of_nat (length file) <? u64_modulus)%N | Err _ => false end = true) as Hlen by (vm_compute; reflexivity).
  destruct forest_archive as [[members [file stats]]|e] eqn:Hrun; [|discriminate Hlen]. apply N.ltb_lt in Hlen. unfold forest_archive in Hrun.
  apply bind_Ok in Hrun as (members' & Hbuild & Hrun). apply bind_Ok in Hrun as ([file' stats'] & Hwrite & [= -> -> ->]). apply map_err_Ok in Hbuild.
  exists members, file, stats. split; [reflexivity|]. destruct (forest_tables file) as [Hts Hps].
  apply (stored_tree_listed (J := toy_json) (LJ := toy_json_lawful) (P := toy_primitives) (LP := toy_lawful) (A := toy_allocation) (T := toy_times) example_fs [RootDir] ∅ (forest_disk file)
    _ _ forest_records forest_packs forest_entries forest_ids forest_trees forest_rows members "TPK-000000000007" "1970-01-01T00:00:00Z" "ait-tree-pack-v2-zstd-chunked" file stats
    1 (example_tree_record Byte.x0b 1 2) (example_pack 7 0 2) tree_b None eq_refl eq_refl Hts Hps).
  - one_by_one. split; [reflexivity|]. right. vm_compute. discriminate.
  - exact forest_rows_described.
  - exact forest_trees_described.
  - exact forest_rows_ok.
  - exact forest_ids_ok.
  - exact (bool_decide_unpack (NoDup forest_ids) I).
  - reflexivity.
  - reflexivity.
  - exact Hlen.
  - exact Hbuild.
  - exact Hwrite.
  - reflexivity.
  - vm_compute. reflexivity.
  - right. split_and!; vm_compute; done.
  - unfold forest_disk, pack_file_of. rewrite !lookup_insert_ne by done. apply lookup_insert_eq.
  - vm_compute. reflexivity.
  - vm_compute. reflexivity.
  - vm_compute. reflexivity.
  - vm_compute. discriminate.
Defined.
