(* ===== verification/TreeManifest.v ===== *)
(** * The manifest of a tree

    [collect_manifest_rows] of [TreeStore] against the files below a tree: which
    rows it collects, when it fails, and that it ends. *)

From Stdlib Require Import NArith Lia.
From Stdlib Require Strings.Byte.
From stdpp Require Import base numbers strings gmap list sorting relations.
From S2P Require Import Prelude Codec FileStore BinaryDb BinaryIndex ReadTxn WriteTxn ContentCodec ContentIds ContentStore.
From S2P Require Import Json ChunkLayout PackIndex PackContainer TreePack TreeArchive TreeStore TreeReads TreeEntries.

(** ** Rows in maps *)

Lemma map_get_insert key value m k : map_get k (map_insert key value m) = if decide (key = k) then Some value else map_get k m.
Proof.
  induction m as [|[k' v'] m IH]; cbn; [done|]. destruct (decide (k' = key)) as [->|Hne]; cbn; [by destruct (decide (key = k))|].
  destruct (str_ltb key k'); cbn; [done|]. rewrite IH. destruct (decide (k' = k)) as [->|], (decide (key = k)) as [->|]; done.
Qed.

Abbreviation manifest_rows := (list (string * JsonValue)).
Definition rows_into (new : manifest_rows) (files : Map) : Map := foldl (fun files row => map_insert (fst row) (snd row) files) files new.

(** The paths of [new] are distinct, and none is in [files]. *)
Definition new_in (new : manifest_rows) (files : Map) : Prop := NoDup (map fst new) /\ forall path, path ∈ map fst new -> map_get path files = None.

Lemma rows_into_cons p v new files : rows_into ((p, v) :: new) files = rows_into new (map_insert p v files).
Proof. done. Qed.

Lemma map_get_rows_into new files path : path ∉ map fst new -> map_get path (rows_into new files) = map_get path files.
Proof.
  revert files. induction new as [|[p v] new IH]; intros files Hp; [done|]. cbn in Hp. apply not_elem_of_cons in Hp as [Hne Hp].
  rewrite rows_into_cons, IH by done. rewrite map_get_insert, decide_False by done. done.
Qed.

Lemma map_get_rows_into_new new files path : path ∈ map fst new -> is_Some (map_get path (rows_into new files)).
Proof.
  revert files. induction new as [|[p v] new IH]; intros files Hp; [by apply elem_of_nil in Hp|]. rewrite rows_into_cons.
  destruct (decide (path ∈ map fst new)) as [Hin|Hno]; [by apply IH|].
  cbn in Hp. apply elem_of_cons in Hp as [->|]; [|done]. rewrite map_get_rows_into, map_get_insert, decide_True by done. by eexists.
Qed.

Lemma rows_into_app new new' files : rows_into (new ++ new') files = rows_into new' (rows_into new files).
Proof. apply foldl_app. Qed.

Lemma new_in_app new new' files : new_in (new ++ new') files <-> new_in new files /\ new_in new' (rows_into new files).
Proof.
  unfold new_in. rewrite map_app, NoDup_app. split.
  - intros [(H1 & H2 & H3) H4]. split; [split; [done|]; intros; apply H4; set_solver|]. split; [done|]. intros path Hp.
    rewrite map_get_rows_into; [apply H4; set_solver|]. intros Hin. by apply (H2 path).
  - intros [[H1 H2] [H3 H4]]. assert (forall path, path ∈ map fst new -> path ∉ map fst new') as Hdis.
    { intros path Hp Hp'. apply (map_get_rows_into_new _ files) in Hp as [v Hv]. rewrite H4 in Hv by done. done. }
    split; [done|]. intros path [Hp|Hp]%elem_of_app; [by apply H2|]. specialize (H4 path Hp).
    rewrite map_get_rows_into in H4; [done|]. intros Hin. by apply (Hdis path).
Qed.

Lemma new_in_one path row files : new_in [(path, row)] files <-> map_get path files = None.
Proof.
  unfold new_in. cbn. split; [intros [_ H]; apply H; by left|]. intros H. split; [apply NoDup_singleton|]. by intros p ->%list_elem_of_singleton.
Qed.

Local Abbreviation collector := (stateful ((Map * gset string) * (BinaryDbTreeReadCache * (BinaryDbReadCache * io_state))) BinaryDbErrorKind).

Section Manifest.
Context {P : PackPrimitives} {A : Allocation} {T : FileTimes} (fs : LocalBinaryDbFs) (repo_root : PathBuf).
Context {du : gmap PathBuf bytes} (d : gmap PathBuf bytes) (tree_path pack_path index_path : PathBuf).
Context (Htree : file_path_for fs TREE_BIN = Ok tree_path) (Hpack : file_path_for fs TREE_PACK_BIN = Ok pack_path).
Context (Hindex : file_path_for fs TREE_ID_IDX = Ok index_path).

(** What a new reader finds in a tree. *)
Definition children (tree_id : string) : result BinaryDbErrorKind (list BinaryTreeEntryView) :=
  fst (required_tree_entries_with_cache fs repo_root tree_id (default_tree_cache, (empty_cache, mkIo du d []))).

(** ** The specification *)

Definition is_tree (entry : BinaryTreeEntryView) : bool := bool_decide (tev_entry_type entry = "tree"%string).

(** The rows of the files at most [depth] trees down, in the order of the
    entries. *)
Fixpoint manifest_of (depth : nat) (tree_id prefix : string) : option manifest_rows :=
  match depth with
  | O => None
  | S depth =>
      match children tree_id with
      | Err _ => None
      | Ok entries =>
          @concat _ <$> mapM (fun entry =>
            let path := join_path prefix (tev_entry_name entry) in
            if is_tree entry then manifest_of depth (tev_target_id entry) path else Some [(path, manifest_row path entry)]) entries
      end
  end.

(** The tree [y] is an entry of the tree [x]. *)
Definition child_of (y x : string) : Prop := exists entries entry, children x = Ok entries /\ entry ∈ entries /\ is_tree entry = true /\ tev_target_id entry = y.

Lemma manifest_child depth x prefix new y : manifest_of (S depth) x prefix = Some new -> child_of y x ->
  exists path new', manifest_of depth y path = Some new'.
Proof.
  cbn [manifest_of]. intros H (entries & entry & Hx & He & Ht & <-). rewrite Hx in H. apply fmap_Some in H as (l & Hl & _).
  apply mapM_Some in Hl. apply list_elem_of_lookup in He as [k Hk]. destruct (Forall2_lookup_l _ _ _ _ _ Hl Hk) as (r & _ & Hr). rewrite Ht in Hr. eauto.
Qed.

(** A tree whose manifest is defined is not below itself. *)
Lemma manifest_acyclic depth x prefix new : manifest_of depth x prefix = Some new -> ~ tc child_of x x.
Proof.
  revert x prefix new. induction depth as [depth IH] using lt_wf_ind. intros x prefix new H Hcycle.
  assert (forall y z, tc child_of y z -> forall depth prefix new, manifest_of depth z prefix = Some new ->
    exists depth' prefix' new', depth' < depth /\ manifest_of depth' y prefix' = Some new') as Hbelow.
  { clear. intros y z Hyz. induction Hyz as [y z Hyz|y w z Hyw Hwz IH]; intros [|depth] prefix new H; try done.
    - destruct (manifest_child _ _ _ _ _ H Hyz) as (p & n & Hn). exists depth, p, n. split; [lia|done].
    - destruct (IH _ _ _ H) as ([|depth'] & p' & n' & Hlt & Hn'); [done|]. destruct (manifest_child _ _ _ _ _ Hn' Hyw) as (p & n & Hn).
      exists depth', p, n. split; [lia|done]. }
  destruct (Hbelow x x Hcycle _ _ _ H) as (depth' & p' & n' & Hlt & Hn'). by apply (IH depth' Hlt x p' n').
Qed.

(** ** The collection *)

Local Abbreviation state files visited c t := (((files, visited) : Map * gset string), (c, (t, mkIo du d []))).
Local Abbreviation ok c t := (tree_coherent fs repo_root (du := du) d None c /\ coherent fs d t).

(** The reads of a tree inside the collection. *)
Lemma read_tree_run {X : Type} x (k : list BinaryTreeEntryView -> collector X) s :
  (tree ← in_trees (get_tree_view_by_id_with_cache fs x); tree ← lift (ok_or tree MissingData);
   entries ← in_trees (list_tree_entry_views_at fs repo_root (tv_tree_index tree)); k entries) s =
  (entries ← in_trees (required_tree_entries_with_cache fs repo_root x); k entries) s.
Proof.
  destruct s as [f s]. unfold required_tree_entries_with_cache, in_trees, mbind, stateful_bind, lift.
  destruct (get_tree_view_by_id_with_cache fs x s) as [[[tree|]|e] s1]; done.
Qed.

Lemma children_gives x : gives fs repo_root (du := du) d None (required_tree_entries_with_cache fs repo_root x) (children x).
Proof.
  pose proof (gives_required_entries fs repo_root (du := du) d tree_path pack_path index_path Htree Hpack Hindex None x) as H.
  destruct (H _ _ (fresh_tree_coherent fs repo_root (du := du) d None) (empty_coherent fs d)) as (r & c' & t' & Hrun & <- & _).
  unfold children, default_tree_cache. by rewrite Hrun.
Qed.

(** What is done with an entry. *)
Definition collect_entry (fuel : nat) (prefix : string) (entry : BinaryTreeEntryView) :=
  let path := join_path prefix (tev_entry_name entry) in
  if is_tree entry then collect_manifest_rows_cached fs repo_root fuel (tev_target_id entry) path
  else insert_file path (manifest_row path entry).

(** One tree of the collection. *)
Lemma collect_step fuel x prefix files visited c t : ok c t ->
  exists c' t', ok c' t' /\
  collect_manifest_rows_cached fs repo_root (S fuel) x prefix (state files visited c t) =
    if bool_decide (x ∈ visited) then (Err Other, state files visited c t)
    else match children x with
         | Err e => (Err e, state files (({[x]} ∪ visited) ∖ {[x]}) c' t')
         | Ok entries => then_leave x (for_each (collect_entry fuel prefix) entries) (state files ({[x]} ∪ visited) c' t')
         end.
Proof.
  intros [Hc Ht]. destruct (children_gives x c t Hc Ht) as (r & c' & t' & Hrun & <- & Hc' & Ht'). exists c', t'. split; [done|].
  cbn [collect_manifest_rows_cached]. unfold mbind at 1, stateful_bind at 1. unfold enter_tree. destruct (bool_decide (x ∈ visited)); [done|].
  unfold then_leave. rewrite read_tree_run. unfold mbind at 1, stateful_bind at 1. unfold in_trees. rewrite Hrun. by destruct (children x).
Qed.

Definition entry_rows (depth : nat) (prefix : string) (entry : BinaryTreeEntryView) : option manifest_rows :=
  let path := join_path prefix (tev_entry_name entry) in
  if is_tree entry then manifest_of depth (tev_target_id entry) path else Some [(path, manifest_row path entry)].

Lemma manifest_of_S depth x prefix : manifest_of (S depth) x prefix =
  match children x with Err _ => None | Ok entries => @concat _ <$> mapM (entry_rows depth prefix) entries end.
Proof. done. Qed.

(** *** What is collected is the manifest *)

(** [m] collects rows that [spec] gives. *)
Definition collects (m : collector unit) (spec : option manifest_rows) : Prop :=
  forall files visited c t s', ok c t -> m (state files visited c t) = (Ok tt, s') ->
    exists new c' t', spec = Some new /\ new_in new files /\ s' = state (rows_into new files) visited c' t' /\ ok c' t'.

Lemma collects_entries (f : BinaryTreeEntryView -> collector unit) (spec : BinaryTreeEntryView -> option manifest_rows) entries : (forall entry, collects (f entry) (spec entry)) -> collects (for_each f entries) (@concat _ <$> mapM spec entries).
Proof.
  intros Hf. induction entries as [|entry entries IH]; intros files visited c t s' Hok H; cbn [for_each] in H.
  - injection H as <-. exists [], c, t. split; [done|]. split; [split; [constructor|by intros path []%elem_of_nil]|done].
  - apply bind_run_Ok in H as ([] & s1 & H1 & H). destruct (Hf entry _ _ _ _ _ Hok H1) as (new & c1 & t1 & Hnew & Hin & -> & Hok1).
    destruct (IH _ _ _ _ _ Hok1 H) as (rest & c2 & t2 & Hrest & Hin2 & -> & Hok2). exists (new ++ rest), c2, t2.
    apply fmap_Some in Hrest as (l & Hl & ->). cbn [mapM]. rewrite Hnew. cbn [mbind option_bind]. rewrite Hl. cbn [mbind option_bind fmap option_fmap option_map concat].
    split; [done|]. split; [by apply new_in_app|]. split; [by rewrite rows_into_app|done].
Qed.

Lemma collects_tree fuel x prefix : collects (collect_manifest_rows_cached fs repo_root fuel x prefix) (manifest_of fuel x prefix).
Proof.
  revert x prefix. induction fuel as [|fuel IH]; intros x prefix files visited c t s' Hok H; [discriminate H|].
  destruct (collect_step fuel x prefix files visited c t Hok) as (c' & t' & Hok' & Hrun). rewrite Hrun in H. clear Hrun.
  destruct (bool_decide_reflect (x ∈ visited)) as [|Hx]; [discriminate H|]. rewrite manifest_of_S. destruct (children x) as [entries|e]; [|discriminate H].
  unfold then_leave in H. destruct (for_each _ entries _) as [[[]|e] [[files1 visited1] s1]] eqn:Hloop; [|discriminate H]. injection H as <-.
  assert (collects (for_each (collect_entry fuel prefix) entries) (@concat _ <$> mapM (entry_rows fuel prefix) entries)) as Hc.
  { apply collects_entries. intros entry. unfold collect_entry, entry_rows. destruct (is_tree entry); [apply IH|].
    intros f v c1 t1 s2 Hok1 H. unfold insert_file in H. destruct (map_get _ f) eqn:Hget; [discriminate H|]. injection H as <-.
    exists [(join_path prefix (tev_entry_name entry), manifest_row (join_path prefix (tev_entry_name entry)) entry)], c1, t1. split; [done|].
    split; [by apply new_in_one|done]. }
  destruct (Hc _ _ _ _ _ Hok' Hloop) as (new & c1 & t1 & Hnew & Hin & [= -> -> ->] & Hok1). exists new, c1, t1. split; [done|]. split; [done|].
  split; [|done]. do 3 f_equal. set_solver.
Qed.

(** *** The manifest is collected *)

Definition apart (visited : gset string) (x : string) : Prop := forall v, v ∈ visited -> v <> x /\ ~ tc child_of v x.

Lemma collected_entries (f : BinaryTreeEntryView -> collector unit) (spec : BinaryTreeEntryView -> option manifest_rows) entries visited :
  (forall entry files c t new, entry ∈ entries -> ok c t -> spec entry = Some new -> new_in new files ->
    exists c' t', f entry (state files visited c t) = (Ok tt, state (rows_into new files) visited c' t') /\ ok c' t') ->
  forall files c t new, ok c t -> @concat _ <$> mapM spec entries = Some new -> new_in new files ->
    exists c' t', for_each f entries (state files visited c t) = (Ok tt, state (rows_into new files) visited c' t') /\ ok c' t'.
Proof.
  induction entries as [|entry entries IH]; intros Hf files c t new Hok Hnew Hin; cbn [for_each].
  - injection Hnew as <-. by exists c, t.
  - apply fmap_Some in Hnew as (l & Hl & ->). cbn [mapM] in Hl. apply bind_Some in Hl as (new & Hnew & Hl). apply bind_Some in Hl as (rest & Hrest & [= <-]).
    cbn [concat] in Hin |- *. apply new_in_app in Hin as [Hin Hin2].
    destruct (Hf entry files c t new) as (c1 & t1 & Hrun & Hok1); [by left|done..|]. erewrite bind_run by exact Hrun. rewrite rows_into_app.
    apply IH; [|done|by rewrite Hrest|done]. intros e' f' c' t' n' He'. apply Hf. by right.
Qed.

Lemma collected_tree fuel x prefix new files visited c t : manifest_of fuel x prefix = Some new -> new_in new files -> apart visited x -> ok c t ->
  exists c' t', collect_manifest_rows_cached fs repo_root fuel x prefix (state files visited c t) = (Ok tt, state (rows_into new files) visited c' t') /\ ok c' t'.
Proof.
  revert x prefix new files visited c t. induction fuel as [|fuel IH]; intros x prefix new files visited c t Hnew Hin Hap Hok; [discriminate Hnew|].
  pose proof (manifest_acyclic _ _ _ _ Hnew) as Hacyclic. rewrite manifest_of_S in Hnew.
  destruct (collect_step fuel x prefix files visited c t Hok) as (c' & t' & Hok' & Hrun). rewrite Hrun. clear Hrun.
  rewrite bool_decide_eq_false_2 by (intros Hx; by destruct (Hap x Hx)). destruct (children x) as [entries|e] eqn:Hx; [|discriminate Hnew].
  destruct (collected_entries (collect_entry fuel prefix) (entry_rows fuel prefix) entries ({[x]} ∪ visited)) with files c' t' new as (c1 & t1 & Hrun & Hok1); [|done..|].
  - intros entry f c1 t1 n He Hok1 Hn Hin1. unfold collect_entry, entry_rows in *. destruct (is_tree entry) eqn:Ht.
    + assert (child_of (tev_target_id entry) x) as Hchild by (by exists entries, entry). apply IH; [done|done| |done].
      intros v [->%elem_of_singleton|Hv]%elem_of_union.
      * split; [intros Heq; apply Hacyclic, tc_once; by rewrite <- Heq in Hchild at 1|]. intros Hv. apply Hacyclic. by eapply tc_r.
      * destruct (Hap v Hv) as [Hne Hno]. split; [intros ->; by apply Hno, tc_once|]. intros Hv'. apply Hno. by eapply tc_r.
    + injection Hn as <-. apply new_in_one in Hin1. exists c1, t1. unfold insert_file. rewrite Hin1. done.
  - exists c1, t1. split; [|done]. unfold then_leave. rewrite Hrun. do 4 f_equal.
    assert (x ∉ visited) by (intros Hv; by destruct (Hap x Hv)). set_solver.
Qed.

(** *** The collection ends *)

Lemma manifest_more depth x prefix new : manifest_of depth x prefix = Some new -> manifest_of (S depth) x prefix = Some new.
Proof.
  revert x prefix new. induction depth as [|depth IH]; intros x prefix new H; [discriminate H|]. rewrite manifest_of_S in H |- *.
  destruct (children x) as [entries|e]; [|done]. apply fmap_Some in H as (l & Hl & ->). apply fmap_Some. exists l. split; [|done].
  apply mapM_Some in Hl. apply mapM_Some. eapply Forall2_impl; [exact Hl|]. intros entry r Hr. unfold entry_rows in *. destruct (is_tree entry); [by apply IH|done].
Qed.
Lemma manifest_le depth depth' x prefix new : depth <= depth' -> manifest_of depth x prefix = Some new -> manifest_of depth' x prefix = Some new.
Proof. induction 1 as [|n _ IH]; [done|]. intros Hn. by apply manifest_more, IH. Qed.

(** A set of trees with everything below them. *)
Definition closed (trees : gset string) : Prop := forall x y, x ∈ trees -> child_of y x -> y ∈ trees.

(** Both computations end the same, in a state from which others can go on. *)
Definition same_run (visited : gset string) (m m' : collector unit) (files : Map) c t : Prop :=
  exists r files' visited' c' t', m (state files visited c t) = (r, state files' visited' c' t') /\ m' (state files visited c t) = (r, state files' visited' c' t') /\
    ok c' t' /\ (r = Ok tt -> visited' = visited).

Lemma same_entries_run (f f' : BinaryTreeEntryView -> collector unit) entries visited :
  (forall entry files c t, entry ∈ entries -> ok c t -> same_run visited (f entry) (f' entry) files c t) ->
  forall files c t, ok c t -> same_run visited (for_each f entries) (for_each f' entries) files c t.
Proof.
  induction entries as [|entry entries IH]; intros Hf files c t Hok; cbn [for_each]; [by exists (Ok tt), files, visited, c, t|].
  destruct (Hf entry files c t) as (r & files1 & visited1 & c1 & t1 & H1 & H2 & Hok1 & Hv); [by left|done|]. unfold same_run, mbind, stateful_bind. rewrite H1, H2.
  destruct r as [[]|e]; [|by exists (Err e), files1, visited1, c1, t1]. rewrite (Hv eq_refl). apply IH; [|done]. intros e' f1 c2 t2 He. apply Hf. by right.
Qed.

Lemma fuel_enough trees fuel fuel' x prefix visited files c t : closed trees -> x ∈ trees -> size (trees ∖ visited) < fuel -> size (trees ∖ visited) < fuel' -> ok c t ->
  same_run visited (collect_manifest_rows_cached fs repo_root fuel x prefix) (collect_manifest_rows_cached fs repo_root fuel' x prefix) files c t.
Proof.
  intros Hclosed. revert fuel' x prefix visited files c t. induction fuel as [|fuel IH]; intros [|fuel'] x prefix visited files c t Hx Hf Hf' Hok; [lia..|].
  destruct Hok as [Hc Ht]. destruct (children_gives x c t Hc Ht) as (r & c' & t' & Hread & <- & Hc' & Ht').
  assert (forall fuel, collect_manifest_rows_cached fs repo_root (S fuel) x prefix (state files visited c t) =
    if bool_decide (x ∈ visited) then (Err Other, state files visited c t)
    else match children x with
         | Err e => (Err e, state files (({[x]} ∪ visited) ∖ {[x]}) c' t')
         | Ok entries => then_leave x (for_each (collect_entry fuel prefix) entries) (state files ({[x]} ∪ visited) c' t')
         end) as Hstep.
  { intros n. cbn [collect_manifest_rows_cached]. unfold mbind at 1, stateful_bind at 1. unfold enter_tree. destruct (bool_decide (x ∈ visited)); [done|].
    unfold then_leave. rewrite read_tree_run. unfold mbind at 1, stateful_bind at 1. unfold in_trees. rewrite Hread. by destruct (children x). }
  unfold same_run. rewrite !Hstep. destruct (bool_decide_reflect (x ∈ visited)) as [|Hno]; [by exists (Err Other), files, visited, c, t|].
  destruct (children x) as [entries|e] eqn:Hch; [|by eexists _, files, _, c', t'].
  assert (size (trees ∖ ({[x]} ∪ visited)) < size (trees ∖ visited)) as Hless.
  { apply subset_size. split; [set_solver|]. intros Hsub. assert (x ∈ trees ∖ visited) as Hin by set_solver. apply Hsub in Hin. set_solver. }
  destruct (same_entries_run (collect_entry fuel prefix) (collect_entry fuel' prefix) entries ({[x]} ∪ visited)) with files c' t'
    as (r & files1 & visited1 & c1 & t1 & H1 & H2 & Hok1 & Hv); [|done|].
  - intros entry f1 c1 t1 He Hok1. unfold collect_entry. destruct (is_tree entry) eqn:Hist.
    + apply IH; [|lia|lia|done]. apply (Hclosed x); [done|]. by exists entries, entry.
    + unfold same_run, insert_file. destruct (map_get _ f1); cbn; by eexists _, _, _, c1, t1.
  - unfold then_leave. rewrite H1, H2. exists r, files1, (visited1 ∖ {[x]}), c1, t1. split_and!; [done|done|apply Hok1|apply Hok1|]. intros Hr. rewrite (Hv Hr). set_solver.
Qed.

(** C31. The manifest of a tree is right, and reading it ends. Let [trees] be the
    tree and everything below it, as new readers see them. With fuel for one
    call per tree, the collection succeeds exactly when the files below the tree form
    a finite manifest - every tree down to the leaves can be read, no tree is
    below itself - whose paths are distinct and new; and then it adds a row
    for every file, under its path. More fuel changes no result. *)
Theorem manifest_rows_spec trees tree_id prefix files fuel : closed trees -> tree_id ∈ trees -> size trees < fuel ->
  (forall files' visited',
    fst (collect_manifest_rows fs repo_root fuel tree_id prefix files ∅ (empty_cache, mkIo du d [])) = Ok (files', visited') <->
    exists depth new, manifest_of depth tree_id prefix = Some new /\ new_in new files /\ files' = rows_into new files /\ visited' = ∅) /\
  (forall fuel', fuel <= fuel' ->
    collect_manifest_rows fs repo_root fuel' tree_id prefix files ∅ (empty_cache, mkIo du d []) =
    collect_manifest_rows fs repo_root fuel tree_id prefix files ∅ (empty_cache, mkIo du d [])).
Proof.
  intros Hclosed Hin Hfuel. assert (ok default_tree_cache empty_cache) as Hok by (split; [apply fresh_tree_coherent|apply empty_coherent]).
  assert (forall fuel', fuel <= fuel' -> collect_manifest_rows_cached fs repo_root fuel' tree_id prefix (state files (∅ : gset string) default_tree_cache empty_cache) =
    collect_manifest_rows_cached fs repo_root fuel tree_id prefix (state files (∅ : gset string) default_tree_cache empty_cache)) as Hmore.
  { intros fuel' Hle. assert (size (trees ∖ ∅) < fuel) as Hs by (by rewrite difference_empty_L).
    destruct (fuel_enough trees fuel fuel' tree_id prefix ∅ files default_tree_cache empty_cache) as (r & f1 & v1 & c1 & t1 & H1 & H2 & _); [done|done|done|lia|done|].
    by rewrite H1, H2. }
  split.
  - intros files' visited'. unfold collect_manifest_rows. split.
    + destruct (collect_manifest_rows_cached fs repo_root fuel tree_id prefix _) as [[[]|e] [out [c1 s1]]] eqn:Hrun; [|done]. cbn [fst]. intros [= ->].
      destruct (collects_tree fuel tree_id prefix _ _ _ _ _ Hok Hrun) as (new & c2 & t2 & Hnew & Hni & [= -> -> _ _] & _). by exists fuel, new.
    + intros (depth & new & Hnew & Hni & -> & ->). apply (manifest_le _ (Nat.max depth fuel)) in Hnew; [|lia].
      destruct (collected_tree _ _ _ _ files ∅ default_tree_cache empty_cache Hnew Hni) as (c1 & t1 & Hrun & _); [by intros v Hv%elem_of_empty|done|].
      rewrite Hmore in Hrun by lia. by rewrite Hrun.
  - intros fuel' Hle. unfold collect_manifest_rows. by rewrite (Hmore fuel' Hle).
Qed.
End Manifest.

(** ** An example *)

(** The two trees of [TreeEntries], as a repository on the disk. *)
Definition archive_file (r : result tree_pack_error (JsonValue * (bytes * JsonValue))) : bytes := match r with Ok (_, (file, _)) => file | Err _ => [] end.
Definition forest_file : bytes := Eval vm_compute in archive_file forest_archive.
Definition paths_of (r : result BinaryDbErrorKind (Map * gset string)) : option (list string) := match r with Ok (files, _) => Some (map fst files) | Err _ => None end.
Local Abbreviation forest_children tree_id :=
  (children (P := toy_primitives) (A := toy_allocation) (T := toy_times) example_fs [RootDir] (du := ∅) (forest_disk forest_file) tree_id).
Local Abbreviation forest_manifest fuel := (collect_manifest_rows (P := toy_primitives) (A := toy_allocation) (T := toy_times) example_fs [RootDir] fuel
  tree_a "" [] ∅ (empty_cache, mkIo ∅ (forest_disk forest_file) [])).

Lemma forest_children_a : forest_children tree_a = Ok [entry_view 0 (mkRow "sub" "tree" tree_b None "040000")].
Proof. vm_compute. reflexivity. Qed.
Lemma forest_children_b : forest_children tree_b = Ok [entry_view 0 (example_row "a" (blob "01")); entry_view 1 (example_row "b" (blob "02"))].
Proof. vm_compute. reflexivity. Qed.

Lemma manifest_rows_spec_witness : paths_of (fst (forest_manifest 3)) = Some ["sub/a"; "sub/b"]%string /\ forest_manifest 4 = forest_manifest 3.
Proof.
  assert (closed (P := toy_primitives) (A := toy_allocation) (T := toy_times) example_fs [RootDir] (du := ∅) (forest_disk forest_file) {[tree_a; tree_b]}) as Hclosed.
  { intros x y [->%elem_of_singleton| ->%elem_of_singleton]%elem_of_union (entries & entry & Hx & He & Ht & <-).
    - rewrite forest_children_a in Hx. injection Hx as <-. apply list_elem_of_singleton in He as ->. cbn. set_solver.
    - rewrite forest_children_b in Hx. injection Hx as <-. repeat apply elem_of_cons in He as [->|He]; try discriminate Ht. by apply elem_of_nil in He. }
  destruct (manifest_rows_spec (P := toy_primitives) (A := toy_allocation) (T := toy_times) example_fs [RootDir] (du := ∅) (forest_disk forest_file) _ _ _ eq_refl eq_refl eq_refl
    {[tree_a; tree_b]} tree_a "" [] 3 Hclosed) as [Hspec Hmore]; [set_solver|vm_compute; lia|].
  split; [|apply Hmore; lia]. vm_compute. reflexivity.
Defined.
