(* ===== verification/StillReads.v ===== *)
(** * Reading leaves files alone

    Reading the database and the blobs of the content changes no file, whichever
    calls fail; the record files that a read transaction remembers are those on
    the disk, so that every view is made of a record that is stored there. When
    no call fails, the states of the files are the same altogether. *)

From Stdlib Require Import NArith Lia.
From Stdlib Require Strings.Byte.
From stdpp Require Import base numbers strings gmap list sorting.
From S2P Require Import Prelude Codec FileStore BinaryDb BinaryIndex ReadTxn WriteTxn ContentCodec ContentIds ContentStore.
From S2P Require Import PackCodec PackIndex PackContainer TreeStore BlobStore.

(** ** States with files *)

(** The files of a state, and the record files that it remembers. *)
Class HasFiles (S : Type) : Type := { files_of : S -> io_state; records_of : S -> gmap (PathBuf * N * N) (option bytes) }.
#[export] Instance io_has_files : HasFiles io_state := {| files_of s := s; records_of _ := ∅ |}.
#[export] Instance read_has_files : HasFiles (BinaryDbReadCache * io_state) := {| files_of := snd; records_of s := record_files (fst s) |}.
#[export] Instance session_has_files {S : Type} {H : HasFiles S} : HasFiles (BinaryBlobReadSession * S) :=
  {| files_of s := files_of (snd s); records_of s := records_of (snd s) |}.

Section Still.
Context (fs : LocalBinaryDbFs).

(** Remembered record files are the files on the disk. *)
Definition records_true (d : gmap PathBuf bytes) (records : gmap (PathBuf * N * N) (option bytes)) : Prop :=
  forall file path data, file_path_for fs (relative_path file) = Ok path -> records !! file_key file = Some (Some data) -> d !! path = Some data.
Definition reads_truly {S : Type} {H : HasFiles S} (s : S) : Prop := records_true (disk (files_of s)) (records_of s).

(** The files on the disk are the same, what was true is still true, and without
    failures to come nothing else changes. *)
Record still {S : Type} {H : HasFiles S} (s s' : S) : Prop := {
  still_disk : disk (files_of s') = disk (files_of s);
  still_truth : reads_truly s -> reads_truly s';
  still_files : faults (files_of s) = [] -> files_of s' = files_of s
}.
#[export] Instance still_preorder {S : Type} {H : HasFiles S} : PreOrder (still (S := S)).
Proof.
  split; [done|]. intros x y z [Hd1 Ht1 Hf1] [Hd2 Ht2 Hf2]. split; [congruence|auto|]. intros Hx. specialize (Hf1 Hx). rewrite <- Hf1. apply Hf2. by rewrite Hf1.
Qed.

Lemma empty_reads_truly s : reads_truly (empty_cache, s).
Proof. intros file path data _. cbn. by rewrite lookup_empty. Qed.

Create HintDb still.

Lemma still_query {A : Type} (op : gmap PathBuf bytes -> result FileIoErrorKind A) : preserves still (query op).
Proof.
  intros s. split; [apply query_disk|by intros _ file path data _|]. cbn. intros Hs. unfold query, next_fault. by rewrite Hs.
Qed.
Lemma still_uncached {A : Type} (m : db A) : preserves still m -> preserves still (uncached m).
Proof.
  intros Hm [c s]. destruct (Hm s) as [Hd _ Hf]. unfold uncached. destruct (m s) as [r s']. cbn in *. split; [done| |done].
  intros Ht file path data Hp Hl. cbn. rewrite Hd. by apply (Ht file).
Qed.
Lemma still_cache : preserves still read_cache.
Proof. by intros [c s]. Qed.
Lemma still_update f : (forall c, record_files (f c) = record_files c) -> preserves still (update_cache f).
Proof. intros H [c s]. split; [done| |done]. intros Ht file path data. cbn. rewrite H. apply Ht. Qed.
Lemma still_session : preserves still session.
Proof. by intros [c s]. Qed.
Lemma still_change f : preserves still (change_session f).
Proof. by intros [c s]. Qed.

(** The same states in another computation. *)
Lemma still_in_db {A : Type} (m : cached A) : preserves still m -> preserves still (in_db m).
Proof. intros Hm [c s]. destruct (Hm s) as [Hd Ht Hf]. unfold in_db. by destruct (m s). Qed.
Lemma still_settled {A : Type} (m : blobbed A) : preserves still m -> preserves still (settled m).
Proof. intros Hm s. specialize (Hm s). unfold settled. by destruct (m s). Qed.
Lemma still_unless {S A : Type} {H : HasFiles S} (m : stateful S BinaryDbErrorKind A) : preserves still m -> preserves still (unless_missing m).
Proof. intros Hm s. specialize (Hm s). unfold unless_missing. destruct (m s) as [[a|[]] s']; exact Hm. Qed.
#[local] Hint Resolve still_cache still_session still_change : still.

(** Walks through an operation that reads. *)
Ltac stills :=
  repeat match goal with
  | |- preserves _ (_ ≫= _) => apply preserves_bind; [apply _| |intros ?]
  | |- preserves _ (mret _) => apply preserves_ret; apply _
  | |- preserves _ (lift _) => apply preserves_lift; apply _
  | |- preserves _ (require _ _) => apply preserves_lift; apply _
  | |- preserves _ (io _) => apply preserves_map_error
  | |- preserves _ (query _) => apply still_query
  | |- preserves _ (uncached _) => apply still_uncached
  | |- preserves _ (unless_missing _) => apply still_unless
  | |- preserves _ (in_db _) => apply still_in_db
  | |- preserves _ (settled _) => apply still_settled
  | |- preserves _ (update_cache _) => apply still_update; reflexivity
  | |- preserves _ (match ?x with _ => _ end) => destruct x
  | |- preserves _ (let _ := _ in _) => cbv zeta
  | |- preserves _ _ => solve [eauto with still typeclass_instances]
  end.

(** ** The database *)

Lemma still_valid path layout size : preserves still (ensure_binary_file_valid path layout size).
Proof. unfold ensure_binary_file_valid, read_layout_id, metadata_len, read_range. stills. Qed.
#[local] Hint Resolve still_valid : still.
Lemma still_count file : preserves still (record_count fs file).
Proof. unfold record_count, metadata_len. stills. Qed.
Lemma still_layout file : preserves still (read_txn_layout_id fs file).
Proof. unfold read_txn_layout_id, layout_id, read_layout_id, metadata_len, read_range. stills. Qed.

(** A record file that was read is on the disk. *)
Lemma record_file_true file path s data s' : file_path_for fs (relative_path file) = Ok path ->
  read_record_file_bytes fs file s = (Ok (Some data), s') -> disk s' !! path = Some data.
Proof.
  intros Hp H. unfold read_record_file_bytes in H. erewrite bind_lift in H by exact Hp. apply bind_run_Ok in H as ([len|] & s1 & _ & H); [|discriminate H].
  apply bind_run_Ok in H as (u & s2 & _ & H). apply bind_run_Ok in H as (data' & s3 & Hd%io_Ok%query_Ok & [= <- <-]).
  destruct Hd as [Hd%ok_or_Ok Hs]. by rewrite Hs.
Qed.
Lemma still_remember file path : file_path_for fs (relative_path file) = Ok path ->
  preserves still (data ← uncached (read_record_file_bytes fs file); update_cache (remember_record_file file data)).
Proof.
  intros Hp [c s]. assert (preserves still (read_record_file_bytes fs file)) as Hs by (unfold read_record_file_bytes, metadata_len, read_bytes_at; stills).
  specialize (Hs s). pose proof (record_file_true file path s) as Htrue. unfold mbind, stateful_bind, uncached.
  destruct (read_record_file_bytes fs file s) as [[data|e] s'] eqn:Hrun; destruct Hs as [Hd _ Hf]; cbn in *; (split; [done| |done]); intros Ht file' path' data' Hp'; cbn; [|rewrite Hd; by apply Ht].
  destruct (decide (file_key file = file_key file')) as [He|Hne]; [|rewrite lookup_insert_ne, Hd by done; by apply Ht].
  rewrite He, lookup_insert_eq. intros [= ->]. injection He as Hc _ _. rewrite <- (path_of_components fs _ _ _ _ Hc Hp Hp'). by eapply Htrue.
Qed.
Lemma still_record file i : preserves still (read_record_in_read_txn fs file i).
Proof.
  unfold read_record_in_read_txn. apply preserves_bind_lift; [apply _|]. intros path Hp. apply preserves_bind; [apply _|stills|intros cache].
  apply preserves_bind; [apply _| |intros []; stills]. destruct (_ !! _); [stills|by eapply still_remember].
Qed.
Lemma still_lookup index key : preserves still (lookup_index_in_read_txn fs index key).
Proof.
  unfold lookup_index_in_read_txn, read_index_file_bytes, validate_index_file_layout, read_layout_id, metadata_len, read_bytes_at, read_range. stills.
Qed.
#[local] Hint Resolve still_count still_layout still_record still_lookup : still.

Lemma still_persisted path size : preserves still (persisted_content_layout fs path size).
Proof. unfold persisted_content_layout. stills. Qed.
#[local] Hint Resolve still_persisted : still.
Lemma still_required path size : preserves still (required_content_layout fs path size).
Proof. unfold required_content_layout. stills. Qed.
Lemma still_candidates index key : preserves still (index_candidates fs index key).
Proof. unfold index_candidates. stills. Qed.
#[local] Hint Resolve still_required still_candidates : still.

(** ** Views and blobs *)

Lemma still_blob_view i : preserves still (blob_view_at fs i).
Proof. unfold blob_view_at, read_blob_record. stills. Qed.
Lemma still_pack_view i : preserves still (object_pack_view_at fs i).
Proof. unfold object_pack_view_at, read_object_pack_record_at. stills. Qed.
#[local] Hint Resolve still_blob_view still_pack_view : still.
Lemma still_member_view i : preserves still (object_pack_member_view_at fs i).
Proof. unfold object_pack_member_view_at, read_object_pack_member_record_at. stills. Qed.
Lemma still_first_blob id candidates : preserves still (first_blob fs id candidates).
Proof. induction candidates as [|i candidates IH]; cbn [first_blob]; stills. Qed.
#[local] Hint Resolve still_member_view still_first_blob : still.
Lemma still_blob_by_id id : preserves still (get_blob_view_by_id fs id).
Proof. unfold get_blob_view_by_id. stills. Qed.
#[local] Hint Resolve still_blob_by_id : still.

Context {P : PackPrimitives} {T : FileTimes} (repo_root : PathBuf).

Section Session.
Context (legacy : option (gmap string N)).

Lemma still_file path : preserves still (pack_with_stamp path).
Proof. by intros [c [t s]]. Qed.
#[local] Hint Resolve still_file : still.
Lemma still_find id : preserves still (find_blob_view fs legacy id).
Proof. unfold find_blob_view. stills. Qed.
#[local] Hint Resolve still_find : still.

Lemma still_reader key path pack_format data stamp : preserves still (object_pack_reader key path pack_format data stamp).
Proof. unfold object_pack_reader. stills. Qed.
Lemma still_admit key stamp : preserves still (admit_stamp key stamp).
Proof. unfold admit_stamp. stills. Qed.
Lemma still_from_reader key data name : preserves still (read_from_reader key data name).
Proof. unfold read_from_reader. stills. Qed.
#[local] Hint Resolve still_reader still_admit still_from_reader : still.

Lemma still_resolve read_base view : (forall id, preserves still (read_base id)) -> preserves still (resolve_blob_bytes_for_view fs repo_root read_base view).
Proof. intros Hbase. unfold resolve_blob_bytes_for_view. stills. Qed.

Lemma still_read fuel view depth : preserves still (read_blob_bytes_for_view_with_session fs repo_root legacy fuel view depth).
Proof.
  revert view depth. induction fuel as [|fuel IH]; intros view depth; cbn [read_blob_bytes_for_view_with_session]; stills.
  apply still_resolve. intros id. stills.
Qed.
Lemma still_read_id id depth : preserves still (read_blob_bytes_for_id_with_session fs repo_root legacy id depth).
Proof. unfold read_blob_bytes_for_id_with_session. pose proof still_read. stills. Qed.
End Session.

Lemma still_read_view view depth : preserves still (read_blob_bytes_for_view fs repo_root view depth).
Proof.
  intros s. unfold read_blob_bytes_for_view, with_session. pose proof (still_read None (blob_fuel depth) view depth (default_session, s)) as H.
  destruct (read_blob_bytes_for_view_with_session _ _ _ _ _ _ _) as [r [c s']]. by destruct H.
Qed.

(** ** Where views come from *)

(** The blob file has this record at this index. *)
Definition stored_blob (d : gmap PathBuf bytes) (index : N) (record : BinaryBlobRecord) : Prop := exists path data layout raw,
  file_path_for fs BLOB_BIN = Ok path /\ d !! path = Some data /\
  record_from_file_bytes (mkFileId BLOB_BIN layout (N.of_nat BLOB_RECORD_SIZE)) index (Some data) = Ok raw /\ decode_blob_record layout raw = Ok record.
(** The view is the one of a stored record that is not deleted and has the id. *)
Definition live_view (d : gmap PathBuf bytes) (blob_id : string) (view : BinaryBlobView) : Prop := exists index record,
  view = blob_view index record /\ stored_blob d index record /\ eq_ignore_ascii_case (bv_blob_id view) blob_id = true /\ blob_is_tombstone record = false.

Lemma step_truly {S A B : Type} {H : HasFiles S} (m : stateful S BinaryDbErrorKind A) (k : A -> stateful S BinaryDbErrorKind B) s b s' : preserves still m -> reads_truly s ->
  (m ≫= k) s = (Ok b, s') -> exists a s1, k a s1 = (Ok b, s') /\ reads_truly s1 /\ disk (files_of s1) = disk (files_of s) /\ m s = (Ok a, s1).
Proof.
  intros Hm Hs (a & s1 & Ha & Hk)%bind_run_Ok. pose proof (Hm s) as [Hd Ht _]. rewrite Ha in Hd, Ht. exists a, s1. by split_and!; [|apply Ht|..].
Qed.

Lemma record_read_true file path i s raw s' : file_path_for fs (relative_path file) = Ok path -> reads_truly s -> read_record_in_read_txn fs file i s = (Ok raw, s') ->
  exists data, disk (files_of s) !! path = Some data /\ record_from_file_bytes file i (Some data) = Ok raw.
Proof.
  intros Hp Hs H. unfold read_record_in_read_txn in H. erewrite bind_run in H by (by rewrite Hp). destruct s as [c s]. erewrite bind_run in H by done.
  assert (preserves still match record_files c !! file_key file with Some _ => mret tt
    | None => data ← uncached (read_record_file_bytes fs file); update_cache (remember_record_file file data) end) as Hm.
  { destruct (_ !! _); [stills|by eapply still_remember]. }
  apply (step_truly _ _ _ _ _ Hm Hs) in H as ([] & [c1 s1] & H & Ht & Hd & _). erewrite bind_run in H by done.
  injection H as H _. destruct (record_files c1 !! file_key file) as [[data|]|] eqn:Hl; [|discriminate H..]. exists data. split; [|exact H].
  rewrite <- Hd. by apply (Ht file).
Qed.

Lemma blob_view_stored i s view s' : reads_truly s -> blob_view_at fs i s = (Ok view, s') -> exists record, view = blob_view i record /\ stored_blob (disk (files_of s)) i record.
Proof.
  intros Hs (record & s1 & H & [= <- <-])%bind_run_Ok. exists record. split; [done|]. unfold read_blob_record in H.
  apply (step_truly _ _ _ _ _ (still_required _ _) Hs) in H as (layout & s2 & H & Hs2 & Hd & _).
  apply bind_run_Ok in H as (file & s3 & Hfile & H). unfold lift in Hfile. injection Hfile as Hfile <-. unfold content_record_file in Hfile. inv_ok.
  apply bind_run_Ok in H as (raw & s4 & Hraw & H). injection H as Hdec _.
  assert (exists path, file_path_for fs BLOB_BIN = Ok path) as [path Hp].
  { unfold read_record_in_read_txn in Hraw. apply bind_run_Ok in Hraw as (path & ? & Hp & _). injection Hp as Hp _. by exists path. }
  destruct (record_read_true (mkFileId BLOB_BIN layout (N.of_nat BLOB_RECORD_SIZE)) path i s2 raw s4 Hp Hs2 Hraw) as (data & Hdata & Hcut). exists path, data, layout, raw. split_and!; [done|by rewrite <- Hd|done|].
  by destruct (decode_blob_record layout raw); [injection Hdec as ->|].
Qed.

Lemma first_blob_stored blob_id candidates s view s' : reads_truly s -> first_blob fs blob_id candidates s = (Ok (Some view), s') -> live_view (disk (files_of s)) blob_id view.
Proof.
  revert s. induction candidates as [|i candidates IH]; intros s Hs H; cbn [first_blob] in H; [discriminate H|].
  apply (step_truly _ _ _ _ _ (still_blob_view i) Hs) in H as (v & s1 & H & Hs1 & Hd & Hv). destruct (eq_ignore_ascii_case _ _ && negb _) eqn:Heq.
  - injection H as -> _. apply andb_true_iff in Heq as [Heq Hl%negb_true_iff]. destruct (blob_view_stored i s _ _ Hs Hv) as (record & -> & Hst). by exists i, record.
  - rewrite <- Hd. by eapply IH.
Qed.

Lemma view_by_id_live blob_id s view s' : reads_truly s -> get_blob_view_by_id fs blob_id s = (Ok (Some view), s') -> live_view (disk (files_of s)) blob_id view.
Proof.
  intros Hs (key & s0 & Hkey & H)%bind_run_Ok. injection Hkey as _ <-.
  apply (step_truly _ _ _ _ _ (still_persisted _ _) Hs) in H as ([layout|] & s1 & H & Hs1 & <- & _); [|discriminate H].
  apply bind_run_Ok in H as (index & s2 & Hindex & H). injection Hindex as _ <-.
  apply (step_truly _ _ _ _ _ (still_candidates _ _) Hs1) in H as (candidates & s3 & H & Hs3 & <- & _). by eapply first_blob_stored.
Qed.
End Still.
