(* ===== verification/BlobReads.v ===== *)
(** * What a session of blob reads gives

    Whatever the files hold: the bytes that [BlobStore] returns for a blob have
    the hash and the size that a stored record gives; a session that reads blobs
    keeps within its budget; and every read ends, after as many steps as the limit
    of the depth allows. *)

From Stdlib Require Import NArith Lia.
From Stdlib Require Strings.Byte.
From stdpp Require Import base numbers strings gmap fin_maps list sorting.
From S2P Require Import Prelude Codec FileStore BinaryDb BinaryIndex ReadTxn WriteTxn ContentCodec ContentIds ContentStore.
From S2P Require Import PackCodec ChunkLayout PackIndex PackContainer PackRead TreeStore TreeReads TreeCache BlobStore StillReads.

(** ** Statements about computations with a session *)

(** From a session in [P], [m] returns a value with a session in [Q] or fails
    with one in [E]. *)
Definition ensures {A : Type} (E P : BinaryBlobReadSession -> Prop) (m : blobbed A) (Q : A -> BinaryBlobReadSession -> Prop) : Prop :=
  forall c s, P c -> match m (c, s) with (Ok a, s') => Q a (fst s') | (Err _, s') => E (fst s') end.

Section Rules.
Context {E : BinaryBlobReadSession -> Prop}.

Lemma ensures_ret {A : Type} P (a : A) (Q : A -> BinaryBlobReadSession -> Prop) : (forall c, P c -> Q a c) -> ensures E P (mret a) Q.
Proof. intros H c s Hc. by apply H. Qed.

Lemma ensures_bind {A B : Type} P Q R (m : blobbed A) (k : A -> blobbed B) : ensures E P m Q -> (forall a, ensures E (Q a) (k a) R) -> ensures E P (m ≫= k) R.
Proof.
  intros Hm Hk c s Hc. specialize (Hm c s Hc). unfold mbind, stateful_bind. destruct (m (c, s)) as [[a|e] [c' s']]; [|done]. by apply Hk.
Qed.

Lemma ensures_post {A : Type} P Q R (m : blobbed A) : ensures E P m Q -> (forall a c, Q a c -> R a c) -> ensures E P m R.
Proof. intros Hm H c s Hc. specialize (Hm c s Hc). destruct (m (c, s)) as [[a|e] [c' s']]; [by apply H|done]. Qed.

Lemma ensures_pre {A : Type} P P' Q (m : blobbed A) : (forall c, P c -> P' c) -> ensures E P' m Q -> ensures E P m Q.
Proof. intros H Hm c s Hc. by apply Hm, H. Qed.

Lemma ensures_pure {A : Type} P Q (H : Prop) (m : blobbed A) : (H -> ensures E P m Q) -> ensures E (fun c => H /\ P c) m Q.
Proof. intros Hm c s [HH Hc]. by apply Hm. Qed.

Lemma ensures_change P Q f : (forall c, P c -> Q (f c)) -> ensures E P (change_session f) (fun _ => Q).
Proof. intros H c s Hc. by apply H. Qed.

Lemma ensures_session P : ensures E P session (fun c' c => c' = c /\ P c).
Proof. intros c s Hc. done. Qed.

(** The result of a computation that is looked at in any case. *)
Lemma ensures_settled {A : Type} P Q (m : blobbed A) : ensures E P m Q -> ensures E P (settled m) (fun r c => match r with Ok a => Q a c | Err _ => E c end).
Proof. intros Hm c s Hc. specialize (Hm c s Hc). unfold settled. by destruct (m (c, s)) as [[a|e] s']. Qed.

Context {P : BinaryBlobReadSession -> Prop} (Hweak : forall c, P c -> E c).

Lemma ensures_lift {A : Type} (r : result BinaryDbErrorKind A) : ensures E P (lift r) (fun a c => r = Ok a /\ P c).
Proof using Hweak. intros c s Hc. unfold lift. destruct r; [done|]. by apply Hweak. Qed.

Lemma ensures_require b kind : ensures E P (require b kind) (fun _ c => b = true /\ P c).
Proof using Hweak. intros c s Hc. unfold require, lift. destruct b; cbn; [done|]. by apply Hweak. Qed.

(** Reading databases and files leaves the session alone. *)
Lemma ensures_in_db {A : Type} (m : cached A) : ensures E P (in_db m) (fun a c => (exists s s', m s = (Ok a, s')) /\ P c).
Proof using Hweak.
  intros c s Hc. unfold in_db. destruct (m s) as [[a|e] s'] eqn:Hrun; cbn; [|by apply Hweak]. split; [by eexists _, _|done].
Qed.
Lemma ensures_file {T : FileTimes} path : ensures E P (pack_with_stamp path) (fun _ => P).
Proof using Hweak. intros c [t s] Hc. unfold pack_with_stamp. destruct (disk s !! path); cbn; [done|by apply Hweak]. Qed.
End Rules.

(** ** Authentic bytes *)

Section Reads.
Context {P : PackPrimitives} {T : FileTimes} (fs : LocalBinaryDbFs) (repo_root : PathBuf) (legacy : option (gmap string N)).

(** The bytes that the record of a blob describes. *)
Definition described (view : BinaryBlobView) (data : bytes) : Prop :=
  sha256_bytes data = sha256 (bv_record view) /\ N.of_nat (length data) = bv_size_bytes view.
(** A view that [blob_view] makes of a record. *)
Definition blob_view_ok (view : BinaryBlobView) : Prop := exists index record, view = blob_view index record.

Definition names_bytes (blob_id : string) (data : bytes) : Prop := blob_id = blob_id_from_sha256 (sha256_bytes data).
(** The record is neither deleted nor pruned. *)
Definition record_available (view : BinaryBlobView) : Prop := blob_is_tombstone (bv_record view) = false /\ blob_is_pruned (bv_record view) = false.

Lemma described_named view data : blob_view_ok view -> described view data -> names_bytes (bv_blob_id view) data.
Proof. intros (index & record & ->) [Hsha _]. unfold names_bytes. by rewrite Hsha. Qed.

Lemma blob_view_at_ok i s view s' : blob_view_at fs i s = (Ok view, s') -> blob_view_ok view.
Proof. intros (record & s1 & _ & [= <- <-])%bind_run_Ok. by eexists _, _. Qed.

Lemma first_blob_ok blob_id candidates s view s' : first_blob fs blob_id candidates s = (Ok (Some view), s') ->
  blob_view_ok view /\ eq_ignore_ascii_case (bv_blob_id view) blob_id = true.
Proof.
  revert s. induction candidates as [|i candidates IH]; intros s H; cbn [first_blob] in H; [discriminate H|].
  apply bind_run_Ok in H as (v & s1 & Hv%blob_view_at_ok & H). destruct (eq_ignore_ascii_case (bv_blob_id v) blob_id) eqn:Heq; cbn [andb] in H; [|by eapply IH].
  destruct (negb _); [|by eapply IH]. injection H as <- _. by split.
Qed.
Lemma get_blob_view_ok blob_id s view s' : get_blob_view_by_id fs blob_id s = (Ok (Some view), s') ->
  blob_view_ok view /\ eq_ignore_ascii_case (bv_blob_id view) blob_id = true.
Proof.
  intros (key & s1 & _ & H)%bind_run_Ok. apply bind_run_Ok in H as ([layout|] & s2 & _ & H); [|discriminate H].
  apply bind_run_Ok in H as (index & s3 & _ & H). apply bind_run_Ok in H as (candidates & s4 & _ & H). by apply first_blob_ok in H.
Qed.

Section Invariant.
(** What every step but the end of a read keeps. *)
Context (I : BinaryBlobReadSession -> Prop).
Context (Hreaders : forall readers stamps used c, I c -> I (set_readers readers stamps used c)) (Huse : forall key c, I c -> I (use_reader key c)).
Context (Hstamps : forall stamps c, I c -> I (set_session_stamps stamps c)).

Local Abbreviation keeps m := (ensures I I m (fun _ => I)).

Lemma keeps_step {A B : Type} (m : blobbed A) (k : A -> blobbed B) Q : keeps m -> (forall a, ensures I I (k a) Q) -> ensures I I (m ≫= k) Q.
Proof. intros Hm Hk. by eapply ensures_bind. Qed.
Lemma keeps_session : keeps session.
Proof. by intros c s Hc. Qed.
Lemma keeps_lifted {A : Type} (r : result BinaryDbErrorKind A) : keeps (lift r).
Proof. intros c s Hc. unfold lift. by destruct r. Qed.
Lemma keeps_in_db {A : Type} (m : cached A) : keeps (in_db m).
Proof. intros c s Hc. unfold in_db. by destruct (m s) as [[a|e] s']. Qed.
Lemma keeps_changed f : (forall c, I c -> I (f c)) -> keeps (change_session f).
Proof. intros H c s Hc. by apply H. Qed.
Lemma keeps_file path : keeps (pack_with_stamp path).
Proof. by apply ensures_file. Qed.

Ltac steps := repeat first
  [ apply keeps_session | apply keeps_lifted | apply keeps_in_db | apply keeps_file | apply keeps_changed; intros; solve [auto]
  | apply ensures_ret; by auto
  | apply keeps_step; [|intros ?]
  | match goal with |- context [match ?x with _ => _ end] => destruct x end ].

Lemma trim_keeps key c : I c -> I (trim_chunks key c).
Proof.
  unfold trim_chunks. generalize (session_budget c) (size (reader_used c)). intros budget fuel. revert c. induction fuel as [|fuel IH]; intros c Hc; cbn [trim_rounds];
    (destruct (_ <? _)%N; [|done]); destruct (least None _); auto.
Qed.

Lemma object_pack_reader_keeps key path pack_format data stamp : keeps (object_pack_reader key path pack_format data stamp).
Proof. unfold object_pack_reader. steps. apply keeps_changed. intros c Hc. destruct (bool_decide _); auto. Qed.
Lemma admit_stamp_keeps key stamp : keeps (admit_stamp key stamp).
Proof. unfold admit_stamp, require. steps. Qed.
Lemma read_from_reader_keeps key data entry_name : keeps (read_from_reader key data entry_name).
Proof. unfold read_from_reader. steps. Qed.
Lemma find_keeps blob_id : ensures I I (find_blob_view fs legacy blob_id) (fun found c => (forall view, found = Some view -> blob_view_ok view) /\ I c).
Proof.
  unfold find_blob_view. generalize legacy; intros [indexes|].
  - destruct (indexes !! _) as [i|]; [|by apply ensures_ret]. eapply ensures_bind; [by apply ensures_in_db|]. intros view.
    apply ensures_pure. intros (s & s' & H%blob_view_at_ok). apply ensures_ret. intros c Hc. split; [|done]. by intros ? [= <-].
  - eapply ensures_post; [by apply ensures_in_db|]. intros found c [(s & s' & H) Hc]. split; [|done]. intros view ->. by apply get_blob_view_ok in H as [H _].
Qed.

Lemma resolve_keeps read_base view : (forall id, keeps (read_base id)) -> ensures I I (resolve_blob_bytes_for_view fs repo_root read_base view) (fun data c => (described view data /\ record_available view) /\ I c).
Proof.
  intros Hbase. unfold resolve_blob_bytes_for_view. pose proof object_pack_reader_keeps. pose proof admit_stamp_keeps. pose proof read_from_reader_keeps. pose proof trim_keeps.
  eapply ensures_bind; [by apply ensures_require|]. intros []. apply ensures_pure. intros Hdeleted%negb_true_iff.
  eapply ensures_bind; [by apply ensures_require|]. intros []. apply ensures_pure. intros Hpruned%negb_true_iff.
  apply keeps_step; [apply keeps_lifted|intros ?]. apply keeps_step; [apply keeps_in_db|intros member].
  do 3 (apply keeps_step; [apply keeps_lifted|intros _]). apply keeps_step; [apply keeps_in_db|intros pack]. apply keeps_step; [apply keeps_lifted|intros path].
  apply keeps_step; [destruct (omv_base_blob_id member); [destruct (bool_decide _)|]; [apply ensures_ret; auto| |apply ensures_ret; auto]|].
  { apply keeps_step; [apply Hbase|intros base]. apply keeps_step; [apply keeps_lifted|intros _]. apply ensures_ret; auto. }
  intros _. apply keeps_step; [apply keeps_file|intros [file stamp]]. apply keeps_step; [done|intros _]. apply keeps_step; [done|intros _].
  apply keeps_step; [apply keeps_changed; auto|intros _]. apply keeps_step; [done|intros data]. apply keeps_step; [apply keeps_changed; auto|intros _].
  eapply ensures_bind; [by apply ensures_require|]. intros []. apply ensures_pure. intros Hlen%N.eqb_eq. eapply ensures_bind; [by apply ensures_require|]. intros [].
  apply ensures_pure. intros Hsha%bool_decide_eq_true. by apply ensures_ret.
Qed.
End Invariant.

(** In any session, whatever it remembers. *)
Lemma read_authentic fuel view depth st data st' : read_blob_bytes_for_view_with_session fs repo_root legacy fuel view depth st = (Ok data, st') ->
  described view data /\ record_available view.
Proof.
  intros Hrun. pose (any := fun _ : BinaryBlobReadSession => True). assert (forall fuel view depth,
    ensures any any (read_blob_bytes_for_view_with_session fs repo_root legacy fuel view depth) (fun data _ => described view data /\ record_available view)) as H;
    [|destruct st as [c s]; specialize (H fuel view depth c s I); by rewrite Hrun in H].
  clear. intros fuel. induction fuel as [|fuel IH]; intros view depth; cbn [read_blob_bytes_for_view_with_session]; [by intros c s Hc|].
  apply (keeps_step any); [by apply (keeps_session any)|]. intros c0. destruct (resolved_blobs c0 !! bv_blob_id view) as [data|].
  - eapply ensures_bind; [by apply (ensures_require (E := any) (P := any))|]. intros []. apply ensures_pure. intros Hok. apply ensures_ret. intros c _.
    unfold remembered_ok in Hok. rewrite negb_true_iff, !orb_false_iff, !negb_false_iff, bool_decide_eq_true, N.eqb_eq in Hok. destruct Hok as [[[H1 H2] Hlen] Hsha]. by split.
  - do 2 (apply (keeps_step any); [by apply (keeps_lifted any)|intros _]). apply (keeps_step any); [by apply (keeps_changed any)|intros _].
    eapply ensures_bind.
    { apply ensures_settled, (resolve_keeps any); [done..|]. intros id. apply (keeps_step any).
      - eapply ensures_post; [by apply (find_keeps any)|]. by intros found c [_ Hc].
      - intros [base|]; [|by apply ensures_ret]. eapply ensures_bind; [apply IH|]. intros data. by apply ensures_ret. }
    intros [data|e]; [apply ensures_pure; intros Hdata|]; (eapply (ensures_bind any (fun _ => any)); [by apply (keeps_changed any)|intros _]); [|by intros c s Hc].
    eapply ensures_bind; [by apply (ensures_lift (E := any) (P := any))|]. intros data'. apply ensures_pure. intros [= <-].
    eapply ensures_bind; [by apply (keeps_changed any)|intros []; by apply ensures_ret].
Qed.

(** ** Every read ends *)

(** Computations that agree everywhere. *)
Definition agrees {A : Type} (m m' : blobbed A) : Prop := forall s, m s = m' s.
#[local] Instance agrees_equivalence {A : Type} : Equivalence (@agrees A).
Proof. split; [by intros m s|by intros m m' H s|intros m1 m2 m3 H1 H2 s; by rewrite H1]. Qed.

Lemma agrees_bind {A B : Type} (m m' : blobbed A) (k k' : A -> blobbed B) : agrees m m' -> (forall a, agrees (k a) (k' a)) -> agrees (m ≫= k) (m' ≫= k').
Proof. intros Hm Hk s. unfold mbind, stateful_bind. rewrite Hm. destruct (m' s) as [[a|e] s']; [by apply Hk|done]. Qed.
Lemma agrees_then {A B : Type} (m : blobbed A) (k k' : A -> blobbed B) : (forall a, agrees (k a) (k' a)) -> agrees (m ≫= k) (m ≫= k').
Proof. by apply agrees_bind. Qed.
Lemma agrees_settled {A : Type} (m m' : blobbed A) : agrees m m' -> agrees (settled m) (settled m').
Proof. intros H s. unfold settled. by rewrite H. Qed.

Lemma agrees_guard {A : Type} b kind (m m' : blobbed A) : (b = true -> agrees m m') -> agrees (_ ← require b kind; m) (_ ← require b kind; m').
Proof. intros H. destruct b; [by apply agrees_then; intros []; apply H|done]. Qed.

Lemma agrees_resolve read_base read_base' view : (forall id, agrees (read_base id) (read_base' id)) ->
  agrees (resolve_blob_bytes_for_view fs repo_root read_base view) (resolve_blob_bytes_for_view fs repo_root read_base' view).
Proof.
  intros Hbase. unfold resolve_blob_bytes_for_view. do 9 (apply agrees_then; intros ?). apply agrees_bind; [|done].
  destruct (omv_base_blob_id _); [|done]. destruct (bool_decide _); [done|]. by apply agrees_bind.
Qed.

Lemma read_fuel_more fuel view depth : blob_fuel depth <= fuel ->
  agrees (read_blob_bytes_for_view_with_session fs repo_root legacy fuel view depth)
         (read_blob_bytes_for_view_with_session fs repo_root legacy (blob_fuel depth) view depth).
Proof.
  remember (blob_fuel depth) as enough eqn:He. assert (blob_fuel depth <= enough) as Hle by lia. clear He. revert enough view depth Hle.
  induction fuel as [|fuel IH]; intros [|enough] view depth He Hfuel; [unfold blob_fuel in He; lia..|]. cbn [read_blob_bytes_for_view_with_session].
  apply agrees_then. intros c. destruct (resolved_blobs c !! bv_blob_id view); [done|].
  apply agrees_guard. intros Hd%N.leb_le. apply agrees_then. intros []. apply agrees_then. intros [].
  apply agrees_bind; [|done]. apply agrees_settled, agrees_resolve. intros id. apply agrees_then. intros [base|]; [|done].
  apply agrees_bind; [|done]. apply IH; [|lia]. unfold blob_fuel in *. lia.
Qed.

(** ** The memory of a session *)

(** Every reader that holds chunks has a time of use. *)
Definition tracked (c : BinaryBlobReadSession) : Prop := forall key reader, pack_readers c !! key = Some reader -> pa_cache reader = ∅ \/ is_Some (reader_used c !! key).
Definition bounded (c : BinaryBlobReadSession) : Prop := (readers_bytes (pack_readers c) <= session_budget c)%N.
Definition bounded_if (b : bool) (c : BinaryBlobReadSession) : Prop := tracked c /\ (b = true -> bounded c).

Lemma sum_of_zero {X : Type} (f : X -> N) l : (forall x, x ∈ l -> f x = 0%N) -> sum_of f l = 0%N.
Proof.
  induction l as [|x l IH]; intros H; [done|]. change (f x + sum_of f l = 0)%N. rewrite IH, H by (intros; apply H; by right) || by left. done.
Qed.
Lemma readers_bytes_zero readers : (forall key reader, readers !! key = Some reader -> pa_cache reader = ∅) -> readers_bytes readers = 0%N.
Proof. intros H. apply sum_of_zero. intros [key reader] Hin%elem_of_map_to_list. unfold cached_chunk_bytes. cbn. by rewrite (H key reader Hin). Qed.

Lemma least_other current (used : gmap string N) :
  match least None (filter (fun kv => fst kv <> current) (sorted_entries used)) with
  | Some key => is_Some (used !! key) /\ key <> current
  | None => forall key, is_Some (used !! key) -> key = current
  end.
Proof.
  destruct (least None _) as [key|] eqn:Hl.
  - apply least_in in Hl as [[=]|[u [Hne Hu%elem_of_sorted_entries]%list_elem_of_filter]]. split; [by exists u|done].
  - apply least_None in Hl. intros key [u Hu%elem_of_sorted_entries]. destruct (decide (key = current)) as [|Hne]; [done|]. exfalso.
    assert ((key, u) ∈ filter (fun kv : string * N => fst kv <> current) (sorted_entries used)) as Hin by (by apply list_elem_of_filter).
    rewrite Hl in Hin. by apply elem_of_nil in Hin.
Qed.

Lemma trim_rounds_bounded fuel current budget c : tracked c -> size (reader_used c) <= fuel ->
  tracked (trim_rounds fuel current budget c) /\ (readers_bytes (pack_readers (trim_rounds fuel current budget c)) <= budget)%N /\
  chunk_budget (trim_rounds fuel current budget c) = chunk_budget c.
Proof.
  revert c. induction fuel as [|fuel IH]; intros c Hc Hfuel; cbn [trim_rounds]; (destruct (N.ltb_spec budget (readers_bytes (pack_readers c))) as [_|Hle]; [|done]);
    pose proof (least_other current (reader_used c)) as Hl; (destruct (least None _) as [key|]; [|split_and!; [| |done]]).
  all: try (intros key reader; cbn; rewrite lookup_alter; destruct (decide (current = key)) as [<-|Hne]; [|exact (Hc key reader)];
    destruct (pack_readers c !! current); [intros [= <-]; by left|done]).
  all: try (etrans; [|apply N.le_0_l]; apply N.eq_le_incl, readers_bytes_zero; intros key reader; cbn; rewrite lookup_alter; destruct (decide (current = key)) as [<-|Hne];
    [destruct (pack_readers c !! current); [by intros [= <-]|done]|intros Hr; destruct (Hc key reader Hr) as [|Hu]; [done|by destruct Hne; rewrite (Hl key Hu)]]).
  - destruct Hl as [[u Hu] _]. assert (reader_used c = ∅) as He by (apply map_size_empty_inv; lia). by rewrite He, lookup_empty in Hu.
  - destruct Hl as [[u Hu] _].
    destruct (IH (set_readers (delete key (pack_readers c)) (delete key (reader_stamps c)) (delete key (reader_used c)) c)) as (H1 & H2 & H3); [| |by split_and!].
    + intros key' reader. cbn. intros [Hne Hr]%lookup_delete_Some. destruct (Hc key' reader Hr) as [|Hu']; [by left|right]. by rewrite lookup_delete_ne.
    + cbn. rewrite map_size_delete_Some by done. lia.
Qed.

Lemma trim_bounded key c : tracked c -> tracked (trim_chunks key c) /\ bounded (trim_chunks key c).
Proof.
  intros Hc. destruct (trim_rounds_bounded (size (reader_used c)) key (session_budget c) c Hc) as (H1 & H2 & H3); [done|]. split; [done|].
  unfold bounded. assert (session_budget (trim_chunks key c) = session_budget c) as -> by exact (f_equal (default READER_CHUNK_BUDGET) H3). exact H2.
Qed.

Lemma pack_reader_tracked key path pack_format data stamp : ensures tracked tracked (object_pack_reader key path pack_format data stamp) (fun _ => tracked).
Proof.
  unfold object_pack_reader. eapply ensures_bind; [apply (ensures_change _ tracked)|intros []].
  - intros c Hc. destruct (bool_decide _); [done|]. intros key' reader. cbn. intros [_ Hr]%lookup_delete_Some. by apply Hc.
  - eapply ensures_bind; [apply ensures_session|]. intros c0. destruct (pack_readers c0 !! key); [apply ensures_ret; by intros c [_ ?]|].
    apply (ensures_pre _ tracked); [by intros c [_ ?]|]. eapply ensures_bind; [by apply (ensures_lift (E := tracked))|]. intros reader. apply ensures_pure. intros Hopen.
    apply ensures_change. intros c Hc key' reader'. cbn. intros [[<- <-]|[_ Hr]]%lookup_insert_Some; [left|by apply Hc].
    unfold open_pack_with_format in Hopen. inv_ok. done.
Qed.
Lemma admit_stamp_tracked key stamp : ensures tracked tracked (admit_stamp key stamp) (fun _ => tracked).
Proof.
  unfold admit_stamp. eapply ensures_bind; [apply ensures_session|]. intros c0. apply (ensures_pre _ tracked); [by intros c [_ ?]|].
  destruct (session_stamps c0); [|by apply ensures_ret]. eapply ensures_bind; [by apply (ensures_change _ tracked)|intros []].
  eapply ensures_post; [by apply (ensures_require (E := tracked))|]. by intros _ c [_ ?].
Qed.
Lemma read_from_reader_tracked key data entry_name :
  ensures tracked (fun c => tracked c /\ is_Some (reader_used c !! key)) (read_from_reader key data entry_name) (fun _ => tracked).
Proof.
  intros c s [Hc Hu]. unfold read_from_reader. erewrite bind_run by done. destruct (pack_readers c !! key) as [reader|]; [|done].
  erewrite bind_run by done. destruct (read_pack_entry data reader entry_name _ _) as [reader' r]. erewrite bind_run by done.
  assert (tracked (set_readers (<[key := reader']> (pack_readers c)) (reader_stamps c) (reader_used c) c)) as Hc'; [|by destruct r].
  intros key' reader0. cbn. intros [[<- <-]|[_ Hr]]%lookup_insert_Some; [by right|by apply Hc].
Qed.

Lemma resolve_bounded read_base view : (forall id, ensures tracked tracked (read_base id) (fun _ => tracked)) ->
  ensures tracked tracked (resolve_blob_bytes_for_view fs repo_root read_base view) (fun _ c => tracked c /\ bounded c).
Proof.
  intros Hbase. unfold resolve_blob_bytes_for_view.
  pose proof (fun A => keeps_lifted tracked (A := A)) as Hlift. pose proof (fun A => keeps_in_db tracked (A := A)) as Hdb.
  do 3 (eapply ensures_bind; [apply Hlift|intros ?]). eapply ensures_bind; [apply Hdb|intros member].
  do 3 (eapply ensures_bind; [apply Hlift|intros []]). eapply ensures_bind; [apply Hdb|intros pack]. eapply ensures_bind; [apply Hlift|intros path].
  set (key := (opv_pack_format pack ++ string_of_bytes [Byte.x0a] ++ path_to_str path)%string).
  apply (keeps_step tracked); [destruct (omv_base_blob_id member); [destruct (bool_decide _)|]; [by apply ensures_ret| |by apply ensures_ret]|intros []].
  { eapply ensures_bind; [apply Hbase|intros base]. eapply ensures_bind; [apply Hlift|intros ?]. by apply ensures_ret. }
  eapply ensures_bind; [by apply (keeps_file tracked)|intros [file stamp]]. eapply ensures_bind; [apply pack_reader_tracked|intros []].
  eapply ensures_bind; [apply admit_stamp_tracked|intros []].
  eapply ensures_bind; [apply (ensures_change _ (fun c => tracked c /\ is_Some (reader_used c !! key)))|intros []].
  { intros c Hc. split; [|cbn; rewrite lookup_insert_eq; by eexists]. intros key' reader Hr. destruct (Hc key' reader Hr) as [|Hu]; [by left|right]. cbn.
    apply lookup_insert_is_Some. destruct (decide (key = key')); [by left|by right]. }
  eapply ensures_bind; [apply read_from_reader_tracked|intros data].
  eapply ensures_bind; [apply (ensures_change _ (fun c => tracked c /\ bounded c))|intros []].
  { apply trim_bounded. }
  do 2 (eapply ensures_bind; [by apply (ensures_require (E := tracked)); intros c [? _]|intros []; apply ensures_pure; intros _]). by apply ensures_ret.
Qed.

(** A blob that is not remembered is read from a pack, and the session is
    trimmed. *)
Definition bounded_or_read (b : bool) (view : BinaryBlobView) (c : BinaryBlobReadSession) : Prop :=
  tracked c /\ (b = true -> bounded c \/ resolved_blobs c !! bv_blob_id view = None).

Lemma read_bounded b fuel view depth :
  ensures tracked (bounded_or_read b view) (read_blob_bytes_for_view_with_session fs repo_root legacy fuel view depth) (fun _ => bounded_if b).
Proof.
  revert b view depth. induction fuel as [|fuel IH]; intros b view depth; cbn [read_blob_bytes_for_view_with_session]; [by intros c s [Hc _]|].
  assert (forall c, bounded_if b c -> tracked c) as Hweak by (by intros c [? _]).
  eapply ensures_bind; [apply ensures_session|]. intros c0. destruct (resolved_blobs c0 !! bv_blob_id view) as [data|] eqn:Hdata.
  - apply (ensures_pre _ (bounded_if b)). { intros c [-> [Hc Hb]]. split; [done|]. intros Ht. destruct (Hb Ht); [done|congruence]. }
    eapply ensures_bind; [by apply (ensures_require (E := tracked))|]. intros []. apply ensures_pure. intros _. by apply ensures_ret.
  - apply (ensures_pre _ tracked); [by intros c [_ [? _]]|].
    do 2 (eapply ensures_bind; [by apply (ensures_require (E := tracked))|]; intros []; apply ensures_pure; intros _).
    eapply ensures_bind; [by apply (ensures_change _ tracked)|]. intros [].
    eapply ensures_bind.
    { apply ensures_settled, resolve_bounded. intros id. eapply ensures_bind.
      { eapply ensures_post; [by apply (find_keeps tracked)|]. intros found c [_ Hc]. exact Hc. }
      intros [base|]; [|by apply ensures_ret]. apply (ensures_pre _ (bounded_or_read false base)); [by split|].
      eapply ensures_bind; [apply IH|]. intros base_data. apply ensures_ret. by intros c []. }
    intros [data|e]; (eapply ensures_bind; [|intros []]).
    + apply (ensures_change _ (bounded_if b)). intros c [Hc Hb]. by split.
    + eapply ensures_bind; [by apply (ensures_lift (E := tracked))|]. intros data'. apply ensures_pure. intros [= <-].
      eapply ensures_bind; [by apply (ensures_change _ (bounded_if b))|intros []; by apply ensures_ret].
    + by apply (ensures_change _ tracked).
    + by intros c s Hc.
Qed.

(** ** Reads of blobs by their ids *)

Lemma read_id_bounded b blob_id depth : ensures tracked (bounded_if b) (read_blob_bytes_for_id_with_session fs repo_root legacy blob_id depth) (fun _ => bounded_if b).
Proof.
  unfold read_blob_bytes_for_id_with_session. eapply ensures_bind.
  { intros c s Hc. pose proof (find_keeps (fun c' => c' = c) blob_id c s eq_refl) as H. instantiate (1 := fun _ => bounded_if b).
    destruct (find_blob_view fs legacy blob_id (c, s)) as [[found|e] [c' s']]; cbn in *; [by destruct H as [_ ->]|]. subst. by destruct Hc. }
  intros [view|]; [|by apply ensures_ret]. apply (ensures_pre _ (bounded_or_read b view)); [by intros c [Hc Hb]; split; [done|left; by apply Hb]|].
  eapply ensures_bind; [apply read_bounded|]. intros data. by apply ensures_ret.
Qed.
End Reads.

Section Theorems.
Context {P : PackPrimitives} {T : FileTimes} (fs : LocalBinaryDbFs) (repo_root : PathBuf).

(** The bytes have the hash that the id is made of. *)
Definition has_id (blob_id : string) (data : bytes) : Prop := eq_ignore_ascii_case (blob_id_from_sha256 (sha256_bytes data)) blob_id = true.

Lemma view_has_id view blob_id data : blob_view_ok view -> eq_ignore_ascii_case (bv_blob_id view) blob_id = true -> described view data -> has_id blob_id data.
Proof. intros Hview Hid Hdata. unfold has_id. by rewrite <- (described_named view data Hview Hdata). Qed.

(** The bytes are those of a stored record with this id. *)
Definition authentic (d : gmap PathBuf bytes) (blob_id : string) (data : bytes) : Prop :=
  has_id blob_id data /\ exists view, live_view fs d blob_id view /\ described view data.

Lemma live_authentic d blob_id view data : live_view fs d blob_id view -> described view data -> authentic d blob_id data.
Proof.
  intros Hl Hd. split; [|by exists view]. destruct Hl as (index & record & Hv & _ & Hid & _). by eapply view_has_id; [by exists index, record| |].
Qed.

(** What a read by id found, with the state that it leaves. *)
Lemma read_id_run blob_id depth c s data st : reads_truly fs s ->
  read_blob_bytes_for_id_with_session fs repo_root None blob_id depth (c, s) = (Ok (Some data), st) ->
  exists view, fst (get_blob_view_by_id fs blob_id s) = Ok (Some view) /\ live_view fs (disk (files_of s)) blob_id view /\ described view data.
Proof.
  intros Hs Hrun. unfold read_blob_bytes_for_id_with_session in Hrun. apply bind_run_Ok in Hrun as (found & [c1 s1] & Hfound & Hrun).
  unfold find_blob_view, in_db in Hfound. destruct (get_blob_view_by_id fs blob_id s) as [r s2] eqn:Hget. injection Hfound as -> <- <-.
  destruct found as [view|]; [|discriminate Hrun]. apply bind_run_Ok in Hrun as (data' & s3 & Hread & [= <- <-]). exists view. split; [done|].
  split; [by eapply view_by_id_live|]. by apply read_authentic in Hread as [H _].
Qed.

Lemma read_batch_authentic blob_ids payload c s payload' st : reads_truly fs s -> map_Forall (authentic (disk (files_of s))) payload ->
  read_batch fs repo_root None blob_ids payload (c, s) = (Ok payload', st) ->
  map_Forall (authentic (disk (files_of s))) payload' /\ dom payload' ⊆ dom payload ∪ list_to_set blob_ids.
Proof.
  revert payload c s. induction blob_ids as [|blob_id blob_ids IH]; intros payload c s Hs Hp Hrun; cbn [read_batch] in Hrun.
  { injection Hrun as <- _. split; [done|set_solver]. }
  destruct (is_some (payload !! blob_id)).
  { destruct (IH _ _ _ Hs Hp Hrun) as [H1 H2]. split; [done|set_solver]. }
  apply (step_truly fs _ _ (c, s) _ _ (still_read_id fs repo_root None blob_id 0) Hs) in Hrun as (found & [c1 s1] & Hrun & Hs1 & Hd & Hread).
  change (disk (files_of s1) = disk (files_of s)) in Hd.
  assert (map_Forall (authentic (disk (files_of s1))) (match found with Some data => <[blob_id := data]> payload | None => payload end)) as Hp1.
  { rewrite Hd. destruct found as [data|]; [|done]. apply map_Forall_insert_2; [|done].
    destruct (read_id_run _ _ _ _ _ _ Hs Hread) as (view & _ & Hl & Hdata). by eapply live_authentic. }
  destruct (IH _ _ _ Hs1 Hp1 Hrun) as [H1 H2]. change (map_Forall (authentic (disk (files_of s1))) payload') in H1. rewrite Hd in H1.
  split; [done|]. destruct found as [data|]; [rewrite dom_insert_L in H2|]; set_solver.
Qed.

Lemma in_session_run {A : Type} (m : blobbed A) s a : in_new_read (with_session m) s = Ok a -> exists st, m (default_session, (empty_cache, s)) = (Ok a, st).
Proof.
  unfold in_new_read, with_session. destruct (m (default_session, (empty_cache, s))) as [r [c s']]. cbn. intros ->. by eexists.
Qed.

(** C13. Whatever the files hold, and whichever of their calls fail: the bytes
    that are returned for a blob are the ones it is named after. Bytes that are read for an id have the
    hash and the size that the record gives which the lookup of the id finds - a record of the
    blob file that is not deleted and has this id -, and the id is made of their hash. The bytes
    of every blob of a batch, which shares open packs and blobs read before, have the hash and
    the size of such a record of the blob file too, and the batch has only ids that were asked for.
    Bytes that are read for the view of a record, in a session that may remember anything for
    its name, have the hash and the size of the record, and it is neither deleted nor pruned;
    so have those of a read for a view in a session of its own.
    And every read ends by itself: the limit of the depth bounds the calls, so that
    a larger bound on their number changes nothing. *)
Theorem blob_bytes_authentic s :
  (forall blob_id data, reader_read_blob_bytes fs repo_root blob_id s = Ok (Some data) ->
    has_id blob_id data /\ exists view, in_new_read (get_blob_view_by_id fs blob_id) s = Ok (Some view) /\ live_view fs (disk s) blob_id view /\ described view data) /\
  (forall blob_ids payload, read_blob_bytes_batch fs repo_root blob_ids s = Ok payload ->
    dom payload ⊆ list_to_set blob_ids /\
    map_Forall (fun blob_id data => has_id blob_id data /\ exists view, live_view fs (disk s) blob_id view /\ described view data) payload) /\
  (forall legacy fuel index record depth session data session',
    read_blob_bytes_for_view_with_session fs repo_root legacy fuel (blob_view index record) depth session = (Ok data, session') ->
    sha256_bytes data = sha256 record /\ N.of_nat (length data) = size_bytes record /\ blob_is_tombstone record = false /\ blob_is_pruned record = false) /\
  (forall index record depth data, in_new_read (read_blob_bytes_for_view fs repo_root (blob_view index record) depth) s = Ok data ->
    sha256_bytes data = sha256 record /\ N.of_nat (length data) = size_bytes record) /\
  (forall legacy view depth fuel c, blob_fuel depth <= fuel ->
    read_blob_bytes_for_view_with_session fs repo_root legacy fuel view depth (c, (empty_cache, s)) =
      read_blob_bytes_for_view_with_session fs repo_root legacy (blob_fuel depth) view depth (c, (empty_cache, s))).
Proof.
  pose proof (empty_reads_truly fs s) as Htrue. split_and!.
  - intros blob_id data [st Hrun]%in_session_run. destruct (read_id_run _ _ _ _ _ _ Htrue Hrun) as (view & Hview & Hl & Hd).
    split; [by apply (live_authentic _ _ _ _ Hl Hd)|by exists view].
  - intros blob_ids payload [st Hrun]%in_session_run. destruct (read_batch_authentic _ _ _ _ _ _ Htrue (map_Forall_empty _) Hrun) as [H1 H2]. split; [set_solver|exact H1].
  - intros legacy fuel index record depth session data session' Hrun. by apply read_authentic in Hrun as [[H1 H2] [H3 H4]].
  - intros index record depth data [st Hrun]%in_session_run. by apply read_authentic in Hrun as [[H1 H2] _].
  - intros legacy view depth fuel c Hfuel. by apply read_fuel_more.
Qed.

(** C14. A session keeps its memory within the budget. In a new session, with
    whatever budget, no pack is open; and as long as every open pack that holds
    chunks has a time of use - every read keeps this, failed ones included -
    a read that gives its result in a session within the budget leaves the session within
    the budget, whatever packs it went through; and a read of a blob that is not
    remembered brings the session back to the budget, whatever failed reads have left. *)
Theorem blob_session_bounded legacy :
  (forall budget stamps, tracked (new_session budget stamps) /\ bounded (new_session budget stamps)) /\
  (forall blob_id depth c s r c' s', tracked c ->
    read_blob_bytes_for_id_with_session fs repo_root legacy blob_id depth (c, s) = (r, (c', s')) ->
    tracked c' /\ (bounded c -> match r with Ok _ => bounded c' | Err _ => True end)) /\
  (forall view depth c s data c' s', tracked c -> resolved_blobs c !! bv_blob_id view = None ->
    read_blob_bytes_for_view_with_session fs repo_root legacy (blob_fuel depth) view depth (c, s) = (Ok data, (c', s')) -> bounded c').
Proof.
  split; [|split].
  - intros budget stamps. split; [by intros key reader|]. unfold bounded. cbn. apply N.le_0_l.
  - intros blob_id depth c s r c' s' Hc Hrun. split.
    + pose proof (read_id_bounded fs repo_root legacy false blob_id depth c s ltac:(by split)) as H. rewrite Hrun in H. by destruct r; [destruct H|].
    + intros Hb. pose proof (read_id_bounded fs repo_root legacy true blob_id depth c s ltac:(by split)) as H. rewrite Hrun in H.
      destruct r; [|done]. destruct H as [_ H]. by apply H.
  - intros view depth c s data c' s' Hc Hnone Hrun.
    pose proof (read_bounded fs repo_root legacy true (blob_fuel depth) view depth c s ltac:(split; [done|by right])) as H.
    rewrite Hrun in H. destruct H as [_ H]. by apply H.
Qed.
End Theorems.
