(* ===== verification/BlobContents.v ===== *)
(** * The blob store as a map

    A store of blobs whose files hold tables of blobs, packs and members, an index of
    ids and packs: what it gives for ids is what a map from ids to
    bytes gives, through whatever chain of bases and whatever a session
    remembers. *)

From Stdlib Require Import NArith Lia.
From Stdlib Require Strings.Byte.
From Stdlib Require Import Ascii.
From stdpp Require Import base numbers strings gmap fin_maps list sorting.
From S2P Require Import Prelude Codec FileStore BinaryDb RecordTable BinaryIndex ReadTxn WriteTxn ContentCodec ContentIds ContentStore.
From S2P Require Import SnapshotLog PackCodec ChunkLayout DeltaEncoder PackMembers PackIndex PackContainer PackRead TreeStore TreeReads TreeEntries BlobStore StillReads BlobReads.

Local Abbreviation L := BINARY_DB_CONTENT_LAYOUT_ID.

(** ** Reading with more bases *)

(** What is read with some bases at hand is read with more. *)
Lemma read_more_bases {P : PackPrimitives} file index max bases bases' fuel visited depth cache name : bases ⊆ bases' ->
  let r := read_entry_with_chunk_cache fuel file index name (Some bases) max visited depth cache in
  let r' := read_entry_with_chunk_cache fuel file index name (Some bases') max visited depth cache in
  fst r = fst r' /\ forall data, snd r = Ok data -> snd r' = Ok data.
Proof.
  intros Hsub. revert visited depth cache name. induction fuel as [|fuel IH]; intros visited depth cache name; [done|].
  cbn [read_entry_with_chunk_cache]. destruct (_ <? _)%N; [done|]. destruct (find_member index name) as [member|]; [|done]. destruct (_ <? _)%N; [done|].
  destruct (read_zstd_chunked_member_stored_bytes_with_chunk_cache file index member cache) as [c1 [d|e]]; [|done].
  destruct (bool_decide (mb_entry_type member = _)); [done|]. destruct (negb _); [done|].
  destruct (mb_base_content_id member) as [base|]; [|done]. destruct (bool_decide (_ ∈ visited)); [done|].
  destruct (existsb _ _).
  - destruct (IH ({[member_identity member name]} ∪ visited) (depth + 1)%N c1 (blob_entry_name base)) as [H1 H2].
    destruct (read_entry_with_chunk_cache fuel _ _ _ (Some bases) _ _ _ c1) as [c2 r2], (read_entry_with_chunk_cache fuel _ _ _ (Some bases') _ _ _ c1) as [c3 r3].
    cbn [fst snd] in *. subst c3. split; [done|]. destruct r2 as [b|e]; [by rewrite (H2 b eq_refl)|done].
  - split; [done|]. cbn [fst snd]. destruct (bases !! base) as [b|] eqn:Hb; [|done]. by rewrite (lookup_weaken _ _ _ _ Hb Hsub).
Qed.

Lemma archive_read_bases {P : PackPrimitives} file index max bases bases' cache name data : bases ⊆ bases' -> cache_ok file index cache ->
  snd (archive_read_entry file index ∅ name (Some bases) max) = Ok data ->
  snd (archive_read_entry file index cache name (Some bases') max) = Ok data /\
  cache_ok file index (fst (archive_read_entry file index cache name (Some bases') max)).
Proof.
  intros Hsub Hcache Hread. unfold archive_read_entry in *. pose proof (cache_ok_empty file index) as Hempty.
  destruct (read_entry_cache file index (Some bases') max (read_fuel max) ∅ 0 cache name Hcache) as [-> Hok]. split; [|done].
  by apply (read_more_bases file index max bases bases').
Qed.

(** ** Where packs are *)

Section Paths.
Context (repo_root : PathBuf).

Definition object_pack_name (hash48 : N) : string := object_pack_id_from_hash48 hash48 +:+ ZSTD_CHUNKED_PACK_SUFFIX.
Definition object_pack_directory : PathBuf := join repo_root [Normal ".ait"; Normal "objects"; Normal "packs"].
Definition object_pack_path (hash48 : N) : PathBuf := object_pack_directory ++ [Normal (object_pack_name hash48)].

Lemma object_pack_name_bytes h : object_pack_name h = string_of_bytes (bytes_of_string "PCK-" ++ hex_padded 12 h ++ bytes_of_string ZSTD_CHUNKED_PACK_SUFFIX).
Proof.
  transitivity (string_of_bytes (bytes_of_string (object_pack_name h))); [by rewrite string_of_bytes_of_string|]. f_equal.
  unfold object_pack_name, object_pack_id_from_hash48. change ("PCK-" ++ ?x)%string with ("PCK-" +:+ x).
  by rewrite !bytes_of_string_app, bytes_of_string_of_bytes, <- app_assoc.
Qed.

Lemma absolute_object_pack h : absolute_repo_path repo_root (default_object_pack_relative_path (object_pack_id_from_hash48 h)) = Ok (object_pack_path h).
Proof.
  unfold default_object_pack_relative_path. change (object_pack_id_from_hash48 h ++ _)%string with (object_pack_name h).
  assert (segments (object_pack_name h) = [object_pack_name h]) as Hseg.
  { rewrite object_pack_name_bytes. apply segments_name. repeat rewrite Forall_app. split_and!; [|apply hex_digits_plain|]; repeat constructor; discriminate. }
  assert (components (".ait/objects/packs/" ++ object_pack_name h) = [Normal ".ait"; Normal "objects"; Normal "packs"; Normal (object_pack_name h)]) as Hc.
  { assert (segments (".ait/objects/packs/" ++ object_pack_name h) = [".ait"; "objects"; "packs"; object_pack_name h]%string) as Hs.
    { rewrite <- Hseg. change (".ait/objects/packs/" ++ object_pack_name h)%string with (".ait" +:+ String "/"%char ("objects" +:+ String "/"%char ("packs" +:+ String "/"%char (object_pack_name h)))).
      by rewrite !segments_slash. }
    unfold components. rewrite Hs. done. }
  unfold absolute_repo_path. rewrite Hc. cbn [head existsb escapes orb]. rewrite bool_decide_eq_false_2 by done. cbn [fail_if mbind result_bind]. f_equal.
  unfold object_pack_path, object_pack_directory, join. destruct repo_root as [|c l]; [done|]. by rewrite <- app_assoc.
Qed.

(** The key of the reader of the pack. *)
Definition reader_key (hash48 : N) : string := (PACK_FORMAT_ZSTD_CHUNKED_V1 ++ string_of_bytes [Byte.x0a] ++ path_to_str (object_pack_path hash48))%string.
Lemma reader_key_path h h' : reader_key h = reader_key h' -> object_pack_path h = object_pack_path h'.
Proof.
  assert (object_pack_directory <> []) as Hdir by (unfold object_pack_directory, join; by destruct repo_root).
  unfold reader_key, object_pack_path. rewrite !path_text_name by done. intros H%(f_equal bytes_of_string).
  change (?a ++ ?b)%string with (a +:+ b) in H. rewrite !bytes_of_string_app in H. do 4 apply app_inv_head in H. apply (f_equal string_of_bytes) in H.
  rewrite !string_of_bytes_of_string in H. by rewrite H.
Qed.
End Paths.

(** ** The tables *)

Lemma newest_first_elem l i : i ∈ newest_first l -> i ∈ l.
Proof.
  unfold newest_first. rewrite elem_of_rev. rewrite <- (merge_sort_Permutation N.le l) at 2. generalize (merge_sort N.le l). clear l.
  intros l. induction l as [|x [|y l] IH]; [done|done|]. cbn [dedup]. destruct (x =? y)%N; intros H; [right; by apply IH|].
  apply elem_of_cons in H as [->|H]; [left|right; by apply IH].
Qed.

Definition blob_name (r : BinaryBlobRecord) : string := blob_id_from_sha256 (sha256 r).

Section Contents.
Context {P : PackPrimitives} {T : FileTimes} (fs : LocalBinaryDbFs) (repo_root : PathBuf) {du : gmap PathBuf bytes} (d : gmap PathBuf bytes).
Context (blob_path pack_path member_path index_path : PathBuf).
Context (Hblob : file_path_for fs BLOB_BIN = Ok blob_path) (Hpack : file_path_for fs OBJECT_PACK_BIN = Ok pack_path).
Context (Hmember : file_path_for fs OBJECT_PACK_MEMBER_BIN = Ok member_path) (Hindex : file_path_for fs BLOB_ID_IDX = Ok index_path).
Context (bs : list BinaryBlobRecord) (ps : list BinaryObjectPackRecord) (ms : list BinaryObjectPackMemberRecord) (ids : gmap bytes (list N)).
Context (Hbs : holds_records (C := blob_codec) BLOB_BIN blob_path d bs) (Hps : holds_records (C := object_pack_codec) OBJECT_PACK_BIN pack_path d ps).
Context (Hms : holds_records (C := object_pack_member_codec) OBJECT_PACK_MEMBER_BIN member_path d ms).
Context (Hids : index_content (blob_id_index L) index_path d ids) (Hrange : map_Forall (fun _ rows => Forall (fun i => N.to_nat i < length bs) rows) ids).

Local Abbreviation reads_ m r := (reads fs (du := du) d m r).

Lemma reads_blob i r : bs !! N.to_nat i = Some r -> reads_ (blob_view_at fs i) (Ok (blob_view i r)).
Proof.
  intros Hi. unfold blob_view_at, read_blob_record. eapply reads_step; [|apply reads_ret].
  eapply reads_step; [table_read (reads_table_required (C := blob_codec) (du := du) fs BLOB_BIN blob_path d)|].
  eapply reads_step; [apply reads_lift|].
  destruct (reads_table_row (C := blob_codec) (du := du) fs BLOB_BIN blob_path d Hblob eq_refl ltac:(codec_side) ltac:(codec_side) bs i r Hbs Hi) as (row & Hrow & Hdec).
  eapply reads_step; [exact Hrow|]. change (decode_record L row) with (decode_blob_record L row) in Hdec. rewrite Hdec. apply reads_lift.
Qed.

Definition pack_view_of (i : N) (p : BinaryObjectPackRecord) : BinaryObjectPackView :=
  let pack_id := object_pack_id_from_hash48 (object_pack_hash48 p) in
  mkPackView i p pack_id (default_object_pack_relative_path pack_id) PACK_FORMAT_ZSTD_CHUNKED_V1.

Lemma reads_pack i p : ps !! N.to_nat i = Some p -> object_pack_format p = ContentCodec.ZstdChunkedV1 -> reads_ (object_pack_view_at fs i) (Ok (pack_view_of i p)).
Proof.
  intros Hi Hformat. unfold object_pack_view_at, read_object_pack_record_at. apply (reads_step _ _ _ _ p).
  - eapply reads_step; [table_read (reads_table_required (C := object_pack_codec) (du := du) fs OBJECT_PACK_BIN pack_path d)|].
    eapply reads_step; [apply reads_lift|].
    destruct (reads_table_row (C := object_pack_codec) (du := du) fs OBJECT_PACK_BIN pack_path d Hpack eq_refl ltac:(codec_side) ltac:(codec_side) ps i p Hps Hi) as (row & Hrow & Hdec).
    eapply reads_step; [exact Hrow|]. change (decode_record L row) with (decode_object_pack_record L row) in Hdec. rewrite Hdec. apply reads_lift.
  - unfold object_pack_view. rewrite Hformat. cbn [object_pack_format_name mbind result_bind]. unfold object_pack_relative_path.
    rewrite bool_decide_eq_true_2 by done. apply reads_lift.
Qed.

Definition member_view_of (i : N) (m : BinaryObjectPackMemberRecord) (p : BinaryObjectPackRecord) (blob_id : string) (base_blob_id : option string) : BinaryObjectPackMemberView :=
  mkMemberView i m (object_pack_id_from_hash48 (object_pack_hash48 p)) blob_id ("blobs/" ++ blob_id)%string base_blob_id.

Lemma reads_member i m p b base : ms !! N.to_nat i = Some m -> ps !! N.to_nat (pack_index m) = Some p -> object_pack_format p = ContentCodec.ZstdChunkedV1 ->
  bs !! N.to_nat (blob_index m) = Some b -> match base_blob_index m with None => base = None | Some j => exists r, bs !! N.to_nat j = Some r /\ base = Some (blob_name r) end ->
  reads_ (object_pack_member_view_at fs i) (Ok (member_view_of i m p (blob_name b) base)).
Proof.
  intros Hi Hp Hformat Hb Hbase. unfold object_pack_member_view_at, read_object_pack_member_record_at. apply (reads_step _ _ _ _ m).
  - eapply reads_step; [table_read (reads_table_required (C := object_pack_member_codec) (du := du) fs OBJECT_PACK_MEMBER_BIN member_path d)|].
    eapply reads_step; [apply reads_lift|].
    destruct (reads_table_row (C := object_pack_member_codec) (du := du) fs OBJECT_PACK_MEMBER_BIN member_path d Hmember eq_refl ltac:(codec_side) ltac:(codec_side) ms i m Hms Hi) as (row & Hrow & Hdec).
    eapply reads_step; [exact Hrow|]. change (decode_record L row) with (decode_object_pack_member_record L row) in Hdec. rewrite Hdec. apply reads_lift.
  - eapply reads_step; [by apply reads_pack|]. eapply reads_step; [by apply reads_blob|]. apply (reads_step _ _ _ _ base); [|apply reads_ret].
    destruct (base_blob_index m) as [j|]; [|subst; apply reads_ret]. destruct Hbase as (r & Hj & ->). eapply reads_step; [by apply reads_blob|apply reads_ret].
Qed.

(** *** Blobs by their ids *)

(** The first live blob with the id among the candidates. *)
Fixpoint find_blob (blob_id : string) (candidates : list N) : option (N * BinaryBlobRecord) :=
  match candidates with
  | [] => None
  | i :: candidates =>
      match bs !! N.to_nat i with
      | Some r => if eq_ignore_ascii_case (blob_name r) blob_id && negb (blob_is_tombstone r) then Some (i, r) else find_blob blob_id candidates
      | None => None
      end
  end.
Definition live_blob_of (blob_id : string) : option (N * BinaryBlobRecord) :=
  match blob_id_index_key blob_id with Ok key => find_blob blob_id (newest_first (default [] (ids !! key))) | Err _ => None end.

Lemma reads_first_blob blob_id candidates : Forall (fun i => N.to_nat i < length bs) candidates ->
  reads_ (first_blob fs blob_id candidates) (Ok ((fun ir => blob_view (fst ir) (snd ir)) <$> find_blob blob_id candidates)).
Proof.
  induction candidates as [|i candidates IH]; intros H; cbn [first_blob find_blob]; [apply reads_ret|].
  apply Forall_cons in H as [Hi H]. destruct (lookup_lt_is_Some_2 bs (N.to_nat i) Hi) as [r Hr].
  eapply reads_step; [by apply reads_blob|]. rewrite Hr. cbn [bv_blob_id bv_record blob_view]. fold (blob_name r).
  destruct (eq_ignore_ascii_case (blob_name r) blob_id && _); [apply reads_ret|by apply IH].
Qed.

Lemma blob_id_key_length blob_id key : blob_id_index_key blob_id = Ok key -> length key = 10.
Proof. intros H. unfold blob_id_index_key in H. apply (prefixed_hex_key_spec false) in H. tauto. Qed.

Lemma reads_blob_of blob_id key : blob_id_index_key blob_id = Ok key ->
  reads_ (get_blob_view_by_id fs blob_id) (Ok ((fun ir => blob_view (fst ir) (snd ir)) <$> live_blob_of blob_id)).
Proof.
  intros Hkey. unfold get_blob_view_by_id, live_blob_of. rewrite Hkey. eapply reads_step; [apply reads_lift|].
  eapply reads_step; [table_read (reads_table_layout (C := blob_codec) (du := du) fs BLOB_BIN blob_path d)|].
  apply (reads_step _ _ _ _ (blob_id_index L)); [apply reads_lift|]. unfold index_candidates.
  eapply reads_step.
  - eapply reads_step; [|apply reads_ret]. apply (reads_lookup fs d (blob_id_index L) index_path ids); [exact Hindex|exact Hids|].
    intros k [= <-]. by rewrite (blob_id_key_length _ _ Hkey).
  - apply reads_first_blob. apply Forall_forall. intros i Hi%newest_first_elem. destruct (ids !! key) as [rows|] eqn:Hrows; [|by apply elem_of_nil in Hi].
    by apply (proj1 (Forall_forall _ _) (Hrange key rows Hrows)).
Qed.

Lemma find_blob_live blob_id candidates i r : find_blob blob_id candidates = Some (i, r) -> bs !! N.to_nat i = Some r /\ blob_is_tombstone r = false.
Proof.
  induction candidates as [|j candidates IH]; [done|]. cbn [find_blob]. destruct (bs !! N.to_nat j) as [r'|] eqn:Hj; [|done].
  destruct (eq_ignore_ascii_case _ _); cbn [andb]; [|done]. destruct (blob_is_tombstone r') eqn:Hlive; cbn [negb]; [done|]. by intros [= <- <-].
Qed.
Lemma live_blob_of_live blob_id i r : live_blob_of blob_id = Some (i, r) -> bs !! N.to_nat i = Some r /\ blob_is_tombstone r = false.
Proof. unfold live_blob_of. destruct (blob_id_index_key blob_id); [apply find_blob_live|done]. Qed.

(** ** What the files represent *)

Context (contents : gmap string bytes) (rank : string -> nat).

(** The base of a member, with its bytes. *)
Definition bases_of (m : BinaryObjectPackMemberRecord) : gmap string bytes :=
  match base_blob_index m with
  | Some j =>
      match bs !! N.to_nat j with
      | Some r => match contents !! blob_name r with Some data => {[blob_name r := data]} | None => ∅ end
      | None => ∅
      end
  | None => ∅
  end.

(** The live blob [r] at [i] with the id has the bytes in its member of a pack. *)
Record located_blob (blob_id : string) (data : bytes) (i : N) (r : BinaryBlobRecord) (mi : N) (m : BinaryObjectPackMemberRecord) (p : BinaryObjectPackRecord)
  (b : BinaryBlobRecord) (file : bytes) (index : ZstdChunkedPackIndex) : Prop := {
  lo_found : live_blob_of blob_id = Some (i, r);
  lo_name : blob_name r = blob_id;
  lo_pruned : blob_is_pruned r = false;
  lo_place : pack_member_index r = Some mi;
  lo_member : ms !! N.to_nat mi = Some m;
  lo_live : member_is_tombstone m = false;
  lo_pack : ps !! N.to_nat (pack_index m) = Some p;
  lo_format : object_pack_format p = ContentCodec.ZstdChunkedV1;
  lo_blob : bs !! N.to_nat (blob_index m) = Some b;
  lo_blob_name : blob_name b = blob_id;
  lo_depth : (delta_chain_depth m <= MAX_DELTA_CHAIN_READ_DEPTH)%N;
  lo_base : match base_blob_index m with
            | None => True
            | Some j => exists r0, bs !! N.to_nat j = Some r0 /\ is_Some (contents !! blob_name r0) /\ rank (blob_name r0) < rank blob_id
            end;
  lo_file : d !! object_pack_path repo_root (object_pack_hash48 p) = Some file;
  lo_index : read_zstd_chunked_container_index file ZSTD_CHUNKED_INDEX_KIND_OBJECT PACK_FORMAT_ZSTD_CHUNKED_V1 = Ok index;
  lo_entries : exists entries, entries_by_name_from_validated_index index = Ok entries;
  lo_data : snd (archive_read_entry file index ∅ ("blobs/" ++ blob_id)%string (Some (bases_of m)) MAX_DELTA_CHAIN_READ_DEPTH) = Ok data;
  lo_sha : sha256_bytes data = sha256 r;
  lo_size : N.of_nat (length data) = size_bytes r
}.

(** Every id has its bytes; the ranks bound the chains of bases. *)
Definition represents : Prop := forall blob_id data, contents !! blob_id = Some data -> rank blob_id <= N.to_nat MAX_DELTA_CHAIN_READ_DEPTH /\
  exists i r mi m p b file index, located_blob blob_id data i r mi m p b file index.

(** ** Sessions over these files *)

Local Abbreviation io0 := (mkIo du d []).
Definition stamp_at (path : PathBuf) (file : bytes) : N * option N := (N.of_nat (length file), modified io0 path).
Definition reads_file (key : string) (a : PackEntryArchive) : Prop := exists h file index, key = reader_key repo_root h /\
  d !! object_pack_path repo_root h = Some file /\
  read_zstd_chunked_container_index file ZSTD_CHUNKED_INDEX_KIND_OBJECT PACK_FORMAT_ZSTD_CHUNKED_V1 = Ok index /\
  pa_index a = index /\ cache_ok file index (pa_cache a).

Record blob_coherent (R : gset string) (c : BinaryBlobReadSession) : Prop := {
  bc_resolving : resolving_blobs c = R;
  bc_resolved : resolved_blobs c ⊆ contents;
  bc_readers : map_Forall reads_file (pack_readers c);
  bc_stamps : forall stamps key stamp, session_stamps c = Some stamps -> stamps !! key = Some stamp ->
    exists h file, key = reader_key repo_root h /\ d !! object_pack_path repo_root h = Some file /\ stamp = stamp_at (object_pack_path repo_root h) file
}.

Lemma new_session_coherent budget : blob_coherent ∅ (new_session budget None).
Proof. split; [done|apply map_empty_subseteq|apply map_Forall_empty|done]. Qed.

(** From the sessions [I], [m] succeeds, whatever the transaction remembers. *)
Definition runs {A : Type} (I : BinaryBlobReadSession -> Prop) (m : blobbed A) (Q : A -> BinaryBlobReadSession -> Prop) : Prop :=
  forall c t, I c -> coherent fs d t -> exists a c' t', m (c, (t, io0)) = (Ok a, (c', (t', io0))) /\ Q a c' /\ coherent fs d t'.

Lemma runs_ret {A : Type} (I : BinaryBlobReadSession -> Prop) (a : A) (Q : A -> BinaryBlobReadSession -> Prop) : (forall c, I c -> Q a c) -> runs I (mret a) Q.
Proof. intros H c t Hc Ht. exists a, c, t. split; [done|]. split; [by apply H|done]. Qed.
Lemma runs_bind {A B : Type} I Q R (m : blobbed A) (k : A -> blobbed B) : runs I m Q -> (forall a, runs (Q a) (k a) R) -> runs I (m ≫= k) R.
Proof.
  intros Hm Hk c t Hc Ht. destruct (Hm c t Hc Ht) as (a & c1 & t1 & Hrun & Ha & Ht1). destruct (Hk a c1 t1 Ha Ht1) as (b & c2 & t2 & Hrun2 & H).
  exists b, c2, t2. split; [|done]. by erewrite bind_run by exact Hrun.
Qed.
Lemma runs_post {A : Type} I (m : blobbed A) (Q R : A -> BinaryBlobReadSession -> Prop) : runs I m Q -> (forall a c, Q a c -> R a c) -> runs I m R.
Proof. intros Hm H c t Hc Ht. destruct (Hm c t Hc Ht) as (a & c1 & t1 & Hrun & Ha & Ht1). exists a, c1, t1. split; [done|]. split; [by apply H|done]. Qed.
Lemma runs_pre {A : Type} (I I' : BinaryBlobReadSession -> Prop) (m : blobbed A) Q : (forall c, I c -> I' c) -> runs I' m Q -> runs I m Q.
Proof. intros H Hm c t Hc Ht. apply Hm; [by apply H|done]. Qed.
Lemma runs_pure {A : Type} (H : Prop) (I : BinaryBlobReadSession -> Prop) (m : blobbed A) Q : (H -> runs I m Q) -> runs (fun c => H /\ I c) m Q.
Proof. intros Hm c t [HH Hc] Ht. by apply Hm. Qed.
Lemma runs_lift {A B : Type} I (r : result BinaryDbErrorKind A) a (k : A -> blobbed B) Q : r = Ok a -> runs I (k a) Q -> runs I (lift r ≫= k) Q.
Proof. intros -> Hk c t Hc Ht. exact (Hk c t Hc Ht). Qed.
Lemma runs_require {B : Type} I b kind (k : unit -> blobbed B) Q : b = true -> runs I (k tt) Q -> runs I (require b kind ≫= k) Q.
Proof. intros ->. by apply runs_lift. Qed.
Lemma runs_in_db {A B : Type} I (m : cached A) a (k : A -> blobbed B) Q : reads_ m (Ok a) -> runs I (k a) Q -> runs I (in_db m ≫= k) Q.
Proof.
  intros Hm Hk c t Hc Ht. destruct (Hm t Ht) as (t' & Hrun & Ht'). destruct (Hk c t' Hc Ht') as (b & c2 & t2 & Hrun2 & H). exists b, c2, t2. split; [|done].
  erewrite bind_run; [exact Hrun2|]. unfold in_db. by rewrite Hrun.
Qed.
Lemma runs_change {B : Type} (I I' : BinaryBlobReadSession -> Prop) f (k : unit -> blobbed B) Q : (forall c, I c -> I' (f c)) -> runs I' (k tt) Q -> runs I (change_session f ≫= k) Q.
Proof. intros Hf Hk c t Hc Ht. exact (Hk (f c) t (Hf c Hc) Ht). Qed.
Lemma runs_session {B : Type} (I : BinaryBlobReadSession -> Prop) (k : BinaryBlobReadSession -> blobbed B) Q :
  (forall c, I c -> runs (fun c' => c' = c) (k c) Q) -> runs I (session ≫= k) Q.
Proof. intros Hk c t Hc Ht. exact (Hk c Hc c t eq_refl Ht). Qed.
Lemma runs_settled {A : Type} I (m : blobbed A) Q : runs I m Q -> runs I (settled m) (fun r c => exists a, r = Ok a /\ Q a c).
Proof.
  intros Hm c t Hc Ht. destruct (Hm c t Hc Ht) as (a & c1 & t1 & Hrun & Ha & Ht1). exists (Ok a), c1, t1. split; [unfold settled; by rewrite Hrun|].
  split; [by exists a|done].
Qed.

(** *** The steps of a read *)

Lemma runs_file {B : Type} I path file (k : bytes * (N * option N) -> blobbed B) Q : d !! path = Some file ->
  runs I (k (file, stamp_at path file)) Q -> runs I (pack_with_stamp path ≫= k) Q.
Proof.
  intros Hd Hk c t Hc Ht. destruct (Hk c t Hc Ht) as (b & c2 & t2 & Hrun2 & H). exists b, c2, t2. split; [|done].
  erewrite bind_run; [exact Hrun2|]. unfold pack_with_stamp. cbn [disk]. by rewrite Hd.
Qed.

(** A session with the bases at hand. *)
Definition with_bases (R : gset string) (bases : gmap string bytes) (c : BinaryBlobReadSession) : Prop := blob_coherent R c /\ bases ⊆ resolved_blobs c.

Lemma with_readers R bases c readers stamps used : with_bases R bases c -> map_Forall reads_file readers -> with_bases R bases (set_readers readers stamps used c).
Proof. intros [[H1 H2 H3 H4] Hb] Hr. by split; [split|]. Qed.

Section Pack.
Context (h : N) (file : bytes) (index : ZstdChunkedPackIndex) (entries : gmap string PackIndexEntry).
Context (Hfile : d !! object_pack_path repo_root h = Some file).
Context (Hread : read_zstd_chunked_container_index file ZSTD_CHUNKED_INDEX_KIND_OBJECT PACK_FORMAT_ZSTD_CHUNKED_V1 = Ok index).
Context (Hentries : entries_by_name_from_validated_index index = Ok entries).

Local Abbreviation key := (reader_key repo_root h).
Local Abbreviation path := (object_pack_path repo_root h).

Lemma reads_this_file a : reads_file key a -> pa_index a = index /\ cache_ok file index (pa_cache a).
Proof.
  intros (h' & file' & index' & Hkey & Hd & Hidx & Ha & Hc). apply reader_key_path in Hkey. rewrite <- Hkey, Hfile in Hd. injection Hd as <-.
  rewrite Hread in Hidx. by injection Hidx as <-.
Qed.
Lemma reads_file_this a : pa_index a = index -> cache_ok file index (pa_cache a) -> reads_file key a.
Proof. intros Ha Hc. by exists h, file, index. Qed.

(** The reader of the pack is open. *)
Definition with_reader R bases (c : BinaryBlobReadSession) : Prop := with_bases R bases c /\ is_Some (pack_readers c !! key).

Lemma runs_pack_reader R bases stamp : runs (with_bases R bases) (object_pack_reader key path PACK_FORMAT_ZSTD_CHUNKED_V1 file stamp) (fun _ => with_reader R bases).
Proof.
  unfold object_pack_reader. apply (runs_change _ (with_bases R bases)).
  { intros c Hc. destruct (bool_decide _); [done|]. apply with_readers; [done|]. apply map_Forall_delete. by apply bc_readers with R, Hc. }
  apply runs_session. intros c Hc. destruct (pack_readers c !! key) as [a|] eqn:Ha.
  - apply runs_ret. intros ? ->. split; [done|]. by exists a.
  - assert (open_pack_with_format path file PACK_FORMAT_ZSTD_CHUNKED_V1 = Ok (mkPackArchive path index ∅)) as Hopen.
    { unfold open_pack_with_format. assert (object_format_from_persisted PACK_FORMAT_ZSTD_CHUNKED_V1 = Ok tt) as -> by (by vm_compute).
      cbn [mbind result_bind]. rewrite Hread. cbn [map_err mbind result_bind]. by rewrite Hentries. }
    eapply runs_lift; [exact Hopen|]. intros ? t -> Ht. exists tt. eexists _, t. split; [reflexivity|]. split; [|done]. split.
    + apply with_readers; [done|]. apply map_Forall_insert_2; [by apply reads_file_this; [|apply cache_ok_empty]|]. by apply bc_readers with R, Hc.
    + cbn. rewrite lookup_insert_eq. by eexists.
Qed.

Lemma runs_admit R bases : runs (with_reader R bases) (admit_stamp key (stamp_at path file)) (fun _ => with_reader R bases).
Proof.
  unfold admit_stamp. apply runs_session. intros c [[Hc Hb] Ha]. destruct (session_stamps c) as [stamps|] eqn:Hs; [|by apply runs_ret; intros ? ->].
  apply (runs_change _ (with_reader R bases)).
  - intros ? ->. split; [|exact Ha]. split; [|exact Hb]. destruct Hc as [H1 H2 H3 H4]. split; [exact H1|exact H2|exact H3|].
    intros stamps' key' stamp'. cbn. intros [= <-] [[<- <-]|[_ Hk]]%lookup_insert_Some; [by exists h, file|by apply (H4 stamps)].
  - intros c' t Hc' Ht. exists tt, c', t. split; [|done].
    enough (match stamps !! key with Some previous => bool_decide (previous = stamp_at path file) | None => true end = true) as -> by done.
    destruct (stamps !! key) as [previous|] eqn:Hk; [|done]. apply bool_decide_eq_true. destruct (bc_stamps R c Hc stamps key previous Hs Hk) as (h' & file' & Hkey & Hd & ->).
    apply reader_key_path in Hkey. rewrite <- Hkey in *. rewrite Hfile in Hd. by injection Hd as <-.
Qed.

Lemma use_reader_with R bases c : with_reader R bases c -> with_reader R bases (use_reader key c).
Proof. intros [[[H1 H2 H3 H4] Hb] Ha]. by split; [split; [split|]|]. Qed.

Lemma runs_read_reader R bases data entry_name :
  snd (archive_read_entry file index ∅ entry_name (Some bases) MAX_DELTA_CHAIN_READ_DEPTH) = Ok data ->
  runs (with_reader R bases) (read_from_reader key file entry_name) (fun data' c => data' = data /\ with_bases R bases c).
Proof.
  intros Hdata c t [[Hc Hb] [a Ha]] Ht. unfold read_from_reader. erewrite bind_run by done. rewrite Ha. erewrite bind_run by done.
  destruct (reads_this_file a (bc_readers R c Hc key a Ha)) as [Hidx Hcache].
  destruct (archive_read_bases file index MAX_DELTA_CHAIN_READ_DEPTH bases (resolved_blobs c) (pa_cache a) entry_name data Hb Hcache Hdata) as [Hres Hok].
  unfold read_pack_entry. rewrite Hidx. destruct (archive_read_entry file index (pa_cache a) entry_name _ _) as [cache r]. cbn [fst snd] in *. subst r.
  erewrite bind_run by done. exists data. eexists _, t. split; [reflexivity|]. split; [|done]. split; [done|]. apply with_readers; [by split|].
  apply map_Forall_insert_2; [by apply reads_file_this|apply (bc_readers R c Hc)].
Qed.
End Pack.

(** Trimming closes readers and empties their caches. *)
Lemma trim_with R bases key c : with_bases R bases c -> with_bases R bases (trim_chunks key c).
Proof.
  unfold trim_chunks. generalize (session_budget c) (size (reader_used c)). intros budget fuel. revert c. induction fuel as [|fuel IH]; intros c Hc; cbn [trim_rounds];
    (destruct (_ <? _)%N; [|done]).
  all: assert (with_bases R bases (set_readers (alter clear_cached_chunks key (pack_readers c)) (reader_stamps c) (reader_used c) c)) as Hclear.
  1, 3: apply with_readers; [done|]; intros k a; rewrite lookup_alter; pose proof (bc_readers R c (proj1 Hc) k) as Hr;
    (destruct (decide (key = k)) as [<-|]; [|apply Hr]); intros (a0 & Ha & ->)%fmap_Some;
    destruct (Hr a0 Ha) as (h & file & index & ? & ? & ? & ? & ?); exists h, file, index; split_and!; try done; apply cache_ok_empty.
  all: destruct (least None _) as [k|]; try done. apply IH, with_readers; [done|]. apply map_Forall_delete. by apply bc_readers with R, Hc.
Qed.

(** *** Resolving a blob *)

Lemma resolve_contents R read_base blob_id data i r mi m p b file index : located_blob blob_id data i r mi m p b file index ->
  (forall j r0, base_blob_index m = Some j -> bs !! N.to_nat j = Some r0 ->
    runs (blob_coherent R) (read_base (blob_name r0)) (fun found c => is_Some found /\ with_bases R (bases_of m) c)) ->
  runs (blob_coherent R) (resolve_blob_bytes_for_view fs repo_root read_base (blob_view i r)) (fun data' c => data' = data /\ blob_coherent R c).
Proof.
  intros H Hbase. destruct (live_blob_of_live _ _ _ (lo_found _ _ _ _ _ _ _ _ _ _ H)) as [Hi Hlive]. destruct (lo_entries _ _ _ _ _ _ _ _ _ _ H) as [entries Hentries].
  set (base := match base_blob_index m with Some j => blob_name <$> bs !! N.to_nat j | None => None end).
  assert (reads_ (object_pack_member_view_at fs mi) (Ok (member_view_of mi m p (blob_name b) base))) as Hview.
  { apply reads_member; try apply H. unfold base. pose proof (lo_base _ _ _ _ _ _ _ _ _ _ H) as Hb. destruct (base_blob_index m) as [j|]; [|done].
    destruct Hb as (r0 & Hr0 & _). exists r0. split; [done|]. by rewrite Hr0. }
  unfold resolve_blob_bytes_for_view. cbn [bv_record bv_pack_member_index blob_view bv_blob_id bv_size_bytes]. rewrite Hlive, (lo_pruned _ _ _ _ _ _ _ _ _ _ H).
  apply runs_require; [done|]. apply runs_require; [done|]. apply (runs_lift _ _ mi); [by rewrite (lo_place _ _ _ _ _ _ _ _ _ _ H)|].
  eapply runs_in_db; [exact Hview|]. cbn [member_view_of omv_record omv_blob_id omv_base_blob_id omv_entry_name].
  apply runs_require; [by rewrite (lo_live _ _ _ _ _ _ _ _ _ _ H)|].
  apply runs_require. { apply bool_decide_eq_true. rewrite (lo_blob_name _ _ _ _ _ _ _ _ _ _ H). symmetry. apply H. }
  apply runs_require; [apply N.leb_le, H|]. eapply runs_in_db; [apply reads_pack; apply H|]. cbn [pack_view_of opv_pack_path opv_pack_format].
  eapply runs_lift; [apply absolute_object_pack|]. fold (reader_key repo_root (object_pack_hash48 p)).
  apply (runs_bind _ (fun _ => with_bases R (bases_of m))).
  { pose proof (lo_base _ _ _ _ _ _ _ _ _ _ H) as Hb. unfold base, bases_of in *. destruct (base_blob_index m) as [j|].
    - destruct Hb as (r0 & Hr0 & Hb & _). specialize (Hbase j r0 eq_refl Hr0). rewrite Hr0 in *. cbn [fmap option_fmap option_map].
      assert (bool_decide (blob_name r0 = EmptyString) = false) as -> by done.
      eapply runs_bind; [exact Hbase|]. intros found. apply runs_pure. intros [x ->]. apply (runs_lift _ _ x); [done|]. by apply runs_ret.
    - apply runs_ret. intros c Hc. split; [done|apply map_empty_subseteq]. }
  intros []. eapply runs_file; [apply H|]. cbn beta iota.
  eapply runs_bind; [by apply runs_pack_reader with index entries; try apply H|]. intros [].
  eapply runs_bind; [by apply runs_admit; try apply H|]. intros []. apply (runs_change _ (with_reader (object_pack_hash48 p) R (bases_of m))).
  { intros c. by apply use_reader_with. }
  eapply runs_bind; [apply runs_read_reader with index; try apply H; rewrite (lo_blob_name _ _ _ _ _ _ _ _ _ _ H); apply H|]. intros data'. apply runs_pure. intros ->.
  apply (runs_change _ (with_bases R (bases_of m))); [intros c; by apply trim_with|].
  apply runs_require; [apply N.eqb_eq, H|]. apply runs_require; [apply bool_decide_eq_true, H|]. apply runs_ret. by intros c [Hc _].
Qed.

Context (Hrep : represents).

Lemma read_contents n fuel depth blob_id data i r R : rank blob_id <= n -> contents !! blob_id = Some data -> live_blob_of blob_id = Some (i, r) ->
  rank blob_id < fuel -> (N.of_nat (rank blob_id) + depth <= MAX_DELTA_CHAIN_READ_DEPTH)%N -> (forall x, x ∈ R -> rank blob_id < rank x) ->
  runs (blob_coherent R) (read_blob_bytes_for_view_with_session fs repo_root None fuel (blob_view i r) depth)
    (fun data' c => data' = data /\ blob_coherent R c /\ resolved_blobs c !! blob_id = Some data).
Proof.
  revert fuel depth blob_id data i r R. induction n as [n IH] using lt_wf_ind. intros fuel depth blob_id data i r R Hn Hdata Hof Hfuel Hdepth HR.
  destruct (Hrep _ _ Hdata) as (_ & i' & r' & mi & m & p & b & file & index & H). pose proof (lo_found _ _ _ _ _ _ _ _ _ _ H) as Hof'.
  rewrite Hof in Hof'. injection Hof' as <- <-. destruct (live_blob_of_live _ _ _ Hof) as [_ Hlive]. pose proof (lo_name _ _ _ _ _ _ _ _ _ _ H) as Hname.
  destruct fuel as [|fuel]; [lia|]. cbn [read_blob_bytes_for_view_with_session]. apply runs_session. intros c Hc. cbn [bv_blob_id blob_view]. fold (blob_name r). rewrite Hname.
  destruct (resolved_blobs c !! blob_id) as [x|] eqn:Hx.
  - pose proof (lookup_weaken _ _ _ _ Hx (bc_resolved R c Hc)) as Hx'. rewrite Hdata in Hx'. injection Hx' as <-.
    apply runs_require; [|apply runs_ret; by intros ? ->]. unfold remembered_ok. cbn [bv_record blob_view bv_size_bytes].
    rewrite Hlive, (lo_pruned _ _ _ _ _ _ _ _ _ _ H), (lo_size _ _ _ _ _ _ _ _ _ _ H), N.eqb_refl, bool_decide_eq_true_2 by apply H. done.
  - assert (blob_id ∉ R) as Hnot by (intros Hin; specialize (HR _ Hin); lia).
    apply runs_require; [apply N.leb_le; lia|]. apply runs_require; [apply bool_decide_eq_true; by rewrite (bc_resolving R c Hc)|].
    apply (runs_change _ (blob_coherent ({[blob_id]} ∪ R))).
    { intros ? ->. destruct Hc as [H1 H2 H3 H4]. split; try done. cbn. by rewrite H1. }
    eapply runs_bind.
    { apply runs_settled. eapply resolve_contents; [exact H|]. intros j r0 Hj Hr0. pose proof (lo_base _ _ _ _ _ _ _ _ _ _ H) as Hb. rewrite Hj in Hb.
      destruct Hb as (r0' & Hr0' & [base_data Hbase] & Hrank). rewrite Hr0 in Hr0'. injection Hr0' as <-.
      destruct (Hrep _ _ Hbase) as (_ & ib & rb & ? & ? & ? & ? & ? & ? & Hlb). pose proof (lo_found _ _ _ _ _ _ _ _ _ _ Hlb) as Hfound.
      assert (exists key, blob_id_index_key (blob_name r0) = Ok key) as [key Hkey].
      { unfold live_blob_of in Hfound. destruct (blob_id_index_key (blob_name r0)) as [key|]; [by exists key|done]. }
      unfold find_blob_view. eapply runs_in_db; [by eapply reads_blob_of|]. rewrite Hfound. cbn [fmap option_fmap option_map fst snd].
      eapply runs_bind.
      - apply (IH (rank (blob_name r0)) ltac:(lia) fuel (depth + 1)%N (blob_name r0) base_data ib rb); try done; try lia.
        intros y [->%elem_of_singleton|Hx0]%elem_of_union; [done|]. specialize (HR y Hx0). lia.
      - intros y. apply runs_pure. intros ->. apply runs_ret. intros c' [Hc' Hres]. split; [by eexists|]. split; [done|].
        unfold bases_of. rewrite Hj, Hr0, Hbase. by apply map_singleton_subseteq_l. }
    intros res. cbn beta. intros c' t (x & -> & -> & Hc') Ht. cbn [lift].
    destruct (runs_change (B := bytes) (blob_coherent ({[blob_id]} ∪ R)) (blob_coherent R) (fun s => set_blobs (resolved_blobs s) (resolving_blobs s ∖ {[blob_id]}) s)
      (fun _ => data0 ← lift (Ok data); _ ← change_session (fun s => set_blobs (<[blob_id := data0]> (resolved_blobs s)) (resolving_blobs s) s); mret data0)
      (fun data' c => data' = data /\ blob_coherent R c /\ resolved_blobs c !! blob_id = Some data)) with (c := c') (t := t) as (a & c2 & t2 & H2); try done; [| |by exists a, c2, t2].
    + intros c0 [H1 H2 H3 H4]. split; try done. cbn. rewrite H1. set_solver.
    + apply (runs_lift _ _ data); [done|]. apply (runs_change _ (fun c => blob_coherent R c /\ resolved_blobs c !! blob_id = Some data)); [|by apply runs_ret].
      intros c0 [H1 H2 H3 H4]. split; [split; try done|].
      * cbn. apply map_subseteq_spec. intros k v [[<- <-]|[_ Hk]]%lookup_insert_Some; [done|by eapply lookup_weaken].
      * cbn. apply lookup_insert_eq.
Qed.

(** An id that the store knows about: it has bytes, or no live record. *)
Definition answered (blob_id : string) : Prop := is_Some (contents !! blob_id) \/ (exists key, blob_id_index_key blob_id = Ok key) /\ live_blob_of blob_id = None.

Lemma read_answered blob_id : answered blob_id -> runs (blob_coherent ∅) (read_blob_bytes_for_id_with_session fs repo_root None blob_id 0)
  (fun found c => found = contents !! blob_id /\ blob_coherent ∅ c).
Proof.
  intros Hid. assert (exists key, blob_id_index_key blob_id = Ok key) as [key Hkey].
  { destruct Hid as [[data Hdata]|[Hkey _]]; [|done]. destruct (Hrep _ _ Hdata) as (_ & i & r & ? & ? & ? & ? & ? & ? & H).
    pose proof (lo_found _ _ _ _ _ _ _ _ _ _ H) as Hof. unfold live_blob_of in Hof. destruct (blob_id_index_key blob_id) as [key|]; [by exists key|done]. }
  unfold read_blob_bytes_for_id_with_session, find_blob_view. eapply runs_in_db; [by eapply reads_blob_of|]. destruct (contents !! blob_id) as [data|] eqn:Hdata.
  - destruct (Hrep _ _ Hdata) as (Hrank & i & r & ? & ? & ? & ? & ? & ? & H). pose proof (lo_found _ _ _ _ _ _ _ _ _ _ H) as Hof. rewrite Hof.
    cbn [fmap option_fmap option_map fst snd]. eapply runs_bind.
    + apply (read_contents (rank blob_id) (blob_fuel 0) 0 blob_id data i r ∅); try done; [unfold blob_fuel; lia|lia].
    + intros y. apply runs_pure. intros ->. apply runs_ret. by intros c [Hc _].
  - destruct Hid as [[z Hz]|[_ ->]]; [congruence|]. cbn. apply runs_ret. done.
Qed.

Lemma batch_answered blob_ids payload : Forall answered blob_ids -> payload ⊆ contents ->
  runs (blob_coherent ∅) (read_batch fs repo_root None blob_ids payload)
    (fun payload' _ => payload' = payload ∪ filter (fun kv => fst kv ∈ blob_ids) contents).
Proof.
  intros Hall. revert payload. induction Hall as [|blob_id blob_ids Hid Hall IH]; intros payload Hsub; cbn [read_batch].
  - apply runs_ret. intros c _. assert (filter (fun kv : string * bytes => fst kv ∈ []) contents = ∅) as ->; [|by rewrite (right_id_L ∅ (∪))].
    apply map_empty. intros k. apply map_lookup_filter_None. right. intros v _. by intros ?%elem_of_nil.
  - assert (forall p', p' ⊆ contents -> p' ∪ filter (fun kv => fst kv ∈ blob_id :: blob_ids) contents =
      (match contents !! blob_id with Some data => <[blob_id := data]> p' | None => p' end) ∪ filter (fun kv => fst kv ∈ blob_ids) contents) as Hstep.
    { intros p' Hp'. apply map_eq. intros k. apply option_eq. intros v. rewrite map_subseteq_spec in Hp'.
      destruct (contents !! blob_id) as [data|] eqn:Hdata; rewrite !lookup_union_Some_raw, ?lookup_insert_Some, ?lookup_insert_None, !map_lookup_filter_Some, elem_of_cons; cbn.
      - split.
        + intros [H|(H & Hv & [->|Hin])]; [|left; left; split; congruence|].
          * destruct (decide (blob_id = k)) as [<-|Hne]; [left; left; split; [done|]; specialize (Hp' _ _ H); congruence|left; right; done].
          * destruct (decide (blob_id = k)) as [<-|Hne]; [left; left; split; [done|congruence]|right; done].
        + intros [[[<- <-]|[Hne H]]|([H Hne] & Hv & Hin)]; [|by left|right; by split_and!; [|done|right]].
          destruct (p' !! blob_id) as [x|] eqn:Hx; [left; specialize (Hp' _ _ Hx); congruence|right; split_and!; [done|done|by left]].
      - split; (intros [H|(H & Hv & Hin)]; [by left|]); right; split_and!; try done; [destruct Hin as [->|]; [congruence|done]|by right]. }
    rewrite (Hstep payload Hsub). destruct (is_some (payload !! blob_id)) eqn:Hp.
    + destruct (payload !! blob_id) as [x|] eqn:Hx; [|done]. rewrite map_subseteq_spec in Hsub. rewrite (Hsub _ _ Hx), insert_id by done.
      apply IH. by apply map_subseteq_spec.
    + eapply runs_bind; [by apply read_answered|]. intros found. apply runs_pure. intros ->. apply IH. destruct (contents !! blob_id) as [data|] eqn:Hdata; [|done].
      by apply insert_subseteq_l.
Qed.

Lemma answered_run {A : Type} (m : blobbed A) (Q : A -> Prop) : runs (blob_coherent ∅) m (fun a _ => Q a) -> exists a, in_new_read (with_session m) io0 = Ok a /\ Q a.
Proof.
  intros Hm. destruct (Hm default_session empty_cache (new_session_coherent None) (empty_coherent fs d)) as (a & c & t & Hrun & Ha & _).
  exists a. split; [|done]. unfold in_new_read, with_session. by rewrite Hrun.
Qed.
End Contents.

(** C12. The blob store is a map from ids to bytes. Let the files hold tables of
    blobs, packs and members, and an index of ids whose rows are in the table, and let them
    represent [contents]: for every id a live record, its member in a pack, and the
    member's entry in the pack's file, which gives the bytes with the bytes of its base at
    hand, where chains of bases are no longer than the limit. Then a read
    gives the bytes of the id, or nothing where no live record has the id,
    through whatever chain of packs; a batch gives exactly the part of the map that was
    asked for, although its reads share open packs, chunks and resolved
    blobs; and the strict read gives the bytes or an error. *)
Theorem blob_store_represents {P : PackPrimitives} {T : FileTimes} (fs : LocalBinaryDbFs) (repo_root : PathBuf) (du d : gmap PathBuf bytes)
    (blob_path pack_path member_path index_path : PathBuf) (bs : list BinaryBlobRecord) (ps : list BinaryObjectPackRecord) (ms : list BinaryObjectPackMemberRecord)
    (ids : gmap bytes (list N)) (contents : gmap string bytes) (rank : string -> nat) :
  file_path_for fs BLOB_BIN = Ok blob_path -> file_path_for fs OBJECT_PACK_BIN = Ok pack_path ->
  file_path_for fs OBJECT_PACK_MEMBER_BIN = Ok member_path -> file_path_for fs BLOB_ID_IDX = Ok index_path ->
  holds_records (C := blob_codec) BLOB_BIN blob_path d bs -> holds_records (C := object_pack_codec) OBJECT_PACK_BIN pack_path d ps ->
  holds_records (C := object_pack_member_codec) OBJECT_PACK_MEMBER_BIN member_path d ms ->
  index_content (blob_id_index L) index_path d ids -> map_Forall (fun _ rows => Forall (fun i => N.to_nat i < length bs) rows) ids ->
  represents repo_root d bs ps ms ids contents rank ->
  (forall blob_id, answered bs ids contents blob_id ->
    reader_read_blob_bytes fs repo_root blob_id (mkIo du d []) = Ok (contents !! blob_id) /\
    read_blob_bytes fs repo_root blob_id (mkIo du d []) = ok_or (contents !! blob_id) Other) /\
  (forall blob_ids, Forall (answered bs ids contents) blob_ids ->
    read_blob_bytes_batch fs repo_root blob_ids (mkIo du d []) = Ok (filter (fun kv => fst kv ∈ blob_ids) contents)).
Proof.
  intros Hblob Hpack Hmember Hindex Hbs Hps Hms Hids Hrange Hrep. split.
  - intros blob_id Hid. assert (reader_read_blob_bytes fs repo_root blob_id (mkIo du d []) = Ok (contents !! blob_id)) as Hread.
    { destruct (answered_run fs repo_root (du := du) d contents (read_blob_bytes_for_id_with_session fs repo_root None blob_id 0) (fun found => found = contents !! blob_id))
        as (found & Hrun & ->); [|exact Hrun]. eapply runs_post; [by eapply read_answered|]. by intros found c [-> _]. }
    split; [exact Hread|]. unfold read_blob_bytes. unfold reader_read_blob_bytes in Hread. by rewrite Hread.
  - intros blob_ids Hall. destruct (answered_run fs repo_root (du := du) d contents (read_batch fs repo_root None blob_ids ∅)
      (fun payload => payload = filter (fun kv => fst kv ∈ blob_ids) contents)) as (payload & Hrun & ->); [|exact Hrun].
    eapply runs_post; [eapply batch_answered; try done; apply map_empty_subseteq|]. intros payload _ ->. by rewrite (left_id_L ∅ (∪)).
Qed.

(** ** An example *)

#[local] Existing Instance toy_primitives.

(** Two versions of a file in one pack, the second one a delta of the first. *)
Definition vault_first : bytes := Eval vm_compute in example_version 1.
Definition vault_second : bytes := Eval vm_compute in example_version 2.
Definition vault_first_hash : bytes := Eval vm_compute in toy_digest vault_first.
Definition vault_second_hash : bytes := Eval vm_compute in toy_digest vault_second.
Definition vault_data (k : nat) : bytes := match k with 1 => vault_first | _ => vault_second end.
Definition vault_hash (k : nat) : bytes := match k with 1 => vault_first_hash | _ => vault_second_hash end.
Definition vault_id (k : nat) : string := blob_id_from_sha256 (vault_hash k).
Definition vault_candidates : list PackCandidate := [example_candidate 1 (vault_id 1); example_candidate 2 (vault_id 2)].
Definition vault_archive : result pack_error (bytes * ZstdChunkedPackIndex) :=
  members ← map_err (fun _ => ReadOutOfFuel) (build_typed_pack_members_with_storage_gate_and_partitions (P := toy_primitives) vault_candidates 4 (Some ∅) None);
  map_err (fun _ => ReadOutOfFuel) (write_typed_pack_archive_with_layout (P := toy_primitives) "PCK-000000000007" CONTENT_ADDRESSED_PACK_INDEX_CREATED_AT members PACK_FORMAT_ZSTD_CHUNKED_V1 None).

Definition vault_blob (k : nat) (member : N) : BinaryBlobRecord :=
  mkBlobRecord 0 1 0 (N.of_nat (length (vault_data k))) (member + 1) 0 0 (vault_hash k).
Definition vault_blobs : list BinaryBlobRecord := [vault_blob 1 0; vault_blob 2 1].
Definition vault_packs : list BinaryObjectPackRecord := [mkObjectPackRecord 1 1 0 7 0 2 0 0].
Definition vault_members : list BinaryObjectPackMemberRecord := [mkObjectPackMemberRecord 8 0 0 0 0 0; mkObjectPackMemberRecord 9 1 0 0 1 1].
Definition vault_key (k : nat) : bytes := take 10 (vault_hash k).
Definition vault_index_file : bytes := to_le_bytes 4 1 ++ vault_key 1 ++ to_le_bytes 4 1 ++ vault_key 2 ++ to_le_bytes 4 2.
Definition vault_disk (file : bytes) : gmap PathBuf bytes :=
  <[[RootDir; Normal "blob.bin"] := encoded_table (map (encode_blob_record 1) vault_blobs)]>
  (<[[RootDir; Normal "object_pack.bin"] := encoded_table (map (encode_object_pack_record 1) vault_packs)]>
  (<[[RootDir; Normal "object_pack_member.bin"] := encoded_table (map (encode_object_pack_member_record 1) vault_members)]>
  (<[[RootDir; Normal "blob_id.idx"] := vault_index_file]>
  (<[object_pack_path [RootDir] 7 := file]> ∅)))).
Definition vault_contents : gmap string bytes := <[vault_id 1 := vault_data 1]> {[vault_id 2 := vault_data 2]}.

Example vault_chain : match vault_archive with Ok (_, index) => map (fun e => (mb_entry_type e, mb_base_content_id e)) (px_members index) | Err _ => [] end =
  [("full"%string, None); ("delta"%string, Some (vault_id 1))].
Proof. vm_compute. reflexivity. Qed.

Lemma vault_tables file : holds_records (C := blob_codec) BLOB_BIN [RootDir; Normal "blob.bin"%string] (vault_disk file) vault_blobs /\
  holds_records (C := object_pack_codec) OBJECT_PACK_BIN [RootDir; Normal "object_pack.bin"%string] (vault_disk file) vault_packs /\
  holds_records (C := object_pack_member_codec) OBJECT_PACK_MEMBER_BIN [RootDir; Normal "object_pack_member.bin"%string] (vault_disk file) vault_members.
Proof.
  split; [|split]; (split; [done|]).
  - split; [one_by_one; by vm_compute|]. eexists. split; [|one_by_one; vm_compute; reflexivity]. unfold vault_disk. rewrite lookup_insert_eq. vm_compute. reflexivity.
  - split; [one_by_one; by vm_compute|]. eexists. split; [|one_by_one; vm_compute; reflexivity].
    unfold vault_disk. rewrite lookup_insert_ne, lookup_insert_eq by done. vm_compute. reflexivity.
  - split; [one_by_one; by vm_compute|]. eexists. split; [|one_by_one; vm_compute; reflexivity].
    unfold vault_disk. do 2 rewrite lookup_insert_ne by done. rewrite lookup_insert_eq. vm_compute. reflexivity.
Qed.

Definition vault_ids : gmap bytes (list N) := <[vault_key 1 := [0%N]]> {[vault_key 2 := [1%N]]}.
Lemma vault_index file : index_content (blob_id_index L) [RootDir; Normal "blob_id.idx"%string] (vault_disk file) vault_ids /\
  map_Forall (fun _ rows => Forall (fun i => N.to_nat i < length vault_blobs) rows) vault_ids.
Proof.
  split.
  - exists (Some vault_index_file). split; [|vm_cast_no_check (eq_refl (Ok (E := BinaryDbErrorKind) vault_ids))]. unfold index_data, vault_disk. do 3 rewrite lookup_insert_ne by done. by rewrite lookup_insert_eq.
  - apply map_Forall_insert_2; [by one_by_one; cbn; lia|]. apply map_Forall_singleton. by one_by_one; cbn; lia.
Qed.

Definition vault_rank (blob_id : string) : nat := if bool_decide (blob_id = vault_id 2) then 1 else 0.
Lemma vault_pack : match vault_archive with
  | Ok (file, index) =>
      read_zstd_chunked_container_index file ZSTD_CHUNKED_INDEX_KIND_OBJECT PACK_FORMAT_ZSTD_CHUNKED_V1 = Ok index /\
      is_ok (entries_by_name_from_validated_index index) = true /\
      snd (archive_read_entry file index ∅ ("blobs/" ++ vault_id 1)%string (Some ∅) MAX_DELTA_CHAIN_READ_DEPTH) = Ok (vault_data 1) /\
      snd (archive_read_entry file index ∅ ("blobs/" ++ vault_id 2)%string (Some {[vault_id 1 := vault_data 1]}) MAX_DELTA_CHAIN_READ_DEPTH) = Ok (vault_data 2)
  | Err _ => False
  end.
Proof. vm_compute. repeat split. Qed.

Ltac by_computation := vm_compute; first [exact eq_refl | exact I | discriminate].
Lemma vault_represents file index : vault_archive = Ok (file, index) ->
  represents (P := toy_primitives) [RootDir] (vault_disk file) vault_blobs vault_packs vault_members vault_ids vault_contents vault_rank.
Proof.
  intros Hrun. pose proof vault_pack as H. rewrite Hrun in H. destruct H as (Hindex & Hentries & H1 & H2).
  assert (exists entries, entries_by_name_from_validated_index index = Ok entries) as He by (destruct (entries_by_name_from_validated_index index); [by eexists|done]).
  assert (vault_disk file !! object_pack_path [RootDir] 7 = Some file) as Hfile by (unfold vault_disk; do 4 rewrite lookup_insert_ne by done; apply lookup_insert_eq).
  assert (bases_of vault_blobs vault_contents (mkObjectPackMemberRecord 8 0 0 0 0 0) = ∅) as Hb1 by (vm_compute; exact eq_refl).
  assert (bases_of vault_blobs vault_contents (mkObjectPackMemberRecord 9 1 0 0 1 1) = {[vault_id 1 := vault_data 1]}) as Hb2 by (vm_compute; exact eq_refl).
  intros blob_id data Hdata. unfold vault_contents in Hdata. apply lookup_insert_Some in Hdata as [[<- <-]|[_ [<- <-]%lookup_singleton_Some]].
  - split; [vm_compute; lia|]. exists 0%N, (vault_blob 1 0), 0%N, (mkObjectPackMemberRecord 8 0 0 0 0 0), (mkObjectPackRecord 1 1 0 7 0 2 0 0), (vault_blob 1 0), file, index.
    split; [by_computation..|exact Hfile|exact Hindex|exact He|rewrite Hb1; exact H1|by_computation|by_computation].
  - split; [vm_compute; lia|].
    exists 1%N, (vault_blob 2 1), 1%N, (mkObjectPackMemberRecord 9 1 0 0 1 1), (mkObjectPackRecord 1 1 0 7 0 2 0 0), (vault_blob 2 1), file, index.
    split; [by_computation..| |exact Hfile|exact Hindex|exact He|rewrite Hb2; exact H2|by_computation|by_computation].
    exists (vault_blob 1 0). split; [by_computation|]. split; [vm_compute; by eexists|]. vm_compute. lia.
Qed.

Lemma vault_answered : Forall (answered vault_blobs vault_ids vault_contents) [vault_id 2; vault_id 1].
Proof. one_by_one; left; [exists (vault_data 2)|exists (vault_data 1)]; vm_compute; exact eq_refl. Qed.

Lemma blob_store_represents_witness : exists file index, vault_archive = Ok (file, index) /\
  read_blob_bytes_batch (T := toy_times) example_fs [RootDir] [vault_id 2; vault_id 1] (mkIo ∅ (vault_disk file) []) =
    Ok (filter (fun kv => fst kv ∈ [vault_id 2; vault_id 1]) vault_contents).
Proof.
  pose proof vault_pack as Hpack. destruct vault_archive as [[file index]|e] eqn:Hrun; [|destruct Hpack].
  exists file, index. split; [reflexivity|]. destruct (vault_tables file) as (Hbs & Hps & Hms). destruct (vault_index file) as [Hids Hrange].
  exact (proj2 (blob_store_represents (T := toy_times) example_fs [RootDir] ∅ (vault_disk file) _ _ _ _ vault_blobs vault_packs vault_members vault_ids
    vault_contents vault_rank eq_refl eq_refl eq_refl eq_refl Hbs Hps Hms Hids Hrange (vault_represents file index Hrun)) _ vault_answered).
Defined.

Lemma vault_reader : match vault_archive with
  | Ok (file, _) => reader_read_blob_bytes (T := toy_times) example_fs [RootDir] (vault_id 2) (mkIo ∅ (vault_disk file) []) = Ok (Some (vault_data 2))
  | Err _ => False
  end.
Proof. vm_compute. exact eq_refl. Qed.

Lemma blob_bytes_authentic_witness : exists file index, vault_archive = Ok (file, index) /\
  has_id (vault_id 2) (vault_data 2) /\ exists view, in_new_read (get_blob_view_by_id example_fs (vault_id 2)) (mkIo ∅ (vault_disk file) []) = Ok (Some view) /\
    live_view example_fs (vault_disk file) (vault_id 2) view /\ described view (vault_data 2).
Proof.
  pose proof vault_reader as Hread. destruct vault_archive as [[file index]|e] eqn:Hrun; [|destruct Hread]. exists file, index. split; [reflexivity|].
  exact (proj1 (blob_bytes_authentic (T := toy_times) example_fs [RootDir] (mkIo ∅ (vault_disk file) [])) (vault_id 2) (vault_data 2) Hread).
Defined.

Lemma blob_session_bounded_witness : match vault_archive with
  | Ok (file, _) =>
      let '(r, (c, _)) := read_blob_bytes_for_id_with_session (T := toy_times) example_fs [RootDir] None (vault_id 2) 0
        (default_session, (empty_cache, mkIo ∅ (vault_disk file) [])) in
      tracked c /\ match r with Ok _ => bounded c | Err _ => True end
  | Err _ => True
  end.
Proof.
  destruct vault_archive as [[file index]|e]; [|exact I]. destruct (read_blob_bytes_for_id_with_session _ _ _ _ _ _) as [r [c s]] eqn:Hrun.
  destruct (blob_session_bounded (T := toy_times) example_fs [RootDir] None) as (Hnew & Hread & _). destruct (Hnew None None) as [Ht Hb].
  destruct (Hread (vault_id 2) 0%N default_session _ r c s Ht Hrun) as [Ht' Hb']. exact (conj Ht' (Hb' Hb)).
Defined.
