(* ===== verification/PackPrune.v ===== *)
(** * Pruning object packs that nothing needs

    [ait-core/src/local_content_gc/binary_db_prune.rs]: which object packs hold
    only blobs that other packs hold too, how the catalogue of the content database
    changes when they go, and the command that verifies, plans again, writes,
    commits and removes the archives. *)

From Stdlib Require Import NArith Lia.
From Stdlib Require Strings.Byte.
From stdpp Require Import base numbers strings gmap list sorting.
From S2P Require Import Prelude Codec Json FileStore BinaryDb BinaryIndex ReadTxn WriteTxn ContentCodec ContentIds ContentStore.
From S2P Require Import PackCodec PackIndex PackContainer TreeStore BlobStore.

(** ** Errors *)

(** One constructor for each message; those of the database are [StoreError]. *)
Inductive prune_error : Type :=
| StoreError (kind : BinaryDbErrorKind)
| MemberRangeOverflows (pack_id : string)
| MissingMemberRecords (pack_id : string) (first end_ count : N)
| TombstonedMember (pack_id : string) (member_index : N)
| ForeignMember (pack_id : string) (member_index points_to expected : N)
| NoVerifiedFallback (pack_id : string)
| PartiallyReferenced (pack_id : string) (referenced members : N)
| MissingBlobRecord (pack_id : string) (member_index blob_index : N)
| OnlyCatalogCopy (pack_id : string) (member_index blob_index : N)
| EarlierWithoutLocator (blob_index : N)
| InvalidFallback (blob_index : N) (error : prune_error)
| MissingMember (blob_index member_index : N)
| NotBackreference (member_index blob_index : N)
| MissingPack (member_index pack_index : N)
| PackRangeOverflows (pack_index : N)
| NotOwnedByPack (member_index : N)
| MissingBaseBlob (member_index base_blob_index : N)
| NoActiveBlob (member_index base_blob_index : N)
| ActiveWithoutLocator (blob_index : N)
| NoActiveFallback (member_index base_blob_index : N) (last_error : option prune_error)
| ChangedIdentity (member_index base_blob_index fallback_blob_index : N)
| FallbackWithoutLocator (blob_index : N)
| CatalogChanged
| UnencodablePointer (blob_index : N)
| DuplicateTombstone (blob_index : N)
| FallbackUnavailable (blob_id : string)
| FallbackUnreadable (blob_id : string) (kind : BinaryDbErrorKind).

(** A [match] on the [Result] of a call. *)
Definition attempt {S E F A} (m : stateful S E A) : stateful S F (result E A) := fun s => let '(r, s) := m s in (Ok r, s).

(** A [BTreeSet<u32>] and the entries of a [BTreeMap<u32, V>] in increasing order. *)
Definition ascending (X : gset N) : list N := merge_sort N.le (elements X).
Definition ascending_entries {V} (m : gmap N V) : list (N * V) := omap (fun k => (fun v => (k, v)) <$> m !! k) (ascending (dom m)).

(** ** Plans *)

Record BinaryDbOrphanObjectPack : Type := mkOrphan {
  orphan_pack_index : N;
  orphan_pack_id : string;
  orphan_pack_path : string;
  orphan_record : BinaryObjectPackRecord;
  orphan_members : list (N * BinaryObjectPackMemberRecord);
  blob_tombstones : list (N * BinaryBlobRecord * N);
  verified_fallback_blob_indices : list N
}.
Record BinaryDbBaseBlobPointerRewrite : Type := mkRewrite {
  rewrite_member_index : N;
  rewrite_record : BinaryObjectPackMemberRecord;
  fallback_blob_index : N
}.
Record BinaryDbOrphanPackPrunePlan : Type := mkPrunePlan {
  candidates : list BinaryDbOrphanObjectPack;
  base_pointer_rewrites : list BinaryDbBaseBlobPointerRewrite
}.

#[export] Instance blob_record_eq_dec : EqDecision BinaryBlobRecord.
Proof. solve_decision. Defined.
#[export] Instance object_pack_record_eq_dec : EqDecision BinaryObjectPackRecord.
Proof. solve_decision. Defined.
#[export] Instance object_pack_member_record_eq_dec : EqDecision BinaryObjectPackMemberRecord.
Proof. solve_decision. Defined.
#[export] Instance orphan_eq_dec : EqDecision BinaryDbOrphanObjectPack.
Proof. solve_decision. Defined.
#[export] Instance rewrite_eq_dec : EqDecision BinaryDbBaseBlobPointerRewrite.
Proof. solve_decision. Defined.
#[export] Instance prune_plan_eq_dec : EqDecision BinaryDbOrphanPackPrunePlan.
Proof. solve_decision. Defined.

(** ** The catalogue *)

(** What a plan reads: the three record files, through any state. *)
Class Catalog (S : Type) : Type := {
  blob_count : stateful S prune_error N;
  blob_at : N -> stateful S prune_error BinaryBlobRecord;
  pack_count : stateful S prune_error N;
  pack_at : N -> stateful S prune_error BinaryObjectPackRecord;
  catalog_member_count : stateful S prune_error N;
  member_at : N -> stateful S prune_error BinaryObjectPackMemberRecord
}.

Definition unavailable (blob : BinaryBlobRecord) : bool := blob_is_tombstone blob || blob_is_pruned blob.
Definition blob_identity (blob : BinaryBlobRecord) : N * N * bytes := (hash_kind blob, size_bytes blob, sha256 blob).

Section Planning.
Context {S : Type} {K : Catalog S}.
Local Abbreviation planning := (stateful S prune_error).

(** A loop over indices that pushes what some of its rounds give. *)
Fixpoint gather {A} (round : N -> planning (option A)) (rounds : nat) (index : N) : planning (list A) :=
  match rounds with
  | O => mret []
  | Datatypes.S rounds =>
      found ← round index;
      rest ← gather round rounds (index + 1);
      mret (match found with Some x => x :: rest | None => rest end)
  end.

(** [for blob_index in 0..blob_count] *)
Fixpoint blobs_from (rounds : nat) (blob_index : N) : planning (list BinaryBlobRecord) :=
  match rounds with
  | O => mret []
  | Datatypes.S rounds => blob ← blob_at blob_index; blobs ← blobs_from rounds (blob_index + 1); mret (blob :: blobs)
  end.
Definition all_blobs : planning (list BinaryBlobRecord) := count ← blob_count; blobs_from (N.to_nat count) 0.

Definition binary_db_validate_authoritative_member (member_index expected_blob_index pack_count member_count : N) : planning unit :=
  _ ← lift (fail_if (member_count <=? member_index)%N (MissingMember expected_blob_index member_index));
  member ← member_at member_index;
  _ ← lift (fail_if (member_is_tombstone member || negb (blob_index member =? expected_blob_index)%N) (NotBackreference member_index expected_blob_index));
  _ ← lift (fail_if (pack_count <=? pack_index member)%N (MissingPack member_index (pack_index member)));
  pack ← pack_at (pack_index member);
  let end_ := (first_member_index pack + ContentCodec.member_count pack)%N in
  _ ← lift (fail_if (u32_max <? end_)%N (PackRangeOverflows (pack_index member)));
  lift (fail_if (object_pack_is_tombstone pack || (member_index <? first_member_index pack)%N || (end_ <=? member_index)%N) (NotOwnedByPack member_index)).

(** The loop of [binary_db_find_earlier_blob_fallback]: [earlier] are the blobs
    from [fallback_blob_index] to the candidate. *)
Fixpoint earlier_fallback (candidate_blob_index : N) (candidate_blob : BinaryBlobRecord) (pack_count member_count : N)
    (fallback_blob_index : N) (earlier : list BinaryBlobRecord) (invalid_fallback : option prune_error) : planning (option N) :=
  match earlier with
  | [] => lift (match invalid_fallback with Some error => Err (InvalidFallback candidate_blob_index error) | None => Ok None end)
  | fallback :: earlier =>
      let continue := earlier_fallback candidate_blob_index candidate_blob pack_count member_count (fallback_blob_index + 1) earlier in
      if unavailable fallback || negb (bool_decide (blob_identity fallback = blob_identity candidate_blob)) then continue invalid_fallback
      else match pack_member_index fallback with
           | None => continue (Some (EarlierWithoutLocator fallback_blob_index))
           | Some fallback_member_index =>
               valid ← attempt (binary_db_validate_authoritative_member fallback_member_index fallback_blob_index pack_count member_count);
               match valid with
               | Ok _ => mret (Some fallback_blob_index)
               | Err error => continue (Some error)
               end
           end
  end.
Definition binary_db_find_earlier_blob_fallback (candidate_blob_index : N) (candidate_blob : BinaryBlobRecord) (blobs : list BinaryBlobRecord)
    (pack_count member_count : N) : planning (option N) :=
  earlier_fallback candidate_blob_index candidate_blob pack_count member_count 0 (take (N.to_nat candidate_blob_index) blobs) None.

Abbreviation BinaryDbPackRecoveryPlan := (list (N * BinaryBlobRecord * N) * list N)%type.

Fixpoint recovery_loop (candidate_pack_id : string) (blobs : list BinaryBlobRecord) (pack_count member_count : N)
    (candidate_members : list (N * BinaryObjectPackMemberRecord)) (blob_tombstones : gmap N (BinaryBlobRecord * N)) (fallback_blob_indices : gset N)
    : planning (option BinaryDbPackRecoveryPlan) :=
  match candidate_members with
  | [] => mret (Some (map (fun kv => (fst kv, fst (snd kv), snd (snd kv))) (ascending_entries blob_tombstones), ascending fallback_blob_indices))
  | (candidate_member_index, candidate_member) :: candidate_members =>
      let continue := recovery_loop candidate_pack_id blobs pack_count member_count candidate_members in
      let index := blob_index candidate_member in
      blob ← lift (ok_or (blobs !! N.to_nat index) (MissingBlobRecord candidate_pack_id candidate_member_index index));
      if unavailable blob then continue blob_tombstones fallback_blob_indices
      else
        let current_pointer := pack_member_index blob in
        let planned :=
          fallback ← binary_db_find_earlier_blob_fallback index blob blobs pack_count member_count;
          match fallback with
          | None =>
              _ ← lift (fail_if (negb (is_some current_pointer)) (OnlyCatalogCopy candidate_pack_id candidate_member_index index));
              mret None
          | Some fallback => continue (<[index := (blob, fallback)]> blob_tombstones) ({[fallback]} ∪ fallback_blob_indices)
          end in
        match current_pointer with
        | Some authoritative_member_index =>
            if (authoritative_member_index =? candidate_member_index)%N then planned
            else
              _ ← binary_db_validate_authoritative_member authoritative_member_index index pack_count member_count;
              continue blob_tombstones ({[index]} ∪ fallback_blob_indices)
        | None => planned
        end
  end.
Definition binary_db_pack_recovery_plan (candidate_pack_id : string) (candidate_members : list (N * BinaryObjectPackMemberRecord))
    (blobs : list BinaryBlobRecord) (pack_count member_count : N) : planning (option BinaryDbPackRecoveryPlan) :=
  recovery_loop candidate_pack_id blobs pack_count member_count candidate_members ∅ ∅.

(** [for member_index in record.first_member_index..end] *)
Fixpoint pack_members (pack_id : string) (pack_index : N) (rounds : nat) (member_index : N) : planning (list (N * BinaryObjectPackMemberRecord)) :=
  match rounds with
  | O => mret []
  | Datatypes.S rounds =>
      member ← member_at member_index;
      _ ← lift (fail_if (member_is_tombstone member) (TombstonedMember pack_id member_index));
      _ ← lift (fail_if (negb (ContentCodec.pack_index member =? pack_index)%N) (ForeignMember pack_id member_index (ContentCodec.pack_index member) pack_index));
      members ← pack_members pack_id pack_index rounds (member_index + 1);
      mret ((member_index, member) :: members)
  end.

(** The members that live blobs point to. *)
Definition live_member_indices (blobs : list BinaryBlobRecord) : gset N :=
  list_to_set (omap (fun blob => if unavailable blob then None else pack_member_index blob) blobs).

(** The round of [binary_db_orphan_object_pack_candidates] for one pack. *)
Definition pack_candidate (blobs : list BinaryBlobRecord) (pack_count member_count pack_index : N) : planning (option BinaryDbOrphanObjectPack) :=
  record ← pack_at pack_index;
  if object_pack_is_tombstone record then mret None
  else
    let pack_id := object_pack_id_from_hash48 (object_pack_hash48 record) in
    let end_ := (first_member_index record + ContentCodec.member_count record)%N in
    _ ← lift (fail_if (u32_max <? end_)%N (MemberRangeOverflows pack_id));
    _ ← lift (fail_if (member_count <? end_)%N (MissingMemberRecords pack_id (first_member_index record) end_ member_count));
    members ← pack_members pack_id pack_index (N.to_nat (ContentCodec.member_count record)) (first_member_index record);
    let referenced_member_count := N.of_nat (length (filter (fun im => fst im ∈ live_member_indices blobs) members)) in
    recovery ← binary_db_pack_recovery_plan pack_id members blobs pack_count member_count;
    match recovery with
    | Some (blob_tombstones, fallbacks) =>
        pack_format ← lift (map_err StoreError (object_pack_format_name (object_pack_format record)));
        pack_path ← lift (map_err StoreError (object_pack_relative_path pack_id pack_format));
        mret (Some (mkOrphan pack_index pack_id pack_path record members blob_tombstones fallbacks))
    | None =>
        _ ← lift (fail_if (referenced_member_count =? 0)%N (NoVerifiedFallback pack_id));
        _ ← lift (fail_if (negb (referenced_member_count =? ContentCodec.member_count record)%N)
                   (PartiallyReferenced pack_id referenced_member_count (ContentCodec.member_count record)));
        mret None
    end.

Definition binary_db_orphan_object_pack_candidates : planning (list BinaryDbOrphanObjectPack) :=
  blobs ← all_blobs;
  packs ← pack_count;
  members ← catalog_member_count;
  gather (pack_candidate blobs packs members) (N.to_nat packs) 0.

(** *** Members whose base goes *)

Definition candidate_member_indices (candidates : list BinaryDbOrphanObjectPack) : gset N :=
  list_to_set (candidates ≫= fun candidate => map fst (orphan_members candidate)).
(** A later tombstone of the same blob replaces an earlier one. *)
Definition planned_fallback_by_blob_index (candidates : list BinaryDbOrphanObjectPack) : gmap N N :=
  foldl (fun m '(blob_index, _, fallback) => <[blob_index := fallback]> m) ∅ (candidates ≫= blob_tombstones).

(** The loop over [blobs.iter().enumerate()]. *)
Fixpoint activate (planned : gset N) (blob_index : N) (blobs : list BinaryBlobRecord) (active : gmap (N * N * bytes) (list N)) : gmap (N * N * bytes) (list N) :=
  match blobs with
  | [] => active
  | blob :: blobs =>
      activate planned (blob_index + 1) blobs
        (if unavailable blob || bool_decide (blob_index ∈ planned) then active
         else <[blob_identity blob := default [] (active !! blob_identity blob) ++ [blob_index]]> active)
  end.
Definition active_by_identity (planned : gset N) (blobs : list BinaryBlobRecord) : gmap (N * N * bytes) (list N) := activate planned 0 blobs ∅.

(** The loop over the active blobs of an identity. *)
Fixpoint active_fallback (member_index base_blob_index : N) (blobs : list BinaryBlobRecord) (pack_count member_count : N)
    (fallback_candidates : list N) (last_error : option prune_error) : planning N :=
  match fallback_candidates with
  | [] => lift (Err (NoActiveFallback member_index base_blob_index last_error))
  | fallback :: fallback_candidates =>
      let continue := active_fallback member_index base_blob_index blobs pack_count member_count fallback_candidates in
      match blobs !! N.to_nat fallback ≫= pack_member_index with
      | None => continue (Some (ActiveWithoutLocator fallback))
      | Some fallback_member_index =>
          valid ← attempt (binary_db_validate_authoritative_member fallback_member_index fallback pack_count member_count);
          match valid with
          | Ok _ => mret fallback
          | Err error => continue (Some error)
          end
      end
  end.

(** The round of [binary_db_base_blob_pointer_rewrites] for one member. *)
Definition member_rewrite (candidates : list BinaryDbOrphanObjectPack) (blobs : list BinaryBlobRecord) (pack_count member_count member_index : N)
    : planning (option BinaryDbBaseBlobPointerRewrite) :=
  let planned := planned_fallback_by_blob_index candidates in
  if bool_decide (member_index ∈ candidate_member_indices candidates) then mret None
  else
    member ← member_at member_index;
    if member_is_tombstone member then mret None
    else
      match base_blob_index member with
      | None => mret None
      | Some base =>
          base_blob ← lift (ok_or (blobs !! N.to_nat base) (MissingBaseBlob member_index base));
          if negb (unavailable base_blob) && negb (bool_decide (base ∈ dom planned)) then mret None
          else
            fallback ← (match planned !! base with
                        | Some fallback => mret fallback
                        | None =>
                            fallback_candidates ← lift (ok_or (active_by_identity (dom planned) blobs !! blob_identity base_blob) (NoActiveBlob member_index base));
                            active_fallback member_index base blobs pack_count member_count (rev fallback_candidates) None
                        end);
            fallback_blob ← lift (ok_or (blobs !! N.to_nat fallback) (ChangedIdentity member_index base fallback));
            _ ← lift (fail_if (negb (bool_decide (blob_identity fallback_blob = blob_identity base_blob))) (ChangedIdentity member_index base fallback));
            fallback_member_index ← lift (ok_or (pack_member_index fallback_blob) (FallbackWithoutLocator fallback));
            _ ← binary_db_validate_authoritative_member fallback_member_index fallback pack_count member_count;
            mret (Some (mkRewrite member_index member fallback))
      end.

Definition binary_db_base_blob_pointer_rewrites (candidates : list BinaryDbOrphanObjectPack) : planning (list BinaryDbBaseBlobPointerRewrite) :=
  blobs_counted ← blob_count;
  members ← catalog_member_count;
  packs ← pack_count;
  blobs ← blobs_from (N.to_nat blobs_counted) 0;
  gather (member_rewrite candidates blobs packs members) (N.to_nat members) 0.

(** *** The plan *)

Definition binary_db_orphan_pack_prune_plan_from_write : planning BinaryDbOrphanPackPrunePlan :=
  candidates ← binary_db_orphan_object_pack_candidates;
  rewrites ← binary_db_base_blob_pointer_rewrites candidates;
  mret (mkPrunePlan candidates rewrites).

(** Packs with a pinned blob among their tombstones are retained. *)
Definition spares (pinned_blob_indices : gset N) (candidate : BinaryDbOrphanObjectPack) : bool :=
  negb (existsb (fun '(blob_index, _, _) => bool_decide (blob_index ∈ pinned_blob_indices)) (blob_tombstones candidate)).
Definition retain_pinned (pinned_blob_indices : gset N) (plan : BinaryDbOrphanPackPrunePlan) : planning BinaryDbOrphanPackPrunePlan :=
  let candidates := List.filter (spares pinned_blob_indices) (candidates plan) in
  rewrites ← binary_db_base_blob_pointer_rewrites candidates;
  mret (mkPrunePlan candidates rewrites).
Definition pinned_plan (pinned_blob_indices : gset N) : planning BinaryDbOrphanPackPrunePlan :=
  plan ← binary_db_orphan_pack_prune_plan_from_write; retain_pinned pinned_blob_indices plan.

Definition binary_db_require_unchanged_orphan_pack_prune_plan (expected : BinaryDbOrphanPackPrunePlan) (pinned_blob_indices : gset N) : planning unit :=
  revalidated ← pinned_plan pinned_blob_indices;
  lift (fail_if (negb (bool_decide (revalidated = expected))) CatalogChanged).
End Planning.

(** ** The catalogue of a write transaction *)

Section Writing.
Context (fs : LocalBinaryDbFs) (write_layout : N).
Abbreviation prune_txn := (stateful BinaryDbWriteTxn prune_error).

Definition catalog_record {R} (file : BinaryFileId) (decode : N -> bytes -> result content_error R) (index : N) : prune_txn R :=
  raw ← map_error StoreError (txn_read_record fs file index);
  lift (map_err (fun e => StoreError (content_error_kind e)) (decode write_layout raw)).
(** [write.record_count]: the transaction only passes it on. *)
Definition txn_record_count (file : BinaryFileId) : stateful BinaryDbWriteTxn BinaryDbErrorKind N := on_files (record_count fs file).

Definition write_catalog : Catalog BinaryDbWriteTxn := {|
  blob_count := map_error StoreError (txn_record_count (blob_file write_layout));
  blob_at := catalog_record (blob_file write_layout) decode_blob_record;
  pack_count := map_error StoreError (txn_record_count (object_pack_file write_layout));
  pack_at := catalog_record (object_pack_file write_layout) decode_object_pack_record;
  catalog_member_count := map_error StoreError (txn_record_count (object_pack_member_file write_layout));
  member_at := catalog_record (object_pack_member_file write_layout) decode_object_pack_member_record
|}.

(** ** Applying a plan *)

Definition tombstoned_blob (r : BinaryBlobRecord) : BinaryBlobRecord :=
  mkBlobRecord (N.lor (blob_meta r) META_TOMBSTONE) (hash_kind r) (blob_reserved0 r) (size_bytes r) (pack_member_index_plus1 r) (blob_created_at_s r)
    (pruned_at_s r) (sha256 r).
Definition tombstoned_member (r : BinaryObjectPackMemberRecord) : BinaryObjectPackMemberRecord :=
  mkObjectPackMemberRecord (N.lor (member_meta r) META_TOMBSTONE) (delta_chain_depth r) (member_reserved0 r) (pack_index r) (blob_index r)
    (base_blob_index_plus1 r).
Definition tombstoned_pack (r : BinaryObjectPackRecord) : BinaryObjectPackRecord :=
  mkObjectPackRecord (N.lor (object_pack_meta r) META_TOMBSTONE) (object_pack_format_kind r) (object_pack_hash_hi16 r) (object_pack_hash_lo32 r)
    (first_member_index r) (member_count r) (object_pack_total_bytes r) (object_pack_created_at_s r).
Definition rebased_member (r : BinaryObjectPackMemberRecord) (base_plus1 : N) : BinaryObjectPackMemberRecord :=
  mkObjectPackMemberRecord (member_meta r) (delta_chain_depth r) (member_reserved0 r) (pack_index r) (blob_index r) base_plus1.

Definition overwrite_with {R} (file : BinaryFileId) (encode : N -> R -> result content_error bytes) (index : N) (record : R) : prune_txn unit :=
  raw ← lift (map_err (fun e => StoreError (content_error_kind e)) (encode write_layout record));
  map_error StoreError (txn_overwrite_record fs file index raw).

Definition apply_rewrite (rewrite : BinaryDbBaseBlobPointerRewrite) : prune_txn unit :=
  _ ← lift (fail_if (u32_max <? fallback_blob_index rewrite + 1)%N (UnencodablePointer (fallback_blob_index rewrite)));
  overwrite_with (object_pack_member_file write_layout) encode_object_pack_member_record (rewrite_member_index rewrite)
    (rebased_member (rewrite_record rewrite) (fallback_blob_index rewrite + 1)).

(** The loop over [blob_tombstones]; it gives the blobs tombstoned so far. *)
Fixpoint apply_tombstones (tombstones : list (N * BinaryBlobRecord * N)) (tombstoned_blob_indices : gset N) : prune_txn (gset N) :=
  match tombstones with
  | [] => mret tombstoned_blob_indices
  | (blob_index, blob, _) :: tombstones =>
      _ ← lift (fail_if (bool_decide (blob_index ∈ tombstoned_blob_indices)) (DuplicateTombstone blob_index));
      _ ← overwrite_with (blob_file write_layout) encode_blob_record blob_index (tombstoned_blob blob);
      apply_tombstones tombstones ({[blob_index]} ∪ tombstoned_blob_indices)
  end.
Definition apply_member (im : N * BinaryObjectPackMemberRecord) : prune_txn unit :=
  overwrite_with (object_pack_member_file write_layout) encode_object_pack_member_record (fst im) (tombstoned_member (snd im)).
Definition apply_candidate (candidate : BinaryDbOrphanObjectPack) (tombstoned_blob_indices : gset N) : prune_txn (gset N) :=
  tombstoned ← apply_tombstones (blob_tombstones candidate) tombstoned_blob_indices;
  _ ← for_each apply_member (orphan_members candidate);
  _ ← overwrite_with (object_pack_file write_layout) encode_object_pack_record (orphan_pack_index candidate) (tombstoned_pack (orphan_record candidate));
  mret tombstoned.
Fixpoint apply_candidates (candidates : list BinaryDbOrphanObjectPack) (tombstoned_blob_indices : gset N) : prune_txn (gset N) :=
  match candidates with
  | [] => mret tombstoned_blob_indices
  | candidate :: candidates => tombstoned ← apply_candidate candidate tombstoned_blob_indices; apply_candidates candidates tombstoned
  end.
Definition apply_plan (plan : BinaryDbOrphanPackPrunePlan) : prune_txn unit :=
  _ ← for_each apply_rewrite (base_pointer_rewrites plan);
  _ ← apply_candidates (candidates plan) ∅;
  mret tt.

(** How many members and blobs the loops of an apply have counted at its end. *)
Definition plan_member_count (plan : BinaryDbOrphanPackPrunePlan) : nat := length (candidates plan ≫= orphan_members).
Definition plan_blob_count (plan : BinaryDbOrphanPackPrunePlan) : nat := length (candidates plan ≫= blob_tombstones).

(** ** The commands *)

Context {P : PackPrimitives} {T : FileTimes} (repo_root : PathBuf) (lock : lock_set).
Local Existing Instance write_catalog.

(** A write transaction for content, dropped at the end. *)
Definition in_prune_txn {A} (body : prune_txn A) : stateful io_state prune_error A := fun s =>
  let '(r, t) := body (begin ContentWrite lock s) in (r, files (drop_txn fs t)).

Definition verify_fallback_blob (blob_index : N) : stateful (BinaryDbReadCache * io_state) prune_error unit :=
  view ← map_error StoreError (blob_view_at fs blob_index);
  _ ← lift (fail_if (unavailable (bv_record view)) (FallbackUnavailable (bv_blob_id view)));
  _ ← map_error (FallbackUnreadable (bv_blob_id view)) (read_blob_bytes_for_view fs repo_root view 0);
  mret tt.
Definition planned_fallback_indices (plan : BinaryDbOrphanPackPrunePlan) : gset N :=
  list_to_set ((candidates plan ≫= verified_fallback_blob_indices) ++ map fallback_blob_index (base_pointer_rewrites plan)).
Definition binary_db_verify_fallback_blob_content (plan : BinaryDbOrphanPackPrunePlan) : stateful io_state prune_error unit := fun s =>
  let '(r, (_, s)) := for_each verify_fallback_blob (ascending (planned_fallback_indices plan)) (empty_cache, s) in (r, s).

Definition binary_db_verified_orphan_pack_prune_plan (pinned_blob_indices : gset N) : stateful io_state prune_error BinaryDbOrphanPackPrunePlan :=
  plan ← in_prune_txn (plan ← pinned_plan pinned_blob_indices; _ ← map_error StoreError (abort fs); mret plan);
  _ ← binary_db_verify_fallback_blob_content plan;
  mret plan.

(** *** Summaries *)

Definition json_usize (n : nat) : JsonValue := JNumber (PosInt (N.of_nat n)).
Definition json_strings (l : list string) : JsonValue := JArray (map JString l).

Definition candidate_summary_entries (plan : BinaryDbOrphanPackPrunePlan) (mode : string) (applied : bool) : list (string * JsonValue) :=
  [("storage_backend", JString "binary_db"); ("mode", JString mode); ("applied", JBool applied);
   ("candidate_orphan_pack_count", json_usize (length (candidates plan)));
   ("candidate_orphan_pack_member_count", json_usize (plan_member_count plan));
   ("candidate_duplicate_blob_count", json_usize (plan_blob_count plan));
   ("candidate_verified_fallback_blob_count", json_usize (size (planned_fallback_indices plan)));
   ("candidate_base_blob_pointer_rewrite_count", json_usize (length (base_pointer_rewrites plan)));
   ("candidate_orphan_pack_ids", json_strings (map orphan_pack_id (candidates plan)));
   ("candidate_orphan_pack_paths", json_strings (map orphan_pack_path (candidates plan)))]%string.
Definition binary_db_prune_candidate_summary (plan : BinaryDbOrphanPackPrunePlan) (mode : string) (applied : bool) : JsonValue :=
  json_object (candidate_summary_entries plan mode applied).

Definition binary_db_prune_apply_summary (plan : BinaryDbOrphanPackPrunePlan) (removed_member_count removed_duplicate_blob_count : nat)
    (removed_pack_paths already_missing_pack_paths cleanup_warnings : list string) : JsonValue :=
  json_object (candidate_summary_entries plan "apply" true ++
   [("removed_orphan_pack_count", json_usize (length (candidates plan)));
    ("removed_orphan_pack_member_count", json_usize removed_member_count);
    ("removed_duplicate_blob_count", json_usize removed_duplicate_blob_count);
    ("verified_fallback_blob_count", json_usize (size (planned_fallback_indices plan)));
    ("rewritten_base_blob_pointer_count", json_usize (length (base_pointer_rewrites plan)));
    ("removed_orphan_pack_ids", json_strings (map orphan_pack_id (candidates plan)));
    ("removed_orphan_pack_paths", json_strings removed_pack_paths);
    ("already_missing_orphan_pack_paths", json_strings already_missing_pack_paths);
    ("cleanup_warnings", json_strings cleanup_warnings)]%string).

(** *** Removing archives *)

(** [std::fs::remove_file] *)
Definition remove_file (path : PathBuf) : file_io unit := update (fun written d =>
  _ ← ok_or (d !! path) NotFound; Ok (tt, match written with None => delete path d | Some _ => d end)).

(** The texts of the errors of the system and of locks. *)
Context (lock_warning_text : BinaryDbErrorKind -> string) (io_error_text : FileIoErrorKind -> string).

Definition lock_warning (warning : BinaryDbErrorKind) : string :=
  ("Binary DB catalog committed, but lock cleanup warned: " ++ lock_warning_text warning)%string.
Definition archive_warning (candidate : BinaryDbOrphanObjectPack) (path : PathBuf) (kind : FileIoErrorKind) : string :=
  ("Binary DB catalog no longer references " ++ orphan_pack_id candidate ++ ", but archive cleanup failed at " ++ path_to_str path ++ ": " ++
     io_error_text kind)%string.

Record cleanup : Type := mkCleanup { removed_paths : list string; missing_paths : list string; warnings : list string }.
Fixpoint remove_archives (candidates : list BinaryDbOrphanObjectPack) (done : cleanup) : stateful io_state prune_error cleanup :=
  match candidates with
  | [] => mret done
  | candidate :: candidates =>
      path ← lift (map_err StoreError (absolute_repo_path repo_root (orphan_pack_path candidate)));
      removed ← attempt (remove_file path);
      remove_archives candidates
        (match removed with
         | Ok _ => mkCleanup (removed_paths done ++ [orphan_pack_path candidate]) (missing_paths done) (warnings done)
         | Err NotFound => mkCleanup (removed_paths done) (missing_paths done ++ [orphan_pack_path candidate]) (warnings done)
         | Err kind => mkCleanup (removed_paths done) (missing_paths done) (warnings done ++ [archive_warning candidate path kind])
         end)
  end.

(** *** [gc prune] *)

(** [native_git_gc_guard]: the blobs that objects of the git bundle use, when
    there is a bundle, or why it cannot be read. *)
Context (native_git_gc_guard : result prune_error (option (gset N))).

Definition is_empty_plan (plan : BinaryDbOrphanPackPrunePlan) : bool :=
  match candidates plan, base_pointer_rewrites plan with [], [] => true | _, _ => false end.

Definition binary_db_preview_orphan_pack_prune : stateful io_state prune_error JsonValue :=
  guard ← lift native_git_gc_guard;
  let pinned := default ∅ guard in
  plan ← binary_db_verified_orphan_pack_prune_plan pinned;
  _ ← in_prune_txn (
    validation ← attempt (binary_db_require_unchanged_orphan_pack_prune_plan plan pinned);
    abort ← attempt (map_error StoreError (abort fs));
    _ ← lift validation;
    lift abort);
  mret (binary_db_prune_candidate_summary plan "preview" false).

(** The transaction of an apply: nothing to do, or the outcome of the commit. *)
Definition prune_txn_body (plan : BinaryDbOrphanPackPrunePlan) (pinned : gset N) : prune_txn (option BinaryDbCommitOutcome) :=
  validation ← attempt (binary_db_require_unchanged_orphan_pack_prune_plan plan pinned);
  match validation with
  | Err error => _ ← map_error StoreError (abort fs); lift (Err error)
  | Ok _ =>
      if is_empty_plan plan then _ ← map_error StoreError (abort fs); mret None
      else _ ← apply_plan plan; outcome ← map_error StoreError commit; mret (Some outcome)
  end.

Definition binary_db_prune_orphan_packs : stateful io_state prune_error JsonValue :=
  guard ← lift native_git_gc_guard;
  let pinned := default ∅ guard in
  plan ← binary_db_verified_orphan_pack_prune_plan pinned;
  outcome ← in_prune_txn (prune_txn_body plan pinned);
  match outcome with
  | None => mret (binary_db_prune_apply_summary plan 0 0 [] [] [])
  | Some outcome =>
      let cleanup_warnings := match lock_cleanup_warning outcome with Some warning => [lock_warning warning] | None => [] end in
      cleaned ← remove_archives (candidates plan) (mkCleanup [] [] cleanup_warnings);
      mret (binary_db_prune_apply_summary plan (plan_member_count plan) (plan_blob_count plan) (removed_paths cleaned) (missing_paths cleaned) (warnings cleaned))
  end.
End Writing.
