(* ===== verification/PrunePlan.v ===== *)
(** * What a prune keeps

    The plans of [PackPrune] over lists of records: what a plan has checked, the
    catalogue that applying it leaves, and that nothing is lost by it. *)

From Stdlib Require Import NArith Lia.
From Stdlib Require Strings.Byte.
From stdpp Require Import base numbers strings gmap list sorting.
From S2P Require Import Prelude Codec FileStore BinaryDb ContentCodec ContentIds BlobStore PackPrune.

(** ** The value of a plan over lists *)

Definition value {E A : Type} (m : stateful unit E A) : result E A := fst (m tt).
#[global] Arguments value : simpl never.

Lemma value_bind {E A B : Type} (m : stateful unit E A) (k : A -> stateful unit E B) : value (m ≫= k) = (value m ≫= fun a => value (k a)).
Proof. unfold value, mbind, stateful_bind, result_bind. by destruct (m tt) as [[] []]. Qed.
Lemma value_attempt {E F A : Type} (m : stateful unit E A) : value (attempt m : stateful unit F (result E A)) = Ok (value m).
Proof. unfold value, attempt. by destruct (m tt). Qed.
Lemma value_ret {E A : Type} (a : A) : value (mret a : stateful unit E A) = Ok a.
Proof. done. Qed.
Lemma value_lift {E A : Type} (r : result E A) : value (lift r) = r.
Proof. done. Qed.
#[export] Hint Rewrite @value_bind @value_attempt @value_ret @value_lift : value.

(** Decompose the equation that says that a plan has a value. *)
Ltac plan_ok := repeat (progress (autorewrite with value in * |-; cbn beta iota in * |-; inv_ok)).

Ltac plan_eval := repeat (progress (autorewrite with value; cbn [mbind result_bind fail_if ok_or map_err orb negb])).

(** ** Ordered sets *)

Lemma elem_of_ascending x X : x ∈ ascending X <-> x ∈ X.
Proof. unfold ascending. rewrite (merge_sort_Permutation N.le (elements X)). by rewrite elem_of_elements. Qed.
Lemma elem_of_ascending_entries {V} (m : gmap N V) k v : (k, v) ∈ ascending_entries m <-> m !! k = Some v.
Proof.
  unfold ascending_entries. rewrite list_elem_of_omap. setoid_rewrite elem_of_ascending. setoid_rewrite elem_of_dom. split.
  - intros (k' & _ & (v' & Hv & [= -> ->])%fmap_Some). done.
  - intros H. exists k. split; [by exists v|]. by rewrite H.
Qed.

Lemma NoDup_ascending_keys {V} (m : gmap N V) : NoDup (map fst (ascending_entries m)).
Proof.
  unfold ascending_entries. assert (NoDup (ascending (dom m))) as Hnd.
  { unfold ascending. rewrite (merge_sort_Permutation N.le (elements (dom m))). apply NoDup_elements. }
  induction Hnd as [|k l Hk _ IH]; [constructor|]. cbn [omap list_omap]. destruct (m !! k) as [v|]; cbn [fmap option_fmap option_map map fst]; [|done].
  apply NoDup_cons. split; [|done]. intros ([k' v'] & -> & (k0 & Hk0 & (v0 & _ & [= -> ->])%fmap_Some)%list_elem_of_omap)%list_elem_of_fmap. done.
Qed.

(** ** Overwriting rows *)

Section Overwrite.
Context {A B : Type} (row : A -> N) (new : A -> B).
Implicit Types (xs : list A) (l : list B) (x : A) (i : N).

Fixpoint overwrite_all xs l : list B :=
  match xs with
  | [] => l
  | x :: xs => overwrite_all xs (<[N.to_nat (row x) := new x]> l)
  end.

Lemma length_overwrite_all xs l : length (overwrite_all xs l) = length l.
Proof. revert l. induction xs as [|x xs IH]; intros l; [done|]. cbn. rewrite IH. apply length_insert. Qed.

(** Every row is one of those written there, or the old one. *)
Lemma overwrite_all_case xs l i : is_Some (l !! N.to_nat i) ->
  (exists x, x ∈ xs /\ row x = i /\ overwrite_all xs l !! N.to_nat i = Some (new x)) \/
  (forall x, x ∈ xs -> row x <> i) /\ overwrite_all xs l !! N.to_nat i = l !! N.to_nat i.
Proof.
  revert l. induction xs as [|z xs IH]; intros l Hi; [right; split; [by intros x ?%elem_of_nil|done]|]. cbn.
  destruct (IH (<[N.to_nat (row z) := new z]> l)) as [(x & Hx & Hrow & Hl)|[Hother Hl]].
  - rewrite lookup_lt_is_Some, length_insert, <- lookup_lt_is_Some. done.
  - left. exists x. split; [by right|done].
  - destruct (decide (row z = i)) as [<-|Hne].
    + left. exists z. split; [left|]. split; [done|]. rewrite Hl. apply list_lookup_insert_eq. by apply lookup_lt_is_Some.
    + right. split; [by intros x [->|Hx]%elem_of_cons; [|apply Hother]|]. rewrite Hl. apply list_lookup_insert_ne. lia.
Qed.
End Overwrite.

(** ** The catalogue *)

Section Catalogue.
Context (bs : list BinaryBlobRecord) (ps : list BinaryObjectPackRecord) (ms : list BinaryObjectPackMemberRecord).

Definition list_catalog : Catalog unit := {|
  blob_count := mret (N.of_nat (length bs));
  blob_at i := lift (ok_or (bs !! N.to_nat i) (StoreError MissingData));
  pack_count := mret (N.of_nat (length ps));
  pack_at i := lift (ok_or (ps !! N.to_nat i) (StoreError MissingData));
  catalog_member_count := mret (N.of_nat (length ms));
  member_at i := lift (ok_or (ms !! N.to_nat i) (StoreError MissingData))
|}.

Definition live_blob (i : N) (b : BinaryBlobRecord) : Prop := bs !! N.to_nat i = Some b /\ unavailable b = false.

(** The member at [k] is a live one for the blob at [i], in a live pack. *)
Definition owned (i k : N) : Prop := exists m p, ms !! N.to_nat k = Some m /\ member_is_tombstone m = false /\ blob_index m = i /\
  ps !! N.to_nat (pack_index m) = Some p /\ object_pack_is_tombstone p = false /\
  (first_member_index p <= k < first_member_index p + member_count p)%N /\ (first_member_index p + member_count p <= u32_max)%N.

(** A live blob whose locator leads to its member. *)
Definition authoritative (i : N) (b : BinaryBlobRecord) : Prop := live_blob i b /\ exists k, pack_member_index b = Some k /\ owned i k.

Local Existing Instance list_catalog.
Local Abbreviation nb := (N.of_nat (length bs)).
Local Abbreviation np := (N.of_nat (length ps)).
Local Abbreviation nm := (N.of_nat (length ms)).
Local Abbreviation valid k i := (value (binary_db_validate_authoritative_member k i np nm)).

Lemma valid_owned k i : valid k i = Ok tt <-> owned i k.
Proof.
  unfold binary_db_validate_authoritative_member. cbn [member_at pack_at list_catalog]. split.
  - intros H. plan_ok. rewrite !orb_false_iff in *. rewrite negb_false_iff, N.eqb_eq in *. rewrite N.ltb_ge, N.leb_gt in *.
    eexists _, _. split_and!; try done; try lia; tauto.
  - intros (m & p & Hm & Ht & <- & Hp & Hpt & Hr & Hmax). pose proof (lookup_lt_Some _ _ _ Hm). pose proof (lookup_lt_Some _ _ _ Hp).
    plan_eval. rewrite (proj2 (N.leb_gt _ _)) by lia. plan_eval. rewrite Hm. plan_eval. rewrite Ht, N.eqb_refl. plan_eval.
    rewrite (proj2 (N.leb_gt _ _)) by lia. plan_eval. rewrite Hp. plan_eval. rewrite (proj2 (N.ltb_ge _ _)) by lia. plan_eval.
    rewrite Hpt, (proj2 (N.ltb_ge _ _)), (proj2 (N.leb_gt _ _)) by lia. done.
Qed.

Lemma blobs_from_value n i : N.to_nat i + n = length bs -> value (blobs_from n i) = Ok (drop (N.to_nat i) bs).
Proof.
  revert i. induction n as [|n IH]; intros i Hi; cbn [blobs_from]; plan_eval; [by rewrite drop_ge by lia|]. cbn [blob_at list_catalog].
  destruct (lookup_lt_is_Some_2 bs (N.to_nat i)) as [b Hb]; [lia|]. rewrite Hb. plan_eval. rewrite IH by lia. plan_eval.
  rewrite (drop_S _ _ _ Hb). do 3 f_equal. lia.
Qed.

Lemma all_blobs_value : value all_blobs = Ok bs.
Proof. unfold all_blobs. cbn [blob_count list_catalog]. plan_eval. by rewrite blobs_from_value by lia. Qed.

(** *** Earlier copies *)

(** The blob at [f] is the first one before [i] that can stand in for [b]. *)
Definition first_fallback_from (n i : N) (b : BinaryBlobRecord) (f : N) : Prop := (n <= f < i)%N /\
  (exists bf, authoritative f bf /\ blob_identity bf = blob_identity b) /\
  forall g bg, (n <= g < f)%N -> authoritative g bg -> blob_identity bg <> blob_identity b.
Definition no_fallback_from (n i : N) (b : BinaryBlobRecord) : Prop := forall g bg, (n <= g < i)%N -> live_blob g bg -> blob_identity bg <> blob_identity b.

Lemma first_fallback_skip n i b f : (forall bn, authoritative n bn -> blob_identity bn <> blob_identity b) ->
  first_fallback_from (n + 1) i b f <-> first_fallback_from n i b f.
Proof.
  intros Hn. split; intros (Hf & (bf & Hbf & Hid) & Hfirst).
  - split; [lia|]. split; [by exists bf|]. intros g bg Hg. destruct (decide (g = n)) as [->|]; [apply Hn|apply Hfirst; lia].
  - assert (f <> n) by (intros ->; by destruct (Hn bf)). split; [lia|]. split; [by exists bf|]. intros g bg Hg. apply Hfirst. lia.
Qed.
Lemma no_fallback_skip n i b : (forall bn, live_blob n bn -> blob_identity bn <> blob_identity b) -> no_fallback_from (n + 1) i b <-> no_fallback_from n i b.
Proof.
  intros Hn. split; intros H g bg Hg; [|apply H; lia]. destruct (decide (g = n)) as [->|]; [apply Hn|apply H; lia].
Qed.

Lemma valid_cases k i : valid k i = Ok tt /\ owned i k \/ (exists e, valid k i = Err e) /\ ~ owned i k.
Proof. pose proof (valid_owned k i) as H. destruct (valid k i) as [[]|e]; [left; by rewrite <- H|right]. rewrite <- H. split; [by exists e|done]. Qed.

Lemma earlier_fallback_spec i b pre earlier post invalid f : bs = pre ++ earlier ++ post -> N.to_nat i = length pre + length earlier ->
  let n := N.of_nat (length pre) in
  (value (earlier_fallback i b np nm n earlier invalid) = Ok (Some f) <-> first_fallback_from n i b f) /\
  (value (earlier_fallback i b np nm n earlier invalid) = Ok None <-> invalid = None /\ no_fallback_from n i b).
Proof.
  revert pre invalid. induction earlier as [|x earlier IH]; intros pre invalid Hbs Hi n; cbn [earlier_fallback length] in *.
  - autorewrite with value. split; [split; [by destruct invalid|intros [H _]; lia]|]. destruct invalid; [split; [done|by intros []]|].
    split; [|done]. intros _. split; [done|]. intros g bg H. lia.
  - assert (bs !! N.to_nat n = Some x) as Hx by (rewrite Hbs; apply list_lookup_middle; lia).
    assert (n + 1 = N.of_nat (length (pre ++ [x])))%N as Hn by (rewrite length_app; cbn; lia).
    assert (forall invalid', (value (earlier_fallback i b np nm (n + 1) earlier invalid') = Ok (Some f) <-> first_fallback_from (n + 1) i b f) /\
      (value (earlier_fallback i b np nm (n + 1) earlier invalid') = Ok None <-> invalid' = None /\ no_fallback_from (n + 1) i b)) as Hnext.
    { intros invalid'. rewrite Hn. apply IH; [by rewrite Hbs, <- !app_assoc|]. rewrite length_app. cbn. lia. }
    destruct (unavailable x || negb (bool_decide (blob_identity x = blob_identity b))) eqn:Hskip.
    { assert (forall bn, live_blob n bn -> blob_identity bn <> blob_identity b) as Hbn.
      { intros bn [Hbn Hlive]. rewrite Hx in Hbn. injection Hbn as <-. rewrite Hlive in Hskip. by apply negb_true_iff, bool_decide_eq_false in Hskip. }
      rewrite <- first_fallback_skip, <- no_fallback_skip by first [exact Hbn|by intros bn [Hl _]; apply Hbn]. apply Hnext. }
    apply orb_false_iff in Hskip as [Hlive Hid%negb_false_iff%bool_decide_eq_true].
    assert (~ no_fallback_from n i b) as Hsome by (intros H; apply (H n x); [lia|by split|done]).
    assert (forall e, ~ authoritative n x -> (value (earlier_fallback i b np nm (n + 1) earlier (Some e)) = Ok (Some f) <-> first_fallback_from n i b f) /\
      (value (earlier_fallback i b np nm (n + 1) earlier (Some e)) = Ok None <-> invalid = None /\ no_fallback_from n i b)) as Hinvalid.
    { intros e Hnot. destruct (Hnext (Some e)) as [H1 H2]. rewrite H1, H2, first_fallback_skip; [naive_solver|].
      intros bn [[Hbn Hl] Hk] _. rewrite Hx in Hbn. injection Hbn as <-. by apply Hnot. }
    destruct (pack_member_index x) as [k|] eqn:Hk; [|apply Hinvalid; intros (_ & k & Hk' & _); congruence].
    plan_eval. destruct (valid_cases k n) as [[Hv Hown]|[[e Hv] Hown]]; rewrite Hv; cbn beta iota.
    + plan_eval. assert (authoritative n x) as Hauth by (split; [done|by exists k]). split; [|naive_solver]. split.
      * intros [= <-]. split; [lia|]. split; [by exists x|]. intros g bg Hg. lia.
      * intros (Hf & _ & Hfirst). do 2 f_equal. destruct (decide (n < f)%N); [by destruct (Hfirst n x)|lia].
    + apply Hinvalid. intros (_ & k' & Hk' & Hown'). congruence.
Qed.

Definition first_fallback := first_fallback_from 0.
Definition no_fallback := no_fallback_from 0.
Local Abbreviation found i b := (value (binary_db_find_earlier_blob_fallback i b bs np nm)).

Lemma found_spec i b f : N.to_nat i <= length bs -> (found i b = Ok (Some f) <-> first_fallback i b f) /\ (found i b = Ok None <-> no_fallback i b).
Proof.
  intros Hi. destruct (earlier_fallback_spec i b [] (take (N.to_nat i) bs) (drop (N.to_nat i) bs) None f) as [H1 H2].
  - by rewrite take_drop.
  - cbn. by rewrite length_take_le.
  - unfold binary_db_find_earlier_blob_fallback. rewrite H1, H2. split; [done|]. split; [by intros [_ H]|done].
Qed.

Lemma first_fallback_unique i b f f' : first_fallback i b f -> first_fallback i b f' -> f = f'.
Proof.
  intros (Hf & (bf & Ha & Hid) & H1) (Hf' & (bf' & Ha' & Hid') & H2).
  destruct (decide (f < f')%N); [by destruct (H2 f bf ltac:(lia) Ha)|]. destruct (decide (f' < f)%N); [by destruct (H1 f' bf' ltac:(lia) Ha')|lia].
Qed.

(** An authoritative copy of a blob has the same first copy. *)
Lemma first_fallback_of i b f bf : first_fallback i b f -> authoritative f bf -> forall g, ~ first_fallback f bf g.
Proof.
  intros (Hf & (bf' & Ha' & Hid) & H1) Ha g (Hg & (bg & Hag & Hidg) & _).
  assert (bf' = bf) as -> by (destruct Ha as [[] _], Ha' as [[] _]; congruence). apply (H1 g bg); [lia|done|congruence].
Qed.

(** *** Recovering a pack *)

(** The blob of the member at [k] is doubled by the blob at [f]. *)
Definition doubled (k : N) (m : BinaryObjectPackMemberRecord) (b : BinaryBlobRecord) (f : N) : Prop :=
  live_blob (blob_index m) b /\ (pack_member_index b = None \/ pack_member_index b = Some k) /\ first_fallback (blob_index m) b f.
(** The blob is gone, or found through another member, or doubled. *)
Definition recoverable (k : N) (m : BinaryObjectPackMemberRecord) : Prop := exists b, bs !! N.to_nat (blob_index m) = Some b /\
  (unavailable b = true \/ (exists k', unavailable b = false /\ pack_member_index b = Some k' /\ k' <> k /\ owned (blob_index m) k') \/ exists f, doubled k m b f).
(** The blob is in no other place. *)
Definition needed (k : N) (m : BinaryObjectPackMemberRecord) : Prop :=
  exists b, live_blob (blob_index m) b /\ pack_member_index b = Some k /\ no_fallback (blob_index m) b.

Lemma first_not_none i b f : first_fallback i b f -> ~ no_fallback i b.
Proof. intros (Hf & (bf & [Hl _] & Hid) & _) H. by apply (H f bf). Qed.

Lemma doubled_unique k m b f b' f' : doubled k m b f -> doubled k m b' f' -> b' = b /\ f' = f.
Proof. intros ([H1 _] & _ & H2) ([H1' _] & _ & H2'). assert (b' = b) as -> by congruence. split; [done|by eapply first_fallback_unique]. Qed.

Lemma needed_exclusive k m : needed k m -> ~ recoverable k m.
Proof.
  intros (b & [Hb Hl] & Hk & Hno) (b' & Hb' & H). assert (b' = b) as -> by congruence.
  destruct H as [H|[(k' & _ & Hk' & Hne & _)|(f & _ & _ & Hf)]]; [congruence|congruence|by eapply first_not_none].
Qed.

Section Recovery.
Context (pid : string).
Local Abbreviation recovers l T F := (value (recovery_loop pid bs np nm l T F)).

Lemma recovery_round k m l T F :
  (exists F', recovers ((k, m) :: l) T F = recovers l T F' /\ recoverable k m /\ forall b f, ~ doubled k m b f) \/
  (exists F' b f, recovers ((k, m) :: l) T F = recovers l (<[blob_index m := (b, f)]> T) F' /\ recoverable k m /\ doubled k m b f) \/
  (recovers ((k, m) :: l) T F = Ok None /\ needed k m) \/
  ((exists e, recovers ((k, m) :: l) T F = Err e) /\ ~ needed k m /\ ~ recoverable k m).
Proof.
  cbn [recovery_loop]. plan_eval. destruct (bs !! N.to_nat (blob_index m)) as [b|] eqn:Hb.
  2:{ do 3 right. split; [by eexists|]. split; [intros (b & [Hb' _] & _)|intros (b & Hb' & _)]; congruence. }
  pose proof (lookup_lt_Some _ _ _ Hb) as Hlt. plan_eval. destruct (unavailable b) eqn:Hlive.
  { left. exists F. split; [done|]. split; [exists b; by split; [|left]|]. intros b' f ([Hb' Hl'] & _). congruence. }
  assert (live_blob (blob_index m) b) as Hl by done.
  assert (forall X, (X = None \/ X = Some k) -> pack_member_index b = X -> let planned :=
     fallback ← binary_db_find_earlier_blob_fallback (blob_index m) b bs np nm;
     match fallback with
     | Some fallback0 => recovery_loop pid bs np nm l (<[blob_index m:=(b, fallback0)]> T) ({[fallback0]} ∪ F)
     | None => _ ← lift (fail_if (negb (is_some X)) (OnlyCatalogCopy pid k (blob_index m))); mret None
     end in
    (exists F', value planned = recovers l T F' /\ recoverable k m /\ forall b f, ~ doubled k m b f) \/
    (exists F' b f, value planned = recovers l (<[blob_index m := (b, f)]> T) F' /\ recoverable k m /\ doubled k m b f) \/
    (value planned = Ok None /\ needed k m) \/
    ((exists e, value planned = Err e) /\ ~ needed k m /\ ~ recoverable k m)) as Hplanned.
  { intros X HX Hptr planned. subst planned. plan_eval. pose proof (fun f => found_spec (blob_index m) b f ltac:(lia)) as Hfound.
    destruct (found (blob_index m) b) as [[f|]|e]; plan_eval.
    - right; left. destruct (Hfound f) as [[H _] _]. specialize (H eq_refl).
      assert (doubled k m b f) as Hd by (split_and!; [done|by subst|done]). exists ({[f]} ∪ F), b, f. split; [done|]. split; [|done].
      exists b. split; [done|]. right; right. by exists f.
    - destruct (Hfound 0%N) as [_ [H _]]. specialize (H eq_refl). destruct HX as [->| ->]; cbn [is_some negb]; plan_eval.
      + do 3 right. split; [by eexists|]. split; [intros (b' & [Hb' _] & Hk' & _); congruence|].
        intros (b' & Hb' & Hcase). assert (b' = b) as -> by congruence. destruct Hcase as [?|[(k' & _ & ? & _)|(f & _ & _ & Hf)]]; [congruence|congruence|by eapply first_not_none].
      + right; right; left. split; [done|]. by exists b.
    - do 3 right. split; [by eexists|].
      assert (forall f, ~ first_fallback (blob_index m) b f) as Hf by (intros f H; destruct (Hfound f) as [[_ H'] _]; by specialize (H' H)).
      split; [intros (b' & [Hb' _] & _ & Hno); assert (b' = b) as -> by congruence; destruct (Hfound 0%N) as [_ [_ H]]; by specialize (H Hno)|].
      intros (b' & Hb' & Hcase). assert (b' = b) as -> by congruence. destruct Hcase as [?|[(k' & _ & ? & ? & _)|(f & _ & _ & H)]]; [congruence|destruct HX; congruence|by apply (Hf f)]. }
  destruct (pack_member_index b) as [k'|] eqn:Hk'; [|by apply Hplanned; [left|]].
  destruct (N.eqb_spec k' k) as [->|Hne]; [by apply Hplanned; [right|]|]. plan_eval.
  assert (forall b' f, ~ doubled k m b' f) as Hnd by (intros b' f ([Hb' _] & Hk & _); assert (b' = b) as -> by congruence; destruct Hk; congruence).
  destruct (valid_cases k' (blob_index m)) as [[Hv Hown]|[[e Hv] Hown]]; rewrite Hv; plan_eval.
  - left. eexists. split; [done|]. split; [|done]. exists b. split; [done|]. right; left. by exists k'.
  - do 3 right. split; [by eexists|]. split; [intros (b' & [Hb' _] & Hk & _); congruence|].
    intros (b' & Hb' & Hcase). assert (b' = b) as -> by congruence. destruct Hcase as [?|[(k0 & _ & Hk0 & _ & Ho)|(f & Hd)]]; [congruence| |by apply (Hnd b f)].
    rewrite Hk' in Hk0. injection Hk0 as <-. done.
Qed.

Definition tombs_ok (T : gmap N (BinaryBlobRecord * N)) : Prop := forall i b f, T !! i = Some (b, f) -> live_blob i b /\ first_fallback i b f.
Definition tombs_of (l : list (N * BinaryObjectPackMemberRecord)) (T T' : gmap N (BinaryBlobRecord * N)) : Prop := forall i,
  is_Some (T' !! i) <-> is_Some (T !! i) \/ exists k m b f, (k, m) ∈ l /\ blob_index m = i /\ doubled k m b f.
Definition tomb_list (T : gmap N (BinaryBlobRecord * N)) : list (N * BinaryBlobRecord * N) :=
  map (fun kv => (fst kv, fst (snd kv), snd (snd kv))) (ascending_entries T).

Lemma elem_of_tomb_list T i b f : (i, b, f) ∈ tomb_list T <-> T !! i = Some (b, f).
Proof.
  unfold tomb_list. rewrite list_elem_of_fmap. setoid_rewrite <- elem_of_ascending_entries. split.
  - by intros ([i' [b' f']] & [= -> -> ->] & H).
  - intros H. by exists (i, (b, f)).
Qed.

Lemma recovery_some l T F tombs falls : recovers l T F = Ok (Some (tombs, falls)) -> tombs_ok T ->
  Forall (fun km => recoverable (fst km) (snd km)) l /\ exists T', tombs = tomb_list T' /\ tombs_ok T' /\ tombs_of l T T'.
Proof.
  revert T F. induction l as [|[k m] l IH]; intros T F Hrun HT.
  - injection Hrun as <- _. split; [constructor|]. exists T. split_and!; [done|done|]. intros i. split; [by left|].
    intros [H|(k & m & b & f & H%elem_of_nil & _)]; done.
  - destruct (recovery_round k m l T F) as [(F' & Hr & Hrec & Hno)|[(F' & b & f & Hr & Hrec & Hd)|[[Hr _]|[[e Hr] _]]]]; rewrite Hr in Hrun; try done.
    + destruct (IH _ _ Hrun HT) as (Hall & T' & -> & HT' & Hof). split; [by constructor|]. exists T'. split_and!; [done|done|].
      intros i. rewrite (Hof i). setoid_rewrite elem_of_cons. split; [naive_solver|].
      intros [H|(k' & m' & b & f & [[= -> ->]|Hin] & Hi & Hd)]; [by left|by apply Hno in Hd|right; naive_solver].
    + destruct (IH _ _ Hrun) as (Hall & T' & -> & HT' & Hof).
      { intros i b' f' [[<- [= <- <-]]|[_ H]]%lookup_insert_Some; [by split; apply Hd|by apply HT]. }
      split; [by constructor|]. exists T'. split_and!; [done|done|]. intros i. rewrite (Hof i). setoid_rewrite elem_of_cons.
      destruct (decide (blob_index m = i)) as [<-|Hne].
      * rewrite lookup_insert_eq. split; [|left; by eexists]. intros _. right. exists k, m, b, f. naive_solver.
      * rewrite lookup_insert_ne by done. split; [naive_solver|].
        intros [H|(k' & m' & b' & f' & [[= -> ->]|Hin] & Hi & Hd')]; [by left|done|right; naive_solver].
Qed.

Lemma recovery_total l T F : Forall (fun km => recoverable (fst km) (snd km)) l -> exists r, recovers l T F = Ok (Some r).
Proof.
  revert T F. induction l as [|[k m] l IH]; intros T F Hall; [by eexists|]. apply Forall_cons in Hall as [Hrec Hall]. cbn [fst snd] in Hrec.
  destruct (recovery_round k m l T F) as [(F' & -> & _)|[(F' & b & f & -> & _)|[[_ Hn]|(_ & _ & Hn)]]]; [by apply IH|by apply IH| |done].
  by apply needed_exclusive in Hn.
Qed.

Lemma recovery_none l T F : recovers l T F = Ok None <->
  exists pre k m post, l = pre ++ (k, m) :: post /\ Forall (fun km => recoverable (fst km) (snd km)) pre /\ needed k m.
Proof.
  revert T F. induction l as [|[k m] l IH]; intros T F; [split; [done|by intros ([] & ? & ? & ? & [=] & _)]|].
  assert (recoverable k m -> (exists pre k' m' post, l = pre ++ (k', m') :: post /\ Forall (fun km => recoverable (fst km) (snd km)) pre /\ needed k' m') <->
    exists pre k' m' post, (k, m) :: l = pre ++ (k', m') :: post /\ Forall (fun km => recoverable (fst km) (snd km)) pre /\ needed k' m') as Hskip.
  { intros Hrec. split.
    - intros (pre & k' & m' & post & -> & Hpre & Hn). exists ((k, m) :: pre), k', m', post. by split_and!; [|constructor|].
    - intros ([|km pre] & k' & m' & post & [= Hkm Hl] & Hpre & Hn); [subst; by apply needed_exclusive in Hn|].
      apply Forall_cons in Hpre as [_ Hpre]. by exists pre, k', m', post. }
  destruct (recovery_round k m l T F) as [(F' & -> & Hrec & _)|[(F' & b & f & -> & Hrec & _)|[[-> Hn]|([e ->] & Hnn & Hnr)]]];
    [by rewrite IH, Hskip|by rewrite IH, Hskip| |].
  - split; [|done]. intros _. exists [], k, m, l. by split_and!; [|constructor|].
  - split; [done|]. intros ([|km pre] & k' & m' & post & [= Hkm Hl] & Hpre & Hn); [by subst|]. by apply Forall_cons in Hpre as [Hpre _]; subst.
Qed.
End Recovery.

(** *** Packs *)

(** The members of the pack at [q], from [first] on. *)
Fixpoint rows_from (n : nat) (first : N) : list N := match n with O => [] | S n => first :: rows_from n (first + 1) end.
Lemma elem_of_rows_from n first x : x ∈ rows_from n first <-> (first <= x < first + N.of_nat n)%N.
Proof.
  revert first. induction n as [|n IH]; intros first; cbn [rows_from]; [rewrite elem_of_nil; lia|]. rewrite elem_of_cons, IH. lia.
Qed.

Lemma length_rows_from n first : length (rows_from n first) = n.
Proof. revert first. induction n as [|n IH]; intros first; cbn [rows_from length]; [done|by rewrite IH]. Qed.

Definition member_of (q : N) (km : N * BinaryObjectPackMemberRecord) : Prop :=
  ms !! N.to_nat (fst km) = Some (snd km) /\ member_is_tombstone (snd km) = false /\ pack_index (snd km) = q.

Lemma pack_members_spec pid q n first l : value (pack_members pid q n first) = Ok l <-> map fst l = rows_from n first /\ Forall (member_of q) l.
Proof.
  revert first l. induction n as [|n IH]; intros first l; cbn [pack_members rows_from].
  - split; [by intros [= <-]|]. intros [H _]. by destruct l.
  - cbn [member_at list_catalog]. split.
    + intros H. plan_ok. rewrite negb_false_iff, N.eqb_eq in *. apply IH in Hok2 as [-> Hall]. split; [done|]. by constructor.
    + intros [Hl Hall]. destruct l as [|[k m] l]; [done|]. injection Hl as -> Hl. apply Forall_cons in Hall as [(Hm & Ht & Hq) Hall]. cbn [fst snd] in *.
      plan_eval. rewrite Hm. plan_eval. rewrite Ht. plan_eval. rewrite Hq, N.eqb_refl. plan_eval. by rewrite (proj2 (IH _ l)).
Qed.

(** What a plan has checked of the live pack [p] at [q] with the members [l]. *)
Record pack_sound (q : N) (p : BinaryObjectPackRecord) (l : list (N * BinaryObjectPackMemberRecord)) : Prop := {
  so_pack : ps !! N.to_nat q = Some p;
  so_live : object_pack_is_tombstone p = false;
  so_max : (first_member_index p + member_count p <= u32_max)%N;
  so_range : (first_member_index p + member_count p <= nm)%N;
  so_rows : map fst l = rows_from (N.to_nat (member_count p)) (first_member_index p);
  so_members : Forall (member_of q) l
}.

Lemma sound_members q p l k m : pack_sound q p l -> (k, m) ∈ l <-> ms !! N.to_nat k = Some m /\ (first_member_index p <= k < first_member_index p + member_count p)%N.
Proof.
  intros [_ _ _ _ Hrows Hall]. rewrite Forall_forall in Hall.
  assert (forall x, x ∈ map fst l <-> (first_member_index p <= x < first_member_index p + member_count p)%N) as Hin.
  { intros x. rewrite Hrows, elem_of_rows_from. lia. }
  split.
  - intros H. destruct (Hall _ H) as (Hm & _). split; [done|]. apply Hin, list_elem_of_fmap. by exists (k, m).
  - intros [Hm Hk%Hin]. apply list_elem_of_fmap in Hk as ([k' m'] & -> & H). cbn [fst] in *. destruct (Hall _ H) as (Hm' & _). cbn [fst snd] in *. congruence.
Qed.

Lemma sound_unique q p l p' l' : pack_sound q p l -> pack_sound q p' l' -> p' = p /\ l' = l.
Proof.
  intros H H'. assert (p' = p) as -> by (pose proof (so_pack _ _ _ H); pose proof (so_pack _ _ _ H'); congruence). split; [done|].
  pose proof (so_rows _ _ _ H) as Hr. rewrite <- (so_rows _ _ _ H') in Hr. pose proof (so_members _ _ _ H) as Ha. pose proof (so_members _ _ _ H') as Ha'.
  clear H H'. revert l' Hr Ha'. induction l as [|[k m] l IH]; intros [|[k' m'] l'] Hr Ha'; try done. injection Hr as -> Hr.
  apply Forall_cons in Ha as [(Hm & _) Ha], Ha' as [(Hm' & _) Ha']. cbn [fst snd] in *. f_equal; [congruence|by apply IH].
Qed.

(** All members of a pack are found through live blobs. *)
Definition referenced (k : N) : Prop := exists i b, live_blob i b /\ pack_member_index b = Some k.
Lemma elem_of_live_member_indices k : k ∈ live_member_indices bs <-> referenced k.
Proof.
  unfold live_member_indices, referenced, live_blob. rewrite elem_of_list_to_set, list_elem_of_omap. setoid_rewrite list_elem_of_lookup. split.
  - intros (b & [i Hi] & H). exists (N.of_nat i), b. rewrite Nat2N.id. by destruct (unavailable b).
  - intros (i & b & [Hi Hl] & H). exists b. split; [by eexists|]. by rewrite Hl.
Qed.

Lemma filter_all {A : Type} (Q : A -> Prop) `{!forall x, Decision (Q x)} (l : list A) : length (filter Q l) = length l <-> Forall Q l.
Proof.
  induction l as [|x l IH]; [done|]. rewrite filter_cons, Forall_cons. destruct (decide (Q x)); cbn [length]; [rewrite <- IH; naive_solver lia|].
  pose proof (length_filter Q l). naive_solver lia.
Qed.

(** What the round of a pack gives. *)
Inductive candidate_of (q : N) : option BinaryDbOrphanObjectPack -> Prop :=
| dead_pack p : ps !! N.to_nat q = Some p -> object_pack_is_tombstone p = true -> candidate_of q None
| needed_pack p l : pack_sound q p l -> (exists pre k m post, l = pre ++ (k, m) :: post /\ Forall (fun km => recoverable (fst km) (snd km)) pre /\ needed k m) ->
    Forall (fun km => referenced (fst km)) l -> candidate_of q None
| orphan_pack p l T format path falls : pack_sound q p l -> Forall (fun km => recoverable (fst km) (snd km)) l -> tombs_ok T -> tombs_of l ∅ T ->
    object_pack_format_name (object_pack_format p) = Ok format ->
    object_pack_relative_path (object_pack_id_from_hash48 (object_pack_hash48 p)) format = Ok path ->
    candidate_of q (Some (mkOrphan q (object_pack_id_from_hash48 (object_pack_hash48 p)) path p l (tomb_list T) falls)).

Lemma pack_candidate_sound q o : value (pack_candidate bs np nm q) = Ok o -> candidate_of q o.
Proof.
  unfold pack_candidate. cbn [pack_at list_catalog]. intros H. plan_ok. destruct (object_pack_is_tombstone a) eqn:Hlive; [injection H as <-; by eapply dead_pack|].
  plan_ok. rewrite N.ltb_ge in *. apply pack_members_spec in Hok2 as [Hrows Hall]. assert (pack_sound q a a2) as Hsound by done.
  destruct a3 as [[tombs falls]|]; plan_ok.
  - destruct (recovery_some _ _ _ _ _ _ Hok3) as (Hrec & T & -> & HT & Hof); [by intros ? ? ?; rewrite lookup_empty|]. by eapply orphan_pack.
  - apply recovery_none in Hok3. rewrite negb_false_iff, N.eqb_eq in *. eapply needed_pack; [done|done|].
    pose proof (f_equal length Hrows) as Hlen. rewrite length_map, length_rows_from in Hlen.
    assert (Forall (fun im => fst im ∈ live_member_indices bs) a2) as Href by (apply (filter_all (fun im : N * BinaryObjectPackMemberRecord => fst im ∈ live_member_indices bs)); lia).
    eapply Forall_impl; [exact Href|]. intros km. by apply elem_of_live_member_indices.
Qed.

(** The round of a live pack, once its members are known. *)
Definition recovered (p : BinaryObjectPackRecord) (q : N) (l : list (N * BinaryObjectPackMemberRecord)) (recovery : option (list (N * BinaryBlobRecord * N) * list N))
  : result prune_error (option BinaryDbOrphanObjectPack) :=
  let pid := object_pack_id_from_hash48 (object_pack_hash48 p) in
  match recovery with
  | Some (tombs, falls) =>
      format ← map_err StoreError (object_pack_format_name (object_pack_format p));
      path ← map_err StoreError (object_pack_relative_path pid format);
      Ok (Some (mkOrphan q pid path p l tombs falls))
  | None =>
      let count := N.of_nat (length (filter (fun im => fst im ∈ live_member_indices bs) l)) in
      _ ← fail_if (count =? 0)%N (NoVerifiedFallback pid);
      _ ← fail_if (negb (count =? member_count p)%N) (PartiallyReferenced pid count (member_count p));
      Ok None
  end.
Lemma pack_candidate_value q p l : pack_sound q p l -> value (pack_candidate bs np nm q) =
  (recovery ← value (recovery_loop (object_pack_id_from_hash48 (object_pack_hash48 p)) bs np nm l ∅ ∅); recovered p q l recovery).
Proof.
  intros [Hp Ht Hmax Hr Hrows Hall]. unfold pack_candidate. cbn [pack_at list_catalog]. plan_eval. rewrite Hp. plan_eval. rewrite Ht. plan_eval.
  rewrite (proj2 (N.ltb_ge _ _)) by lia. plan_eval. rewrite (proj2 (N.ltb_ge _ _)) by lia. plan_eval.
  rewrite (proj2 (pack_members_spec _ _ _ _ l)) by done. plan_eval. unfold binary_db_pack_recovery_plan.
  destruct (value (recovery_loop _ _ _ _ _ _ _)) as [[[tombs falls]|]|]; [| |done]; cbn [mbind result_bind recovered]; plan_eval.
  2:{ destruct (_ =? 0)%N; plan_eval; [done|]. by destruct (_ =? _)%N. }
  destruct (object_pack_format_name _); plan_eval; [|done]. by destruct (object_pack_relative_path _ _); plan_eval.
Qed.

Lemma pack_candidate_complete q o : candidate_of q o -> exists falls,
  value (pack_candidate bs np nm q) = Ok ((fun c => mkOrphan q (orphan_pack_id c) (orphan_pack_path c) (orphan_record c) (orphan_members c) (blob_tombstones c) falls) <$> o).
Proof.
  intros [p Hp Ht|p l Hs Hn Href|p l T format path falls Hs Hrec HT Hof Hf Hpath].
  - exists []. unfold pack_candidate. cbn [pack_at list_catalog]. plan_eval. rewrite Hp. plan_eval. by rewrite Ht.
  - exists []. rewrite (pack_candidate_value q p l Hs). apply (recovery_none (object_pack_id_from_hash48 (object_pack_hash48 p)) l ∅ ∅) in Hn as Hnone.
    rewrite Hnone. cbn [mbind result_bind recovered].
    assert (length (filter (fun im => fst im ∈ live_member_indices bs) l) = length l) as ->.
    { apply (filter_all (fun im : N * BinaryObjectPackMemberRecord => fst im ∈ live_member_indices bs)). eapply Forall_impl; [exact Href|]. intros km. by apply elem_of_live_member_indices. }
    pose proof (f_equal length (so_rows _ _ _ Hs)) as Hlen. rewrite length_map, length_rows_from in Hlen. rewrite Hlen, N2Nat.id, N.eqb_refl.
    destruct (N.eqb_spec (member_count p) 0) as [H0|]; [|done]. destruct Hn as (pre & k & m & post & -> & _). rewrite H0, length_app in Hlen. cbn in Hlen. lia.
  - rewrite (pack_candidate_value q p l Hs).
    destruct (recovery_total (object_pack_id_from_hash48 (object_pack_hash48 p)) l ∅ ∅ Hrec) as [[tombs falls'] Hrun]. rewrite Hrun. exists falls'.
    cbn [mbind result_bind recovered]. rewrite Hf. cbn [map_err mbind result_bind]. rewrite Hpath. cbn [map_err mbind result_bind fmap option_fmap option_map
      orphan_pack_id orphan_pack_path orphan_record orphan_members blob_tombstones]. do 3 f_equal.
    destruct (recovery_some _ _ _ _ _ _ Hrun) as (_ & T' & -> & HT' & Hof'); [by intros ? ? ?; rewrite lookup_empty|]. f_equal.
    apply map_eq. intros i. destruct (T !! i) as [[b f]|] eqn:Hi.
    + destruct (HT _ _ _ Hi) as [[Hb _] Hff]. assert (is_Some (T' !! i)) as [[b' f'] Hi'] by (rewrite (Hof' i), <- (Hof i); by eexists).
      destruct (HT' _ _ _ Hi') as [[Hb' _] Hff']. assert (b' = b) as -> by congruence. rewrite Hi'. do 2 f_equal. by eapply first_fallback_unique.
    + apply eq_None_not_Some. rewrite (Hof' i), <- (Hof i), Hi. by intros [? [=]].
Qed.

(** *** Loops *)

Section Gather.
Context {A : Type} (round : N -> stateful unit prune_error (option A)).

Lemma gather_ok n i l : value (gather round n i) = Ok l ->
  (forall j, (i <= j < i + N.of_nat n)%N -> exists o, value (round j) = Ok o /\ forall x, o = Some x -> x ∈ l) /\
  (forall x, x ∈ l -> exists j, (i <= j < i + N.of_nat n)%N /\ value (round j) = Ok (Some x)).
Proof.
  revert i l. induction n as [|n IH]; intros i l H; cbn [gather] in H.
  - injection H as <-. split; [intros j; lia|by intros x ?%elem_of_nil].
  - plan_ok. apply IH in Hok0 as [H1 H2]. split.
    + intros j Hj. destruct (decide (j = i)) as [->|]; [exists a; split; [done|]; intros x ->; by left|].
      destruct (H1 j) as (o & Ho & Hin); [lia|]. exists o. split; [done|]. intros x Hx. destruct a; [right|]; by apply Hin.
    + assert (forall x, x ∈ a0 -> exists j, (i <= j < i + N.of_nat (S n))%N /\ value (round j) = Ok (Some x)) as Hrest.
      { intros x Hx. destruct (H2 x Hx) as (j & Hj & Hr). exists j. split; [lia|done]. }
      intros x Hx. destruct a as [y|]; [apply elem_of_cons in Hx as [->|Hx]; [exists i; split; [lia|done]|]|]; by apply Hrest.
Qed.

Lemma gather_total (Q : A -> Prop) n i : (forall j, (i <= j < i + N.of_nat n)%N -> exists o, value (round j) = Ok o /\ forall x, o = Some x -> Q x) ->
  exists l, value (gather round n i) = Ok l /\ Forall Q l.
Proof.
  revert i. induction n as [|n IH]; intros i H; cbn [gather]; [by exists []|]. destruct (H i) as (o & Ho & HQ); [lia|].
  destruct (IH (i + 1)%N) as (l & Hl & Hall); [intros j Hj; apply H; lia|]. plan_eval. rewrite Ho. plan_eval. rewrite Hl. plan_eval.
  eexists. split; [done|]. destruct o; [constructor; [by apply HQ|done]|done].
Qed.

Lemma gather_keys (key : A -> N) n i l : (forall j x, value (round j) = Ok (Some x) -> key x = j) -> value (gather round n i) = Ok l ->
  NoDup (map key l) /\ Forall (fun x => (i <= key x)%N) l.
Proof.
  intros Hkey. revert i l. induction n as [|n IH]; intros i l H; cbn [gather] in H; [injection H as <-; split; constructor|].
  plan_ok. apply IH in Hok0 as [Hnd Hle]. assert (Forall (fun x => (i <= key x)%N) a0) as Hle' by (eapply Forall_impl; [exact Hle|]; cbn; lia).
  destruct a as [x|]; [|done]. pose proof (Hkey _ _ Hok) as Hx. cbn [map]. split; [|constructor; [lia|done]]. apply NoDup_cons. split; [|done].
  intros (y & Hy & Hin)%list_elem_of_fmap. rewrite Forall_forall in Hle. specialize (Hle y Hin). lia.
Qed.
End Gather.

Lemma candidates_found cs : value binary_db_orphan_object_pack_candidates = Ok cs ->
  (forall q, N.to_nat q < length ps -> exists o, candidate_of q o /\ forall c, o = Some c -> c ∈ cs) /\
  (forall c, c ∈ cs -> candidate_of (orphan_pack_index c) (Some c)).
Proof.
  unfold binary_db_orphan_object_pack_candidates. intros H. autorewrite with value in H. rewrite all_blobs_value in H. cbn [pack_count catalog_member_count list_catalog] in H.
  plan_ok. apply gather_ok in H as [H1 H2]. split.
  - intros q Hq. destruct (H1 q) as (o & Ho & Hin); [lia|]. exists o. split; [by apply pack_candidate_sound|done].
  - intros c Hc. destruct (H2 c Hc) as (q & _ & Hr%pack_candidate_sound). by inversion Hr; subst.
Qed.

Lemma candidates_total (Q : BinaryDbOrphanObjectPack -> Prop) : (forall q, N.to_nat q < length ps -> exists o, candidate_of q o /\ forall c, o = Some c ->
    forall falls, Q (mkOrphan q (orphan_pack_id c) (orphan_pack_path c) (orphan_record c) (orphan_members c) (blob_tombstones c) falls)) ->
  exists cs, value binary_db_orphan_object_pack_candidates = Ok cs /\ Forall Q cs.
Proof.
  intros H. unfold binary_db_orphan_object_pack_candidates. autorewrite with value. rewrite all_blobs_value. cbn [pack_count catalog_member_count list_catalog]. plan_eval.
  apply gather_total. intros q Hq. destruct (H q) as (o & Ho & HQ); [lia|]. destruct (pack_candidate_complete q o Ho) as [falls Hr]. eexists. split; [exact Hr|].
  intros x (c & -> & ->)%fmap_Some. by apply HQ.
Qed.

(** What is known of a candidate. *)
Lemma candidate_sound q c : candidate_of q (Some c) -> orphan_pack_index c = q /\ pack_sound q (orphan_record c) (orphan_members c) /\
  (forall i b f, (i, b, f) ∈ blob_tombstones c -> live_blob i b /\ first_fallback i b f /\
     exists k m, (k, m) ∈ orphan_members c /\ blob_index m = i /\ (pack_member_index b = None \/ pack_member_index b = Some k)) /\
  (forall k m b f, (k, m) ∈ orphan_members c -> doubled k m b f -> (blob_index m, b, f) ∈ blob_tombstones c) /\
  Forall (fun km => recoverable (fst km) (snd km)) (orphan_members c).
Proof.
  inversion 1 as [| |p l T format path falls Hs Hrec HT Hof]; subst. cbn [orphan_pack_index orphan_record orphan_members blob_tombstones].
  split; [done|]. split; [done|]. setoid_rewrite elem_of_tomb_list. split_and!; [| |done].
  - intros i b f Hi. destruct (HT _ _ _ Hi) as [Hl Hf]. split; [done|]. split; [done|].
    destruct (proj1 (Hof i)) as [[? Hnone]|(k & m & b' & f' & Hin & Hm & Hd)]; [by eexists|by rewrite lookup_empty in Hnone|]. exists k, m. split; [done|]. split; [done|].
    destruct Hd as ([Hb' _] & Hk & _), Hl as [Hb _]. subst. assert (b' = b) as -> by congruence. done.
  - intros k m b f Hin Hd. destruct (proj2 (Hof (blob_index m))) as [[b' f'] Hi]; [right; by exists k, m, b, f|]. rewrite Hi. destruct (HT _ _ _ Hi) as [[Hb' _] Hf'].
    destruct Hd as ([Hb _] & _ & Hf). assert (b' = b) as -> by congruence. do 2 f_equal. by eapply first_fallback_unique.
Qed.

(** Where the archive of a candidate is, and that its tombstones are of different
    blobs. *)
Lemma candidate_archive q c : candidate_of q (Some c) -> NoDup (map (fun t => fst (fst t)) (blob_tombstones c)) /\
  orphan_pack_path c = default_object_pack_relative_path (object_pack_id_from_hash48 (object_pack_hash48 (orphan_record c))).
Proof.
  inversion 1 as [| |p l T format path falls Hs Hrec HT Hof Hformat Hpath]; subst. cbn [blob_tombstones orphan_pack_path orphan_record]. split.
  - unfold tomb_list. rewrite map_map. cbn [fst]. apply NoDup_ascending_keys.
  - unfold object_pack_relative_path in Hpath. case_bool_decide; [by injection Hpath|done].
Qed.

Lemma candidates_once cs : value binary_db_orphan_object_pack_candidates = Ok cs -> NoDup (map orphan_pack_index cs).
Proof.
  unfold binary_db_orphan_object_pack_candidates. intros H. autorewrite with value in H. rewrite all_blobs_value in H. cbn [pack_count catalog_member_count list_catalog] in H.
  plan_ok. eapply (gather_keys _ orphan_pack_index); [|exact H]. intros j x Hj%pack_candidate_sound. by apply candidate_sound in Hj as [? _].
Qed.

(** *** Bases *)

(** The plan tombstones the blob at [i] and names [f] in its place. *)
Definition plans (cs : list BinaryDbOrphanObjectPack) (i : N) (b : BinaryBlobRecord) (f : N) : Prop := exists c, c ∈ cs /\ (i, b, f) ∈ blob_tombstones c.
Definition tombstoned (cs : list BinaryDbOrphanObjectPack) (i : N) : Prop := exists b f, plans cs i b f.

Lemma planned_lookup cs i : (forall f, planned_fallback_by_blob_index cs !! i = Some f -> exists b, plans cs i b f) /\
  (tombstoned cs i -> is_Some (planned_fallback_by_blob_index cs !! i)).
Proof.
  assert (forall i b f, plans cs i b f <-> (i, b, f) ∈ cs ≫= blob_tombstones) as Hplans.
  { intros i' b f. rewrite list_elem_of_bind. unfold plans. naive_solver. }
  unfold tombstoned. setoid_rewrite Hplans. unfold planned_fallback_by_blob_index. generalize (cs ≫= blob_tombstones). intros l.
  assert (forall m : gmap N N, (forall f, foldl (fun m '(blob_index, _, fallback) => <[blob_index := fallback]> m) m l !! i = Some f -> m !! i = Some f \/ exists b, (i, b, f) ∈ l) /\
    (is_Some (m !! i) \/ (exists b f, (i, b, f) ∈ l) -> is_Some (foldl (fun m '(blob_index, _, fallback) => <[blob_index := fallback]> m) m l !! i))) as H.
  { induction l as [|[[x b] f] l IH]; intros m; cbn [foldl].
    - split; [by left|]. intros [H|(b & f & H%elem_of_nil)]; done.
    - destruct (IH (<[x := f]> m)) as [H1 H2]. split.
      + intros f' [[[-> ->]|[_ Hm]]%lookup_insert_Some|[b' Hb]]%H1; [right; exists b; left|by left|right; exists b'; by right].
      + intros [H|(b' & f' & [[= -> -> ->]|H]%elem_of_cons)]; apply H2; [left; rewrite lookup_insert_is_Some; destruct (decide (x = i)); [by left|by right]|left; rewrite lookup_insert_eq; by eexists|
          right; by exists b', f']. }
  destruct (H ∅) as [H1 H2]. split; [intros f Hf; apply H1 in Hf; rewrite lookup_empty in Hf; naive_solver|intros Hi; apply H2; by right].
Qed.

Lemma elem_of_planned cs i : i ∈ dom (planned_fallback_by_blob_index cs) <-> tombstoned cs i.
Proof.
  rewrite elem_of_dom. destruct (planned_lookup cs i) as [H1 H2]. split; [|done]. intros [f Hf]. destruct (H1 f Hf) as [b Hb]. by exists b, f.
Qed.

Lemma active_sound X idn l i : active_by_identity X bs !! idn = Some l -> i ∈ l -> exists b, live_blob i b /\ i ∉ X /\ blob_identity b = idn.
Proof.
  unfold active_by_identity. assert (forall n rest (active : gmap (N * N * bytes) (list N)), drop (N.to_nat n) bs = rest ->
    (forall idn l i, active !! idn = Some l -> i ∈ l -> exists b, live_blob i b /\ i ∉ X /\ blob_identity b = idn) ->
    forall idn l i, activate X n rest active !! idn = Some l -> i ∈ l -> exists b, live_blob i b /\ i ∉ X /\ blob_identity b = idn) as H.
  { intros n rest. revert n. induction rest as [|b rest IH]; intros n active Hdrop Hactive; cbn [activate]; [done|].
    assert (bs !! N.to_nat n = Some b) as Hb by (pose proof (lookup_drop bs (N.to_nat n) 0) as E; by rewrite Hdrop, Nat.add_0_r in E).
    apply IH.
    - replace (N.to_nat (n + 1)) with (N.to_nat n + 1) by lia. by rewrite <- drop_drop, Hdrop.
    - destruct (unavailable b || bool_decide (n ∈ X)) eqn:Hskip; [done|]. apply orb_false_iff in Hskip as [Hl Hx%bool_decide_eq_false].
      intros idn' l' i' [[<- <-]|[_ Hin]]%lookup_insert_Some; [|by apply Hactive]. rewrite elem_of_app, list_elem_of_singleton. intros [Hi'| ->]; [|by exists b].
      destruct (active !! blob_identity b) as [l0|] eqn:Hl0; [by eapply Hactive|by apply elem_of_nil in Hi']. }
  apply (H 0%N bs ∅); [done|]. intros idn' l' i'. by rewrite lookup_empty.
Qed.

(** What the round of a member gives. *)
Inductive rewrite_of (cs : list BinaryDbOrphanObjectPack) (k : N) : option BinaryDbBaseBlobPointerRewrite -> Prop :=
| own_member : k ∈ candidate_member_indices cs -> rewrite_of cs k None
| dead_member m : ms !! N.to_nat k = Some m -> member_is_tombstone m = true -> rewrite_of cs k None
| full_member m : ms !! N.to_nat k = Some m -> base_blob_index m = None -> rewrite_of cs k None
| based_member m j b : ms !! N.to_nat k = Some m -> base_blob_index m = Some j -> live_blob j b -> ~ tombstoned cs j -> rewrite_of cs k None
| rebased_member_ m j b f bf k' : k ∉ candidate_member_indices cs -> ms !! N.to_nat k = Some m -> member_is_tombstone m = false -> base_blob_index m = Some j ->
    bs !! N.to_nat j = Some b -> bs !! N.to_nat f = Some bf -> blob_identity bf = blob_identity b -> pack_member_index bf = Some k' -> owned f k' ->
    (exists b', plans cs j b' f) \/ live_blob f bf /\ ~ tombstoned cs f -> rewrite_of cs k (Some (mkRewrite k m f)).

Lemma active_fallback_ok k j l e f : value (active_fallback k j bs np nm l e) = Ok f -> f ∈ l.
Proof.
  revert e. induction l as [|x l IH]; intros e; cbn [active_fallback]; [done|]. destruct (bs !! N.to_nat x ≫= pack_member_index) as [k'|]; [|intros H; right; by eapply IH].
  intros H. plan_ok. destruct (valid_cases k' x) as [[Hv _]|[[e' Hv] _]]; rewrite Hv in H; plan_ok; [left|right; by eapply IH].
Qed.

Lemma member_rewrite_sound cs k o : value (member_rewrite cs bs np nm k) = Ok o -> rewrite_of cs k o.
Proof.
  unfold member_rewrite. case_bool_decide as Hin; [intros [= <-]; by apply own_member|]. cbn [member_at list_catalog]. intros H. plan_ok.
  destruct (member_is_tombstone a) eqn:Ht; plan_ok; [by eapply dead_member|]. destruct (base_blob_index a) as [j|] eqn:Hj; plan_ok; [|by eapply full_member].
  destruct (negb (unavailable a0) && negb (bool_decide (j ∈ dom (planned_fallback_by_blob_index cs)))) eqn:Hkeep; plan_ok.
  { apply andb_true_iff in Hkeep as [Hl%negb_true_iff Hp%negb_true_iff%bool_decide_eq_false]. rewrite elem_of_planned in Hp. by eapply based_member. }
  rewrite negb_false_iff, bool_decide_eq_true in *. destruct a5. apply valid_owned in Hok5. eapply rebased_member_; try done.
  destruct (planned_fallback_by_blob_index cs !! j) as [f|] eqn:Hf; plan_ok; [left; by apply planned_lookup|right].
  apply active_fallback_ok in Hok1. rewrite list_elem_of_In, <- in_rev, <- list_elem_of_In in Hok1. destruct (active_sound _ _ _ _ Hok6 Hok1) as (b & Hb & Hx & Hid).
  rewrite elem_of_planned in Hx. assert (b = a2) as -> by (destruct Hb; congruence). done.
Qed.

Lemma member_rewrite_total cs k m : ms !! N.to_nat k = Some m ->
  (k ∉ candidate_member_indices cs -> member_is_tombstone m = false -> forall j, base_blob_index m = Some j -> exists b, bs !! N.to_nat j = Some b /\
    (unavailable b = false /\ ~ tombstoned cs j \/
     tombstoned cs j /\ forall b' f, plans cs j b' f -> exists bf, authoritative f bf /\ blob_identity bf = blob_identity b)) ->
  exists o, value (member_rewrite cs bs np nm k) = Ok o /\ ((forall j, ~ tombstoned cs j) -> o = None).
Proof.
  intros Hm H. unfold member_rewrite. case_bool_decide as Hin; [by exists None|]. cbn [member_at list_catalog]. plan_eval. rewrite Hm. plan_eval.
  destruct (member_is_tombstone m) eqn:Ht; plan_eval; [by exists None|]. destruct (base_blob_index m) as [j|] eqn:Hj; plan_eval; [|by exists None].
  destruct (H Hin eq_refl j eq_refl) as (b & Hb & [[Hl Hp]|[Hp Hf]]); rewrite Hb; plan_eval.
  - rewrite Hl, bool_decide_eq_false_2 by (by rewrite elem_of_planned). by exists None.
  - rewrite (bool_decide_eq_true_2 (j ∈ _)) by (by rewrite elem_of_planned). rewrite andb_false_r. destruct (planned_lookup cs j) as [H1 H2].
    destruct (H2 Hp) as [f Hfb]. destruct (H1 f Hfb) as [b' Hplans]. destruct (Hf b' f Hplans) as (bf & [[Hbf Hlf] (k' & Hk' & Hown)] & Hid).
    plan_eval. rewrite Hfb. plan_eval. rewrite Hbf. plan_eval. rewrite Hid, bool_decide_eq_true_2 by done. plan_eval. rewrite Hk'. plan_eval.
    rewrite (proj2 (valid_owned k' f) Hown). plan_eval. eexists. split; [done|]. intros Hnone. by apply Hnone in Hp.
Qed.

Lemma rewrites_ok cs rs : value (binary_db_base_blob_pointer_rewrites cs) = Ok rs ->
  (forall k, N.to_nat k < length ms -> exists o, rewrite_of cs k o /\ forall r, o = Some r -> r ∈ rs) /\ (forall r, r ∈ rs -> rewrite_of cs (rewrite_member_index r) (Some r)).
Proof.
  unfold binary_db_base_blob_pointer_rewrites. cbn [blob_count pack_count catalog_member_count list_catalog]. intros H. autorewrite with value in H.
  cbn [mbind result_bind] in H. autorewrite with value in H. cbn [mbind result_bind] in H. autorewrite with value in H. cbn [mbind result_bind] in H.
  autorewrite with value in H. rewrite blobs_from_value in H by lia. cbn [mbind result_bind] in H. apply gather_ok in H as [H1 H2]. split.
  - intros k Hk. destruct (H1 k) as (o & Ho & Hin); [lia|]. exists o. split; [by apply member_rewrite_sound|done].
  - intros r Hr. destruct (H2 r Hr) as (k & _ & Hk%member_rewrite_sound). by inversion Hk; subst.
Qed.

Lemma rewrites_total cs : (forall k m j, ms !! N.to_nat k = Some m -> k ∉ candidate_member_indices cs -> member_is_tombstone m = false -> base_blob_index m = Some j ->
    exists b, bs !! N.to_nat j = Some b /\ (unavailable b = false /\ ~ tombstoned cs j \/
      tombstoned cs j /\ forall b' f, plans cs j b' f -> exists bf, authoritative f bf /\ blob_identity bf = blob_identity b)) ->
  exists rs, value (binary_db_base_blob_pointer_rewrites cs) = Ok rs /\ ((forall j, ~ tombstoned cs j) -> rs = []).
Proof.
  intros H. unfold binary_db_base_blob_pointer_rewrites. cbn [blob_count pack_count catalog_member_count list_catalog]. plan_eval.
  rewrite blobs_from_value by lia. cbn [mbind result_bind].
  destruct (gather_total (member_rewrite cs (drop (N.to_nat 0) bs) np nm) (fun _ => ~ forall j, ~ tombstoned cs j) (N.to_nat nm) 0) as (rs & Hrs & Hall).
  - intros k Hk. destruct (lookup_lt_is_Some_2 ms (N.to_nat k)) as [m Hm]; [lia|]. destruct (member_rewrite_total cs k m Hm) as (o & Ho & Hnone).
    { intros Hout Ht j Hj. by eapply H. }
    exists o. split; [done|]. intros x -> Hno. by specialize (Hnone Hno).
  - exists rs. split; [done|]. intros Hno. destruct rs; [done|]. apply Forall_cons in Hall as [Hx _]. by destruct Hx.
Qed.
End Catalogue.
