(* ===== verification/PruneKeeps.v ===== *)
(** * A prune loses nothing

    The catalogue that is left when a plan has been applied: every blob that was
    found in a pack is found in one, its bases are live, and pruning again finds
    nothing to do. *)

From Stdlib Require Import NArith Lia.
From Stdlib Require Strings.Byte.
From stdpp Require Import base numbers strings gmap list sorting.
From S2P Require Import Prelude Codec FileStore BinaryDb ContentCodec ContentIds BlobStore PackPrune PrunePlan.

(** ** The catalogue after a prune *)

Definition pruned_blobs (plan : BinaryDbOrphanPackPrunePlan) : list BinaryBlobRecord -> list BinaryBlobRecord :=
  overwrite_all (fun t => fst (fst t)) (fun t => tombstoned_blob (snd (fst t))) (candidates plan ≫= blob_tombstones).
Definition rebased_members (plan : BinaryDbOrphanPackPrunePlan) : list BinaryObjectPackMemberRecord -> list BinaryObjectPackMemberRecord :=
  overwrite_all rewrite_member_index (fun r => rebased_member (rewrite_record r) (fallback_blob_index r + 1)) (base_pointer_rewrites plan).
Definition pruned_members (plan : BinaryDbOrphanPackPrunePlan) (ms : list BinaryObjectPackMemberRecord) : list BinaryObjectPackMemberRecord :=
  overwrite_all fst (fun km => tombstoned_member (snd km)) (candidates plan ≫= orphan_members) (rebased_members plan ms).
Definition pruned_packs (plan : BinaryDbOrphanPackPrunePlan) : list BinaryObjectPackRecord -> list BinaryObjectPackRecord :=
  overwrite_all orphan_pack_index (fun c => tombstoned_pack (orphan_record c)) (candidates plan).

Lemma has_bits_lor a bits : bits <> 0%N -> has_bits (N.lor a bits) bits = true.
Proof.
  intros H. unfold has_bits. rewrite negb_true_iff, N.eqb_neq. intros H0. apply H. rewrite <- H0. apply N.bits_inj. intros n.
  rewrite N.land_spec, N.lor_spec. by destruct (N.testbit a n), (N.testbit bits n).
Qed.

Lemma tombstones_dead b m p : unavailable (tombstoned_blob b) = true /\ member_is_tombstone (tombstoned_member m) = true /\ object_pack_is_tombstone (tombstoned_pack p) = true.
Proof. unfold unavailable, blob_is_tombstone, member_is_tombstone, object_pack_is_tombstone. cbn. by rewrite !has_bits_lor. Qed.

Section Prune.
Context (bs : list BinaryBlobRecord) (ps : list BinaryObjectPackRecord) (ms : list BinaryObjectPackMemberRecord).
Context (pinned : gset N) (plan : BinaryDbOrphanPackPrunePlan) (Hplan : value (pinned_plan (K := list_catalog bs ps ms) pinned) = Ok plan).

Local Abbreviation cs := (candidates plan).
Local Abbreviation rs := (base_pointer_rewrites plan).
Local Abbreviation live_blob := (live_blob bs).
Local Abbreviation owned := (owned ps ms).
Local Abbreviation authoritative := (authoritative bs ps ms).
Local Abbreviation candidate_of := (candidate_of bs ps ms).
Local Abbreviation first_fallback := (first_fallback bs ps ms).

(** The candidates before pinned blobs were looked at. *)
Lemma plan_parts : exists all rs0, value (binary_db_orphan_object_pack_candidates (K := list_catalog bs ps ms)) = Ok all /\
  value (binary_db_base_blob_pointer_rewrites (K := list_catalog bs ps ms) all) = Ok rs0 /\ cs = List.filter (spares pinned) all /\
  value (binary_db_base_blob_pointer_rewrites (K := list_catalog bs ps ms) cs) = Ok rs.
Proof.
  unfold pinned_plan, binary_db_orphan_pack_prune_plan_from_write, retain_pinned in Hplan. pose proof Hplan as H. clear Hplan. plan_ok. cbn [candidates base_pointer_rewrites].
  by exists a0, a2.
Qed.

Lemma candidate_in c : c ∈ cs -> candidate_of (orphan_pack_index c) (Some c) /\ spares pinned c = true.
Proof.
  destruct plan_parts as (all & rs0 & [_ Hall]%candidates_found & _ & -> & _). rewrite list_elem_of_In, filter_In, <- list_elem_of_In. intros [Hc Hs].
  split; [by apply Hall|done].
Qed.

(** *** Which blobs go *)

Lemma gone_blob i b f : plans cs i b f -> live_blob i b /\ first_fallback i b f.
Proof. intros (c & Hc & Hi). destruct (candidate_in c Hc) as [(_ & _ & H & _)%candidate_sound _]. destruct (H _ _ _ Hi) as (H1 & H2 & _). done. Qed.

(** The blob that stands in for another one stays. *)
Lemma fallback_stays i b f : first_fallback i b f -> ~ tombstoned cs f.
Proof.
  intros Hf (bf & g & Hp). destruct (gone_blob _ _ _ Hp) as [Hl Hg]. pose proof Hf as (_ & (bf' & Ha & _) & _).
  assert (bf' = bf) as -> by (destruct Ha as [[] _], Hl; congruence). by apply (first_fallback_of bs ps ms i b f bf Hf Ha g).
Qed.

(** A blob that is found in the pack of a candidate goes. *)
Lemma owned_by_candidate c i b k m : c ∈ cs -> live_blob i b -> pack_member_index b = Some k -> (k, m) ∈ orphan_members c -> blob_index m = i -> tombstoned cs i.
Proof.
  intros Hc [Hb Hl] Hk Hin <-. destruct (candidate_in c Hc) as [(_ & _ & _ & Htombs & Hall)%candidate_sound _].
  destruct (proj1 (Forall_forall _ _) Hall _ Hin) as (b' & Hb' & Hcase). cbn [fst snd] in *. assert (b' = b) as -> by congruence.
  destruct Hcase as [|[(k' & _ & Hk' & Hne & _)|(f & Hd)]]; [congruence|congruence|]. exists b, f, c. split; [done|by eapply Htombs].
Qed.

Lemma pinned_stays i : i ∈ pinned -> ~ tombstoned cs i.
Proof.
  intros Hi (b & f & c & Hc & Hin). destruct (candidate_in c Hc) as [_ Hs]. unfold spares in Hs. apply negb_true_iff in Hs.
  assert (existsb (fun '(j, _, _) => bool_decide (j ∈ pinned)) (blob_tombstones c) = true) as E; [|congruence].
  apply existsb_exists. exists (i, b, f). split; [by apply list_elem_of_In|]. by apply bool_decide_eq_true.
Qed.

(** *** The records afterwards *)

Local Abbreviation bs' := (pruned_blobs plan bs).
Local Abbreviation ps' := (pruned_packs plan ps).
Local Abbreviation ms' := (pruned_members plan ms).

Lemma blob_after i b : bs !! N.to_nat i = Some b ->
  tombstoned cs i /\ bs' !! N.to_nat i = Some (tombstoned_blob b) \/ ~ tombstoned cs i /\ bs' !! N.to_nat i = Some b.
Proof.
  intros Hb. destruct (overwrite_all_case (fun t : N * BinaryBlobRecord * N => fst (fst t)) (fun t => tombstoned_blob (snd (fst t))) (cs ≫= blob_tombstones) bs i)
    as [([[j b0] f] & Hin & Hj & Hl)|[Hout Hl]]; [by eexists| |].
  - cbn [fst snd] in *. subst j. apply list_elem_of_bind in Hin as (c & Hin & Hc). left. assert (plans cs i b0 f) as Hp by (by exists c).
    split; [by exists b0, f|]. destruct (gone_blob _ _ _ Hp) as [[Hb0 _] _]. unfold pruned_blobs. rewrite Hl. congruence.
  - right. split; [|unfold pruned_blobs; congruence]. intros (b0 & f & c & Hc & Hin). apply (Hout (i, b0, f)); [|done]. apply list_elem_of_bind. by exists c.
Qed.

Definition gone_pack (q : N) : Prop := exists c, c ∈ cs /\ orphan_pack_index c = q.
Lemma pack_after q p : ps !! N.to_nat q = Some p ->
  gone_pack q /\ ps' !! N.to_nat q = Some (tombstoned_pack p) \/ ~ gone_pack q /\ ps' !! N.to_nat q = Some p.
Proof.
  intros Hp. destruct (overwrite_all_case orphan_pack_index (fun c => tombstoned_pack (orphan_record c)) cs ps q) as [(c & Hc & Hq & Hl)|[Hout Hl]]; [by eexists| |].
  - left. split; [by exists c|]. destruct (candidate_in c Hc) as [(_ & Hs & _)%candidate_sound _]. rewrite Hq in Hs. pose proof (so_pack _ _ _ _ _ Hs). unfold pruned_packs. rewrite Hl. congruence.
  - right. split; [|unfold pruned_packs; congruence]. intros (c & Hc & Hq). by apply (Hout c).
Qed.

Definition gone_member (k : N) : Prop := k ∈ candidate_member_indices cs.
Lemma gone_member_in k : gone_member k <-> exists c m, c ∈ cs /\ (k, m) ∈ orphan_members c.
Proof.
  unfold gone_member, candidate_member_indices. rewrite elem_of_list_to_set, list_elem_of_bind. setoid_rewrite list_elem_of_fmap. split.
  - intros (c & ([k' m] & -> & Hin) & Hc). by exists c, m.
  - intros (c & m & Hc & Hin). exists c. split; [|done]. by exists (k, m).
Qed.

(** The members of candidates are those of their packs. *)
Lemma gone_member_pack k m : gone_member k -> ms !! N.to_nat k = Some m -> gone_pack (pack_index m) /\ member_is_tombstone m = false.
Proof.
  intros (c & m' & Hc & Hin)%gone_member_in Hm. destruct (candidate_in c Hc) as [(_ & Hs & _)%candidate_sound _].
  destruct (proj1 (Forall_forall _ _) (so_members _ _ _ _ _ Hs) _ Hin) as (Hm' & Ht & Hq). cbn [fst snd] in *. assert (m' = m) as -> by congruence. split; [by exists c|done].
Qed.

(** A rewrite of the plan is of the member [m] at [k]. *)
Definition rebased_to (k : N) (m : BinaryObjectPackMemberRecord) (f : N) : Prop := mkRewrite k m f ∈ rs.

Lemma rewrite_in k m f : rebased_to k m f -> rewrite_of bs ps ms cs k (Some (mkRewrite k m f)).
Proof. destruct plan_parts as (all & rs0 & _ & _ & _ & [_ H]%rewrites_ok). apply H. Qed.

Lemma member_after k m : ms !! N.to_nat k = Some m ->
  gone_member k /\ ms' !! N.to_nat k = Some (tombstoned_member m) \/
  ~ gone_member k /\ (ms' !! N.to_nat k = Some m /\ (forall f, ~ rebased_to k m f) \/
    exists f, rebased_to k m f /\ ms' !! N.to_nat k = Some (rebased_member m (f + 1))).
Proof.
  intros Hm. destruct (overwrite_all_case fst (fun km => tombstoned_member (snd km)) (cs ≫= orphan_members) (rebased_members plan ms) k) as [([k' m'] & Hin & Hk & Hl)|[Hout Hl]].
  { apply lookup_lt_is_Some. unfold rebased_members. rewrite length_overwrite_all. by eapply lookup_lt_Some. }
  - cbn [fst snd] in *. subst k'. apply list_elem_of_bind in Hin as (c & Hin & Hc). left. split; [apply gone_member_in; by exists c, m'|].
    destruct (candidate_in c Hc) as [(_ & Hs & _)%candidate_sound _]. destruct (proj1 (Forall_forall _ _) (so_members _ _ _ _ _ Hs) _ Hin) as (Hm' & _). cbn [fst snd] in *.
    unfold pruned_members. rewrite Hl. congruence.
  - right. split. { intros (c & m' & Hc & Hin)%gone_member_in. apply (Hout (k, m')); [|done]. apply list_elem_of_bind. by exists c. }
    unfold pruned_members. rewrite Hl.
    destruct (overwrite_all_case rewrite_member_index (fun r => rebased_member (rewrite_record r) (fallback_blob_index r + 1)) rs ms k) as [([k' m' f] & Hin & Hk & Hl')|[Hno Hl']]; [by eexists| |].
    + right. cbn in Hk. subst k'. assert (rebased_to k m' f) as Hr by done. pose proof (rewrite_in _ _ _ Hr) as H. inversion H; subst.
      assert (m' = m) as -> by congruence. exists f. by split.
    + left. split; [unfold rebased_members; congruence|]. intros f Hr. by apply (Hno (mkRewrite k m f)).
Qed.

(** *** What stays *)

Local Abbreviation live_blob' := (PrunePlan.live_blob bs').
Local Abbreviation owned' := (PrunePlan.owned ps' ms').
Local Abbreviation authoritative' := (PrunePlan.authoritative bs' ps' ms').

Lemma live_after i b : live_blob' i b <-> live_blob i b /\ ~ tombstoned cs i.
Proof.
  unfold PrunePlan.live_blob. split.
  - intros [Hb' Hl]. destruct (lookup_lt_is_Some_2 bs (N.to_nat i)) as [b0 Hb].
    { apply lookup_lt_Some in Hb'. unfold pruned_blobs in Hb'. by rewrite length_overwrite_all in Hb'. }
    destruct (blob_after i b0 Hb) as [[_ H]|[Hno H]]; rewrite H in Hb'; injection Hb' as <-; [|done].
    by rewrite (proj1 (tombstones_dead b0 (mkObjectPackMemberRecord 0 0 0 0 0 0) (mkObjectPackRecord 0 0 0 0 0 0 0 0))) in Hl.
  - intros [[Hb Hl] Hno]. destruct (blob_after i b Hb) as [[Hyes _]|[_ H]]; done.
Qed.

(** Members that stay keep their pack and their blob. *)
Lemma member_stays k m' : ms' !! N.to_nat k = Some m' -> member_is_tombstone m' = false -> exists m, ms !! N.to_nat k = Some m /\ ~ gone_member k /\
  member_is_tombstone m = false /\ blob_index m' = blob_index m /\ pack_index m' = pack_index m /\
  (m' = m /\ (forall f, ~ rebased_to k m f) \/ exists f, rebased_to k m f /\ m' = rebased_member m (f + 1)).
Proof.
  intros Hm' Hl. destruct (lookup_lt_is_Some_2 ms (N.to_nat k)) as [m Hm].
  { apply lookup_lt_Some in Hm'. unfold pruned_members, rebased_members in Hm'. by rewrite !length_overwrite_all in Hm'. }
  exists m. split; [done|]. destruct (member_after k m Hm) as [[_ H]|(Hno & [[H Hf]|(f & Hf & H)])]; rewrite H in Hm'; injection Hm' as <-.
  - by rewrite (proj1 (proj2 (tombstones_dead (mkBlobRecord 0 0 0 0 0 0 0 []) m (mkObjectPackRecord 0 0 0 0 0 0 0 0)))) in Hl.
  - split_and!; try done. by left.
  - split_and!; try done. right. by exists f.
Qed.
Lemma stays_member k m : ms !! N.to_nat k = Some m -> ~ gone_member k -> exists m', ms' !! N.to_nat k = Some m' /\
  member_is_tombstone m' = member_is_tombstone m /\ blob_index m' = blob_index m /\ pack_index m' = pack_index m.
Proof. intros Hm Hno. destruct (member_after k m Hm) as [[? _]|(_ & [[H _]|(f & _ & H)])]; [done|by exists m|]. by exists (rebased_member m (f + 1)). Qed.

Lemma pack_stays q p : ps' !! N.to_nat q = Some p -> object_pack_is_tombstone p = false -> ps !! N.to_nat q = Some p /\ ~ gone_pack q.
Proof.
  intros Hp' Hl. destruct (lookup_lt_is_Some_2 ps (N.to_nat q)) as [p0 Hp].
  { apply lookup_lt_Some in Hp'. unfold pruned_packs in Hp'. by rewrite length_overwrite_all in Hp'. }
  destruct (pack_after q p0 Hp) as [[_ H]|[Hno H]]; rewrite H in Hp'; injection Hp' as <-; [|done].
  by rewrite (proj2 (proj2 (tombstones_dead (mkBlobRecord 0 0 0 0 0 0 0 []) (mkObjectPackMemberRecord 0 0 0 0 0 0) p0))) in Hl.
Qed.

Lemma owned_before i k : owned' i k -> owned i k.
Proof.
  intros (m' & p & Hm' & Hl & Hi & Hp' & Hpl & Hr). destruct (member_stays k m' Hm' Hl) as (m & Hm & _ & Hl0 & Hbi & Hpi & _).
  destruct (pack_stays _ _ Hp' Hpl) as [Hp _]. exists m, p. rewrite <- Hpi, <- Hbi. done.
Qed.
Lemma authoritative_before i b : authoritative' i b -> authoritative i b /\ ~ tombstoned cs i.
Proof. intros [[Hl Hno]%live_after (k & Hk & Ho%owned_before)]. split; [|done]. split; [done|by exists k]. Qed.

(** A blob that does not go is found where it was. *)
Lemma authoritative_after i b : authoritative i b -> ~ tombstoned cs i -> authoritative' i b.
Proof.
  intros [Hl (k & Hk & m & p & Hm & Ht & Hi & Hp & Hpt & Hr & Hmax)] Hno. split; [by apply live_after|]. exists k. split; [done|].
  assert (~ gone_pack (pack_index m)) as Hpack.
  { intros (c & Hc & Hq). apply Hno. destruct (candidate_in c Hc) as [(_ & Hs & _)%candidate_sound _]. rewrite Hq in Hs.
    pose proof (so_pack _ _ _ _ _ Hs) as Hp0. assert (orphan_record c = p) as Heq by congruence. rewrite Heq in Hs.
    apply (owned_by_candidate c i b k m); try done. by apply (sound_members _ _ _ _ _ k m Hs). }
  assert (~ gone_member k) as Hmember by (intros Hg; by destruct (gone_member_pack k m Hg Hm)).
  destruct (stays_member k m Hm Hmember) as (m' & Hm' & Ht' & Hi' & Hp'). exists m', p. rewrite Ht', Hi', Hp'. destruct Hr. split_and!; try done.
  by destruct (pack_after _ _ Hp) as [[? _]|[_ Hpa]].
Qed.

Lemma fallback_after i b f : first_fallback i b f -> PrunePlan.first_fallback bs' ps' ms' i b f.
Proof.
  intros Hf. pose proof (fallback_stays _ _ _ Hf) as Hno. destruct Hf as (Hlt & (bf & Ha & Hid) & Hfirst). split; [done|]. split.
  - exists bf. split; [by apply authoritative_after|done].
  - intros g bg Hg [Hag _]%authoritative_before. by apply Hfirst with g.
Qed.

(** The bases of members that stay are there, with the content they had. *)
Lemma base_after k m' j : ms' !! N.to_nat k = Some m' -> member_is_tombstone m' = false -> base_blob_index m' = Some j ->
  exists m j0 b0 b, ms !! N.to_nat k = Some m /\ base_blob_index m = Some j0 /\ bs !! N.to_nat j0 = Some b0 /\ live_blob' j b /\ blob_identity b = blob_identity b0.
Proof.
  intros Hm' Hl Hj. destruct (member_stays k m' Hm' Hl) as (m & Hm & Hno & Hl0 & _ & _ & [[-> Hkeep]|(f & Hf & ->)]).
  - destruct plan_parts as (all & rs0 & _ & _ & _ & [H _]%rewrites_ok). destruct (H k) as (o & Ho & Hin); [by eapply lookup_lt_Some|].
    inversion Ho as [|m0 Hm0 Ht0|m0 Hm0 Hj0|m0 j0 b Hm0 Hj0 Hb Hnp|m0 j0 b f bf k' Hk Hm0 Ht0 Hj0 Hb Hbf Hid Hk' Hown Hwhy]; subst;
      [done|assert (m0 = m) as -> by congruence; congruence..| |]; assert (m0 = m) as -> by congruence.
    + assert (j0 = j) as -> by congruence. exists m, j, b, b. split_and!; try done; [apply Hb|by apply live_after].
    + destruct (Hkeep f). by apply Hin.
  - pose proof (rewrite_in _ _ _ Hf) as H. inversion H as [| | | |m0 j0 b f0 bf k' Hk Hm0 Ht0 Hj0 Hb Hbf Hid Hk' Hown Hwhy]; subst.
    assert (j = f) as ->. { unfold base_blob_index, minus_one in Hj. cbn in Hj. destruct (N.eqb_spec (f + 1) 0); [lia|]. injection Hj as <-. lia. }
    exists m, j0, b, bf. split_and!; try done. apply live_after. destruct Hwhy as [[b' Hp]|[Hlive Hstay]]; [|done].
    pose proof (proj2 (gone_blob _ _ _ Hp)) as Hff. split; [|by eapply fallback_stays]. destruct Hff as (_ & (bf' & [Hlf _] & _) & _).
    assert (bf' = bf) as -> by (destruct Hlf; congruence). done.
Qed.

(** *** Planning again *)

Local Abbreviation candidate_of' := (PrunePlan.candidate_of bs' ps' ms').

(** The members of a pack that stays. *)
Definition members_after (l : list (N * BinaryObjectPackMemberRecord)) : list (N * BinaryObjectPackMemberRecord) :=
  map (fun km => (fst km, default (snd km) (ms' !! N.to_nat (fst km)))) l.

Lemma members_after_in l k m' : (k, m') ∈ members_after l <-> exists m, (k, m) ∈ l /\ m' = default m (ms' !! N.to_nat k).
Proof.
  unfold members_after. rewrite list_elem_of_fmap. split.
  - intros ([k0 m] & [= -> ->] & H). by exists m.
  - intros (m & H & ->). by exists (k, m).
Qed.

Lemma sound_after q p l : pack_sound ps ms q p l -> ~ gone_pack q -> pack_sound ps' ms' q p (members_after l) /\
  forall k m, (k, m) ∈ l -> exists m', ms' !! N.to_nat k = Some m' /\ blob_index m' = blob_index m /\ (k, m') ∈ members_after l.
Proof.
  intros Hs Hno. pose proof (so_members _ _ _ _ _ Hs) as Hall. rewrite Forall_forall in Hall.
  assert (forall k m, (k, m) ∈ l -> exists m', ms' !! N.to_nat k = Some m' /\ member_is_tombstone m' = false /\ blob_index m' = blob_index m /\ pack_index m' = q) as Hmem.
  { intros k m Hin. destruct (Hall _ Hin) as (Hm & Ht & Hq). cbn [fst snd] in *. assert (~ gone_member k) as Hnk.
    { intros Hg. destruct (gone_member_pack k m Hg Hm) as [Hgp _]. by rewrite Hq in Hgp. }
    destruct (stays_member k m Hm Hnk) as (m' & Hm' & Ht' & Hb' & Hp'). exists m'. rewrite Ht', Hp'. done. }
  split.
  - destruct Hs as [Hp Ht Hmax Hr Hrows _]. split; try done.
    + by destruct (pack_after _ _ Hp) as [[? _]|[_ Hpa]].
    + unfold pruned_members, rebased_members. by rewrite !length_overwrite_all.
    + unfold members_after. rewrite map_map. exact Hrows.
    + apply Forall_forall. intros [k m'] (m & Hin & ->)%members_after_in. destruct (Hmem k m Hin) as (m' & Hm' & Ht' & _ & Hq'). unfold member_of. cbn [fst snd].
      by rewrite Hm'.
  - intros k m Hin. destruct (Hmem k m Hin) as (m' & Hm' & _ & Hb' & _). exists m'. split_and!; [done|done|]. apply members_after_in. exists m. by rewrite Hm'.
Qed.

Lemma blob_either i b : bs !! N.to_nat i = Some b -> unavailable b = false -> (exists b', bs' !! N.to_nat i = Some b' /\ unavailable b' = true) \/ live_blob i b /\ ~ tombstoned cs i.
Proof.
  intros Hb Hl. destruct (blob_after i b Hb) as [[_ H]|[Hno _]]; [left|by right]. exists (tombstoned_blob b). split; [done|].
  apply (tombstones_dead b (mkObjectPackMemberRecord 0 0 0 0 0 0) (mkObjectPackRecord 0 0 0 0 0 0 0 0)).
Qed.

Lemma doubled_after k m m' b f : doubled bs ps ms k m b f -> blob_index m' = blob_index m -> ~ tombstoned cs (blob_index m) -> doubled bs' ps' ms' k m' b f.
Proof. intros (Hl & Hk & Hf) Hi Hno. unfold doubled. rewrite Hi. split_and!; [by apply live_after|done|by apply fallback_after]. Qed.

Lemma recoverable_after k m m' : recoverable bs ps ms k m -> blob_index m' = blob_index m -> recoverable bs' ps' ms' k m'.
Proof.
  intros (b & Hb & Hcase) Hi. unfold recoverable. rewrite Hi.
  assert (unavailable b = false -> ~ tombstoned cs (blob_index m) -> bs' !! N.to_nat (blob_index m) = Some b) as Hsame.
  { intros _ Hno. by destruct (blob_after _ _ Hb) as [[? _]|[_ H]]. }
  destruct (unavailable b) eqn:Hdead.
  { destruct (blob_after _ _ Hb) as [[_ H]|[_ H]]; (eexists; split; [exact H|left]); [|done].
    apply (tombstones_dead b (mkObjectPackMemberRecord 0 0 0 0 0 0) (mkObjectPackRecord 0 0 0 0 0 0 0 0)). }
  destruct (blob_either _ _ Hb Hdead) as [(b' & Hb' & Hd)|[Hl Hno]]; [exists b'; split; [done|by left]|]. exists b. split; [by apply Hsame|right].
  destruct Hcase as [|[(k' & _ & Hk' & Hne & Ho)|(f & Hd)]]; [done|left|right].
  - exists k'. split_and!; try done. assert (authoritative (blob_index m) b) as Ha by (split; [done|by exists k']).
    destruct (authoritative_after _ _ Ha Hno) as (_ & k0 & Hk0 & Ho'). congruence.
  - exists f. by apply (doubled_after k m).
Qed.

Lemma needed_after k m m' : needed bs k m -> blob_index m' = blob_index m -> needed bs' k m'.
Proof.
  intros (b & Hl & Hk & Hnone) Hi. exists b. rewrite Hi. split_and!; [|done|].
  - apply live_after. split; [done|]. intros (b0 & f & Hp). destruct (gone_blob _ _ _ Hp) as [Hl0 Hf].
    assert (b0 = b) as -> by (destruct Hl0, Hl; congruence). by apply (first_not_none bs ps ms (blob_index m) b f).
  - intros g bg Hg [Hlg _]%live_after. by apply (Hnone g).
Qed.

(** A reference into a pack that stays is one by a blob that stays. *)
Lemma referenced_after k m : referenced bs k -> ms !! N.to_nat k = Some m -> ~ gone_pack (pack_index m) -> referenced bs' k.
Proof.
  intros (i & b & Hl & Hk) Hm Hno. exists i, b. split; [|done]. apply live_after. split; [done|]. intros (b0 & f & c & Hc & Hin).
  destruct (candidate_in c Hc) as [(_ & Hs & Htombs & _)%candidate_sound _]. destruct (Htombs _ _ _ Hin) as (Hl0 & _ & k0 & m0 & Hmem & _ & Hptr).
  assert (b0 = b) as -> by (destruct Hl0, Hl; congruence). assert (k0 = k) as -> by (destruct Hptr; congruence).
  destruct (proj1 (Forall_forall _ _) (so_members _ _ _ _ _ Hs) _ Hmem) as (Hm0 & _ & Hq). cbn [fst snd] in *. apply Hno. exists c. split; [done|]. congruence.
Qed.

Lemma candidates_after q : N.to_nat q < length ps' -> exists o, candidate_of' q o /\ forall c, o = Some c -> spares pinned c = false.
Proof.
  intros Hq. destruct (lookup_lt_is_Some_2 ps (N.to_nat q)) as [p Hp]; [unfold pruned_packs in Hq; by rewrite length_overwrite_all in Hq|].
  destruct (pack_after q p Hp) as [[_ Hp']|[Hno Hp']].
  { exists None. split; [|done]. apply (dead_pack _ _ _ _ (tombstoned_pack p)); [done|].
    apply (tombstones_dead (mkBlobRecord 0 0 0 0 0 0 0 []) (mkObjectPackMemberRecord 0 0 0 0 0 0) p). }
  destruct plan_parts as (all & rs0 & [Hall _]%candidates_found & _ & Hcs & _). destruct (Hall q) as (o & Ho & Hin); [by eapply lookup_lt_Some|].
  inversion Ho as [p0 Hp0 Ht|p0 l Hs Hneed Href|p0 l T format path falls Hs Hrec HT Hof Hformat Hpath]; subst o.
  - exists None. split; [|done]. apply (dead_pack _ _ _ _ p0); [congruence|done].
  - exists None. split; [|done]. destruct (sound_after q p0 l Hs Hno) as [Hs' Hmem]. apply (needed_pack _ _ _ _ p0 (members_after l)); [done| |].
    + destruct Hneed as (pre & k & m & post & -> & Hpre & Hn). destruct (Hmem k m ltac:(set_solver)) as (m' & Hm' & Hi & _).
      exists (members_after pre), k, m', (members_after post). split_and!; [unfold members_after; rewrite map_app; cbn; by rewrite Hm'| |by eapply needed_after].
      apply Forall_forall. intros [k1 m1'] (m1 & Hin1 & ->)%members_after_in. destruct (Hmem k1 m1) as (m1' & Hm1' & Hi1 & _); [set_solver|]. rewrite Hm1'.
      apply (recoverable_after k1 m1); [|done]. exact (proj1 (Forall_forall _ _) Hpre _ Hin1).
    + apply Forall_forall. intros [k1 m1'] (m1 & Hin1 & ->)%members_after_in. pose proof (proj1 (Forall_forall _ _) Href _ Hin1) as Hr. cbn [fst] in *.
      destruct (proj1 (Forall_forall _ _) (so_members _ _ _ _ _ Hs) _ Hin1) as (Hm1 & _ & Hq1). cbn [fst snd] in *. eapply referenced_after; [done|done|by rewrite Hq1].
  - destruct (sound_after q p0 l Hs Hno) as [Hs' Hmem].
    assert (Forall (fun km => recoverable bs' ps' ms' (fst km) (snd km)) (members_after l)) as Hrec'.
    { apply Forall_forall. intros [k1 m1'] (m1 & Hin1 & ->)%members_after_in. destruct (Hmem k1 m1 Hin1) as (m1' & Hm1' & Hi1 & _). cbn [fst snd default]. rewrite Hm1'.
      apply (recoverable_after k1 m1); [|done]. exact (proj1 (Forall_forall _ _) Hrec _ Hin1). }
    destruct (recovery_total bs' ps' ms' EmptyString (members_after l) ∅ ∅ Hrec') as [[tombs falls'] Hrun].
    destruct (recovery_some _ _ _ _ _ _ _ _ _ Hrun) as (_ & T' & -> & HT' & Hof'); [by intros ? ? ?; rewrite lookup_empty|].
    eexists. split; [by eapply (orphan_pack _ _ _ _ p0 (members_after l) T' _ path falls')|]. intros c [= <-].
    unfold spares. cbn [blob_tombstones]. apply negb_false_iff, existsb_exists.
    (* the pack was a candidate, so a pinned blob kept it *)
    assert (spares pinned (mkOrphan q (object_pack_id_from_hash48 (object_pack_hash48 p0)) path p0 l (tomb_list T) falls) = false) as Hspare.
    { destruct (spares _ _) eqn:E; [|done]. destruct Hno. exists (mkOrphan q (object_pack_id_from_hash48 (object_pack_hash48 p0)) path p0 l (tomb_list T) falls). split; [|done]. rewrite Hcs, list_elem_of_In, filter_In, <- list_elem_of_In. split; [|exact E]. by apply Hin. }
    unfold spares in Hspare. cbn [blob_tombstones] in Hspare. apply negb_false_iff, existsb_exists in Hspare as ([[i b] f] & Hi & Hpin%bool_decide_eq_true).
    apply list_elem_of_In, elem_of_tomb_list in Hi. destruct (proj1 (Hof i)) as [[? Hnone]|(k & m & b1 & f1 & Hkm & <- & Hd)]; [by eexists|by rewrite lookup_empty in Hnone|].
    destruct (Hmem k m Hkm) as (m' & _ & Hi' & Hkm'). pose proof (doubled_after k m m' b1 f1 Hd Hi' (pinned_stays _ Hpin)) as Hd'.
    destruct (proj2 (Hof' (blob_index m))) as [[b2 f2] H2]; [right; by exists k, m', b1, f1|]. exists (blob_index m, b2, f2).
    split; [by apply list_elem_of_In, elem_of_tomb_list|]. by apply bool_decide_eq_true.
Qed.

Lemma plan_again : value (pinned_plan (K := list_catalog bs' ps' ms') pinned) = Ok (mkPrunePlan [] []).
Proof.
  destruct (candidates_total bs' ps' ms' (fun c => spares pinned c = false)) as (all & Hall & Hspares).
  { intros q Hq. destruct (candidates_after q Hq) as (o & Ho & Hs). exists o. split; [done|]. intros c Hc falls. exact (Hs c Hc). }
  assert (List.filter (spares pinned) all = []) as Hnil.
  { clear Hall. induction Hspares as [|c all Hc _ IH]; [done|]. cbn [List.filter]. by rewrite Hc. }
  assert (forall k m j, ms' !! N.to_nat k = Some m -> member_is_tombstone m = false -> base_blob_index m = Some j -> exists b, bs' !! N.to_nat j = Some b /\ unavailable b = false) as Hbases.
  { intros k m j Hm Ht Hj. destruct (base_after k m j Hm Ht Hj) as (_ & _ & _ & b & _ & _ & _ & [Hb Hl] & _). by exists b. }
  destruct (rewrites_total bs' ps' ms' all) as (rs1 & Hrs1 & _).
  { intros k m j Hm _ Ht Hj. destruct (Hbases k m j Hm Ht Hj) as (b & Hb & Hl). exists b. split; [done|].
    destruct (decide (j ∈ dom (planned_fallback_by_blob_index all))) as [Hp|Hp]; rewrite elem_of_planned in Hp; [right|by left]. split; [done|].
    intros b' f (c & Hc & Hin). apply candidates_found in Hall as [_ Hall]. destruct (candidate_sound _ _ _ _ _ (Hall c Hc)) as (_ & _ & Htombs & _).
    destruct (Htombs _ _ _ Hin) as ([Hb' _] & (_ & (bf & Ha & Hid) & _) & _). exists bf. split; [done|]. congruence. }
  destruct (rewrites_total bs' ps' ms' []) as (rs2 & Hrs2 & Hempty).
  { intros k m j Hm _ Ht Hj. destruct (Hbases k m j Hm Ht Hj) as (b & Hb & Hl). exists b. split; [done|]. left. split; [done|]. by intros (b' & f & c & Hc%elem_of_nil & _). }
  unfold pinned_plan, binary_db_orphan_pack_prune_plan_from_write, retain_pinned. plan_eval. rewrite Hall. plan_eval. rewrite Hrs1. plan_eval.
  cbn [candidates]. rewrite Hnil. plan_eval. rewrite Hrs2. plan_eval. rewrite Hempty; [done|]. by intros j (b' & f & c & Hc%elem_of_nil & _).
Qed.
End Prune.

(** ** The properties *)

(** Every live blob is found in a live pack, live packs have their members, and
    live members have live bases. *)
Record catalog_ok (bs : list BinaryBlobRecord) (ps : list BinaryObjectPackRecord) (ms : list BinaryObjectPackMemberRecord) : Prop := {
  co_blobs : forall i b, live_blob bs i b -> authoritative bs ps ms i b;
  co_packs : forall q p, ps !! N.to_nat q = Some p -> object_pack_is_tombstone p = false -> exists l, pack_sound ps ms q p l;
  co_bases : forall k m j, ms !! N.to_nat k = Some m -> member_is_tombstone m = false -> base_blob_index m = Some j -> exists b, live_blob bs j b
}.

(** C15. Pruning loses no content: whatever the catalogue is, when a plan for it is
    found, then a blob that a live pack held before has, after the plan was
    applied, a live blob of the same kind, size and hash in a live pack; it is
    the blob itself when that is pinned, and one of an earlier index otherwise. *)
Theorem prune_keeps_content bs ps ms pinned plan : value (pinned_plan (K := list_catalog bs ps ms) pinned) = Ok plan ->
  forall i b, authoritative bs ps ms i b -> exists f bf, (f <= i)%N /\ blob_identity bf = blob_identity b /\ (i ∈ pinned -> f = i) /\
    authoritative (pruned_blobs plan bs) (pruned_packs plan ps) (pruned_members plan ms) f bf.
Proof.
  intros Hplan i b Ha. destruct (decide (i ∈ dom (planned_fallback_by_blob_index (candidates plan)))) as [Hp|Hno]; rewrite elem_of_planned in *.
  - destruct Hp as (b' & f & Hp). destruct (gone_blob bs ps ms pinned plan Hplan _ _ _ Hp) as [[Hb' _] Hf].
    assert (b' = b) as -> by (destruct Ha as [[] _]; congruence). pose proof Hf as ([_ Hlt] & (bf & Haf & Hid) & _). exists f, bf. split_and!; [lia|done| |].
    + intros Hpin. destruct (pinned_stays bs ps ms pinned plan Hplan i Hpin). by exists b, f.
    + apply (authoritative_after bs ps ms pinned plan Hplan f bf Haf). by eapply fallback_stays.
  - exists i, b. split_and!; [lia|done|done|]. by apply (authoritative_after bs ps ms pinned plan Hplan).
Qed.

(** C16. The catalogue is in order after a prune: when every live blob was found in
    a live pack before, this is so afterwards, live packs still have all their
    members, and the base of every live member is a live blob, with the
    content that its base had before. *)
Theorem prune_keeps_catalog bs ps ms pinned plan : value (pinned_plan (K := list_catalog bs ps ms) pinned) = Ok plan ->
  (forall i b, live_blob bs i b -> authoritative bs ps ms i b) ->
  let bs' := pruned_blobs plan bs in let ps' := pruned_packs plan ps in let ms' := pruned_members plan ms in
  catalog_ok bs' ps' ms' /\
  forall k m' j, ms' !! N.to_nat k = Some m' -> member_is_tombstone m' = false -> base_blob_index m' = Some j ->
    exists m j0 b0 b, ms !! N.to_nat k = Some m /\ base_blob_index m = Some j0 /\ bs !! N.to_nat j0 = Some b0 /\ live_blob bs' j b /\ blob_identity b = blob_identity b0.
Proof.
  intros Hplan Hall bs' ps' ms'. split; [split|exact (base_after bs ps ms pinned plan Hplan)].
  - intros i b [Hl Hno]%(live_after bs ps ms pinned plan Hplan). by apply (authoritative_after bs ps ms pinned plan Hplan); [apply Hall|].
  - intros q p Hp Hl. destruct (pack_stays bs ps ms pinned plan Hplan q p Hp Hl) as [Hp0 Hno].
    destruct (plan_parts bs ps ms pinned plan Hplan) as (all & rs0 & [H _]%candidates_found & _). destruct (H q) as (o & Ho & _); [by eapply lookup_lt_Some|].
    inversion Ho as [p0 Hp1 Ht|p0 l Hs _ _|p0 l T format path falls Hs]; subst; [congruence|..];
      pose proof (so_pack _ _ _ _ _ Hs); assert (p0 = p) as -> by congruence; exists (members_after ms plan l); by apply (sound_after bs ps ms pinned plan Hplan).
  - intros k m j Hm Hl Hj. destruct (base_after bs ps ms pinned plan Hplan k m j Hm Hl Hj) as (_ & _ & _ & b & _ & _ & _ & Hb & _). by exists b.
Qed.

(** C17. One prune is enough: in the catalogue that it leaves, planning finds no
    pack and no pointer to change, with the same pinned blobs. *)
Theorem prune_settles bs ps ms pinned plan : value (pinned_plan (K := list_catalog bs ps ms) pinned) = Ok plan ->
  value (pinned_plan (K := list_catalog (pruned_blobs plan bs) (pruned_packs plan ps) (pruned_members plan ms)) pinned) = Ok (mkPrunePlan [] []).
Proof. apply plan_again. Qed.

(** ** An example *)

(** Two packs hold the same blob, and a member of a third uses the later copy as
    its base. *)
Definition example_copy (sha : bytes) (member : N) : BinaryBlobRecord := mkBlobRecord 0 1 0 5 (member + 1) 0 0 sha.
Definition example_blobs : list BinaryBlobRecord := [example_copy [Byte.x01] 0; example_copy [Byte.x01] 1; example_copy [Byte.x02] 2].
Definition example_packs : list BinaryObjectPackRecord :=
  [mkObjectPackRecord 1 1 0 7 0 1 0 0; mkObjectPackRecord 1 1 0 8 1 1 0 0; mkObjectPackRecord 1 1 0 9 2 1 0 0].
Definition example_rows : list BinaryObjectPackMemberRecord :=
  [mkObjectPackMemberRecord 8 0 0 0 0 0; mkObjectPackMemberRecord 8 0 0 1 1 0; mkObjectPackMemberRecord 9 1 0 2 2 2].
Definition example_prune (pinned : gset N) : result prune_error BinaryDbOrphanPackPrunePlan :=
  value (pinned_plan (K := list_catalog example_blobs example_packs example_rows) pinned).

Example example_plan : (fun plan => (map orphan_pack_index (candidates plan), map (fun r => (rewrite_member_index r, fallback_blob_index r)) (base_pointer_rewrites plan)))
  <$> example_prune ∅ = Ok ([1%N], [(2, 0)%N]).
Proof. vm_compute. reflexivity. Qed.
Example example_pinned : example_prune {[1%N]} = Ok (mkPrunePlan [] []).
Proof. vm_compute. reflexivity. Qed.

Lemma example_owned (k : nat) : k < 3 -> owned example_packs example_rows (N.of_nat k) (N.of_nat k).
Proof. intros Hk. destruct k as [|[|[|k]]]; [..|lia]; eexists _, _; repeat split; vm_compute; by congruence. Qed.
Lemma example_found i b : live_blob example_blobs i b -> authoritative example_blobs example_packs example_rows i b.
Proof.
  intros [Hb Hl]. split; [done|]. rewrite <- (N2Nat.id i). pose proof (lookup_lt_Some _ _ _ Hb) as Hi. exists (N.of_nat (N.to_nat i)). split; [|by apply example_owned].
  destruct (N.to_nat i) as [|[|[|n]]]; cbn in Hi; [..|lia]; injection Hb as <-; done.
Qed.

Lemma prune_keeps_content_witness : exists plan, example_prune ∅ = Ok plan /\ exists f bf, (f <= 1)%N /\ blob_identity bf = (1%N, 5%N, [Byte.x01]) /\
  authoritative (pruned_blobs plan example_blobs) (pruned_packs plan example_packs) (pruned_members plan example_rows) f bf.
Proof.
  pose proof example_plan as Hp. destruct (example_prune ∅) as [plan|e] eqn:Hplan; [|discriminate Hp]. exists plan. split; [reflexivity|].
  destruct (prune_keeps_content example_blobs example_packs example_rows ∅ plan Hplan 1 (example_copy [Byte.x01] 1)) as (f & bf & Hf & Hid & _ & Ha).
  - apply example_found. split; reflexivity.
  - exists f, bf. exact (conj Hf (conj Hid Ha)).
Defined.

Lemma prune_keeps_catalog_witness : exists plan, example_prune ∅ = Ok plan /\
  catalog_ok (pruned_blobs plan example_blobs) (pruned_packs plan example_packs) (pruned_members plan example_rows).
Proof.
  pose proof example_plan as Hp. destruct (example_prune ∅) as [plan|e] eqn:Hplan; [|discriminate Hp]. exists plan. split; [reflexivity|].
  exact (proj1 (prune_keeps_catalog example_blobs example_packs example_rows ∅ plan Hplan example_found)).
Defined.

Lemma prune_settles_witness : exists plan, example_prune ∅ = Ok plan /\
  value (pinned_plan (K := list_catalog (pruned_blobs plan example_blobs) (pruned_packs plan example_packs) (pruned_members plan example_rows)) ∅) = Ok (mkPrunePlan [] []).
Proof.
  pose proof example_plan as Hp. destruct (example_prune ∅) as [plan|e] eqn:Hplan; [|discriminate Hp]. exists plan. split; [reflexivity|].
  exact (prune_settles example_blobs example_packs example_rows ∅ plan Hplan).
Defined.
