(* ===== verification/PruneFiles.v ===== *)
(** * Pruning the files

    What [gc prune] does to files that hold a catalogue: its plan is the one over
    the lists of records, the record files hold the pruned catalogue afterwards, the
    archives of the pruned packs are gone, and nothing else changes. *)

From Stdlib Require Import NArith Lia.
From Stdlib Require Strings.Byte.
From stdpp Require Import base numbers strings gmap list sorting.
From S2P Require Import Prelude Codec Json FileStore BinaryDb RecordTable BinaryIndex ReadTxn WriteTxn PayloadFile QuietTxn ContentCodec ContentIds ContentStore.
From S2P Require Import PackCodec PackIndex PackContainer TreeStore TreeReads TreeEntries BlobStore BlobContents PackPrune PrunePlan PruneKeeps StillReads.

Local Abbreviation L := BINARY_DB_CONTENT_LAYOUT_ID.

(** ** Plans through a true catalogue *)

(** In the states [good] the catalogue answers what the lists say. *)
Class TrueCatalog {S : Type} (K : Catalog S) (good : S -> Prop) (bs : list BinaryBlobRecord) (ps : list BinaryObjectPackRecord)
  (ms : list BinaryObjectPackMemberRecord) : Prop := {
  true_blob_count : answers good blob_count (Ok (N.of_nat (length bs)));
  true_blob i : answers good (blob_at i) (ok_or (bs !! N.to_nat i) (StoreError MissingData));
  true_pack_count : answers good pack_count (Ok (N.of_nat (length ps)));
  true_pack i : answers good (pack_at i) (ok_or (ps !! N.to_nat i) (StoreError MissingData));
  true_member_count : answers good catalog_member_count (Ok (N.of_nat (length ms)));
  true_member i : answers good (member_at i) (ok_or (ms !! N.to_nat i) (StoreError MissingData))
}.

Section Answers.
Context {S : Type} {K : Catalog S} {good : S -> Prop} {bs : list BinaryBlobRecord} {ps : list BinaryObjectPackRecord} {ms : list BinaryObjectPackMemberRecord}.
Context {TC : TrueCatalog K good bs ps ms}.

Local Abbreviation lists := (list_catalog bs ps ms).

(** [m] answers what [m'] gives over the lists. *)
Definition follows {A : Type} (m : stateful S prune_error A) (m' : stateful unit prune_error A) : Prop := answers good m (value m').

Lemma follows_ret {A : Type} (a : A) : follows (mret a) (mret a).
Proof. apply answers_ret. Qed.
Lemma follows_lift {A : Type} (r : result prune_error A) : follows (lift r) (lift r).
Proof. apply answers_lift. Qed.
Lemma follows_bind {A B : Type} (m : stateful S prune_error A) m' (k : A -> stateful S prune_error B) k' : follows m m' -> (forall a, follows (k a) (k' a)) ->
  follows (m ≫= k) (m' ≫= k').
Proof.
  intros Hm Hk. unfold follows. rewrite value_bind. apply (answers_bind good m k (value m')); [done|]. destruct (value m') as [a|e]; [apply Hk|done].
Qed.
Lemma follows_attempt {A : Type} (m : stateful S prune_error A) m' : follows m m' -> follows (attempt m) (attempt m').
Proof.
  intros Hm s Hs. destruct (Hm s Hs) as (s' & Hrun & Hs'). exists s'. split; [|done]. rewrite value_attempt. unfold attempt. by rewrite Hrun.
Qed.

Lemma follows_blob_count : follows blob_count (blob_count (Catalog := lists)).
Proof. apply true_blob_count. Qed.
Lemma follows_blob i : follows (blob_at i) (blob_at (Catalog := lists) i).
Proof. apply true_blob. Qed.
Lemma follows_pack_count : follows pack_count (pack_count (Catalog := lists)).
Proof. apply true_pack_count. Qed.
Lemma follows_pack i : follows (pack_at i) (pack_at (Catalog := lists) i).
Proof. apply true_pack. Qed.
Lemma follows_member_count : follows catalog_member_count (catalog_member_count (Catalog := lists)).
Proof. apply true_member_count. Qed.
Lemma follows_member i : follows (member_at i) (member_at (Catalog := lists) i).
Proof. apply true_member. Qed.

(** Walks through both sides. *)
Ltac follow :=
  repeat match goal with
  | |- follows (_ ≫= _) _ => apply follows_bind; [|intros ?]
  | |- follows (mret _) _ => apply follows_ret
  | |- follows (lift _) _ => apply follows_lift
  | |- follows (attempt _) _ => apply follows_attempt
  | |- follows (match ?x with _ => _ end) _ => destruct x
  | |- follows blob_count _ => apply follows_blob_count
  | |- follows (blob_at _) _ => apply follows_blob
  | |- follows pack_count _ => apply follows_pack_count
  | |- follows (pack_at _) _ => apply follows_pack
  | |- follows catalog_member_count _ => apply follows_member_count
  | |- follows (member_at _) _ => apply follows_member
  end.

Lemma follows_valid k i packs members : follows (binary_db_validate_authoritative_member k i packs members) (binary_db_validate_authoritative_member (K := lists) k i packs members).
Proof. unfold binary_db_validate_authoritative_member. follow. Qed.

Lemma follows_gather {A : Type} (round : N -> stateful S prune_error (option A)) round' n i : (forall j, follows (round j) (round' j)) -> follows (gather round n i) (gather round' n i).
Proof. intros H. revert i. induction n as [|n IH]; intros i; cbn [gather]; follow; [apply H|apply IH]. Qed.

Lemma follows_blobs n i : follows (blobs_from n i) (blobs_from (K := lists) n i).
Proof. revert i. induction n as [|n IH]; intros i; cbn [blobs_from]; follow. apply IH. Qed.

Lemma follows_earlier i b packs members n earlier invalid :
  follows (earlier_fallback i b packs members n earlier invalid) (earlier_fallback (K := lists) i b packs members n earlier invalid).
Proof.
  revert n invalid. induction earlier as [|x earlier IH]; intros n invalid; cbn [earlier_fallback]; [apply follows_lift|].
  destruct (_ || _); [apply IH|]. destruct (pack_member_index x); [|apply IH]. apply follows_bind; [apply follows_attempt, follows_valid|]. intros []; follow. apply IH.
Qed.

Lemma follows_recovery pid blobs packs members l T F :
  follows (recovery_loop pid blobs packs members l T F) (recovery_loop (K := lists) pid blobs packs members l T F).
Proof.
  revert T F. induction l as [|[k m] l IH]; intros T F; cbn [recovery_loop]; [apply follows_ret|]. apply follows_bind; [apply follows_lift|]. intros b.
  destruct (unavailable b); [apply IH|].
  assert (forall current : option N, follows
    (fallback ← binary_db_find_earlier_blob_fallback (blob_index m) b blobs packs members;
     match fallback with
     | Some fallback0 => recovery_loop pid blobs packs members l (<[blob_index m:=(b, fallback0)]> T) ({[fallback0]} ∪ F)
     | None => _ ← lift (fail_if (negb (is_some current)) (OnlyCatalogCopy pid k (blob_index m))); mret None
     end)
    (fallback ← binary_db_find_earlier_blob_fallback (K := lists) (blob_index m) b blobs packs members;
     match fallback with
     | Some fallback0 => recovery_loop (K := lists) pid blobs packs members l (<[blob_index m:=(b, fallback0)]> T) ({[fallback0]} ∪ F)
     | None => _ ← lift (fail_if (negb (is_some current)) (OnlyCatalogCopy pid k (blob_index m))); mret None
     end)) as Hplanned.
  { intros current. apply follows_bind; [apply follows_earlier|]. intros [f|]; [apply IH|follow]. }
  destruct (pack_member_index b) as [k'|]; [|apply (Hplanned None)]. destruct (_ =? _)%N; [apply (Hplanned (Some k'))|].
  apply follows_bind; [apply follows_valid|]. intros _. apply IH.
Qed.

Lemma follows_members pid q n first : follows (pack_members pid q n first) (pack_members (K := lists) pid q n first).
Proof. revert first. induction n as [|n IH]; intros first; cbn [pack_members]; follow. apply IH. Qed.

Lemma follows_candidate blobs packs members q : follows (pack_candidate blobs packs members q) (pack_candidate (K := lists) blobs packs members q).
Proof. unfold pack_candidate, binary_db_pack_recovery_plan. follow; [apply follows_members|apply follows_recovery]. Qed.

Lemma follows_active k j blobs packs members l e :
  follows (active_fallback k j blobs packs members l e) (active_fallback (K := lists) k j blobs packs members l e).
Proof.
  revert e. induction l as [|f l IH]; intros e; cbn [active_fallback]; [apply follows_lift|]. destruct (_ ≫= _); [|apply IH].
  apply follows_bind; [apply follows_attempt, follows_valid|]. intros []; follow. apply IH.
Qed.

Lemma follows_rewrite cs blobs packs members k : follows (member_rewrite cs blobs packs members k) (member_rewrite (K := lists) cs blobs packs members k).
Proof. unfold member_rewrite. cbv zeta. follow; first [apply follows_active | apply follows_valid]. Qed.

Lemma follows_rewrites cs : follows (binary_db_base_blob_pointer_rewrites cs) (binary_db_base_blob_pointer_rewrites (K := lists) cs).
Proof. unfold binary_db_base_blob_pointer_rewrites. follow; [apply follows_blobs|]. apply follows_gather. intros k. apply follows_rewrite. Qed.

Lemma follows_plan pinned : follows (pinned_plan pinned) (pinned_plan (K := lists) pinned).
Proof.
  unfold pinned_plan, binary_db_orphan_pack_prune_plan_from_write, retain_pinned, binary_db_orphan_object_pack_candidates, all_blobs.
  follow; first [apply follows_blobs | apply follows_rewrites | idtac]. apply follows_gather. intros q. apply follows_candidate.
Qed.
End Answers.

(** ** Rows in write transactions *)

Section Rows.
Context {R : Type} {C : RecordCodec content_error R} {LC : LawfulRecordCodec content_error R}.
Context (fs : LocalBinaryDbFs) (name : string) (path : PathBuf) (paths : list PathBuf) {du : gmap PathBuf bytes}.
Context (Hpath : file_path_for fs name = Ok path) (Hsupported : supported_layout L = true) (Hin : path ∈ paths) (Hfam : for_relative_path name = ContentFamily).
Context (Hpos : 0 < codec_size L) (Hmax : (N.of_nat (codec_size L) <= u32_max)%N).

Local Abbreviation file := (mkFileId name L (N.of_nat (codec_size L))).
Local Abbreviation holds := (holds_records name path).

Lemma holds_table_rows d rs : holds d rs -> (N.of_nat (length rs) <= u32_max)%N /\ Forall (record_ok L) rs /\
  exists rows, holds_table file path d rows /\ length rows = length rs /\ Forall2 (fun r row => encode_record L r = Ok row) rs rows.
Proof.
  intros (Hcount & Hok & rows & Hd & Hrows). split; [done|]. split; [done|]. exists rows. split_and!; [|symmetry; by eapply Forall2_length|done].
  split; [|by left]. apply Forall_lookup. intros i row Hi. destruct (Forall2_lookup_r _ _ _ _ _ Hrows Hi) as (r & Hr & Henc).
  destruct (encode_decode L r Hsupported (Forall_lookup_1 _ _ _ _ Hok Hr)) as (raw & H1 & H2 & _). cbn [record_size]. congruence.
Qed.

Lemma answers_count d was rs : holds d rs ->
  answers (unwritten paths [] (du := du) d was) (map_error StoreError (txn_record_count fs file)) (Ok (N.of_nat (length rs))).
Proof.
  intros (Hcount & _ & rows & Ht & Hlen & _)%holds_table_rows t [Hc Hwas]. exists t. split; [|by split]. unfold txn_record_count, map_error, on_files.
  rewrite (ca_files _ _ _ _ Hc). rewrite (count_run fs file path Hpath) with (rows := rows); [|cbn; lia|exact Hmax|by vm_compute|exact Ht|lia].
  rewrite <- (ca_files _ _ _ _ Hc), Hlen. by destruct t.
Qed.

Lemma answers_row d was rs i : holds d rs ->
  answers (unwritten paths [] (du := du) d was) (catalog_record fs L file decode_record i) (ok_or (rs !! N.to_nat i) (StoreError MissingData)).
Proof.
  intros (Hcount & Hok & rows & Ht & Hlen & Hrows)%holds_table_rows. unfold catalog_record.
  eapply answers_bind; [apply answers_map_error, (answers_record fs paths [] d was file path rows i Hpath); [cbn; lia|by vm_compute|exact Ht|lia]|].
  destruct (rows !! N.to_nat i) as [row|] eqn:Hi; cbn [map_err].
  - destruct (Forall2_lookup_r _ _ _ _ _ Hrows Hi) as (r & Hr & Henc). rewrite Hr.
    destruct (encode_decode L r Hsupported (Forall_lookup_1 _ _ _ _ Hok Hr)) as (raw & H1 & _ & H3). assert (raw = row) as -> by congruence. rewrite H3. apply answers_lift.
  - apply lookup_ge_None in Hi. by rewrite lookup_ge_None_2 by lia.
Qed.

(** Overwriting a row. *)
Lemma works_row d rs i new : holds d rs -> is_Some (rs !! N.to_nat i) -> record_ok L new -> exists d',
  works paths [] (du := du) d (overwrite_with fs L file encode_record i new) tt d' /\ holds d' (<[N.to_nat i := new]> rs) /\ forall p, p <> path -> d' !! p = d !! p.
Proof.
  intros H [old Hold] Hnew. destruct (holds_table_rows d rs H) as (Hcount & Hok & rows & Ht & Hlen & Hrows).
  destruct (encode_decode L new Hsupported Hnew) as (raw & Hraw & Hsize & _). destruct (Forall2_lookup_l _ _ _ _ _ Hrows Hold) as (row & Hrow & _).
  exists (<[path := table_bytes file (<[N.to_nat i := raw]> rows)]> d). split_and!.
  - unfold overwrite_with. eapply works_bind; [by apply works_lift; rewrite Hraw|]. apply works_map_error.
    apply (works_overwrite fs paths []) with (row := row); [done|done|cbn; lia|by vm_compute|done|apply not_elem_of_nil|done|lia|done|cbn; lia].
  - split; [by rewrite length_insert|]. split; [by apply Forall_insert|]. exists (<[N.to_nat i := raw]> rows). split; [apply lookup_insert_eq|]. by apply Forall2_insert.
  - intros p Hp. by apply lookup_insert_ne.
Qed.
End Rows.

Lemma fits_tombstone n : fits 1 n -> fits 1 (N.lor n META_TOMBSTONE).
Proof.
  unfold fits. change (256 ^ N.of_nat 1)%N with (2 ^ 8)%N. intros Hn. destruct (N.eq_dec (N.lor n META_TOMBSTONE) 0%N) as [->|Hne]; [done|].
  apply N.log2_lt_pow2; [lia|]. rewrite N.log2_lor. apply N.max_lub_lt; [|by vm_compute]. destruct (N.eq_dec n 0%N) as [->|Hnz]; [done|].
  apply N.log2_lt_pow2; [lia|done].
Qed.

Section Files.
Context (fs : LocalBinaryDbFs) (blob_path pack_path member_path : PathBuf).
Context (Hblob : file_path_for fs BLOB_BIN = Ok blob_path) (Hpack : file_path_for fs OBJECT_PACK_BIN = Ok pack_path).
Context (Hmember : file_path_for fs OBJECT_PACK_MEMBER_BIN = Ok member_path).

Definition catalog_paths : list PathBuf := [blob_path; pack_path; member_path].

(** The record files hold the catalogue. *)
Record holds_catalog (d : gmap PathBuf bytes) (bs : list BinaryBlobRecord) (ps : list BinaryObjectPackRecord) (ms : list BinaryObjectPackMemberRecord) : Prop := {
  hc_blobs : holds_records (C := blob_codec) BLOB_BIN blob_path d bs;
  hc_packs : holds_records (C := object_pack_codec) OBJECT_PACK_BIN pack_path d ps;
  hc_members : holds_records (C := object_pack_member_codec) OBJECT_PACK_MEMBER_BIN member_path d ms
}.

Lemma catalog_apart : blob_path <> pack_path /\ blob_path <> member_path /\ pack_path <> member_path.
Proof. split_and!; by eapply (names_apart fs). Qed.

Lemma holds_other {R : Type} {C : RecordCodec content_error R} name path d d' (rs : list R) : d' !! path = d !! path -> holds_records name path d rs -> holds_records name path d' rs.
Proof. intros H (H1 & H2 & rows & Hd & Hr). split; [done|]. split; [done|]. exists rows. by rewrite H. Qed.

Context {du : gmap PathBuf bytes}.

#[local] Instance true_write_catalog d was bs ps ms : holds_catalog d bs ps ms -> TrueCatalog (write_catalog fs L) (unwritten catalog_paths [] (du := du) d was) bs ps ms.
Proof.
  intros [H1 H2 H3]. split; cbn [blob_count blob_at pack_count pack_at catalog_member_count member_at write_catalog].
  - apply (answers_count (C := blob_codec) fs BLOB_BIN blob_path); codec_side.
  - intros i. apply (answers_row (C := blob_codec) fs BLOB_BIN blob_path); codec_side.
  - apply (answers_count (C := object_pack_codec) fs OBJECT_PACK_BIN pack_path); codec_side.
  - intros i. apply (answers_row (C := object_pack_codec) fs OBJECT_PACK_BIN pack_path); codec_side.
  - apply (answers_count (C := object_pack_member_codec) fs OBJECT_PACK_MEMBER_BIN member_path); codec_side.
  - intros i. apply (answers_row (C := object_pack_member_codec) fs OBJECT_PACK_MEMBER_BIN member_path); codec_side.
Qed.

Local Abbreviation works_ d m a d' := (works catalog_paths [] (du := du) d m a d').
Local Abbreviation same_elsewhere d d' := (forall p, p ∉ catalog_paths -> d' !! p = d !! p).

(** *** Single rows *)

Lemma works_blob d bs ps ms i b : holds_catalog d bs ps ms -> is_Some (bs !! N.to_nat i) -> record_ok (R := BinaryBlobRecord) L b -> exists d',
  works_ d (overwrite_with fs L (blob_file L) encode_blob_record i (tombstoned_blob b)) tt d' /\ holds_catalog d' (<[N.to_nat i := tombstoned_blob b]> bs) ps ms /\
  same_elsewhere d d'.
Proof.
  intros [H1 H2 H3] Hi (F1 & F). destruct catalog_apart as (A1 & A2 & A3).
  destruct (works_row (C := blob_codec) fs BLOB_BIN blob_path catalog_paths (du := du) Hblob eq_refl ltac:(left) eq_refl ltac:(codec_side) ltac:(codec_side) d bs i (tombstoned_blob b)) as (d' & Hw & Hh & Ho).
  - done.
  - done.
  - split; [|exact F]. by apply fits_tombstone.
  - exists d'. split; [exact Hw|]. split; [split; [done|by eapply holds_other; [apply Ho|]..]|]. intros p Hp. apply Ho. intros ->. apply Hp. left.
Qed.

Lemma works_pack d bs ps ms q p : holds_catalog d bs ps ms -> is_Some (ps !! N.to_nat q) -> record_ok (R := BinaryObjectPackRecord) L p -> exists d',
  works_ d (overwrite_with fs L (object_pack_file L) encode_object_pack_record q (tombstoned_pack p)) tt d' /\ holds_catalog d' bs (<[N.to_nat q := tombstoned_pack p]> ps) ms /\
  same_elsewhere d d'.
Proof.
  intros [H1 H2 H3] Hi (F1 & F). destruct catalog_apart as (A1 & A2 & A3).
  destruct (works_row (C := object_pack_codec) fs OBJECT_PACK_BIN pack_path catalog_paths (du := du) Hpack eq_refl ltac:(right; left) eq_refl ltac:(codec_side) ltac:(codec_side) d ps q (tombstoned_pack p))
    as (d' & Hw & Hh & Ho).
  - done.
  - done.
  - split; [|exact F]. by apply fits_tombstone.
  - exists d'. split; [exact Hw|]. split; [split; [by eapply holds_other; [apply Ho|]|done|by eapply holds_other; [apply Ho|]]|].
    intros x Hx. apply Ho. intros ->. apply Hx. right. left.
Qed.

Lemma works_member d bs ps ms k old new : holds_catalog d bs ps ms -> ms !! N.to_nat k = Some old -> record_ok (R := BinaryObjectPackMemberRecord) L new -> exists d',
  works_ d (overwrite_with fs L (object_pack_member_file L) encode_object_pack_member_record k new) tt d' /\ holds_catalog d' bs ps (<[N.to_nat k := new]> ms) /\
  same_elsewhere d d'.
Proof.
  intros [H1 H2 H3] Hi Hnew. destruct catalog_apart as (A1 & A2 & A3).
  destruct (works_row (C := object_pack_member_codec) fs OBJECT_PACK_MEMBER_BIN member_path catalog_paths (du := du) Hmember eq_refl ltac:(right; right; left) eq_refl ltac:(codec_side) ltac:(codec_side) d ms k new)
    as (d' & Hw & Hh & Ho).
  - done.
  - by eexists.
  - done.
  - exists d'. split; [exact Hw|]. split; [split; [by eapply holds_other; [apply Ho|]|by eapply holds_other; [apply Ho|]|done]|].
    intros x Hx. apply Ho. intros ->. apply Hx. right. right. left.
Qed.

(** *** The loops of an apply *)

Local Abbreviation tombs_of_all cs := (cs ≫= blob_tombstones).
Local Abbreviation tomb_index := (fun t : N * BinaryBlobRecord * N => fst (fst t)).

(** The rows that a plan writes exist, and its records can be encoded. *)
Definition rewrite_fits (ms : list BinaryObjectPackMemberRecord) (r : BinaryDbBaseBlobPointerRewrite) : Prop := is_Some (ms !! N.to_nat (rewrite_member_index r)) /\
  record_ok (R := BinaryObjectPackMemberRecord) L (rewrite_record r) /\ (fallback_blob_index r + 1 <= u32_max)%N.
Definition tomb_fits (bs : list BinaryBlobRecord) (t : N * BinaryBlobRecord * N) : Prop := is_Some (bs !! N.to_nat (tomb_index t)) /\ record_ok (R := BinaryBlobRecord) L (snd (fst t)).
Definition member_fits (ms : list BinaryObjectPackMemberRecord) (km : N * BinaryObjectPackMemberRecord) : Prop := is_Some (ms !! N.to_nat (fst km)) /\
  record_ok (R := BinaryObjectPackMemberRecord) L (snd km).
Definition pack_fits_ (ps : list BinaryObjectPackRecord) (c : BinaryDbOrphanObjectPack) : Prop := is_Some (ps !! N.to_nat (orphan_pack_index c)) /\
  record_ok (R := BinaryObjectPackRecord) L (orphan_record c).

Lemma is_Some_insert {A : Type} (l : list A) i j x : is_Some (l !! i) -> is_Some (<[j := x]> l !! i).
Proof. by rewrite !lookup_lt_is_Some, length_insert. Qed.
Lemma is_Some_overwrite {A B : Type} (row : A -> N) (new : A -> B) xs l i : is_Some (l !! i) -> is_Some (overwrite_all row new xs l !! i).
Proof. by rewrite !lookup_lt_is_Some, length_overwrite_all. Qed.

Lemma works_rewrites d bs ps ms rs : holds_catalog d bs ps ms -> Forall (rewrite_fits ms) rs -> exists d',
  works_ d (for_each (apply_rewrite fs L) rs) tt d' /\
  holds_catalog d' bs ps (overwrite_all rewrite_member_index (fun r => rebased_member (rewrite_record r) (fallback_blob_index r + 1)) rs ms) /\ same_elsewhere d d'.
Proof.
  revert d ms. induction rs as [|r rs IH]; intros d ms Hd Hall; [exists d; split; [apply works_ret|done]|].
  apply Forall_cons in Hall as [([old Hold] & Hr & Hf) Hall]. cbn [for_each overwrite_all].
  destruct (works_member d bs ps ms (rewrite_member_index r) old (rebased_member (rewrite_record r) (fallback_blob_index r + 1)) Hd Hold) as (d1 & Hw1 & Hd1 & Ho1).
  { destruct Hr as (F1 & F2 & F3 & F4 & F5 & F6). split_and!; try done. cbn. unfold fits, u32_max in *. change (256 ^ N.of_nat 4)%N with 4294967296%N. lia. }
  destruct (IH d1 _ Hd1) as (d2 & Hw2 & Hd2 & Ho2).
  { eapply Forall_impl; [exact Hall|]. intros x (Hx1 & Hx2). split; [by apply is_Some_insert|done]. }
  exists d2. split; [|split; [done|intros p Hp; by rewrite Ho2, Ho1]]. eapply works_bind; [|exact Hw2]. unfold apply_rewrite. eapply works_bind; [|exact Hw1].
  apply works_lift. by rewrite (proj2 (N.ltb_ge _ _)).
Qed.

Lemma works_tombstones d bs ps ms l X : holds_catalog d bs ps ms -> NoDup (map tomb_index l) -> Forall (fun t => tomb_index t ∉ X) l ->
  Forall (tomb_fits bs) l -> exists d',
  works_ d (apply_tombstones fs L l X) (list_to_set (map tomb_index l) ∪ X) d' /\
  holds_catalog d' (overwrite_all tomb_index (fun t => tombstoned_blob (snd (fst t))) l bs) ps ms /\ same_elsewhere d d'.
Proof.
  revert d bs X. induction l as [|[[i b] f] l IH]; intros d bs X Hd Hnd HX Hall.
  { exists d. split; [|done]. assert (list_to_set (map tomb_index []) ∪ X = X) as -> by set_solver. apply works_ret. }
  cbn [map fst snd] in Hnd. apply NoDup_cons in Hnd as [Hnew Hnd]. apply Forall_cons in HX as [Hi HX], Hall as [[Hold Hb] Hall]. cbn [fst snd] in *.
  destruct (works_blob d bs ps ms i b Hd Hold Hb) as (d1 & Hw1 & Hd1 & Ho1).
  assert (forall t, t ∈ l -> tomb_index t <> i) as Hother by (intros t Ht <-; apply Hnew, list_elem_of_fmap; by exists t).
  destruct (IH d1 _ ({[i]} ∪ X) Hd1 Hnd) as (d2 & Hw2 & Hd2 & Ho2).
  - rewrite Forall_forall in HX |- *. intros t Ht. specialize (HX t Ht). specialize (Hother t Ht). set_solver.
  - eapply Forall_impl; [exact Hall|]. intros t [Ht1 Ht2]. split; [by apply is_Some_insert|done].
  - exists d2. split; [|split; [done|intros p Hp; by rewrite Ho2, Ho1]]. cbn [apply_tombstones map fst].
    eapply works_bind; [apply works_lift; by rewrite bool_decide_eq_false_2|]. eapply works_bind; [exact Hw1|].
    assert (list_to_set (i :: map tomb_index l) ∪ X = list_to_set (map tomb_index l) ∪ ({[i]} ∪ X)) as -> by set_solver. exact Hw2.
Qed.

Lemma works_members d bs ps ms l : holds_catalog d bs ps ms -> Forall (member_fits ms) l -> exists d',
  works_ d (for_each (apply_member fs L) l) tt d' /\ holds_catalog d' bs ps (overwrite_all fst (fun km => tombstoned_member (snd km)) l ms) /\ same_elsewhere d d'.
Proof.
  revert d ms. induction l as [|[k m] l IH]; intros d ms Hd Hall; [exists d; split; [apply works_ret|done]|].
  apply Forall_cons in Hall as [[[old Hold] Hr] Hall]. cbn [for_each overwrite_all fst snd] in *.
  destruct (works_member d bs ps ms k old (tombstoned_member m) Hd Hold) as (d1 & Hw1 & Hd1 & Ho1).
  { destruct Hr as (F1 & F). split; [|exact F]. by apply fits_tombstone. }
  destruct (IH d1 _ Hd1) as (d2 & Hw2 & Hd2 & Ho2).
  { eapply Forall_impl; [exact Hall|]. intros x [Hx1 Hx2]. split; [by apply is_Some_insert|done]. }
  exists d2. split; [|split; [done|intros p Hp; by rewrite Ho2, Ho1]]. eapply works_bind; [exact Hw1|exact Hw2].
Qed.

Lemma overwrite_all_app {A B : Type} (row : A -> N) (new : A -> B) xs ys l : overwrite_all row new (xs ++ ys) l = overwrite_all row new ys (overwrite_all row new xs l).
Proof. revert l. induction xs as [|x xs IH]; intros l; [done|]. apply IH. Qed.

Lemma works_candidates d bs ps ms cs X : holds_catalog d bs ps ms -> NoDup (map tomb_index (tombs_of_all cs)) -> Forall (fun t => tomb_index t ∉ X) (tombs_of_all cs) ->
  Forall (tomb_fits bs) (tombs_of_all cs) -> Forall (member_fits ms) (cs ≫= orphan_members) -> Forall (pack_fits_ ps) cs -> exists X' d',
  works_ d (apply_candidates fs L cs X) X' d' /\
  holds_catalog d' (overwrite_all tomb_index (fun t => tombstoned_blob (snd (fst t))) (tombs_of_all cs) bs)
    (overwrite_all orphan_pack_index (fun c => tombstoned_pack (orphan_record c)) cs ps)
    (overwrite_all fst (fun km => tombstoned_member (snd km)) (cs ≫= orphan_members) ms) /\ same_elsewhere d d'.
Proof.
  revert d bs ps ms X. induction cs as [|c cs IH]; intros d bs ps ms X Hd Hnd HX Ht Hm Hp; [exists X, d; split; [apply works_ret|done]|].
  rewrite !bind_cons in *. rewrite map_app, NoDup_app in Hnd. destruct Hnd as (Hnd1 & Hapart & Hnd2). apply Forall_app in HX as [HX1 HX2], Ht as [Ht1 Ht2], Hm as [Hm1 Hm2].
  apply Forall_cons in Hp as [[Hpold Hprec] Hp]. rewrite !overwrite_all_app.
  destruct (works_tombstones d bs ps ms (blob_tombstones c) X Hd Hnd1 HX1 Ht1) as (d1 & Hw1 & Hd1 & Ho1).
  destruct (works_members d1 _ _ _ (orphan_members c) Hd1 Hm1) as (d2 & Hw2 & Hd2 & Ho2).
  destruct (works_pack d2 _ _ _ (orphan_pack_index c) (orphan_record c) Hd2 Hpold Hprec) as (d3 & Hw3 & Hd3 & Ho3).
  destruct (IH d3 _ _ _ (list_to_set (map tomb_index (blob_tombstones c)) ∪ X) Hd3 Hnd2) as (X' & d4 & Hw4 & Hd4 & Ho4).
  - apply Forall_forall. intros t Hin. pose proof (proj1 (Forall_forall _ _) HX2 t Hin). rewrite not_elem_of_union, elem_of_list_to_set. split; [|done].
    intros Hdup. apply (Hapart _ Hdup), list_elem_of_fmap. by exists t.
  - eapply Forall_impl; [exact Ht2|]. intros t [H1 H2]. split; [by apply is_Some_overwrite|done].
  - eapply Forall_impl; [exact Hm2|]. intros t [H1 H2]. split; [by apply is_Some_overwrite|done].
  - eapply Forall_impl; [exact Hp|]. intros t [H1 H2]. split; [by apply is_Some_insert|done].
  - exists X', d4. split; [|split; [exact Hd4|intros p Hp0; by rewrite Ho4, Ho3, Ho2, Ho1]]. cbn [apply_candidates]. eapply works_bind; [|exact Hw4].
    unfold apply_candidate. eapply works_bind; [exact Hw1|]. eapply works_bind; [exact Hw2|]. eapply works_bind; [exact Hw3|]. apply works_ret.
Qed.

Lemma works_plan d bs ps ms plan : holds_catalog d bs ps ms -> NoDup (map tomb_index (tombs_of_all (candidates plan))) ->
  Forall (tomb_fits bs) (tombs_of_all (candidates plan)) -> Forall (member_fits ms) (candidates plan ≫= orphan_members) -> Forall (pack_fits_ ps) (candidates plan) ->
  Forall (rewrite_fits ms) (base_pointer_rewrites plan) -> exists d', works_ d (apply_plan fs L plan) tt d' /\
  holds_catalog d' (pruned_blobs plan bs) (pruned_packs plan ps) (pruned_members plan ms) /\ same_elsewhere d d'.
Proof.
  intros Hd Hnd Ht Hm Hp Hr. destruct (works_rewrites d bs ps ms (base_pointer_rewrites plan) Hd Hr) as (d1 & Hw1 & Hd1 & Ho1).
  destruct (works_candidates d1 bs ps _ (candidates plan) ∅ Hd1 Hnd) as (X' & d2 & Hw2 & Hd2 & Ho2); [|done| |done|].
  - apply Forall_forall. intros t _. apply not_elem_of_empty.
  - eapply Forall_impl; [exact Hm|]. intros t [H1 H2]. split; [by apply is_Some_overwrite|done].
  - exists d2. split; [|split; [exact Hd2|intros p Hp0; by rewrite Ho2, Ho1]]. unfold apply_plan. eapply works_bind; [exact Hw1|]. eapply works_bind; [exact Hw2|]. apply works_ret.
Qed.

(** ** What a plan writes *)

Lemma NoDup_bind_keys {A B : Type} (f : A -> list B) (g : B -> N) (key : A -> N) l : NoDup (map key l) -> (forall x, x ∈ l -> NoDup (map g (f x))) ->
  (forall x y i, x ∈ l -> y ∈ l -> i ∈ map g (f x) -> i ∈ map g (f y) -> key x = key y) -> NoDup (map g (l ≫= f)).
Proof.
  induction l as [|x l IH]; intros Hkeys Hone Hcross; [constructor|]. rewrite bind_cons, map_app. cbn [map] in Hkeys. apply NoDup_cons in Hkeys as [Hx Hkeys].
  apply NoDup_app. split_and!.
  - apply Hone. left.
  - intros i Hi (b & -> & (y & Hb & Hy)%list_elem_of_bind)%list_elem_of_fmap. apply Hx, list_elem_of_fmap. exists y. split; [|done].
    apply (Hcross x y (g b)); [left|by right|done|]. apply list_elem_of_fmap. by exists b.
  - apply IH; [done|intros y Hy; apply Hone; by right|]. intros y z i' Hy Hz. apply Hcross; by right.
Qed.

Section Plan.
Context (bs : list BinaryBlobRecord) (ps : list BinaryObjectPackRecord) (ms : list BinaryObjectPackMemberRecord) (d : gmap PathBuf bytes).
Context (pinned : gset N) (plan : BinaryDbOrphanPackPrunePlan) (Hplan : value (pinned_plan (K := list_catalog bs ps ms) pinned) = Ok plan).
Context (Hd : holds_catalog d bs ps ms).

Lemma plan_rows : Forall (tomb_fits bs) (tombs_of_all (candidates plan)) /\ Forall (member_fits ms) (candidates plan ≫= orphan_members) /\
  Forall (pack_fits_ ps) (candidates plan) /\ Forall (rewrite_fits ms) (base_pointer_rewrites plan).
Proof.
  destruct Hd as [(Hbcount & Hbok & _) (_ & Hpok & _) (_ & Hmok & _)]. rewrite !Forall_forall. split_and!.
  - intros [[i b] f] (c & Hin & Hc)%list_elem_of_bind. assert (plans (candidates plan) i b f) as [[Hb _] _]%(gone_blob bs ps ms pinned plan Hplan) by (by exists c).
    split; [by eexists|]. exact (Forall_lookup_1 _ _ _ _ Hbok Hb).
  - intros [k m] (c & Hin & Hc)%list_elem_of_bind. destruct (candidate_in bs ps ms pinned plan Hplan c Hc) as [(_ & Hs & _)%candidate_sound _].
    destruct (proj1 (Forall_forall _ _) (so_members _ _ _ _ _ Hs) _ Hin) as (Hm & _). cbn [fst snd] in *. split; [by eexists|]. exact (Forall_lookup_1 _ _ _ _ Hmok Hm).
  - intros c Hc. destruct (candidate_in bs ps ms pinned plan Hplan c Hc) as [(_ & Hs & _)%candidate_sound _]. pose proof (so_pack _ _ _ _ _ Hs) as Hp.
    split; [by eexists|]. exact (Forall_lookup_1 _ _ _ _ Hpok Hp).
  - intros [k m f] Hr. pose proof (rewrite_in bs ps ms pinned plan Hplan k m f Hr) as H.
    inversion H as [| | | |m0 j b f0 bf k' Hk Hm Ht Hj Hb Hbf Hid Hk' Hown Hwhy]; subst. unfold rewrite_fits. cbn [rewrite_member_index rewrite_record fallback_blob_index].
    split; [by eexists|]. split; [exact (Forall_lookup_1 _ _ _ _ Hmok Hm)|]. apply lookup_lt_Some in Hbf. lia.
Qed.

(** No blob is tombstoned twice when all live blobs have their place. *)
Lemma plan_once : (forall i b, live_blob bs i b -> authoritative bs ps ms i b) -> NoDup (map tomb_index (tombs_of_all (candidates plan))).
Proof.
  intros Hall. apply (NoDup_bind_keys _ _ orphan_pack_index).
  - destruct (plan_parts bs ps ms pinned plan Hplan) as (all & rs0 & Hcs%candidates_once & _ & -> & _). clear -Hcs. induction all as [|c all IH]; [constructor|].
    cbn [map List.filter] in *. apply NoDup_cons in Hcs as [Hc Hcs]. destruct (spares pinned c); [|by apply IH]. cbn [map]. apply NoDup_cons. split; [|by apply IH].
    intros (c' & Hc' & Hin)%list_elem_of_fmap. apply Hc, list_elem_of_fmap. exists c'. split; [done|]. rewrite list_elem_of_In in Hin |- *. by apply filter_In in Hin as [? _].
  - intros c Hc. destruct (candidate_in bs ps ms pinned plan Hplan c Hc) as [[H _]%candidate_archive _]. done.
  - assert (forall c i, c ∈ candidates plan -> i ∈ map tomb_index (blob_tombstones c) -> exists b k m, live_blob bs i b /\ pack_member_index b = Some k /\
      ms !! N.to_nat k = Some m /\ pack_index m = orphan_pack_index c) as H.
    { intros c i Hc ([[i' b] f] & -> & Hin)%list_elem_of_fmap. cbn [fst]. destruct (candidate_in bs ps ms pinned plan Hplan c Hc) as [(_ & Hs & Htombs & _)%candidate_sound _].
      destruct (Htombs _ _ _ Hin) as (Hl & _ & k & m & Hkm & _ & Hptr). destruct (Hall _ _ Hl) as (_ & k' & Hk' & _). assert (k' = k) as -> by (destruct Hptr; congruence).
      destruct (proj1 (Forall_forall _ _) (so_members _ _ _ _ _ Hs) _ Hkm) as (Hm & _ & Hq). by exists b, k, m. }
    intros c c' i Hc Hc' Hi Hi'. destruct (H c i Hc Hi) as (b & k & m & [Hb _] & Hk & Hm & <-). destruct (H c' i Hc' Hi') as (b' & k' & m' & [Hb' _] & Hk' & Hm' & <-).
    assert (b' = b) as -> by congruence. assert (k' = k) as -> by congruence. congruence.
Qed.
End Plan.

(** ** The transactions of the command *)

Section Command.
Context {P : PackPrimitives} {T : FileTimes} (repo_root : PathBuf) (lock : lock_set).

Lemma planning_run d bs ps ms pinned : holds_catalog d bs ps ms ->
  in_prune_txn fs lock (plan ← pinned_plan (K := write_catalog fs L) pinned; _ ← map_error StoreError (abort fs); mret plan) (mkIo du d []) =
    (value (pinned_plan (K := list_catalog bs ps ms) pinned), mkIo du d []).
Proof.
  intros Hd. pose proof (true_write_catalog d ([], []) bs ps ms Hd) as HT. unfold in_prune_txn.
  pose proof (begin_calm catalog_paths [] (du := du) ContentWrite lock d eq_refl) as Hbegin.
  destruct (follows_plan (TC := HT) pinned _ Hbegin) as (t1 & Hrun & Ht1). unfold mbind at 1, stateful_bind at 1. rewrite Hrun.
  destruct (value (pinned_plan pinned)) as [plan|e].
  - destruct Ht1 as [Hc [= H1 H2]]. destruct (abort_untouched fs t1 d (ca_files _ _ _ _ Hc) (ca_open _ _ _ _ Hc) H1 H2) as (t2 & Hrun2 & Hfin & Hf).
    unfold mbind, stateful_bind, map_error. rewrite Hrun2. cbn. unfold drop_txn. by rewrite Hfin, Hf.
  - by rewrite (drop_unwritten fs catalog_paths [] t1 d Ht1).
Qed.

(** A plan that is the planned one is unchanged. *)
Lemma unchanged_value bs ps ms pinned plan : value (pinned_plan (K := list_catalog bs ps ms) pinned) = Ok plan ->
  value (binary_db_require_unchanged_orphan_pack_prune_plan (K := list_catalog bs ps ms) plan pinned) = Ok tt.
Proof. intros H. unfold binary_db_require_unchanged_orphan_pack_prune_plan. plan_eval. rewrite H. plan_eval. by rewrite bool_decide_eq_true_2. Qed.

Lemma follows_unchanged d bs ps ms pinned plan : holds_catalog d bs ps ms -> value (pinned_plan (K := list_catalog bs ps ms) pinned) = Ok plan ->
  answers (unwritten catalog_paths [] (du := du) d ([], [])) (attempt (F := prune_error) (binary_db_require_unchanged_orphan_pack_prune_plan (K := write_catalog fs L) plan pinned)) (Ok (Ok tt)).
Proof.
  intros Hd Hplan. pose proof (true_write_catalog d ([], []) bs ps ms Hd) as HT. rewrite <- (unchanged_value bs ps ms pinned plan Hplan).
  rewrite <- (value_attempt (F := prune_error)). apply follows_attempt. unfold binary_db_require_unchanged_orphan_pack_prune_plan.
  apply follows_bind; [apply follows_plan|]. intros a. apply follows_lift.
Qed.

Lemma body_run d bs ps ms pinned plan : holds_catalog d bs ps ms -> value (pinned_plan (K := list_catalog bs ps ms) pinned) = Ok plan ->
  (forall i b, live_blob bs i b -> authoritative bs ps ms i b) -> exists outcome du' d',
  in_prune_txn fs lock (prune_txn_body fs L plan pinned) (mkIo du d []) = (Ok outcome, mkIo du' d' []) /\
  holds_catalog d' (pruned_blobs plan bs) (pruned_packs plan ps) (pruned_members plan ms) /\ (forall p, p ∉ catalog_paths -> d' !! p = d !! p) /\
  (outcome = None -> candidates plan = []).
Proof.
  intros Hd Hplan Hall. unfold in_prune_txn. pose proof (begin_calm catalog_paths [] (du := du) ContentWrite lock d eq_refl) as Hbegin.
  unfold prune_txn_body. destruct (follows_unchanged d bs ps ms pinned plan Hd Hplan _ Hbegin) as (t1 & Hrun1 & Ht1). unfold mbind at 1, stateful_bind at 1. rewrite Hrun1.
  destruct Ht1 as [Hc [= H1 H2]]. destruct (is_empty_plan plan) eqn:Hempty.
  - unfold is_empty_plan in Hempty. destruct plan as [cs rs]. cbn [candidates base_pointer_rewrites] in *. destruct cs, rs; try done.
    destruct (abort_untouched fs t1 d (ca_files _ _ _ _ Hc) (ca_open _ _ _ _ Hc) H1 H2) as (t2 & Hrun2 & Hfin & Hf). exists None, du, d.
    unfold mbind, stateful_bind, map_error. rewrite Hrun2. cbn. unfold drop_txn. by rewrite Hfin, Hf.
  - destruct (plan_rows bs ps ms d pinned plan Hplan Hd) as (Ht & Hm & Hp & Hr).
    destruct (works_plan d bs ps ms plan Hd (plan_once bs ps ms pinned plan Hplan Hall) Ht Hm Hp Hr) as (d' & Hw & Hd' & Ho).
    destruct (Hw t1 Hc) as (t2 & Hrun2 & Hc2). destruct (commit_quiet catalog_paths [] t2 d' Hc2) as (o & t3 & du' & Hrun3 & Hf3 & Hfin).
    { destruct Hd' as [(_ & _ & r1 & E1 & _) (_ & _ & r2 & E2 & _) (_ & _ & r3 & E3 & _)]. unfold catalog_paths. intros p. rewrite !elem_of_cons.
      intros [->|[->|[->|H%elem_of_nil]]]; [by eexists..|done]. }
    exists (Some o), du', d'. unfold mbind, stateful_bind, map_error. rewrite Hrun2, Hrun3. cbn. unfold drop_txn. rewrite Hfin, Hf3. done.
Qed.

(** *** Verification *)

Lemma verify_still plan d : snd (binary_db_verify_fallback_blob_content fs repo_root plan (mkIo du d [])) = mkIo du d [].
Proof.
  assert (forall l, preserves (still fs) (for_each (verify_fallback_blob fs repo_root) l)) as H.
  { intros l. apply preserves_for_each; [apply _|]. intros i. unfold verify_fallback_blob.
    apply preserves_bind; [apply _|apply preserves_map_error, still_blob_view|]. intros view. apply preserves_bind; [apply _|apply preserves_lift; apply _|]. intros _.
    apply preserves_bind; [apply _|apply preserves_map_error, still_read_view|]. intros _. apply preserves_ret; apply _. }
  unfold binary_db_verify_fallback_blob_content. pose proof (still_files _ _ _ (H (ascending (planned_fallback_indices plan)) (empty_cache, mkIo du d [])) eq_refl) as Hs.
  destruct (for_each _ _ _) as [r [c s]]. exact Hs.
Qed.

(** *** Archives *)

Definition archive (c : BinaryDbOrphanObjectPack) : PathBuf := object_pack_path repo_root (object_pack_hash48 (orphan_record c)).
Definition has_archive (c : BinaryDbOrphanObjectPack) : Prop :=
  orphan_pack_path c = default_object_pack_relative_path (object_pack_id_from_hash48 (object_pack_hash48 (orphan_record c))).

Lemma remove_file_run (d : gmap PathBuf bytes) path : attempt (F := prune_error) (remove_file path) (mkIo du d []) =
  match d !! path with Some _ => (Ok (Ok tt), mkIo du (delete path d) []) | None => (Ok (Err NotFound), mkIo du d []) end.
Proof. unfold attempt, remove_file, update, next_fault. cbn [faults disk]. by destruct (d !! path). Qed.

Lemma remove_run io_text d cs done : Forall has_archive cs -> exists done', remove_archives repo_root io_text cs done (mkIo du d []) =
    (Ok done', mkIo du (foldl (fun d c => delete (archive c) d) d cs) []) /\
  forall path, path ∈ removed_paths done' ++ missing_paths done' <-> path ∈ removed_paths done ++ missing_paths done \/ exists c, c ∈ cs /\ orphan_pack_path c = path.
Proof.
  revert d done. induction cs as [|c cs IH]; intros d done Hall.
  { exists done. split; [done|]. intros path. split; [by left|]. intros [H|(c & H%elem_of_nil & _)]; done. }
  apply Forall_cons in Hall as [Hc Hall]. cbn [remove_archives foldl].
  assert (absolute_repo_path repo_root (orphan_pack_path c) = Ok (archive c)) as Hpath by (rewrite Hc; apply absolute_object_pack).
  erewrite bind_run by (by rewrite Hpath). pose proof (remove_file_run d (archive c)) as Hrm.
  destruct (d !! archive c) as [data|] eqn:Hdata; erewrite bind_run by exact Hrm; cbn beta iota.
  - destruct (IH (delete (archive c) d) (mkCleanup (removed_paths done ++ [orphan_pack_path c]) (missing_paths done) (warnings done)) Hall)
      as (done' & Hrun & Hpaths). exists done'. split; [exact Hrun|]. intros path. rewrite Hpaths. cbn [removed_paths missing_paths]. set_solver.
  - destruct (IH d (mkCleanup (removed_paths done) (missing_paths done ++ [orphan_pack_path c]) (warnings done)) Hall)
      as (done' & Hrun & Hpaths). exists done'. rewrite delete_id by done. split; [exact Hrun|]. intros path. rewrite Hpaths. cbn [removed_paths missing_paths]. set_solver.
Qed.

Lemma removed_lookup (d : gmap PathBuf bytes) cs p : (exists c, c ∈ cs /\ archive c = p) /\ foldl (fun d c => delete (archive c) d) d cs !! p = None \/
  (forall c, c ∈ cs -> archive c <> p) /\ foldl (fun d c => delete (archive c) d) d cs !! p = d !! p.
Proof.
  revert d. induction cs as [|c cs IH]; intros d; cbn [foldl]; [right; split; [by intros c ?%elem_of_nil|done]|].
  destruct (IH (delete (archive c) d)) as [[(c' & Hc' & Hp) H]|[Hout H]]; [left; split; [exists c'; split; [by right|done]|done]|].
  destruct (decide (archive c = p)) as [<-|Hne].
  - left. split; [exists c; split; [left|done]|]. rewrite H. apply lookup_delete_eq.
  - right. split; [by intros c' [->|Hc']%elem_of_cons; [|apply Hout]|]. rewrite H. by apply lookup_delete_ne.
Qed.

(** Archives are not record files. *)
Lemma archive_apart c : archive c ∉ catalog_paths.
Proof.
  assert (forall name path, file_path_for fs name = Ok path -> components name = [Normal name] -> archive c = path -> object_pack_name (object_pack_hash48 (orphan_record c)) = name) as H.
  { intros name path Hp%path_of_name Hn Heq. rewrite Hn in Hp. unfold archive, object_pack_path in Heq. apply (f_equal last) in Heq. rewrite last_snoc, Hp in Heq.
    unfold join in Heq. destruct (authority_root fs); [by injection Heq|]. change (filter _ [Normal name]) with [Normal name] in Heq. rewrite last_snoc in Heq. by injection Heq. }
  unfold catalog_paths. rewrite !elem_of_cons. intros [E|[E|[E|E%elem_of_nil]]]; [..|done]; (eapply H in E; [|eassumption|reflexivity]);
    rewrite object_pack_name_bytes in E; apply (f_equal bytes_of_string) in E; rewrite bytes_of_string_of_bytes in E; discriminate E.
Qed.

(** *** The commands *)

Context (lock_text : BinaryDbErrorKind -> string) (io_text : FileIoErrorKind -> string).

Lemma plan_archives bs ps ms pinned plan : value (pinned_plan (K := list_catalog bs ps ms) pinned) = Ok plan -> Forall has_archive (candidates plan).
Proof.
  intros Hplan. apply Forall_forall. intros c Hc. destruct (candidate_in bs ps ms pinned plan Hplan c Hc) as [[_ H]%candidate_archive _]. exact H.
Qed.

Lemma verified_run d bs ps ms pinned : holds_catalog d bs ps ms ->
  binary_db_verified_orphan_pack_prune_plan fs L repo_root lock pinned (mkIo du d []) =
    (plan ← value (pinned_plan (K := list_catalog bs ps ms) pinned); _ ← fst (binary_db_verify_fallback_blob_content fs repo_root plan (mkIo du d [])); Ok plan, mkIo du d []).
Proof.
  intros Hd. unfold binary_db_verified_orphan_pack_prune_plan. unfold mbind at 1, stateful_bind at 1. rewrite (planning_run d bs ps ms pinned Hd).
  destruct (value (pinned_plan pinned)) as [plan|e]; [|done]. cbn [mbind result_bind]. unfold mbind at 1, stateful_bind at 1. pose proof (verify_still plan d) as Hs.
  destruct (binary_db_verify_fallback_blob_content fs repo_root plan (mkIo du d [])) as [[[]|e] s']; cbn in Hs; by subst s'.
Qed.

Lemma preview_run d bs ps ms guard : holds_catalog d bs ps ms ->
  binary_db_preview_orphan_pack_prune fs L repo_root lock (Ok guard) (mkIo du d []) =
    (plan ← value (pinned_plan (K := list_catalog bs ps ms) (default ∅ guard));
     _ ← fst (binary_db_verify_fallback_blob_content fs repo_root plan (mkIo du d []));
     Ok (binary_db_prune_candidate_summary plan "preview" false), mkIo du d []).
Proof.
  intros Hd. unfold binary_db_preview_orphan_pack_prune. unfold mbind at 1, stateful_bind at 1, lift at 1. cbn beta iota zeta.
  unfold mbind at 1, stateful_bind at 1. rewrite (verified_run d bs ps ms _ Hd).
  destruct (value (pinned_plan (default ∅ guard))) as [plan|e] eqn:Hplan; [|done]. cbn [mbind result_bind].
  destruct (fst (binary_db_verify_fallback_blob_content fs repo_root plan (mkIo du d []))) as [[]|e]; [|done]. cbn [mbind result_bind].
  unfold in_prune_txn. pose proof (begin_calm catalog_paths [] (du := du) ContentWrite lock d eq_refl) as Hbegin.
  destruct (follows_unchanged d bs ps ms (default ∅ guard) plan Hd Hplan _ Hbegin) as (t1 & Hrun1 & Ht1).
  unfold mbind, stateful_bind. rewrite Hrun1. destruct Ht1 as [Hc [= H1 H2]].
  destruct (abort_untouched fs t1 d (ca_files _ _ _ _ Hc) (ca_open _ _ _ _ Hc) H1 H2) as (t2 & Hrun2 & Hfin & Hf).
  unfold attempt, map_error. rewrite Hrun2. cbn. unfold drop_txn. by rewrite Hfin, Hf.
Qed.
End Command.
End Files.

(** C18. [gc prune] does what its plan says: on files that hold a catalogue in which
    every live blob has its place, and when no call fails, the command and its
    preview find the plan over the records; when there is none, or a fallback
    cannot be read, both fail and nothing changes. Otherwise the preview shows the
    plan and changes nothing, and the command leaves files that hold the pruned
    catalogue, without the archives of the pruned packs and with every other
    file as it was. *)
Theorem prune_refines {P : PackPrimitives} {T : FileTimes} (fs : LocalBinaryDbFs) (blob_path pack_path member_path repo_root : PathBuf) (lock : lock_set)
    (lock_text : BinaryDbErrorKind -> string) (io_text : FileIoErrorKind -> string) (guard : option (gset N)) (du d : gmap PathBuf bytes)
    (bs : list BinaryBlobRecord) (ps : list BinaryObjectPackRecord) (ms : list BinaryObjectPackMemberRecord) :
  file_path_for fs BLOB_BIN = Ok blob_path -> file_path_for fs OBJECT_PACK_BIN = Ok pack_path -> file_path_for fs OBJECT_PACK_MEMBER_BIN = Ok member_path ->
  holds_catalog blob_path pack_path member_path d bs ps ms -> (forall i b, live_blob bs i b -> authoritative bs ps ms i b) ->
  let prune := binary_db_prune_orphan_packs fs L repo_root lock lock_text io_text (Ok guard) (mkIo du d []) in
  let preview := binary_db_preview_orphan_pack_prune fs L repo_root lock (Ok guard) (mkIo du d []) in
  snd preview = mkIo du d [] /\
  match (plan ← value (pinned_plan (K := list_catalog bs ps ms) (default ∅ guard));
         _ ← fst (binary_db_verify_fallback_blob_content fs repo_root plan (mkIo du d [])); Ok plan) with
  | Err e => fst preview = Err e /\ prune = (Err e, mkIo du d [])
  | Ok plan =>
      fst preview = Ok (binary_db_prune_candidate_summary plan "preview" false) /\
      exists du' d' members blobs removed missing cleanup_warnings,
        prune = (Ok (binary_db_prune_apply_summary plan members blobs removed missing cleanup_warnings), mkIo du' d' []) /\
        holds_catalog blob_path pack_path member_path d' (pruned_blobs plan bs) (pruned_packs plan ps) (pruned_members plan ms) /\
        (forall path, path ∈ removed ++ missing <-> path ∈ map orphan_pack_path (candidates plan)) /\
        (forall c, c ∈ candidates plan -> d' !! archive repo_root c = None) /\
        (forall p, p ∉ catalog_paths blob_path pack_path member_path -> (forall c, c ∈ candidates plan -> archive repo_root c <> p) -> d' !! p = d !! p)
  end.
Proof.
  intros Hblob Hpack Hmember Hd Hall prune preview. subst prune preview. rewrite (preview_run fs blob_path pack_path member_path Hblob Hpack Hmember repo_root lock d bs ps ms guard Hd).
  split; [done|]. pose proof (verified_run fs blob_path pack_path member_path Hblob Hpack Hmember (du := du) repo_root lock d bs ps ms (default ∅ guard) Hd) as Hver.
  destruct (value (pinned_plan (default ∅ guard))) as [plan|e] eqn:Hplan; [|cbn [mbind result_bind] in Hver |- *; split; [done|];
    unfold binary_db_prune_orphan_packs, mbind, stateful_bind, lift; by rewrite Hver].
  cbn [mbind result_bind] in Hver |- *.
  destruct (fst (binary_db_verify_fallback_blob_content fs repo_root plan (mkIo du d []))) as [[]|e]; [|cbn [mbind result_bind] in Hver |- *; split; [done|];
    unfold binary_db_prune_orphan_packs, mbind, stateful_bind, lift; by rewrite Hver].
  cbn [mbind result_bind] in Hver |- *. split; [done|]. unfold binary_db_prune_orphan_packs. erewrite bind_run by reflexivity. cbv zeta. erewrite bind_run by exact Hver.
  destruct (body_run fs blob_path pack_path member_path Hblob Hpack Hmember lock (du := du) d bs ps ms (default ∅ guard) plan Hd Hplan Hall) as (outcome & du' & d1 & Hrun & Hd1 & Ho & Hnone).
  erewrite bind_run by exact Hrun. pose proof (plan_archives bs ps ms _ plan Hplan) as Harch.
  destruct outcome as [outcome|].
  - destruct (remove_run fs blob_path pack_path member_path Hblob Hpack Hmember (du := du') repo_root io_text d1 (candidates plan)
      (mkCleanup [] [] (match lock_cleanup_warning outcome with Some warning => [lock_warning lock_text warning] | None => [] end)) Harch) as (done' & Hrm & Hpaths).
    exists du', (foldl (fun d c => delete (archive repo_root c) d) d1 (candidates plan)), (plan_member_count plan), (plan_blob_count plan),
      (removed_paths done'), (missing_paths done'), (warnings done').
    erewrite bind_run by exact Hrm. split; [done|].
    assert (forall p, p ∈ catalog_paths blob_path pack_path member_path -> foldl (fun d c => delete (archive repo_root c) d) d1 (candidates plan) !! p = d1 !! p) as Hcat.
    { intros p Hp. destruct (removed_lookup repo_root d1 (candidates plan) p) as [[(c & Hc & Heq) _]|[_ H]]; [|done].
      destruct (archive_apart fs blob_path pack_path member_path Hblob Hpack Hmember repo_root c). by rewrite Heq. }
    split_and!.
    + destruct Hd1 as [H1 H2 H3]. split; [revert H1|revert H2|revert H3]; apply holds_other, Hcat; unfold catalog_paths; set_solver.
    + intros p. rewrite Hpaths. cbn [removed_paths missing_paths app]. rewrite list_elem_of_fmap. set_solver.
    + intros c Hc. destruct (removed_lookup repo_root d1 (candidates plan) (archive repo_root c)) as [[_ H]|[Hout _]]; [done|]. by destruct (Hout c Hc).
    + intros p Hp Hout. destruct (removed_lookup repo_root d1 (candidates plan) p) as [[(c & Hc & Heq) _]|[_ ->]]; [by destruct (Hout c Hc)|by apply Ho].
  - rewrite (Hnone eq_refl). exists du', d1, 0, 0, [], [], []. split; [done|]. split; [done|]. split; [done|].
    split; [by intros c ?%elem_of_nil|]. intros p Hp _. by apply Ho.
Qed.

(** ** An example *)

#[local] Existing Instance toy_primitives.

(** The vault of [BlobContents] with a second pack that holds the first blob again,
    as the base of the other one. *)
Definition doubled_blobs : list BinaryBlobRecord := [vault_blob 1 0; vault_blob 2 1; vault_blob 1 2].
Definition doubled_packs : list BinaryObjectPackRecord := [mkObjectPackRecord 1 1 0 7 0 2 0 0; mkObjectPackRecord 1 1 0 8 2 1 0 0].
Definition doubled_members : list BinaryObjectPackMemberRecord :=
  [mkObjectPackMemberRecord 8 0 0 0 0 0; mkObjectPackMemberRecord 9 1 0 0 1 3; mkObjectPackMemberRecord 8 0 0 1 2 0].
Definition doubled_disk (file : bytes) : gmap PathBuf bytes :=
  <[[RootDir; Normal "blob.bin"] := encoded_table (map (encode_blob_record 1) doubled_blobs)]>
  (<[[RootDir; Normal "object_pack.bin"] := encoded_table (map (encode_object_pack_record 1) doubled_packs)]>
  (<[[RootDir; Normal "object_pack_member.bin"] := encoded_table (map (encode_object_pack_member_record 1) doubled_members)]>
  (<[object_pack_path [RootDir] 8 := []]>
  (<[object_pack_path [RootDir] 7 := file]> ∅))))%string.

Lemma doubled_tables file : holds_catalog [RootDir; Normal "blob.bin"%string] [RootDir; Normal "object_pack.bin"%string] [RootDir; Normal "object_pack_member.bin"%string]
  (doubled_disk file) doubled_blobs doubled_packs doubled_members.
Proof.
  split; (split; [done|]).
  - split; [one_by_one; by vm_compute|]. eexists. split; [|one_by_one; vm_compute; reflexivity]. unfold doubled_disk. rewrite lookup_insert_eq. vm_compute. reflexivity.
  - split; [one_by_one; by vm_compute|]. eexists. split; [|one_by_one; vm_compute; reflexivity].
    unfold doubled_disk. rewrite lookup_insert_ne, lookup_insert_eq by done. vm_compute. reflexivity.
  - split; [one_by_one; by vm_compute|]. eexists. split; [|one_by_one; vm_compute; reflexivity].
    unfold doubled_disk. do 2 rewrite lookup_insert_ne by done. rewrite lookup_insert_eq. vm_compute. reflexivity.
Qed.

Lemma doubled_found i b : live_blob doubled_blobs i b -> authoritative doubled_blobs doubled_packs doubled_members i b.
Proof.
  intros [Hb Hl]. split; [done|]. rewrite <- (N2Nat.id i). pose proof (lookup_lt_Some _ _ _ Hb) as Hi. exists (N.of_nat (N.to_nat i)).
  destruct (N.to_nat i) as [|[|[|n]]]; cbn in Hi; [..|lia]; injection Hb as <-; (split; [done|]); eexists _, _; repeat split; vm_compute; congruence.
Qed.

Definition doubled_plan : result prune_error BinaryDbOrphanPackPrunePlan := value (pinned_plan (K := list_catalog doubled_blobs doubled_packs doubled_members) ∅).
Lemma doubled_verified : match vault_archive with
  | Ok (file, _) => match doubled_plan with
                    | Ok plan => map orphan_pack_index (candidates plan) = [1%N] /\
                                 fst (binary_db_verify_fallback_blob_content (T := toy_times) example_fs [RootDir] plan (mkIo ∅ (doubled_disk file) [])) = Ok tt
                    | Err _ => False
                    end
  | Err _ => False
  end.
Proof. vm_compute. split; reflexivity. Qed.

Lemma prune_refines_witness : exists file index plan du' d' summary, vault_archive = Ok (file, index) /\ doubled_plan = Ok plan /\
  binary_db_prune_orphan_packs (T := toy_times) example_fs L [RootDir] (mkLocks [] false) (fun _ => ""%string) (fun _ => ""%string) (Ok None) (mkIo ∅ (doubled_disk file) []) =
    (Ok summary, mkIo du' d' []) /\
  holds_catalog [RootDir; Normal "blob.bin"%string] [RootDir; Normal "object_pack.bin"%string] [RootDir; Normal "object_pack_member.bin"%string] d'
    (pruned_blobs plan doubled_blobs) (pruned_packs plan doubled_packs) (pruned_members plan doubled_members).
Proof.
  pose proof doubled_verified as Hv. destruct vault_archive as [[file index]|e] eqn:Hrun; [|destruct Hv]. destruct doubled_plan as [plan|e] eqn:Hplan; [|destruct Hv].
  pose proof (prune_refines (T := toy_times) example_fs [RootDir; Normal "blob.bin"%string] [RootDir; Normal "object_pack.bin"%string] [RootDir; Normal "object_pack_member.bin"%string]
    [RootDir] (mkLocks [] false) (fun _ => ""%string) (fun _ => ""%string) None ∅ (doubled_disk file) doubled_blobs doubled_packs doubled_members
    eq_refl eq_refl eq_refl (doubled_tables file) doubled_found) as [_ H].
  change (value (pinned_plan (default ∅ None))) with doubled_plan in H. rewrite Hplan in H. cbn [mbind result_bind] in H. rewrite (proj2 Hv) in H.
  destruct H as (_ & du' & d' & members & blobs & removed & missing & warnings & Hprune & Hcat & _).
  exists file, index, plan, du', d', (binary_db_prune_apply_summary plan members blobs removed missing warnings). exact (conj eq_refl (conj eq_refl (conj Hprune Hcat))).
Defined.
