(* ===== verification/ObjectDiff.v ===== *)
(** * The difference of two snapshots

    [object_diff] and the readers of [object_diff_ports.rs]: the rows of a
    snapshot from its manifest or from its trees, which files differ, which of
    them moved, and the report as JSON. The differ of texts is a parameter, and
    what a reader returns does not change while it is read. *)

From Stdlib Require Import NArith ZArith Lia Ascii.
From Stdlib Require Strings.Byte.
From stdpp Require Import base numbers strings gmap list sorting.
From S2P Require Import Prelude Json.

(** One constructor for every message; [StackOverflow] is a recursion that is
    deeper than the stack. *)
Inductive diff_error : Type :=
| ReaderError (message : string)
| StackOverflow
| MissingTreePayload (tree_id : string)
| TreeMissingEntries (tree_id : string)
| TreePayloadShape (tree_id : string)
| EntryRowsMustBeObjects (tree_id : string)
| DuplicateTreeEntry (tree_id name : string)
| TreeEntryNotBlob (path : string)
| FieldMustBeString (key : string)
| FieldMustBeNonEmpty (key : string)
| ModeMustBeInteger
| ModeMustBeParseable
| ModeMustBeIntegerOrString
| SizeMustBeInteger
| RootPayloadMustBeObject
| RootMissingTreeId
| RootMissingRows
| RootRowMustBeObject
| RootRowMissing (field : string)
| ManifestRowsMustBeObjects
| FileRowsMustBeObjects
| FileRowMissingPath
| ManifestShape
| SnapshotNotFound (snapshot_id : string)
| SnapshotPayloadShape (snapshot_id : string)
| InvalidSnapshotManifest (snapshot_id : string) (error : diff_error)
| MissingPath (path : string)
| PayloadMustBe (what : string)
| BlobReaderRequired.

Abbreviation diffed := (result diff_error).

(** ** The ports *)

Class SnapshotReader : Type := {
  read_snapshot_manifest : string -> result string JsonValue;
  read_snapshot_payload : string -> result string (option JsonValue);
  read_snapshot_root_tree_payload : string -> result string (option JsonValue);
  read_tree_payload : string -> result string (option JsonValue)
}.
Class ObjectReader : Type := { read_object_json : string -> result string (option JsonValue) }.
Class BlobReader : Type := {
  read_blob_bytes : string -> result string (option bytes);
  read_blob_bytes_batch : list string -> result string (gmap string bytes)
}.

(** The method that [BlobReader] provides. *)
Definition default_blob_bytes_batch (read : string -> result string (option bytes)) (blob_ids : list string) : result string (gmap string bytes) :=
  foldM (fun payload blob_id => data ← read blob_id; Ok (match data with Some data => <[blob_id := data]> payload | None => payload end)) ∅ blob_ids.

(** ** Numbers in text *)

Definition digit_value (radix code : N) : option N :=
  digit ← (if (48 <=? code) && (code <=? 57) then Some (code - 48)
           else if (97 <=? code) && (code <=? 122) then Some (code - 87)
           else if (65 <=? code) && (code <=? 90) then Some (code - 55)
           else None)%N;
  if (digit <? radix)%N then Some digit else None.

Definition in_i64 (z : Z) : bool := ((-9223372036854775808 <=? z) && (z <=? 9223372036854775807))%Z.

Fixpoint parse_digits (radix : N) (negative : bool) (value : Z) (codes : list N) : option Z :=
  match codes with
  | [] => Some value
  | code :: codes =>
      digit ← digit_value radix code;
      let value := (value * Z.of_N radix + (if negative then - Z.of_N digit else Z.of_N digit))%Z in
      if in_i64 value then parse_digits radix negative value codes else None
  end.

(** [i64::from_str_radix]; [str::parse::<i64>] is the one with radix ten. *)
Definition i64_from_str_radix (text : string) (radix : N) : option Z :=
  match codes_of_string text with
  | [] | [43%N] | [45%N] => None
  | 45%N :: digits => parse_digits radix true 0 digits
  | 43%N :: digits => parse_digits radix false 0 digits
  | digits => parse_digits radix false 0 digits
  end.

Definition strip_prefix (prefix text : string) : option string :=
  string_of_codes <$> strip_code (codes_of_string prefix) (codes_of_string text).

Definition number_i64 (value : JsonValue) : option Z :=
  match as_i64 value with
  | Some z => Some z
  | None => n ← as_u64 value; if in_i64 (Z.of_N n) then Some (Z.of_N n) else None
  end.

Definition to_mode_int (value : JsonValue) : diffed Z :=
  match value with
  | JNull => Ok 0%Z
  | JNumber _ => ok_or (number_i64 value) ModeMustBeInteger
  | JString text =>
      let trimmed := trim text in
      if bool_decide (trimmed = EmptyString) then Ok 0%Z
      else match (match strip_prefix "0o" trimmed with Some s => Some s | None => strip_prefix "0O" trimmed end) with
      | Some stripped => ok_or (i64_from_str_radix stripped 8) ModeMustBeParseable
      | None =>
          match (match strip_prefix "0x" trimmed with Some s => Some s | None => strip_prefix "0X" trimmed end) with
          | Some stripped => ok_or (i64_from_str_radix stripped 16) ModeMustBeParseable
          | None =>
              ok_or (match i64_from_str_radix trimmed 10 with Some z => Some z | None => i64_from_str_radix trimmed 8 end) ModeMustBeParseable
          end
      end
  | _ => Err ModeMustBeIntegerOrString
  end.

Definition parse_optional_i64 (value : JsonValue) : diffed (option Z) :=
  match value with
  | JNull => Ok None
  | JNumber _ => z ← ok_or (number_i64 value) SizeMustBeInteger; Ok (Some z)
  | JString text =>
      let trimmed := trim text in
      if bool_decide (trimmed = EmptyString) then Ok None
      else z ← ok_or (i64_from_str_radix trimmed 10) SizeMustBeInteger; Ok (Some z)
  | _ => Err SizeMustBeInteger
  end.

(** *** Fields *)

Definition string_field (value : Map) (key : string) : diffed string := ok_or (map_get key value ≫= as_str) (FieldMustBeString key).
Definition required_text_field (value : Map) (key : string) : diffed string :=
  resolved ← string_field value key;
  _ ← fail_if (bool_decide (trim resolved = EmptyString)) (FieldMustBeNonEmpty key);
  Ok resolved.
(** [required_text_field(row, key).or_else(|_| required_text_field(row, other))] *)
Definition text_field_or (value : Map) (key other : string) : diffed string :=
  match required_text_field value key with Ok text => Ok text | Err _ => required_text_field value other end.

Definition optional_string_json (value : option string) : JsonValue := match value with Some text => JString text | None => JNull end.
Definition i64_json (z : Z) : JsonValue := JNumber (if (z <? 0)%Z then NegInt z else PosInt (Z.to_N z)).
Definition optional_i64_json (value : option Z) : JsonValue := match value with Some z => i64_json z | None => JNull end.
Definition count_json (n : nat) : JsonValue := JNumber (PosInt (N.of_nat n)).
Definition strings_json (l : list string) : JsonValue := JArray (map JString l).

(** ** Rows *)

Record SnapshotFileRow : Type := mkFileRow {
  fr_path : string;
  fr_blob_id : option string;
  fr_size_bytes : option Z;
  fr_mode_raw : JsonValue;
  fr_mode_int : Z
}.
Record SnapshotTreeEntry : Type := mkTreeEntryRow {
  te_entry_type : string;
  te_target_id : string;
  te_size_bytes : option Z;
  te_mode_raw : JsonValue;
  te_mode_int : Z
}.
Abbreviation file_rows := (gmap string SnapshotFileRow).
Abbreviation tree_rows := (gmap string SnapshotTreeEntry).
Abbreviation tree_cache := (gmap string tree_rows).

Record SnapshotTreeDiffState : Type := mkDiffState {
  old_rows : file_rows;
  new_rows : file_rows;
  added : list string;
  deleted : list string;
  modified : list string;
  mode_changed : list string;
  file_entries : list JsonValue
}.
Definition default_diff_state : SnapshotTreeDiffState := mkDiffState ∅ ∅ [] [] [] [] [].

Definition file_row_payload (row : option SnapshotFileRow) : JsonValue :=
  match row with
  | Some row => json_object [("blob_id", optional_string_json (fr_blob_id row)); ("size_bytes", optional_i64_json (fr_size_bytes row)); ("mode", fr_mode_raw row)]%string
  | None => json_object [("blob_id", JNull); ("size_bytes", JNull); ("mode", JNull)]%string
  end.

(** [json!({ "path": path, "status": status, "old": .., "new": .. })] *)
Definition file_entry (path status : string) (old_row new_row : option SnapshotFileRow) : JsonValue :=
  json_object [("path", JString path); ("status", JString status); ("old", file_row_payload old_row); ("new", file_row_payload new_row)]%string.

(** *** From a manifest *)

Definition parse_snapshot_file_row (value : JsonValue) : diffed SnapshotFileRow :=
  match value with
  | JObject row =>
      path ← ok_or (map_get "path" row ≫= as_str) FileRowMissingPath;
      size_bytes ← match map_get "size_bytes" row with Some value => parse_optional_i64 value | None => Ok None end;
      let mode_raw := default JNull (map_get "mode" row) in
      mode_int ← to_mode_int mode_raw;
      Ok (mkFileRow path (map_get "blob_id" row ≫= as_str) size_bytes mode_raw mode_int)
  | _ => Err FileRowsMustBeObjects
  end.

Definition manifest_entry (rows : file_rows) (kv : string * JsonValue) : diffed file_rows :=
  match snd kv with
  | JObject row_obj =>
      let normalized := match map_get "path" row_obj with Some _ => row_obj | None => map_insert "path" (JString (fst kv)) row_obj end in
      row ← parse_snapshot_file_row (JObject normalized);
      Ok (<[fst kv := row]> rows)
  | _ => Err ManifestRowsMustBeObjects
  end.
Definition coerce_snapshot_manifest (value : JsonValue) : diffed file_rows :=
  match value with
  | JObject values => foldM manifest_entry ∅ values
  | JArray values => foldM (fun out row => parsed ← parse_snapshot_file_row row; Ok (<[fr_path parsed := parsed]> out)) ∅ values
  | _ => Err ManifestShape
  end.

Definition render_snapshot_manifest (rows : file_rows) : JsonValue :=
  json_object (map (fun kv => (fst kv, json_object
    [("path", JString (fr_path (snd kv))); ("blob_id", optional_string_json (fr_blob_id (snd kv)));
     ("size_bytes", optional_i64_json (fr_size_bytes (snd kv))); ("mode", fr_mode_raw (snd kv))]%string)) (sorted_entries rows)).

(** *** From trees *)

Definition join_tree_path (prefix name : string) : string := if bool_decide (prefix = EmptyString) then name else (prefix ++ "/" ++ name)%string.

Definition parse_tree_entry (tree_id : string) (out : tree_rows) (row : JsonValue) : diffed tree_rows :=
  match row with
  | JObject row_obj =>
      entry_name ← text_field_or row_obj "entry_name" "name";
      _ ← fail_if (is_some (out !! entry_name)) (DuplicateTreeEntry tree_id entry_name);
      entry_type ← text_field_or row_obj "entry_type" "type";
      let mode_raw := default JNull (map_get "mode" row_obj) in
      mode_int ← (if bool_decide (entry_type = "tree"%string) then Ok 0%Z else to_mode_int mode_raw);
      target_id ← required_text_field row_obj "target_id";
      size_bytes ← match map_get "size_bytes" row_obj with Some value => parse_optional_i64 value | None => Ok None end;
      Ok (<[entry_name := mkTreeEntryRow entry_type target_id size_bytes mode_raw mode_int]> out)
  | _ => Err (EntryRowsMustBeObjects tree_id)
  end.
Definition parse_tree_entries (tree_id : string) (payload : JsonValue) : diffed tree_rows :=
  rows ← match payload with
         | JObject m => ok_or (map_get "entries" m ≫= fun v => match v with JArray rows => Some rows | _ => None end) (TreeMissingEntries tree_id)
         | JArray rows => Ok rows
         | _ => Err (TreePayloadShape tree_id)
         end;
  foldM (parse_tree_entry tree_id) ∅ rows.

Definition snapshot_file_row_from_tree_entry (path : string) (entry : SnapshotTreeEntry) : diffed SnapshotFileRow :=
  _ ← fail_if (negb (bool_decide (te_entry_type entry = "blob"%string))) (TreeEntryNotBlob path);
  Ok (mkFileRow path (Some (te_target_id entry)) (te_size_bytes entry) (te_mode_raw entry) (te_mode_int entry)).

Section Reader.
Context {R : SnapshotReader}.

Definition load_tree_entries (tree_id : string) (cache : tree_cache) : diffed (tree_rows * tree_cache) :=
  match cache !! tree_id with
  | Some entries => Ok (entries, cache)
  | None =>
      payload ← map_err ReaderError (read_tree_payload tree_id);
      payload ← ok_or payload (MissingTreePayload tree_id);
      entries ← parse_tree_entries tree_id payload;
      Ok (entries, <[tree_id := entries]> cache)
  end.

(** The functions below call themselves for a tree in a tree; [depth] is the
    number of nested calls that the stack has room for. *)
Fixpoint collect_tree_file_rows (depth : nat) (tree_id prefix : string) (state : tree_cache * file_rows) : diffed (tree_cache * file_rows) :=
  match depth with
  | O => Err StackOverflow
  | S depth =>
      loaded ← load_tree_entries tree_id (fst state);
      foldM (fun state '(name, entry) =>
        let path := join_tree_path prefix name in
        if bool_decide (te_entry_type entry = "tree"%string) then collect_tree_file_rows depth (te_target_id entry) path state
        else row ← snapshot_file_row_from_tree_entry path entry; Ok (fst state, <[path := row]> (snd state)))
        (snd loaded, snd state) (sorted_entries (fst loaded))
  end.
Definition collect_subtree_rows (depth : nat) (tree_id prefix : string) (cache : tree_cache) : diffed (tree_cache * file_rows) :=
  collect_tree_file_rows depth tree_id prefix (cache, ∅).

(** *** Differences of trees *)

Definition push_added_row (state : SnapshotTreeDiffState) (row : SnapshotFileRow) : SnapshotTreeDiffState :=
  mkDiffState (old_rows state) (<[fr_path row := row]> (new_rows state)) (added state ++ [fr_path row]) (deleted state) (modified state) (mode_changed state)
    (file_entries state ++ [file_entry (fr_path row) "added" None (Some row)]).
Definition push_deleted_row (state : SnapshotTreeDiffState) (row : SnapshotFileRow) : SnapshotTreeDiffState :=
  mkDiffState (<[fr_path row := row]> (old_rows state)) (new_rows state) (added state) (deleted state ++ [fr_path row]) (modified state) (mode_changed state)
    (file_entries state ++ [file_entry (fr_path row) "deleted" (Some row) None]).

Definition size_bytes_changed (old_size new_size : option Z) : bool :=
  match old_size, new_size with Some old_size, Some new_size => negb (old_size =? new_size)%Z | _, _ => false end.
Definition mode_only (old_row new_row : SnapshotFileRow) : bool :=
  negb (fr_mode_int old_row =? fr_mode_int new_row)%Z && bool_decide (fr_blob_id old_row = fr_blob_id new_row).
Definition content_changed (old_row new_row : SnapshotFileRow) : bool :=
  negb (bool_decide (fr_blob_id old_row = fr_blob_id new_row)) || size_bytes_changed (fr_size_bytes old_row) (fr_size_bytes new_row).

Definition push_change (path : string) (old_row new_row : SnapshotFileRow) (state : SnapshotTreeDiffState) : SnapshotTreeDiffState :=
  let only := mode_only old_row new_row in
  if negb (only || content_changed old_row new_row) then state
  else mkDiffState (<[path := old_row]> (old_rows state)) (<[path := new_row]> (new_rows state)) (added state) (deleted state)
    (if only then modified state else modified state ++ [path]) (if only then mode_changed state ++ [path] else mode_changed state)
    (file_entries state ++ [file_entry path (if only then "mode_changed" else "modified") (Some old_row) (Some new_row)]).
Definition record_blob_change (path : string) (old_entry new_entry : SnapshotTreeEntry) (state : SnapshotTreeDiffState) : diffed SnapshotTreeDiffState :=
  old_row ← snapshot_file_row_from_tree_entry path old_entry;
  new_row ← snapshot_file_row_from_tree_entry path new_entry;
  Ok (push_change path old_row new_row state).

Abbreviation diff_progress := (tree_cache * SnapshotTreeDiffState)%type.

(** [collect_added_entry] and [collect_deleted_entry] *)
Definition collect_entry (push : SnapshotTreeDiffState -> SnapshotFileRow -> SnapshotTreeDiffState) (depth : nat) (entry : SnapshotTreeEntry) (path : string)
  (s : diff_progress) : diffed diff_progress :=
  if bool_decide (te_entry_type entry = "tree"%string) then
    collected ← collect_subtree_rows depth (te_target_id entry) path (fst s);
    Ok (fst collected, foldl push (snd s) (map snd (sorted_entries (snd collected))))
  else row ← snapshot_file_row_from_tree_entry path entry; Ok (fst s, push (snd s) row).
Definition collect_added_entry := collect_entry push_added_row.
Definition collect_deleted_entry := collect_entry push_deleted_row.

Definition load_optional (tree_id : option string) (cache : tree_cache) : diffed (tree_rows * tree_cache) :=
  match tree_id with Some tree_id => load_tree_entries tree_id cache | None => Ok (∅, cache) end.

Fixpoint diff_tree_entries (depth : nat) (old_tree_id new_tree_id : option string) (prefix : string) (s : diff_progress) : diffed diff_progress :=
  match depth with
  | O => Err StackOverflow
  | S depth =>
      if bool_decide (old_tree_id = new_tree_id) && is_some old_tree_id then Ok s
      else
        old ← load_optional old_tree_id (fst s);
        new ← load_optional new_tree_id (snd old);
        foldM (fun s name =>
          let path := join_tree_path prefix name in
          match fst old !! name, fst new !! name with
          | None, Some new_entry => collect_added_entry depth new_entry path s
          | Some old_entry, None => collect_deleted_entry depth old_entry path s
          | Some old_entry, Some new_entry =>
              if bool_decide (te_entry_type old_entry = "tree"%string) && bool_decide (te_entry_type new_entry = "tree"%string) then
                diff_tree_entries depth (Some (te_target_id old_entry)) (Some (te_target_id new_entry)) path s
              else if bool_decide (te_entry_type old_entry = "blob"%string) && bool_decide (te_entry_type new_entry = "blob"%string) then
                state ← record_blob_change path old_entry new_entry (snd s); Ok (fst s, state)
              else s ← collect_deleted_entry depth old_entry path s; collect_added_entry depth new_entry path s
          | None, None => Ok s
          end) (snd new, snd s) (sorted_elements (dom (fst old) ∪ dom (fst new)))
  end.
Definition diff_snapshot_trees (depth : nat) (old_root_tree_id new_root_tree_id : option string) : diffed SnapshotTreeDiffState :=
  s ← diff_tree_entries depth old_root_tree_id new_root_tree_id "" (∅, default_diff_state); Ok (snd s).

(** *** The root of a snapshot *)

Definition text_or (row : Map) (key other : string) : option string :=
  match map_get key row with Some v => as_str v | None => map_get other row ≫= as_str end.
Definition root_entry (row : JsonValue) : diffed (string * SnapshotTreeEntry) :=
  match row with
  | JObject row_obj =>
      entry_type ← ok_or (text_or row_obj "entry_type" "type") (RootRowMissing "entry_type");
      let mode_raw := default JNull (map_get "mode" row_obj) in
      entry_name ← ok_or (text_or row_obj "entry_name" "name") (RootRowMissing "entry_name");
      target_id ← ok_or (map_get "target_id" row_obj ≫= as_str) (RootRowMissing "target_id");
      mode_int ← (if bool_decide (entry_type = "tree"%string) then Ok 0%Z else to_mode_int mode_raw);
      Ok (entry_name, mkTreeEntryRow entry_type target_id (map_get "size_bytes" row_obj ≫= as_i64) mode_raw mode_int)
  | _ => Err RootRowMustBeObject
  end.
Definition snapshot_tree_payload_entries (payload : JsonValue) : diffed (string * tree_rows) :=
  match payload with
  | JObject payload_obj =>
      root_tree_id ← ok_or (text ← map_get "tree_id" payload_obj ≫= as_str;
                            let text := trim text in if bool_decide (text = EmptyString) then None else Some text) RootMissingTreeId;
      rows ← ok_or (match (match map_get "rows" payload_obj with Some v => Some v | None => map_get "entries" payload_obj end) with
                    | Some (JArray rows) => Some rows | _ => None end) RootMissingRows;
      entries ← mapM_result root_entry rows;
      Ok (root_tree_id, foldl (fun m kv => <[fst kv := snd kv]> m) ∅ entries)
  | _ => Err RootPayloadMustBeObject
  end.

Definition resolve_snapshot_tree_root (snapshot_id : option string) : diffed (option string) :=
  match snapshot_id with
  | None => Ok None
  | Some snapshot_id =>
      root_payload ← map_err ReaderError (read_snapshot_root_tree_payload snapshot_id);
      match root_payload with
      | Some root_payload => root ← snapshot_tree_payload_entries root_payload; Ok (Some (fst root))
      | None => Ok None
      end
  end.

Definition snapshot_manifest_from_payload_with_tree_reader (depth : nat) (snapshot_id : string) : diffed (option JsonValue) :=
  root_payload ← map_err ReaderError (read_snapshot_root_tree_payload snapshot_id);
  match root_payload with
  | Some root_payload =>
      root ← snapshot_tree_payload_entries root_payload;
      collected ← collect_tree_file_rows depth (fst root) "" ({[fst root := snd root]}, ∅);
      Ok (Some (render_snapshot_manifest (snd collected)))
  | None => Ok None
  end.
End Reader.

Definition with_snapshot_error (snapshot_id : string) {A} (r : diffed A) : diffed A := map_err (InvalidSnapshotManifest snapshot_id) r.
Definition normalize_snapshot_object_payload (snapshot_id : string) (payload : JsonValue) : diffed JsonValue :=
  match payload with
  | JObject m =>
      match map_get "files" m with
      | Some files => _ ← coerce_snapshot_manifest files; Ok files
      | None => _ ← with_snapshot_error snapshot_id (coerce_snapshot_manifest (JObject m)); Ok (JObject m)
      end
  | JArray _ => _ ← with_snapshot_error snapshot_id (coerce_snapshot_manifest payload); Ok payload
  | _ => Err (SnapshotPayloadShape snapshot_id)
  end.

(** [ObjectBackedSnapshotReader]: snapshots and trees are objects of a store. A
    failure of the manifest is a message of the reader; [error_text] is its
    text. *)
Section Objects.
Context {O : ObjectReader} (error_text : diff_error -> string) (depth : nat).

Definition object_root_tree_payload (snapshot_id : string) : result string (option JsonValue) :=
  payload ← read_object_json snapshot_id;
  Ok (match payload with
      | Some (JObject payload_obj) =>
          match (match map_get "root_tree" payload_obj with Some v => Some v | None => map_get "root_tree_payload" payload_obj end) with
          | Some (JObject m) => Some (JObject m)
          | _ => None
          end
      | _ => None
      end).
Definition object_reader_without_manifest : SnapshotReader := {|
  read_snapshot_manifest := fun _ => Err EmptyString;
  read_snapshot_payload := read_object_json;
  read_snapshot_root_tree_payload := object_root_tree_payload;
  read_tree_payload := read_object_json
|}.
Definition snapshot_manifest_from_object_reader_impl (snapshot_id : string) : diffed JsonValue :=
  payload ← map_err ReaderError (read_object_json snapshot_id);
  payload ← ok_or payload (SnapshotNotFound snapshot_id);
  file_map ← snapshot_manifest_from_payload_with_tree_reader (R := object_reader_without_manifest) depth snapshot_id;
  match file_map with
  | Some file_map => Ok file_map
  | None => normalize_snapshot_object_payload snapshot_id payload
  end.
Definition ObjectBackedSnapshotReader : SnapshotReader := {|
  read_snapshot_manifest := fun snapshot_id => map_err error_text (snapshot_manifest_from_object_reader_impl snapshot_id);
  read_snapshot_payload := read_object_json;
  read_snapshot_root_tree_payload := object_root_tree_payload;
  read_tree_payload := read_object_json
|}.
End Objects.

(** ** Renames *)

Record RenameHint : Type := mkHint {
  rh_blob_id : string;
  rh_old_path : string;
  rh_new_path : string;
  rh_old_parent_path : string;
  rh_new_parent_path : string;
  rh_size_bytes : Z
}.

(** [path.rsplit_once('/')], as the text before the last slash. *)
Fixpoint before_last_slash (path : string) : option string :=
  match path with
  | EmptyString => None
  | String c rest =>
      match before_last_slash rest with
      | Some prefix => Some (String c prefix)
      | None => if bool_decide (c = "/"%char) then Some EmptyString else None
      end
  end.
Definition parent_path (path : string) : string :=
  match before_last_slash path with
  | Some prefix => if bool_decide (prefix = EmptyString) then "." else prefix
  | None => "."
  end.

(** The blob id of a row, unless it is blank. *)
Definition blob_of (rows : file_rows) (path : string) : option string :=
  row ← rows !! path; blob_id ← fr_blob_id row; if bool_decide (trim blob_id = EmptyString) then None else Some blob_id.
Definition by_blob_id (rows : file_rows) (paths : list string) : gmap string (list string) :=
  foldl (fun m path => match blob_of rows path with Some blob_id => <[blob_id := default [] (m !! blob_id) ++ [path]]> m | None => m end) ∅ paths.

Definition rename_hint (old_map new_map : file_rows) (added_by_blob_id : gmap string (list string)) (kv : string * list string) : option RenameHint :=
  new_paths ← added_by_blob_id !! fst kv;
  match snd kv, new_paths with
  | [old_path], [new_path] =>
      old_row ← old_map !! old_path;
      new_row ← new_map !! new_path;
      Some (mkHint (fst kv) old_path new_path (parent_path old_path) (parent_path new_path)
        (default 0%Z (match fr_size_bytes new_row with Some z => Some z | None => fr_size_bytes old_row end)))
  | _, _ => None
  end.

(** The order of pairs and triples of strings. *)
Definition str_le2 (a b : string * string) : bool := str_ltb (fst a) (fst b) || bool_decide (fst a = fst b) && bool_decide (String.le (snd a) (snd b)).
Definition hint_le (a b : RenameHint) : bool :=
  str_ltb (rh_old_path a) (rh_old_path b) ||
  bool_decide (rh_old_path a = rh_old_path b) && str_le2 (rh_new_path a, rh_blob_id a) (rh_new_path b, rh_blob_id b).

Definition build_rename_hints (old_map new_map : file_rows) (added deleted : list string) : list RenameHint :=
  sort_le hint_le (omap (rename_hint old_map new_map (by_blob_id new_map added)) (sorted_entries (by_blob_id old_map deleted))).

Definition rename_hint_json (hint : RenameHint) : JsonValue :=
  json_object [("match_kind", JString "exact_blob_id"); ("blob_id", JString (rh_blob_id hint)); ("old_path", JString (rh_old_path hint));
    ("new_path", JString (rh_new_path hint)); ("old_parent_path", JString (rh_old_parent_path hint));
    ("new_parent_path", JString (rh_new_parent_path hint)); ("size_bytes", i64_json (rh_size_bytes hint))]%string.

(** *** Directories *)

(** Hints of a move from one directory to another. *)
Definition moves_directory (hint : RenameHint) : bool :=
  negb (bool_decide (rh_old_parent_path hint = EmptyString) || bool_decide (rh_new_parent_path hint = EmptyString) ||
    bool_decide (rh_old_parent_path hint = rh_new_parent_path hint)).
Definition parents (hint : RenameHint) : string * string := (rh_old_parent_path hint, rh_new_parent_path hint).

(** [map.entry(key).or_default().insert(value)] *)
Definition add_to (m : gmap string (gset string)) (key value : string) : gmap string (gset string) := <[key := {[value]} ∪ default ∅ (m !! key)]> m.

Record directory_groups : Type := mkGroups {
  old_to_new : gmap string (gset string);
  new_to_old : gmap string (gset string);
  grouped : gmap (string * string) (list RenameHint)
}.
Definition group_hint (g : directory_groups) (hint : RenameHint) : directory_groups :=
  if moves_directory hint then
    mkGroups (add_to (old_to_new g) (rh_old_parent_path hint) (rh_new_parent_path hint))
      (add_to (new_to_old g) (rh_new_parent_path hint) (rh_old_parent_path hint))
      (<[parents hint := default [] (grouped g !! parents hint) ++ [hint]]> (grouped g))
  else g.
Definition group_hints (hints : list RenameHint) : directory_groups := foldl group_hint (mkGroups ∅ ∅ ∅) hints.

Definition renames_json (hint : RenameHint) : JsonValue :=
  json_object [("old_path", JString (rh_old_path hint)); ("new_path", JString (rh_new_path hint)); ("blob_id", JString (rh_blob_id hint))]%string.
Definition paths_le (a b : RenameHint) : bool := str_le2 (rh_old_path a, rh_new_path a) (rh_old_path b, rh_new_path b).
(** The paths that the code reads back from the JSON of a hint are its paths. *)
Definition directory_move_hint (key : string * string) (matched : list RenameHint) : JsonValue :=
  let renames := sort_le paths_le matched in
  json_object [("match_kind", JString "exact_blob_id_group"); ("old_parent_path", JString (fst key)); ("new_parent_path", JString (snd key));
    ("rename_count", count_json (length renames)); ("renames", JArray (map renames_json renames))]%string.
Definition is_directory_move (g : directory_groups) (key : string * string) (matched : list RenameHint) : bool :=
  (2 <=? length matched) && bool_decide (size <$> old_to_new g !! fst key = Some 1) && bool_decide (size <$> new_to_old g !! snd key = Some 1).

(** The groups in the order of a [BTreeMap] over pairs. *)
Definition sorted_groups (g : directory_groups) : list ((string * string) * list RenameHint) :=
  sort_le (fun a b => str_le2 (fst a) (fst b)) (map_to_list (grouped g)).
Definition directory_moves (rename_hints : list RenameHint) : list ((string * string) * list RenameHint) :=
  let g := group_hints rename_hints in filter (fun kv => is_directory_move g (fst kv) (snd kv) = true) (sorted_groups g).
Definition build_directory_move_hints (rename_hints : list RenameHint) : list JsonValue :=
  map (fun kv => directory_move_hint (fst kv) (snd kv)) (directory_moves rename_hints).

(** ** Texts *)

Inductive ChangeTag : Type := TagEqual | TagDelete | TagInsert.
(** [TextDiff::from_lines] of the [similar] crate. *)
Class TextDiffer : Type := {
  all_changes : string -> string -> list ChangeTag;
  unified_diff : string -> string -> string -> string -> string
}.

Record TextDiffPayload : Type := mkTextDiff { td_status : string; td_insertions : nat; td_deletions : nat; td_text : option string }.
Definition no_text (status : string) : TextDiffPayload := mkTextDiff status 0 0 None.

Definition safe_decode_text (data : bytes) (max_bytes : N) : string + string :=
  if (max_bytes <? N.of_nat (length data))%N then inr "too_large"%string
  else if existsb (fun b => bool_decide (b = Byte.x00)) data then inr "binary"%string
  else if valid_utf8 data then inl (string_of_bytes data) else inr "binary"%string.

Section Text.
Context {D : TextDiffer}.

Definition is_tag (tag : ChangeTag) (change : ChangeTag) : bool :=
  match tag, change with TagEqual, TagEqual | TagDelete, TagDelete | TagInsert, TagInsert => true | _, _ => false end.
Definition count_tag (tag : ChangeTag) (changes : list ChangeTag) : nat := length (filter (fun c => is_tag tag c = true) changes).
Definition label (snapshot_id : option string) (path : string) : string := (default "?"%string snapshot_id ++ ":" ++ path)%string.

Definition build_text_diff (path old_text new_text : string) (old_snapshot_id new_snapshot_id : option string) : TextDiffPayload :=
  let changes := all_changes old_text new_text in
  mkTextDiff "text" (count_tag TagInsert changes) (count_tag TagDelete changes)
    (Some (unified_diff (label old_snapshot_id path) (label new_snapshot_id path) old_text new_text)).

Definition diff_of_bytes (path : string) (old_data new_data : bytes) (old_id new_id : option string) (max_bytes : N) : TextDiffPayload :=
  match safe_decode_text old_data max_bytes with
  | inr reason => no_text reason
  | inl old_text =>
      match safe_decode_text new_data max_bytes with
      | inr reason => no_text reason
      | inl new_text => build_text_diff path old_text new_text old_id new_id
      end
  end.

Definition maybe_add_text_diff_from_blob_bytes (blob_bytes_by_id : gmap string bytes) (path : string) (old_row new_row : SnapshotFileRow)
  (old_snapshot_id new_snapshot_id : option string) (max_bytes : N) : TextDiffPayload :=
  match fr_blob_id old_row, fr_blob_id new_row with
  | Some old_blob_id, Some new_blob_id =>
      match blob_bytes_by_id !! old_blob_id, blob_bytes_by_id !! new_blob_id with
      | Some old_data, Some new_data => diff_of_bytes path old_data new_data old_snapshot_id new_snapshot_id max_bytes
      | _, _ => no_text "unavailable"
      end
  | _, _ => no_text "unavailable"
  end.

Definition text_diff_json (value : TextDiffPayload) : JsonValue :=
  json_object [("status", JString (td_status value)); ("insertions", count_json (td_insertions value)); ("deletions", count_json (td_deletions value));
    ("text", optional_string_json (td_text value))]%string.

(** *** Texts of the rows of a report *)

(** The loop over the files of a report: every row gets its [diff], and the
    insertions and deletions are summed. *)
Definition add_text_diff (blobs : gmap string bytes) (old_map new_map : file_rows) (old_id new_id : option string) (max_bytes : N)
  (s : list JsonValue * (nat * nat)) (file_row : JsonValue) : diffed (list JsonValue * (nat * nat)) :=
  match file_row with
  | JObject file_map =>
      status ← string_field file_map "status";
      if negb (bool_decide (status = "modified"%string)) then
        Ok (fst s ++ [JObject (map_insert "diff" (text_diff_json (no_text "metadata_only")) file_map)], snd s)
      else
        path ← string_field file_map "path";
        old_row ← ok_or (old_map !! path) (MissingPath path);
        new_row ← ok_or (new_map !! path) (MissingPath path);
        let text_diff := maybe_add_text_diff_from_blob_bytes blobs path old_row new_row old_id new_id max_bytes in
        Ok (fst s ++ [JObject (map_insert "diff" (text_diff_json text_diff) file_map)],
          (fst (snd s) + td_insertions text_diff, snd (snd s) + td_deletions text_diff))
  | _ => Err (PayloadMustBe "object")
  end.
Definition add_text_diffs (blobs : gmap string bytes) (old_map new_map : file_rows) (old_id new_id : option string) (max_bytes : N) (files : list JsonValue)
  : diffed (list JsonValue * (nat * nat)) := foldM (add_text_diff blobs old_map new_map old_id new_id max_bytes) ([], (0, 0)) files.

(** ** Reports *)

Definition summary_json (files_changed insertions deletions : nat) : list (string * JsonValue) :=
  [("files_changed", count_json files_changed); ("insertions", count_json insertions); ("deletions", count_json deletions)]%string.
Definition ids_json (old_id new_id : option string) : list (string * JsonValue) :=
  [("old_snapshot_id", optional_string_json old_id); ("new_snapshot_id", optional_string_json new_id)]%string.

(** The report of a difference; the tree reader and the manifests give it the
    same fields. *)
Definition report_json (old_id new_id : option string) (added deleted modified mode_changed : list string) (rename_hints : list RenameHint)
  (files : list JsonValue) (summary : list (string * JsonValue)) : JsonValue :=
  json_object (ids_json old_id new_id ++
    [("added", strings_json added); ("deleted", strings_json deleted); ("modified", strings_json modified); ("mode_changed", strings_json mode_changed);
     ("rename_hints", JArray (map rename_hint_json rename_hints)); ("directory_move_hints", JArray (build_directory_move_hints rename_hints));
     ("files", JArray files); ("summary", json_object summary)]%string).

Definition snapshot_diff_from_tree_result (state : SnapshotTreeDiffState) (blobs : gmap string bytes) (old_id new_id : option string)
  (include_text : bool) (max_bytes : N) : diffed JsonValue :=
  let hints := build_rename_hints (old_rows state) (new_rows state) (added state) (deleted state) in
  let files_changed := length (added state) + length (deleted state) + length (modified state) + length (mode_changed state) in
  texts ← (if include_text then add_text_diffs blobs (old_rows state) (new_rows state) old_id new_id max_bytes (file_entries state)
           else Ok (file_entries state, (0, 0)));
  Ok (report_json old_id new_id (added state) (deleted state) (modified state) (mode_changed state) hints (fst texts)
    (summary_json files_changed (fst (snd texts)) (snd (snd texts)) ++ ids_json old_id new_id)).

(** *** From manifests *)

(** What the loops over two manifests find. *)
Record manifest_changes : Type := mkChanges {
  mc_added : list string;
  mc_deleted : list string;
  mc_modified : list string;
  mc_mode_changed : list string;
  mc_files : list JsonValue
}.
Definition shared_change (old_map new_map : file_rows) (s : list string * list string * list JsonValue) (path : string)
  : diffed (list string * list string * list JsonValue) :=
  let '(modified, mode_changed, files) := s in
  old_row ← ok_or (old_map !! path) (MissingPath path);
  new_row ← ok_or (new_map !! path) (MissingPath path);
  if mode_only old_row new_row then
    Ok (modified, mode_changed ++ [path], files ++ [file_entry path "mode_changed" (Some old_row) (Some new_row)])
  else if content_changed old_row new_row then
    Ok (modified ++ [path], mode_changed, files ++ [file_entry path "modified" (Some old_row) (Some new_row)])
  else Ok (modified, mode_changed, files).
Definition changes_of_manifests (old_map new_map : file_rows) : diffed manifest_changes :=
  let added := sorted_elements (dom new_map ∖ dom old_map) in
  let deleted := sorted_elements (dom old_map ∖ dom new_map) in
  files ← foldM (fun files path => row ← ok_or (new_map !! path) (MissingPath path); Ok (files ++ [file_entry path "added" None (Some row)])) [] added;
  files ← foldM (fun files path => row ← ok_or (old_map !! path) (MissingPath path); Ok (files ++ [file_entry path "deleted" (Some row) None])) files deleted;
  '(modified, mode_changed, files) ← foldM (shared_change old_map new_map) ([], [], files) (sorted_elements (dom old_map ∩ dom new_map));
  Ok (mkChanges added deleted modified mode_changed files).

Definition files_changed (c : manifest_changes) : nat := length (mc_added c) + length (mc_deleted c) + length (mc_modified c) + length (mc_mode_changed c).
Definition changes_report (old_map new_map : file_rows) (c : manifest_changes) (old_id new_id : option string) (files : list JsonValue)
  (summary : list (string * JsonValue)) : JsonValue :=
  report_json old_id new_id (mc_added c) (mc_deleted c) (mc_modified c) (mc_mode_changed c)
    (build_rename_hints old_map new_map (mc_added c) (mc_deleted c)) files summary.

Definition diff_snapshot_manifests_impl (old_files new_files : JsonValue) (old_id new_id : option string) : diffed JsonValue :=
  old_map ← coerce_snapshot_manifest old_files;
  new_map ← coerce_snapshot_manifest new_files;
  c ← changes_of_manifests old_map new_map;
  Ok (changes_report old_map new_map c old_id new_id (mc_files c) (summary_json (files_changed c) 0 0)).

(** The code adds fields to the report of [diff_snapshot_manifests_impl]; a
    field of a JSON object that is set again keeps its place. *)
Definition object_of (value : JsonValue) (what : string) : diffed Map := match value with JObject m => Ok m | _ => Err (PayloadMustBe what) end.
Definition object_field (m : Map) (key what : string) : diffed Map :=
  ok_or (map_get key m ≫= fun v => match v with JObject m => Some m | _ => None end) (PayloadMustBe what).
Definition list_field (m : Map) (key what : string) : diffed (list JsonValue) :=
  ok_or (map_get key m ≫= fun v => match v with JArray l => Some l | _ => None end) (PayloadMustBe what).

Definition snapshot_diff_from_manifests_impl (old_files new_files : JsonValue) (blobs : gmap string bytes) (old_id new_id : option string)
  (include_text : bool) (max_bytes : N) : diffed JsonValue :=
  old_map ← coerce_snapshot_manifest old_files;
  new_map ← coerce_snapshot_manifest new_files;
  result ← diff_snapshot_manifests_impl old_files new_files old_id new_id;
  root ← object_of result "object";
  summary ← object_field root "summary" "summary";
  let summary := map_insert "new_snapshot_id" (optional_string_json new_id) (map_insert "old_snapshot_id" (optional_string_json old_id) summary) in
  let root := map_insert "summary" (JObject summary) root in
  if negb include_text then Ok (JObject root)
  else
    files ← list_field root "files" "files";
    texts ← add_text_diffs blobs old_map new_map old_id new_id max_bytes files;
    let root := map_insert "files" (JArray (fst texts)) root in
    summary ← object_field root "summary" "summary";
    let summary := map_insert "deletions" (count_json (snd (snd texts))) (map_insert "insertions" (count_json (fst (snd texts))) summary) in
    Ok (JObject (map_insert "summary" (JObject summary) root)).
End Text.

(** *** From readers *)

Definition insert_row_blob_id (blob_ids : gset string) (row : SnapshotFileRow) : gset string :=
  match fr_blob_id row with
  | Some blob_id => if bool_decide (trim blob_id = EmptyString) then blob_ids else {[blob_id]} ∪ blob_ids
  | None => blob_ids
  end.
Definition collect_blob_bytes_by_id {B : BlobReader} (blob_ids : gset string) : diffed (gmap string bytes) :=
  map_err ReaderError (read_blob_bytes_batch (sorted_elements blob_ids)).
Definition collect_blob_bytes_for_modified_rows {B : BlobReader} (old_map new_map : file_rows) (modified_paths : list string) : diffed (gmap string bytes) :=
  blob_ids ← foldM (fun blob_ids path =>
    old_row ← ok_or (old_map !! path) (MissingPath path);
    new_row ← ok_or (new_map !! path) (MissingPath path);
    Ok (insert_row_blob_id (insert_row_blob_id blob_ids old_row) new_row)) ∅ modified_paths;
  collect_blob_bytes_by_id blob_ids.
Definition collect_blob_bytes_for_modified_snapshot_manifests {B : BlobReader} (old_files new_files : JsonValue) : diffed (gmap string bytes) :=
  old_map ← coerce_snapshot_manifest old_files;
  new_map ← coerce_snapshot_manifest new_files;
  collect_blob_bytes_by_id (foldl (fun blob_ids kv =>
    match new_map !! fst kv with
    | Some new_row => if content_changed (snd kv) new_row then insert_row_blob_id (insert_row_blob_id blob_ids (snd kv)) new_row else blob_ids
    | None => blob_ids
    end) ∅ (sorted_entries old_map)).

Section Readers.
Context {R : SnapshotReader} {D : TextDiffer} (blob_reader : option BlobReader) (depth : nat).
Context (old_snapshot_id new_snapshot_id : option string) (include_text : bool) (max_bytes : N).

(** The blobs of a report with texts. *)
Definition blobs_if_text (collect : BlobReader -> diffed (gmap string bytes)) : diffed (gmap string bytes) :=
  if include_text then reader ← ok_or blob_reader BlobReaderRequired; collect reader else Ok ∅.

Definition try_snapshot_diff_from_tree_reader : diffed (option JsonValue) :=
  old_root ← resolve_snapshot_tree_root old_snapshot_id;
  new_root ← resolve_snapshot_tree_root new_snapshot_id;
  if negb (is_some old_root || is_some new_root) then Ok None
  else
    tree_result ← diff_snapshot_trees depth old_root new_root;
    blobs ← blobs_if_text (fun reader => collect_blob_bytes_for_modified_rows (B := reader) (old_rows tree_result) (new_rows tree_result) (modified tree_result));
    payload ← snapshot_diff_from_tree_result tree_result blobs old_snapshot_id new_snapshot_id include_text max_bytes;
    Ok (Some payload).

Definition manifest_of_snapshot (snapshot_id : option string) : diffed JsonValue :=
  match snapshot_id with Some snapshot_id => map_err ReaderError (read_snapshot_manifest snapshot_id) | None => Ok (JObject []) end.

Definition snapshot_diff_from_readers_impl : diffed JsonValue :=
  payload ← try_snapshot_diff_from_tree_reader;
  match payload with
  | Some payload => Ok payload
  | None =>
      old_files ← manifest_of_snapshot old_snapshot_id;
      new_files ← manifest_of_snapshot new_snapshot_id;
      blobs ← blobs_if_text (fun reader => collect_blob_bytes_for_modified_snapshot_manifests (B := reader) old_files new_files);
      snapshot_diff_from_manifests_impl old_files new_files blobs old_snapshot_id new_snapshot_id include_text max_bytes
  end.
End Readers.

Definition snapshot_diff_from_object_reader_impl {O : ObjectReader} {D : TextDiffer} (error_text : diff_error -> string) (blob_reader : option BlobReader)
  (depth : nat) (old_id new_id : option string) (include_text : bool) (max_bytes : N) : diffed JsonValue :=
  snapshot_diff_from_readers_impl (R := ObjectBackedSnapshotReader error_text depth) blob_reader depth old_id new_id include_text max_bytes.

(** ** Workspaces *)

Record WorkspaceDiffEntry : Type := mkWorkspaceEntry {
  we_path : string;
  we_status : string;
  we_old_bytes : option bytes;
  we_new_bytes : option bytes;
  we_old_mode : option string;
  we_new_mode : option string
}.
Definition workspace_entry_text_diff {D : TextDiffer} (entry : WorkspaceDiffEntry) (baseline_label workspace_label : string) (max_bytes : N) : TextDiffPayload :=
  let old_data := default [] (we_old_bytes entry) in
  let new_data := default [] (we_new_bytes entry) in
  if bool_decide (old_data = new_data) then no_text "metadata_only"
  else diff_of_bytes (we_path entry) old_data new_data (Some baseline_label) (Some workspace_label) max_bytes.
Definition paths_with_status (status : string) (entries : list WorkspaceDiffEntry) : list string :=
  map we_path (filter (fun entry => we_status entry = status) entries).
Definition workspace_file_json (entry : WorkspaceDiffEntry) (diff : TextDiffPayload) : JsonValue :=
  json_object [("path", JString (we_path entry)); ("status", JString (we_status entry)); ("old_mode", optional_string_json (we_old_mode entry));
    ("new_mode", optional_string_json (we_new_mode entry)); ("diff", text_diff_json diff)]%string.
Definition workspace_diff_from_entries {D : TextDiffer} (entries : list WorkspaceDiffEntry) (baseline_label workspace_label : string)
  (include_text : bool) (max_bytes : N) : JsonValue :=
  let diff entry := if include_text then workspace_entry_text_diff entry baseline_label workspace_label max_bytes else no_text "metadata_only" in
  json_object [("modified", strings_json (paths_with_status "modified" entries)); ("missing", strings_json (paths_with_status "missing" entries));
    ("untracked", strings_json (paths_with_status "untracked" entries)); ("changed_paths", strings_json (map we_path entries));
    ("files", JArray (map (fun entry => workspace_file_json entry (diff entry)) entries));
    ("summary", json_object (summary_json (length entries) (sum_list_with (fun entry => td_insertions (diff entry)) entries)
      (sum_list_with (fun entry => td_deletions (diff entry)) entries)))]%string.
