(* ===== verification/TreeDiff.v ===== *)
(** * Differences of trees

    The difference of two snapshots that [ObjectDiff] finds by walking their
    trees, against the difference of the manifests of all their files. *)

From Stdlib Require Import NArith ZArith Lia Ascii.
From stdpp Require Import base numbers strings gmap list sorting.
From S2P Require Import Prelude Json ObjectDiff.

(** ** Changes *)

Inductive change : Type :=
| Added (row : SnapshotFileRow)
| Deleted (row : SnapshotFileRow)
| Changed (old_row new_row : SnapshotFileRow).

Definition differs (old_row new_row : SnapshotFileRow) : bool := mode_only old_row new_row || content_changed old_row new_row.
Definition change_of (old_row new_row : option SnapshotFileRow) : option change :=
  match old_row, new_row with
  | None, Some row => Some (Added row)
  | Some row, None => Some (Deleted row)
  | Some old_row, Some new_row => if differs old_row new_row then Some (Changed old_row new_row) else None
  | None, None => None
  end.

Definition apply_change (state : SnapshotTreeDiffState) (pc : string * change) : SnapshotTreeDiffState :=
  match snd pc with
  | Added row => push_added_row state row
  | Deleted row => push_deleted_row state row
  | Changed old_row new_row => push_change (fst pc) old_row new_row state
  end.

(** The changes from [m] to [n], each once. *)
Definition lists_changes (l : list (string * change)) (m n : file_rows) : Prop :=
  NoDup (map fst l) /\ forall p c, (p, c) ∈ l <-> change_of (m !! p) (n !! p) = Some c.

Lemma lists_changes_perm l l' m n : lists_changes l m n -> lists_changes l' m n -> l ≡ₚ l'.
Proof. intros [H1 H2] [H3 H4]. apply NoDup_Permutation; [by eapply NoDup_fmap_1|by eapply NoDup_fmap_1|]. intros [p c]. by rewrite H2, H4. Qed.

Lemma lists_nothing : lists_changes [] ∅ ∅.
Proof. split; [constructor|]. intros p c. rewrite !lookup_empty. split; [by intros ?%elem_of_nil|done]. Qed.

Lemma differs_self row : differs row row = false.
Proof.
  unfold differs, mode_only, content_changed. rewrite Z.eqb_refl, bool_decide_eq_true_2 by done. cbn. destruct (fr_size_bytes row); cbn; [by rewrite Z.eqb_refl|done].
Qed.

Lemma lists_same m : lists_changes [] m m.
Proof.
  split; [constructor|]. intros p c. split; [by intros ?%elem_of_nil|]. destruct (m !! p) as [row|]; cbn; [by rewrite differs_self|done].
Qed.

(** Maps with no key in common with other maps. *)
Definition separate (m n m' n' : file_rows) : Prop := forall p, is_Some (m !! p) \/ is_Some (n !! p) -> m' !! p = None /\ n' !! p = None.

Lemma lists_changes_app l l' m n m' n' : separate m n m' n' -> lists_changes l m n -> lists_changes l' m' n' -> lists_changes (l ++ l') (m ∪ m') (n ∪ n').
Proof.
  intros Hsep [H1 H2] [H3 H4].
  assert (forall p c, (p, c) ∈ l -> m' !! p = None /\ n' !! p = None) as Hl.
  { intros p c Hin%H2. apply Hsep. destruct (m !! p), (n !! p); try discriminate Hin; eauto. }
  split.
  - rewrite map_app, NoDup_app. split; [done|]. split; [|done]. intros p ([q c] & -> & Hin)%list_elem_of_fmap ([q' c'] & Hq & Hin')%list_elem_of_fmap. cbn in Hq. subst q'.
    destruct (Hl _ _ Hin) as [Hm Hn]. apply H4 in Hin'. by rewrite Hm, Hn in Hin'.
  - intros p c. rewrite elem_of_app, H2, H4. destruct (decide (is_Some (m !! p) \/ is_Some (n !! p))) as [Hp|Hp].
    + destruct (Hsep p Hp) as [Hm Hn]. rewrite (lookup_union_l m m' p Hm), (lookup_union_l n n' p Hn), Hm, Hn. split; [by intros [?|?]|by left].
    + assert (m !! p = None) as Hm by (apply eq_None_not_Some; tauto). assert (n !! p = None) as Hn by (apply eq_None_not_Some; tauto).
      rewrite (lookup_union_r m m' p Hm), (lookup_union_r n n' p Hn), Hm, Hn. split; [by intros [?|?]|by right].
Qed.

(** ** Paths *)

Fixpoint no_slash (name : string) : bool :=
  match name with EmptyString => true | String c name => negb (bool_decide (c = "/"%char)) && no_slash name end.
Definition ends_segment (rest : string) : Prop := rest = EmptyString \/ exists tail, rest = String "/"%char tail.

Lemma same_segment a b r r' : no_slash a = true -> no_slash b = true -> ends_segment r -> ends_segment r' -> a +:+ r = b +:+ r' -> a = b.
Proof.
  revert b. induction a as [|c a IH]; intros [|c' b] Ha Hb Hr Hr' Heq; cbn in Ha, Hb; [done|exfalso|exfalso|].
  - change (r = String c' (b +:+ r')) in Heq. apply andb_true_iff in Hb as [Hc _]. destruct Hr as [->|[t ->]]; [discriminate Heq|]. injection Heq as <- _. by rewrite bool_decide_eq_true_2 in Hc.
  - change (String c (a +:+ r) = r') in Heq. apply andb_true_iff in Ha as [Hc _]. destruct Hr' as [->|[t ->]]; [discriminate Heq|]. injection Heq as -> _. by rewrite bool_decide_eq_true_2 in Hc.
  - change (String c (a +:+ r) = String c' (b +:+ r')) in Heq. injection Heq as -> Heq. apply andb_true_iff in Ha as [_ Ha]. apply andb_true_iff in Hb as [_ Hb]. f_equal. by apply IH.
Qed.

Lemma app_inv_l (a b c : string) : a +:+ b = a +:+ c -> b = c.
Proof. induction a as [|x a IH]; [done|]. change (String x (a +:+ b) = String x (a +:+ c) -> b = c). intros [= H]. by apply IH. Qed.
Lemma app_assoc_str (a b c : string) : (a +:+ b) +:+ c = a +:+ (b +:+ c).
Proof. induction a as [|x a IH]; [done|]. change (String x ((a +:+ b) +:+ c) = String x (a +:+ (b +:+ c))). by rewrite IH. Qed.
Lemma app_empty_str (a : string) : a +:+ EmptyString = a.
Proof. induction a as [|x a IH]; [done|]. change (String x (a +:+ EmptyString) = String x a). by rewrite IH. Qed.

(** [path] is the file or directory [p], or is in it. *)
Definition under (p path : string) : Prop := exists rest, ends_segment rest /\ path = p +:+ rest.
Definition under_prefix (prefix path : string) : Prop := prefix = EmptyString \/ under prefix path.

Lemma under_self p : under p p.
Proof. exists EmptyString. split; [by left|]. by rewrite app_empty_str. Qed.

Lemma join_cases prefix name : join_tree_path prefix name = if bool_decide (prefix = EmptyString) then name else prefix +:+ String "/"%char name.
Proof. reflexivity. Qed.
Lemma join_not_empty prefix name : name <> EmptyString -> join_tree_path prefix name <> EmptyString.
Proof. intros Hn. rewrite join_cases. case_bool_decide; [done|]. destruct prefix; [done|]. discriminate. Qed.

Lemma under_join prefix name path : under (join_tree_path prefix name) path -> under_prefix prefix path.
Proof.
  rewrite join_cases. case_bool_decide as Hp; [by left|]. intros (rest & _ & ->). right. exists (String "/"%char (name +:+ rest)).
  split; [right; by eexists|]. rewrite app_assoc_str. done.
Qed.

Lemma under_one prefix name name' path : no_slash name = true -> no_slash name' = true ->
  under (join_tree_path prefix name) path -> under (join_tree_path prefix name') path -> name = name'.
Proof.
  rewrite !join_cases. intros Hn Hn' (r & Hr & ->) (r' & Hr' & Heq). case_bool_decide.
  - by apply (same_segment name name' r r').
  - rewrite !app_assoc_str in Heq. apply app_inv_l in Heq. change (String "/"%char (name +:+ r) = String "/"%char (name' +:+ r')) in Heq. injection Heq as Heq. by apply (same_segment name name' r r').
Qed.

(** ** Maps in pieces *)

Definition assemble (piece : string -> file_rows) (names : list string) : file_rows := foldr (fun name m => piece name ∪ m) ∅ names.

Lemma lookup_assemble piece names p row : (forall name name', is_Some (piece name !! p) -> is_Some (piece name' !! p) -> name = name') ->
  assemble piece names !! p = Some row <-> exists name, name ∈ names /\ piece name !! p = Some row.
Proof.
  intros Hone. induction names as [|name names IH]; cbn [assemble foldr]; [rewrite lookup_empty; split; [done|by intros (? & ?%elem_of_nil & _)]|].
  fold (assemble piece names). split.
  - intros H. destruct (piece name !! p) as [row'|] eqn:Hp.
    + rewrite (lookup_union_Some_l _ _ _ _ Hp) in H. injection H as <-. exists name. split; [by left|done].
    + rewrite lookup_union_r in H by done. apply IH in H as (n & Hn & Hrow). exists n. split; [by right|done].
  - intros (n & Hn & Hrow). apply elem_of_cons in Hn as [->|Hn]; [by apply lookup_union_Some_l|].
    destruct (piece name !! p) as [row'|] eqn:Hp; [|rewrite lookup_union_r by done; apply IH; eauto].
    assert (name = n) as -> by (apply Hone; by eexists). rewrite Hp in Hrow. rewrite (lookup_union_Some_l _ _ _ _ Hp). congruence.
Qed.

Lemma assemble_app piece l l' : assemble piece (l ++ l') = assemble piece l ∪ assemble piece l'.
Proof. induction l as [|x l IH]; cbn; [by rewrite map_empty_union|]. fold (assemble piece (l ++ l')). by rewrite IH, map_union_assoc. Qed.
Lemma assemble_one piece name : assemble piece [name] = piece name.
Proof. cbn. apply map_union_empty. Qed.

(** ** Trees without a cache *)

Section Trees.
Context {R : SnapshotReader}.

Definition entries_of (tree_id : string) : diffed tree_rows :=
  payload ← map_err ReaderError (read_tree_payload tree_id);
  payload ← ok_or payload (MissingTreePayload tree_id);
  parse_tree_entries tree_id payload.

(** Names of entries have no slash. *)
Definition plain_names : Prop := forall tree_id entries name, entries_of tree_id = Ok entries -> is_Some (entries !! name) -> no_slash name = true.
Context (Hplain : plain_names).

Definition cache_ok (cache : tree_cache) : Prop := forall tree_id entries, cache !! tree_id = Some entries -> entries_of tree_id = Ok entries.
Lemma empty_cache_ok : cache_ok ∅.
Proof. intros ? ?. by rewrite lookup_empty. Qed.

Lemma load_run tree_id cache : cache_ok cache ->
  match entries_of tree_id with
  | Ok entries => exists cache', load_tree_entries tree_id cache = Ok (entries, cache') /\ cache_ok cache'
  | Err e => load_tree_entries tree_id cache = Err e
  end.
Proof.
  intros Hc. unfold load_tree_entries. destruct (cache !! tree_id) as [entries|] eqn:Hl; [rewrite (Hc _ _ Hl); by exists cache|].
  unfold entries_of at 1. destruct (read_tree_payload tree_id) as [payload|e] eqn:Hread; [|done]. cbn [map_err mbind result_bind].
  destruct payload as [payload|]; [|done]. cbn [ok_or mbind result_bind]. destruct (parse_tree_entries tree_id payload) as [entries|e] eqn:Hp; [|done].
  cbn [mbind result_bind]. eexists. split; [done|]. intros id es. destruct (decide (tree_id = id)) as [<-|Hne]; [rewrite lookup_insert_eq|rewrite lookup_insert_ne by done; apply Hc].
  intros [= <-]. unfold entries_of. rewrite Hread. cbn. done.
Qed.

(** Entries have names. *)
Lemma entries_named tree_id entries name : entries_of tree_id = Ok entries -> is_Some (entries !! name) -> name <> EmptyString.
Proof.
  unfold entries_of. intros H. skip_bind H. apply bind_Ok in H as (payload & _ & H). unfold parse_tree_entries in H. apply bind_Ok in H as (rows & _ & H). revert name.
  refine (foldM_ind (parse_tree_entry tree_id) (fun _ m => forall name, is_Some (m !! name) -> name <> EmptyString) rows ∅ entries _ _ H).
  { intros name [e He]. by rewrite lookup_empty in He. }
  intros seen row rest m m' _ IH Hstep name. unfold parse_tree_entry in Hstep. destruct row as [| | | | |obj]; try discriminate Hstep.
  apply bind_Ok in Hstep as (n & Hn & Hstep). skip_bind Hstep. skip_bind Hstep. skip_bind Hstep. skip_bind Hstep. apply bind_Ok in Hstep as (? & _ & [= <-]).
  destruct (decide (n = name)) as [<-|Hne]; [|rewrite lookup_insert_ne by done; apply IH]. intros _ ->.
  unfold text_field_or, required_text_field in Hn. destruct (string_field obj "entry_name") as [s|e]; cbn [mbind result_bind] in Hn.
  - destruct (bool_decide_reflect (trim s = EmptyString)) as [|Hs]; cbn [fail_if mbind result_bind] in Hn; [|injection Hn as ->; by apply Hs].
    apply bind_Ok in Hn as (s' & _ & Hn). apply bind_Ok in Hn as (? & Hf & [= ->]). by rewrite fail_if_Ok in Hf.
  - apply bind_Ok in Hn as (s' & _ & Hn). apply bind_Ok in Hn as (? & Hf & [= ->]). by rewrite fail_if_Ok in Hf.
Qed.

(** The files below a tree and below an entry. *)
Fixpoint tree_map (depth : nat) (tree_id prefix : string) : diffed file_rows :=
  match depth with
  | O => Err StackOverflow
  | S depth =>
      entries ← entries_of tree_id;
      foldM (fun rows kv =>
        let path := join_tree_path prefix (fst kv) in
        m ← (if bool_decide (te_entry_type (snd kv) = "tree"%string) then tree_map depth (te_target_id (snd kv)) path
             else row ← snapshot_file_row_from_tree_entry path (snd kv); Ok {[path := row]});
        Ok (m ∪ rows)) ∅ (sorted_entries entries)
  end.
Definition entry_map (depth : nat) (entry : SnapshotTreeEntry) (path : string) : diffed file_rows :=
  if bool_decide (te_entry_type entry = "tree"%string) then tree_map depth (te_target_id entry) path
  else row ← snapshot_file_row_from_tree_entry path entry; Ok {[path := row]}.

Lemma entry_map_eq depth entry path : entry_map depth entry path =
  if bool_decide (te_entry_type entry = "tree"%string) then tree_map depth (te_target_id entry) path
  else row ← snapshot_file_row_from_tree_entry path entry; Ok {[path := row]}.
Proof. done. Qed.
Lemma tree_map_S depth tree_id prefix : tree_map (S depth) tree_id prefix =
  (entries ← entries_of tree_id; foldM (fun rows kv => m ← entry_map depth (snd kv) (join_tree_path prefix (fst kv)); Ok (m ∪ rows)) ∅ (sorted_entries entries)).
Proof. done. Qed.

(** What the code collects is what is below the tree. *)
Definition collects depth : Prop := forall tree_id prefix cache rows, cache_ok cache ->
  match tree_map depth tree_id prefix with
  | Ok m => exists cache', collect_tree_file_rows depth tree_id prefix (cache, rows) = Ok (cache', m ∪ rows) /\ cache_ok cache'
  | Err e => collect_tree_file_rows depth tree_id prefix (cache, rows) = Err e
  end.

Lemma collect_loop depth prefix l acc rows cache : collects depth -> cache_ok cache ->
  match foldM (fun rows kv => m ← entry_map depth (snd kv) (join_tree_path prefix (fst kv)); Ok (m ∪ rows)) acc l with
  | Ok m => exists cache', foldM (fun state '(name, entry) =>
      let path := join_tree_path prefix name in
      if bool_decide (te_entry_type entry = "tree"%string) then collect_tree_file_rows depth (te_target_id entry) path state
      else row ← snapshot_file_row_from_tree_entry path entry; Ok (fst state, <[path := row]> (snd state))) (cache, acc ∪ rows) l = Ok (cache', m ∪ rows) /\ cache_ok cache'
  | Err e => foldM (fun state '(name, entry) =>
      let path := join_tree_path prefix name in
      if bool_decide (te_entry_type entry = "tree"%string) then collect_tree_file_rows depth (te_target_id entry) path state
      else row ← snapshot_file_row_from_tree_entry path entry; Ok (fst state, <[path := row]> (snd state))) (cache, acc ∪ rows) l = Err e
  end.
Proof.
  intros Hcollects. revert acc cache. induction l as [|[name entry] l IH]; intros acc cache Hc; cbn [foldM fst snd]; [by exists cache|].
  rewrite (entry_map_eq depth entry). case_bool_decide.
  - specialize (Hcollects (te_target_id entry) (join_tree_path prefix name) cache (acc ∪ rows) Hc).
    destruct (tree_map depth _ _) as [m|e]; cbn [mbind result_bind]; [|rewrite Hcollects; done].
    destruct Hcollects as (cache' & -> & Hc'). cbn [mbind result_bind]. rewrite map_union_assoc. by apply IH.
  - destruct (snapshot_file_row_from_tree_entry _ entry) as [row|e]; cbn [mbind result_bind]; [|done]. rewrite insert_union_singleton_l, map_union_assoc. by apply IH.
Qed.

Lemma collect_run depth : collects depth.
Proof.
  induction depth as [|depth IH]; intros tree_id prefix cache rows Hc; [done|]. rewrite tree_map_S. cbn [collect_tree_file_rows fst snd].
  pose proof (load_run tree_id cache Hc) as Hload. destruct (entries_of tree_id) as [entries|e]; cbn [mbind result_bind]; [|by rewrite Hload].
  destruct Hload as (cache' & -> & Hc'). cbn [mbind result_bind fst snd].
  pose proof (collect_loop depth prefix (sorted_entries entries) ∅ rows cache' IH Hc') as H. by rewrite map_empty_union in H.
Qed.

Lemma subtree_run depth tree_id path cache m : cache_ok cache -> tree_map depth tree_id path = Ok m ->
  exists cache', collect_subtree_rows depth tree_id path cache = Ok (cache', m) /\ cache_ok cache'.
Proof.
  intros Hc Hm. pose proof (collect_run depth tree_id path cache ∅ Hc) as H. rewrite Hm in H. unfold collect_subtree_rows. by rewrite map_union_empty in H.
Qed.

(** *** Paths below trees *)

Definition rows_under (P : string -> Prop) (m : file_rows) : Prop := forall p row, m !! p = Some row -> P p /\ fr_path row = p.

Lemma rows_union P m m' : rows_under P m -> rows_under P m' -> rows_under P (m ∪ m').
Proof. intros H H' p row [Hp|[_ Hp]]%lookup_union_Some_raw; [by apply H|by apply H']. Qed.

Lemma entry_under depth : (forall tree_id prefix m, prefix <> EmptyString -> tree_map depth tree_id prefix = Ok m -> rows_under (fun p => under prefix p /\ p <> prefix) m) ->
  forall entry path m, path <> EmptyString -> entry_map depth entry path = Ok m -> rows_under (under path) m.
Proof.
  intros Htree entry path m Hpath. unfold entry_map. case_bool_decide.
  - intros Hm p row Hp. destruct (Htree _ _ _ Hpath Hm p row Hp) as [[? _] ?]. done.
  - intros (row & Hrow & [= <-])%bind_Ok. intros p row' [<- <-]%lookup_singleton_Some. split; [apply under_self|]. unfold snapshot_file_row_from_tree_entry in Hrow. by apply bind_Ok in Hrow as (_ & _ & [= <-]).
Qed.

Lemma tree_under depth tree_id prefix m : prefix <> EmptyString -> tree_map depth tree_id prefix = Ok m -> rows_under (fun p => under prefix p /\ p <> prefix) m.
Proof.
  revert tree_id prefix m. induction depth as [|depth IH]; intros tree_id prefix m Hprefix; [done|]. rewrite tree_map_S. intros (entries & Hentries & H)%bind_Ok.
  refine (foldM_ind _ (fun _ m => rows_under (fun p => under prefix p /\ p <> prefix) m) _ ∅ m _ _ H); [by intros p row; rewrite lookup_empty|].
  intros seen [name entry] rest m1 m2 Hl Hm1 Hstep. apply bind_Ok in Hstep as (me & Hme & [= <-]). apply rows_union; [|done].
  assert (name <> EmptyString) as Hname.
  { eapply entries_named; [exact Hentries|]. exists entry. apply elem_of_sorted_entries. rewrite Hl. set_solver. }
  intros p row Hp. destruct (entry_under depth IH _ _ _ (join_not_empty prefix name Hname) Hme p row Hp) as [Hu Hrow]. cbn [fst] in Hu. split; [|done].
  split; [by destruct (under_join _ _ _ Hu)|]. intros ->. destruct Hu as (rest' & _ & Heq). rewrite join_cases, bool_decide_eq_false_2 in Heq by done.
  rewrite app_assoc_str in Heq. rewrite <- (app_empty_str prefix) in Heq at 1. by apply app_inv_l in Heq.
Qed.
Lemma entry_rows_under depth entry path m : path <> EmptyString -> entry_map depth entry path = Ok m -> rows_under (under path) m.
Proof. apply entry_under. intros *. apply tree_under. Qed.

(** *** The pieces of a tree *)

Definition piece (depth : nat) (entries : tree_rows) (prefix name : string) : file_rows :=
  match entries !! name with
  | Some entry => match entry_map depth entry (join_tree_path prefix name) with Ok m => m | Err _ => ∅ end
  | None => ∅
  end.

Definition root_entries (root : option string) : diffed tree_rows := match root with Some tree_id => entries_of tree_id | None => Ok ∅ end.
Definition root_map (depth : nat) (root : option string) (prefix : string) : diffed file_rows :=
  match root, depth with Some tree_id, _ => tree_map depth tree_id prefix | None, O => Err StackOverflow | None, S _ => Ok ∅ end.

(** The pieces can be read. *)
Definition readable (depth : nat) (entries : tree_rows) (prefix : string) : Prop :=
  forall name entry, entries !! name = Some entry -> name <> EmptyString /\ no_slash name = true /\ exists m, entry_map depth entry (join_tree_path prefix name) = Ok m.

Lemma piece_under depth entries prefix name p : readable depth entries prefix -> is_Some (piece depth entries prefix name !! p) ->
  no_slash name = true /\ under (join_tree_path prefix name) p.
Proof.
  intros Hr [row Hp]. unfold piece in Hp. destruct (entries !! name) as [entry|] eqn:He; [|by rewrite lookup_empty in Hp].
  destruct (Hr _ _ He) as (Hne & Hplain' & m & Hm). rewrite Hm in Hp. split; [done|]. by destruct (entry_rows_under depth entry _ m (join_not_empty prefix name Hne) Hm p row Hp).
Qed.

Lemma piece_one depth entries entries' prefix name name' p : readable depth entries prefix -> readable depth entries' prefix ->
  is_Some (piece depth entries prefix name !! p) -> is_Some (piece depth entries' prefix name' !! p) -> name = name'.
Proof. intros Hr Hr' [H1 H2]%(piece_under _ _ _ _ _ Hr) [H3 H4]%(piece_under _ _ _ _ _ Hr'). by eapply under_one. Qed.

Lemma tree_pieces depth tree_id prefix m : tree_map (S depth) tree_id prefix = Ok m ->
  exists entries, entries_of tree_id = Ok entries /\ readable depth entries prefix /\
    forall names, (forall name, is_Some (entries !! name) -> name ∈ names) -> m = assemble (piece depth entries prefix) names.
Proof.
  rewrite tree_map_S. intros (entries & Hentries & H)%bind_Ok. exists entries. split; [done|].
  assert (readable depth entries prefix) as Hr.
  { intros name entry He. split; [eapply entries_named; [exact Hentries|by exists entry]|]. split; [eapply Hplain; [exact Hentries|by exists entry]|].
    destruct (foldM_Ok_each _ _ _ _ (name, entry) H ltac:(by apply elem_of_sorted_entries)) as (s1 & s2 & Hs). apply bind_Ok in Hs as (m' & Hm' & _). by exists m'. }
  split; [done|]. intros names Hnames.
  assert (forall p row, m !! p = Some row <-> exists name entry, (name, entry) ∈ sorted_entries entries /\ piece depth entries prefix name !! p = Some row) as Hm.
  { refine (foldM_ind _ (fun seen m => forall p row, m !! p = Some row <-> exists name entry, (name, entry) ∈ seen /\ piece depth entries prefix name !! p = Some row) _ ∅ m _ _ H).
    - intros p row. rewrite lookup_empty. split; [done|]. by intros (? & ? & ?%elem_of_nil & _).
    - intros seen [name entry] rest m1 m2 Hl IH Hstep p row. apply bind_Ok in Hstep as (me & Hme & [= <-]). cbn [fst snd] in Hme.
      assert (entries !! name = Some entry) as He by (apply elem_of_sorted_entries; rewrite Hl; set_solver).
      assert (piece depth entries prefix name = me) as Hpiece by (unfold piece; by rewrite He, Hme). split.
      + intros [Hp|[_ Hp]]%lookup_union_Some_raw; [exists name, entry; rewrite Hpiece; split; [set_solver|done]|]. apply IH in Hp as (n & e & Hin & Hp). exists n, e. split; [set_solver|done].
      + intros (n & e & [Hin|[= -> ->]]%elem_of_snoc & Hp); [|apply lookup_union_Some_l; by rewrite <- Hpiece].
        destruct (me !! p) as [row'|] eqn:Hme'; [|rewrite lookup_union_r by done; apply IH; eauto].
        assert (name = n) as -> by (eapply piece_one; [exact Hr|exact Hr|rewrite Hpiece; by exists row'|by exists row]).
        rewrite Hpiece, Hme' in Hp. rewrite (lookup_union_Some_l _ _ _ _ Hme'). done. }
  apply map_eq. intros p. apply option_eq. intros row. rewrite Hm, lookup_assemble by (intros; by eapply piece_one). split.
  - intros (name & entry & Hin%elem_of_sorted_entries & Hp). exists name. split; [apply Hnames; by exists entry|done].
  - intros (name & _ & Hp). unfold piece in Hp. destruct (entries !! name) as [entry|] eqn:He; [|by rewrite lookup_empty in Hp].
    exists name, entry. rewrite elem_of_sorted_entries. split; [done|]. unfold piece. by rewrite He.
Qed.

Lemma root_pieces depth root prefix m : root_map (S depth) root prefix = Ok m ->
  exists entries, root_entries root = Ok entries /\ readable depth entries prefix /\
    forall names, (forall name, is_Some (entries !! name) -> name ∈ names) -> m = assemble (piece depth entries prefix) names.
Proof.
  destruct root as [tree_id|]; [apply tree_pieces|]. intros [= <-]. exists ∅. split; [done|]. split; [intros name entry; by rewrite lookup_empty|].
  intros names _. induction names as [|name names IH]; [done|]. cbn. fold (assemble (piece depth ∅ prefix) names). rewrite <- IH. unfold piece. by rewrite lookup_empty, map_union_empty.
Qed.

Lemma root_load root cache : cache_ok cache ->
  match root_entries root with
  | Ok entries => exists cache', load_optional root cache = Ok (entries, cache') /\ cache_ok cache'
  | Err e => load_optional root cache = Err e
  end.
Proof. intros Hc. destruct root as [tree_id|]; [by apply load_run|]. by exists cache. Qed.

(** ** The walk *)

(** From a good cache, [m] makes the changes from [old_map] to [new_map]. *)
Definition makes (m : tree_cache * SnapshotTreeDiffState -> diffed (tree_cache * SnapshotTreeDiffState)) (old_map new_map : file_rows) : Prop :=
  forall cache state, cache_ok cache -> exists cache' l, m (cache, state) = Ok (cache', foldl apply_change state l) /\ cache_ok cache' /\ lists_changes l old_map new_map.

(** All rows of a map, added or deleted. *)
Lemma all_rows (push : SnapshotFileRow -> change) (old_map new_map m : file_rows) : (forall p c, change_of (old_map !! p) (new_map !! p) = Some c <-> exists row, m !! p = Some row /\ c = push row) ->
  lists_changes (map (fun kv => (fst kv, push (snd kv))) (sorted_entries m)) old_map new_map.
Proof.
  intros Hc. split.
  - rewrite map_map. cbn. rewrite sorted_entries_keys. apply NoDup_sorted_keys.
  - intros p c. rewrite Hc, list_elem_of_fmap. split.
    + intros ([q row] & [= -> ->] & Hin%elem_of_sorted_entries). by exists row.
    + intros (row & Hrow & ->). exists (p, row). split; [done|]. by apply elem_of_sorted_entries.
Qed.
Lemma change_added (m : file_rows) p c : change_of ((∅ : file_rows) !! p) (m !! p) = Some c <-> exists row, m !! p = Some row /\ c = Added row.
Proof. rewrite lookup_empty. destruct (m !! p) as [row|]; cbn; split; [intros [= <-]; by exists row|by intros (? & [= <-] & ->)|done|by intros (? & ? & _)]. Qed.
Lemma change_deleted (m : file_rows) p c : change_of (m !! p) ((∅ : file_rows) !! p) = Some c <-> exists row, m !! p = Some row /\ c = Deleted row.
Proof. rewrite lookup_empty. destruct (m !! p) as [row|]; cbn; split; [intros [= <-]; by exists row|by intros (? & [= <-] & ->)|done|by intros (? & ? & _)]. Qed.

Lemma foldl_push push (f : SnapshotFileRow -> change) state l : (forall state p row, apply_change state (p, f row) = push state row) ->
  foldl push state (map snd l) = foldl apply_change state (map (fun kv : string * SnapshotFileRow => (fst kv, f (snd kv))) l).
Proof. intros Hpush. revert state. induction l as [|[p row] l IH]; intros state; [done|]. cbn [map foldl fst snd]. by rewrite Hpush, IH. Qed.

Lemma collect_makes push (f : SnapshotFileRow -> change) depth entry path m (old_map new_map : file_rows) : (forall state p row, apply_change state (p, f row) = push state row) ->
  (forall p c, change_of (old_map !! p) (new_map !! p) = Some c <-> exists row, m !! p = Some row /\ c = f row) ->
  entry_map depth entry path = Ok m -> makes (collect_entry push depth entry path) old_map new_map.
Proof.
  intros Hpush Hc Hm cache state Hok. unfold entry_map, collect_entry in *. case_bool_decide.
  - destruct (subtree_run depth (te_target_id entry) path cache m Hok Hm) as (cache' & Hrun & Hok'). cbn [fst snd]. rewrite Hrun. cbn [mbind result_bind fst snd].
    eexists cache', _. rewrite (foldl_push push f) by done. split; [reflexivity|]. split; [done|]. by apply all_rows.
  - apply bind_Ok in Hm as (row & -> & [= <-]). cbn [mbind result_bind fst snd]. exists cache, [(path, f row)]. cbn [foldl]. rewrite Hpush. split; [done|]. split; [done|]. split.
    + apply NoDup_singleton.
    + intros p c. rewrite Hc, list_elem_of_singleton. split; [intros [= -> ->]; exists row; by rewrite lookup_singleton_eq|]. by intros (row' & [-> ->]%lookup_singleton_Some & ->).
Qed.
Lemma added_makes depth entry path m : entry_map depth entry path = Ok m -> makes (collect_added_entry depth entry path) ∅ m.
Proof. apply (collect_makes push_added_row Added); [done|]. apply change_added. Qed.
Lemma deleted_makes depth entry path m : entry_map depth entry path = Ok m -> makes (collect_deleted_entry depth entry path) m ∅.
Proof. apply (collect_makes push_deleted_row Deleted); [done|]. apply change_deleted. Qed.

Lemma makes_then f g m n m' n' : separate m n m' n' -> makes f m n -> makes g m' n' -> makes (fun s => s ← f s; g s) (m ∪ m') (n ∪ n').
Proof.
  intros Hsep Hf Hg cache state Hc. destruct (Hf cache state Hc) as (c1 & l1 & -> & Hc1 & Hl1). cbn [mbind result_bind].
  destruct (Hg c1 (foldl apply_change state l1) Hc1) as (c2 & l2 & -> & Hc2 & Hl2). exists c2, (l1 ++ l2). rewrite foldl_app. split; [done|]. split; [done|]. by apply lists_changes_app.
Qed.

(** A tree that was a blob, or a blob that was a tree. *)
Lemma replace_makes depth old_entry new_entry path m n : (forall p, is_Some (m !! p) -> n !! p = None) -> entry_map depth old_entry path = Ok m ->
  entry_map depth new_entry path = Ok n -> makes (fun s => s ← collect_deleted_entry depth old_entry path s; collect_added_entry depth new_entry path s) m n.
Proof.
  intros Hsep Hm Hn. pose proof (makes_then _ _ m ∅ ∅ n ltac:(intros p [Hp|[? Hp]]; [split; [apply lookup_empty|by apply Hsep]|by rewrite lookup_empty in Hp])
    (deleted_makes depth old_entry path m Hm) (added_makes depth new_entry path n Hn)) as H. by rewrite map_union_empty, map_empty_union in H.
Qed.

(** A blob that was a blob. *)
Lemma blob_makes depth old_entry new_entry path m n : te_entry_type old_entry <> "tree"%string -> te_entry_type new_entry <> "tree"%string ->
  entry_map depth old_entry path = Ok m -> entry_map depth new_entry path = Ok n ->
  makes (fun s => state ← record_blob_change path old_entry new_entry (snd s); Ok (fst s, state)) m n.
Proof.
  intros Ho Hn Hm Hm' cache state Hc. unfold entry_map in Hm, Hm'. rewrite bool_decide_eq_false_2 in Hm by done. rewrite bool_decide_eq_false_2 in Hm' by done.
  apply bind_Ok in Hm as (row & Hrow & [= <-]). apply bind_Ok in Hm' as (row' & Hrow' & [= <-]). unfold record_blob_change. rewrite Hrow, Hrow'. cbn [mbind result_bind fst snd].
  exists cache, (if differs row row' then [(path, Changed row row')] else []). split; [|split; [done|]].
  - destruct (differs row row') eqn:Hd; [done|]. unfold push_change. fold (differs row row'). by rewrite Hd.
  - destruct (differs row row') eqn:Hd; (split; [constructor; [by intros ?%elem_of_nil|constructor]|] || (split; [constructor|]));
      intros p c; (rewrite list_elem_of_singleton || (split; [by intros ?%elem_of_nil|])).
    + split; [intros [= -> ->]; rewrite !lookup_singleton_eq; cbn; by rewrite Hd|]. destruct (decide (path = p)) as [<-|Hne].
      * rewrite !lookup_singleton_eq. cbn. rewrite Hd. by intros [= <-].
      * by rewrite !lookup_singleton_ne by done.
    + destruct (decide (path = p)) as [<-|Hne]; [rewrite !lookup_singleton_eq; cbn; by rewrite Hd|by rewrite !lookup_singleton_ne by done].
Qed.

Lemma tree_blob_apart depth old_entry new_entry path m n : path <> EmptyString -> te_entry_type old_entry = "tree"%string -> te_entry_type new_entry <> "tree"%string ->
  entry_map depth old_entry path = Ok m -> entry_map depth new_entry path = Ok n -> forall p, is_Some (m !! p) -> n !! p = None.
Proof.
  intros Hpath Ho Hn Hm Hm' p [row Hp]. unfold entry_map in Hm, Hm'. rewrite bool_decide_eq_true_2 in Hm by done. rewrite bool_decide_eq_false_2 in Hm' by done.
  apply bind_Ok in Hm' as (row' & _ & [= <-]). destruct (tree_under _ _ _ _ Hpath Hm p row Hp) as [[_ Hne] _]. by rewrite lookup_singleton_ne.
Qed.

(** The step at a name of both trees. *)
Definition diff_name (depth : nat) (prefix : string) (old new : tree_rows) (name : string) (s : tree_cache * SnapshotTreeDiffState) :=
  let path := join_tree_path prefix name in
  match old !! name, new !! name with
  | None, Some new_entry => collect_added_entry depth new_entry path s
  | Some old_entry, None => collect_deleted_entry depth old_entry path s
  | Some old_entry, Some new_entry =>
      if bool_decide (te_entry_type old_entry = "tree"%string) && bool_decide (te_entry_type new_entry = "tree"%string) then
        diff_tree_entries depth (Some (te_target_id old_entry)) (Some (te_target_id new_entry)) path s
      else if bool_decide (te_entry_type old_entry = "blob"%string) && bool_decide (te_entry_type new_entry = "blob"%string) then
        state ← record_blob_change path old_entry new_entry (snd s); Ok (fst s, state)
      else s ← collect_deleted_entry depth old_entry path s; collect_added_entry depth new_entry path s
  | None, None => Ok s
  end.

Lemma diff_tree_entries_S depth old_tree_id new_tree_id prefix s : diff_tree_entries (S depth) old_tree_id new_tree_id prefix s =
  if bool_decide (old_tree_id = new_tree_id) && is_some old_tree_id then Ok s
  else
    old ← load_optional old_tree_id (fst s);
    new ← load_optional new_tree_id (snd old);
    foldM (fun s name => diff_name depth prefix (fst old) (fst new) name s) (snd new, snd s) (sorted_elements (dom (fst old) ∪ dom (fst new))).
Proof. done. Qed.

Definition diffs depth : Prop := forall old new prefix m n, root_map depth old prefix = Ok m -> root_map depth new prefix = Ok n ->
  makes (diff_tree_entries depth old new prefix) m n.

Lemma entry_blob depth entry path m : te_entry_type entry <> "tree"%string -> entry_map depth entry path = Ok m -> te_entry_type entry = "blob"%string.
Proof.
  intros Ht Hm. unfold entry_map in Hm. rewrite bool_decide_eq_false_2 in Hm by done. apply bind_Ok in Hm as (row & Hrow & _). unfold snapshot_file_row_from_tree_entry in Hrow.
  apply bind_Ok in Hrow as (? & Hf & _). rewrite fail_if_Ok in Hf. by destruct (bool_decide_reflect (te_entry_type entry = "blob"%string)).
Qed.

Lemma name_makes depth prefix old new name : diffs depth -> readable depth old prefix -> readable depth new prefix ->
  makes (diff_name depth prefix old new name) (piece depth old prefix name) (piece depth new prefix name).
Proof.
  intros Hdiffs Ho Hn. unfold diff_name, piece. destruct (old !! name) as [old_entry|] eqn:Hold, (new !! name) as [new_entry|] eqn:Hnew.
  - destruct (Ho _ _ Hold) as (Hne & _ & m & Hm), (Hn _ _ Hnew) as (_ & _ & n & Hn'). rewrite Hm, Hn'. pose proof (join_not_empty prefix name Hne) as Hpath.
    destruct (bool_decide_reflect (te_entry_type old_entry = "tree"%string)) as [Hot|Hot], (bool_decide_reflect (te_entry_type new_entry = "tree"%string)) as [Hnt|Hnt]; cbn [andb].
    + apply Hdiffs; unfold entry_map in *; [by rewrite bool_decide_eq_true_2 in Hm|by rewrite bool_decide_eq_true_2 in Hn'].
    + rewrite (bool_decide_eq_false_2 (te_entry_type old_entry = "blob"%string)) by (by rewrite Hot). cbn [andb]. apply replace_makes; [|done|done]. by eapply tree_blob_apart.
    + rewrite (bool_decide_eq_false_2 (te_entry_type new_entry = "blob"%string)), andb_false_r by (by rewrite Hnt). apply replace_makes; [|done|done].
      intros p Hp. destruct (n !! p) as [row|] eqn:Hp'; [|done]. pose proof (tree_blob_apart _ _ _ _ _ _ Hpath Hnt Hot Hn' Hm p ltac:(by exists row)) as Hno. rewrite Hno in Hp. by destruct Hp.
    + rewrite (entry_blob depth old_entry _ m), (entry_blob depth new_entry _ n), !bool_decide_eq_true_2 by done. by eapply blob_makes.
  - destruct (Ho _ _ Hold) as (_ & _ & m & Hm). rewrite Hm. by apply deleted_makes.
  - destruct (Hn _ _ Hnew) as (_ & _ & n & Hn'). rewrite Hn'. by apply added_makes.
  - intros cache state Hc. exists cache, []. split; [done|]. split; [done|]. apply lists_nothing.
Qed.

Lemma loop_makes depth prefix old new names : diffs depth -> readable depth old prefix -> readable depth new prefix -> NoDup names ->
  makes (fun s => foldM (fun s name => diff_name depth prefix old new name s) s names)
    (assemble (piece depth old prefix) names) (assemble (piece depth new prefix) names).
Proof.
  intros Hdiffs Ho Hn Hnd cache state Hc.
  destruct (foldM_total (fun s name => diff_name depth prefix old new name s)
    (fun seen s => exists l, s = (fst s, foldl apply_change state l) /\ cache_ok (fst s) /\
      lists_changes l (assemble (piece depth old prefix) seen) (assemble (piece depth new prefix) seen)) names (cache, state)) as ([c' st'] & Hrun & l & Hst & Hc' & Hl).
  - exists []. split; [done|]. split; [done|]. apply lists_nothing.
  - intros seen name rest [c st] Hnames (l & Hst & Hok & Hl). cbn [fst] in *. injection Hst as ->.
    destruct (name_makes depth prefix old new name Hdiffs Ho Hn c (foldl apply_change state l) Hok) as (c' & l' & Hrun & Hc' & Hl').
    eexists. split; [exact Hrun|]. exists (l ++ l'). rewrite foldl_app. split; [done|]. split; [done|]. rewrite !assemble_app, !assemble_one.
    apply lists_changes_app; [|done|done]. rewrite Hnames in Hnd. apply NoDup_app in Hnd as (_ & Hnot & _).
    assert (forall E E' p, readable depth E prefix -> readable depth E' prefix -> is_Some (assemble (piece depth E prefix) seen !! p) -> piece depth E' prefix name !! p = None) as Hno.
    { intros E E' p HE HE' [row Hrow]. apply lookup_assemble in Hrow as (n & Hseen & Hp); [|intros; eapply (piece_one depth E E); eassumption].
      destruct (piece depth E' prefix name !! p) as [row'|] eqn:Hrow'; [|done]. exfalso. apply (Hnot n); [exact Hseen|]. 
      rewrite (piece_one depth E E' prefix n name p HE HE'); [by left|by exists row|by exists row']. }
    intros p [Hp|Hp]; (split; (eapply Hno; [| |exact Hp]; assumption)).
  - cbn [fst] in *. injection Hst as ->. by exists c', l.
Qed.

Lemma diffs_all depth : diffs depth.
Proof.
  induction depth as [|depth IH]; intros old new prefix m n Hm Hn cache state Hc.
  - by destruct old.
  - rewrite diff_tree_entries_S. destruct (bool_decide_reflect (old = new)) as [<-|Hne]; cbn [andb].
    + destruct (is_some old) eqn:Hsome.
      * rewrite Hm in Hn. injection Hn as <-. exists cache, []. split; [done|]. split; [done|]. apply lists_same.
      * destruct old; [discriminate Hsome|]. cbn. injection Hm as <-. injection Hn as <-. exists cache, []. split; [done|]. split; [done|]. apply lists_nothing.
    + destruct (root_pieces _ _ _ _ Hm) as (old_entries & Ho & Hro & Hm'), (root_pieces _ _ _ _ Hn) as (new_entries & Hne' & Hrn & Hn').
      pose proof (root_load old cache Hc) as Hlo. rewrite Ho in Hlo. destruct Hlo as (c1 & Hrun1 & Hc1). cbn [fst]. rewrite Hrun1. cbn [mbind result_bind snd fst].
      pose proof (root_load new c1 Hc1) as Hln. rewrite Hne' in Hln. destruct Hln as (c2 & Hrun2 & Hc2). rewrite Hrun2. cbn [mbind result_bind snd fst].
      rewrite (Hm' (sorted_elements (dom old_entries ∪ dom new_entries))), (Hn' (sorted_elements (dom old_entries ∪ dom new_entries)));
        [|intros name Hname; rewrite elem_of_sorted_elements, elem_of_union, !elem_of_dom; tauto..].
      apply loop_makes; [done..|apply NoDup_sorted_elements|done].
Qed.

(** The rows of a snapshot with the given root. *)
Definition rows_of_root (depth : nat) (root : option string) : diffed file_rows :=
  match root with Some tree_id => collected ← collect_subtree_rows depth tree_id "" ∅; Ok (snd collected) | None => Ok ∅ end.

Lemma rows_of_root_map depth root m : rows_of_root depth root = Ok m -> (root = None -> depth <> 0) -> root_map depth root "" = Ok m.
Proof.
  destruct root as [tree_id|]; cbn [rows_of_root root_map]; [|intros [= <-] Hd; destruct depth; [by specialize (Hd eq_refl)|done]].
  pose proof (collect_run depth tree_id "" ∅ ∅ empty_cache_ok) as H. unfold collect_subtree_rows. intros Hrows _. destruct (tree_map depth tree_id "") as [m'|e].
  - destruct H as (c' & Hrun & _). rewrite Hrun, map_union_empty in Hrows. injection Hrows as <-. done.
  - by rewrite H in Hrows.
Qed.
Lemma rows_of_root_paths depth root m : rows_of_root depth root = Ok m -> (root = None -> depth <> 0) -> rows_under (fun _ => True) m.
Proof.
  intros Hrows Hd. apply (rows_of_root_map depth root m Hrows) in Hd. destruct root as [tree_id|]; [|destruct depth; [done|]; injection Hd as <-; by intros p row; rewrite lookup_empty].
  cbn in Hd. destruct depth as [|depth]; [done|]. destruct (tree_pieces depth tree_id "" m Hd) as (entries & _ & Hr & Hm).
  intros p row Hp. split; [done|]. rewrite (Hm (sorted_elements (dom entries))) in Hp by (intros; by rewrite elem_of_sorted_elements, elem_of_dom).
  apply lookup_assemble in Hp as (name & _ & Hp); [|intros; by eapply piece_one]. unfold piece in Hp. destruct (entries !! name) as [entry|] eqn:He; [|by rewrite lookup_empty in Hp].
  destruct (Hr _ _ He) as (Hne & _ & me & Hme). rewrite Hme in Hp. by destruct (entry_rows_under depth entry _ me (join_not_empty "" name Hne) Hme p row Hp).
Qed.

Lemma diff_trees_run depth old new m n : depth <> 0 -> rows_of_root depth old = Ok m -> rows_of_root depth new = Ok n ->
  exists l, diff_snapshot_trees depth old new = Ok (foldl apply_change default_diff_state l) /\ lists_changes l m n.
Proof.
  intros Hd Hm Hn. destruct (diffs_all depth old new "" m n) with (∅ : tree_cache) default_diff_state as (c' & l & Hrun & _ & Hl);
    [by apply rows_of_root_map|by apply rows_of_root_map|apply empty_cache_ok|]. exists l. split; [|done]. unfold diff_snapshot_trees. by rewrite Hrun.
Qed.
End Trees.
