(* ===== verification/RenameHints.v ===== *)
(** * Renames between snapshots

    Which renames and moves of directories [ObjectDiff] suggests for the files
    that were added and deleted. *)

From Stdlib Require Import NArith ZArith Lia Ascii.
From stdpp Require Import base numbers strings gmap list sorting.
From S2P Require Import Prelude Json ObjectDiff.

(** ** Orders of pairs and triples *)

Lemma str_cases a b : str_ltb a b = true \/ a = b \/ str_ltb b a = true.
Proof.
  destruct (decide (a = b)) as [->|Hne]; [by right; left|]. destruct (total String.le a b) as [H|H]; [left|right; right]; by apply str_ltb_le.
Qed.
Lemma str_ltb_irrefl a : str_ltb a a = false.
Proof. unfold str_ltb. by rewrite (bool_decide_eq_true_2 (a = a)), andb_false_r. Qed.
Lemma str_ltb_asym a b : str_ltb a b = true -> str_ltb b a = true -> False.
Proof. intros H1 H2. pose proof (str_ltb_trans _ _ _ H1 H2) as H. by rewrite str_ltb_irrefl in H. Qed.

(** An order that compares a string first. *)
Section Lex.
Context {A : Type} (key : A -> string) (rest : A -> A -> bool).
Definition lex (a b : A) : bool := str_ltb (key a) (key b) || bool_decide (key a = key b) && rest a b.

Lemma lex_true a b : lex a b = true <-> str_ltb (key a) (key b) = true \/ key a = key b /\ rest a b = true.
Proof. unfold lex. by rewrite orb_true_iff, andb_true_iff, bool_decide_eq_true. Qed.

Lemma lex_total : (forall a b, rest a b = true \/ rest b a = true) -> forall a b, lex a b = true \/ lex b a = true.
Proof. intros H a b. rewrite !lex_true. destruct (str_cases (key a) (key b)) as [?|[?|?]], (H a b); auto. Qed.
Lemma lex_trans : (forall a b c, rest a b = true -> rest b c = true -> rest a c = true) -> forall a b c, lex a b = true -> lex b c = true -> lex a c = true.
Proof.
  intros H a b c. rewrite !lex_true. intros [H1|[E1 H1]] [H2|[E2 H2]]; [left; by eapply str_ltb_trans|left; by rewrite <- E2|left; by rewrite E1|right].
  split; [congruence|by eapply H].
Qed.
Lemma lex_antisym a b : lex a b = true -> lex b a = true -> key a = key b /\ rest a b = true /\ rest b a = true.
Proof.
  rewrite !lex_true. intros [H1|[E1 H1]] [H2|[E2 H2]]; [by destruct (str_ltb_asym _ _ H1 H2)|exfalso|exfalso|done].
  - rewrite E2 in H1. by rewrite str_ltb_irrefl in H1.
  - rewrite E1 in H2. by rewrite str_ltb_irrefl in H2.
Qed.
End Lex.

Lemma str_le2_lex a b : str_le2 a b = lex fst (fun a b => bool_decide (String.le (snd a) (snd b))) a b.
Proof. done. Qed.
Lemma str_le2_total a b : str_le2 a b = true \/ str_le2 b a = true.
Proof. apply lex_total. intros. rewrite !bool_decide_eq_true. apply (total String.le). Qed.
Lemma str_le2_trans a b c : str_le2 a b = true -> str_le2 b c = true -> str_le2 a c = true.
Proof. apply lex_trans. intros x y z. rewrite !bool_decide_eq_true. by etrans. Qed.
Lemma str_le2_antisym a b : str_le2 a b = true -> str_le2 b a = true -> a = b.
Proof.
  intros H1 H2. destruct (lex_antisym fst (fun a b => bool_decide (String.le (snd a) (snd b))) _ _ H1 H2) as (E1 & E2 & E3). rewrite bool_decide_eq_true in E2, E3. destruct a, b. cbn in *. f_equal; [done|]. by apply (anti_symm String.le).
Qed.

Definition hint_rest (a b : RenameHint) : bool := str_le2 (rh_new_path a, rh_blob_id a) (rh_new_path b, rh_blob_id b).
Lemma hint_le_total a b : hint_le a b = true \/ hint_le b a = true.
Proof. apply (lex_total rh_old_path hint_rest). intros. apply str_le2_total. Qed.
Lemma hint_le_trans a b c : hint_le a b = true -> hint_le b c = true -> hint_le a c = true.
Proof. apply (lex_trans rh_old_path hint_rest). intros x y z. apply str_le2_trans. Qed.
Lemma hint_le_antisym a b : hint_le a b = true -> hint_le b a = true -> rh_old_path a = rh_old_path b /\ rh_new_path a = rh_new_path b /\ rh_blob_id a = rh_blob_id b.
Proof. intros H1 H2. destruct (lex_antisym rh_old_path hint_rest _ _ H1 H2) as (E1 & E2 & E3). split; [done|]. by injection (str_le2_antisym _ _ E2 E3). Qed.

(** ** Renames *)

Definition with_blob (rows : file_rows) (blob_id : string) (paths : list string) : list string := filter (fun p => blob_of rows p = Some blob_id) paths.

Lemma by_blob_lookup rows paths blob_id : by_blob_id rows paths !! blob_id =
  match with_blob rows blob_id paths with [] => None | l => Some l end.
Proof.
  unfold by_blob_id, with_blob. induction paths as [|p paths IH] using rev_ind; [done|]. rewrite foldl_snoc, filter_app.
  destruct (blob_of rows p) as [b|] eqn:Hb.
  - destruct (decide (b = blob_id)) as [->|Hne].
    + rewrite lookup_insert_eq, IH, filter_cons_True by done. cbn [filter list_filter]. destruct (filter _ paths); done.
    + rewrite lookup_insert_ne, IH, (filter_cons_False _ p) by (congruence || done). cbn [filter list_filter]. by rewrite app_nil_r.
  - rewrite IH, (filter_cons_False _ p) by congruence. cbn [filter list_filter]. by rewrite app_nil_r.
Qed.

(** The one file with a content that went is the one file with it that came. *)
Definition suggests (old_map new_map : file_rows) (added deleted : list string) (h : RenameHint) : Prop :=
  with_blob old_map (rh_blob_id h) deleted = [rh_old_path h] /\ with_blob new_map (rh_blob_id h) added = [rh_new_path h] /\
  exists old_row new_row, old_map !! rh_old_path h = Some old_row /\ new_map !! rh_new_path h = Some new_row /\
    rh_old_parent_path h = parent_path (rh_old_path h) /\ rh_new_parent_path h = parent_path (rh_new_path h) /\
    rh_size_bytes h = default 0%Z (match fr_size_bytes new_row with Some z => Some z | None => fr_size_bytes old_row end).

Lemma elem_of_hints old_map new_map added deleted h : h ∈ build_rename_hints old_map new_map added deleted <-> suggests old_map new_map added deleted h.
Proof.
  unfold build_rename_hints. rewrite sort_le_perm, list_elem_of_omap. split.
  - intros ([b paths] & Hin%elem_of_sorted_entries & Hh). rewrite by_blob_lookup in Hin. unfold rename_hint in Hh. cbn [fst snd] in Hh. rewrite by_blob_lookup in Hh.
    destruct (with_blob new_map b added) as [|new_path [|]] eqn:Hnew, (with_blob old_map b deleted) as [|old_path [|]] eqn:Hold; try discriminate Hin; try discriminate Hh;
      injection Hin as <-; try discriminate Hh. cbn [mbind option_bind] in Hh. destruct (old_map !! old_path) as [old_row|] eqn:Ho; [|discriminate Hh].
    cbn [mbind option_bind] in Hh. destruct (new_map !! new_path) as [new_row|] eqn:Hn; [|discriminate Hh]. injection Hh as <-. split; [done|]. split; [done|]. by exists old_row, new_row.
  - intros (Hold & Hnew & old_row & new_row & Ho & Hn & Hop & Hnp & Hs). exists (rh_blob_id h, [rh_old_path h]). split.
    + apply elem_of_sorted_entries. by rewrite by_blob_lookup, Hold.
    + unfold rename_hint. cbn [fst snd]. rewrite by_blob_lookup, Hnew. cbn [mbind option_bind]. rewrite Ho. cbn [mbind option_bind]. rewrite Hn. cbn [mbind option_bind]. rewrite <- Hs, <- Hop, <- Hnp. by destruct h.
Qed.

Lemma hints_sorted old_map new_map added deleted : StronglySorted (fun a b => hint_le a b = true) (build_rename_hints old_map new_map added deleted).
Proof. apply sort_le_sorted; [apply hint_le_total|apply hint_le_trans]. Qed.

Lemma hints_NoDup old_map new_map added deleted : NoDup (map rh_blob_id (build_rename_hints old_map new_map added deleted)).
Proof.
  unfold build_rename_hints. rewrite sort_le_perm. set (new := by_blob_id new_map added). pose proof (NoDup_sorted_keys (by_blob_id old_map deleted)) as Hnd. rewrite <- sorted_entries_keys in Hnd.
  induction (sorted_entries (by_blob_id old_map deleted)) as [|kv l IH]; cbn [omap list_omap map]; [constructor|]. cbn [map] in Hnd. apply NoDup_cons in Hnd as [Hno Hnd].
  assert (forall kv h, rename_hint old_map new_map new kv = Some h -> rh_blob_id h = fst kv) as Hblob.
  { intros [b paths] h Hh. unfold rename_hint in Hh. cbn [fst snd] in Hh. destruct (new !! b) as [[|np [|]]|]; try discriminate Hh; destruct paths as [|op [|]]; try discriminate Hh.
    cbn in Hh. destruct (old_map !! op); [|discriminate Hh]. cbn in Hh. destruct (new_map !! np); [|discriminate Hh]. by injection Hh as <-. }
  destruct (rename_hint old_map new_map new kv) as [h|] eqn:Hh; [|by apply IH]. cbn [map]. constructor; [|by apply IH]. rewrite (Hblob _ _ Hh).
  intros (h' & Heq & ([b paths] & Hin & Hh')%list_elem_of_omap)%list_elem_of_fmap. apply Hno. apply list_elem_of_fmap. exists (b, paths). split; [|done]. by rewrite Heq, (Hblob _ _ Hh').
Qed.

(** Hints that stand for the same content have the same paths. *)
Lemma suggests_one old_map new_map added deleted h h' : suggests old_map new_map added deleted h -> suggests old_map new_map added deleted h' ->
  rh_blob_id h = rh_blob_id h' -> h = h'.
Proof.
  intros (H1 & H2 & o & n & H3 & H4 & H5 & H6 & H7) (H1' & H2' & o' & n' & H3' & H4' & H5' & H6' & H7') Hb.
  rewrite Hb, H1' in H1. rewrite Hb, H2' in H2. injection H1 as H1. injection H2 as H2. rewrite <- H1 in *. rewrite <- H2 in *. rewrite H3' in H3. rewrite H4' in H4.
  injection H3 as ->. injection H4 as ->. destruct h, h'. cbn in *. congruence.
Qed.

(** The hints are determined by what they suggest. *)
Lemma hints_ext m n a d m' n' a' d' : (forall h, suggests m n a d h <-> suggests m' n' a' d' h) -> build_rename_hints m n a d = build_rename_hints m' n' a' d'.
Proof.
  intros H. apply (StronglySorted_unique_strong (fun a b => hint_le a b = true)); [|apply hints_sorted..|].
  - intros h h' Hh%elem_of_hints Hh'%elem_of_hints Hle Hle'. destruct (hint_le_antisym _ _ Hle Hle') as (_ & _ & Hb). apply H in Hh. by eapply suggests_one.
  - apply NoDup_Permutation; [eapply NoDup_fmap_1; apply hints_NoDup..|]. intros h. by rewrite !elem_of_hints.
Qed.

(** ** Moves of directories *)

(** The hints of one group. *)
Definition moved (key : string * string) (hints : list RenameHint) : list RenameHint := filter (fun h => moves_directory h = true /\ parents h = key) hints.

Lemma moved_snoc key hints h : moved key (hints ++ [h]) = moved key hints ++ (if decide (moves_directory h = true /\ parents h = key) then [h] else []).
Proof. unfold moved. rewrite filter_app. cbn. by destruct (decide _). Qed.

Lemma grouped_lookup hints key : grouped (group_hints hints) !! key = match moved key hints with [] => None | l => Some l end.
Proof.
  unfold group_hints. induction hints as [|h hints IH] using rev_ind; [done|]. rewrite foldl_snoc, moved_snoc. unfold group_hint at 1.
  destruct (moves_directory h) eqn:Hm; cbn [grouped].
  - destruct (decide (parents h = key)) as [<-|Hne].
    + rewrite lookup_insert_eq, IH, decide_True by done. by destruct (moved (parents h) hints).
    + rewrite lookup_insert_ne, IH, decide_False by tauto. by rewrite app_nil_r.
  - rewrite IH, decide_False by (intros [? _]; congruence). by rewrite app_nil_r.
Qed.

(** The other parents of the hints with one parent. *)
Section Others.
Context (this other : RenameHint -> string) (field : directory_groups -> gmap string (gset string)).
Context (Hinit : field (mkGroups ∅ ∅ ∅) = ∅).
Context (Hstep : forall g h, field (group_hint g h) = if moves_directory h then add_to (field g) (this h) (other h) else field g).

Lemma elem_of_other_names hints p q : q ∈ default ∅ (field (group_hints hints) !! p) <-> exists h, h ∈ hints /\ moves_directory h = true /\ this h = p /\ other h = q.
Proof.
  unfold group_hints. induction hints as [|h hints IH] using rev_ind; cbn [foldl].
  - rewrite Hinit, lookup_empty. cbn. split; [set_solver|]. by intros (h & ?%elem_of_nil & _).
  - rewrite foldl_snoc, Hstep. setoid_rewrite elem_of_snoc.
    assert (forall h', h' ∈ hints /\ moves_directory h' = true /\ this h' = p /\ other h' = q -> exists h', (h' ∈ hints \/ h' = h) /\ moves_directory h' = true /\ this h' = p /\ other h' = q) as Hold
      by (intros h' [? ?]; exists h'; auto).
    destruct (moves_directory h) eqn:Hm.
    + unfold add_to. destruct (decide (this h = p)) as [Hp|Hne].
      * rewrite Hp, lookup_insert_eq. cbn. rewrite elem_of_union, elem_of_singleton, IH. split; [intros [->|[h' Hh']]; [exists h; auto|by apply (Hold h')]|].
        intros (h' & [Hin| ->] & Hm' & Hp' & <-); [right; by exists h'|by left].
      * rewrite lookup_insert_ne, IH by done. split; [intros [h' Hh']; by apply (Hold h')|]. intros (h' & [Hin| ->] & Hm' & Hp' & Hq); [by exists h'|done].
    + rewrite IH. split; [intros [h' Hh']; by apply (Hold h')|]. intros (h' & [Hin| ->] & Hm' & Hp' & Hq); [by exists h'|congruence].
Qed.

Lemma one_other hints p h : h ∈ hints -> moves_directory h = true -> this h = p ->
  size <$> field (group_hints hints) !! p = Some 1 <-> forall h', h' ∈ hints -> moves_directory h' = true -> this h' = p -> other h' = other h.
Proof.
  intros Hin Hm Hp. assert (other h ∈ default ∅ (field (group_hints hints) !! p)) as Hother by (apply elem_of_other_names; by exists h).
  assert (forall q, q ∈ default ∅ (field (group_hints hints) !! p) <-> exists h, h ∈ hints /\ moves_directory h = true /\ this h = p /\ other h = q) as Hall by (intros; apply elem_of_other_names).
  destruct (field (group_hints hints) !! p) as [X|]; cbn in *; [|set_solver]. split.
  - intros [= Hsize] h' Hin' Hm' Hp'. assert (other h' ∈ X) as H' by (apply Hall; by exists h'). exact (size_singleton_inv X _ _ Hsize H' Hother).
  - intros H. assert (X = {[other h]}) as ->; [|by rewrite size_singleton]. apply set_eq. intros q. rewrite elem_of_singleton, Hall. split; [intros (h' & ? & ? & ? & <-); by apply H|].
    intros ->. by exists h.
Qed.
End Others.

Lemma sorted_groups_keys g : NoDup (map fst (sorted_groups g)).
Proof. unfold sorted_groups. rewrite sort_le_perm. apply NoDup_fst_map_to_list. Qed.

Lemma elem_of_moved key hints h : h ∈ moved key hints <-> h ∈ hints /\ moves_directory h = true /\ parents h = key.
Proof. unfold moved. rewrite list_elem_of_filter. tauto. Qed.

Lemma elem_of_directory_moves hints key l : (key, l) ∈ directory_moves hints <->
  l = moved key hints /\ 2 <= length l /\ forall h, h ∈ hints -> moves_directory h = true -> rh_old_parent_path h = fst key <-> rh_new_parent_path h = snd key.
Proof.
  unfold directory_moves. rewrite list_elem_of_filter. unfold sorted_groups. rewrite sort_le_perm, elem_of_map_to_list, grouped_lookup. cbn [fst snd].
  unfold is_directory_move. rewrite !andb_true_iff, Nat.leb_le, !bool_decide_eq_true.
  assert (forall h, h ∈ moved key hints -> rh_old_parent_path h = fst key /\ rh_new_parent_path h = snd key /\ h ∈ hints /\ moves_directory h = true) as Hkey.
  { intros h (Hin & Hm & Hp)%elem_of_moved. by rewrite <- Hp. }
  split.
  - intros [[[Hlen Ho] Hn] Hl]. assert (l = moved key hints) as -> by (destruct (moved key hints); congruence). split; [done|]. split; [done|].
    destruct (moved key hints) as [|h0 rest] eqn:Hmv; [discriminate Hl|]. destruct (Hkey h0 ltac:(by left)) as (E1 & E2 & E3 & E4).
    rewrite (one_other rh_old_parent_path rh_new_parent_path old_to_new eq_refl ltac:(intros g h; unfold group_hint; by destruct (moves_directory h)) hints _ h0 E3 E4 E1) in Ho.
    rewrite (one_other rh_new_parent_path rh_old_parent_path new_to_old eq_refl ltac:(intros g h; unfold group_hint; by destruct (moves_directory h)) hints _ h0 E3 E4 E2) in Hn.
    intros h Hin Hm. split; intros Heq; [rewrite <- E2; by apply Ho|rewrite <- E1; by apply Hn].
  - intros (-> & Hlen & Hall). destruct (moved key hints) as [|h0 rest] eqn:Hmv; [cbn in Hlen; lia|]. destruct (Hkey h0 ltac:(by left)) as (E1 & E2 & E3 & E4).
    split; [split; [split; [done|]|]|done].
    + rewrite (one_other rh_old_parent_path rh_new_parent_path old_to_new eq_refl ltac:(intros g h; unfold group_hint; by destruct (moves_directory h)) hints _ h0 E3 E4 E1).
      intros h Hin Hm Heq. rewrite E2. by apply (Hall h).
    + rewrite (one_other rh_new_parent_path rh_old_parent_path new_to_old eq_refl ltac:(intros g h; unfold group_hint; by destruct (moves_directory h)) hints _ h0 E3 E4 E2).
      intros h Hin Hm Heq. rewrite E1. by apply (Hall h).
Qed.

(** ** Properties *)

(** A rename is suggested exactly when it is the only candidate. Whatever
    the rows and the paths are, the hints are sorted by their paths, name every
    content at most once, and a hint is among them exactly when its old path is
    the only deleted path, and its new path the only added path, with its
    content, which is not blank; its parents are those of its paths, and its
    size is that of the new file, or else of the old one, or zero. *)
Theorem rename_hints_exact old_map new_map added deleted :
  StronglySorted (fun a b => hint_le a b = true) (build_rename_hints old_map new_map added deleted) /\
  NoDup (map rh_blob_id (build_rename_hints old_map new_map added deleted)) /\
  (forall h, h ∈ build_rename_hints old_map new_map added deleted <-> suggests old_map new_map added deleted h) /\
  (forall h, h ∈ build_rename_hints old_map new_map added deleted -> trim (rh_blob_id h) <> EmptyString).
Proof.
  split; [apply hints_sorted|]. split; [apply hints_NoDup|]. split; [apply elem_of_hints|].
  intros h (Hold & _)%elem_of_hints. assert (rh_old_path h ∈ with_blob old_map (rh_blob_id h) deleted) as Hin by (rewrite Hold; by left).
  apply list_elem_of_filter in Hin as [Hb _]. unfold blob_of in Hb. destruct (old_map !! rh_old_path h) as [row|]; [|discriminate Hb]. cbn [mbind option_bind] in Hb.
  destruct (fr_blob_id row) as [b|]; [|discriminate Hb]. cbn [mbind option_bind] in Hb. case_bool_decide; [discriminate Hb|]. by injection Hb as <-.
Qed.

(** A directory is reported as moved exactly when its files agree. A pair of
    directories is reported, with all hints from the one to the other, exactly
    when these are at least two, the directories differ, no file of the old
    directory was moved to a third one, and none came to the new directory from a
    third one; and every pair is reported once. *)
Theorem directory_moves_exact hints :
  NoDup (map fst (directory_moves hints)) /\
  forall key l, (key, l) ∈ directory_moves hints <->
    l = moved key hints /\ 2 <= length l /\
    forall h, h ∈ hints -> moves_directory h = true -> rh_old_parent_path h = fst key <-> rh_new_parent_path h = snd key.
Proof.
  split; [|apply elem_of_directory_moves]. unfold directory_moves. pose proof (sorted_groups_keys (group_hints hints)) as H.
  induction (sorted_groups (group_hints hints)) as [|kv l IH]; [constructor|]. cbn [map] in H. apply NoDup_cons in H as [Hno H].
  cbn [filter list_filter]. destruct (decide _); [|by apply IH]. cbn [map]. constructor; [|by apply IH].
  intros (kv' & Heq & [_ Hin]%list_elem_of_filter)%list_elem_of_fmap. apply Hno. apply list_elem_of_fmap. by exists kv'.
Qed.
