(* ===== verification/SnapshotDiff.v ===== *)
(** * The difference of two snapshots, from trees and from manifests

    The report that [ObjectDiff] makes by walking two trees is the report that it
    makes from the manifests of all files below them. *)

From Stdlib Require Import NArith ZArith Lia Ascii.
From stdpp Require Import base numbers strings gmap list sorting.
From S2P Require Import Prelude Json ObjectDiff TreeDiff RenameHints.

(** ** The parts of a list of changes *)

Definition added_of (pc : string * change) : option string := match snd pc with Added _ => Some (fst pc) | _ => None end.
Definition deleted_of (pc : string * change) : option string := match snd pc with Deleted _ => Some (fst pc) | _ => None end.
Definition modified_of (pc : string * change) : option string :=
  match snd pc with Changed o n => if mode_only o n then None else Some (fst pc) | _ => None end.
Definition mode_changed_of (pc : string * change) : option string :=
  match snd pc with Changed o n => if mode_only o n then Some (fst pc) else None | _ => None end.
Definition entry_of (pc : string * change) : JsonValue :=
  match snd pc with
  | Added row => file_entry (fst pc) "added" None (Some row)
  | Deleted row => file_entry (fst pc) "deleted" (Some row) None
  | Changed o n => file_entry (fst pc) (if mode_only o n then "mode_changed" else "modified") (Some o) (Some n)
  end.
Definition old_of (c : change) : option SnapshotFileRow := match c with Added _ => None | Deleted row | Changed row _ => Some row end.
Definition new_of (c : change) : option SnapshotFileRow := match c with Deleted _ => None | Added row | Changed _ row => Some row end.

(** A change as the walk makes it. *)
Definition change_ok (pc : string * change) : Prop :=
  match snd pc with Added row | Deleted row => fr_path row = fst pc | Changed o n => differs o n = true end.

Lemma changes_ok l m n : lists_changes l m n -> rows_under (fun _ => True) m -> rows_under (fun _ => True) n -> Forall change_ok l.
Proof.
  intros [_ Hl] Hm Hn. apply Forall_forall. intros [p c] Hin%Hl. unfold change_ok. cbn [fst snd]. destruct (m !! p) as [o|] eqn:Ho, (n !! p) as [r|] eqn:Hr; cbn in Hin.
  - destruct (differs o r) eqn:Hd; [|discriminate Hin]. by injection Hin as <-.
  - injection Hin as <-. by destruct (Hm p o Ho).
  - injection Hin as <-. by destruct (Hn p r Hr).
  - discriminate Hin.
Qed.

Lemma old_new_of l m n p c : lists_changes l m n -> (p, c) ∈ l -> old_of c = m !! p /\ new_of c = n !! p.
Proof.
  intros [_ Hl] Hin%Hl. destruct (m !! p) as [o|], (n !! p) as [r|]; cbn in Hin; try discriminate Hin; [destruct (differs o r); [|discriminate Hin]|..]; by injection Hin as <-.
Qed.

(** What the walk has recorded after the changes [l]. *)
Record recorded (l : list (string * change)) (st : SnapshotTreeDiffState) : Prop := {
  rec_added : added st = omap added_of l;
  rec_deleted : deleted st = omap deleted_of l;
  rec_modified : modified st = omap modified_of l;
  rec_mode_changed : mode_changed st = omap mode_changed_of l;
  rec_files : file_entries st = map entry_of l;
  rec_old : forall p row, old_rows st !! p = Some row <-> exists c, (p, c) ∈ l /\ old_of c = Some row;
  rec_new : forall p row, new_rows st !! p = Some row <-> exists c, (p, c) ∈ l /\ new_of c = Some row
}.

Lemma insert_recorded (rows : file_rows) (part : change -> option SnapshotFileRow) l q c : (q ∉ map fst l) ->
  (forall p row, rows !! p = Some row <-> exists c, (p, c) ∈ l /\ part c = Some row) ->
  forall p row, match part c with Some r => <[q := r]> rows | None => rows end !! p = Some row <-> exists c', (p, c') ∈ l ++ [(q, c)] /\ part c' = Some row.
Proof.
  intros Hq Hrows p row. setoid_rewrite elem_of_snoc. destruct (part c) as [r|] eqn:Hr.
  - destruct (decide (q = p)) as [->|Hne]; [rewrite lookup_insert_eq|rewrite lookup_insert_ne, Hrows by done]; split.
    + intros [= <-]. exists c. auto.
    + intros (c' & [Hin|[= ->]] & Hc'); [|congruence]. exfalso. apply Hq. apply list_elem_of_fmap. by exists (p, c').
    + intros (c' & Hin & Hc'). exists c'. auto.
    + intros (c' & [Hin|[= -> ->]] & Hc'); [by exists c'|done].
  - rewrite Hrows. split; intros (c' & Hin & Hc'); [exists c'; auto|]. destruct Hin as [Hin|[= -> ->]]; [by exists c'|congruence].
Qed.

Lemma omap_snoc {A B} (f : A -> option B) l x : omap f (l ++ [x]) = omap f l ++ match f x with Some y => [y] | None => [] end.
Proof. rewrite list.omap_app. cbn. by destruct (f x). Qed.

Lemma walk_recorded l : NoDup (map fst l) -> Forall change_ok l -> recorded l (foldl apply_change default_diff_state l).
Proof.
  induction l as [|[p c] l IH] using rev_ind; intros Hnd Hok.
  - split; try done; intros p row; cbn; rewrite lookup_empty; (split; [done|by intros (? & ?%elem_of_nil & _)]).
  - rewrite map_app, NoDup_app in Hnd. destruct Hnd as (Hnd & Hno & _). apply Forall_app in Hok as [Hok Hc]. apply Forall_inv in Hc. cbn in Hc.
    destruct (IH Hnd Hok) as [H1 H2 H3 H4 H5 H6 H7]. rewrite foldl_snoc. assert (p ∉ map fst l) as Hp by (intros Hp; apply (Hno p Hp); by left).
    pose proof (insert_recorded _ old_of l p c Hp H6) as Hold. pose proof (insert_recorded _ new_of l p c Hp H7) as Hnew.
    set (st := foldl apply_change default_diff_state l) in *. unfold apply_change. cbn [fst snd]. unfold change_ok in Hc. destruct c as [row|row|o n]; cbn [old_of new_of snd fst] in *.
    + split; cbn [push_added_row added deleted modified mode_changed file_entries old_rows new_rows]; rewrite ?Hc; [| | | | |exact Hold|exact Hnew];
        rewrite ?omap_snoc, ?map_app, ?H1, ?H2, ?H3, ?H4, ?H5; cbn; by rewrite ?app_nil_r.
    + split; cbn [push_deleted_row added deleted modified mode_changed file_entries old_rows new_rows]; rewrite ?Hc; [| | | | |exact Hold|exact Hnew];
        rewrite ?omap_snoc, ?map_app, ?H1, ?H2, ?H3, ?H4, ?H5; cbn; by rewrite ?app_nil_r.
    + unfold push_change. unfold differs in Hc. rewrite Hc. cbn [negb].
      split; cbn [added deleted modified mode_changed file_entries old_rows new_rows]; [| | | | |exact Hold|exact Hnew]; rewrite ?omap_snoc, ?map_app, ?H1, ?H2, ?H3, ?H4, ?H5; cbn; rewrite ?app_nil_r; try done;
        unfold modified_of, mode_changed_of; cbn [snd fst]; destruct (mode_only o n); by rewrite ?app_nil_r.
Qed.

(** Every path is in one part. *)
Definition keeps (part : string * change -> option string) : Prop := forall pc q, part pc = Some q -> q = fst pc.

Lemma elem_of_part part (l : list (string * change)) p : keeps part -> p ∈ omap part l <-> exists c, (p, c) ∈ l /\ part (p, c) = Some p.
Proof.
  intros Hk. rewrite list_elem_of_omap. split; [|intros (c & Hin & Hc); by exists (p, c)]. intros ([q c] & Hin & Hc). pose proof (Hk _ _ Hc) as Hq. cbn in Hq. subst q. by exists c.
Qed.
Lemma part_NoDup part (l : list (string * change)) : keeps part -> NoDup (map fst l) -> NoDup (omap part l).
Proof.
  intros Hk. induction l as [|[p c] l IH]; intros Hnd; [constructor|]. cbn [map] in Hnd. apply NoDup_cons in Hnd as [Hno Hnd]. cbn. destruct (part (p, c)) as [q|] eqn:Hq; [|by apply IH].
  pose proof (Hk _ _ Hq) as ->. constructor; [|by apply IH]. intros (c' & Hin & _)%elem_of_part; [|done]. apply Hno. apply list_elem_of_fmap. by exists (p, c').
Qed.
Lemma parts_apart part part' (l : list (string * change)) p : keeps part -> keeps part' -> (forall pc, part pc = None \/ part' pc = None) -> NoDup (map fst l) -> p ∈ omap part l -> p ∈ omap part' l -> False.
Proof.
  intros Hk Hk' Hone Hnd (c & Hin & Hc)%elem_of_part (c' & Hin' & Hc')%elem_of_part; [|done..]. assert (c = c') as <-; [|destruct (Hone (p, c)); congruence].
  apply list_elem_of_lookup in Hin as [i Hi], Hin' as [j Hj]. assert (i = j) as <-; [|congruence].
  eapply (NoDup_lookup _ _ _ p Hnd); change (map fst l) with (fst <$> l); rewrite list_lookup_fmap; [by rewrite Hi|by rewrite Hj].
Qed.

Lemma parts_NoDup l : NoDup (map fst l) -> NoDup (omap added_of l ++ omap deleted_of l ++ omap modified_of l ++ omap mode_changed_of l).
Proof.
  intros Hnd. assert (keeps added_of /\ keeps deleted_of /\ keeps modified_of /\ keeps mode_changed_of) as (K1 & K2 & K3 & K4).
  { split_and!; intros [p c] q; unfold added_of, deleted_of, modified_of, mode_changed_of; cbn; destruct c as [| |o n]; try destruct (mode_only o n); congruence. }
  assert (forall part part' p, keeps part -> keeps part' -> (forall pc, part pc = None \/ part' pc = None) -> p ∈ omap part l -> p ∉ omap part' l) as Hap by (intros part part' p ? ? ? ? ?; by eapply (parts_apart part part')).
  assert (forall pc, (added_of pc = None \/ deleted_of pc = None) /\ (added_of pc = None \/ modified_of pc = None) /\ (added_of pc = None \/ mode_changed_of pc = None) /\
    (deleted_of pc = None \/ modified_of pc = None) /\ (deleted_of pc = None \/ mode_changed_of pc = None) /\ (modified_of pc = None \/ mode_changed_of pc = None)) as Hone.
  { intros [p c]. unfold added_of, deleted_of, modified_of, mode_changed_of. cbn. destruct c as [| |o n]; try destruct (mode_only o n); auto 10. }
  rewrite !NoDup_app. split_and!; try (by apply part_NoDup).
  - intros p Hp Hin. rewrite !elem_of_app in Hin. destruct Hin as [Hin|[Hin|Hin]]; revert Hin; apply (Hap added_of); try done; intros pc; apply (Hone pc).
  - intros p Hp Hin. rewrite !elem_of_app in Hin. destruct Hin as [Hin|Hin]; revert Hin; apply (Hap deleted_of); try done; intros pc; apply (Hone pc).
  - intros p Hp. apply (Hap modified_of); try done. intros pc. apply (Hone pc).
Qed.

(** ** Manifests *)

(** The changes in the order of the loops over manifests. *)
Definition listed (f : string -> option change) (paths : list string) : list (string * change) := omap (fun p => pair p <$> f p) paths.
Definition change_at (m n : file_rows) (p : string) : option change := change_of (m !! p) (n !! p).
Definition manifest_list (m n : file_rows) : list (string * change) :=
  let f := change_at m n in
  listed f (sorted_elements (dom n ∖ dom m)) ++ listed f (sorted_elements (dom m ∖ dom n)) ++ listed f (sorted_elements (dom m ∩ dom n)).

Lemma elem_of_listed f paths p c : (p, c) ∈ listed f paths <-> p ∈ paths /\ f p = Some c.
Proof.
  unfold listed. rewrite list_elem_of_omap. split.
  - intros (q & Hq & H). apply fmap_Some in H as (c' & Hc & [= -> ->]). done.
  - intros [Hp Hc]. exists p. by rewrite Hc.
Qed.
Lemma listed_keys f paths : map fst (listed f paths) = filter (fun p => is_Some (f p)) paths.
Proof.
  induction paths as [|p paths IH]; [done|]. cbn. destruct (f p) as [c|] eqn:Hc; cbn.
  - f_equal. exact IH.
  - exact IH.
Qed.

Lemma manifest_lists m n : lists_changes (manifest_list m n) m n.
Proof.
  unfold manifest_list. cbv zeta. set (f := change_at m n). split.
  - rewrite !map_app, !listed_keys. rewrite !NoDup_app. split_and!; try (apply NoDup_filter, NoDup_sorted_elements).
    + intros p [_ Hp]%list_elem_of_filter Hin. rewrite elem_of_sorted_elements in Hp. apply elem_of_app in Hin as [[_ Hin]%list_elem_of_filter|[_ Hin]%list_elem_of_filter]; rewrite elem_of_sorted_elements in Hin; set_solver.
    + intros p [_ Hp]%list_elem_of_filter [_ Hin]%list_elem_of_filter. rewrite elem_of_sorted_elements in Hp, Hin. set_solver.
  - intros p c. rewrite !elem_of_app, !elem_of_listed, !elem_of_sorted_elements. change (change_of (m !! p) (n !! p)) with (f p). split; [tauto|]. intros Hc.
    rewrite !elem_of_difference, elem_of_intersection, !elem_of_dom. unfold f, change_at in Hc. destruct (m !! p) as [o|] eqn:Ho, (n !! p) as [r|] eqn:Hr; cbn in Hc; [right; right|right; left|left|done];
      (split; [|unfold f, change_at; by rewrite Ho, Hr]); split; try (by eexists); by intros [? ?].
Qed.

Lemma omap_listed {B} (g : string * change -> option B) f paths : omap g (listed f paths) = omap (fun p => c ← f p; g (p, c)) paths.
Proof. unfold listed. induction paths as [|p paths IH]; [done|]. cbn. destruct (f p) as [c|]; cbn; [|exact IH]. destruct (g (p, c)); by rewrite <- IH. Qed.
Lemma omap_all (g : string -> option string) (l : list string) : (forall p, p ∈ l -> g p = Some p) -> omap g l = l.
Proof. induction l as [|p l IH]; intros H; [done|]. cbn. rewrite H by (by left). f_equal. apply IH. intros q Hq. apply H. by right. Qed.
Lemma omap_none {A B} (g : A -> option B) (l : list A) : (forall p, p ∈ l -> g p = None) -> omap g l = [].
Proof. induction l as [|p l IH]; intros H; [done|]. cbn. rewrite H by (by left). apply IH. intros q Hq. apply H. by right. Qed.

(** The two loops over the paths of one manifest. *)
Lemma one_side (rows : file_rows) (f : string -> option change) entry paths acc : (forall p, p ∈ paths -> exists row c, rows !! p = Some row /\ f p = Some c /\ entry_of (p, c) = entry p row) ->
  foldM (fun files path => row ← ok_or (rows !! path) (MissingPath path); Ok (files ++ [entry path row])) acc paths = Ok (acc ++ map entry_of (listed f paths)).
Proof.
  revert acc. induction paths as [|p paths IH]; intros acc H; cbn [foldM]; [by rewrite app_nil_r|]. destruct (H p ltac:(by left)) as (row & c & Hrow & Hc & He).
  rewrite Hrow. cbn [ok_or mbind result_bind]. rewrite IH by (intros q Hq; apply H; by right). cbn. rewrite Hc. cbn. by rewrite He, <- app_assoc.
Qed.

Lemma listed_cons f p paths : listed f (p :: paths) = match f p with Some c => (p, c) :: listed f paths | None => listed f paths end.
Proof. unfold listed. cbn. by destruct (f p). Qed.

Lemma shared_step (m n : file_rows) mods modes files p o r : m !! p = Some o -> n !! p = Some r ->
  shared_change m n (mods, modes, files) p =
    Ok (if differs o r then (mods ++ omap modified_of [(p, Changed o r)], modes ++ omap mode_changed_of [(p, Changed o r)], files ++ map entry_of [(p, Changed o r)])
        else (mods, modes, files)).
Proof.
  intros Ho Hr. unfold shared_change. rewrite Ho, Hr. cbn. unfold differs, modified_of, mode_changed_of, entry_of. cbn [snd fst].
  destruct (mode_only o r); cbn [orb]; [by rewrite !app_nil_r|]. destruct (content_changed o r); [by rewrite !app_nil_r|done].
Qed.

Lemma both_sides (m n : file_rows) paths mods modes files : (forall p, p ∈ paths -> is_Some (m !! p) /\ is_Some (n !! p)) ->
  foldM (shared_change m n) (mods, modes, files) paths =
    Ok (mods ++ omap modified_of (listed (change_at m n) paths), modes ++ omap mode_changed_of (listed (change_at m n) paths), files ++ map entry_of (listed (change_at m n) paths)).
Proof.
  revert mods modes files. induction paths as [|p paths IH]; intros mods modes files H; cbn [foldM]; [by rewrite !app_nil_r|]. destruct (H p ltac:(by left)) as [[o Ho] [r Hr]].
  rewrite (shared_step m n mods modes files p o r Ho Hr), listed_cons. cbn [mbind result_bind].
  assert (change_at m n p = if differs o r then Some (Changed o r) else None) as -> by (unfold change_at; by rewrite Ho, Hr).
  destruct (differs o r); rewrite IH by (intros q Hq; apply H; by right); [|done].
  change ((p, Changed o r) :: listed (change_at m n) paths) with ([(p, Changed o r)] ++ listed (change_at m n) paths). by rewrite !list.omap_app, map_app, <- !app_assoc.
Qed.

Lemma manifest_run (m n : file_rows) : exists c, changes_of_manifests m n = Ok c /\
  mc_added c = omap added_of (manifest_list m n) /\ mc_deleted c = omap deleted_of (manifest_list m n) /\ mc_modified c = omap modified_of (manifest_list m n) /\
  mc_mode_changed c = omap mode_changed_of (manifest_list m n) /\ mc_files c = map entry_of (manifest_list m n).
Proof.
  unfold changes_of_manifests, manifest_list. cbv zeta. set (f := change_at m n).
  set (A := sorted_elements (dom n ∖ dom m)). set (D := sorted_elements (dom m ∖ dom n)). set (B := sorted_elements (dom m ∩ dom n)).
  assert (forall p, p ∈ A -> exists row, m !! p = None /\ n !! p = Some row) as HA.
  { intros p [[row Hr]%elem_of_dom Ho%not_elem_of_dom]%elem_of_sorted_elements%elem_of_difference. by exists row. }
  assert (forall p, p ∈ D -> exists row, m !! p = Some row /\ n !! p = None) as HD.
  { intros p [[row Hr]%elem_of_dom Ho%not_elem_of_dom]%elem_of_sorted_elements%elem_of_difference. by exists row. }
  assert (forall p, p ∈ B -> exists o r, m !! p = Some o /\ n !! p = Some r) as HB.
  { intros p [[o Ho]%elem_of_dom [r Hr]%elem_of_dom]%elem_of_sorted_elements%elem_of_intersection. by exists o, r. }
  rewrite (one_side n f (fun path row => file_entry path "added" None (Some row))) by (intros p Hp; destruct (HA p Hp) as (row & Ho & Hr); exists row, (Added row); unfold f, change_at; by rewrite Ho, Hr).
  cbn [mbind result_bind].
  rewrite (one_side m f (fun path row => file_entry path "deleted" (Some row) None)) by (intros p Hp; destruct (HD p Hp) as (row & Ho & Hr); exists row, (Deleted row); unfold f, change_at; by rewrite Ho, Hr).
  cbn [mbind result_bind]. rewrite both_sides by (intros p Hp; destruct (HB p Hp) as (o & r & -> & ->); split; by eexists). cbn [mbind result_bind].
  eexists. split; [reflexivity|]. cbn [mc_added mc_deleted mc_modified mc_mode_changed mc_files]. rewrite !list.omap_app, !omap_listed.
  assert (forall p, p ∈ B -> f p = None \/ exists o r, f p = Some (Changed o r)) as HB'.
  { intros p Hp. destruct (HB p Hp) as (o & r & Ho & Hr). unfold f, change_at. rewrite Ho, Hr. cbn. destruct (differs o r); eauto. }
  assert (forall p, p ∈ A -> exists row, f p = Some (Added row)) as HfA by (intros p Hp; destruct (HA p Hp) as (row & Ho & Hr); exists row; unfold f, change_at; by rewrite Ho, Hr).
  assert (forall p, p ∈ D -> exists row, f p = Some (Deleted row)) as HfD by (intros p Hp; destruct (HD p Hp) as (row & Ho & Hr); exists row; unfold f, change_at; by rewrite Ho, Hr).
  split_and!.
  - rewrite (omap_all _ A), (omap_none _ D), (omap_none _ B), !app_nil_r; [done| | |]; intros p Hp;
      [by destruct (HB' p Hp) as [->|(o & r & ->)]|by destruct (HfD p Hp) as [row ->]|by destruct (HfA p Hp) as [row ->]].
  - rewrite (omap_none _ A), (omap_all _ D), (omap_none _ B), !app_nil_r; [done| | |]; intros p Hp;
      [by destruct (HB' p Hp) as [->|(o & r & ->)]|by destruct (HfD p Hp) as [row ->]|by destruct (HfA p Hp) as [row ->]].
  - rewrite (omap_none _ A), (omap_none _ D); [done| |]; intros p Hp; [by destruct (HfD p Hp) as [row ->]|by destruct (HfA p Hp) as [row ->]].
  - rewrite (omap_none _ A), (omap_none _ D); [done| |]; intros p Hp; [by destruct (HfD p Hp) as [row ->]|by destruct (HfA p Hp) as [row ->]].
  - by rewrite !map_app, app_assoc.
Qed.

(** ** A manifest as JSON *)

(** A row as a snapshot has it: under its path, with the mode that its text
    means and a size that is an [i64]. *)
Definition row_fits (p : string) (row : SnapshotFileRow) : Prop :=
  fr_path row = p /\ to_mode_int (fr_mode_raw row) = Ok (fr_mode_int row) /\ forall z, fr_size_bytes row = Some z -> in_i64 z = true.
Definition rows_fit (m : file_rows) : Prop := forall p row, m !! p = Some row -> row_fits p row.

Lemma number_of_i64 z : in_i64 z = true -> number_i64 (i64_json z) = Some z.
Proof.
  unfold in_i64. rewrite andb_true_iff, !Z.leb_le. intros [H1 H2]. unfold number_i64, i64_json. destruct (z <? 0)%Z eqn:Hz; [done|]. apply Z.ltb_ge in Hz. cbn [as_i64].
  rewrite (proj2 (N.ltb_lt _ _)) by lia. by rewrite Z2N.id.
Qed.

Definition rendered_row (row : SnapshotFileRow) : JsonValue :=
  json_object [("path", JString (fr_path row)); ("blob_id", optional_string_json (fr_blob_id row)); ("size_bytes", optional_i64_json (fr_size_bytes row)); ("mode", fr_mode_raw row)]%string.

Lemma parse_rendered p row : row_fits p row -> exists obj, rendered_row row = JObject obj /\ map_get "path" obj = Some (JString p) /\ parse_snapshot_file_row (JObject obj) = Ok row.
Proof.
  intros (Hp & Hmode & Hsize). eexists. split; [reflexivity|]. split; [by rewrite <- Hp|]. unfold parse_snapshot_file_row.
  match goal with |- context [map_get "path" ?m] => set (obj := m) end.
  assert (map_get "path" obj = Some (JString (fr_path row))) as -> by reflexivity. assert (map_get "size_bytes" obj = Some (optional_i64_json (fr_size_bytes row))) as -> by reflexivity.
  assert (map_get "mode" obj = Some (fr_mode_raw row)) as -> by reflexivity. assert (map_get "blob_id" obj = Some (optional_string_json (fr_blob_id row))) as -> by reflexivity.
  assert (parse_optional_i64 (optional_i64_json (fr_size_bytes row)) = Ok (fr_size_bytes row)) as ->.
  { destruct (fr_size_bytes row) as [z|]; [|done]. unfold optional_i64_json, parse_optional_i64. pose proof (number_of_i64 z (Hsize z eq_refl)) as Hn.
    unfold i64_json in *. destruct (z <? 0)%Z; by rewrite Hn. }
  cbn [mbind option_bind as_str ok_or result_bind default]. cbn. rewrite Hmode. by destruct row as [path [b|] size raw int].
Qed.

Lemma json_object_sorted l : map_sorted l -> json_object l = JObject l.
Proof.
  unfold json_object, map_sorted. intros Hl. f_equal. induction l as [|[k v] l IH] using rev_ind; [done|]. unfold map_keys in *. rewrite map_app in Hl. rewrite foldl_snoc. cbn [fst snd].
  apply StronglySorted_app in Hl as (H1 & H2 & _). rewrite IH by done. apply map_insert_last. apply Forall_forall. intros k' Hk'. apply H1; [done|by left].
Qed.

Lemma sorted_keys_strict {V} (m : gmap string V) : StronglySorted (fun a b => str_ltb a b = true) (sorted_keys m).
Proof.
  pose proof (sorted_elements_sorted (dom m)) as Hs. pose proof (NoDup_sorted_elements (dom m)) as Hnd. unfold sorted_keys. induction Hs as [|k l Hl IH Hk]; [constructor|].
  apply NoDup_cons in Hnd as [Hno Hnd]. constructor; [by apply IH|]. apply Forall_forall. intros k' Hin. apply str_ltb_le. split; [by eapply Forall_forall in Hk|]. by intros ->.
Qed.

Lemma render_manifest m : render_snapshot_manifest m = JObject (map (fun kv => (fst kv, rendered_row (snd kv))) (sorted_entries m)).
Proof.
  unfold render_snapshot_manifest. apply json_object_sorted. unfold map_sorted, map_keys. rewrite map_map. cbn. rewrite sorted_entries_keys. apply sorted_keys_strict.
Qed.

(** A manifest that was rendered is read back. *)
Lemma coerce_rendered m : rows_fit m -> coerce_snapshot_manifest (render_snapshot_manifest m) = Ok m.
Proof.
  intros Hfit. rewrite render_manifest. cbn [coerce_snapshot_manifest].
  destruct (foldM_total manifest_entry (fun seen out => forall p row, out !! p = Some row <-> m !! p = Some row /\ (p, rendered_row row) ∈ seen)
    (map (fun kv => (fst kv, rendered_row (snd kv))) (sorted_entries m)) ∅) as (out & Hrun & Hout).
  - intros p row. rewrite lookup_empty. split; [done|]. by intros [_ ?%elem_of_nil].
  - intros seen [p v] rest out Hl Hout. assert ((p, v) ∈ map (fun kv => (fst kv, rendered_row (snd kv))) (sorted_entries m)) as Hin by (rewrite Hl; set_solver).
    apply list_elem_of_fmap in Hin as ([q row] & [= -> ->] & Hq%elem_of_sorted_entries). destruct (parse_rendered q row (Hfit q row Hq)) as (obj & Hobj & Hpath & Hparse).
    unfold manifest_entry. cbn [fst snd] in *. rewrite Hobj. cbn. rewrite Hpath. unfold parse_snapshot_file_row in Hparse. rewrite Hparse. cbn [mbind result_bind].
    eexists. split; [done|]. intros p row'. rewrite elem_of_snoc. destruct (decide (q = p)) as [<-|Hne].
    + rewrite lookup_insert_eq. rewrite Hq. split; [intros [= <-]; split; [done|right; by rewrite Hobj]|by intros [[= <-] _]].
    + rewrite lookup_insert_ne, Hout by done. split; [intros [? ?]; auto|]. intros [? [?|[= ? ?]]]; [done|congruence].
  - rewrite Hrun. f_equal. apply map_eq. intros p. apply option_eq. intros row. rewrite Hout. split; [by intros [? _]|]. intros Hp. split; [done|].
    apply list_elem_of_fmap. exists (p, row). split; [done|by apply elem_of_sorted_entries].
Qed.

(** ** Rows from trees *)

Section Rows.
Context {R : SnapshotReader}.

Definition mode_fits (raw : JsonValue) (mode : Z) : Prop := to_mode_int raw = Ok mode.

Lemma entries_modes tree_id entries name entry : entries_of tree_id = Ok entries -> entries !! name = Some entry -> te_entry_type entry <> "tree"%string ->
  mode_fits (te_mode_raw entry) (te_mode_int entry).
Proof.
  unfold entries_of. intros H. skip_bind H. apply bind_Ok in H as (payload & _ & H). unfold parse_tree_entries in H. apply bind_Ok in H as (rows & _ & H). revert name entry.
  refine (foldM_ind (parse_tree_entry tree_id) (fun _ m => forall name entry, m !! name = Some entry -> te_entry_type entry <> "tree"%string -> mode_fits (te_mode_raw entry) (te_mode_int entry)) rows ∅ entries _ _ H).
  { intros name e. by rewrite lookup_empty. }
  intros seen row rest m m' _ IH Hstep name entry. unfold parse_tree_entry in Hstep. destruct row as [| | | | |obj]; try discriminate Hstep.
  apply bind_Ok in Hstep as (n & _ & Hstep). skip_bind Hstep. apply bind_Ok in Hstep as (ty & _ & Hstep). apply bind_Ok in Hstep as (mode & Hmode & Hstep).
  skip_bind Hstep. apply bind_Ok in Hstep as (? & _ & [= <-]). destruct (decide (n = name)) as [<-|Hne]; [|rewrite lookup_insert_ne by done; apply IH].
  rewrite lookup_insert_eq. intros [= <-]. cbn. intros Ht. by rewrite bool_decide_eq_false_2 in Hmode.
Qed.

Lemma tree_modes depth tree_id prefix m : tree_map depth tree_id prefix = Ok m -> forall p row, m !! p = Some row -> mode_fits (fr_mode_raw row) (fr_mode_int row).
Proof.
  revert tree_id prefix m. induction depth as [|depth IH]; intros tree_id prefix m; [done|]. rewrite tree_map_S. intros (entries & Hentries & H)%bind_Ok.
  refine (foldM_ind _ (fun _ m => forall p row, m !! p = Some row -> mode_fits (fr_mode_raw row) (fr_mode_int row)) _ ∅ m _ _ H); [by intros p row; rewrite lookup_empty|].
  intros seen [name entry] rest m1 m2 Hl Hm1 Hstep. apply bind_Ok in Hstep as (me & Hme & [= <-]). cbn [fst snd] in Hme.
  intros p row [Hp|[_ Hp]]%lookup_union_Some_raw; [|by eapply Hm1]. unfold entry_map in Hme. case_bool_decide; [by eapply IH|].
  apply bind_Ok in Hme as (row' & Hrow & [= <-]). apply lookup_singleton_Some in Hp as [<- <-]. unfold snapshot_file_row_from_tree_entry in Hrow. apply bind_Ok in Hrow as (_ & _ & [= <-]).
  cbn. eapply (entries_modes tree_id entries name); [exact Hentries| |done]. apply elem_of_sorted_entries. rewrite Hl. apply elem_of_app. right. by left.
Qed.

(** Sizes are [i64]s, as they are in the program. *)
Definition sizes_fit (m : file_rows) : Prop := forall p row z, m !! p = Some row -> fr_size_bytes row = Some z -> in_i64 z = true.

Lemma root_rows_fit depth root m : plain_names -> depth <> 0 -> rows_of_root depth root = Ok m -> sizes_fit m -> rows_fit m.
Proof.
  intros Hplain Hd Hm Hs p row Hp. split; [by destruct (rows_of_root_paths Hplain depth root m Hm ltac:(done) p row Hp)|]. split; [|by intros z; apply (Hs p)].
  apply rows_of_root_map in Hm; [|done]. destruct root as [tree_id|]; [by eapply tree_modes|]. destruct depth; [done|]. injection Hm as <-. by rewrite lookup_empty in Hp.
Qed.

Lemma with_blob_perm rows rows' blob_id paths paths' path : paths ≡ₚ paths' -> (forall p, p ∈ paths -> rows !! p = rows' !! p) ->
  with_blob rows blob_id paths = [path] <-> with_blob rows' blob_id paths' = [path].
Proof.
  intros Hperm Hrows. assert (with_blob rows blob_id paths = with_blob rows' blob_id paths) as -> by (apply list_filter_ext_in; intros p Hp; unfold blob_of; by rewrite Hrows).
  assert (with_blob rows' blob_id paths ≡ₚ with_blob rows' blob_id paths') as Hw by (unfold with_blob; by rewrite Hperm).
  split; intros H; rewrite H in Hw; [by apply Permutation_singleton_l in Hw|by apply Permutation_singleton_r in Hw].
Qed.

(** Only the rows of the given paths matter for the hints. *)
Lemma hints_agree old_map new_map added deleted m n added' deleted' : added ≡ₚ added' -> deleted ≡ₚ deleted' ->
  (forall p, p ∈ deleted -> old_map !! p = m !! p) -> (forall p, p ∈ added -> new_map !! p = n !! p) ->
  build_rename_hints old_map new_map added deleted = build_rename_hints m n added' deleted'.
Proof.
  intros Ha Hd Hold Hnew. apply hints_ext. intros h. unfold suggests. rewrite (with_blob_perm old_map m _ deleted deleted'), (with_blob_perm new_map n _ added added') by done.
  split; intros (H1 & H2 & H3); (split; [done|]); (split; [done|]).
  - assert (rh_old_path h ∈ with_blob m (rh_blob_id h) deleted') as [_ Hin1]%list_elem_of_filter by (rewrite H1; by left).
    assert (rh_new_path h ∈ with_blob n (rh_blob_id h) added') as [_ Hin2]%list_elem_of_filter by (rewrite H2; by left). rewrite <- Hold, <- Hnew by (by rewrite ?Hd, ?Ha). exact H3.
  - assert (rh_old_path h ∈ with_blob m (rh_blob_id h) deleted') as [_ Hin1]%list_elem_of_filter by (rewrite H1; by left).
    assert (rh_new_path h ∈ with_blob n (rh_blob_id h) added') as [_ Hin2]%list_elem_of_filter by (rewrite H2; by left). rewrite Hold, Hnew by (by rewrite ?Hd, ?Ha). exact H3.
Qed.

(** C19. Walking two trees finds what comparing all their files finds. Let the
    names in trees have no slash, and let [m] and [n] be the files that are
    collected below two roots. Then the walk over the two trees, which skips a
    pair of equal subtrees, succeeds, and so does the comparison of the
    manifests of [m] and [n] as JSON; both reports list the same added, deleted,
    modified and mode-changed paths and the same entries of files, each once, up
    to their order; and they have the same hints of renames and of moved
    directories and the same number of changed files. *)
Theorem tree_diff_agrees depth old new m n old_id new_id max_bytes {D : TextDiffer} : plain_names -> depth <> 0 ->
  rows_of_root depth old = Ok m -> rows_of_root depth new = Ok n -> sizes_fit m -> sizes_fit n ->
  exists st c hints,
    diff_snapshot_trees depth old new = Ok st /\ changes_of_manifests m n = Ok c /\
    added st ≡ₚ mc_added c /\ deleted st ≡ₚ mc_deleted c /\ modified st ≡ₚ mc_modified c /\ mode_changed st ≡ₚ mc_mode_changed c /\ file_entries st ≡ₚ mc_files c /\
    NoDup (mc_added c ++ mc_deleted c ++ mc_modified c ++ mc_mode_changed c) /\
    snapshot_diff_from_tree_result st ∅ old_id new_id false max_bytes =
      Ok (report_json old_id new_id (added st) (deleted st) (modified st) (mode_changed st) hints (file_entries st) (summary_json (files_changed c) 0 0 ++ ids_json old_id new_id)) /\
    diff_snapshot_manifests_impl (render_snapshot_manifest m) (render_snapshot_manifest n) old_id new_id =
      Ok (report_json old_id new_id (mc_added c) (mc_deleted c) (mc_modified c) (mc_mode_changed c) hints (mc_files c) (summary_json (files_changed c) 0 0)).
Proof.
  intros Hplain Hd Hm Hn Hsm Hsn. destruct (diff_trees_run Hplain depth old new m n Hd Hm Hn) as (l & Hrun & Hl).
  destruct (manifest_run m n) as (c & Hc & C1 & C2 & C3 & C4 & C5). pose proof (manifest_lists m n) as Hl'. pose proof (lists_changes_perm _ _ _ _ Hl Hl') as Hperm.
  assert (Forall change_ok l) as Hok by (eapply changes_ok; [exact Hl|eapply rows_of_root_paths; [done|exact Hm|done]|eapply rows_of_root_paths; [done|exact Hn|done]]).
  pose proof (walk_recorded l (proj1 Hl) Hok) as [W1 W2 W3 W4 W5 W6 W7]. set (st := foldl apply_change default_diff_state l) in *.
  assert (added st ≡ₚ mc_added c) as P1 by (rewrite W1, C1; by rewrite Hperm). assert (deleted st ≡ₚ mc_deleted c) as P2 by (rewrite W2, C2; by rewrite Hperm).
  assert (modified st ≡ₚ mc_modified c) as P3 by (rewrite W3, C3; by rewrite Hperm). assert (mode_changed st ≡ₚ mc_mode_changed c) as P4 by (rewrite W4, C4; by rewrite Hperm).
  assert (file_entries st ≡ₚ mc_files c) as P5 by (rewrite W5, C5; by rewrite Hperm).
  exists st, c, (build_rename_hints m n (mc_added c) (mc_deleted c)). split; [done|]. split; [done|]. do 5 (split; [done|]). split; [|split].
  - rewrite C1, C2, C3, C4. apply parts_NoDup, Hl'.
  - unfold snapshot_diff_from_tree_result. cbn [mbind result_bind fst snd]. f_equal. f_equal; [|unfold files_changed; by rewrite P1, P2, P3, P4].
    apply hints_agree; [done|done| |].
    + intros p Hp. rewrite W2 in Hp. apply list_elem_of_omap in Hp as ([q ch] & Hin & Hq). unfold deleted_of in Hq. cbn in Hq. destruct ch as [|row|]; try discriminate Hq. injection Hq as ->.
      destruct (old_new_of l m n p _ Hl Hin) as [<- _]. cbn. apply W6. by exists (Deleted row).
    + intros p Hp. rewrite W1 in Hp. apply list_elem_of_omap in Hp as ([q ch] & Hin & Hq). unfold added_of in Hq. cbn in Hq. destruct ch as [row| |]; try discriminate Hq. injection Hq as ->.
      destruct (old_new_of l m n p _ Hl Hin) as [_ <-]. cbn. apply W7. by exists (Added row).
  - unfold diff_snapshot_manifests_impl. rewrite !coerce_rendered by (by eapply root_rows_fit). cbn [mbind result_bind]. by rewrite Hc.
Qed.
End Rows.

(** ** An example *)

Definition example_entry (name type target : string) (size : N) : JsonValue :=
  json_object [("entry_name", JString name); ("entry_type", JString type); ("target_id", JString target); ("size_bytes", JNumber (PosInt size)); ("mode", JString "100644")]%string.
Definition example_payload (entries : list JsonValue) : JsonValue := json_object [("entries", JArray entries)]%string.

(** A directory that stays and a file that is renamed. *)
Definition example_tree_payload (tree_id : string) : option JsonValue :=
  if bool_decide (tree_id = "T1"%string) then Some (example_payload [example_entry "lib" "tree" "T0" 0; example_entry "a" "blob" "B1" 3])
  else if bool_decide (tree_id = "T2"%string) then Some (example_payload [example_entry "b" "blob" "B1" 3; example_entry "lib" "tree" "T0" 0])
  else if bool_decide (tree_id = "T0"%string) then Some (example_payload [example_entry "x" "blob" "B2" 5])
  else None.
Definition example_reader : SnapshotReader := {|
  read_snapshot_manifest := fun _ => Err "no manifest"%string;
  read_snapshot_payload := fun _ => Ok None;
  read_snapshot_root_tree_payload := fun _ => Ok None;
  read_tree_payload := fun tree_id => Ok (example_tree_payload tree_id)
|}.
Definition toy_differ : TextDiffer := {| all_changes := fun _ _ => []; unified_diff := fun _ _ _ _ => EmptyString |}.

Definition names_plain (r : diffed tree_rows) : bool := match r with Ok entries => forallb no_slash (sorted_keys entries) | Err _ => true end.
Lemma example_plain : plain_names (R := example_reader).
Proof.
  assert (forall r entries name, names_plain r = true -> r = Ok entries -> is_Some (entries !! name) -> no_slash name = true) as Hnames.
  { intros r entries name Hr -> Hname. cbn in Hr. rewrite forallb_forall in Hr. apply Hr. apply list_elem_of_In. by apply elem_of_sorted_keys. }
  intros tree_id entries name Hentries Hname. eapply (Hnames _ entries name); [|exact Hentries|exact Hname]. unfold entries_of. cbn [read_tree_payload example_reader].
  unfold example_tree_payload. repeat case_bool_decide; vm_compute; reflexivity.
Qed.

Definition ok_rows (r : diffed file_rows) : file_rows := match r with Ok m => m | Err _ => ∅ end.
Definition row_size_fits (row : SnapshotFileRow) : bool := match fr_size_bytes row with Some z => in_i64 z | None => true end.
Lemma sizes_fit_check m : forallb (fun kv => row_size_fits (snd kv)) (sorted_entries m) = true -> sizes_fit m.
Proof.
  rewrite forallb_forall. intros H p row z Hp Hz. specialize (H (p, row)). cbn [snd] in H. unfold row_size_fits in H. rewrite Hz in H. apply H. apply list_elem_of_In. by apply elem_of_sorted_entries.
Qed.

Definition example_rows (root : string) : file_rows := ok_rows (rows_of_root (R := example_reader) 3 (Some root)).
Lemma tree_diff_agrees_witness : exists st c hints, sorted_keys (example_rows "T1") = ["a"; "lib/x"]%string /\
  diff_snapshot_trees (R := example_reader) 3 (Some "T1"%string) (Some "T2"%string) = Ok st /\ added st = ["b"%string] /\ mc_added c = ["b"%string] /\
  diff_snapshot_manifests_impl (render_snapshot_manifest (example_rows "T1")) (render_snapshot_manifest (example_rows "T2")) None None =
    Ok (report_json None None (mc_added c) (mc_deleted c) (mc_modified c) (mc_mode_changed c) hints (mc_files c) (summary_json (files_changed c) 0 0)).
Proof.
  destruct (tree_diff_agrees (R := example_reader) 3 (Some "T1"%string) (Some "T2"%string) (example_rows "T1") (example_rows "T2") None None 0 (D := toy_differ))
    as (st & c & hints & Hst & Hc & _ & _ & _ & _ & _ & _ & Htree & Hreport).
  - exact example_plain.
  - discriminate.
  - vm_compute. reflexivity.
  - vm_compute. reflexivity.
  - apply sizes_fit_check. vm_compute. reflexivity.
  - apply sizes_fit_check. vm_compute. reflexivity.
  - exists st, c, hints. split; [vm_compute; reflexivity|]. split; [exact Hst|]. split; [|split; [|exact Hreport]].
    + assert (st = match diff_snapshot_trees (R := example_reader) 3 (Some "T1"%string) (Some "T2"%string) with Ok st => st | Err _ => st end) as -> by (by rewrite Hst). vm_compute. reflexivity.
    + assert (c = match changes_of_manifests (example_rows "T1") (example_rows "T2") with Ok c => c | Err _ => c end) as -> by (by rewrite Hc). vm_compute. reflexivity.
Defined.

(** When only one of two snapshots has a tree, the walk takes the other one for
    empty: a file that both have, with the same content, is reported as added,
    although the manifest of the old snapshot was there to be read. *)
Definition mixed_reader : SnapshotReader := {|
  read_snapshot_manifest := fun _ => Ok (json_object [("a", json_object [("blob_id", JString "B1")])]%string);
  read_snapshot_payload := fun _ => Ok None;
  read_snapshot_root_tree_payload := fun snapshot_id =>
    Ok (if bool_decide (snapshot_id = "new"%string) then Some (json_object [("tree_id", JString "T"); ("entries", JArray [])]%string) else None);
  read_tree_payload := fun _ => Ok (Some (example_payload [example_entry "a" "blob" "B1" 3]))
|}.
Definition added_field (r : diffed JsonValue) : option JsonValue := match r with Ok (JObject m) => map_get "added" m | _ => None end.
Example manifest_ignored :
  let report old := snapshot_diff_from_readers_impl (R := mixed_reader) (D := toy_differ) None 3 (Some old) (Some "new"%string) false 0 in
  added_field (report "old"%string) = Some (JArray [JString "a"]) /\ added_field (report "new"%string) = Some (JArray []).
Proof. split; vm_compute; reflexivity. Qed.
